(* ===== verification/_CoqProject ===== *)
-Q . S2P
Prelude.v
Deps.v
Slice.v
Cryptography.v
B32.v
B32Props.v
Multi.v
Splice.v
SpliceFacts.v
Ads.v
AdsFacts.v
Onion.v
OnionFacts.v
Registry.v
OnionPeel.v
Robust.v
Packet.v
Segcalc.v
SplitJoin.v
Node.v
Sess.v
SessFacts.v
SessProps.v
SelectProps.v
Hidden.v
Skins.v
SkinFacts.v
Engine.v
EngineFacts.v
ReplyPath.v
Lifecycle.v
Buying.v
Billing.v
EngineProps.v
Datastore.v
Gossip.v
GossipFacts.v
GossipProps.v
EngineNew.v
Dispatcher.v
DispatcherInv.v
Delivery.v
DispatcherProps.v
PeerMem.v
PeerMemFacts.v
PeerMemProps.v
PeerDs.v
PeerDsFacts.v
PeerDsInv.v
PeerDsSteps.v
PeerDsGc.v
PeerDsToy.v
PeerDsProps.v
PeerDsBooks.v
PeerDsBooksProps.v
Chan.v
Quit.v
QuitProps.v
Interrupt.v
InterruptProps.v
Transport.v
TransportProps.v
Splicer.v
SplicerProps.v
Opts.v
OptsProps.v
Logging.v
Cmds.v
Config.v
CmdsProps.v
CliProps.v
ConfigProps.v
Networks.v
Rpc.v
Storage.v
P2p.v
Seed.v
SeedProps.v
EventLoop.v
EventLoopProps.v
