(* ===== verification/Prelude.v ===== *)
(** * Indranet: a model of the relay's core in Rocq

    Indranet is an onion-routing relay in Go.  A client wraps a message in layers
    ([pkg/codec/onion]), each sealed for one relay; relays peel a layer, act on
    it and send the rest on; messages between peers travel as encrypted packets
    with Reed-Solomon redundancy ([pkg/engine/packet]); relays advertise
    themselves by signed records ([pkg/codec/ad]).

    ** The files and the code they model

    - [Prelude]: the outcome of a Go call ([Out]: a value or a panic), state
      passing with panics ([GoM]), Go's [error] values, integers at their width,
      bytes, slicing and copying with Go's bounds, fixed-size arrays.
    - [Deps]: what is not under src/: secp256k1, SHA-256 and AES ([Crypto] with
      [CryptoLaws]), go-multiaddr ([Multiaddrs]); [Toy] is a concrete instance
      of both, with which the witnesses evaluate the definitions.
    - [Slice]: [pkg/util/slice]: fixed-width integers, [Cut], [Cat], [Segment]
      and [NoisePad], the 64-bit word view and [XOR].
    - [Cryptography]: [pkg/crypto], [nonce], [sha256], [ciph]: cloaked keys, key
      sets, shared secrets, encipherment, signatures.
    - [Multi]: [pkg/util/multi]: addresses to bytes and back.
    - [Splice], [SpliceFacts]: [pkg/util/splice]: the buffer with its cursor and
      segment list; one definition per writer and reader.  A writer at the
      cursor changes exactly its window; a reader returns what the writer of the
      same type wrote.  These facts are the interface of the codecs.
    - [Ads], [AdsFacts]: [pkg/codec/ad]: load, peer, intro, services and
      addresses advertisements.  The class [AdWire] states what an advertisement
      promises to gossip; each one is an instance.
    - [Onion]: [pkg/codec/onion] and the routing headers of [pkg/hidden]: one
      encoder, decoder and constructor per message; [Onion] is the tagged union
      of the message types (the Go interface value), [Encode], [Decode] and
      [Onion_Len] dispatch on it as the interface calls do.
    - [OnionFacts]: the specified wire form ([image]) and the invariant that an
      encoder emits it (class [Emits]).
    - [Registry]: [pkg/codec/reg] and the dispatcher's messages; [the_registry]
      is what the packages' [init] functions register.
    - [OnionPeel]: receiving: a message is recognised, decoded, decrypted, and
      the next layer brought to the front.
    - [Robust]: decoding arbitrary bytes (class [Consumes]), and what comes back of
      every message that is sent.
    - [Packet], [Segcalc], [SplitJoin]: [pkg/engine/packet]: packets, the
      section arithmetic and parity, splitting and joining.  The Reed-Solomon
      coder is the class [ReedSolomon] with the law [RSLaw].
    - [Node]: [pkg/engine/node], [services], [payments], [responses]: the records
      the session manager keeps.
    - [Sess], with [SessFacts], [SessProps], [SelectProps]: [pkg/engine/sess] and
      [sessions]: the manager with its heap of nodes and sessions, the circuit
      cache, the balances, the choice of hops.  [wf] is its invariant.
    - [Hidden]: the hidden service manager of [pkg/hidden].
    - [Skins], [SkinFacts]: [pkg/headers], [onion_skins.go], [acct.go] and the
      [Account] methods: whole messages and what they will cost.
    - [Engine], with [EngineFacts], [ReplyPath], [Lifecycle], [Billing],
      [EngineProps]: [pkg/engine/engine.go], every [Handle] method, the senders.
      [HandleMessage] is the interface call on the onion's type.
    - [Datastore], [Gossip], with [GossipFacts], [GossipProps], [EngineNew]:
      [pkg/engine/ads], [peerstore.go], [engine.New] and the metadata book in the
      datastore: ads are made, sent, received, filed and read back.
    - [Dispatcher], with [DispatcherInv], [Delivery], [DispatcherProps]: [pkg/engine/dispatcher]: packets of messages over one
      connection, acknowledgements, change of keys, parity, collection.
    - [PeerMem], [PeerMemFacts], [PeerMemProps]: [pkg/engine/transport/pstoremem]:
      address book, subscriptions, key, protocol and metadata books.
    - [PeerDs], with [PeerDsFacts], [PeerDsInv], [PeerDsSteps], [PeerDsGc],
      [PeerDsProps]: the address book of [pkg/engine/transport/pstoreds]: records
      shared between cache and callers, cyclic batches and both collectors over a
      datastore and protobuf.  [Inv] is its invariant, [served] what it answers
      from; each operation is shown to act on [served] as a function on plain
      lists.  [PeerDsToy] is a concrete datastore for the witnesses.
    - [PeerDsBooks], [PeerDsBooksProps]: the key and protocol books of [pstoreds]
      and the store of all its books.
    - [Buying]: the sessions bought from a Lightning backend, its hook and the
      circuit iterator.
    - [B32], [B32Props]: [pkg/util/b32]: the base 32 codec with its check, and the
      text of keys, identifiers and signatures.
    - [Opts], [OptsProps]: [pkg/proc/opts], [pkg/util/path], [pkg/util/norm]: the
      six types of option, their hooks and texts, paths over shared arrays.
    - [Cmds], [CmdsProps], [CliProps]: [pkg/proc/cmds]: the tree of commands and
      the reading of a command line.  [Config], [ConfigProps]: environment
      variables, the configuration file and [pkg/proc/app].
    - [Logging]: [pkg/proc/log]: levels, the log file, the printers.
    - [Chan]: Go channels: a buffer, parked senders and receivers, closing.
    - [Quit], [QuitProps]: [pkg/util/qu]: the registry of quit channels.
    - [Interrupt], [InterruptProps]: [pkg/interrupt]: callers and listeners as
      threads whose turns are events.
    - [Transport], [TransportProps]: [pkg/engine/transport]: the listener, its
      connections and their goroutines, discovery; libp2p is the class
      [Addresses] and the arguments of each event.
    - [Splicer], [SplicerProps]: [pkg/splicer] and its value types: containers
      over a store of arrays.
    - [EventLoop], [EventLoopProps]: [Start], [Handler] and [Shutdown] of
      [pkg/engine/engine.go] with their channels, and the goroutines of
      [peerstore.go]; what an input does to the engine is a call of [Engine].
    - [Networks]: [pkg/cfg], [pkg/node]: the networks, their seeds, where the data is.
    - [Rpc]: [pkg/rpc]: keys, options, the store of its keys, the
      server and its tunnel, the client's configuration.
    - [Storage], [P2p]: [pkg/storage], [pkg/p2p]: how the database and the host are
      brought up, and what they do when that fails.
    - [Seed], [SeedProps]: [pkg/seed]: its goroutines and those of the three above as
      threads that signal each other over channels.

    The components call each other as the packages do: [Dispatcher.Handle] hands
    a joined message to [Registry] and on to the engine's [HandleMessage], which
    uses [Onion] and [Splice] to decode and [Sess], [Node] and [Hidden] for its
    state; the senders of [Engine] use [Skins]; [Gossip] uses [Ads] through the
    class [AdType] and files what comes in [Datastore].

    ** What the theorems show

    - Onions: encoding a complete onion never panics and yields the specified
      image; every message that travels under its own magic decodes to what was
      sent, except the hidden service message, which never survives the wire and
      mostly brings its receiver down; a crypt layer opens for its receiver and leaves the inner message; a
      reply opens after the three return hops in any order.
    - Robustness: messages without a length prefix are decoded without panic from
      any bytes, again except the hidden service message; a length prefix is trusted by [ReadBytes], which panics on a false one; what
      is decoded has the type of its magic.
    - Packets: a packet survives the wire; a split message is recovered from any
      sufficient set of packets in any order; the sections of a message are
      contiguous and fit the coder; the lengths for which splitting panics or
      padding is returned as data are characterised.
    - Utilities: integer encodings, word views, [XOR], [Segment], the segment
      dump of a splice.
    - Sessions: what a purchase puts on the channels and leaves at both ends; the
      manager's invariant, the exact arithmetic of balances, the
      lookup by cloak, when the choice of hops ends.
    - Engine: layers are peeled in turn and a reply comes back through three
      relays; a payment buys a session once; a response bills each hop what the
      schedule says; which messages are dropped, and that sending panics.
    - Dispatcher: an invariant of every reachable state; a message sent by one end
      is delivered at the other from any sufficient selection of its packets; keys
      change at both ends; what acknowledgements settle.
    - Gossip: the ads of a relay reach and are filed by the others, and give its
      node back; what cannot be read back, and which messages bring it down.
    - Peer store: the address book refines an abstract table; a subscription hands
      out every address once; collection is unobservable; protocols stay bounded.
    - Datastore peer store: neither cache nor collectors can be observed, the book
      refines a table in whole seconds and, for calls that do not update lifetimes,
      name addresses once and delete one at a time, stands in for the one in memory;
      what the unlocked collector and the deletion of several addresses lose.  The
      key and protocol books stand in for those in memory.
    - Text forms: what the base 32 codec prints it reads; keys read back, and
      which signatures do not; the check detects nothing.
    - Configuration: which values an option reads back from the text it prints; the
      options of a command line, also behind subcommands, go before the environment
      and the file, and which refused values pass unnoticed; a configuration file
      stores only, and which
      values it loses; which environment variables share a name.
    - Transport: whatever the order of turns, chunks reach their connection once
      and in order, and are written in order until a write fails; the simulated
      connection is a queue; which connections cannot be deleted.
    - Shutdown: handlers are called once, last first, all before the program
      says it is done, if no two callers race to start the listener; a request
      alone brings that about; two racing requests, and two racing first callers,
      bring the program down.  Quit channels: what closing, signalling and
      looking at them do, in every reachable state.
    - Event loop: messages and payments are handled once and in order, whatever is
      interleaved; a payment discarded in a pause leaves its payer waiting, one that
      is handled holds the loop until its payer looks; a cancelled loop can end.
    - Seed: it says it is ready only when database, host and server are; it starts
      in 24 turns; how a locked database is unlocked, and which orders of signals
      or unreadable key files bring it down or leave it with the zero key.
    - RPC: keys read back, which do not; when the tunnel's key is kept.
    - Containers: what is put in is read back, up to the size at which the 16-bit
      index overflows.

    ** Conventions and bounds

    A byte slice is the list of its elements with capacity equal to length;
    where the code depends on spare capacity the definition takes the memory
    behind the slice ([DecodeUint24]).  Go's 64-bit [int] is [Z] where the code
    cannot reach 2^63; conversions to narrower types wrap ([wrapu], [wraps]).
    Slices that share memory are views of arrays in a store ([Opts], [Splicer]).
    Shared objects live in heaps and pointers are locations ([Sess]); a mutex is a
    flag, so that locking twice is the outcome [PBlock].  Loops that Go leaves
    unbounded take fuel and panic with [PFuel] when it runs out; the theorems give
    the fuel that is enough, or prove that none is ([SelectHops_starves]).
    [Segment] has the length of its message as fuel, enough whenever the segment
    size is positive ([Segment_ok] proves termination).  Random choices (nonces,
    blinders, noise), the clock and Go's map iteration orders are arguments.
    A goroutine is a state, namely the place in its code where it can be
    interrupted, and an event says which one goes on; a goroutine that waits is
    parked in its channel.
    Invariants of whole runs are proved with [after], a weakest precondition for
    calls that may panic, and [keeps], what a call preserves.  In [PeerDs] every
    reading of the clock in a call is one value of its argument [clk]; a query sees
    the datastore as it is when it begins; the theorems suppose a datastore that
    does not fail ([ReliableStore]); each call holds the lock of its record
    throughout, and the signed records are left out of the claim that the cache
    cannot be observed, because they can tell.

    ** Not modelled

    libp2p, its DHT and its streams, protobuf, the TOML parser, Badger and the
    other third-party packages, gRPC, the WireGuard device and pubsub, which are
    parameters; the text of the help command and the example tree of commands; the
    printer of whole values and the colours of the log; the macaroon credentials of
    [pkg/rpc]; the status that [pkg/p2p] logs every so often; [pkg/docker] and the
    commands under [cmd], which wire third-party packages together; generated
    code.  In [EventLoop] what another goroutine does with the engine is one step,
    though the code does not always hold a lock.  [NodeFromAds] is modelled for
    ads whose addresses are not nil. *)

From Stdlib Require Export ZArith Lia Strings.Byte.
From stdpp Require Export base tactics list gmap strings sorting.

#[global] Open Scope Z_scope.

Declare Scope go_scope.
Delimit Scope go_scope with go.

(** ** Outcomes of Go code

    A Go call either returns or panics.  Errors are ordinary second results
    ([option error]), because that is what they are in Go: a function may
    return both a value and an error, and callers may ignore the latter. *)

Inductive panic :=
| PIndex                 (* index out of range *)
| PSlice                 (* slice bounds out of range *)
| PNil                   (* nil pointer or nil interface dereference *)
| PLock                  (* unlock of an unlocked sync.Mutex *)
| PBlock                 (* lock of a mutex that is held: the goroutine waits forever *)
| PFuel                  (* the model ran out of fuel, the program goes on *)
| PMsg (msg : string).   (* panic("...") in the source *)

Inductive Out (A : Type) :=
| Ret (a : A)
| Panic (p : panic).
Arguments Ret {A} a.
Arguments Panic {A} p.

#[export] Instance Out_ret : MRet Out := λ A a, Ret a.
#[export] Instance Out_bind : MBind Out := λ A B f m,
  match m with Ret a => f a | Panic p => Panic p end.

(** A method with a receiver of type [S]: it reads and updates the receiver and
    returns a value, or panics. *)
Definition GoM (S A : Type) : Type := S → Out (A * S).

#[export] Instance GoM_ret S : MRet (GoM S) := λ A a s, Ret (a, s).
#[export] Instance GoM_bind S : MBind (GoM S) := λ A B f m s,
  match m s with Ret (a, s') => f a s' | Panic p => Panic p end.

Definition get {S} : GoM S S := λ s, Ret (s, s).
Definition set {S} (s : S) : GoM S unit := λ _, Ret (tt, s).
Definition lift {S A} (o : Out A) : GoM S A := λ s, a ← o; Ret (a, s).
Definition panicM {S A} (p : panic) : GoM S A := λ _, Panic p.

Lemma bind_run {S A B} (m : GoM S A) (f : A → GoM S B) s a s' :
  m s = Ret (a, s') → (m ≫= f) s = f a s'.
Proof. intros E. unfold mbind, GoM_bind. by rewrite E. Qed.

Lemma bind_inv {S A B} (m : GoM S A) (f : A → GoM S B) s b s'' :
  (m ≫= f) s = Ret (b, s'') → ∃ a s', m s = Ret (a, s') ∧ f a s' = Ret (b, s'').
Proof. unfold mbind, GoM_bind. destruct (m s) as [[a s']|p]; [by exists a, s'|done]. Qed.

Lemma bind_panic {S A B} (m : GoM S A) (f : A → GoM S B) s p :
  m s = Panic p → (m ≫= f) s = Panic p.
Proof. intros E. unfold mbind, GoM_bind. by rewrite E. Qed.

Lemma bind_assoc {S A B C} (m : GoM S A) (f : A → GoM S B) (g : B → GoM S C) s :
  (m ≫= λ a, f a ≫= g) s = ((m ≫= f) ≫= g) s.
Proof. unfold mbind, GoM_bind. by destruct (m s) as [[? ?]|]. Qed.

Lemma lift_run {St A} (o : Out A) (a : A) (s : St) : o = Ret a → lift o s = Ret (a, s).
Proof. by intros ->. Qed.

(** Weakest preconditions of methods that may panic. *)
Section After.
Context {S : Type}.

(** When it returns, the result and the state satisfy [Q]. *)
Definition after {A} (m : GoM S A) (s : S) (Q : A → S → Prop) : Prop := ∀ a s', m s = Ret (a, s') → Q a s'.
Definition keeps {A} (P : S → Prop) (m : GoM S A) : Prop := ∀ s, P s → after m s (λ _, P).

Lemma after_mret {A} (a : A) s (Q : A → S → Prop) : Q a s → after (mret a) s Q.
Proof. by intros HQ ? ? [= <- <-]. Qed.

Lemma after_bind {A B} (m : GoM S A) (f : A → GoM S B) s Q :
  after m s (λ a s, after (f a) s Q) → after (a ← m; f a) s Q.
Proof.
  intros Hm b s' E. unfold mbind, GoM_bind, Out_bind in E. destruct (m s) as [[a s1]|] eqn:Em; [|done].
  by eapply Hm.
Qed.

Lemma after_get s (Q : S → S → Prop) : Q s s → after get s Q.
Proof. by intros HQ ? ? [= <- <-]. Qed.

Lemma after_lift {A} (o : Out A) s (Q : A → S → Prop) : (∀ a, o = Ret a → Q a s) → after (lift o) s Q.
Proof.
  intros HQ a s' E. unfold lift, mbind, Out_bind in E. destruct o as [b|]; [|done].
  injection E as <- <-. by apply HQ.
Qed.

Lemma after_panic {A} p s (Q : A → S → Prop) : after (panicM p) s Q.
Proof. by intros ? ?. Qed.

Lemma after_weaken {A} (m : GoM S A) s (Q Q' : A → S → Prop) :
  after m s Q → (∀ a s', Q a s' → Q' a s') → after m s Q'.
Proof. intros Hm HQ a s' E. by apply HQ, Hm. Qed.

Lemma keeps_bind {A B} P (m : GoM S A) (f : A → GoM S B) :
  keeps P m → (∀ a, keeps P (f a)) → keeps P (a ← m; f a).
Proof.
  intros Hm Hf s HP. apply after_bind. eapply after_weaken; [by apply Hm|]. intros a s' HP'. by apply Hf.
Qed.

Lemma keeps_mret {A} P (a : A) : keeps P (mret a).
Proof. intros s HP. by apply after_mret. Qed.

Lemma keeps_lift {A} P (o : Out A) : keeps P (lift o).
Proof. intros s HP. by apply after_lift. Qed.

Lemma keeps_get P : keeps P get.
Proof. intros s HP. by apply after_get. Qed.

Lemma keeps_panic {A} P p : keeps P (panicM (A := A) p).
Proof. intros s HP. apply after_panic. Qed.
End After.

(** Walk through a computation that keeps a predicate; what it calls is left to the
    hints and to the caller. *)
Create HintDb keeps.
#[export] Hint Resolve keeps_mret keeps_lift keeps_get keeps_panic : keeps.
Ltac keeping := repeat first
  [ match goal with |- ∀ _, _ => intros ? end | solve [auto with keeps nocore] | match goal with |- keeps _ (_ ≫= _) => apply keeps_bind end | case_match ].

(** Go's [error] values: the format string of the source with its integer
    arguments. *)
Inductive error := Errorf (fmt : string) (args : list Z).

#[export] Instance error_eq_dec : EqDecision error.
Proof. solve_decision. Defined.

(** ** Fixed-width integers *)

(** Conversion to an unsigned [w]-bit integer. *)
Definition wrapu (w z : Z) : Z := z `mod` 2 ^ w.
(** Conversion to a signed [w]-bit integer (two's complement). *)
Definition wraps (w z : Z) : Z := (z + 2 ^ (w - 1)) `mod` 2 ^ w - 2 ^ (w - 1).

Lemma wrapu_small w z : 0 ≤ z < 2 ^ w → wrapu w z = z.
Proof. intros. by apply Z.mod_small. Qed.

Lemma wrapu_range w z : 0 ≤ w → 0 ≤ wrapu w z < 2 ^ w.
Proof. intros. apply Z.mod_pos_bound. lia. Qed.

Lemma wraps_small w z : 0 < w → - 2 ^ (w - 1) ≤ z < 2 ^ (w - 1) → wraps w z = z.
Proof.
  intros Hw Hz. unfold wraps.
  assert (2 ^ w = 2 * 2 ^ (w - 1)) as E.
  { rewrite <- Z.pow_succ_r by lia. f_equal. lia. }
  rewrite Z.mod_small; lia.
Qed.

(** ** Bytes *)

Abbreviation byte := Byte.byte.

#[export] Instance byte_eq_dec : EqDecision byte := Byte.byte_eq_dec.

#[export] Program Instance byte_countable : Countable byte :=
  inj_countable Byte.to_N Byte.of_N _.
Next Obligation. intros b. apply Byte.of_to_N. Qed.

Definition b2z (b : byte) : Z := Z.of_N (Byte.to_N b).
Definition z2b (z : Z) : byte := default x00 (Byte.of_N (Z.to_N (z `mod` 256))).

Lemma b2z_range b : 0 ≤ b2z b < 256.
Proof. unfold b2z. pose proof (Byte.to_N_bounded b). lia. Qed.

Lemma b2z_z2b z : b2z (z2b z) = z `mod` 256.
Proof.
  unfold b2z, z2b. pose proof (Z.mod_pos_bound z 256 ltac:(lia)).
  destruct (Byte.of_N _) as [b|] eqn:E; simpl.
  - apply Byte.to_of_N in E. rewrite E. lia.
  - apply Byte.of_N_None_iff in E. lia.
Qed.

Lemma b2z_inj a b : b2z a = b2z b → a = b.
Proof.
  intros E. apply (inj Some). rewrite <- !Byte.of_to_N. f_equal.
  unfold b2z in E. lia.
Qed.

Lemma z2b_b2z b : z2b (b2z b) = b.
Proof.
  apply b2z_inj. rewrite b2z_z2b. apply Z.mod_small, b2z_range.
Qed.

(** Byte-wise exclusive or. *)
Definition bxor (a b : byte) : byte := z2b (Z.lxor (b2z a) (b2z b)).

Lemma b2z_bxor a b : b2z (bxor a b) = Z.lxor (b2z a) (b2z b).
Proof.
  unfold bxor. rewrite b2z_z2b. pose proof (b2z_range a). pose proof (b2z_range b).
  apply Z.mod_small. split; [apply Z.lxor_nonneg; lia|].
  destruct (decide (Z.lxor (b2z a) (b2z b) = 0)) as [->|Hne]; [lia|].
  assert (0 ≤ Z.lxor (b2z a) (b2z b)) by (apply Z.lxor_nonneg; lia).
  apply (Z.log2_lt_pow2 _ 8); [lia|].
  eapply Z.le_lt_trans; [apply Z.log2_lxor; lia|].
  apply Z.max_lub_lt.
  - destruct (decide (b2z a = 0)) as [->|]; [done|]. apply Z.log2_lt_pow2; lia.
  - destruct (decide (b2z b = 0)) as [->|]; [done|]. apply Z.log2_lt_pow2; lia.
Qed.

Lemma bxor_comm a b : bxor a b = bxor b a.
Proof. unfold bxor. by rewrite Z.lxor_comm. Qed.

Lemma bxor_assoc a b c : bxor (bxor a b) c = bxor a (bxor b c).
Proof. apply b2z_inj. by rewrite !b2z_bxor, Z.lxor_assoc. Qed.

Lemma bxor_cancel a k : bxor (bxor a k) k = a.
Proof.
  apply b2z_inj. by rewrite !b2z_bxor, Z.lxor_assoc, Z.lxor_nilpotent, Z.lxor_0_r.
Qed.

(** Little-endian unsigned integers of [n] bytes (package encoding/binary). *)
Fixpoint le_put (n : nat) (z : Z) : list byte :=
  match n with
  | O => []
  | S n => z2b z :: le_put n (z / 256)
  end.

Fixpoint le_get (l : list byte) : Z :=
  match l with
  | [] => 0
  | b :: l => b2z b + 256 * le_get l
  end.

Lemma length_le_put n z : length (le_put n z) = n.
Proof. revert z; induction n; intros z; simpl; auto. Qed.

Lemma le_get_range l : 0 ≤ le_get l < 256 ^ Z.of_nat (length l).
Proof.
  induction l as [|b l IH]; simpl; [lia|].
  pose proof (b2z_range b). rewrite Nat2Z.inj_succ, Z.pow_succ_r by lia. lia.
Qed.

Lemma le_get_put n z : le_get (le_put n z) = z `mod` 256 ^ Z.of_nat n.
Proof.
  revert z; induction n as [|n IH]; intros z; cbn [le_put le_get].
  - by rewrite Z.mod_1_r.
  - rewrite IH, b2z_z2b, Nat2Z.inj_succ, Z.pow_succ_r by lia.
    rewrite (Z.rem_mul_r z 256 (256 ^ Z.of_nat n)) by lia. lia.
Qed.

Lemma le_get_put_small n z : 0 ≤ z < 256 ^ Z.of_nat n → le_get (le_put n z) = z.
Proof. intros. rewrite le_get_put. by apply Z.mod_small. Qed.

Lemma le_put_get l : le_put (length l) (le_get l) = l.
Proof.
  induction l as [|b l IH]; simpl; [done|].
  pose proof (b2z_range b). f_equal.
  - apply b2z_inj. rewrite b2z_z2b, Z.mul_comm, Z.mod_add, Z.mod_small; lia.
  - rewrite Z.mul_comm, Z.div_add, Z.div_small by lia. apply IH.
Qed.

(** ** Slices

    A Go byte slice is the list of its elements; its capacity is its length
    (the buffers of the program come from [make] with one size), except where a
    definition takes a capacity explicitly. *)

Abbreviation bytes := (list byte).

Definition zlen {A} (l : list A) : Z := Z.of_nat (length l).

(** [l[lo:hi]] *)
Definition goslice {A} (l : list A) (lo hi : Z) : Out (list A) :=
  if bool_decide (0 ≤ lo ≤ hi ∧ hi ≤ zlen l)
  then Ret (take (Z.to_nat (hi - lo)) (drop (Z.to_nat lo) l))
  else Panic PSlice.

(** [l[i]] *)
Definition goindex {A} (l : list A) (i : Z) : Out A :=
  if bool_decide (0 ≤ i) then
    match l !! Z.to_nat i with Some a => Ret a | None => Panic PIndex end
  else Panic PIndex.

(** [copy(l[lo:hi], src)]: the window must be in range, the shorter of the two
    lengths is copied, and bytes outside the window never change. *)
Definition overlay {A} (pos : nat) (src l : list A) : list A :=
  take pos l ++ src ++ drop (pos + length src) l.

Definition gocopy {A} (l : list A) (lo hi : Z) (src : list A) : Out (list A) :=
  if bool_decide (0 ≤ lo ≤ hi ∧ hi ≤ zlen l)
  then Ret (overlay (Z.to_nat lo) (take (Z.to_nat (hi - lo)) src) l)
  else Panic PSlice.

(** [l[i] = a] *)
Definition goset {A} (l : list A) (i : Z) (a : A) : Out (list A) :=
  if bool_decide (0 ≤ i < zlen l) then Ret (<[Z.to_nat i := a]> l)
  else Panic PIndex.

Lemma length_overlay {A} pos (src l : list A) :
  (pos + length src ≤ length l)%nat → length (overlay pos src l) = length l.
Proof.
  intros. unfold overlay. rewrite !length_app, length_take, length_drop. lia.
Qed.

Lemma overlay_nil {A} pos (l : list A) : overlay pos [] l = l.
Proof. unfold overlay. simpl. by rewrite Nat.add_0_r, take_drop. Qed.

Lemma overlay_app {A} pos (s1 s2 l : list A) :
  (pos + length s1 + length s2 ≤ length l)%nat →
  overlay (pos + length s1) s2 (overlay pos s1 l) = overlay pos (s1 ++ s2) l.
Proof.
  intros H. unfold overlay.
  rewrite take_app, length_take, take_take.
  replace (pos + length s1 `min` pos)%nat with (pos + length s1 `min` pos)%nat by lia.
  replace (min (pos + length s1) pos) with pos by lia.
  replace (pos + length s1 - min pos (length l))%nat with (length s1) by lia.
  rewrite take_app_length, drop_app, length_take.
  rewrite (drop_ge (take pos l)) by (rewrite length_take; lia).
  replace (pos + length s1 + length s2 - min pos (length l))%nat
    with (length s1 + length s2)%nat by lia.
  rewrite drop_app, (drop_ge s1) by lia.
  replace (length s1 + length s2 - length s1)%nat with (length s2) by lia.
  rewrite drop_drop, length_app, <- !app_assoc. simpl.
  do 3 f_equal. by rewrite Nat.add_assoc.
Qed.

(** The window a writer filled is what a reader of the same window sees. *)
Lemma window_overlay {A} pos (s l : list A) :
  (pos + length s ≤ length l)%nat →
  take (length s) (drop pos (overlay pos s l)) = s.
Proof.
  intros. unfold overlay.
  rewrite drop_app, length_take, (drop_ge (take pos l)) by (rewrite length_take; lia).
  replace (pos - min pos (length l))%nat with O by lia. cbn [app]. rewrite drop_0.
  by rewrite take_app_length.
Qed.

Lemma take_overlay {A} pos (s l : list A) :
  (pos ≤ length l)%nat → take pos (overlay pos s l) = take pos l.
Proof.
  intros. unfold overlay. by rewrite take_app_length' by (rewrite length_take; lia).
Qed.

Lemma drop_overlay {A} pos (s l : list A) :
  (pos + length s ≤ length l)%nat →
  drop (pos + length s) (overlay pos s l) = drop (pos + length s) l.
Proof.
  intros. unfold overlay. rewrite app_assoc.
  by rewrite drop_app_length' by (rewrite length_app, length_take; lia).
Qed.

(** Splitting a window in two. *)
Lemma window_app {A} pos (s1 s2 l : list A) :
  take (length (s1 ++ s2)) (drop pos l) = s1 ++ s2 →
  take (length s1) (drop pos l) = s1 ∧
  take (length s2) (drop (pos + length s1) l) = s2.
Proof.
  intros E. rewrite <- (drop_drop l (length s1) pos).
  set (m := drop pos l) in *. clearbody m.
  assert (∃ r, m = (s1 ++ s2) ++ r) as [r ->].
  { exists (drop (length (s1 ++ s2)) m). by rewrite <- E at 1; rewrite take_drop. }
  rewrite <- app_assoc, take_app_length, drop_app_length, take_app_length. done.
Qed.

(** ** Fixed-size byte arrays: the type [n]byte *)

Record arr (n : nat) := Arr { arr_list : bytes; arr_len : length arr_list = n }.
Arguments Arr {n} arr_list arr_len.
Arguments arr_list {n} a.
Arguments arr_len {n} a.

Lemma arr_eq {n} (a b : arr n) : arr_list a = arr_list b → a = b.
Proof.
  destruct a as [a Ha], b as [b Hb]; simpl; intros ->.
  f_equal. apply (proof_irrel Ha Hb).
Qed.

#[export] Instance arr_eq_dec n : EqDecision (arr n).
Proof.
  intros a b. destruct (decide (arr_list a = arr_list b)) as [E|E].
  - left. by apply arr_eq.
  - right. congruence.
Defined.

(** [copy(a[:], src)] into a zeroed array. *)
Program Definition arr_of (n : nat) (src : bytes) : arr n :=
  Arr (resize n x00 src) _.
Next Obligation. intros. apply length_resize. Qed.

Definition arr_zero (n : nat) : arr n := arr_of n [].

#[export] Program Instance arr_countable n : Countable (arr n) :=
  inj_countable' arr_list (arr_of n) _.
Next Obligation.
  intros n a. apply arr_eq. simpl. apply resize_all_alt, eq_sym, arr_len.
Qed.

#[export] Instance arr_inhabited n : Inhabited (arr n) := populate (arr_zero n).

Lemma arr_of_list {n} (a : arr n) : arr_of n (arr_list a) = a.
Proof. apply arr_eq. simpl. apply resize_all_alt, eq_sym, arr_len. Qed.

Lemma arr_list_of n l : length l = n → arr_list (arr_of n l) = l.
Proof. intros. simpl. by apply resize_all_alt. Qed.

(** ** Tactics *)

(** Bring the integer tests of executable definitions to propositions. *)
Ltac go_cases :=
  repeat match goal with
  | H : context [bool_decide ?P] |- _ => destruct (bool_decide_reflect P); try lia
  | |- context [bool_decide ?P] => destruct (bool_decide_reflect P); try lia
  end.

Create Rewrite HintDb golib.
#[export] Hint Rewrite @length_app @length_take @length_drop @length_replicate
  @length_resize @length_insert @length_fmap length_le_put @arr_len : golib.
Ltac glen := autorewrite with golib in *; try lia.

Lemma goslice_ok {A} (l : list A) lo n :
  0 ≤ lo → lo + Z.of_nat n ≤ zlen l →
  goslice l lo (lo + Z.of_nat n) = Ret (take n (drop (Z.to_nat lo) l)).
Proof.
  intros. unfold goslice. rewrite bool_decide_true by lia.
  by replace (Z.to_nat (lo + Z.of_nat n - lo)) with n by lia.
Qed.

Lemma gocopy_ok {A} (l : list A) lo (src : list A) :
  0 ≤ lo → lo + zlen src ≤ zlen l →
  gocopy l lo (lo + zlen src) src = Ret (overlay (Z.to_nat lo) src l).
Proof.
  intros. unfold gocopy. rewrite bool_decide_true by (unfold zlen in *; lia).
  rewrite take_ge; [done|]. unfold zlen in *. lia.
Qed.

Lemma goslice_in {A} (l : list A) lo hi :
  0 ≤ lo ≤ hi → hi ≤ zlen l →
  goslice l lo hi = Ret (take (Z.to_nat (hi - lo)) (drop (Z.to_nat lo) l)).
Proof. intros. unfold goslice. by rewrite bool_decide_true. Qed.

Lemma gocopy_in {A} (l : list A) lo hi (src : list A) :
  0 ≤ lo ≤ hi → hi ≤ zlen l →
  gocopy l lo hi src = Ret (overlay (Z.to_nat lo) (take (Z.to_nat (hi - lo)) src) l).
Proof. intros. unfold gocopy. by rewrite bool_decide_true. Qed.

Lemma goslice_out {A} (l : list A) lo hi : zlen l < hi → goslice l lo hi = Panic PSlice.
Proof. intros. unfold goslice. rewrite bool_decide_false; [done|lia]. Qed.

Lemma zlen_nonneg {A} (l : list A) : 0 ≤ zlen l.
Proof. unfold zlen. lia. Qed.

Lemma zlen_app {A} (l k : list A) : zlen (l ++ k) = zlen l + zlen k.
Proof. unfold zlen. rewrite length_app. lia. Qed.

Lemma wraps_wrapu w v : 0 < w → wraps w (wrapu w v) = wraps w v.
Proof. intros. unfold wraps, wrapu. f_equal. by rewrite Zplus_mod_idemp_l. Qed.
