(* ===== verification/Deps.v ===== *)
(** * Third-party packages the sources call

    The program links against packages whose source is not in the repository:
    the decred secp256k1 implementation, the SIMD SHA-256, the AES block cipher
    behind [cipher.Block], and go-multiaddr.  Each is a class of operations with
    the names of its API; the documented behaviour the code relies on is a
    separate class of laws, so that a definition depends on the operations only
    and a theorem says which laws it needs.  The last section gives one
    concrete instance of everything, used by the witnesses. *)

From S2P Require Export Prelude.

(** ** Cryptographic primitives *)

Class Crypto := {
  Prv : Type;
  Pub : Type;
  Prv_eq_dec :: EqDecision Prv;
  Pub_eq_dec :: EqDecision Pub;
  (** decred/secp256k1: [PrivateKey.Serialize], [PrivKeyFromBytes],
      [PrivateKey.PubKey], [PublicKey.SerializeCompressed], [ParsePubKey],
      [GenerateSharedSecret], [ModNScalar.Add]. *)
  Serialize : Prv → arr 32;
  PrivKeyFromBytes : bytes → Prv;
  PubKey : Prv → Pub;
  SerializeCompressed : Pub → arr 33;
  ParsePubKey : bytes → option Pub;
  GenerateSharedSecret : Prv → Pub → bytes;
  ScalarAdd : Prv → Prv → Prv;
  (** minio/sha256-simd: [Sum256]. *)
  Sum256 : bytes → arr 32;
  (** crypto/aes: [aes.NewCipher(key)] gives the encryption of one block. *)
  NewCipher : arr 32 → arr 16 → arr 16;
  (** decred schnorr: [schnorr.Sign] of a 32-byte hash, serialized ([None] when
      it returns an error), and [ParseSignature] followed by [Verify]. *)
  SchnorrSign : Prv → arr 32 → option (arr 64);
  SchnorrVerify : Pub → arr 32 → arr 64 → bool;
}.

Class CryptoLaws `{Crypto} : Prop := {
  (** a compressed public key parses back to itself *)
  parse_serialize p : ParsePubKey (arr_list (SerializeCompressed p)) = Some p;
  (** a compressed key begins with 2 or 3, the sign of the second coordinate *)
  compressed_prefix p : ∃ b r, arr_list (SerializeCompressed p) = b :: r ∧ (b = x02 ∨ b = x03);
  (** a serialized private key reads back as itself *)
  prv_serialize k : PrivKeyFromBytes (arr_list (Serialize k)) = k;
  (** Diffie-Hellman: both sides derive the same secret *)
  ecdh_comm k1 k2 :
    GenerateSharedSecret k1 (PubKey k2) = GenerateSharedSecret k2 (PubKey k1);
  (** a signature verifies under the signer's public key *)
  schnorr_verify k h s :
    SchnorrSign k h = Some s → SchnorrVerify (PubKey k) h s = true;
}.

(** decred ecdsa: [SignCompact(key, hash, true)] and [RecoverCompact]. *)
Class Ecdsa (cr : Crypto) := {
  SignCompact : Prv → arr 32 → arr 65;
  RecoverCompact : bytes → arr 32 → option Pub;
}.

Class EcdsaLaws (cr : Crypto) `{!Ecdsa cr} : Prop := {
  (** a compact signature that is not 65 bytes long is refused *)
  recover_length b h : length b ≠ 65%nat → RecoverCompact b h = None;
}.

Lemma SerializeCompressed_inj `{CryptoLaws} p q :
  SerializeCompressed p = SerializeCompressed q → p = q.
Proof.
  intros E. apply (inj Some). rewrite <- !parse_serialize. by rewrite E.
Qed.

(** ** Multiaddresses *)

Class Multiaddrs := {
  Multiaddr : Type;
  Multiaddr_eq_dec :: EqDecision Multiaddr;
  (** [multiaddr.Split] into its components *)
  Split : Multiaddr → list Multiaddr;
  (** [Protocols()[0].Code] of a component *)
  ProtoCode : Multiaddr → Z;
  (** [a.Encapsulate(b)] *)
  Encapsulate : Multiaddr → Multiaddr → Multiaddr;
  (** [MarshalBinary] *)
  MarshalBinary : Multiaddr → bytes;
  (** [NewMultiaddrBytes] *)
  NewMultiaddrBytes : bytes → option Multiaddr;
  (** [NewMultiaddr(fmt.Sprintf("/tcp/%d", port))] *)
  TcpAddr : Z → Multiaddr;
}.

(** Protocol codes of the multiaddr table. *)
Definition P_IP4 : Z := 4.
Definition P_TCP : Z := 6.
Definition P_IP6 : Z := 41.
Definition P_DNS : Z := 53.

Class MultiaddrLaws `{Multiaddrs} : Prop := {
  (** the binary form of an address parses back to it *)
  multiaddr_bytes a : NewMultiaddrBytes (MarshalBinary a) = Some a;
}.

(** ** A concrete instance

    A toy group: private keys are 32-byte strings read as integers, a public
    key is the integer itself, the shared secret of [k] and [P] is the product;
    enough to satisfy every law above and to evaluate the definitions. *)

Module Toy.
Definition prv := arr 32.

Definition sum256 (b : bytes) : arr 32 :=
  arr_of 32 (le_put 32 (foldr (λ x acc, (acc * 31 + b2z x + 7) `mod` 2 ^ 256) 5 b)).

Program Definition compress (p : prv) : arr 33 := Arr (x02 :: arr_list p) _.
Next Obligation. intros p. simpl. by rewrite arr_len. Qed.

Definition parse (b : bytes) : option prv :=
  match b with
  | x :: b => if decide (x = x02 ∧ length b = 32%nat) then Some (arr_of 32 b) else None
  | [] => None
  end.

Definition product (k p : prv) : bytes :=
  le_put 32 (le_get (arr_list k) * le_get (arr_list p)).

#[export] Program Instance crypto : Crypto := {|
  Prv := prv;
  Pub := prv;
  Serialize := λ k, k;
  PrivKeyFromBytes := arr_of 32;
  PubKey := λ k, k;
  SerializeCompressed := compress;
  ParsePubKey := parse;
  GenerateSharedSecret := product;
  ScalarAdd := λ a b, arr_of 32 (le_put 32 (le_get (arr_list a) + le_get (arr_list b)));
  Sum256 := sum256;
  NewCipher := λ key blk, arr_of 16 (zip_with bxor (arr_list key) (arr_list blk));
  SchnorrSign := λ k h, Some (arr_of 64 (arr_list k ++ arr_list h));
  SchnorrVerify := λ k h s,
    bool_decide (arr_list s = arr_list (arr_of 64 (arr_list k ++ arr_list h)));
|}.

#[export] Instance laws : CryptoLaws.
Proof.
  constructor; simpl.
  - intros p. rewrite decide_True by (split; [done | apply arr_len]).
    by rewrite arr_of_list.
  - intros p. eauto.
  - intros k. apply arr_of_list.
  - intros k1 k2. unfold product. by rewrite Z.mul_comm.
  - intros k m s [= <-]. by apply bool_decide_true.
Qed.

(** An address is its bytes: a protocol code, then a port. *)
#[export] Instance multiaddrs : Multiaddrs := {|
  Multiaddr := bytes;
  Split := λ a, match a with [] => [] | x :: r => [[x]; r] end;
  ProtoCode := λ a, match a with [x] => b2z x | _ => P_TCP end;
  Encapsulate := app;
  MarshalBinary := λ a, a;
  NewMultiaddrBytes := Some;
  TcpAddr := λ p, le_put 2 p;
|}.

#[export] Instance multiaddr_laws : MultiaddrLaws.
Proof. by constructor. Qed.
(** Numbers as bytes, for toy encodings of countable types. *)
Fixpoint of_pos (p : positive) : bytes := match p with xH => [] | xO p => x00 :: of_pos p | xI p => x01 :: of_pos p end.
Fixpoint to_pos (b : bytes) : positive := match b with [] => xH | x00 :: b => xO (to_pos b) | _ :: b => xI (to_pos b) end.
Lemma to_of_pos p : to_pos (of_pos p) = p.
Proof. induction p; cbn; congruence. Qed.

End Toy.
