(* ===== verification/Slice.v ===== *)
(** * Package slice: byte slices, fixed-width integers, noise padding

    Models [pkg/util/slice/slice.go].  Section [Noise] needs SHA-256; the
    randomness [rand.Read] delivers is an argument ([seed]). *)

From S2P Require Export Deps.

(** Lengths of the integer encodings. *)
Definition Uint64Len : Z := 8.
Definition Uint32Len : Z := 4.
Definition Uint24Len : Z := 3.
Definition Uint16Len : Z := 2.

Definition SumLen (chunks : list bytes) : Z :=
  foldl (λ l c, l + zlen c) 0 chunks.

(** [append] of every chunk to an empty packet. *)
Definition Cat (chunks : list bytes) : bytes :=
  foldl (λ pkt c, pkt ++ c) [] chunks.

Definition Cut (b : bytes) (l : Z) : Out (bytes * bytes) :=
  seg ← goslice b 0 l;
  rem ← goslice b l (zlen b);
  Ret (seg, rem).

(** The encoders write into the front of [b]; [binary.LittleEndian] panics when
    [b] is too short. *)
Definition put (n : nat) (b : bytes) (v : Z) : Out bytes :=
  if bool_decide (n ≤ length b)%nat then Ret (overlay 0 (le_put n v) b)
  else Panic PIndex.

Definition get_le (n : nat) (b : bytes) : Out Z :=
  if bool_decide (n ≤ length b)%nat then Ret (le_get (take n b)) else Panic PIndex.

Definition EncodeUint16 (b : bytes) (n : Z) : Out bytes := put 2 b (wrapu 16 n).
Definition EncodeUint32 (b : bytes) (n : Z) : Out bytes := put 4 b (wrapu 32 n).
Definition EncodeUint64 (b : bytes) (n : Z) : Out bytes := put 8 b (wrapu 64 n).
Definition EncodeUint24 (b : bytes) (n : Z) : Out bytes :=
  u ← put 4 (replicate 4 x00) (wrapu 32 n);
  Ret (overlay 0 (take (length b) (take 3 u)) b).

Definition DecodeUint16 (b : bytes) : Out Z := get_le 2 b.
Definition DecodeUint32 (b : bytes) : Out Z := get_le 4 b.
Definition DecodeUint64 (b : bytes) : Out Z := get_le 8 b.

(** [DecodeUint24] appends a zero to [b[:3]].  [mem] is the array behind [b]
    from its first element, so [len(b) <= len(mem) = cap(b)]: [append] writes
    in place when there is capacity and copies otherwise.  Returns the value and
    the array afterwards. *)
Definition DecodeUint24 (len : nat) (mem : bytes) : Out (Z * bytes) :=
  if bool_decide (3 ≤ length mem)%nat then
    if bool_decide (3 < length mem)%nat
    then let mem' := <[3%nat := x00]> mem in Ret (le_get (take 4 mem'), mem')
    else Ret (le_get (take 3 mem ++ [x00]), mem)
  else Panic PSlice.

Section Noise.
Context {cr : Crypto}.

(** The loop of [NoisePad]: [cursor < l], one SHA-256 block per turn.  [fuel]
    bounds the turns; [noise_loop_fuel] shows [l] is enough. *)
Fixpoint noise_loop (fuel : nat) (seed : arr 32) (cursor l : Z) (noise : bytes)
    : option bytes :=
  if bool_decide (cursor < l) then
    match fuel with
    | O => None
    | S fuel =>
        let e := cursor + 32 in
        let e := if bool_decide (l < e) then l else e in
        let seed := Sum256 (arr_list seed) in
        noise_loop fuel seed e l
          (overlay (Z.to_nat cursor)
                   (take (Z.to_nat (e - cursor)) (arr_list seed)) noise)
    end
  else Some noise.

(** [NoisePad] with the seed [rand.Read] delivered; [make] panics on a
    negative length. *)
Definition NoisePad (seed : arr 32) (l : Z) : Out bytes :=
  if bool_decide (l < 0) then Panic (PMsg "makeslice: len out of range")
  else match noise_loop (Z.to_nat l) seed 0 l (replicate (Z.to_nat l) x00) with
       | Some n => Ret n
       | None => Ret []
       end.

(** [Segment]: the loop [for begin := 0; end < lb; begin += segmentSize].
    [None] is a loop that has not finished within [fuel] turns. *)
Fixpoint Segment_loop (fuel : nat) (seed : arr 32) (b : bytes)
    (segmentSize beg en : Z) (segs : list bytes) : option (Out (list bytes)) :=
  if bool_decide (en < zlen b) then
    match fuel with
    | O => None
    | S fuel =>
        let en := beg + segmentSize in
        if bool_decide (zlen b < en) then
          match (d ← goslice b beg (zlen b); p ← NoisePad seed (en - zlen b);
                 Ret (d ++ p)) with
          | Ret d => Segment_loop fuel seed b segmentSize (beg + segmentSize) en
                       (segs ++ [d])
          | Panic p => Some (Panic p)
          end
        else
          match goslice b beg en with
          | Ret d => Segment_loop fuel seed b segmentSize (beg + segmentSize) en
                       (segs ++ [d])
          | Panic p => Some (Panic p)
          end
    end
  else Some (Ret segs).

Definition Segment (seed : arr 32) (b : bytes) (segmentSize : Z)
    : option (Out (list bytes)) :=
  Segment_loop (length b) seed b segmentSize 0 0 [].
End Noise.

(** ** Messages as 64-bit words

    [ToU64Slice] reinterprets the padded bytes as little-endian words and
    appends the byte length; [ToMessage] reads them back. *)

Fixpoint words (n : nat) (b : bytes) : list Z :=
  match n with
  | O => []
  | S n => le_get (take 8 b) :: words n (drop 8 b)
  end.

Definition ToU64Slice (b : bytes) : list Z :=
  let mLen := zlen b in
  let mMod := mLen `mod` 8 in
  let uLen := if bool_decide (mMod ≠ 0) then mLen / 8 + 1 else mLen / 8 in
  let b := b ++ replicate (Z.to_nat (8 - mMod + 8)) x00 in
  words (Z.to_nat uLen) b ++ [mLen].

(** The header of the result points at the words, with the recorded length. *)
Definition ToMessage (u : list Z) : Out bytes :=
  match last u with
  | None => Panic PIndex
  | Some mLen => Ret (take (Z.to_nat mLen) (u ≫= le_put 8))
  end.

Definition XOR (u v : list Z) : Out (list Z) :=
  match last u, last v with
  | Some a, Some b =>
      if bool_decide (a ≠ b) then
        Panic (PMsg "programmer error, trying to XOR slices of different size")
      else
        let n := (length u - 1)%nat in
        if bool_decide (n ≤ length v)%nat
        then Ret (zip_with Z.lxor (take n u) (take n v) ++ drop n u)
        else Panic PIndex
  | _, _ => Panic PIndex
  end.

(** [Bytes.Zero] and [U64Slice.Zero]; the latter stores 8 in every word. *)
Definition Bytes_Zero (b : bytes) : bytes := (λ _, x00) <$> b.
Definition U64Slice_Zero (u : list Z) : Out (list Z) :=
  match last u with
  | None => Panic PSlice
  | Some n => Ret (replicate (length u - 1) 8 ++ [n])
  end.

(** ** Lemmas *)

Lemma Cat_concat chunks : Cat chunks = concat chunks.
Proof.
  unfold Cat. rewrite <- (app_nil_l (concat chunks)). generalize (@nil byte).
  induction chunks as [|c cs IH]; intros acc; simpl; [by rewrite app_nil_r|].
  by rewrite IH, app_assoc.
Qed.

Lemma SumLen_Cat chunks : SumLen chunks = zlen (Cat chunks).
Proof.
  rewrite Cat_concat. unfold SumLen.
  enough (∀ n, foldl (λ l c, l + zlen c) n chunks = n + zlen (concat chunks)) as -> by lia.
  induction chunks as [|c cs IH]; intros n; simpl; [unfold zlen; simpl; lia|].
  rewrite IH. unfold zlen. rewrite length_app. lia.
Qed.

Lemma Cut_spec b l :
  0 ≤ l ≤ zlen b → Cut b l = Ret (take (Z.to_nat l) b, drop (Z.to_nat l) b).
Proof.
  intros. unfold Cut, goslice. rewrite !bool_decide_true by (unfold zlen in *; lia).
  cbn. rewrite Z.sub_0_r, drop_0, (take_ge (drop _ _)); [done|].
  rewrite length_drop. unfold zlen in *. lia.
Qed.

Lemma put_get n b v :
  (n ≤ length b)%nat →
  ∃ b', put n b v = Ret b' ∧ get_le n b' = Ret (v `mod` 256 ^ Z.of_nat n)
        ∧ length b' = length b ∧ drop n b' = drop n b.
Proof.
  intros. unfold put, get_le. rewrite bool_decide_true by done.
  assert (length (overlay 0 (le_put n v) b) = length b) as Hl.
  { apply length_overlay. rewrite length_le_put. lia. }
  eexists. split; [done|]. rewrite Hl, bool_decide_true by done.
  split_and!; [|done|].
  - f_equal. unfold overlay. simpl.
    by rewrite take_app_length', le_get_put by (by rewrite length_le_put).
  - unfold overlay. simpl. rewrite length_le_put.
    by rewrite drop_app_length' by (by rewrite length_le_put).
Qed.

Section NoiseFacts.
Context {cr : Crypto}.

Lemma noise_loop_fuel fuel seed cursor l noise :
  0 ≤ cursor ≤ l → zlen noise = l → (Z.to_nat (l - cursor) ≤ fuel)%nat →
  ∃ n, noise_loop fuel seed cursor l noise = Some n ∧ zlen n = l.
Proof.
  revert seed cursor noise; induction fuel as [|fuel IH]; intros seed cursor noise Hc Hl Hf;
    simpl; destruct (bool_decide_reflect (cursor < l)); try (eexists; split; [done|lia]); [lia|].
  set (e := if bool_decide (l < cursor + 32) then l else cursor + 32).
  assert (cursor < e ≤ l ∧ e ≤ cursor + 32) as He by (unfold e; go_cases).
  apply IH; [lia| |lia].
  unfold zlen in *. rewrite length_overlay; [done|]. rewrite length_take. lia.
Qed.

Lemma NoisePad_ok seed l : 0 ≤ l → ∃ n, NoisePad seed l = Ret n ∧ zlen n = l.
Proof.
  intros. unfold NoisePad. rewrite bool_decide_false by lia.
  destruct (noise_loop_fuel (Z.to_nat l) seed 0 l (replicate (Z.to_nat l) x00)) as (n & -> & Hn);
    [lia| unfold zlen; rewrite length_replicate; lia | lia | eauto].
Qed.

Lemma NoisePad_zero seed : NoisePad seed 0 = Ret [].
Proof. done. Qed.

(** What the segments of a message are: all of one size, in order the message
    followed by less than one segment of padding. *)
Definition segments_of (b : bytes) (size : Z) (segs : list bytes) : Prop :=
  Forall (λ s, zlen s = size) segs ∧
  ∃ pad, concat segs = b ++ pad ∧ zlen pad < size.

Lemma Segment_loop_ok seed b size fuel k segs :
  0 < size → 0 ≤ k → (Z.to_nat (zlen b - k) ≤ fuel)%nat →
  ∃ out, Segment_loop fuel seed b size k k segs = Some (Ret (segs ++ out))
    ∧ segments_of (drop (Z.to_nat k) b) size out.
Proof.
  intros Hs. revert k segs; induction fuel as [|fuel IH]; intros k segs Hk Hf; simpl;
    (destruct (bool_decide_reflect (k < zlen b)) as [Hlt|Hge]; cycle 1;
     [exists []; rewrite app_nil_r; split; [done|]; split; [done|]; exists [];
      rewrite drop_ge by (unfold zlen in *; lia); split; [done|unfold zlen; simpl; lia] |]);
    [lia|].
  destruct (bool_decide_reflect (zlen b < k + size)) as [Hov|Hin].
  - unfold goslice. rewrite bool_decide_true by lia. cbn.
    destruct (NoisePad_ok seed (k + size - zlen b)) as (n & -> & Hn); [lia|]. cbn.
    destruct (IH (k + size) (segs ++ [take (Z.to_nat (zlen b - k)) (drop (Z.to_nat k) b) ++ n]))
      as (out & -> & Hok); [lia|lia|].
    exists ((take (Z.to_nat (zlen b - k)) (drop (Z.to_nat k) b) ++ n) :: out).
    rewrite <- app_assoc. split; [done|].
    destruct Hok as (Hall & pad & Hc & Hp).
    rewrite drop_ge in Hc by (unfold zlen in *; lia).
    rewrite take_ge by (rewrite length_drop; unfold zlen in *; lia).
    assert (out = []) as ->.
    { destruct out as [|o out]; [done|]. apply Forall_cons_1 in Hall as [Ho _].
      simpl in Hc. apply (f_equal length) in Hc. rewrite length_app in Hc.
      simpl in Hc. unfold zlen in *. lia. }
    split.
    + constructor; [|done]. unfold zlen in *. rewrite length_app, length_drop. lia.
    + exists n. simpl. rewrite app_nil_r. split; [done|lia].
  - unfold goslice. rewrite bool_decide_true by lia.
    destruct (IH (k + size) (segs ++ [take (Z.to_nat (k + size - k)) (drop (Z.to_nat k) b)]))
      as (out & -> & Hall & pad & Hc & Hp); [lia|lia|].
    exists (take (Z.to_nat (k + size - k)) (drop (Z.to_nat k) b) :: out).
    rewrite <- app_assoc. split; [done|]. split.
    + constructor; [|done]. unfold zlen in *. rewrite length_take, length_drop. lia.
    + exists pad. simpl. rewrite Hc. split; [|done].
      rewrite app_assoc. f_equal.
      replace (Z.to_nat (k + size)) with (Z.to_nat k + Z.to_nat (k + size - k))%nat by lia.
      by rewrite <- drop_drop, take_drop.
Qed.
End NoiseFacts.

Lemma length_concat_sized {A} (segs : list (list A)) size :
  Forall (λ s, zlen s = size) segs → zlen (concat segs) = zlen segs * size.
Proof.
  induction 1 as [|s segs Hs Hall IH]; [done|]. unfold zlen in *. simpl.
  rewrite length_app. lia.
Qed.

(** *** Words *)

Lemma words_bytes n b :
  (8 * n ≤ length b)%nat → words n b ≫= le_put 8 = take (8 * n) b.
Proof.
  revert b; induction n as [|n IH]; intros b Hb; [done|].
  cbn [words mbind list_bind]. change (list_bind _ _ (le_put 8) (words n (drop 8 b)))
    with (words n (drop 8 b) ≫= le_put 8).
  rewrite IH by (rewrite length_drop; lia).
  pose proof (le_put_get (take 8 b)) as E. rewrite length_take in E.
  replace (8 `min` length b)%nat with 8%nat in E by lia. rewrite E.
  replace (8 * S n)%nat with (8 + 8 * n)%nat by lia.
  by rewrite take_take_drop.
Qed.

Lemma length_words n b : length (words n b) = n.
Proof. revert b; induction n; intros; simpl; auto. Qed.

Lemma le_put_lxor n u v :
  le_put n (Z.lxor u v) = zip_with bxor (le_put n u) (le_put n v).
Proof.
  revert u v; induction n as [|n IH]; intros u v; [done|]. cbn [le_put zip_with].
  assert (∀ z, z / 256 = Z.shiftr z 8) as E by (intros; by rewrite Z.shiftr_div_pow2).
  f_equal.
  - apply b2z_inj. rewrite b2z_bxor, !b2z_z2b. change 256 with (2 ^ 8).
    rewrite <- !Z.land_ones by lia. apply Z.bits_inj'. intros i Hi.
    rewrite !Z.land_spec, !Z.lxor_spec, !Z.land_spec.
    by destruct (Z.testbit u i), (Z.testbit v i), (Z.testbit (Z.ones 8) i).
  - rewrite <- IH, !E, Z.shiftr_lxor. done.
Qed.

Lemma bind_le_put_xor us vs :
  length us = length vs →
  zip_with Z.lxor us vs ≫= le_put 8 = zip_with bxor (us ≫= le_put 8) (vs ≫= le_put 8).
Proof.
  revert vs; induction us as [|u us IH]; intros [|v vs] [=]; [done|].
  cbn [zip_with mbind list_bind]. change list_bind with (@mbind list _).
  rewrite zip_with_app by (by rewrite !length_le_put).
  rewrite le_put_lxor. f_equal. by apply IH.
Qed.

(** The words of a message, its recorded length, and the bytes behind them. *)
Definition uLen (b : bytes) : nat :=
  Z.to_nat (if bool_decide (zlen b `mod` 8 ≠ 0) then zlen b / 8 + 1 else zlen b / 8).

Lemma uLen_bounds b : (length b ≤ 8 * uLen b)%nat ∧ (8 * uLen b < length b + 8)%nat.
Proof. unfold uLen, zlen. go_cases; split; Z.div_mod_to_equations; lia. Qed.

Definition padded (b : bytes) : bytes :=
  b ++ replicate (Z.to_nat (8 - zlen b `mod` 8 + 8)) x00.

Lemma length_padded b : (8 * uLen b ≤ length (padded b))%nat.
Proof.
  unfold padded, uLen, zlen. rewrite length_app, length_replicate.
  go_cases; Z.div_mod_to_equations; lia.
Qed.

Lemma ToU64Slice_eq b : ToU64Slice b = words (uLen b) (padded b) ++ [zlen b].
Proof. done. Qed.

Lemma ToMessage_words b us :
  length us = uLen b → take (length b) (us ≫= le_put 8) = b →
  ToMessage (us ++ [zlen b]) = Ret b.
Proof.
  intros Hu Hb. unfold ToMessage. rewrite last_snoc. unfold zlen. rewrite Nat2Z.id.
  f_equal. rewrite bind_app, take_app_le; [done|].
  apply (f_equal length) in Hb. rewrite length_take in Hb. lia.
Qed.

Lemma words_padded b : take (length b) (words (uLen b) (padded b) ≫= le_put 8) = b.
Proof.
  rewrite words_bytes by apply length_padded. destruct (uLen_bounds b).
  rewrite take_take. replace (min _ _) with (length b) by lia.
  apply take_app_length.
Qed.

(** Converting a message to 64-bit words and back gives the message, for
    every length (the padding and the recorded length are never visible). *)
Theorem ToMessage_ToU64Slice b : ToMessage (ToU64Slice b) = Ret b.
Proof.
  rewrite ToU64Slice_eq. apply ToMessage_words; [apply length_words | apply words_padded].
Qed.

(** The word-wise [XOR] computes exactly the byte-wise exclusive or of two
    messages of one length, whatever that length is modulo 8, and panics when
    the recorded lengths differ. *)
Theorem XOR_bytewise a b :
  if decide (length a = length b)
  then ∃ w, XOR (ToU64Slice a) (ToU64Slice b) = Ret w
            ∧ ToMessage w = Ret (zip_with bxor a b)
  else ∃ msg, XOR (ToU64Slice a) (ToU64Slice b) = Panic (PMsg msg).
Proof.
  rewrite !ToU64Slice_eq. unfold XOR. rewrite !last_snoc.
  case_decide as E; [|rewrite bool_decide_true by (unfold zlen; lia); eauto].
  assert (uLen a = uLen b) as Eu by (unfold uLen, zlen; by rewrite E).
  set (u := words _ (padded a)). set (v := words _ (padded b)).
  assert (length u = uLen a ∧ length v = uLen a) as [Lu Lv]
    by (split; [|rewrite Eu]; apply length_words).
  rewrite bool_decide_false by (unfold zlen; lia). cbn zeta.
  rewrite !length_app. replace (length u + length [zlen a] - 1)%nat with (length u) by (simpl; lia).
  rewrite bool_decide_true by (simpl; lia). eexists; split; [done|].
  rewrite take_app_length, drop_app_length, (take_app_length' v) by congruence.
  assert (length (zip_with bxor a b) = length a) as Lz by (rewrite length_zip_with; lia).
  assert (uLen (zip_with bxor a b) = uLen a) as Ez by (unfold uLen, zlen; by rewrite Lz).
  replace (zlen a) with (zlen (zip_with bxor a b)) by (unfold zlen; by rewrite Lz).
  apply ToMessage_words.
  - rewrite Ez, length_zip_with. lia.
  - rewrite bind_le_put_xor, Lz, zip_with_take by congruence.
    unfold u. rewrite words_padded, E. unfold v. by rewrite words_padded.
Qed.

(** ** Integer encodings *)

(** The fixed-width encoders and decoders are inverse on every slice long
    enough to hold the integer, up to the width of the type (values are stored
    modulo 2^16, 2^32 and 2^64; negative ints wrap), and the encoder touches no
    byte after the field. *)
Theorem Encode_Decode_uint b v :
  (8 ≤ length b)%nat →
  (∃ b', EncodeUint16 b v = Ret b' ∧ DecodeUint16 b' = Ret (wrapu 16 v) ∧ drop 2 b' = drop 2 b) ∧
  (∃ b', EncodeUint32 b v = Ret b' ∧ DecodeUint32 b' = Ret (wrapu 32 v) ∧ drop 4 b' = drop 4 b) ∧
  (∃ b', EncodeUint64 b v = Ret b' ∧ DecodeUint64 b' = Ret (wrapu 64 v) ∧ drop 8 b' = drop 8 b) ∧
  (∃ b', EncodeUint24 b v = Ret b' ∧ drop 3 b' = drop 3 b ∧
     DecodeUint24 3 b' = Ret (v `mod` 2 ^ 24, <[3%nat := x00]> b')).
Proof.
  intros Hb.
  assert (∀ n w, (n ≤ 8)%nat → 2 ^ w = 256 ^ Z.of_nat n →
    ∃ b', put n b (wrapu w v) = Ret b' ∧ get_le n b' = Ret (wrapu w v) ∧ drop n b' = drop n b) as Hput.
  { intros n w Hn Hw. destruct (put_get n b (wrapu w v)) as (b' & E & G & _ & D); [lia|].
    exists b'. split_and!; [done| |done]. rewrite G. unfold wrapu. by rewrite Hw, Zmod_mod. }
  split_and!; [by apply Hput; [lia|]..|].
  unfold EncodeUint24, put. rewrite bool_decide_true by (rewrite length_replicate; lia).
  cbn [mbind Out_bind].
  set (u := overlay 0 (le_put 4 (wrapu 32 v)) (replicate 4 x00)).
  assert (take (length b) (take 3 u) = le_put 3 (wrapu 32 v)) as ->.
  { rewrite take_take. replace (min _ _) with 3%nat by lia. done. }
  eexists; split; [done|].
  assert (drop 3 (overlay 0 (le_put 3 (wrapu 32 v)) b) = drop 3 b) as Hd by done.
  split; [done|]. unfold DecodeUint24.
  rewrite !bool_decide_true by (rewrite length_overlay; rewrite ?length_le_put; lia).
  do 2 f_equal. unfold overlay. cbn [take app].
  destruct b as [|b0 [|b1 [|b2 [|b3 b]]]]; try (simpl in Hb; lia). cbn -[Z.add Z.mul].
  rewrite !b2z_z2b. change (b2z x00) with 0. unfold wrapu.
  rewrite take_0. cbn [le_get]. Z.div_mod_to_equations. lia.
Qed.

Lemma Encode_Decode_uint_witness :
  ∃ b', EncodeUint16 (replicate 8 xff) 65535 = Ret b'.
Proof.
  destruct (Encode_Decode_uint (replicate 8 xff) 65535) as ((b' & E & _) & _).
  { simpl. lia. }
  by exists b'.
Defined.

(** [DecodeUint24] appends to a subslice of its argument, so whenever the
    array behind the argument is longer than three bytes it zeroes the byte
    after the field: decoding destroys the next field of the message. *)
Theorem DecodeUint24_clobbers len mem :
  (3 < length mem)%nat →
  DecodeUint24 len mem = Ret (le_get (take 3 mem), <[3%nat := x00]> mem).
Proof.
  intros H. unfold DecodeUint24. rewrite !bool_decide_true by lia. do 2 f_equal.
  destruct mem as [|b0 [|b1 [|b2 [|b3 mem]]]]; try (simpl in H; lia).
  cbn -[Z.add Z.mul]. rewrite !take_0. cbn [le_get]. change (b2z x00) with 0. lia.
Qed.

Lemma DecodeUint24_clobbers_witness :
  DecodeUint24 3 [x01; x00; x00; x7f; x09] = Ret (1, [x01; x00; x00; x00; x09]).
Proof. apply (DecodeUint24_clobbers 3 [x01; x00; x00; x7f; x09]). simpl. lia. Defined.

Section SegmentSpec.
Context {cr : Crypto}.

(** For a positive segment size [Segment] terminates and cuts the message
    into equally sized segments that concatenate to the message followed by
    less than one segment of noise; their number is the length divided by the
    segment size, rounded up. *)
Theorem Segment_ok seed b size :
  0 < size →
  ∃ segs, Segment seed b size = Some (Ret segs) ∧ segments_of b size segs
          ∧ zlen segs = (zlen b + size - 1) / size.
Proof.
  intros Hs. destruct (Segment_loop_ok seed b size (length b) 0 []) as (out & E & Hok).
  { done. } { lia. } { unfold zlen. lia. }
  exists out. split; [done|]. split; [done|]. destruct Hok as (Hall & pad & Hc & Hp).
  apply (f_equal zlen) in Hc. rewrite (length_concat_sized _ _ Hall) in Hc.
  unfold zlen in Hc at 2. rewrite length_app, length_drop, Nat.sub_0_r in Hc.
  apply (Z.div_unique _ _ _ (size - 1 - zlen pad)); unfold zlen in *; lia.
Qed.
End SegmentSpec.

Lemma Segment_ok_witness :
  ∃ segs, Segment (cr := Toy.crypto) (arr_zero 32) [x01; x02; x03] 2 = Some (Ret segs)
          ∧ zlen segs = 2.
Proof.
  destruct (Segment_ok (cr := Toy.crypto) (arr_zero 32) [x01; x02; x03] 2) as (segs & E & _ & L); [lia|].
  exists segs. split; [exact E | exact L].
Defined.
