(* ===== verification/Cryptography.v ===== *)
(** * Keys, cloaks, nonces and the stream cipher

    Models [pkg/crypto] ([crypto.go], [types.go], [libp2p_impls.go]),
    [pkg/crypto/nonce], [pkg/crypto/sha256] and [pkg/crypto/ciph].  A possibly nil
    key pointer is an [option]; randomness ([rand.Read]) is an argument. *)

From S2P Require Export Slice.

Definition BlindLen : Z := 4.
Definition HashLen : Z := 4.
Definition CloakLen : Z := BlindLen + HashLen.
Definition PrvKeyLen : Z := 32.
Definition PubKeyLen : Z := 33.
Definition SigLen : Z := 64.
Definition IDLen : Z := 8.
Definition IVLen : Z := 16.
Definition Sha256Len : Z := 32.

Abbreviation Blinder := (arr 4).
Abbreviation CloakedPubKey := (arr 8).
Abbreviation PubBytes := (arr 33).
Abbreviation PrvBytes := (arr 32).
Abbreviation SigBytes := (arr 64).
Abbreviation Hash := (arr 32).
Abbreviation ID := (arr 8).
Abbreviation IV := (arr 16).

(** [Ciphers], [Nonces], [Privs] and [Pubs] are Go arrays of three. *)
Definition three (A : Type) : Type := A * A * A.
Definition Ciphers : Type := three Hash.
Definition Nonces : Type := three IV.

Definition to3 {A} (t : three A) : list A :=
  match t with (a, b, c) => [a; b; c] end.

#[export] Instance three_eq_dec `{EqDecision A} : EqDecision (three A) := _.

(** ** AES-CTR (package crypto/cipher) *)

Definition Block : Type := arr 16 → arr 16.

(** Big-endian increment of the 16-byte counter, wrapping at 2^128. *)
Definition ctr_next (iv : arr 16) : arr 16 :=
  arr_of 16 (rev (le_put 16 (le_get (rev (arr_list iv)) + 1))).

Fixpoint keystream (blocks : nat) (blk : Block) (iv : arr 16) : bytes :=
  match blocks with
  | O => []
  | S n => arr_list (blk iv) ++ keystream n blk (ctr_next iv)
  end.

(** [Encipher]: [NewCTR(blk, n).XORKeyStream(b, b)]. *)
Definition Encipher (blk : option Block) (n : IV) (b : bytes) : Out bytes :=
  match blk with
  | None => Panic (PMsg "Encipher called without a block cipher provided")
  | Some blk => Ret (zip_with bxor b (keystream (S (length b / 16)) blk n))
  end.

Lemma length_keystream n blk iv : length (keystream n blk iv) = (16 * n)%nat.
Proof.
  revert iv; induction n as [|n IH]; intros iv; [done|]. cbn [keystream].
  rewrite length_app, IH, arr_len. lia.
Qed.

Lemma keystream_enough blk iv (b : bytes) :
  (length b ≤ length (keystream (S (length b / 16)) blk iv))%nat.
Proof.
  rewrite length_keystream. pose proof (Nat.div_mod_eq (length b) 16).
  pose proof (Nat.mod_upper_bound (length b) 16). lia.
Qed.

Lemma length_Encipher blk iv b b' : Encipher (Some blk) iv b = Ret b' → length b' = length b.
Proof.
  intros [= <-]. rewrite length_zip_with. apply Nat.min_l, keystream_enough.
Qed.

Lemma zip_bxor_cancel (b k : bytes) :
  (length b ≤ length k)%nat → zip_with bxor (zip_with bxor b k) k = b.
Proof.
  revert k; induction b as [|x b IH]; intros [|y k] H; simpl in *; [done..|lia|].
  rewrite bxor_cancel, IH by lia. done.
Qed.

Lemma zip_bxor_comm (b k l : bytes) :
  zip_with bxor (zip_with bxor b k) l = zip_with bxor (zip_with bxor b l) k.
Proof.
  revert k l; induction b as [|x b IH]; intros [|y k] [|z l]; simpl; try done.
  by rewrite !bxor_assoc, (bxor_comm y), IH.
Qed.

(** The output of [Encipher], as a function of the text. *)
Definition enciphered (blk : Block) (n : IV) (b : bytes) : bytes :=
  zip_with bxor b (keystream (S (length b / 16)) blk n).

Lemma keystream_S_app n j blk iv :
  ∃ k, keystream (n + j) blk iv = keystream n blk iv ++ k.
Proof.
  revert iv; induction n as [|n IH]; intros iv; [by eexists|]. cbn [Nat.add keystream].
  destruct (IH (ctr_next iv)) as [k ->]. exists k. by rewrite app_assoc.
Qed.

Lemma zip_bxor_long (b k l : bytes) :
  (length b ≤ length k)%nat → zip_with bxor b (k ++ l) = zip_with bxor b k.
Proof.
  revert k; induction b as [|x b IH]; intros [|y k] H; simpl in *; try lia; [by destruct l|done|].
  by rewrite IH by lia.
Qed.

(** The cipher is a stream: what follows a text does not change its image. *)
Lemma enciphered_app blk iv b c :
  ∃ d, enciphered blk iv (b ++ c) = enciphered blk iv b ++ d ∧ length d = length c.
Proof.
  unfold enciphered. set (m := (length (b ++ c) / 16)%nat).
  assert (length b / 16 ≤ m)%nat as Hm
    by (apply Nat.Div0.div_le_mono; rewrite length_app; lia).
  destruct (keystream_S_app (S (length b / 16)) (m - length b / 16) blk iv) as [k Hk].
  replace (S (length b / 16) + (m - length b / 16))%nat with (S m) in Hk by lia.
  pose proof (keystream_enough blk iv b) as Lb.
  pose proof (keystream_enough blk iv (b ++ c)) as Lc. fold m in Lc.
  rewrite Hk in *. set (ks := keystream (S (length b / 16)) blk iv) in *.
  exists (zip_with bxor c (drop (length b) (ks ++ k))). split.
  - rewrite <- (take_drop (length b) (ks ++ k)) at 1.
    rewrite zip_with_app by (rewrite length_take, length_app in *; lia).
    f_equal. rewrite take_app_le by done.
    rewrite <- (take_drop (length b) ks) at 2. rewrite zip_bxor_long; [done|].
    rewrite length_take. lia.
  - rewrite length_zip_with, length_drop. rewrite length_app in Lc. lia.
Qed.

Lemma length_enciphered blk iv b : length (enciphered blk iv b) = length b.
Proof. by eapply length_Encipher. Qed.

Lemma enciphered_twice blk iv b : enciphered blk iv (enciphered blk iv b) = b.
Proof.
  unfold enciphered at 1. rewrite length_enciphered. unfold enciphered.
  apply zip_bxor_cancel, keystream_enough.
Qed.

Section Cryptography.
Context {cr : Crypto}.

(** ** Hashes *)

Definition Single (b : bytes) : Hash := Sum256 b.
Definition Double (b : bytes) : Hash := Single (arr_list (Single b)).

(** [Hash.Zero] and [PrvBytes.Zero] have value receivers: they clear a copy,
    the caller's value is what it was. *)
Definition Hash_Zero (h : Hash) : Hash := let _ := arr_zero 32 in h.
Definition PrvBytes_Zero (pb : PrvBytes) : PrvBytes := let _ := arr_zero 32 in pb.

(** ** Keys *)

Definition Prv_ToBytes (p : Prv) : PrvBytes := Serialize p.
Definition Pub_ToBytes (k : Pub) : PubBytes := SerializeCompressed k.

Definition DerivePub (prv : option Prv) : option Pub := PubKey <$> prv.

Definition PubFromBytes (b : bytes) : option Pub * option error :=
  match ParsePubKey b with
  | Some p => (Some p, None)
  | None => (None, Some (Errorf "invalid public key" []))
  end.

(** [Pub.Equals] and [Prv.Equals] compare the raw forms byte by byte. *)
Fixpoint raw_equal (a b : bytes) : bool :=
  match a, b with
  | [], [] => true
  | x :: a, y :: b => if decide (x = y) then raw_equal a b else false
  | _, _ => false
  end.
Definition Pub_Equals (k key : Pub) : bool :=
  raw_equal (arr_list (Pub_ToBytes key)) (arr_list (Pub_ToBytes k)).
Definition Prv_Equals (k key : Prv) : bool :=
  raw_equal (arr_list (Prv_ToBytes key)) (arr_list (Prv_ToBytes k)).

Record Keys := MkKeys { Keys_Pub : Pub; Keys_Bytes : PubBytes; Keys_Prv : Prv }.

Definition MakeKeys (pr : Prv) : Keys :=
  let pubkey := PubKey pr in MkKeys pubkey (Pub_ToBytes pubkey) pr.

(** [GenerateKeys] with the private key the generator delivered. *)
Definition GenerateKeys (pr : Prv) : Keys := MakeKeys pr.

(** ** Key sets: the scalar-addition key generator *)

Record KeySet := MkKeySet { Base : Prv; Increment : Prv }.

Definition Next (ks : KeySet) : Prv * KeySet :=
  let next := ScalarAdd (Base ks) (Increment ks) in
  (next, MkKeySet next (Increment ks)).

Definition Next2 (ks : KeySet) : Prv * Prv * KeySet :=
  let '(a, ks) := Next ks in let '(b, ks) := Next ks in (a, b, ks).

Definition Next3 (ks : KeySet) : three Prv * KeySet :=
  let '(a, ks) := Next ks in let '(b, ks) := Next ks in
  let '(c, ks) := Next ks in ((a, b, c), ks).

(** [NewSigner] with the two keys the generator delivered.  The first key it
    returns is the pointer the set holds: reading it reads [Base] of the set as it
    then is. *)
Definition NewSigner (base increment : Prv) : (KeySet → Prv) * KeySet := (Base, MkKeySet base increment).

(** ** Shared secrets and block ciphers *)

Definition ComputeSharedSecret (prv : Prv) (pub : Pub) : Hash :=
  Single (GenerateSharedSecret prv pub).

Definition GenCiphers (prvs : three Prv) (pubs : three Pub) : Ciphers :=
  match prvs, pubs with
  | (a, b, c), (p, q, r) =>
      (ComputeSharedSecret a p, ComputeSharedSecret b q, ComputeSharedSecret c r)
  end.

Definition BlockFromHash (h : Hash) : option Block := Some (NewCipher h).

Definition GetBlock (from : Prv) (to : Pub) : option Block :=
  Some (NewCipher (ComputeSharedSecret from to)).

(** ** Cloaked keys *)

Definition Cloak (b : Blinder) (key : PubBytes) : CloakedPubKey :=
  let h := Single (arr_list b ++ arr_list key) in
  arr_of 8 (overlay 4 (take 4 (arr_list h))
              (overlay 0 (take 4 (arr_list b)) (replicate 8 x00))).

Definition GetCloak (blinder : Blinder) (s : Pub) : CloakedPubKey :=
  Cloak blinder (Pub_ToBytes s).

Definition Match (r : CloakedPubKey) (k : PubBytes) : bool :=
  let b := arr_of 4 (take 4 (arr_list r)) in
  bool_decide (r = Cloak b k).

(** ** Signatures *)

(** [Prv.Sign]: Schnorr over the SHA-256 of the message; a failed signature
    leaves a nil pointer that [Serialize] dereferences. *)
Definition Prv_Sign (p : Prv) (b : bytes) : Out SigBytes :=
  match SchnorrSign p (Single b) with
  | Some s => Ret s
  | None => Panic PNil
  end.

Definition Pub_Verify (k : Pub) (data : bytes) (sig : SigBytes) : bool :=
  SchnorrVerify k (Single data) sig.

(** The package's [Sign] and [Recover] use decred's compact ECDSA signatures. *)
Definition Sign `{!Ecdsa cr} (prv : Prv) (hash : Hash) : SigBytes * option error :=
  (arr_of 64 (take 64 (arr_list (SignCompact prv hash))), None).

Definition Recover `{!Ecdsa cr} (sb : SigBytes) (hash : Hash) : option Pub * option error :=
  match RecoverCompact (arr_list sb) hash with
  | Some pk => (Some pk, None)
  | None => (None, Some (Errorf "invalid compact signature" []))
  end.

(** libp2p's key interface. *)
Definition GetPublic (p : option Prv) : option Pub :=
  match p with None => None | Some _ => DerivePub p end.
Definition Prv_Raw (p : Prv) : bytes * option error := (arr_list (Prv_ToBytes p), None).
Definition Pub_Raw (k : Pub) : bytes * option error := (arr_list (Pub_ToBytes k), None).
Definition PubBytes_Equals (pb qb : PubBytes) : bool := bool_decide (pb = qb).

Definition MatchesPubkey (sb : SigBytes) (b : bytes) (pk : Pub) : bool :=
  Pub_Verify pk b sb.

(** ** Identifiers: a hash chain reseeded when its 16-bit counter is zero *)

Record IDState := MkIDState { counter : Z; id_seed : Hash }.

Definition reseed (rnd : Hash) (st : IDState) : IDState :=
  MkIDState (wrapu 16 (counter st + 1)) rnd.

Definition NewID (rnd : Hash) (st : IDState) : ID * IDState :=
  let st := if bool_decide (counter st = 0) then reseed rnd st else st in
  let seed := Single (arr_list (id_seed st)) in
  (arr_of 8 (take 8 (arr_list seed)), MkIDState (wrapu 16 (counter st + 1)) seed).

(** ** Lemmas *)

Lemma raw_equal_spec a b : raw_equal a b = bool_decide (a = b).
Proof.
  revert b; induction a as [|x a IH]; intros [|y b]; simpl; try done.
  destruct (decide (x = y)) as [->|Hne].
  - rewrite IH. apply bool_decide_ext. split; congruence.
  - symmetry. apply bool_decide_false. congruence.
Qed.

Lemma length_cloak (b : Blinder) (k : PubBytes) :
  length (overlay 4 (take 4 (arr_list (Single (arr_list b ++ arr_list k))))
            (overlay 0 (take 4 (arr_list b)) (replicate 8 x00))) = 8%nat.
Proof.
  rewrite !length_overlay; rewrite ?length_take, ?arr_len, ?length_replicate;
    simpl; rewrite ?length_overlay; rewrite ?length_take, ?arr_len, ?length_replicate; simpl; lia.
Qed.

(** The blinding factor is in the clear at the front of a cloaked key. *)
Lemma Cloak_blinder b k : arr_of 4 (take 4 (arr_list (Cloak b k))) = b.
Proof.
  apply arr_eq. unfold Cloak. rewrite (arr_list_of 8) by apply length_cloak.
  assert (length (take 4 (arr_list b)) = 4%nat) as L by (rewrite length_take, arr_len; done).
  rewrite take_overlay by (rewrite length_overlay, length_replicate;
    rewrite ?L, ?length_replicate; simpl; lia).
  pose proof (window_overlay 0 (take 4 (arr_list b)) (replicate 8 x00)) as W.
  rewrite L, drop_0 in W. rewrite W by (rewrite length_replicate; lia).
  rewrite take_ge by (rewrite arr_len; lia). apply arr_list_of, arr_len.
Qed.

Lemma Match_Cloak b k : Match (Cloak b k) k = true.
Proof. unfold Match. rewrite Cloak_blinder. by apply bool_decide_true. Qed.

Lemma Match_spec r k : Match r k = true ↔ ∃ b, r = Cloak b k.
Proof.
  split; [|intros [b ->]; apply Match_Cloak].
  unfold Match. intros H%bool_decide_eq_true. eauto.
Qed.

Lemma Encipher_total blk iv b : ∃ b', Encipher (Some blk) iv b = Ret b' ∧ length b' = length b.
Proof. eexists. split; [done|]. by eapply length_Encipher. Qed.

Lemma Encipher_involutive blk iv b b' :
  Encipher blk iv b = Ret b' → Encipher blk iv b' = Ret b.
Proof.
  destruct blk as [blk|]; [|done]. intros E. pose proof (length_Encipher _ _ _ _ E) as L.
  injection E as <-. unfold Encipher. rewrite L.
  f_equal. apply zip_bxor_cancel, keystream_enough.
Qed.

Lemma Encipher_comm k1 k2 i1 i2 b :
  (x ← Encipher k1 i1 b; Encipher k2 i2 x) = (x ← Encipher k2 i2 b; Encipher k1 i1 x) ∨
  k1 = None ∨ k2 = None.
Proof.
  destruct k1 as [k1|]; [|by auto]. destruct k2 as [k2|]; [|by auto]. left.
  unfold Encipher. cbn [mbind Out_bind].
  rewrite !length_zip_with, !length_keystream.
  pose proof (keystream_enough k1 i1 b) as L. rewrite length_keystream in L.
  rewrite Nat.min_l by done. by rewrite zip_bxor_comm.
Qed.
End Cryptography.

Section CryptographyLaws.
Context {cr : Crypto} {crl : CryptoLaws}.

(** Both ends of a Diffie-Hellman exchange build the same block cipher. *)
Lemma GetBlock_comm a b : GetBlock a (PubKey b) = GetBlock b (PubKey a).
Proof. unfold GetBlock, ComputeSharedSecret. by rewrite ecdh_comm. Qed.

Lemma Pub_Equals_spec p q : Pub_Equals p q = bool_decide (p = q).
Proof.
  unfold Pub_Equals. rewrite raw_equal_spec. apply bool_decide_ext. split; [|congruence].
  intros E%arr_eq. symmetry. by apply SerializeCompressed_inj.
Qed.

Lemma Sign_Verify k b s : Prv_Sign k b = Ret s → MatchesPubkey s b (PubKey k) = true.
Proof.
  unfold Prv_Sign, MatchesPubkey, Pub_Verify.
  destruct (SchnorrSign _ _) eqn:E; [|done]. intros [= <-]. by apply schnorr_verify.
Qed.

(** The first key of a signer is not the caller's own: the next key overwrites it. *)
Lemma NewSigner_first_moves base increment :
  let '(first, ks) := NewSigner base increment in
  first ks = base ∧ let '(n, ks') := Next ks in first ks' = n ∧ n = ScalarAdd base increment.
Proof. done. Qed.

(** A compact signature has 65 bytes, [SigBytes] 64: nothing is ever recovered. *)
Lemma Recover_never `{!Ecdsa cr} `{!EcdsaLaws cr} prv hash :
  ∃ e, Recover (Sign prv hash).1 hash = (None, Some e).
Proof. unfold Recover. rewrite recover_length; [by eexists|]. rewrite arr_len. lia. Qed.
End CryptographyLaws.
