(* ===== verification/B32.v ===== *)
(** * Text forms: based32, identifiers, fingerprints

    Models [pkg/util/b32] (the alphabet, [based32.Codec], [codec.Codec]) and the
    printing and reading of keys, signatures, hashes and identifiers in
    [pkg/crypto], [pkg/crypto/nonce] and [pkg/crypto/sha256].  A Go string is the
    list of its bytes.  Go's [encoding/base32] with the standard padding is
    modelled here: [EncodeToString] and [decode]. *)

From S2P Require Export Cryptography.

(** ** Positional notation *)

Fixpoint digits (B : Z) (n : nat) (v : Z) : list Z :=
  match n with O => [] | S n => digits B n (v / B) ++ [v `mod` B] end.

Definition value (B : Z) (l : list Z) : Z := foldl (λ acc d, acc * B + d) 0 l.

(** ** encoding/base32 *)

Definition Based32Ciphers : bytes := String.list_byte_of_string "abcdefghijklmnopqrstuvwxyz234679".

Definition padChar : byte := "="%byte.
Definition cipher (d : Z) : byte := nth (Z.to_nat d) Based32Ciphers x00.
(** The decode map; [None] is the entry 0xFF. *)
Definition decodeMap (c : byte) : option Z :=
  (λ p, Z.of_nat (fst p)) <$> list_find (λ x, x = c) Based32Ciphers.

(** Five bytes are eight digits; a shorter group is filled with zero bits, and
    the digits that hold none of its bits are padding. *)
Definition group_digits (n : nat) : nat :=
  match n with 0 => 0 | 1 => 2 | 2 => 4 | 3 => 5 | 4 => 7 | _ => 8 end%nat.
Definition group_bytes (n : nat) : nat :=
  match n with 0 | 1 => 0 | 2 | 3 => 1 | 4 => 2 | 5 | 6 => 3 | 7 => 4 | _ => 5 end%nat.

Definition encode_group (g : bytes) : bytes :=
  let n := group_digits (length g) in
  (cipher <$> take n (digits 32 8 (value 256 (b2z <$> (g ++ replicate (5 - length g) x00)))))
  ++ replicate (8 - n) padChar.

Fixpoint EncodeToString (src : bytes) : bytes :=
  match src with
  | [] => []
  | a :: b :: c :: d :: e :: src => encode_group [a; b; c; d; e] ++ EncodeToString src
  | src => encode_group src
  end.

(** The bytes of a quantum of [length dbuf] digits; the missing ones are zero. *)
Definition decode_group (dbuf : list Z) : bytes :=
  take (group_bytes (length dbuf))
    (z2b <$> digits 256 5 (value 32 (dbuf ++ replicate (8 - length dbuf) 0))).

(** The decoder: the digits of the current quantum are in [dbuf].  Padding counts
    only in the last eight characters and after two digits; what follows the
    quantum it ends is ignored. *)
Fixpoint decode (dbuf : list Z) (src : bytes) : option bytes :=
  match src with
  | [] => if decide (dbuf = []) then Some [] else None
  | c :: src =>
      let j := length dbuf in
      if decide (c = padChar ∧ (2 ≤ j)%nat ∧ (length src < 8)%nat) then
        if decide (length src + j < 7)%nat then None else
        if decide (Exists (λ x, x ≠ padChar) (take (7 - j) src)) then None else
        if decide (j ∈ [1; 3; 6]%nat) then None else Some (decode_group dbuf)
      else
        d ← decodeMap c;
        let dbuf := dbuf ++ [d] in
        if decide (length dbuf = 8%nat)
        then (λ rest, decode_group dbuf ++ rest) <$> decode [] src
        else decode dbuf src
  end.

(** [Decode] strips the newlines first. *)
Definition enc_Decode (src : bytes) : option bytes :=
  decode [] (filter (λ c, c ≠ x0a ∧ c ≠ x0d) src).

(** ** The based32 codec *)

Definition getCheckLen (length : Z) : Z :=
  let lengthMod := (2 + length) `mod` 5 in 5 - lengthMod + 1.

Definition getCutPoint (length checkLen : Z) : Z := length - checkLen - 1.

Section Codec.
Context {cr : Crypto}.

Definition MakeCheck (input : bytes) (checkLen : Z) : Out bytes :=
  goslice (arr_list (Single input)) 0 checkLen.

(** The prefix of the codec is empty. *)
Definition HRP : bytes := [].

Definition Encoder (input : bytes) : Out (bytes * option error) :=
  if bool_decide (zlen input < 1) then
    Ret ([], Some (Errorf "cannot encode zero length to based32" []))
  else
    let checkLen := getCheckLen (zlen input) in
    let outputBytes := replicate (Z.to_nat (zlen input + checkLen + 1)) x00 in
    outputBytes ← goset outputBytes 0 (z2b checkLen);
    outputBytes ← gocopy outputBytes 1 (zlen input + 1) input;
    ch ← MakeCheck input checkLen;
    outputBytes ← gocopy outputBytes (zlen input + 1) (zlen outputBytes) ch;
    let outputString := EncodeToString outputBytes in
    out ← goslice outputString 0 (zlen outputString - 1);
    Ret (HRP ++ out, None).

Definition Check (input : bytes) : Out (option error) :=
  if bool_decide (zlen input < 1) then
    Ret (Some (Errorf "cannot encode zero length to based32" []))
  else
    c ← goindex input 0;
    let checkLen := b2z c in
    if bool_decide (zlen input < checkLen + 1) then
      Ret (Some (Errorf "data too short to have a check" []))
    else
      let cutPoint := getCutPoint (zlen input) checkLen in
      payload ← goslice input 1 cutPoint;
      checksum ← goslice input cutPoint (zlen input);
      computedChecksum ← MakeCheck payload checkLen;
      let valid := bool_decide (checksum ≠ computedChecksum) in
      Ret (if negb valid then Some (Errorf "check failed" []) else None).

(** A nil result is the empty slice. *)
Definition Decoder (input : bytes) : Out (bytes * option error) :=
  input ← goslice input (zlen HRP) (zlen input);
  let input := input ++ ["q"%byte] in
  match enc_Decode input with
  | None => Ret ([], Some (Errorf "illegal base32 data" []))
  | Some written =>
      let data := overlay 0 written (replicate (Z.to_nat (zlen input * 5 / 8)) x00) in
      let writtenBytes := zlen written in
      c ← goindex data 0;
      let checkLen := b2z c in
      if bool_decide (writtenBytes < checkLen + 1) then
        Ret ([], Some (Errorf "check too short" []))
      else
        e ← Check data;
        match e with
        | Some e => Ret ([], Some e)
        | None =>
            output ← goslice data 1 (getCutPoint (zlen data + 1) checkLen);
            Ret (output, None)
        end
  end.

(** ** Keys, signatures, hashes and identifiers as text *)

(** The encoding of [b] less its first [n] characters; the error is logged. *)
Definition encoded_from (n : Z) (b : bytes) : Out bytes :=
  r ← Encoder b;
  goslice (fst r) n (zlen (fst r)).

Definition Prv_ToBased32 (p : Prv) : Out bytes := encoded_from 1 (arr_list (Prv_ToBytes p)).

Definition PrvFromBased32 (s : bytes) : Out (Prv * option error) :=
  r ← Decoder ("a"%byte :: s);
  Ret (PrivKeyFromBytes (fst r), snd r).

Definition PubBytes_ToBased32 (pb : PubBytes) : Out bytes := encoded_from 3 (arr_list pb).

(** [Pub.ToBased32] would answer the text of the error. *)
Definition Pub_ToBased32 (k : Pub) : Out bytes :=
  r ← Encoder (arr_list (Pub_ToBytes k));
  match r with
  | (s, None) => goslice s 3 (zlen s)
  | (_, Some (Errorf msg _)) => Ret (String.list_byte_of_string msg)
  end.

(** [ToBased32Abbreviated], with the colouring of the terminal package. *)
Definition ToBased32Abbreviated (LightGreen : bytes → bytes) (k : Pub) : Out bytes :=
  s ← Pub_ToBased32 k;
  a ← goslice s 0 13;
  b ← goslice s (zlen s - 8) (zlen s);
  Ret (LightGreen (a ++ String.list_byte_of_string "..." ++ b)).

(** The error of the decoder is overwritten by that of the parser. *)
Definition PubFromBased32 (s : bytes) : Out (option Pub * option error) :=
  r ← Decoder (String.list_byte_of_string "ayb" ++ s);
  Ret (PubFromBytes (fst r)).

Definition SigBytes_String (sb : SigBytes) : Out bytes := encoded_from 2 (arr_list sb).

Definition SigFromBased32 (s : bytes) : Out (SigBytes * option error) :=
  r ← Decoder (String.list_byte_of_string "aq" ++ s);
  Ret (arr_of 64 (take 64 (fst r)), snd r).

Definition Fingerprint (k : Pub) : Out bytes :=
  b ← goslice (arr_list (Single (arr_list (Pub_ToBytes k)))) 0 5;
  Ret (EncodeToString b).

Definition ID_String (id : ID) : Out bytes := goslice (EncodeToString (arr_list id)) 0 13.
Definition Hash_Based32String (h : Hash) : Out bytes := goslice (EncodeToString (arr_list h)) 0 52.

(** [hex.EncodeToString] *)
Definition hex_digit (d : Z) : byte :=
  nth (Z.to_nat d) (String.list_byte_of_string "0123456789abcdef") x00.
Definition hex_EncodeToString (b : bytes) : bytes :=
  b ≫= λ c, [hex_digit (b2z c / 16); hex_digit (b2z c `mod` 16)].
Definition Hash_String (h : Hash) : bytes := hex_EncodeToString (arr_list h).
Definition Pub_ToHex (k : Pub) : bytes * option error :=
  (hex_EncodeToString (arr_list (Pub_ToBytes k)), None).
End Codec.
