(* ===== verification/B32Props.v ===== *)
(** * Text forms: what is printed is read back

    The base-32 group of the standard library is the same number in two bases;
    from there [EncodeToString] and [Decode] are inverse, and so are the based32
    codec and the text forms of keys.  The check of the codec never fails. *)

From S2P Require Export B32.

(** ** Positional notation *)

Lemma length_digits B n v : length (digits B n v) = n.
Proof. revert v; induction n as [|n IH]; intros v; [done|]. cbn. rewrite length_app, IH. simpl. lia. Qed.

Lemma value_snoc B l d : value B (l ++ [d]) = value B l * B + d.
Proof. unfold value. by rewrite foldl_app. Qed.

Lemma value_app B l k : value B (l ++ k) = value B l * B ^ zlen k + value B k.
Proof.
  induction k as [|d k IH] using rev_ind; [rewrite app_nil_r, Z.pow_0_r, Z.mul_1_r; symmetry; apply Z.add_0_r|].
  rewrite app_assoc, !value_snoc, IH. unfold zlen. rewrite length_app, Nat2Z.inj_add, Z.pow_add_r by lia.
  simpl (length [d]). rewrite Z.pow_1_r. ring.
Qed.

Lemma value_zeros B n : value B (replicate n 0) = 0.
Proof. induction n as [|n IH]; [done|]. rewrite replicate_S_end, value_snoc, IH. lia. Qed.

Lemma digits_range B n v : 0 < B → Forall (λ d, 0 ≤ d < B) (digits B n v).
Proof.
  intros HB. revert v; induction n as [|n IH]; intros v; cbn; [done|].
  apply Forall_app; split; [apply IH|]. constructor; [|done]. by apply Z.mod_pos_bound.
Qed.

Lemma value_digits B n v : 0 < B → value B (digits B n v) = v `mod` B ^ Z.of_nat n.
Proof.
  intros HB. revert v; induction n as [|n IH]; intros v; [by rewrite Z.mod_1_r|].
  cbn [digits]. rewrite value_snoc, IH, Nat2Z.inj_succ, Z.pow_succ_r by lia.
  pose proof (Z.pow_pos_nonneg B (Z.of_nat n) HB ltac:(lia)).
  rewrite Z.rem_mul_r by lia. ring.
Qed.

Lemma value_range B l : 0 < B → Forall (λ d, 0 ≤ d < B) l → 0 ≤ value B l < B ^ zlen l.
Proof.
  intros HB. induction l as [|d l IH] using rev_ind; [done|].
  intros [H1 [H2 _]%Forall_cons]%Forall_app. specialize (IH H1).
  rewrite value_snoc. unfold zlen in *. rewrite length_app, Nat2Z.inj_add, Z.pow_add_r by lia.
  simpl (length [d]). rewrite Z.pow_1_r. split; [nia|].
  enough ((value B l + 1) * B ≤ B ^ Z.of_nat (length l) * B) by nia. apply Z.mul_le_mono_nonneg_r; lia.
Qed.

Lemma digits_value B l : 0 < B → Forall (λ d, 0 ≤ d < B) l → digits B (length l) (value B l) = l.
Proof.
  intros HB. induction l as [|d l IH] using rev_ind; [done|].
  intros [H1 [H2 _]%Forall_cons]%Forall_app.
  rewrite length_app, Nat.add_1_r, value_snoc. cbn [digits].
  rewrite Z.div_add_l, Z.div_small, Z.add_0_r, IH by (done || lia).
  by rewrite (Z.add_comm _ d), Z_mod_plus_full, Z.mod_small by lia.
Qed.

Lemma digits_app B a b v :
  0 < B → digits B (a + b) v = digits B a (v / B ^ Z.of_nat b) ++ digits B b v.
Proof.
  intros HB. revert v; induction b as [|b IH]; intros v.
  - rewrite Nat.add_0_r, app_nil_r. simpl. by rewrite Z.div_1_r.
  - rewrite Nat.add_succ_r. cbn [digits]. rewrite IH, app_assoc, Nat2Z.inj_succ, Z.pow_succ_r by lia.
    pose proof (Z.pow_pos_nonneg B (Z.of_nat b) HB ltac:(lia)).
    rewrite Z.div_div by lia. done.
Qed.

Lemma bytes_range (b : bytes) : Forall (λ d, 0 ≤ d < 256) (b2z <$> b).
Proof. apply Forall_fmap, Forall_true. intros x. apply b2z_range. Qed.

Lemma z2b_b2z_list (b : bytes) : z2b <$> (b2z <$> b) = b.
Proof. induction b as [|x b IH]; [done|]. rewrite !fmap_cons, z2b_b2z, IH. done. Qed.

(** ** One group *)

Lemma cipher_facts d : 0 ≤ d < 32 →
  decodeMap (cipher d) = Some d ∧ cipher d ≠ padChar ∧ cipher d ≠ x0a ∧ cipher d ≠ x0d.
Proof.
  intros Hd. assert (Forall (λ n, decodeMap (cipher (Z.of_nat n)) = Some (Z.of_nat n) ∧
    cipher (Z.of_nat n) ≠ padChar ∧ cipher (Z.of_nat n) ≠ x0a ∧ cipher (Z.of_nat n) ≠ x0d) (seq 0 32)) as F.
  { repeat (constructor; [by vm_compute|]). constructor. }
  rewrite Forall_forall in F. specialize (F (Z.to_nat d)). rewrite Z2Nat.id in F by lia.
  apply F, elem_of_seq. lia.
Qed.

(** Powers of numerals, evaluated. *)
Ltac pow_numerals := repeat match goal with
  | |- context [?a ^ Z.of_nat ?b] =>
      let v := eval vm_compute in (a ^ Z.of_nat b) in change (a ^ Z.of_nat b) with v
  | H : context [?a ^ Z.of_nat ?b] |- _ =>
      let v := eval vm_compute in (a ^ Z.of_nat b) in change (a ^ Z.of_nat b) with v in H
  end.

(** The digits of a group hold its bytes. *)
Lemma decode_encode_group g ds :
  (1 ≤ length g ≤ 5)%nat →
  ds = take (group_digits (length g)) (digits 32 8 (value 256 (b2z <$> (g ++ replicate (5 - length g) x00)))) →
  decode_group ds = g.
Proof.
  intros L ->. set (k := length g) in *. set (n := group_digits k).
  set (zs := b2z <$> (g ++ replicate (5 - k) x00)). set (V := value 256 zs).
  assert (length zs = 5%nat) as Lz by (unfold zs; rewrite length_fmap, length_app, length_replicate; lia).
  assert (V = value 256 (b2z <$> g) * 256 ^ Z.of_nat (5 - k)) as EV.
  { unfold V, zs. rewrite fmap_app, value_app, fmap_replicate. change (b2z x00) with 0.
    rewrite value_zeros. unfold zlen. rewrite length_replicate. lia. }
  pose proof (value_range 256 _ ltac:(lia) (bytes_range g)) as R. unfold zlen in R.
  rewrite length_fmap in R. fold k in R. set (W := value 256 (b2z <$> g)) in *.
  assert ((n + (8 - n) = 8)%nat ∧ group_bytes n = k) as [Hn Hk]
    by (unfold n; clearbody k; clear -L; do 6 (destruct k as [|k]; [first [lia|done]|]); lia).
  assert (value 32 (take n (digits 32 8 V) ++ replicate (8 - n) 0) = V) as Hv.
  { rewrite <- Hn at 1. rewrite digits_app by lia. rewrite take_app_length' by (by rewrite length_digits).
    rewrite value_app, value_zeros, value_digits by lia. unfold zlen. rewrite length_replicate.
    rewrite EV. clear -L R. clearbody W. unfold n. clearbody k.
    assert (k = 1 ∨ k = 2 ∨ k = 3 ∨ k = 4 ∨ k = 5)%nat as Hk by lia.
    destruct_or! Hk; subst k; cbn [group_digits]; pow_numerals;
      Z.to_euclidean_division_equations; lia. }
  assert (length (take n (digits 32 8 V)) = n) as Ld by (rewrite length_take, length_digits; lia).
  unfold decode_group. rewrite Ld, Hv, Hk. unfold V. rewrite <- Lz, digits_value by (lia || apply bytes_range).
  unfold zs. rewrite z2b_b2z_list. by apply take_app_length'.
Qed.

(** ** Whole strings *)

Lemma decode_step dbuf c src : c ≠ padChar →
  decode dbuf (c :: src) =
    (d ← decodeMap c;
     if decide (length (dbuf ++ [d]) = 8%nat)
     then (λ rest, decode_group (dbuf ++ [d]) ++ rest) <$> decode [] src
     else decode (dbuf ++ [d]) src).
Proof. intros Hc. cbn [decode]. rewrite decide_False by naive_solver. done. Qed.

Lemma decode_digits dbuf ds rest :
  Forall (λ d, 0 ≤ d < 32) ds → ds ≠ [] → (length dbuf + length ds = 8)%nat →
  decode dbuf ((cipher <$> ds) ++ rest) = (λ r, decode_group (dbuf ++ ds) ++ r) <$> decode [] rest.
Proof.
  intros F. revert dbuf; induction F as [|d ds Hd F IH]; intros dbuf Hne L; [done|].
  destruct (cipher_facts d Hd) as (E & Hp & _). rewrite fmap_cons. cbn [app].
  rewrite decode_step, E by done. cbn [mbind option_bind]. rewrite length_app; simpl (length [d]).
  destruct ds as [|d' ds].
  - by rewrite decide_True by (simpl in *; lia).
  - rewrite decide_False, IH by (simpl in *; (done || rewrite ?length_app; simpl; lia)).
    by rewrite <- app_assoc.
Qed.

Lemma decode_padding dbuf ds :
  Forall (λ d, 0 ≤ d < 32) ds → (length (dbuf ++ ds) ∈ [2; 4; 5; 7])%nat →
  decode dbuf ((cipher <$> ds) ++ replicate (8 - length (dbuf ++ ds)) padChar) = Some (decode_group (dbuf ++ ds)).
Proof.
  intros F. revert dbuf; induction F as [|d ds Hd F IH]; intros dbuf L.
  - rewrite app_nil_r in *. cbn [fmap list_fmap app]. set (j := length dbuf) in *.
    assert (∃ p, 8 - j = S p ∧ p = 7 - j ∧ 2 ≤ j ≤ 7 ∧ j ∉ [1; 3; 6])%nat as (p & -> & -> & Hj & H6).
    { clearbody j. exists (7 - j)%nat. set_unfold. lia. }
    cbn [replicate decode]. fold j. rewrite decide_True by (rewrite length_replicate; split_and!; (done || lia)).
    rewrite length_replicate, decide_False by lia.
    rewrite decide_False by (rewrite take_ge by (rewrite length_replicate; lia);
      intros (x & [-> _]%elem_of_replicate & Hx)%Exists_exists; done).
    by rewrite decide_False.
  - destruct (cipher_facts d Hd) as (E & Hp & _). rewrite fmap_cons. cbn [app].
    rewrite decode_step, E by done. cbn [mbind option_bind].
    replace (dbuf ++ d :: ds) with ((dbuf ++ [d]) ++ ds) in * by (by rewrite <- app_assoc).
    rewrite decide_False; [by apply IH|]. rewrite length_app in L. set_unfold. lia.
Qed.

Lemma groups_ind (P : bytes → Prop) :
  (∀ g, (length g < 5)%nat → P g) → (∀ g l, length g = 5%nat → P l → P (g ++ l)) → ∀ l, P l.
Proof.
  intros Hs Hl l. remember (length l) as n eqn:E. revert l E.
  induction n as [n IH] using lt_wf_ind. intros l ->.
  destruct (decide (length l < 5)%nat) as [H|H]; [by apply Hs|].
  rewrite <- (take_drop 5 l). apply Hl; [rewrite length_take; lia|].
  eapply IH; [|done]. rewrite length_drop. lia.
Qed.

Lemma EncodeToString_app g l : length g = 5%nat →
  EncodeToString (g ++ l) = encode_group g ++ EncodeToString l.
Proof. intros L. do 5 (destruct g as [|? g]; [done|]). by destruct g. Qed.

Lemma EncodeToString_short g : (1 ≤ length g < 5)%nat → EncodeToString g = encode_group g.
Proof. intros L. do 5 (destruct g as [|? g]; [by simpl in L; try lia|]). simpl in L. lia. Qed.

(** The digits of a group, with their range. *)
Lemma encode_group_digits g : (1 ≤ length g ≤ 5)%nat →
  ∃ ds, encode_group g = (cipher <$> ds) ++ replicate (8 - group_digits (length g)) padChar ∧
    Forall (λ d, 0 ≤ d < 32) ds ∧ length ds = group_digits (length g) ∧ decode_group ds = g.
Proof.
  intros L. eexists. split; [done|]. split_and!.
  - apply Forall_take, digits_range. lia.
  - rewrite length_take, length_digits. destruct g as [|?[|?[|?[|?[|??]]]]]; simpl in *; lia.
  - by eapply decode_encode_group.
Qed.

(** Base 32, whatever the length of the text. *)
Lemma decode_EncodeToString l : decode [] (EncodeToString l) = Some l.
Proof.
  induction l as [g L|g l L IH] using groups_ind.
  - destruct (decide (g = [])) as [->|Hne]; [done|].
    assert (1 ≤ length g ≤ 5)%nat as L' by (destruct g; simpl in *; (done || lia)).
    rewrite EncodeToString_short by lia. destruct (encode_group_digits g L') as (ds & -> & F & Ld & E).
    rewrite <- E at 2. rewrite <- Ld. apply (decode_padding [] ds F). rewrite app_nil_l, Ld.
    destruct g as [|?[|?[|?[|?[|??]]]]]; simpl in *; set_solver by lia.
  - rewrite EncodeToString_app by done.
    destruct (encode_group_digits g ltac:(lia)) as (ds & -> & F & Ld & E).
    rewrite L in *. simpl in Ld. simpl (replicate (8 - _) _). rewrite app_nil_r.
    rewrite decode_digits, app_nil_l, IH, E by (done || (intros ->; done)). done.
Qed.

Lemma EncodeToString_inj l l' : EncodeToString l = EncodeToString l' → l = l'.
Proof. intros E. apply (inj Some). by rewrite <- !decode_EncodeToString, E. Qed.

(** ** Texts without padding

    A multiple of five bytes is one number, written in base 256 and in base 32. *)

Lemma digits_mod B n a v : 0 < B → digits B n (a * B ^ Z.of_nat n + v) = digits B n v.
Proof.
  intros HB. revert a v; induction n as [|n IH]; intros a v; [done|].
  cbn [digits]. rewrite Nat2Z.inj_succ, Z.pow_succ_r by lia.
  replace (a * (B * B ^ Z.of_nat n) + v) with (v + a * B ^ Z.of_nat n * B) by ring.
  rewrite Z.div_add by lia. rewrite Z_mod_plus_full.
  by rewrite (Z.add_comm (v / B)), IH.
Qed.

Lemma pow_groups q : 32 ^ Z.of_nat (8 * q) = 256 ^ Z.of_nat (5 * q).
Proof.
  rewrite !Nat2Z.inj_mul. change (32 ^ (8 * Z.of_nat q) = 256 ^ (5 * Z.of_nat q)).
  by rewrite !Z.pow_mul_r by lia.
Qed.

(** A number split at [n] digits: the high part and the low part. *)
Lemma digits_split B a n hi lo : 0 < B → 0 ≤ lo < B ^ Z.of_nat n →
  digits B (a + n) (hi * B ^ Z.of_nat n + lo) = digits B a hi ++ digits B n lo.
Proof.
  intros HB Hlo. rewrite digits_app, digits_mod by done.
  rewrite Z.div_add_l, Z.div_small, Z.add_0_r by lia. done.
Qed.

Lemma decode_aligned q ds : length ds = (8 * q)%nat → Forall (λ d, 0 ≤ d < 32) ds →
  decode [] (cipher <$> ds) = Some (z2b <$> digits 256 (5 * q) (value 32 ds)).
Proof.
  revert ds; induction q as [|q IH]; intros ds L F.
  { apply nil_length_inv in L as ->. done. }
  rewrite <- (take_drop 8 ds) in F |- *.
  assert (length (take 8 ds) = 8%nat) as L1 by (rewrite length_take; lia).
  assert (length (drop 8 ds) = (8 * q)%nat) as L2 by (rewrite length_drop; lia).
  set (g := take 8 ds) in *. set (r := drop 8 ds) in *. clearbody g r.
  apply Forall_app in F as [Fg Fr].
  rewrite fmap_app, decode_digits, (IH r L2 Fr) by (done || (intros ->; done)).
  cbn [fmap option_fmap option_map]. rewrite value_app. f_equal.
  pose proof (value_range 32 r ltac:(lia) Fr) as R. unfold zlen in *. rewrite L2, pow_groups in *.
  replace (5 * S q)%nat with (5 + 5 * q)%nat by lia.
  rewrite digits_split, fmap_app by (done || lia).
  f_equal. unfold decode_group. rewrite app_nil_l, L1.
  rewrite take_ge by (rewrite length_fmap, length_digits; simpl; lia). simpl (replicate _ _). by rewrite app_nil_r.
Qed.

Lemma encode_aligned q l : length l = (5 * q)%nat →
  EncodeToString l = cipher <$> digits 32 (8 * q) (value 256 (b2z <$> l)).
Proof.
  revert l; induction q as [|q IH]; intros l L.
  { apply nil_length_inv in L as ->. done. }
  rewrite <- (take_drop 5 l).
  assert (length (take 5 l) = 5%nat) as L1 by (rewrite length_take; lia).
  assert (length (drop 5 l) = (5 * q)%nat) as L2 by (rewrite length_drop; lia).
  set (g := take 5 l) in *. set (r := drop 5 l) in *. clearbody g r.
  rewrite EncodeToString_app, fmap_app, value_app, (IH r L2) by done.
  pose proof (value_range 256 _ ltac:(lia) (bytes_range r)) as R. unfold zlen in *.
  rewrite length_fmap, L2, <- pow_groups in *.
  replace (8 * S q)%nat with (8 + 8 * q)%nat by lia.
  rewrite digits_split, fmap_app by (done || lia).
  f_equal. unfold encode_group. rewrite L1. simpl (replicate _ _). rewrite !app_nil_r.
  by rewrite take_ge by (rewrite length_digits; simpl; lia).
Qed.

Lemma enc_Decode_digits ds : Forall (λ d, 0 ≤ d < 32) ds → enc_Decode (cipher <$> ds) = decode [] (cipher <$> ds).
Proof.
  intros F. unfold enc_Decode. f_equal. induction F as [|d ds Hd F IH]; [done|].
  destruct (cipher_facts d Hd) as (_ & _ & H1 & H2).
  rewrite fmap_cons, filter_cons_True by done. by rewrite IH.
Qed.

Section Codec.
Context {cr : Crypto}.

(** The number a text of the codec stands for: its digits and a last "q". *)
Definition read (q : nat) (ds : list Z) : bytes := z2b <$> digits 256 (5 * q) (value 32 (ds ++ [16])).

Lemma length_read q ds : length (read q ds) = (5 * q)%nat.
Proof. unfold read. by rewrite length_fmap, length_digits. Qed.

(** [Check] computes a checksum one byte shorter than the one it compares with,
    and takes the difference for success. *)
Lemma Check_data (data : bytes) (c : byte) : 1 ≤ zlen data → data !! 0%nat = Some c → b2z c + 1 < zlen data → b2z c ≤ 32 →
  Check data = Ret None.
Proof.
  intros L E Hc H32. unfold Check. pose proof (b2z_range c). rewrite bool_decide_false by lia.
  unfold goindex at 1. rewrite bool_decide_true by lia. change (Z.to_nat 0) with 0%nat. rewrite E.
  cbn [mbind Out_bind]. rewrite bool_decide_false by lia. unfold getCutPoint.
  rewrite !goslice_in by lia. cbn [mbind Out_bind]. unfold MakeCheck.
  rewrite goslice_in by (unfold zlen; rewrite ?arr_len; lia). cbn [mbind Out_bind].
  rewrite bool_decide_true; [done|]. intros Eq%(f_equal length).
  rewrite !length_take, !length_drop, arr_len in Eq. unfold zlen in *. lia.
Qed.

Lemma Decoder_digits q ds : length (ds ++ [16]) = (8 * q)%nat → Forall (λ d, 0 ≤ d < 32) ds →
  let c := b2z (nth 0 (read q ds) x00) in
  Decoder (cipher <$> ds) =
    if bool_decide (5 * Z.of_nat q < c + 1) then Ret ([], Some (Errorf "check too short" []))
    else if bool_decide (5 * Z.of_nat q = c + 1 ∨ 32 < c) then Panic PSlice
    else Ret (take (Z.to_nat (5 * Z.of_nat q - c - 1)) (drop 1 (read q ds)), None).
Proof.
  intros L F c. unfold Decoder. rewrite goslice_in by (unfold zlen; simpl; lia).
  cbn [mbind Out_bind]. change (zlen HRP) with 0. rewrite Z.sub_0_r, drop_0.
  rewrite take_ge by (unfold zlen; lia). set (s := cipher <$> ds).
  assert (s ++ ["q"%byte] = cipher <$> (ds ++ [16])) as -> by (by rewrite fmap_app).
  assert (Forall (λ d, 0 ≤ d < 32) (ds ++ [16])) as F' by (apply Forall_app_2; [done|apply Forall_cons; split; [lia|done]]).
  rewrite enc_Decode_digits, (decode_aligned q) by done. fold (read q ds).
  set (data := overlay 0 _ _).
  assert (data = read q ds) as ->.
  { unfold data, overlay. rewrite drop_ge; [by rewrite app_nil_r|].
    rewrite length_replicate, length_read. unfold zlen. rewrite length_fmap, L.
    replace (Z.of_nat (8 * q) * 5) with (Z.of_nat (5 * q) * 8) by lia. rewrite Z.div_mul by lia. lia. }
  assert (Lr : length (read q ds) = (5 * q)%nat) by apply length_read.
  destruct (read q ds) as [|b rest] eqn:E.
  { exfalso. simpl in Lr. rewrite length_app in L. simpl in L. lia. }
  change c with (b2z b). clear c. pose proof (b2z_range b).
  assert (zlen (b :: rest) = 5 * Z.of_nat q) as Lz by (unfold zlen; lia).
  change (goindex (b :: rest) 0) with (Ret b). cbn [mbind Out_bind]. rewrite Lz.
  destruct (bool_decide_reflect (5 * Z.of_nat q < b2z b + 1)); [done|].
  destruct (bool_decide_reflect (5 * Z.of_nat q = b2z b + 1 ∨ 32 < b2z b)) as [H'|H'].
  - unfold Check. rewrite bool_decide_false by lia. change (goindex (b :: rest) 0) with (Ret b).
    cbn [mbind Out_bind]. rewrite bool_decide_false by lia. unfold getCutPoint.
    destruct (decide (5 * Z.of_nat q = b2z b + 1)) as [Heq|Hne].
    + assert (goslice (b :: rest) 1 (zlen (b :: rest) - b2z b - 1) = Panic PSlice) as ->; [|done].
      unfold goslice. by rewrite bool_decide_false by lia.
    + rewrite !goslice_in by lia. cbn [mbind Out_bind]. unfold MakeCheck.
      rewrite goslice_out; [done|]. unfold zlen. rewrite arr_len. lia.
  - rewrite (Check_data _ b) by (done || lia). cbn [mbind Out_bind]. unfold getCutPoint.
    rewrite goslice_in by lia. cbn [mbind Out_bind]. do 3 f_equal. lia.
Qed.

(** ** What the encoder writes *)

(** The bytes under the text of [x]: the length of the check, [x], the check. *)
Definition framed (x : bytes) : bytes :=
  z2b (getCheckLen (zlen x)) :: x ++ take (Z.to_nat (getCheckLen (zlen x))) (arr_list (Single x)).

Lemma getCheckLen_range n : 2 ≤ getCheckLen n ≤ 6.
Proof. unfold getCheckLen. pose proof (Z.mod_pos_bound (2 + n) 5). lia. Qed.

Lemma length_framed x : ∃ q, length (framed x) = (5 * q)%nat ∧ (1 ≤ q)%nat ∧
  5 * Z.of_nat q = zlen x + getCheckLen (zlen x) + 1.
Proof.
  pose proof (getCheckLen_range (zlen x)) as R.
  assert (length (framed x) = S (length x + Z.to_nat (getCheckLen (zlen x)))) as L
    by (unfold framed; simpl; rewrite length_app, length_take, arr_len; lia).
  exists (Z.to_nat ((zlen x + getCheckLen (zlen x) + 1) / 5)). rewrite L. clear L.
  unfold getCheckLen, zlen in *. Z.to_euclidean_division_equations. lia.
Qed.

Lemma encoder_buffer (n : nat) (c : byte) (x ch : bytes) : length x = n →
  overlay (n + 1) ch (overlay 1 x (<[0%nat := c]> (replicate (S (n + length ch)) x00))) = c :: x ++ ch.
Proof.
  intros L. rewrite replicate_S. cbn [insert list_insert]. unfold overlay at 2. rewrite L.
  cbn [take drop Nat.add app]. rewrite drop_replicate. unfold overlay.
  replace (n + 1)%nat with (S (length x)) by lia. cbn [take drop Nat.add app].
  rewrite !take_0, !app_nil_l, take_app_length, drop_ge; [by rewrite app_nil_r|].
  rewrite length_app, length_replicate. lia.
Qed.

Lemma Encoder_text x : x ≠ [] →
  Encoder x = Ret (take (length (EncodeToString (framed x)) - 1) (EncodeToString (framed x)), None).
Proof.
  intros Hne. assert (1 ≤ zlen x) by (unfold zlen; destruct x; simpl; (done || lia)).
  unfold Encoder. rewrite bool_decide_false by lia.
  pose proof (getCheckLen_range (zlen x)) as R. set (cl := getCheckLen (zlen x)) in *.
  set (ch := take (Z.to_nat cl) (arr_list (Single x))).
  assert (length ch = Z.to_nat cl) as Lc by (unfold ch; rewrite length_take, arr_len; lia).
  unfold goset. rewrite bool_decide_true by (unfold zlen in *; rewrite length_replicate; lia).
  cbn [mbind Out_bind]. rewrite gocopy_in by (unfold zlen in *; rewrite ?length_insert, ?length_replicate; lia).
  cbn [mbind Out_bind]. unfold MakeCheck.
  rewrite goslice_in by (unfold zlen in *; rewrite ?arr_len; lia). cbn [mbind Out_bind].
  rewrite Z.sub_0_r, drop_0. fold ch.
  rewrite (take_ge x) by (unfold zlen; lia). change (Z.to_nat 1) with 1%nat.
  set (buf := overlay 1 _ _).
  assert (zlen buf = zlen x + cl + 1) as Lb.
  { unfold buf, zlen in *. rewrite length_overlay; rewrite length_insert, length_replicate; lia. }
  rewrite gocopy_in by lia. cbn [mbind Out_bind].
  rewrite take_ge by (unfold zlen in *; lia).
  replace (Z.to_nat (zlen x + 1)) with (length x + 1)%nat by (unfold zlen; lia).
  unfold buf. change (Z.to_nat 0) with 0%nat.
  replace (Z.to_nat (zlen x + cl + 1)) with (S (length x + length ch)) by (unfold zlen; lia).
  rewrite encoder_buffer by done. change (z2b cl :: x ++ ch) with (framed x).
  set (out := EncodeToString (framed x)).
  assert (1 ≤ zlen out) as Lo.
  { unfold out. destruct (length_framed x) as (q & Lf & Hq & _).
    rewrite (encode_aligned q) by done. unfold zlen. rewrite length_fmap, length_digits. lia. }
  rewrite goslice_in by lia. cbn [mbind Out_bind]. rewrite Z.sub_0_r, drop_0.
  by replace (Z.to_nat (zlen out - 1)) with (length out - 1)%nat by (unfold zlen; lia).
Qed.

Lemma Encoder_digits x : x ≠ [] → ∃ q ds,
  Encoder x = Ret (cipher <$> ds, None) ∧ length (ds ++ [16]) = (8 * q)%nat ∧
  Forall (λ d, 0 ≤ d < 32) ds ∧ (1 ≤ q)%nat ∧ length (framed x) = (5 * q)%nat ∧
  5 * Z.of_nat q = zlen x + getCheckLen (zlen x) + 1 ∧
  cipher <$> ds = take (8 * q - 1) (EncodeToString (framed x)) ∧
  ds = digits 32 (8 * q - 1) (value 256 (b2z <$> framed x) / 32).
Proof.
  intros Hne. destruct (length_framed x) as (q & Lf & Hq & Eq). rewrite Encoder_text by done.
  rewrite (encode_aligned q) by done. rewrite length_fmap, length_digits.
  set (V := value 256 _). exists q, (digits 32 (8 * q - 1) (V / 32)).
  assert (take (8 * q - 1) (cipher <$> digits 32 (8 * q) V) = cipher <$> digits 32 (8 * q - 1) (V / 32)) as ->.
  { replace (8 * q)%nat with (8 * q - 1 + 1)%nat at 2 by lia.
    rewrite digits_app, <- fmap_take by lia. by rewrite take_app_length' by (by rewrite length_digits). }
  split_and!; try done; [|by apply digits_range].
  rewrite length_app, length_digits. simpl (length [16]). lia.
Qed.

(** Dropping the last character costs nothing but the end of the check. *)
Lemma read_framed x q ds : (1 ≤ q)%nat → length (framed x) = (5 * q)%nat →
  ds = digits 32 (8 * q - 1) (value 256 (b2z <$> framed x) / 32) →
  take (5 * q - 1) (read q ds) = take (5 * q - 1) (framed x).
Proof.
  intros Hq L ->. unfold read. set (V := value 256 (b2z <$> framed x)).
  pose proof (value_range 256 _ ltac:(lia) (bytes_range (framed x))) as R. fold V in R.
  unfold zlen in R. rewrite length_fmap, L, <- pow_groups in R.
  replace (8 * q)%nat with (S (8 * q - 1)) in R by lia. rewrite Nat2Z.inj_succ, Z.pow_succ_r in R by lia.
  rewrite value_snoc, value_digits by lia.
  rewrite Z.mod_small by (Z.to_euclidean_division_equations; lia).
  assert (framed x = z2b <$> digits 256 (5 * q) V) as ->.
  { unfold V. replace (5 * q)%nat with (length (b2z <$> framed x)) by (by rewrite length_fmap).
    by rewrite digits_value, z2b_b2z_list by (lia || apply bytes_range). }
  replace (5 * q)%nat with (5 * q - 1 + 1)%nat at 2 4 by lia.
  rewrite !digits_app, <- !fmap_take by lia. change (256 ^ Z.of_nat 1) with 256.
  rewrite !take_app_length' by (by rewrite length_digits).
  do 2 f_equal. Z.to_euclidean_division_equations. lia.
Qed.

Lemma framed_read x : x ≠ [] → ∃ q ds,
  Encoder x = Ret (cipher <$> ds, None) ∧ length (ds ++ [16]) = (8 * q)%nat ∧
  Forall (λ d, 0 ≤ d < 32) ds ∧ (1 ≤ q)%nat ∧
  5 * Z.of_nat q = zlen x + getCheckLen (zlen x) + 1 ∧
  cipher <$> ds = take (8 * q - 1) (EncodeToString (framed x)) ∧
  take (5 * q - 1) (read q ds) = take (5 * q - 1) (framed x) ∧
  nth 0 (read q ds) x00 = z2b (getCheckLen (zlen x)).
Proof.
  intros Hne. destruct (Encoder_digits x Hne) as (q & ds & E & L & F & Hq & Lf & Eq & Et & Ed).
  pose proof (read_framed x q ds Hq Lf Ed) as R. exists q, ds. split_and!; try done.
  rewrite <- (take_drop (5 * q - 1) (read q ds)), R.
  destruct (5 * q - 1)%nat eqn:E1; [lia|]. done.
Qed.

(** The text of [x] reads back as [x]. *)
Lemma decode_text x : x ≠ [] → ∃ s, Encoder x = Ret (s, None) ∧ Decoder s = Ret (x, None).
Proof.
  intros Hne. destruct (framed_read x Hne) as (q & ds & E & L & F & Hq & Eq & _ & R & R0).
  exists (cipher <$> ds). split; [done|]. rewrite (Decoder_digits q) by done. rewrite R0, b2z_z2b.
  pose proof (getCheckLen_range (zlen x)) as Rc. rewrite Z.mod_small by lia.
  assert (1 ≤ zlen x) by (unfold zlen; destruct x; simpl; (done || lia)).
  rewrite !bool_decide_false by lia.
  replace (Z.to_nat _) with (length x) by (unfold zlen in *; lia). do 2 f_equal.
  assert (length (framed x) = (5 * q)%nat) as E5
    by (destruct (length_framed x) as (q' & -> & _ & ?); lia).
  rewrite <- (take_drop (5 * q - 1) (read q ds)), R.
  rewrite skipn_app, take_app_le by (rewrite length_drop, length_take, E5; unfold zlen in *; lia).
  rewrite skipn_firstn_comm, take_take, Nat.min_l by (unfold zlen in *; lia).
  unfold framed. simpl (drop 1 _). rewrite drop_0. by apply take_app_length.
Qed.

(** ** The first digits *)

Lemma z2b_mod z : z2b (z `mod` 256) = z2b z.
Proof. apply b2z_inj. rewrite !b2z_z2b. by apply Zmod_mod. Qed.

Lemma first_digits q (b0 b1 : byte) r : length (b0 :: b1 :: r) = (5 * q)%nat →
  ∃ t, EncodeToString (b0 :: b1 :: r) = (cipher <$> digits 32 3 ((b2z b0 * 256 + b2z b1) / 2)) ++ t.
Proof.
  intros L. rewrite (encode_aligned q) by done. rewrite !fmap_cons.
  change (b2z b0 :: b2z b1 :: (b2z <$> r)) with ([b2z b0; b2z b1] ++ (b2z <$> r)). rewrite value_app.
  pose proof (value_range 256 _ ltac:(lia) (bytes_range r)) as R. unfold zlen in *.
  rewrite length_fmap in *. simpl in L.
  assert (∃ p, q = S p) as [p ->] by (exists (q - 1)%nat; lia).
  replace (length r) with (3 + 5 * p)%nat in * by lia.
  set (w := value 256 (b2z <$> r)) in *. change (value 256 [b2z b0; b2z b1]) with (b2z b0 * 256 + b2z b1).
  set (h := b2z b0 * 256 + b2z b1).
  replace (8 * S p)%nat with (3 + (5 + 8 * p))%nat by lia.
  rewrite digits_app, fmap_app by lia. eexists. f_equal. do 2 f_equal.
  set (P := 256 ^ Z.of_nat (5 * p)).
  assert (32 ^ Z.of_nat (5 + 8 * p) = 16777216 * 2 * P) as -> by (by rewrite Nat2Z.inj_add, Z.pow_add_r, pow_groups by lia).
  assert (256 ^ Z.of_nat (3 + 5 * p) = 16777216 * P) as EP by (by rewrite Nat2Z.inj_add, Z.pow_add_r by lia).
  assert (0 < P) by (apply Z.pow_pos_nonneg; lia). rewrite EP in *.
  replace (16777216 * 2 * P) with ((16777216 * P) * 2) by ring.
  rewrite <- Z.div_div, Z.div_add_l, (Z.div_small w), Z.add_0_r by lia. done.
Qed.

(** The first two digits of a text decide the first byte and two bits of the next. *)
Lemma read_cons q d0 d1 r : length (d0 :: d1 :: r ++ [16]) = (8 * q)%nat → Forall (λ d, 0 ≤ d < 32) r →
  let P := 256 ^ Z.of_nat (5 * q - 2) in let lo := value 32 (r ++ [16]) in
  0 ≤ lo / P < 64 ∧
  read q (d0 :: d1 :: r) = z2b ((d0 * 32 + d1) / 4) :: z2b (d1 * 64 + lo / P) :: (z2b <$> digits 256 (5 * q - 2) lo).
Proof.
  intros L F P lo.
  assert (Forall (λ d, 0 ≤ d < 32) (r ++ [16])) as F' by (apply Forall_app_2; [done|apply Forall_cons; split; [lia|done]]).
  pose proof (value_range 32 _ ltac:(lia) F') as R. fold lo in R. unfold zlen in R. simpl in L.
  assert (∃ p, q = S p) as [p ->] by (exists (q - 1)%nat; lia).
  assert (P = 256 ^ Z.of_nat (3 + 5 * p)) as EP by (unfold P; do 2 f_equal; lia).
  assert (0 < P) as HP by (rewrite EP; apply Z.pow_pos_nonneg; lia).
  assert (32 ^ Z.of_nat (length (r ++ [16])) = 64 * P) as E64.
  { replace (length (r ++ [16])) with (6 + 8 * p)%nat by lia.
    rewrite EP, !Nat2Z.inj_add, !Z.pow_add_r, pow_groups by lia.
    change (256 ^ Z.of_nat 3) with 16777216. change (32 ^ Z.of_nat 6) with (64 * 16777216). ring. }
  rewrite E64 in R. split; [split; [apply Z.div_pos; lia|apply Z.div_lt_upper_bound; lia]|].
  unfold read. replace (5 * S p)%nat with (2 + (5 * S p - 2))%nat at 1 by lia.
  change ((d0 :: d1 :: r) ++ [16]) with ([d0; d1] ++ (r ++ [16])).
  rewrite value_app. fold lo. unfold zlen. rewrite E64.
  change (value 32 [d0; d1]) with (d0 * 32 + d1). set (h := d0 * 32 + d1).
  replace (h * (64 * P) + lo) with ((h * 64 + lo / P) * P + lo `mod` P)
    by (pose proof (Z.div_mod lo P); lia).
  unfold P at 2. rewrite digits_split by (done || (apply Z.mod_pos_bound; done)).
  fold P. rewrite fmap_app. set (m := lo / P).
  assert (digits 256 (5 * S p - 2) (lo `mod` P) = digits 256 (5 * S p - 2) lo) as ->.
  { rewrite (Z.div_mod lo P) at 2 by lia. rewrite (Z.mul_comm P). unfold P at 3. by rewrite digits_mod. }
  assert (0 ≤ m < 64) by (unfold m; split; [apply Z.div_pos; lia|apply Z.div_lt_upper_bound; lia]).
  cbn [digits app fmap list_fmap]. f_equal; [|f_equal].
  - rewrite z2b_mod. f_equal. unfold h. Z.to_euclidean_division_equations. lia.
  - rewrite <- (z2b_mod (d1 * 64 + m)), !z2b_mod. rewrite <- (z2b_mod (h * 64 + m)), <- (z2b_mod (d1 * 64 + m)).
    f_equal. unfold h. Z.to_euclidean_division_equations. lia.
Qed.

(** The text of bytes whose frame begins with two known ones. *)
Lemma decode_prefixed (x r : bytes) (b0 b1 : byte) : x ≠ [] → framed x = b0 :: b1 :: r →
  ∃ t, Encoder x = Ret ((cipher <$> digits 32 3 ((b2z b0 * 256 + b2z b1) / 2)) ++ t, None) ∧
    Decoder ((cipher <$> digits 32 3 ((b2z b0 * 256 + b2z b1) / 2)) ++ t) = Ret (x, None).
Proof.
  intros Hne Hf. destruct (framed_read x Hne) as (q & ds & E & L & F & Hq & Eq & Et & _ & _).
  destruct (decode_text x Hne) as (s & Es & Ds). rewrite E in Es. injection Es as <-.
  destruct (length_framed x) as (q' & Lf & _ & Eq'). assert (q' = q) as -> by lia. rewrite Hf in *.
  destruct (first_digits q b0 b1 r Lf) as [t Ht]. rewrite Ht in Et.
  exists (take (8 * q - 4) t). rewrite E, Et in *.
  rewrite take_app_ge in * by (rewrite length_fmap, length_digits; lia).
  rewrite length_fmap, length_digits in *. replace (8 * q - 1 - 3)%nat with (8 * q - 4)%nat in * by lia. done.
Qed.

Lemma cipher_inv c : c ∈ Based32Ciphers → ∃ d, 0 ≤ d < 32 ∧ c = cipher d.
Proof.
  intros (i & Hi)%list_elem_of_lookup. exists (Z.of_nat i).
  pose proof (lookup_lt_Some _ _ _ Hi) as L. change (length Based32Ciphers) with 32%nat in L.
  split; [lia|]. unfold cipher. rewrite Nat2Z.id. symmetry. by apply nth_lookup_Some.
Qed.

(** C25: The codec round-trips: every text of at least one byte is encoded without panic
    and read back exactly, although the encoder drops the last character and the
    decoder puts a fixed one in its place. *)
Theorem Decode_Encode (x : bytes) : x ≠ [] →
  ∃ s, Encoder x = Ret (s, None) ∧ Decoder s = Ret (x, None).
Proof. apply decode_text. Qed.

(** The check detects nothing: any character of an encoded text after the second
    may be replaced by any other of the alphabet, and the decoder answers bytes of
    the right length without an error. *)
Theorem check_detects_nothing (x s : bytes) (i : nat) (c : byte) :
  Encoder x = Ret (s, None) → (2 ≤ i < length s)%nat → c ∈ Based32Ciphers →
  ∃ y, Decoder (<[i := c]> s) = Ret (y, None) ∧ length y = length x.
Proof.
  intros Hx Hi (d & Hd & ->)%cipher_inv.
  assert (x ≠ []) as Hne by (intros ->; done). assert (1 ≤ zlen x) by (unfold zlen; destruct x; simpl; (done || lia)).
  destruct (framed_read x Hne) as (q & ds & E & L & F & Hq & Eq & _ & _ & R0).
  rewrite E in Hx. injection Hx as <-. rewrite length_fmap in Hi.
  destruct i as [|[|i]]; [lia|lia|]. destruct ds as [|d0 [|d1 r]]; simpl in Hi; try lia.
  apply Forall_cons in F as [F0 [F1 F]%Forall_cons].
  rewrite <- list_fmap_insert. change (<[S (S i) := d]> (d0 :: d1 :: r)) with (d0 :: d1 :: <[i := d]> r).
  assert (Forall (λ d, 0 ≤ d < 32) (<[i := d]> r)) as F' by (by apply Forall_insert).
  assert (length (d0 :: d1 :: <[i := d]> r ++ [16]) = (8 * q)%nat) as L'
    by (rewrite <- L; simpl; rewrite !length_app, length_insert; done).
  rewrite (Decoder_digits q) by (done || by repeat (apply Forall_cons; split)).
  pose proof (read_cons q d0 d1 r L F) as [_ R]. pose proof (read_cons q d0 d1 _ L' F') as [_ R'].
  rewrite R in R0. simpl in R0. pose proof (length_read q (d0 :: d1 :: <[i:=d]> r)) as Lr.
  rewrite R' in *. cbn [nth]. rewrite R0, b2z_z2b.
  pose proof (getCheckLen_range (zlen x)). rewrite Z.mod_small by lia.
  rewrite !bool_decide_false by lia. eexists. split; [done|].
  rewrite length_take, length_drop. cbn [length] in *. unfold zlen in *. lia.
Qed.

(** *** Fixed-size text *)

Lemma encode_tail l q k : length l = (5 * q + k)%nat → (1 ≤ k ≤ 4)%nat →
  ∃ t, EncodeToString l = t ++ replicate (8 - group_digits k) padChar ∧ length t = (8 * q + group_digits k)%nat.
Proof.
  intros L Hk. revert l L; induction q as [|q IH]; intros l L.
  - rewrite EncodeToString_short by lia. destruct (encode_group_digits l ltac:(lia)) as (ds & E & _ & Ld & _).
    replace (length l) with k in * by lia. rewrite E. eexists. split; [done|]. rewrite length_fmap. lia.
  - rewrite <- (take_drop 5 l), EncodeToString_app by (rewrite length_take; lia).
    destruct (IH (drop 5 l)) as (t & -> & Lt); [rewrite length_drop; lia|].
    destruct (encode_group_digits (take 5 l)) as (ds & -> & _ & Ld & _); [rewrite length_take; lia|].
    rewrite length_take, Nat.min_l in * by lia. simpl (replicate (8 - group_digits 5) _). rewrite app_nil_r.
    rewrite app_assoc. eexists. split; [done|]. rewrite length_app, length_fmap, Ld, Lt. simpl. lia.
Qed.

(** The padding of a text of known length can be cut off without loss. *)
Lemma cut_text_inj q k (l l' : bytes) n : length l = (5 * q + k)%nat → length l' = (5 * q + k)%nat → (1 ≤ k ≤ 4)%nat →
  n = Z.of_nat (8 * q + group_digits k) →
  (∃ s, goslice (EncodeToString l) 0 n = Ret s ∧ zlen s = n) ∧
  (goslice (EncodeToString l) 0 n = goslice (EncodeToString l') 0 n → l = l').
Proof.
  intros L L' Hk ->. destruct (encode_tail l q k L Hk) as (t & E & Lt).
  destruct (encode_tail l' q k L' Hk) as (t' & E' & Lt').
  assert (∀ t, length t = (8 * q + group_digits k)%nat → goslice (t ++ replicate (8 - group_digits k) padChar)
    0 (Z.of_nat (8 * q + group_digits k)) = Ret t) as G.
  { intros u Lu. rewrite goslice_in by (unfold zlen; rewrite ?length_app; lia).
    rewrite Z.sub_0_r, Nat2Z.id, drop_0. by rewrite take_app_length' by done. }
  rewrite E, E', !G by done. split; [exists t; split; [done|unfold zlen; lia]|].
  intros [= ->]. apply EncodeToString_inj. by rewrite E, E'.
Qed.

(** Identifiers and hashes print without panic, in 13 and 52 characters, and
    different ones print differently. *)
Theorem ids_print_apart (a b : ID) (h k : Hash) :
  (∃ s, ID_String a = Ret s ∧ zlen s = 13) ∧ (ID_String a = ID_String b → a = b) ∧
  (∃ s, Hash_Based32String h = Ret s ∧ zlen s = 52) ∧ (Hash_Based32String h = Hash_Based32String k → h = k).
Proof.
  destruct (cut_text_inj 1 3 (arr_list a) (arr_list b) 13) as [Ea Ia]; rewrite ?arr_len; try (done || lia).
  destruct (cut_text_inj 6 2 (arr_list h) (arr_list k) 52) as [Eh Ih]; rewrite ?arr_len; try (done || lia).
  split_and!; [done| |done|]; intros E; apply arr_eq; auto.
Qed.

(** A fingerprint is always eight characters. *)
Lemma Fingerprint_length (k : Pub) : ∃ s, Fingerprint k = Ret s ∧ zlen s = 8.
Proof.
  unfold Fingerprint. rewrite goslice_in by (unfold zlen; rewrite ?arr_len; lia). cbn [mbind Out_bind].
  eexists. split; [done|]. rewrite (encode_aligned 1) by (rewrite length_take, length_drop, arr_len; simpl; lia).
  unfold zlen. by rewrite length_fmap, length_digits.
Qed.

(** *** Keys and signatures *)

Lemma framed_known (x : bytes) (b1 : byte) (r : bytes) (n : nat) : length x = S n → x = b1 :: r →
  framed x = z2b (getCheckLen (Z.of_nat (S n))) :: b1 :: r ++
    take (Z.to_nat (getCheckLen (Z.of_nat (S n)))) (arr_list (Single x)).
Proof. intros L ->. unfold framed, zlen. by rewrite L. Qed.

(** Half of a byte added to a number that ends in zeros. *)
Lemma prefixed (x : bytes) (b1 : byte) (r : bytes) (n : nat) : length x = S n → x = b1 :: r →
  ∃ t, Encoder x = Ret ((cipher <$> digits 32 3 ((getCheckLen (Z.of_nat (S n)) * 256 + b2z b1) / 2)) ++ t, None) ∧
    Decoder ((cipher <$> digits 32 3 ((getCheckLen (Z.of_nat (S n)) * 256 + b2z b1) / 2)) ++ t) = Ret (x, None).
Proof.
  intros L E. pose proof (getCheckLen_range (Z.of_nat (S n))).
  destruct (decode_prefixed x _ _ _ ltac:(by rewrite E) (framed_known x b1 r n L E)) as [t Ht].
  rewrite b2z_z2b, Z.mod_small in Ht by lia. eauto.
Qed.

Lemma goslice_from {A} (a b : list A) n : n = zlen a → goslice (a ++ b) n (zlen (a ++ b)) = Ret b.
Proof.
  intros ->. rewrite goslice_in by (unfold zlen; rewrite ?length_app; lia).
  unfold zlen. rewrite Nat2Z.id, drop_app_length. rewrite take_ge; [done|]. rewrite length_app. lia.
Qed.

Lemma Prv_text `{!CryptoLaws} k : ∃ s, Prv_ToBased32 k = Ret s ∧ PrvFromBased32 s = Ret (k, None).
Proof.
  destruct (arr_list (Serialize k)) as [|b r] eqn:Eb.
  { pose proof (arr_len (Serialize k)) as L. by rewrite Eb in L. }
  destruct (prefixed _ _ _ 31 (arr_len (Serialize k)) Eb) as (t & Ee & Ed).
  unfold Prv_ToBased32, encoded_from, Prv_ToBytes, PrvFromBased32. rewrite Ee. cbn [mbind Out_bind fst].
  change (getCheckLen (Z.of_nat 32)) with 2 in *. pose proof (b2z_range b).
  set (v := (2 * 256 + b2z b) / 2) in *.
  assert (cipher <$> digits 32 3 v = "a"%byte :: (cipher <$> digits 32 2 v)) as Ec.
  { change 3%nat with (1 + 2)%nat. rewrite digits_app by lia. change (32 ^ Z.of_nat 2) with 1024.
    replace (v / 1024) with 0; [done|]. unfold v. Z.to_euclidean_division_equations. lia. }
  rewrite Ec in *. change (("a"%byte :: (cipher <$> digits 32 2 v)) ++ t)
    with (["a"%byte] ++ ((cipher <$> digits 32 2 v) ++ t)) in *.
  rewrite goslice_from by done. eexists. split; [done|]. cbn [app] in Ed. rewrite Ed. cbn [mbind Out_bind fst snd].
  by rewrite prv_serialize.
Qed.

Lemma Pub_prefix (pb : PubBytes) b r : arr_list pb = b :: r → b = x02 ∨ b = x03 →
  ∃ s, Encoder (arr_list pb) = Ret (String.list_byte_of_string "ayb" ++ s, None) ∧
    Decoder (String.list_byte_of_string "ayb" ++ s) = Ret (arr_list pb, None).
Proof.
  intros Eb Hb. destruct (prefixed _ _ _ 32 (arr_len pb) Eb) as (t & Ee & Ed). exists t. by destruct Hb; subst b.
Qed.

Lemma Pub_text `{!CryptoLaws} p : ∃ s, Pub_ToBased32 p = Ret s ∧ PubFromBased32 s = Ret (Some p, None).
Proof.
  destruct (compressed_prefix p) as (b & r & Eb & Hb).
  destruct (Pub_prefix _ b r Eb Hb) as (s & Ee & Ed). unfold Pub_ToBased32, PubFromBased32, Pub_ToBytes.
  rewrite Ee. cbn [mbind Out_bind]. rewrite goslice_from by done. exists s. split; [done|].
  rewrite Ed. cbn [mbind Out_bind fst]. unfold PubFromBytes. by rewrite parse_serialize.
Qed.

(** A signature without the two high bits of its first byte. *)
Definition low_bits (sb : SigBytes) : SigBytes :=
  arr_of 64 (z2b (b2z (nth 0 (arr_list sb) x00) `mod` 64) :: drop 1 (arr_list sb)).

Lemma Sig_text sb : ∃ s, SigBytes_String sb = Ret s ∧ SigFromBased32 s = Ret (low_bits sb, None).
Proof.
  pose proof (arr_len sb) as L. destruct (framed_read (arr_list sb)) as (q & ds & E & Ld & F & Hq & Eq & _ & R & _).
  { intros E. by rewrite E in L. }
  assert (zlen (arr_list sb) = 64) as Lz by (unfold zlen; lia).
  rewrite Lz in Eq. change (getCheckLen 64) with 5 in Eq. assert (q = 14%nat) as -> by lia. clear Eq Hq.
  destruct ds as [|d0 [|d1 r]]; [done..|]. apply Forall_cons in F as [_ [_ F]%Forall_cons].
  assert (length (0 :: 16 :: r ++ [16]) = (8 * 14)%nat) as Ld' by (rewrite <- Ld; done).
  destruct (read_cons 14 d0 d1 r Ld F) as [Hm R1]. destruct (read_cons 14 0 16 r Ld' F) as [_ R2].
  set (m := value 32 (r ++ [16]) / 256 ^ Z.of_nat (5 * 14 - 2)) in *. set (tl := z2b <$> digits _ _ _) in R1, R2.
  clearbody m tl.
  unfold framed in R. rewrite R1, Lz in R. change (getCheckLen 64) with 5 in R.
  destruct (arr_list sb) as [|b bs] eqn:Eb; [done|]. cbn [take Nat.sub Nat.mul Nat.add app] in R.
  injection R as _ Rb Rt. apply (f_equal (take 63)) in Rt. rewrite !take_take in Rt.
  simpl (_ `min` _)%nat in Rt. simpl in L.
  rewrite (take_app_length' bs) in Rt by lia.
  exists (cipher <$> r). unfold SigBytes_String, encoded_from, SigFromBased32. rewrite Eb, E. cbn [mbind Out_bind fst].
  rewrite !fmap_cons. change (cipher d0 :: cipher d1 :: (cipher <$> r)) with ([cipher d0; cipher d1] ++ (cipher <$> r)).
  rewrite goslice_from by done. split; [done|].
  change (String.list_byte_of_string "aq" ++ (cipher <$> r)) with (cipher <$> 0 :: 16 :: r).
  rewrite (Decoder_digits 14) by (done || (repeat (apply Forall_cons; split; [lia|]); done)).
  rewrite R2. cbn [nth]. change (b2z (z2b ((0 * 32 + 16) / 4))) with 4.
  rewrite !bool_decide_false by lia. cbn [mbind Out_bind fst snd].
  change (Z.to_nat (5 * Z.of_nat 14 - 4 - 1)) with 65%nat. do 2 f_equal.
  unfold low_bits. rewrite Eb. cbn [nth drop]. rewrite take_take. simpl (64 `min` 65)%nat. cbn [take].
  rewrite Rt, drop_0. do 2 f_equal. apply b2z_inj. rewrite !b2z_z2b, <- Rb, b2z_z2b.
  Z.to_euclidean_division_equations. lia.
Qed.

(** C26: Keys and signatures as text: a private key and a public key read back from
    their text, although a prefix common to all of them is left out; a signature
    loses the two high bits of its first byte, because the prefix put back is not
    the one that was cut off. *)
Theorem keys_read_back `{!CryptoLaws} (k : Prv) (p : Pub) (sb : SigBytes) :
  (∃ s, Prv_ToBased32 k = Ret s ∧ PrvFromBased32 s = Ret (k, None)) ∧
  (∃ s, Pub_ToBased32 p = Ret s ∧ PubFromBased32 s = Ret (Some p, None)) ∧
  (∃ s, SigBytes_String sb = Ret s ∧ SigFromBased32 s = Ret (low_bits sb, None)).
Proof. split_and!; [apply Prv_text|apply Pub_text|apply Sig_text]. Qed.
End Codec.

Lemma Decode_Encode_witness :
  [x01] ≠ [] ∧ ∃ s, Encoder (cr := Toy.crypto) [x01] = Ret (s, None) ∧ Decoder (cr := Toy.crypto) s = Ret ([x01], None).
Proof. split; [done|]. by apply Decode_Encode. Defined.

(** Two texts one character apart, both accepted. *)
Lemma check_detects_nothing_witness :
  ∃ s, Encoder (cr := Toy.crypto) [x01; x02] = Ret (s, None) ∧
    ∃ y, Decoder (cr := Toy.crypto) (<[3%nat := "z"%byte]> s) = Ret (y, None) ∧ length y = 2%nat ∧ y ≠ [x01; x02].
Proof.
  eexists. split; [vm_compute; reflexivity|].
  destruct (check_detects_nothing (cr := Toy.crypto) [x01; x02] _ 3 "z"%byte ltac:(vm_compute; reflexivity)) as (y & E & L).
  - vm_compute. split; repeat constructor.
  - apply list_elem_of_lookup. by exists 25%nat.
  - exists y. split; [exact E|]. split; [exact L|]. intros ->. vm_compute in E. discriminate E.
Defined.

Lemma keys_read_back_witness :
  let k : Prv (Crypto := Toy.crypto) := arr_of 32 [x07] in
  (∃ s, Prv_ToBased32 (cr := Toy.crypto) k = Ret s ∧ PrvFromBased32 (cr := Toy.crypto) s = Ret (k, None)) ∧
  (∃ s, Pub_ToBased32 (cr := Toy.crypto) k = Ret s ∧ PubFromBased32 (cr := Toy.crypto) s = Ret (Some k, None)) ∧
  (∃ s, SigBytes_String (cr := Toy.crypto) (arr_of 64 [xff]) = Ret s ∧
     SigFromBased32 (cr := Toy.crypto) s = Ret (low_bits (arr_of 64 [xff]), None) ∧
     low_bits (arr_of 64 [xff]) ≠ arr_of 64 [xff]).
Proof.
  intros k. destruct (@keys_read_back Toy.crypto Toy.laws k k (arr_of 64 [xff])) as (H1 & H2 & s & H3 & H4).
  split_and!; [exact H1|exact H2|]. exists s. split_and!; [exact H3|exact H4|].
  intros E. apply (f_equal (λ a, nth 0 (arr_list a) x00)) in E. vm_compute in E. discriminate E.
Defined.
