(* ===== verification/Multi.v ===== *)
(** * Packing network addresses

    Models [pkg/util/multi/multiaddr.go] ([AddrToBytes], [BytesToMultiaddr]) on
    top of the go-multiaddr operations of [Deps]. *)

From S2P Require Export Cryptography.

Section Multi.
Context {ma : Multiaddrs}.

Definition is_addr_code (code : Z) : bool :=
  bool_decide (code = P_DNS ∨ code = P_IP4 ∨ code = P_IP6).

(** The loop over the components: collects port and address components and
    stops as soon as both kinds were seen. *)
Fixpoint scan_pieces (pieces acc : list Multiaddr) (portFound firstAddr : bool)
    : list Multiaddr * bool * bool :=
  match pieces with
  | [] => (acc, portFound, firstAddr)
  | v :: pieces =>
      let '(acc, portFound, firstAddr) :=
        if bool_decide (ProtoCode v = P_TCP) then (acc ++ [v], true, firstAddr)
        else if is_addr_code (ProtoCode v) then (acc ++ [v], portFound, true)
        else (acc, portFound, firstAddr) in
      if portFound && firstAddr then (acc, portFound, firstAddr)
      else scan_pieces pieces acc portFound firstAddr
  end.

(** A nil address panics inside [multiaddr.Split]. *)
Definition AddrToBytes (a : option Multiaddr) (defaultPort : Z)
    : Out (bytes * option error) :=
  match a with
  | None => Panic PNil
  | Some a =>
      let '(re, portFound, firstAddr) := scan_pieces (Split a) [] false false in
      let re := if portFound : bool then re else re ++ [TcpAddr defaultPort] in
      if firstAddr : bool then
        match re with
        | x :: y :: _ => Ret (MarshalBinary (Encapsulate x y), None)
        | _ => Panic PIndex
        end
      else Ret ([], Some (Errorf "multiaddr %v does not have an address" []))
  end.

Definition BytesToMultiaddr (b : bytes) : option Multiaddr * option error :=
  match NewMultiaddrBytes b with
  | Some a => (Some a, None)
  | None => (None, Some (Errorf "invalid multiaddr bytes" []))
  end.

(** [AddrToAddrPort]: the textual host and port of an address, parsed. *)
Definition AddrToAddrPort {AddrPort} (ValueForProtocol : Multiaddr → Z → string + error)
    (ParseAddrPort : string → AddrPort + error) (a : option Multiaddr)
    : option AddrPort * option error :=
  match a with
  | None => (None, Some (Errorf "nil multiaddr.Multiaddr" []))
  | Some a =>
      let host :=
        match ValueForProtocol a P_IP4 with
        | inl h => inl h
        | inr _ => match ValueForProtocol a P_IP6 with
                   | inl h => inl (String.append "[" (String.append h "]"))
                   | inr e => inr e
                   end
        end in
      match host with
      | inr e => (None, Some e)
      | inl host =>
          match ValueForProtocol a P_TCP with
          | inr e => (None, Some e)
          | inl port =>
              match ParseAddrPort (String.append host (String.append ":" port)) with
              | inr e => (None, Some e)
              | inl ap => (Some ap, None)
              end
          end
      end
  end.

(** ** Lemmas *)

(** The scan's flags say what has been collected. *)
Lemma scan_pieces_spec pieces acc p f acc' p' f' :
  scan_pieces pieces acc p f = (acc', p', f') →
  (∃ more, acc' = acc ++ more) ∧
  (p = true → p' = true) ∧ (f = true → f' = true) ∧
  (p' = true → p = true ∨ (length acc < length acc')%nat) ∧
  (f' = true → f = true ∨ (length acc < length acc')%nat) ∧
  (p' = true → f' = true → p = false → f = false → (length acc + 2 ≤ length acc')%nat).
Proof.
  revert acc p f; induction pieces as [|v pieces IH]; intros acc p f; simpl.
  - intros [= <- <- <-]. split; [exists []; by rewrite app_nil_r|]. naive_solver.
  - case_bool_decide; [|destruct (is_addr_code _)].
    + destruct f; simpl.
      { intros [= <- <- <-]. split; [by eexists|]. rewrite length_app. simpl.
        naive_solver lia. }
      intros ([more ->] & Hp & Hf & Hp' & Hf' & Hb)%IH.
      split; [exists (v :: more); by rewrite <- app_assoc|].
      rewrite !length_app in *. simpl in *. naive_solver lia.
    + destruct p; simpl.
      { intros [= <- <- <-]. split; [by eexists|]. rewrite length_app. simpl.
        naive_solver lia. }
      intros ([more ->] & Hp & Hf & Hp' & Hf' & Hb)%IH.
      split; [exists (v :: more); by rewrite <- app_assoc|].
      rewrite !length_app in *. simpl in *. naive_solver lia.
    + destruct (p && f) eqn:E.
      { intros [= <- <- <-]. split; [exists []; by rewrite app_nil_r|]. naive_solver. }
      apply IH.
Qed.

(** The index expressions [reassembled[0]] and [reassembled[1]] never panic:
    when there is an address component there are always two members. *)
Lemma AddrToBytes_total a port :
  ∃ b e, AddrToBytes (Some a) port = Ret (b, e).
Proof.
  unfold AddrToBytes. destruct (scan_pieces _ _ _ _) as [[re p] f] eqn:E.
  apply scan_pieces_spec in E as (_ & _ & _ & Hp & Hf & Hb). simpl in *.
  destruct f; [|eauto]. destruct p.
  - assert (2 ≤ length re)%nat by (by apply Hb).
    destruct re as [|x [|y re]]; simpl in *; try lia. eauto.
  - destruct (Hf eq_refl) as [|Hl]; [done|].
    destruct re as [|x [|y re]]; simpl in *; try lia; eauto.
Qed.
End Multi.
