(* ===== verification/Splice.v ===== *)
(** * Package splice: a cursor over a byte buffer

    Models [pkg/util/splice/splice.go].  The state is the buffer, the cursor,
    the list of named segments and the sticky error.  Every writer and reader is
    a method in [GoM Splice]; a slice expression [s.b[*s.c:s.c.Inc(n)]] takes the
    cursor before the call of [Inc], as the code relies on.  Segment names that
    the source renders with [fmt.Sprint] are kept unrendered.

    Two predicates carry the rest of the development: [Writes m bs] says that
    [m] puts exactly [bs] at the cursor, [Reads m bs v] that [m] reads [v] from
    exactly [bs].  They compose, so a message's encoder and decoder are related
    field by field. *)

From S2P Require Export Multi.

Definition AddrLen : Z := 16 + 2.
Definition MagicLen : Z := 4.
Definition MaxUint24 : Z := Z.shiftl 1 24 - 1.

(** [time.Time] is its instant in nanoseconds since the Unix epoch. *)
Definition Unix (t : Z) : Z := t / 10 ^ 9.
Definition UnixTime (n : Z) : Z := n * 10 ^ 9.

(** [netip.AddrPort]: address bytes (with the zone of a scoped IPv6 address
    appended) and port. *)
Record AddrPort := MkAddrPort { ap_addr : bytes; ap_port : Z }.

Definition AddrPort_MarshalBinary (ap : AddrPort) : bytes :=
  ap_addr ap ++ le_put 2 (wrapu 16 (ap_port ap)).

Definition AddrPort_UnmarshalBinary (b : bytes) : AddrPort * option error :=
  let n := (length b - 2)%nat in
  if bool_decide (length b < 2)%nat then
    (MkAddrPort [] 0, Some (Errorf "unexpected slice size" []))
  else if bool_decide (n = 0 ∨ n = 4 ∨ 16 ≤ n)%nat then
    (MkAddrPort (take n b) (le_get (drop n b)), None)
  else (MkAddrPort [] 0, Some (Errorf "unexpected slice size" [])).

Inductive SegName :=
| Lit (s : string)
| FmtBytes (b : bytes)       (* a magic read from the wire *)
| FmtTime (t : Z)
| FmtDuration (d : Z)
| FmtAddr (ap : AddrPort).

Record NameOffset := MkNameOffset { Offset : Z; Name : SegName }.

Record Splice := MkSplice {
  s_b : bytes;                  (* the buffer *)
  s_c : Z;                      (* the cursor *)
  Segments : list NameOffset;
  s_E : option error;
}.

Definition with_b (b : bytes) (s : Splice) : Splice :=
  MkSplice b (s_c s) (Segments s) (s_E s).
Definition with_c (c : Z) (s : Splice) : Splice :=
  MkSplice (s_b s) c (Segments s) (s_E s).
Definition with_segs (l : list NameOffset) (s : Splice) : Splice :=
  MkSplice (s_b s) (s_c s) l (s_E s).
Definition with_E (e : option error) (s : Splice) : Splice :=
  MkSplice (s_b s) (s_c s) (Segments s) e.

(** ** Construction *)

Definition Load (b : bytes) (c : Z) : Splice := MkSplice b c [] None.
Definition New (length : nat) : Splice := MkSplice (replicate length x00) 0 [] None.
Definition NewFrom (b : bytes) : Splice := Load b 0.

(** ** Primitive steps shared by the methods *)

(** [s.c.Inc(n)], returning the new position *)
Definition Inc (n : Z) : GoM Splice Z := λ s,
  Ret (s_c s + n, with_c (s_c s + n) s).

(** Record a segment ending at the cursor. *)
Definition seg (name : SegName) : GoM Splice unit := λ s,
  Ret (tt, with_segs (Segments s ++ [MkNameOffset (s_c s) name]) s).

(** [s.E = e] *)
Definition set_E (e : option error) : GoM Splice unit := λ s, Ret (tt, with_E e s).

(** Run [f] on the window [s.b[*s.c:s.c.Inc(n)]] and store what it wrote. *)
Definition on_window (n : Z) (f : bytes → Out bytes) : GoM Splice unit := λ s,
  w ← goslice (s_b s) (s_c s) (s_c s + n);
  w ← f w;
  Ret (tt, with_c (s_c s + n) (with_b (overlay (Z.to_nat (s_c s)) w (s_b s)) s)).

(** [copy(s.b[*s.c:s.c.Inc(n)], src)] *)
Definition fill (n : Z) (src : bytes) : GoM Splice unit :=
  on_window n (λ w, Ret (overlay 0 (take (length w) src) w)).

(** The bytes of the window [s.b[*s.c:s.c.Inc(n)]] *)
Definition window (n : Z) : GoM Splice bytes := λ s,
  w ← goslice (s_b s) (s_c s) (s_c s + n);
  Ret (w, with_c (s_c s + n) s).

(** ** Cursor and range methods *)

Definition GetAll (s : Splice) : bytes := s_b s.
Definition GetCursor (s : Splice) : Z := s_c s.
Definition Len (s : Splice) : Z := zlen (s_b s).
Definition Remaining (s : Splice) : Z := Len s - GetCursor s.
Definition SetCursor (c : Z) (s : Splice) : Splice := with_c c s.
Definition StoreCursor (s : Splice) : Z := s_c s.

Definition Rewind (n : Z) (s : Splice) : Z * Splice :=
  let newLoc := s_c s - n in
  let newLoc := if bool_decide (newLoc < 0) then 0 else newLoc in
  (newLoc, with_c newLoc s).

Definition Advance (n : Z) (name : SegName) : GoM Splice Z :=
  c ← Inc n; seg name ;; mret c.

Definition GetFrom (p : Z) (s : Splice) : Out bytes := goslice (s_b s) p (Len s).
Definition GetUntil (p : Z) (s : Splice) : Out bytes := goslice (s_b s) 0 p.
Definition GetRest (s : Splice) : Out bytes := GetFrom (GetCursor s) s.
Definition GetUntilCursor (s : Splice) : Out bytes := GetUntil (GetCursor s) s.

(** The bounds [GetRange] selects, with its use of -1. *)
Definition range_bounds (start en : Z) (s : Splice) : Z * Z :=
  if bool_decide (start = -1 ∧ en = -1) then (0, Len s)
  else if bool_decide (start = -1) then (0, en)
  else if bool_decide (en = -1) then (start, Len s)
  else (start, en).

Definition GetRange (start en : Z) (s : Splice) : Out bytes :=
  let '(lo, hi) := range_bounds start en s in goslice (s_b s) lo hi.

(** Writing through the slice [GetRange] (or [GetFrom]) returned: the caller
    copies [src] over it. *)
Definition copy_range (start en : Z) (src : bytes) (s : Splice) : Out Splice :=
  let '(lo, hi) := range_bounds start en s in
  b ← gocopy (s_b s) lo hi src; Ret (with_b b s).

Definition CopyIntoRange (b : bytes) (start en : Z) (s : Splice) : Out Splice :=
  _ ← GetRange start en s;
  src ← goslice b 0 (en - start);
  copy_range start en src s.

Definition CopyRanges (start1 end1 start2 end2 : Z) (s : Splice) : Out Splice :=
  _ ← GetRange start1 end1 s;
  src ← GetRange start2 end2 s;
  copy_range start1 end1 src s.

(** Encipher in place a range of the buffer ([ciph.Encipher(blk, iv, s.Get...)]). *)
Definition encipher_range (blk : option Block) (iv : IV) (start en : Z) (s : Splice)
    : Out Splice :=
  w ← GetRange start en s;
  w ← Encipher blk iv w;
  copy_range start en w s.

Definition encipher_from (blk : option Block) (iv : IV) (p : Z) (s : Splice)
    : Out Splice :=
  w ← GetFrom p s;
  w ← Encipher blk iv w;
  b ← gocopy (s_b s) p (Len s) w; Ret (with_b b s).

Definition TrailingBytes (b : bytes) : GoM Splice unit := λ s,
  b' ← gocopy (s_b s) (s_c s) (Len s) b; Ret (tt, with_b b' s).

(** ** Segment dump *)

(** [GetSegments]: the last segment recorded at each offset, by offset.  The map
    of the source is rebuilt, its values listed in any order and sorted; offsets
    are distinct, so the order they were listed in does not matter. *)
Definition segs_by_offset (l : list NameOffset) : gmap Z NameOffset :=
  foldl (λ m x, <[Offset x := x]> m) ∅ l.

Definition seg_le (a b : NameOffset) : Prop := Offset a ≤ Offset b.
#[export] Instance seg_le_dec : RelDecision seg_le := λ a b, decide (Offset a ≤ Offset b).

Definition GetSegments (s : Splice) : list NameOffset * Splice :=
  let l := merge_sort seg_le ((map_to_list (segs_by_offset (Segments s))).*2) in
  (l, with_segs l s).

(** The loop of [GetSlicesFromSegments]: names and the pieces between offsets;
    returns the last offset seen. *)
Fixpoint slices_loop (b : bytes) (segs : list NameOffset) (prev cur : Z)
    (acc : list (SegName * bytes)) : Out (list (SegName * bytes) * Z) :=
  match segs with
  | [] => Ret (acc, cur)
  | x :: segs =>
      w ← goslice b prev (Offset x);
      slices_loop b segs (Offset x) (Offset x) (acc ++ [(Name x, w)])
  end.

Definition GetSlicesFromSegments (s : Splice) : Out (list (SegName * bytes)) :=
  let '(segs, s) := GetSegments s in
  r ← slices_loop (s_b s) segs 0 0 [];
  let '(acc, cur) := r in
  if bool_decide (cur < zlen (s_b s)) then
    w ← goslice (s_b s) cur (zlen (s_b s)); Ret (acc ++ [(Lit "remainder", w)])
  else Ret acc.

Section Fields.
Context {cr : Crypto} {ma : Multiaddrs}.

(** [BudgeUp]: move what follows the cursor to the front, noise behind it. *)
Definition BudgeUp (seed : Hash) (s : Splice) : Out Splice :=
  let start := s_c s in
  rest ← GetFrom start s;
  b ← gocopy (s_b s) 0 (Len s) rest;
  _ ← goslice b (Len s - start) (Len s);
  pad ← NoisePad seed start;
  b ← gocopy b (Len s - start) (Len s) pad;
  Ret (with_b b s).

(** ** Writers *)

Definition Byte (b : byte) : GoM Splice unit := λ s,
  b' ← goset (s_b s) (s_c s) b;
  seg (Lit "byte") (with_c (s_c s + 1) (with_b b' s)).

Definition RawBytes (b : bytes) : GoM Splice unit :=
  fill (zlen b) b ;; seg (Lit "raw bytes").

Definition Check (c : bytes) : GoM Splice unit :=
  c4 ← lift (goslice c 0 4); fill 4 c4 ;; seg (Lit "check").

Definition Hash_ (h : Hash) : GoM Splice unit :=
  fill Sha256Len (arr_list h) ;; seg (Lit "hash").

Definition Ciphers_ (h : Ciphers) : GoM Splice unit :=
  let '(a, b, c) := h in Hash_ a ;; Hash_ b ;; Hash_ c.

Definition ID_ (id : ID) : GoM Splice unit :=
  fill IDLen (arr_list id) ;; seg (Lit "Keys").

Definition IV_ (iv : IV) : GoM Splice unit :=
  fill IVLen (arr_list iv) ;; seg (Lit "IV").

Definition Nonces_ (n : Nonces) : GoM Splice unit :=
  let '(a, b, c) := n in IV_ a ;; IV_ b ;; IV_ c.

(** A magic is an ASCII string; its bytes are its characters. *)
Definition string_bytes (s : string) : bytes :=
  (λ a, z2b (Z.of_N (Ascii.N_of_ascii a))) <$> String.list_ascii_of_string s.

Definition Magic (magic : string) : GoM Splice unit :=
  fill MagicLen (string_bytes magic) ;; seg (Lit magic).

(** The blinder is what [rand.Read] delivered to [GetCloak]. *)
Definition Cloak_ (pk : option Pub) (blinder : Blinder) : GoM Splice unit :=
  match pk with
  | None => _ ← Advance CloakLen (Lit "nil receiver pubkey"); mret tt
  | Some pk => fill CloakLen (arr_list (GetCloak blinder pk)) ;; seg (Lit "cloak")
  end.

Definition Prvkey (from : Prv) : GoM Splice unit :=
  fill PrvKeyLen (arr_list (Prv_ToBytes from)) ;; seg (Lit "prvkey").

Definition Pubkey (from : option Pub) : GoM Splice unit :=
  match from with
  | None => mret tt
  | Some from => fill PubKeyLen (arr_list (Pub_ToBytes from)) ;; seg (Lit "pubkey")
  end.

Definition Signature (sb : SigBytes) : GoM Splice unit :=
  fill SigLen (arr_list sb) ;; seg (Lit "signature").

Definition Uint16 (v : Z) : GoM Splice unit :=
  on_window Uint16Len (λ w, EncodeUint16 w v) ;; seg (Lit "uint16").
Definition Uint32 (v : Z) : GoM Splice unit :=
  on_window Uint32Len (λ w, EncodeUint32 w v) ;; seg (Lit "uint32").
Definition Uint64 (v : Z) : GoM Splice unit :=
  on_window Uint64Len (λ w, EncodeUint64 w v) ;; seg (Lit "uint64").
Definition Duration (v : Z) : GoM Splice unit :=
  on_window Uint64Len (λ w, EncodeUint64 w (wrapu 64 v)) ;; seg (FmtDuration v).
Definition Time (v : Z) : GoM Splice unit :=
  on_window Uint64Len (λ w, EncodeUint64 w (wrapu 64 (Unix v))) ;; seg (FmtTime v).

(** [Bytes]: 32-bit length, then the bytes. *)
Definition Bytes (b : bytes) : GoM Splice unit :=
  len ← lift (EncodeUint32 (replicate 4 x00) (zlen b));
  fill Uint32Len len ;; seg (Lit "32 bit length") ;;
  fill (zlen b) b ;; seg (Lit "bytes").

(** [Offset]: a 24-bit little-endian value, written byte by byte. *)
Definition Offset_ (o : Z) : GoM Splice unit := λ s,
  if bool_decide (MaxUint24 < o) then
    Panic (PMsg "payload cipher offset cannot be over %d")
  else
    let index := GetCursor s in
    b ← goset (s_b s) index (z2b o);
    b ← goset b (index + 1) (z2b (Z.shiftr o 8));
    b ← goset b (index + 2) (z2b (Z.shiftr o 16));
    (_ ← Advance 3 (Lit "payload cipher offset"); mret tt) (with_b b s).

(** [Multiaddr]: a length byte, then the address padded to 20 bytes; an address
    that cannot be packed writes nothing. *)
Definition Multiaddr_ (a : option Multiaddr) (defaultPort : Z) : GoM Splice unit :=
  r ← lift (AddrToBytes a defaultPort);
  match r with
  | (_, Some _) => mret tt
  | (b, None) =>
      Byte (z2b (zlen b)) ;;
      let pad := 20 - zlen b in
      let b := if bool_decide (0 < pad) then overlay 0 b (replicate 20 x00) else b in
      RawBytes b
  end.

Definition AddrPort_ (a : option AddrPort) : GoM Splice unit :=
  match a with
  | None => _ ← Advance AddrLen (Lit "nil Addresses"); mret tt
  | Some a => λ s,
      let ap := AddrPort_MarshalBinary a in
      b ← goset (s_b s) (s_c s) (z2b (zlen ap));
      (_ ← Inc 1; fill (AddrLen) ap ;; seg (FmtAddr a)) (with_b b s)
  end.

(** ** Readers

    A reader returns what it stores through its pointer argument; where the
    source may leave the target alone, the old value is an argument. *)

Definition ReadByte : GoM Splice byte := λ s,
  b ← goindex (s_b s) (s_c s);
  (seg (Lit "byte") ;; mret b) (with_c (s_c s + 1) s).

Definition ReadRawBytes : GoM Splice bytes :=
  w ← window Uint32Len; n ← lift (DecodeUint32 w);
  b ← window n; seg (Lit "raw bytes") ;; mret b.

Definition ReadBytes : GoM Splice bytes :=
  w ← window Uint32Len; n ← lift (DecodeUint32 w);
  seg (Lit "32 bit length") ;;
  b ← window n; seg (Lit "bytes") ;; mret b.

Definition ReadCheck (c : bytes) : GoM Splice bytes :=
  _ ← lift (goslice c 0 4); w ← window 4; lift (gocopy c 0 4 w).

Definition read_arr (n : nat) (name : string) : GoM Splice (arr n) :=
  w ← window (Z.of_nat n); seg (Lit name) ;; mret (arr_of n w).

Definition ReadHash : GoM Splice Hash := read_arr 32 "hash".
Definition ReadID : GoM Splice ID := read_arr 8 "Keys".
Definition ReadIV : GoM Splice IV := read_arr 16 "IV".
Definition ReadCloak : GoM Splice CloakedPubKey := read_arr 8 "cloak".
Definition ReadSignature : GoM Splice SigBytes := read_arr 64 "signature".

Definition ReadCiphers : GoM Splice Ciphers :=
  a ← ReadHash; b ← ReadHash; c ← ReadHash; mret (a, b, c).
Definition ReadNonces : GoM Splice Nonces :=
  a ← ReadIV; b ← ReadIV; c ← ReadIV; mret (a, b, c).

Definition ReadMagic : GoM Splice bytes :=
  w ← window MagicLen; seg (FmtBytes w) ;; mret w.

Definition ReadUint16 : GoM Splice Z :=
  seg (Lit "uint16") ;;
  w ← window Uint16Len; n ← lift (DecodeUint16 w);
  seg (Lit "uint16") ;; mret (wrapu 16 n).
Definition ReadUint32 : GoM Splice Z :=
  w ← window Uint32Len; n ← lift (DecodeUint32 w);
  seg (Lit "uint32") ;; mret (wrapu 32 n).
Definition ReadUint64 : GoM Splice Z :=
  w ← window Uint64Len; n ← lift (DecodeUint64 w);
  seg (Lit "uint64") ;; mret n.
Definition ReadMilliSatoshi : GoM Splice Z :=
  w ← window Uint64Len; n ← lift (DecodeUint64 w);
  seg (Lit "mSAT") ;; mret n.
Definition ReadDuration : GoM Splice Z :=
  w ← window Uint64Len; n ← lift (DecodeUint64 w);
  seg (FmtDuration (wraps 64 n)) ;; mret (wraps 64 n).
Definition ReadTime : GoM Splice Z :=
  w ← window Uint64Len; n ← lift (DecodeUint64 w);
  let t := UnixTime (wraps 64 n) in
  seg (FmtTime t) ;; mret t.

Definition ReadOffset : GoM Splice Z := λ s,
  let index := GetCursor s in
  b0 ← goindex (s_b s) index;
  b1 ← goindex (s_b s) (index + 1);
  b2 ← goindex (s_b s) (index + 2);
  (_ ← Advance 3 (Lit "payload cipher offset");
   mret (b2z b0 + Z.shiftl (b2z b1) 8 + Z.shiftl (b2z b2) 16)) s.

Definition ReadPrvkey : GoM Splice Prv :=
  w ← window PrvKeyLen; seg (Lit "prvkey") ;; mret (PrivKeyFromBytes w).

(** The error goes to [s.E]; the key is stored only when it parsed. *)
Definition ReadPubkey (from : option Pub) : GoM Splice (option Pub) :=
  w ← window PubKeyLen;
  let '(f, e) := PubFromBytes w in
  set_E e ;; seg (Lit "pubkey") ;; mret (if e is None then f else from).

(** After the address the cursor is moved by [20 - b] where [20 - b > 0] is
    tested on bytes: it wraps, so for an address longer than 20 bytes the test
    holds and the cursor moves back. *)
Definition ReadMultiaddr : GoM Splice (option Multiaddr) :=
  b ← ReadByte;
  s0 ← get;
  en ← Advance (b2z b) (Lit "multiaddr");
  s ← get;
  bb ← lift (GetRange (GetCursor s0) en s);
  (if bool_decide (0 < wrapu 8 (20 - b2z b))
   then _ ← Advance (20 - b2z b) (Lit "pad"); mret tt else mret tt) ;;
  let '(m, e) := BytesToMultiaddr bb in
  mret m.

Definition ReadAddrPort : GoM Splice AddrPort := λ s,
  apLen ← goindex (s_b s) (s_c s);
  (_ ← Inc 1;
   apBytes ← window AddrLen;
   w ← lift (goslice apBytes 0 (b2z apLen));
   let '(ap, e) := AddrPort_UnmarshalBinary w in
   set_E e ;; seg (FmtAddr ap) ;; mret ap) s.
End Fields.
