(* ===== verification/SpliceFacts.v ===== *)
(** * What the splice methods write and read

    The classes [Writes] and [Reads] relate a method to the bytes at the cursor;
    their instances cover every field of [Splice.v] and sequencing, so instance
    search computes the layout of a message from its encoder and decoder. *)

From S2P Require Export Splice.

(** [m] writes exactly [bs] at the cursor and nothing else. *)
Class Writes (m : GoM Splice unit) (bs : bytes) : Prop := writes_ok :
  ∀ s, 0 ≤ s_c s → s_c s + zlen bs ≤ Len s →
    ∃ s', m s = Ret (tt, s') ∧ s_b s' = overlay (Z.to_nat (s_c s)) bs (s_b s)
          ∧ s_c s' = s_c s + zlen bs ∧ s_E s' = s_E s.

(** The buffer holds [bs] at the cursor. *)
Definition at_cursor (s : Splice) (bs : bytes) : Prop :=
  0 ≤ s_c s ∧ s_c s + zlen bs ≤ Len s ∧
  take (length bs) (drop (Z.to_nat (s_c s)) (s_b s)) = bs.

(** [r] reads [v] from exactly [bs], without changing the buffer. *)
Class Reads {A} (r : GoM Splice A) (bs : bytes) (v : A) : Prop := reads_ok :
  ∀ s, at_cursor s bs → s_E s = None →
    ∃ s', r s = Ret (v, s') ∧ s_b s' = s_b s
          ∧ s_c s' = s_c s + zlen bs ∧ s_E s' = None.

#[export] Hint Mode Writes ! - : typeclass_instances.
#[export] Hint Mode Reads - ! ! - : typeclass_instances.

(** A byte string whose length fits the 32-bit length prefix. *)
Class Small32 (b : bytes) : Prop := small32 : zlen b < 2 ^ 32.

Lemma zlen_arr {n} (a : arr n) : zlen (arr_list a) = Z.of_nat n.
Proof. unfold zlen. by rewrite arr_len. Qed.
Lemma zlen_le_put n v : zlen (le_put n v) = Z.of_nat n.
Proof. unfold zlen. by rewrite length_le_put. Qed.
Lemma zlen_overlay {A} pos (s l : list A) :
  (pos + length s ≤ length l)%nat → zlen (overlay pos s l) = zlen l.
Proof. intros. unfold zlen. by rewrite length_overlay. Qed.

#[export] Hint Rewrite @zlen_app @zlen_arr @zlen_le_put : golib.

Lemma le_put_wrapu n w z : 256 ^ Z.of_nat n = 2 ^ w → le_put n (wrapu w z) = le_put n z.
Proof.
  intros E. unfold wrapu. rewrite <- E, <- le_get_put.
  pose proof (le_put_get (le_put n z)) as L. by rewrite length_le_put in L.
Qed.

(** ** Sequencing *)

#[export] Instance writes_bind m1 m2 b1 b2 :
  Writes m1 b1 → Writes m2 b2 → Writes (m1 ;; m2) (b1 ++ b2).
Proof.
  intros H1 H2 s Hc Hl. rewrite zlen_app in Hl.
  pose proof (zlen_nonneg b1). pose proof (zlen_nonneg b2).
  destruct (H1 s) as (s1 & E1 & B1 & C1 & R1); [lia..|].
  destruct (H2 s1) as (s2 & E2 & B2 & C2 & R2).
  { lia. }
  { unfold Len in *. rewrite C1, B1, zlen_overlay; [lia|]. unfold zlen in *. lia. }
  exists s2. unfold mbind, GoM_bind. rewrite E1. split_and!; [done| | |congruence].
  - rewrite B2, B1, C1. rewrite Z2Nat.inj_add by lia.
    replace (Z.to_nat (zlen b1)) with (length b1) by (unfold zlen; lia).
    apply overlay_app. unfold Len, zlen in *. lia.
  - rewrite C2, C1, zlen_app. lia.
Qed.

#[export] Instance writes_ret : Writes (mret tt) [].
Proof.
  intros s Hc Hl. exists s. rewrite overlay_nil. split_and!; try done. unfold zlen; simpl; lia.
Qed.

#[export] Instance writes_seg name : Writes (seg name) [].
Proof.
  intros s Hc Hl. eexists. split; [done|]. rewrite overlay_nil.
  split_and!; try done. unfold zlen; simpl; lia.
Qed.

Lemma writes_seg_r m bs name : Writes m bs → Writes (m ;; seg name) bs.
Proof. intros. rewrite <- (app_nil_r bs). apply _. Qed.

Lemma writes_eq m bs bs' : Writes m bs → bs = bs' → Writes m bs'.
Proof. by intros ? ->. Qed.

Lemma at_cursor_app s b1 b2 :
  at_cursor s (b1 ++ b2) ↔
  at_cursor s b1 ∧ at_cursor (with_c (s_c s + zlen b1) s) b2.
Proof.
  unfold at_cursor, Len. cbn. rewrite zlen_app.
  pose proof (zlen_nonneg b1). pose proof (zlen_nonneg b2).
  assert (0 ≤ s_c s → Z.to_nat (s_c s + zlen b1) = (Z.to_nat (s_c s) + length b1)%nat) as E
    by (unfold zlen; lia).
  split.
  - intros (Hc & Hl & [T1 T2]%window_app). rewrite E by done. split_and!; try done; lia.
  - intros ((Hc & Hl1 & T1) & (_ & Hl2 & T2)). rewrite E in T2 by done.
    split_and!; [done|lia|]. rewrite length_app, <- take_take_drop, drop_drop.
    by rewrite T1, T2.
Qed.

#[export] Instance reads_bind {A B} (r : GoM Splice A) (k : A → GoM Splice B) b1 b2 v w :
  Reads r b1 v → Reads (k v) b2 w → Reads (x ← r; k x) (b1 ++ b2) w.
Proof.
  intros H1 H2 s [A1 A2]%at_cursor_app HE.
  destruct (H1 s A1 HE) as (s1 & E1 & B1 & C1 & R1).
  destruct (H2 s1) as (s2 & E2 & B2 & C2 & R2).
  { unfold at_cursor, Len in *. cbn in A2. by rewrite B1, C1. } { done. }
  exists s2. unfold mbind, GoM_bind. rewrite E1. split_and!; [done|congruence| |done].
  rewrite C2, C1, zlen_app. lia.
Qed.

#[export] Instance reads_bind_nil {A B} (r : GoM Splice A) (k : A → GoM Splice B) v w :
  Reads r [] v → Reads (k v) [] w → Reads (x ← r; k x) [] w.
Proof. intros. change (@nil byte) with (@nil byte ++ []). by eapply reads_bind. Qed.

#[export] Instance reads_ret {A} (v : A) : Reads (mret v) [] v.
Proof. intros s _ HE. exists s. split_and!; try done. unfold zlen; simpl; lia. Qed.

#[export] Instance reads_seg name : Reads (seg name) [] tt.
Proof. intros s _ HE. eexists. split; [done|]. split_and!; try done. unfold zlen; simpl; lia. Qed.

#[export] Instance reads_lift {A} (o : Out A) v : o = Ret v → Reads (lift o) [] v.
Proof.
  intros -> s _ HE. exists s. split; [done|]. split_and!; try done. unfold zlen; simpl; lia.
Qed.

Lemma reads_val {A} (r : GoM Splice A) bs v v' :
  Reads r bs v → v = v' → Reads r bs v'.
Proof. by intros ? ->. Qed.

Lemma reads_bytes {A} (r : GoM Splice A) bs bs' v :
  Reads r bs v → bs = bs' → Reads r bs' v.
Proof. by intros ? ->. Qed.

(** Writing and then reading from where the writer started. *)
Lemma writes_at_cursor m bs s :
  Writes m bs → 0 ≤ s_c s → s_c s + zlen bs ≤ Len s → s_E s = None →
  ∃ s', m s = Ret (tt, s') ∧ at_cursor (with_c (s_c s) s') bs ∧ s_E s' = None ∧
        s_c s' = s_c s + zlen bs ∧ Len s' = Len s.
Proof.
  intros W Hc Hl HE. destruct (W s Hc Hl) as (s' & E & B & C & R).
  assert (Z.to_nat (s_c s) + length bs ≤ length (s_b s))%nat by (unfold Len, zlen in *; lia).
  exists s'. split_and!; [done| |congruence|done|].
  - unfold at_cursor, Len. cbn. rewrite B. split_and!; [done| |by apply window_overlay].
    rewrite zlen_overlay; done.
  - unfold Len. by rewrite B, zlen_overlay.
Qed.

Theorem writes_reads {A} m (r : GoM Splice A) bs v s :
  Writes m bs → Reads r bs v →
  0 ≤ s_c s → s_c s + zlen bs ≤ Len s → s_E s = None →
  ∃ s1 s2, m s = Ret (tt, s1) ∧ r (with_c (s_c s) s1) = Ret (v, s2)
           ∧ s_c s2 = s_c s1 ∧ s_b s2 = s_b s1 ∧ s_E s2 = None.
Proof.
  intros W R Hc Hl HE. destruct (writes_at_cursor m bs s W Hc Hl HE) as (s1 & E & A1 & E1 & C1 & L1).
  destruct (R (with_c (s_c s) s1) A1 E1) as (s2 & E2 & B2 & C2 & R2).
  exists s1, s2. split_and!; try done. by rewrite C2, C1.
Qed.

(** ** Windows *)

Lemma writes_on_window n f bs :
  zlen bs = n → (∀ w, zlen w = n → f w = Ret bs) → Writes (on_window n f) bs.
Proof.
  intros <- Hf s Hc Hl. unfold on_window, goslice.
  rewrite bool_decide_true by (unfold Len in *; pose proof (zlen_nonneg bs); lia).
  cbn. rewrite Hf; cycle 1.
  { unfold Len, zlen in *. rewrite length_take, length_drop. lia. }
  cbn. eexists. split; [done|]. done.
Qed.

#[export] Instance writes_fill n src bs : 
  TCEq n (zlen bs) → TCEq src bs → Writes (fill n src) bs.
Proof.
  intros -> ->. apply writes_on_window; [done|]. intros w Hw. f_equal.
  unfold zlen in Hw. rewrite take_ge by lia. unfold overlay. simpl.
  rewrite drop_ge by lia. by rewrite app_nil_r.
Qed.

Lemma writes_fill_eq n src : zlen src = n → Writes (fill n src) src.
Proof. intros <-. apply _. Qed.

Lemma writes_put n f k v :
  Z.of_nat k = n → (∀ w, f w = put k w v) → Writes (on_window n f) (le_put k v).
Proof.
  intros <- Hf. apply writes_on_window; [apply zlen_le_put|]. intros w Hw.
  rewrite Hf. unfold put, zlen in *. rewrite bool_decide_true by lia. f_equal.
  unfold overlay. simpl. rewrite drop_ge by (rewrite length_le_put; lia).
  by rewrite app_nil_r.
Qed.

Lemma reads_window n bs : zlen bs = n → Reads (window n) bs bs.
Proof.
  intros <- s (Hc & Hl & T) HE. unfold window.
  pose proof (goslice_ok (s_b s) (s_c s) (length bs)) as G. fold (zlen bs) in G.
  rewrite G by (unfold Len in *; lia). cbn. rewrite T. eexists.
  split; [done|]. done.
Qed.

(** A reader that takes a window, computes, and records a segment. *)
Lemma reads_window_then {A} n bs (k : bytes → GoM Splice A) v :
  zlen bs = n → Reads (k bs) [] v → Reads (w ← window n; k w) bs v.
Proof.
  intros Hn Hk. rewrite <- (app_nil_r bs) at 1. eapply reads_bind; [by apply reads_window|done].
Qed.

Section FieldFacts.
Context {cr : Crypto} {ma : Multiaddrs}.

(** ** Fields *)

Local Ltac wfield := apply writes_seg_r, writes_fill_eq;
  rewrite ?zlen_arr; done.

#[export] Instance writes_Hash h : Writes (Hash_ h) (arr_list h).
Proof. wfield. Qed.
#[export] Instance writes_ID i : Writes (ID_ i) (arr_list i).
Proof. wfield. Qed.
#[export] Instance writes_IV i : Writes (IV_ i) (arr_list i).
Proof. wfield. Qed.
#[export] Instance writes_Signature sb : Writes (Signature sb) (arr_list sb).
Proof. wfield. Qed.
#[export] Instance writes_Prvkey k : Writes (Prvkey k) (arr_list (Serialize k)).
Proof. wfield. Qed.
#[export] Instance writes_Pubkey p :
  Writes (Pubkey (Some p)) (arr_list (SerializeCompressed p)).
Proof. wfield. Qed.
#[export] Instance writes_Pubkey_nil : Writes (Pubkey None) [].
Proof. apply writes_ret. Qed.
#[export] Instance writes_Cloak p bl :
  Writes (Cloak_ (Some p) bl) (arr_list (GetCloak bl p)).
Proof. wfield. Qed.
#[export] Instance writes_RawBytes b : Writes (RawBytes b) b.
Proof. apply writes_seg_r, writes_fill_eq. done. Qed.

Lemma writes_Magic m : length (string_bytes m) = 4%nat → Writes (Magic m) (string_bytes m).
Proof. intros H. apply writes_seg_r, writes_fill_eq. unfold zlen. by rewrite H. Qed.

#[export] Instance writes_Uint16 v : Writes (Uint16 v) (le_put 2 v).
Proof.
  apply writes_seg_r. rewrite <- (le_put_wrapu 2 16) by done. by apply writes_put.
Qed.
#[export] Instance writes_Uint32 v : Writes (Uint32 v) (le_put 4 v).
Proof.
  apply writes_seg_r. rewrite <- (le_put_wrapu 4 32) by done. by apply writes_put.
Qed.
#[export] Instance writes_Uint64 v : Writes (Uint64 v) (le_put 8 v).
Proof.
  apply writes_seg_r. rewrite <- (le_put_wrapu 8 64) by done. by apply writes_put.
Qed.
#[export] Instance writes_Duration v : Writes (Duration v) (le_put 8 v).
Proof.
  apply writes_seg_r. rewrite <- !(le_put_wrapu 8 64 v), <- (le_put_wrapu 8 64) by done.
  by apply writes_put.
Qed.
#[export] Instance writes_Time v : Writes (Time v) (le_put 8 (Unix v)).
Proof.
  apply writes_seg_r. rewrite <- !(le_put_wrapu 8 64 (Unix v)), <- (le_put_wrapu 8 64) by done.
  by apply writes_put.
Qed.

#[export] Instance writes_Byte b : Writes (Byte b) [b].
Proof.
  intros s Hc Hl. unfold Len, zlen in *. simpl in Hl. unfold Byte, goset.
  rewrite bool_decide_true by (unfold zlen; lia). eexists. split; [done|]. cbn.
  split_and!; [|unfold zlen; simpl; lia|done].
  rewrite insert_take_drop by lia. unfold overlay. simpl. do 3 f_equal. lia.
Qed.

#[export] Instance writes_Ciphers c :
  Writes (Ciphers_ c) (concat (arr_list <$> to3 c)).
Proof.
  destruct c as [[a b] c]. unfold Ciphers_. eapply writes_eq; [apply _|].
  simpl. by rewrite app_nil_r.
Qed.
#[export] Instance writes_Nonces n :
  Writes (Nonces_ n) (concat (arr_list <$> to3 n)).
Proof.
  destruct n as [[a b] c]. unfold Nonces_. eapply writes_eq; [apply _|].
  simpl. by rewrite app_nil_r.
Qed.

#[export] Instance writes_Bytes b : Writes (Bytes b) (le_put 4 (zlen b) ++ b).
Proof.
  unfold Bytes, EncodeUint32, put. rewrite bool_decide_true by (simpl; lia).
  assert (overlay 0 (le_put 4 (wrapu 32 (zlen b))) (replicate 4 x00) = le_put 4 (zlen b)) as ->.
  { rewrite le_put_wrapu by done. unfold overlay. rewrite length_le_put, take_0.
    rewrite drop_ge by (rewrite length_replicate; lia). apply app_nil_r. }
  change (Writes (fill Uint32Len (le_put 4 (zlen b)) ;; seg (Lit "32 bit length") ;;
                  fill (zlen b) b ;; seg (Lit "bytes")) (le_put 4 (zlen b) ++ b)).
  eapply writes_eq; [apply writes_bind; [apply writes_fill_eq; by rewrite zlen_le_put|apply _]|].
  cbn [app]. by rewrite app_nil_r.
Qed.

(** *** Readers *)

Local Ltac rfield := eapply reads_window_then; rewrite ?zlen_arr, ?zlen_le_put; [done|].

Lemma reads_arr n name (a : arr n) : Reads (read_arr n name) (arr_list a) a.
Proof.
  unfold read_arr. rfield. eapply reads_val; [apply _|apply arr_of_list].
Qed.
#[export] Instance reads_Hash h : Reads ReadHash (arr_list h) h.
Proof. apply reads_arr. Qed.
#[export] Instance reads_ID i : Reads ReadID (arr_list i) i.
Proof. apply reads_arr. Qed.
#[export] Instance reads_IV i : Reads ReadIV (arr_list i) i.
Proof. apply reads_arr. Qed.
#[export] Instance reads_Cloak c : Reads ReadCloak (arr_list c) c.
Proof. apply reads_arr. Qed.
#[export] Instance reads_Signature sb : Reads ReadSignature (arr_list sb) sb.
Proof. apply reads_arr. Qed.

#[export] Instance reads_Ciphers c : Reads ReadCiphers (concat (arr_list <$> to3 c)) c.
Proof.
  destruct c as [[a b] c]. cbn [to3 concat fmap list_fmap]. apply _.
Qed.
#[export] Instance reads_Nonces n : Reads ReadNonces (concat (arr_list <$> to3 n)) n.
Proof.
  destruct n as [[a b] c]. cbn [to3 concat fmap list_fmap]. apply _.
Qed.

Lemma reads_Magic b : length b = 4%nat → Reads ReadMagic b b.
Proof.
  intros Hb. unfold ReadMagic. eapply reads_window_then; [unfold zlen; by rewrite Hb|apply _].
Qed.

Lemma get_le_put k v : get_le k (le_put k v) = Ret (v `mod` 256 ^ Z.of_nat k).
Proof.
  unfold get_le. rewrite length_le_put, bool_decide_true by done.
  by rewrite take_ge, le_get_put by (by rewrite length_le_put).
Qed.

Local Ltac ruint k v :=
  rfield; eapply reads_val; [apply reads_bind_nil with (v := v `mod` 256 ^ Z.of_nat k);
    [apply reads_lift, (get_le_put k v)|apply _]|].

#[export] Instance reads_Uint16 v : Reads ReadUint16 (le_put 2 v) (wrapu 16 v).
Proof.
  unfold ReadUint16. change (le_put 2 v) with ([] ++ le_put 2 v).
  eapply reads_bind; [apply _|]. ruint 2%nat v. unfold wrapu.
  by rewrite Zmod_mod.
Qed.
#[export] Instance reads_Uint32 v : Reads ReadUint32 (le_put 4 v) (wrapu 32 v).
Proof. unfold ReadUint32. ruint 4%nat v. unfold wrapu. by rewrite Zmod_mod. Qed.
#[export] Instance reads_Uint64 v : Reads ReadUint64 (le_put 8 v) (wrapu 64 v).
Proof. unfold ReadUint64. by ruint 8%nat v. Qed.
#[export] Instance reads_MilliSatoshi v : Reads ReadMilliSatoshi (le_put 8 v) (wrapu 64 v).
Proof. unfold ReadMilliSatoshi. by ruint 8%nat v. Qed.

#[export] Instance reads_Duration v : Reads ReadDuration (le_put 8 v) (wraps 64 v).
Proof. unfold ReadDuration. ruint 8%nat v. apply (wraps_wrapu 64). lia. Qed.
#[export] Instance reads_Time v : Reads ReadTime (le_put 8 v) (UnixTime (wraps 64 v)).
Proof. unfold ReadTime. ruint 8%nat v. f_equal. apply (wraps_wrapu 64). lia. Qed.

#[export] Instance reads_Byte b : Reads ReadByte [b] b.
Proof.
  intros s (Hc & Hl & T) HE. unfold ReadByte, goindex. rewrite bool_decide_true by done.
  simpl in T. destruct (s_b s !! Z.to_nat (s_c s)) as [x|] eqn:E; cycle 1.
  { apply lookup_ge_None in E. unfold Len, zlen in Hl. simpl in Hl. lia. }
  erewrite drop_S in T by done. simpl in T. rewrite take_0 in T. injection T as ->.
  eexists. split; [done|]. done.
Qed.

#[export] Instance reads_Bytes b : Small32 b → Reads ReadBytes (le_put 4 (zlen b) ++ b) b.
Proof.
  intros Hb. unfold ReadBytes. unfold Small32 in Hb. pose proof (zlen_nonneg b).
  eapply reads_bind; [apply reads_window; by rewrite zlen_le_put|].
  change b with ([] ++ b) at 2. eapply reads_bind; [apply reads_lift, get_le_put|].
  change (256 ^ Z.of_nat 4) with (2 ^ 32). rewrite Z.mod_small by lia.
  change b with ([] ++ b) at 2. eapply reads_bind; [apply _|].
  apply reads_window_then; [done|apply _].
Qed.
End FieldFacts.

Section AddressFacts.
Context {cr : Crypto} {ma : Multiaddrs}.

(** The 21 bytes of a short address. *)
Definition multiaddr_field (b : bytes) : bytes :=
  z2b (zlen b) :: b ++ replicate (20 - length b) x00.

Lemma writes_Multiaddr a port b :
  AddrToBytes (Some a) port = Ret (b, None) → zlen b ≤ 20 →
  Writes (Multiaddr_ (Some a) port) (multiaddr_field b).
Proof.
  intros E Hb. intros s. unfold Multiaddr_, lift. unfold mbind at 1, GoM_bind at 1.
  rewrite E. cbn [mbind Out_bind mret Out_ret]. revert s.
  set (b' := if bool_decide _ then _ else _).
  assert (b' = b ++ replicate (20 - length b) x00) as ->.
  { unfold b'. unfold zlen in *. case_bool_decide.
    - unfold overlay. rewrite take_0, drop_replicate. done.
    - replace (20 - length b)%nat with O by lia. simpl. by rewrite app_nil_r. }
  change (Writes (Byte (z2b (zlen b)) ;; RawBytes (b ++ replicate (20 - length b) x00))
            (multiaddr_field b)).
  unfold multiaddr_field. change (z2b (zlen b) :: ?r) with ([z2b (zlen b)] ++ r). apply _.
Qed.

Lemma zlen_multiaddr_field b : zlen b ≤ 20 → zlen (multiaddr_field b) = 21.
Proof.
  intros. unfold multiaddr_field, zlen in *. simpl. rewrite length_app, length_replicate. lia.
Qed.

(** What [ReadMultiaddr] does on a buffer holding a length byte and the bytes
    of an address: the address is parsed, and the cursor always ends 21 bytes
    on, however long the address was. *)
Lemma ReadMultiaddr_run b s :
  zlen b ≤ 255 → at_cursor s (z2b (zlen b) :: b) →
  ∃ s', ReadMultiaddr s = Ret (NewMultiaddrBytes b, s') ∧ s_b s' = s_b s ∧
        s_c s' = s_c s + 21 ∧ s_E s' = s_E s.
Proof.
  intros Hb A. pose proof (zlen_nonneg b) as Hb0.
  change (_ :: b) with ([z2b (zlen b)] ++ b) in A.
  apply at_cursor_app in A as [A1 A2].
  assert (goindex (s_b s) (s_c s) = Ret (z2b (zlen b))) as G.
  { destruct (reads_Byte (z2b (zlen b)) (with_E None s) A1 eq_refl) as (s' & E & _).
    unfold ReadByte in E. cbn in E. destruct (goindex _ _); [|done].
    cbn in E. by injection E as ->. }
  destruct A2 as (Hc & Hl & T). cbn in Hc, Hl, T.
  change (zlen [z2b (zlen b)]) with 1 in *.
  assert (b2z (z2b (zlen b)) = zlen b) as Z by (rewrite b2z_z2b, Z.mod_small; lia).
  unfold ReadMultiaddr, mbind, GoM_bind, ReadByte, get, Advance, Inc, lift, mbind, GoM_bind,
    seg, mret, GoM_ret. rewrite G. cbn -[Z.add goslice]. rewrite Z.
  assert (goslice (s_b s) (s_c s + 1) (s_c s + 1 + zlen b) = Ret b) as Gs.
  { unfold goslice. rewrite bool_decide_true by (unfold Len in *; cbn in *; destruct A1; lia).
    f_equal. replace (Z.to_nat _) with (length b) by (unfold zlen; lia). done. }
  unfold GetRange, range_bounds. destruct A1 as [Hc0 _].
  rewrite !bool_decide_false by lia. unfold Len in *. cbn -[Z.add goslice].
  rewrite Gs. cbn -[Z.add]. unfold BytesToMultiaddr. unfold wrapu.
  case_bool_decide as Hpad; cbn -[Z.add];
    (destruct (NewMultiaddrBytes b); eexists; (split; [done|]); cbn;
     split_and!; try done; try lia).
  all: destruct (decide (zlen b = 20)); [lia|].
  all: exfalso; apply Hpad; change (2 ^ 8) with 256; Z.div_mod_to_equations; lia.
Qed.

Lemma reads_Multiaddr b :
  zlen b ≤ 20 → Reads ReadMultiaddr (multiaddr_field b) (NewMultiaddrBytes b).
Proof.
  intros Hb s A HE. destruct (ReadMultiaddr_run b s) as (s' & E & B & C & R).
  - lia.
  - unfold multiaddr_field in A. rewrite app_comm_cons in A. by apply at_cursor_app in A as [? _].
  - exists s'. rewrite zlen_multiaddr_field by done. split_and!; congruence.
Qed.
End AddressFacts.

(** ** The 24-bit offset *)

Lemma le_put_3 o : le_put 3 o = [z2b o; z2b (Z.shiftr o 8); z2b (Z.shiftr o 16)].
Proof.
  cbn [le_put]. rewrite !Z.shiftr_div_pow2 by lia. by rewrite Z.div_div by lia.
Qed.

Section OffsetFacts.
Context {cr : Crypto} {ma : Multiaddrs}.

Lemma goset_app_mid {A} (l1 l2 : list A) x y i :
  i = zlen l1 → goset (l1 ++ x :: l2) i y = Ret (l1 ++ y :: l2).
Proof.
  intros ->. unfold goset, zlen. rewrite bool_decide_true.
  - rewrite Nat2Z.id, insert_app_r_alt, Nat.sub_diag by done. done.
  - rewrite length_app. simpl. lia.
Qed.

Lemma goindex_app_mid {A} (l1 l2 : list A) x i :
  i = zlen l1 → goindex (l1 ++ x :: l2) i = Ret x.
Proof.
  intros ->. unfold goindex, zlen. rewrite bool_decide_true by lia.
  by rewrite Nat2Z.id, lookup_app_r, Nat.sub_diag by done.
Qed.

(** The same one and two places further on. *)
Lemma goset_app_1 {A} (l1 l2 : list A) a x y i :
  i = zlen l1 → goset (l1 ++ a :: x :: l2) (i + 1) y = Ret (l1 ++ a :: y :: l2).
Proof.
  intros ->. rewrite (cons_middle a), app_assoc, goset_app_mid; [by rewrite <- app_assoc|].
  rewrite zlen_app. done.
Qed.
Lemma goset_app_2 {A} (l1 l2 : list A) a b x y i :
  i = zlen l1 → goset (l1 ++ a :: b :: x :: l2) (i + 2) y = Ret (l1 ++ a :: b :: y :: l2).
Proof.
  intros ->. rewrite (cons_middle a), app_assoc. replace (zlen l1 + 2) with (zlen l1 + 1 + 1) by lia.
  rewrite goset_app_1; [by rewrite <- app_assoc|]. rewrite zlen_app. done.
Qed.
Lemma goindex_app_1 {A} (l1 l2 : list A) a x i :
  i = zlen l1 → goindex (l1 ++ a :: x :: l2) (i + 1) = Ret x.
Proof.
  intros ->. rewrite (cons_middle a), app_assoc, goindex_app_mid; [done|].
  rewrite zlen_app. done.
Qed.
Lemma goindex_app_2 {A} (l1 l2 : list A) a b x i :
  i = zlen l1 → goindex (l1 ++ a :: b :: x :: l2) (i + 2) = Ret x.
Proof.
  intros ->. rewrite (cons_middle a), app_assoc. replace (zlen l1 + 2) with (zlen l1 + 1 + 1) by lia.
  rewrite goindex_app_1; [done|]. rewrite zlen_app. done.
Qed.

(** Splitting a buffer around a window of three bytes. *)
Lemma buffer_split3 (l : bytes) c :
  0 ≤ c → c + 3 ≤ zlen l →
  ∃ l1 x y z l2, l = l1 ++ x :: y :: z :: l2 ∧ zlen l1 = c.
Proof.
  intros Hc Hl. unfold zlen in *. rewrite <- (take_drop (Z.to_nat c) l) in Hl |- *.
  rewrite length_app, length_take, length_drop in Hl.
  destruct (drop (Z.to_nat c) l) as [|x [|y [|z l2]]] eqn:E;
    try (apply (f_equal length) in E; rewrite length_drop in E; simpl in E; lia).
  exists (take (Z.to_nat c) l), x, y, z, l2. split; [done|].
  apply (f_equal length) in E. rewrite length_drop in E. simpl in E.
  rewrite length_take. lia.
Qed.

Lemma writes_Offset o : o ≤ MaxUint24 → Writes (Offset_ o) (le_put 3 o).
Proof.
  intros Ho s Hc Hl. rewrite zlen_le_put in Hl.
  destruct (buffer_split3 (s_b s) (s_c s)) as (l1 & x & y & z & l2 & E & L); [done|done|].
  unfold Offset_. rewrite bool_decide_false by lia. unfold GetCursor. rewrite E, <- L.
  rewrite goset_app_mid by done. cbn [mbind Out_bind].
  rewrite goset_app_1 by done. cbn [mbind Out_bind]. rewrite goset_app_2 by done.
  eexists. split; [done|]. cbn -[le_put]. rewrite le_put_3. split_and!; [|unfold zlen in *; simpl; lia|done].
  unfold overlay. cbn [app length]. rewrite L.
  replace (Z.to_nat (s_c s)) with (length l1) by (unfold zlen in L; lia).
  rewrite take_app_length, drop_app_add. done.
Qed.

Lemma reads_Offset o : 0 ≤ o ≤ MaxUint24 → Reads ReadOffset (le_put 3 o) o.
Proof.
  intros Ho s (Hc & Hl & T) HE. rewrite zlen_le_put in Hl. rewrite length_le_put in T.
  destruct (buffer_split3 (s_b s) (s_c s)) as (l1 & x & y & z & l2 & E & L); [done|done|].
  rewrite E in T. replace (Z.to_nat (s_c s)) with (length l1) in T by (unfold zlen in L; lia).
  rewrite drop_app_length, le_put_3 in T. cbn in T. injection T as -> -> ->.
  unfold ReadOffset, GetCursor. rewrite E, <- L.
  rewrite (goindex_app_mid l1 _ _ (zlen l1)) by done. cbn [mbind Out_bind].
  rewrite (goindex_app_1 l1 _ _ _ (zlen l1)) by done. cbn [mbind Out_bind].
  rewrite (goindex_app_2 l1 _ _ _ _ (zlen l1)) by done.
  assert (b2z (z2b o) + Z.shiftl (b2z (z2b (Z.shiftr o 8))) 8
          + Z.shiftl (b2z (z2b (Z.shiftr o 16))) 16 = o) as V.
  { change MaxUint24 with 16777215 in Ho.
    rewrite !b2z_z2b, !Z.shiftl_mul_pow2, !Z.shiftr_div_pow2 by lia.
    change (2 ^ 8) with 256. change (2 ^ 16) with (256 * 256). rewrite <- Z.div_div by lia.
    Z.div_mod_to_equations. lia. }
  cbn [mbind Out_bind]. rewrite V. eexists. split; [done|]. rewrite zlen_le_put.
  split_and!; [done|cbn; lia|done].
Qed.

Lemma Offset_panics o s : MaxUint24 < o → ∃ msg, Offset_ o s = Panic (PMsg msg).
Proof. intros. unfold Offset_. rewrite bool_decide_true by done. eauto. Qed.
End OffsetFacts.

(** ** Moving the rest of a message to the front *)

Section BudgeFacts.
Context {cr : Crypto}.

Lemma overlay_full {A} (src l : list A) : length src = length l → overlay 0 src l = src.
Proof.
  intros. unfold overlay. simpl. rewrite drop_ge by lia. apply app_nil_r.
Qed.

Lemma BudgeUp_run seed s :
  0 ≤ s_c s ≤ Len s →
  ∃ pad s', BudgeUp seed s = Ret s' ∧ zlen pad = s_c s ∧
    s_b s' = drop (Z.to_nat (s_c s)) (s_b s) ++ pad ∧
    s_c s' = s_c s ∧ s_E s' = s_E s ∧ Segments s' = Segments s.
Proof.
  intros Hc. destruct (NoisePad_ok seed (s_c s)) as (pad & EP & LP); [lia|].
  set (rest := drop (Z.to_nat (s_c s)) (s_b s)).
  assert (zlen rest = Len s - s_c s) as LR
    by (unfold rest, Len, zlen in *; rewrite length_drop; lia).
  unfold BudgeUp, GetFrom. cbv zeta. unfold Len in *.
  rewrite (goslice_in (s_b s)) by lia. cbn [mbind Out_bind]. fold rest.
  rewrite (take_ge rest), (gocopy_in (s_b s)) by (unfold zlen in *; lia).
  cbn [mbind Out_bind]. rewrite (take_ge rest) by (unfold zlen in *; lia).
  set (b1 := overlay (Z.to_nat 0) rest (s_b s)).
  assert (length b1 = length (s_b s)) as L1 by (apply length_overlay; unfold zlen in *; lia).
  rewrite (goslice_in b1) by (unfold zlen in *; lia).
  cbn [mbind Out_bind]. rewrite EP. cbn [mbind Out_bind].
  rewrite (gocopy_in b1) by (unfold zlen in *; lia). cbn [mbind Out_bind].
  eexists pad, _. split; [done|]. split; [done|]. split; [|done]. cbn [s_b with_b].
  rewrite (take_ge pad) by (unfold zlen in *; lia).
  unfold overlay at 1. rewrite drop_ge, app_nil_r by (unfold zlen in *; lia). f_equal.
  replace (Z.to_nat (zlen (s_b s) - s_c s)) with (length rest) by (unfold zlen in *; lia).
  unfold b1. pose proof (window_overlay 0 rest (s_b s)) as W. rewrite drop_0 in W.
  apply W. unfold zlen in *. lia.
Qed.
End BudgeFacts.

(** ** The segment dump *)

#[export] Instance seg_le_trans : Transitive seg_le.
Proof. intros x y z. unfold seg_le. lia. Qed.
#[export] Instance seg_le_total : Total seg_le.
Proof. intros x y. unfold seg_le. lia. Qed.

Lemma segs_by_offset_elem l o x :
  segs_by_offset l !! o = Some x → x ∈ l ∧ Offset x = o.
Proof.
  unfold segs_by_offset.
  enough (∀ m : gmap Z NameOffset, foldl (λ m x, <[Offset x := x]> m) m l !! o = Some x →
            (x ∈ l ∧ Offset x = o) ∨ m !! o = Some x) as H.
  { intros [?|H1]%H; [done|]. by rewrite lookup_empty in H1. }
  induction l as [|y l IH]; intros m; simpl; [by right|].
  intros [[? ?]|H]%IH; [left; split; [by right|done]|].
  destruct (decide (Offset y = o)) as [<-|Hne].
  - rewrite lookup_insert_eq in H. injection H as ->. left. split; [left|done].
  - rewrite lookup_insert_ne in H by done. by right.
Qed.

Lemma GetSegments_elem s x : x ∈ (GetSegments s).1 → x ∈ Segments s.
Proof.
  unfold GetSegments. cbn [fst]. rewrite merge_sort_Permutation, list_elem_of_fmap.
  intros ([o y] & -> & H%elem_of_map_to_list). by apply segs_by_offset_elem in H as [? _].
Qed.

Lemma GetSegments_sorted s : StronglySorted seg_le (GetSegments s).1.
Proof. apply StronglySorted_merge_sort; apply _. Qed.

Lemma slices_loop_run b segs prev acc :
  0 ≤ prev ≤ zlen b → StronglySorted seg_le segs →
  Forall (λ x, prev ≤ Offset x ≤ zlen b) segs →
  ∃ out cur, slices_loop b segs prev prev acc = Ret (acc ++ out, cur) ∧
    prev ≤ cur ≤ zlen b ∧ concat out.*2 = take (Z.to_nat (cur - prev)) (drop (Z.to_nat prev) b).
Proof.
  revert prev acc; induction segs as [|x segs IH]; intros prev acc Hp Hs Hf; simpl.
  - exists [], prev. rewrite app_nil_r, Z.sub_diag. split_and!; try done; lia.
  - apply Forall_cons in Hf as [Hx Hf]. apply StronglySorted_inv in Hs as [Hs Hall].
    rewrite goslice_in by lia. cbn [mbind Out_bind].
    edestruct (IH (Offset x)) as (out & cur & E & Hc & Hcat); [lia|done| |].
    { apply Forall_forall. intros y Hy. rewrite Forall_forall in Hf, Hall.
      specialize (Hf y Hy). specialize (Hall y Hy). unfold seg_le in Hall. lia. }
    rewrite E. eexists (_ :: out), cur. rewrite <- app_assoc. split; [done|].
    split; [lia|]. cbn [fmap list_fmap concat snd]. rewrite Hcat.
    replace (Z.to_nat (Offset x)) with (Z.to_nat prev + Z.to_nat (Offset x - prev))%nat by lia.
    rewrite <- drop_drop, take_take_drop. f_equal. lia.
Qed.

(** When every recorded segment ends inside the buffer, the segment dump
    never panics and its pieces, in order, concatenate to the whole buffer:
    no byte is lost, duplicated or reordered, whatever order (and however often)
    the segments were recorded in. *)
Theorem GetSlicesFromSegments_partition s :
  (∀ x, x ∈ Segments s → 0 ≤ Offset x ≤ Len s) →
  ∃ l, GetSlicesFromSegments s = Ret l ∧ concat l.*2 = s_b s.
Proof.
  intros Hs. unfold GetSlicesFromSegments.
  pose proof (GetSegments_sorted s) as HS. pose proof (GetSegments_elem s) as HE.
  unfold GetSegments in *. cbn [fst] in *. set (segs := merge_sort _ _) in *. cbn [s_b with_segs].
  destruct (slices_loop_run (s_b s) segs 0 []) as (out & cur & E & Hc & Hcat).
  { unfold zlen. lia. } { done. }
  { apply Forall_forall. intros x Hx%HE. by apply Hs. }
  rewrite E. cbn [mbind Out_bind app]. rewrite Z.sub_0_r, drop_0 in Hcat.
  case_bool_decide as Hlt.
  - rewrite goslice_in by lia. eexists. split; [done|].
    rewrite fmap_app, concat_app, Hcat. cbn [fmap list_fmap concat snd].
    rewrite app_nil_r, (take_ge (drop _ _)); [apply take_drop|].
    rewrite length_drop. unfold zlen. lia.
  - eexists. split; [done|]. rewrite Hcat. apply take_ge. unfold zlen in *. lia.
Qed.

Lemma GetSlicesFromSegments_partition_witness :
  let s := MkSplice [x01; x02; x03] 3
             [MkNameOffset 3 (Lit "b"); MkNameOffset 1 (Lit "a")] None in
  (∃ l, GetSlicesFromSegments s = Ret l ∧ concat l.*2 = s_b s) ∧
  GetSlicesFromSegments s = Ret [(Lit "a", [x01]); (Lit "b", [x02; x03])].
Proof.
  split; [|vm_compute; reflexivity].
  apply GetSlicesFromSegments_partition. intros x Hx.
  assert (x = MkNameOffset 3 (Lit "b") ∨ x = MkNameOffset 1 (Lit "a")) as [-> | ->].
  { apply list_elem_of_In in Hx. simpl in Hx. destruct Hx as [<- | [<- | []]]; auto. }
  - split; vm_compute; congruence.
  - split; vm_compute; congruence.
Defined.

(** Instance search compares writers and readers by name, never by their code. *)
#[export] Hint Opaque Byte RawBytes Check Hash_ Ciphers_ ID_ IV_ Nonces_ Magic Cloak_ Prvkey
  Pubkey Signature Uint16 Uint32 Uint64 Duration Time Bytes Offset_ Multiaddr_ AddrPort_
  fill on_window seg string_bytes le_put : typeclass_instances.
#[export] Hint Opaque ReadByte ReadHash ReadCiphers ReadID ReadIV ReadNonces ReadMagic ReadCloak
  ReadPrvkey ReadPubkey ReadSignature ReadUint16 ReadUint32 ReadUint64 ReadMilliSatoshi
  ReadDuration ReadTime ReadBytes ReadOffset ReadMultiaddr read_arr window
  : typeclass_instances.
