(* ===== verification/Ads.v ===== *)
(** * Peer advertisements

    Models [pkg/codec/ad] and its five concrete types: [addresses], [intro],
    [load], [peer] and [services].  The source repeats the same signing code in
    each package; here it is one set of definitions over the class [AdType]
    (what an ad type provides: its common fields and [SpliceNoSig]), and the
    promise [AdLayout] (the byte layout of the signed part), which each module
    discharges and the signing theorem uses. *)

From S2P Require Export SpliceFacts.

(** [ad.Len]: magic, ID, key, expiry, signature. *)
Definition AdLen : Z := MagicLen + IDLen + PubKeyLen + Uint64Len + SigLen.
Definition IntroLen : Z := AdLen + PubKeyLen + Uint16Len + Uint32Len.
Definition LoadLen : Z := AdLen + 1.
Definition PeerLen : Z := AdLen + Uint32Len.
Definition ServicesLen : Z := AdLen + Uint16Len + Uint32Len.

(** [magic.TooShort(got, found, magic)] *)
Definition TooShort (got found : Z) (magic : string) : option error :=
  if bool_decide (found ≤ got) then None
  else Some (Errorf "'%s' message  minimum size: %d got: %d" [found; got]).

Section Ads.
Context {cr : Crypto} {ma : Multiaddrs}.

(** [ad.Ad]: the fields common to all ads. *)
Record Ad := MkAd {
  ad_ID : ID;
  ad_Key : option Pub;
  ad_Expiry : Z;
  ad_Sig : SigBytes;
}.

Definition Ad_gen : Ad := MkAd (arr_zero 8) None 0 (arr_zero 64).
Definition with_Sig (sg : SigBytes) (a : Ad) : Ad :=
  MkAd (ad_ID a) (ad_Key a) (ad_Expiry a) sg.

(** What an ad type provides to the common code. *)
Class AdType (A : Type) := {
  ad_base : A → Ad;
  set_base : Ad → A → A;
  SpliceNoSig : A → GoM Splice unit;
  ad_len : A → Z;
}.

Section Common.
Context `{AdType A}.

Definition PubKey_ (x : A) : option Pub := ad_Key (ad_base x).
Definition Expired (now : Z) (x : A) : bool := bool_decide (ad_Expiry (ad_base x) < now).

(** [Encode] *)
Definition Ad_Encode (x : A) : GoM Splice (option error) :=
  SpliceNoSig x ;; Signature (ad_Sig (ad_base x)) ;; mret None.

(** The bytes [Sign] and [Validate] hash: splice into a fresh buffer, take
    what lies before the cursor. *)
Definition signed_bytes (x : A) : Out bytes :=
  r ← SpliceNoSig x (New (Z.to_nat (ad_len x)));
  GetUntilCursor r.2.

Definition Ad_Sign (prv : Prv) (x : A) : Out A :=
  m ← signed_bytes x;
  b ← Prv_Sign prv m;
  Ret (set_base (with_Sig b (ad_base x)) x).

(** A nil key is dereferenced by the verification. *)
Definition Ad_Validate (now : Z) (x : A) : Out bool :=
  m ← signed_bytes x;
  match ad_Key (ad_base x) with
  | None => Panic PNil
  | Some k => Ret (MatchesPubkey (ad_Sig (ad_base x)) m k
                   && bool_decide (now < ad_Expiry (ad_base x)))
  end.
End Common.

(** The layout of the signed part of an ad with key [k]. *)
Class AdLayout (A : Type) `{AdType A} (ok : A → Prop) (body : A → bytes) : Prop := {
  layout_writes x : ok x → Writes (SpliceNoSig x) (body x);
  layout_len x : ok x → 0 ≤ ad_len x ∧ zlen (body x) + SigLen ≤ ad_len x;
  layout_sig x sg : ok x → ok (set_base (with_Sig sg (ad_base x)) x);
  layout_body x sg : body (set_base (with_Sig sg (ad_base x)) x) = body x;
  layout_base x a : ad_base (set_base a x) = a;
  layout_key x : ok x → is_Some (ad_Key (ad_base x));
}.

Section CommonFacts.
Context {A : Type} {T : AdType A} {ok : A → Prop} {body : A → bytes}
  {L : AdLayout A ok body}.

Lemma signed_bytes_body x : ok x → signed_bytes x = Ret (body x).
Proof.
  intros Hok. destruct (layout_len x Hok) as [L0 L1].
  pose proof (zlen_nonneg (body x)). unfold SigLen in L1.
  unfold signed_bytes.
  destruct (layout_writes x Hok (New (Z.to_nat (ad_len x)))) as (s' & E & B & C & _).
  { done. } { unfold Len, New, zlen in *. cbn. rewrite length_replicate. lia. }
  rewrite E. cbn [mbind Out_bind snd]. unfold GetUntilCursor, GetUntil, GetCursor.
  cbn in B, C. rewrite C, B, goslice_in; [| lia|].
  - rewrite Z.sub_0_r, Z.add_0_l. f_equal.
    replace (Z.to_nat (zlen (body x))) with (length (body x)) by (unfold zlen; lia).
    apply window_overlay. rewrite length_replicate. unfold zlen in *. lia.
  - rewrite zlen_overlay; unfold zlen in *; rewrite length_replicate; lia.
Qed.
End CommonFacts.
End Ads.

Section AdsSigning.
Context {cr : Crypto} {crl : CryptoLaws} {ma : Multiaddrs}.

(** Any ad whose layout is known and whose key is the signer's validates
    exactly until it expires. *)
Lemma Sign_Validate {A : Type} {T : AdType A} {ok : A → Prop} {body : A → bytes}
    {L : AdLayout A ok body} prv now x x' :
  ok x → ad_Key (ad_base x) = Some (PubKey prv) →
  Ad_Sign prv x = Ret x' →
  Ad_Validate now x' = Ret (bool_decide (now < ad_Expiry (ad_base x))).
Proof.
  intros Hok Hk. unfold Ad_Sign. rewrite (signed_bytes_body x Hok). cbn [mbind Out_bind].
  destruct (Prv_Sign prv (body x)) as [sg|] eqn:ES; [|done]. cbn [mbind Out_bind].
  intros [= <-]. unfold Ad_Validate. rewrite signed_bytes_body by (by apply layout_sig).
  cbn [mbind Out_bind]. rewrite layout_body, layout_base. cbn. rewrite Hk.
  by rewrite (Sign_Verify _ _ _ ES).
Qed.
End AdsSigning.

(** ** The concrete ads *)

(** Instance search for layouts: magics are four bytes long. *)
#[export] Hint Extern 1 (Writes (Magic _) _) =>
  apply writes_Magic; reflexivity : typeclass_instances.
#[export] Hint Extern 1 (Writes (Pubkey ?k) _) =>
  match goal with H : k = Some _ |- _ => rewrite H; apply writes_Pubkey end
  : typeclass_instances.

Section PubReader.
Context {cr : Crypto} {crl : CryptoLaws} {ma : Multiaddrs}.

#[export] Instance reads_Pubkey old p :
  Reads (ReadPubkey old) (arr_list (SerializeCompressed p)) (Some p).
Proof.
  unfold ReadPubkey. eapply reads_window_then; [by rewrite zlen_arr|].
  unfold PubFromBytes. rewrite parse_serialize.
  apply reads_bind_nil with (v := tt); [|apply _].
  intros s _ HE. eexists. split; [done|]. split_and!; try done. unfold zlen. simpl. lia.
Qed.

#[export] Instance reads_Prvkey k :
  Reads ReadPrvkey (arr_list (Serialize k)) k.
Proof.
  unfold ReadPrvkey. eapply reads_window_then; [by rewrite zlen_arr|].
  eapply reads_val; [apply _|apply prv_serialize].
Qed.
End PubReader.

(** The instant an expiry has after a round trip: whole seconds. *)
Definition wire_time (t : Z) : Z := UnixTime (wraps 64 (Unix t)).

Module Load.
Section Load.
Context {cr : Crypto} {ma : Multiaddrs}.

Definition Magic_ : string := "load".

Record Ad := MkAd { base : Ads.Ad; Load : byte }.
Definition Gen : Ad := MkAd Ad_gen x00.

(** [load.Splice] *)
Definition Splice_ (id : ID) (key : option Pub) (load : byte) (expiry : Z)
  : GoM Splice unit :=
Magic Magic_ ;; ID_ id ;; Pubkey key ;; Byte load ;; Time expiry.

#[export] Instance adtype : AdType Ad := {|
ad_base := base;
set_base b x := MkAd b (Load x);
SpliceNoSig x := Splice_ (ad_ID (base x)) (ad_Key (base x)) (Load x) (ad_Expiry (base x));
ad_len _ := LoadLen;
|}.

Definition Decode : GoM Splice Ad :=
id ← ReadID; key ← ReadPubkey None; load ← ReadByte;
expiry ← ReadTime; sig ← ReadSignature;
mret (MkAd (Ads.MkAd id key expiry sig) load).

(** [load.New]: build and sign; the result is returned even when signing fails. *)
Definition New_ (id : ID) (key : Prv) (load : byte) (expiry : Z) : Out Ad :=
Ad_Sign key (MkAd (Ads.MkAd id (Some (PubKey key)) expiry (arr_zero 64)) load).
End Load.
End Load.

Module Peer.
Section Peer.
Context {cr : Crypto} {ma : Multiaddrs}.

Definition Magic_ : string := "pead".

Record Ad := MkAd { base : Ads.Ad; RelayRate : Z }.
Definition Gen : Ad := MkAd Ad_gen 0.

Definition Splice_ (id : ID) (key : option Pub) (relayRate expiry : Z) : GoM Splice unit :=
Magic Magic_ ;; ID_ id ;; Pubkey key ;; Uint32 relayRate ;; Time expiry.

#[export] Instance adtype : AdType Ad := {|
ad_base := base;
set_base b x := MkAd b (RelayRate x);
SpliceNoSig x := Splice_ (ad_ID (base x)) (ad_Key (base x)) (RelayRate x) (ad_Expiry (base x));
ad_len _ := PeerLen;
|}.

Definition Decode : GoM Splice Ad :=
id ← ReadID; key ← ReadPubkey None; rate ← ReadUint32;
expiry ← ReadTime; sig ← ReadSignature;
mret (MkAd (Ads.MkAd id key expiry sig) rate).

(** [peer.New]: a trial splice with the requested expiry (its compact signature
  is overwritten below), then an ad that expires three hours from now. *)
Definition New_ (id : ID) (key : Prv) (relayRate expiry now : Z) : Out Ad :=
r ← Splice_ id (Some (PubKey key)) relayRate expiry (New (Z.to_nat IntroLen));
_ ← GetUntil (GetCursor r.2) r.2;
Ad_Sign key (MkAd (Ads.MkAd id (Some (PubKey key)) (now + 3 * 3600 * 10 ^ 9)
                     (arr_zero 64)) relayRate).
End Peer.
End Peer.

Module Intro.
Section Intro.
Context {cr : Crypto} {ma : Multiaddrs}.

Definition Magic_ : string := "inad".

Record Ad := MkAd { base : Ads.Ad; Introducer : option Pub; Port : Z; RelayRate : Z }.
Definition Gen : Ad := MkAd Ad_gen None 0 0.

Definition Splice_ (id : ID) (key introducer : option Pub) (relayRate port expires : Z)
  : GoM Splice unit :=
Magic Magic_ ;; ID_ id ;; Pubkey key ;; Pubkey introducer ;;
Uint32 relayRate ;; Uint16 port ;; Time expires.

#[export] Instance adtype : AdType Ad := {|
ad_base := base;
set_base b x := MkAd b (Introducer x) (Port x) (RelayRate x);
SpliceNoSig x := Splice_ (ad_ID (base x)) (ad_Key (base x)) (Introducer x)
                   (RelayRate x) (Port x) (ad_Expiry (base x));
ad_len _ := IntroLen;
|}.

(** [Decode] checks the remaining length first. *)
Definition Decode : GoM Splice (Ad * option error) :=
s ← get;
match TooShort (Remaining s) (IntroLen - MagicLen) Magic_ with
| Some e => mret (Gen, Some e)
| None =>
    id ← ReadID; key ← ReadPubkey None; introducer ← ReadPubkey None;
    rate ← ReadUint32; port ← ReadUint16;
    expiry ← ReadTime; sig ← ReadSignature;
    mret (MkAd (Ads.MkAd id key expiry sig) introducer port rate, None)
end.

Definition New_ (id : ID) (key : Prv) (introducer : option Pub)
  (relayRate port expires : Z) : Out Ad :=
Ad_Sign key (MkAd (Ads.MkAd id (Some (PubKey key)) expires (arr_zero 64))
               introducer port relayRate).
End Intro.
End Intro.

Module Services.
Section Services.
Context {cr : Crypto} {ma : Multiaddrs}.

Definition Magic_ : string := "svad".

Record Service := MkService { Port : Z; RelayRate : Z }.
Record Ad := MkAd { base : Ads.Ad; Services : list Service }.
Definition Gen : Ad := MkAd Ad_gen [].

Fixpoint splice_services (l : list Service) : GoM Splice unit :=
match l with
| [] => mret tt
| x :: l => (Uint16 (Port x) ;; Uint32 (RelayRate x)) ;; splice_services l
end.

Definition Splice_ (id : ID) (key : option Pub) (services : list Service) (expiry : Z)
  : GoM Splice unit :=
Magic Magic_ ;; ID_ id ;; Pubkey key ;; Uint16 (wrapu 16 (zlen services)) ;;
splice_services services ;; Time expiry.

(** The length counts [ServicesLen] (a whole ad) per service. *)
#[export] Instance adtype : AdType Ad := {|
ad_base := base;
set_base b x := MkAd b (Services x);
SpliceNoSig x := Splice_ (ad_ID (base x)) (ad_Key (base x)) (Services x) (ad_Expiry (base x));
ad_len x := AdLen + zlen (Services x) * ServicesLen + Uint32Len;
|}.

Fixpoint read_services (n : nat) : GoM Splice (list Service) :=
match n with
| O => mret []
| S n => p ← ReadUint16; r ← ReadUint32;
         l ← read_services n; mret (MkService p r :: l)
end.

Definition Decode : GoM Splice Ad :=
id ← ReadID; key ← ReadPubkey None; count ← ReadUint16;
services ← read_services (Z.to_nat count);
expiry ← ReadTime; sig ← ReadSignature;
mret (MkAd (Ads.MkAd id key expiry sig) services).

Definition New_ (id : ID) (key : Prv) (services : list Service) (expiry : Z) : Out Ad :=
Ad_Sign key (MkAd (Ads.MkAd id (Some (PubKey key)) expiry (arr_zero 64)) services).
End Services.
End Services.

Module Addresses.
Section Addresses.
Context {cr : Crypto} {ma : Multiaddrs}.
(** [cfg.GetCurrentDefaultPort()] *)
Context (defaultPort : Z).

Definition Magic_ : string := "adad".

Record Ad := MkAd { base : Ads.Ad; Addresses : list (option Multiaddr) }.
Definition Gen : Ad := MkAd Ad_gen [].

Fixpoint splice_addrs (l : list (option Multiaddr)) : GoM Splice unit :=
match l with
| [] => mret tt
| a :: l => Multiaddr_ a defaultPort ;; splice_addrs l
end.

Definition Splice_ (id : ID) (key : option Pub) (addrs : list (option Multiaddr))
  (expiry : Z) : GoM Splice unit :=
Magic Magic_ ;; ID_ id ;; Pubkey key ;; Uint16 (wrapu 16 (zlen addrs)) ;;
splice_addrs addrs ;; Time expiry.

Definition adtype : AdType Ad := {|
ad_base := base;
set_base b x := MkAd b (Addresses x);
SpliceNoSig x := Splice_ (ad_ID (base x)) (ad_Key (base x)) (Addresses x) (ad_Expiry (base x));
ad_len x := AdLen + Uint16Len + 21 * zlen (Addresses x);
|}.

Fixpoint read_addrs (n : nat) : GoM Splice (list (option Multiaddr)) :=
match n with
| O => mret []
| S n => a ← ReadMultiaddr; l ← read_addrs n; mret (a :: l)
end.

Definition Decode : GoM Splice Ad :=
id ← ReadID; key ← ReadPubkey None; count ← ReadUint16;
addrs ← read_addrs (Z.to_nat count);
expiry ← ReadTime; sig ← ReadSignature;
mret (MkAd (Ads.MkAd id key expiry sig) addrs).

Definition New_ (id : ID) (key : Prv) (addrs : list (option Multiaddr)) (expiry : Z)
  : Out Ad :=
@Ad_Sign _ Ad adtype key
  (MkAd (Ads.MkAd id (Some (PubKey key)) expiry (arr_zero 64)) addrs).
End Addresses.
End Addresses.
