(* ===== verification/AdsFacts.v ===== *)
(** * Advertisements on the wire

    The class [AdWire] is what the gossip layer relies on: the layout of an ad's
    signed part and that its decoder inverts its encoder up to the precision of
    the expiry.  Each of the five ad types is an instance, so signing, encoding,
    recognising, decoding and validating are composed once, for all of them. *)

From S2P Require Export Ads.

Section AdWire.
Context {cr : Crypto} {ma : Multiaddrs}.

(** The expiry after the wire: whole seconds, the rest unchanged. *)
Definition base_wire (a : Ad) : Ad :=
  MkAd (ad_ID a) (ad_Key a) (wire_time (ad_Expiry a)) (ad_Sig a).

Definition key_bytes (k : option Pub) : bytes :=
  match k with Some p => arr_list (SerializeCompressed p) | None => [] end.

Definition base_ok (a : Ad) : Prop :=
  (∃ p, ad_Key a = Some p) ∧ - 2 ^ 63 ≤ Unix (ad_Expiry a) < 2 ^ 63.

Lemma wire_time_unix t : - 2 ^ 63 ≤ Unix t < 2 ^ 63 → Unix (wire_time t) = Unix t.
Proof.
  intros. unfold wire_time, UnixTime. rewrite wraps_small by (simpl; lia).
  unfold Unix at 1. apply Z.div_mul. lia.
Qed.

Class AdWire (A : Type) {T : AdType A} (magic : A → bytes) (ok : A → Prop)
    (fields : A → bytes) (decode : bytes → GoM Splice (A * option error))
    (received : A → A) : Prop := {
  wire_layout :: AdLayout A ok (λ x, magic x ++ fields x);
  wire_magic x : length (magic x) = 4%nat;
  wire_reads x : ok x →
    Reads (decode (magic x)) (fields x ++ arr_list (ad_Sig (ad_base x))) (received x, None);
  wire_ok x : ok x → ok (received x) ∧
    magic (received x) ++ fields (received x) = magic x ++ fields x;
  wire_base x : ad_base (received x) = base_wire (ad_base x);
}.
End AdWire.

Section AdWireFacts.
Context {cr : Crypto} {crl : CryptoLaws} {ma : Multiaddrs}.
Context {A : Type} {T : AdType A} {magic fields : A → bytes} {ok : A → Prop}
  {decode : bytes → GoM Splice (A * option error)} {received : A → A}
  {W : AdWire A magic ok fields decode received}.

(** What a relay does with a gossiped ad: read the magic, decode, validate. *)
Definition receive (now : Z) (msg : bytes) : Out (A * bool) :=
  r ← ReadMagic (NewFrom msg);
  r ← decode r.1 r.2;
  match r.1 with
  | (x, None) => v ← Ad_Validate now x; Ret (x, v)
  | (_, Some _) => Panic PNil
  end.

(** The encoder into a buffer of the ad's length. *)
Definition encoded (x : A) : Out bytes :=
  r ← Ad_Encode x (New (Z.to_nat (ad_len x))); Ret (GetAll r.2).

Lemma Ad_Encode_writes x s :
  ok x → s_c s = 0 → ad_len x ≤ Len s → 
  ∃ s', Ad_Encode x s = Ret (None, s') ∧
    take (length (magic x ++ fields x ++ arr_list (ad_Sig (ad_base x)))) (s_b s')
      = magic x ++ fields x ++ arr_list (ad_Sig (ad_base x)) ∧ Len s' = Len s ∧
    zlen (magic x ++ fields x ++ arr_list (ad_Sig (ad_base x))) ≤ Len s.
Proof.
  intros Hok Hc Hl. destruct (layout_len x Hok) as [L0 L1]. unfold SigLen in L1.
  pose proof (layout_writes (AdLayout := wire_layout) x Hok) as W1.
  assert (Writes (SpliceNoSig x ;; Signature (ad_Sig (ad_base x)))
            ((magic x ++ fields x) ++ arr_list (ad_Sig (ad_base x)))) as W2 by apply _.
  rewrite <- app_assoc in W2. set (bs := magic x ++ fields x ++ _) in *.
  assert (zlen bs ≤ Len s) as HL.
  { unfold bs. rewrite app_assoc, zlen_app, zlen_arr. lia. }
  destruct (W2 s) as (s' & E & B & C & _); [lia|lia|].
  exists s'. unfold Ad_Encode.
  assert ((SpliceNoSig x ;; Signature (ad_Sig (ad_base x)) ;; mret None) s
    = match (SpliceNoSig x ;; Signature (ad_Sig (ad_base x))) s with
      | Ret (_, s) => Ret (None, s) | Panic p => Panic p end) as ->.
  { unfold mbind, GoM_bind. by destruct (SpliceNoSig x s) as [[? ?]|]. }
  rewrite E. split; [done|]. rewrite B, Hc. split_and!; [|unfold Len; rewrite B, zlen_overlay|done].
  - pose proof (window_overlay 0 bs (s_b s)) as Hw. rewrite drop_0 in Hw. apply Hw.
    unfold Len, zlen in *. lia.
  - done.
  - rewrite Hc. unfold Len, zlen in *. simpl. lia.
Qed.

(** The message of an ad holds its image, from the start. *)
Lemma encoded_at x : ok x → ∃ msg, encoded x = Ret msg ∧
  at_cursor (NewFrom msg) (magic x ++ fields x ++ arr_list (ad_Sig (ad_base x))).
Proof.
  intros Hok. destruct (layout_len x Hok) as [L0 _].
  destruct (Ad_Encode_writes x (New (Z.to_nat (ad_len x)))) as (s' & E & B & L & HL);
    [done|done|unfold Len, New, zlen; cbn; rewrite length_replicate; lia|].
  exists (s_b s'). unfold encoded. rewrite E. split; [done|].
  unfold at_cursor, NewFrom, Load, Len. cbn. rewrite drop_0. split_and!; [lia| |exact B].
  unfold Len in L. rewrite L. exact HL.
Qed.

(** A decoded ad is checked against the expiry that travelled. *)
Lemma Validate_received now x : ok x → ∃ b,
  Ad_Validate now (received x) = Ret (b && bool_decide (now < wire_time (ad_Expiry (ad_base x)))) ∧
  ∀ k, ad_Key (ad_base x) = Some k → b = MatchesPubkey (ad_Sig (ad_base x)) (magic x ++ fields x) k.
Proof.
  intros Hok. destruct (wire_ok x Hok) as [Hok2 Hbody].
  unfold Ad_Validate. rewrite (signed_bytes_body _ Hok2). cbn [mbind Out_bind].
  rewrite (wire_base x), Hbody. unfold base_wire. cbn [ad_Key ad_Expiry ad_Sig].
  destruct (layout_key x Hok) as [k E]. rewrite E. eexists. split; [done|]. by intros k' [= ->].
Qed.

Lemma Sign_base prv x x' : ok x → Ad_Sign prv x = Ret x' → ∃ sg, Prv_Sign prv (magic x ++ fields x) = Ret sg ∧
  x' = set_base (with_Sig sg (ad_base x)) x ∧ ok x' ∧ ad_base x' = with_Sig sg (ad_base x) ∧
  magic x' ++ fields x' = magic x ++ fields x.
Proof.
  intros Hok HS. unfold Ad_Sign in HS. rewrite (signed_bytes_body x Hok) in HS. cbn [mbind Out_bind] in HS.
  destruct (Prv_Sign prv _) as [sg|] eqn:ES; [|done]. injection HS as <-. exists sg. split_and!; try done.
  - by apply layout_sig.
  - apply layout_base.
  - apply (layout_body (AdLayout := wire_layout) x sg).
Qed.

Lemma Validate_signed prv now x x' :
  ok x → ad_Key (ad_base x) = Some (PubKey prv) → Ad_Sign prv x = Ret x' →
  Ad_Validate now (received x') = Ret (bool_decide (now < wire_time (ad_Expiry (ad_base x)))).
Proof.
  intros Hok Hk (sg & ES & _ & Hok' & Hb & Hm)%Sign_base; [|done].
  destruct (Validate_received now x' Hok') as (b & -> & HB). rewrite Hb in *. cbn in HB |- *.
  rewrite (HB (PubKey prv)), Hm by done. by rewrite (Sign_Verify _ _ _ ES).
Qed.

(** A signed ad, encoded, received and decoded, carries the same content (its
    expiry in whole seconds) and is valid at the receiver exactly until that
    expiry. *)
Lemma gossip_ok prv now x x' :
  ok x → ad_Key (ad_base x) = Some (PubKey prv) → Ad_Sign prv x = Ret x' →
  ∃ msg, encoded x' = Ret msg ∧
    receive now msg = Ret (received x',
      bool_decide (now < wire_time (ad_Expiry (ad_base x)))).
Proof.
  intros Hok Hk HS. destruct (Sign_base prv x x' Hok HS) as (sg & _ & _ & Hok' & _).
  destruct (encoded_at x' Hok') as (msg & E & AC). exists msg. split; [done|].
  assert (Reads (m ← ReadMagic; decode m)
            (magic x' ++ fields x' ++ arr_list (ad_Sig (ad_base x'))) (received x', None)) as HR.
  { eapply reads_bind; [apply reads_Magic, wire_magic|by apply wire_reads]. }
  destruct (HR _ AC eq_refl) as (s2 & E2 & _). unfold receive. unfold mbind, GoM_bind in E2.
  destruct (ReadMagic _) as [[m s1]|] eqn:E1; [|done]. cbn [mbind Out_bind fst snd]. rewrite E2.
  cbn [mbind Out_bind fst]. by rewrite (Validate_signed prv now x x').
Qed.
End AdWireFacts.

(** ** The five ads *)

Section Instances.
Context {cr : Crypto} {crl : CryptoLaws} {ma : Multiaddrs}.

Definition common_bytes (a : Ad) : bytes := arr_list (ad_ID a) ++ key_bytes (ad_Key a).
Definition expiry_bytes (a : Ad) : bytes := le_put 8 (Unix (ad_Expiry a)).

Lemma zlen_common a p : ad_Key a = Some p → zlen (common_bytes a) = 41.
Proof. intros E. unfold common_bytes, key_bytes. rewrite E, zlen_app, !zlen_arr. lia. Qed.

Lemma expiry_wire a : base_ok a → expiry_bytes (base_wire a) = expiry_bytes a.
Proof. intros [_ ?]. unfold expiry_bytes. cbn. by rewrite wire_time_unix. Qed.

Lemma base_wire_ok a : base_ok a → base_ok (base_wire a).
Proof. intros [? ?]. split; [done|]. cbn. by rewrite wire_time_unix. Qed.

(** The decoders that never fail, in the common form. *)
Definition always {A} (d : GoM Splice A) : bytes → GoM Splice (A * option error) :=
  λ _, x ← d; mret (x, None).

Lemma reads_always {A} (d : GoM Splice A) m bs v : Reads d bs v → Reads (always d m) bs (v, None).
Proof.
  intros. unfold always. eapply reads_bytes;
    [eapply reads_bind; [done|apply reads_ret]|by rewrite app_nil_r].
Qed.
End Instances.

Lemma zlen_1 {A} (x : A) : zlen [x] = 1.
Proof. done. Qed.
Lemma zlen_magic4 m : length (string_bytes m) = 4%nat → zlen (string_bytes m) = 4.
Proof. unfold zlen. lia. Qed.

(** Steps shared by the instances: expose the record and its writer or reader,
    let the instance search lay the fields out, compare the byte strings. *)
Ltac ad_open :=
  cbn [SpliceNoSig ad_base set_base ad_len ad_ID ad_Key ad_Expiry ad_Sig base_wire with_Sig
       Load.adtype Load.base Load.Load Peer.adtype Peer.base Peer.RelayRate
       Intro.adtype Intro.base Intro.Introducer Intro.Port Intro.RelayRate
       Services.adtype Services.base Services.Services
       Addresses.adtype Addresses.base Addresses.Addresses key_bytes] in *.
Ltac ad_bytes := unfold common_bytes, expiry_bytes; ad_open;
  rewrite <- ?app_assoc, ?app_nil_r; try reflexivity.
Ltac ad_lens :=
  rewrite ?zlen_app, ?zlen_arr, ?zlen_le_put, ?zlen_1;
  unfold LoadLen, PeerLen, IntroLen, ServicesLen, AdLen, MagicLen, IDLen, PubKeyLen,
    Uint16Len, Uint32Len, Uint64Len, SigLen in *; try lia.
(** A decoder's reads, field by field, end with [mret], which reads nothing. *)
Ltac ad_reads :=
  ad_bytes; match goal with |- Reads ?r ?bs ?v => rewrite <- (app_nil_r bs) end;
  rewrite <- ?app_assoc; eapply reads_val; [apply _|reflexivity].

Module LoadWire.
Section LoadWire.
Context {cr : Crypto} {crl : CryptoLaws} {ma : Multiaddrs}.
Definition ok (x : Load.Ad) : Prop := base_ok (Load.base x).
Definition fields (x : Load.Ad) : bytes :=
common_bytes (Load.base x) ++ [Load.Load x] ++ expiry_bytes (Load.base x).
Definition received (x : Load.Ad) : Load.Ad :=
Load.MkAd (base_wire (Load.base x)) (Load.Load x).
#[export] Instance wire :
AdWire Load.Ad (T := Load.adtype) (λ _, string_bytes Load.Magic_) ok fields
  (always Load.Decode) received.
Proof.
split; [split| | | |]; try done; try (intros ? ? H; exact H); intros [[id k e sg] l] [[p E] He]; ad_open; subst k;
  unfold fields, received; ad_open; try (match goal with |- is_Some _ => by eexists end).
- unfold Load.Splice_. eapply writes_eq; [apply _|]. ad_bytes.
- ad_bytes. rewrite zlen_app, zlen_magic4 by done. ad_lens.
- apply reads_always. unfold Load.Decode.
  ad_reads.
- split; [apply base_wire_ok; by split; [eexists|]|].
  unfold expiry_bytes. cbn. by rewrite wire_time_unix.
Qed.
End LoadWire.
End LoadWire.

Module PeerWire.
Section PeerWire.
Context {cr : Crypto} {crl : CryptoLaws} {ma : Multiaddrs}.
Definition ok (x : Peer.Ad) : Prop := base_ok (Peer.base x).
Definition fields (x : Peer.Ad) : bytes :=
common_bytes (Peer.base x) ++ le_put 4 (Peer.RelayRate x) ++ expiry_bytes (Peer.base x).
Definition received (x : Peer.Ad) : Peer.Ad :=
Peer.MkAd (base_wire (Peer.base x)) (wrapu 32 (Peer.RelayRate x)).
#[export] Instance wire :
AdWire Peer.Ad (T := Peer.adtype) (λ _, string_bytes Peer.Magic_) ok fields
  (always Peer.Decode) received.
Proof.
split; [split| | | |]; try done; try (intros ? ? H; exact H); intros [[id k e sg] l] [[p E] He]; ad_open; subst k;
  unfold fields, received; ad_open; try (match goal with |- is_Some _ => by eexists end).
- unfold Peer.Splice_. eapply writes_eq; [apply _|]. ad_bytes.
- ad_bytes. rewrite zlen_app, zlen_magic4 by done. ad_lens.
- apply reads_always. unfold Peer.Decode.
  ad_reads.
- split; [apply base_wire_ok; by split; [eexists|]|].
  rewrite (le_put_wrapu 4 32) by done.
  unfold expiry_bytes. cbn -[le_put]. by rewrite wire_time_unix.
Qed.
End PeerWire.
End PeerWire.

Module IntroWire.
Section IntroWire.
Context {cr : Crypto} {crl : CryptoLaws} {ma : Multiaddrs}.
Definition ok (x : Intro.Ad) : Prop :=
base_ok (Intro.base x) ∧ ∃ q, Intro.Introducer x = Some q.
Definition fields (x : Intro.Ad) : bytes :=
common_bytes (Intro.base x) ++ key_bytes (Intro.Introducer x) ++
le_put 4 (Intro.RelayRate x) ++ le_put 2 (Intro.Port x) ++ expiry_bytes (Intro.base x).
Definition received (x : Intro.Ad) : Intro.Ad :=
Intro.MkAd (base_wire (Intro.base x)) (Intro.Introducer x) (wrapu 16 (Intro.Port x))
  (wrapu 32 (Intro.RelayRate x)).

(** A decoder that checks the remaining length first. *)
Lemma reads_checked {A} need (m : string) (gen : A) (d : GoM Splice (A * option error)) bs v :
need ≤ zlen bs → Reads d bs v →
Reads (s ← get; match TooShort (Remaining s) need m with
       | Some e => mret (gen, Some e)
       | None => d
       end) bs v.
Proof.
intros Hn R s AC HE. pose proof AC as (H0 & H1 & _).
unfold get, mbind, GoM_bind. unfold TooShort, Remaining, GetCursor, Len in *.
rewrite bool_decide_true by lia. by apply R.
Qed.

#[export] Instance wire :
AdWire Intro.Ad (T := Intro.adtype) (λ _, string_bytes Intro.Magic_) ok fields
  (λ _, Intro.Decode) received.
Proof.
split; [split| | | |]; try done; try (intros ? ? H; exact H);
  intros [[id k e sg] i po ra] [[[p E] He] [q F]]; ad_open; subst k i;
  unfold fields, received; ad_open; try (match goal with |- is_Some _ => by eexists end).
- unfold Intro.Splice_. eapply writes_eq; [apply _|]. ad_bytes.
- ad_bytes. rewrite zlen_app, zlen_magic4 by done. ad_lens.
- apply reads_checked; [ad_bytes; ad_lens|]. ad_reads.
- split; [split; [apply base_wire_ok; by split; [eexists|]|by eexists]|].
  rewrite (le_put_wrapu 4 32), (le_put_wrapu 2 16) by done.
  unfold expiry_bytes. cbn -[le_put]. by rewrite wire_time_unix.
Qed.
End IntroWire.
End IntroWire.

Module ServicesWire.
Section ServicesWire.
Context {cr : Crypto} {crl : CryptoLaws} {ma : Multiaddrs}.
Definition ok (x : Services.Ad) : Prop :=
base_ok (Services.base x) ∧ zlen (Services.Services x) < 2 ^ 16.
Definition service_bytes (v : Services.Service) : bytes :=
le_put 2 (Services.Port v) ++ le_put 4 (Services.RelayRate v).
Definition service_wire (v : Services.Service) : Services.Service :=
Services.MkService (wrapu 16 (Services.Port v)) (wrapu 32 (Services.RelayRate v)).
Definition fields (x : Services.Ad) : bytes :=
common_bytes (Services.base x) ++ le_put 2 (zlen (Services.Services x)) ++
concat (service_bytes <$> Services.Services x) ++ expiry_bytes (Services.base x).
Definition received (x : Services.Ad) : Services.Ad :=
Services.MkAd (base_wire (Services.base x)) (service_wire <$> Services.Services x).

#[export] Instance writes_services l :
Writes (Services.splice_services l) (concat (service_bytes <$> l)).
Proof. induction l; cbn [Services.splice_services fmap list_fmap concat]; apply _. Qed.

#[export] Instance reads_services l :
Reads (Services.read_services (length l)) (concat (service_bytes <$> l)) (service_wire <$> l).
Proof.
induction l as [|v l IH]; cbn [Services.read_services length fmap list_fmap concat];
  [apply _|]. rewrite <- (app_nil_r (_ ++ concat _)). unfold service_bytes at 1.
rewrite <- !app_assoc. eapply reads_val; [apply _|reflexivity].
Qed.

Lemma service_bytes_wire v : service_bytes (service_wire v) = service_bytes v.
Proof.
unfold service_bytes, service_wire. cbn [Services.Port Services.RelayRate].
by rewrite (le_put_wrapu 2 16), (le_put_wrapu 4 32).
Qed.

Lemma zlen_services l : zlen (concat (service_bytes <$> l)) = 6 * zlen l.
Proof.
induction l as [|v l IH]; [done|]. cbn [fmap list_fmap concat]. rewrite zlen_app.
unfold service_bytes at 1. rewrite zlen_app, !zlen_le_put.
change (fmap service_bytes l) with (service_bytes <$> l) in *. rewrite IH.
unfold zlen. simpl. lia.
Qed.

#[export] Instance wire :
AdWire Services.Ad (T := Services.adtype) (λ _, string_bytes Services.Magic_) ok fields
  (always Services.Decode) received.
Proof.
split; [split| | | |]; try done; try (intros ? ? H; exact H);
  intros [[id k e sg] l] [[[p E] He] Hl]; ad_open; subst k;
  pose proof (zlen_nonneg l); unfold fields, received; ad_open; try (match goal with |- is_Some _ => by eexists end).
- unfold Services.Splice_. unfold wrapu. rewrite Z.mod_small by lia.
  eapply writes_eq; [apply _|]. ad_bytes.
- ad_bytes. rewrite zlen_app, zlen_magic4 by done.
  rewrite ?zlen_app, ?zlen_arr, ?zlen_le_put, zlen_services. ad_lens.
- apply reads_always. unfold Services.Decode. ad_bytes.
  rewrite <- (app_nil_r (arr_list sg)).
  eapply reads_bind; [apply _|]. eapply reads_bind; [apply _|].
  eapply reads_bind; [apply _|]. unfold wrapu. rewrite Z.mod_small by lia.
  unfold zlen. rewrite Nat2Z.id. eapply reads_val; [apply _|reflexivity].
- split.
  { split; [apply base_wire_ok; by split; [eexists|]|]. cbn. unfold zlen in *.
    by rewrite length_fmap. }
  rewrite <- list_fmap_compose.
  rewrite (list_fmap_ext (service_bytes ∘ service_wire) service_bytes)
    by (intros; apply service_bytes_wire).
  unfold zlen. rewrite length_fmap. unfold expiry_bytes. cbn -[le_put].
  by rewrite wire_time_unix.
Qed.
End ServicesWire.
End ServicesWire.

Module AddressesWire.
Section AddressesWire.
Context {cr : Crypto} {crl : CryptoLaws} {ma : Multiaddrs} {mal : MultiaddrLaws}.
Context (defaultPort : Z).

(** An address in the form [AddrToBytes] reduces it to, at most 20 bytes long. *)
Definition canonical (a : option Multiaddr) : Prop :=
∃ m, a = Some m ∧ AddrToBytes a defaultPort = Ret (MarshalBinary m, None) ∧
     zlen (MarshalBinary m) ≤ 20.
Definition addr_bytes (a : option Multiaddr) : bytes :=
match a with Some m => multiaddr_field (MarshalBinary m) | None => [] end.

(** What any address is reduced to, and what the receiver has of it. *)
Definition reduces (a : option Multiaddr) (m : Multiaddr) : Prop :=
AddrToBytes a defaultPort = Ret (MarshalBinary m, None) ∧ canonical (Some m).
Definition reduced (a : option Multiaddr) : option Multiaddr :=
match AddrToBytes a defaultPort with Ret (b, None) => NewMultiaddrBytes b | _ => None end.

Lemma reduces_reduced a m : reduces a m → reduced a = Some m.
Proof. intros [E _]. unfold reduced. rewrite E. apply multiaddr_bytes. Qed.

Lemma canonical_reduces m : canonical (Some m) → reduces (Some m) m.
Proof. intros (m' & [= <-] & E & Hl). split; [done|]. by exists m. Qed.

Definition reducible (l : list (option Multiaddr)) : Prop := Forall (λ a, ∃ m, reduces a m) l.

Lemma reduced_canonical l : reducible l → Forall canonical (reduced <$> l).
Proof.
induction 1 as [|a l (m & H) _ IH]; [constructor|]. cbn. rewrite (reduces_reduced a m H).
constructor; [apply H|done].
Qed.

Lemma canonical_reduced l : Forall canonical l → reducible l ∧ reduced <$> l = l.
Proof.
induction 1 as [|a l (m & -> & H) _ [IH1 IH2]]; [by split; [constructor|]|].
assert (reduces (Some m) m) as Hr by (apply canonical_reduces; by exists m).
split; [constructor; [by exists m|done]|]. cbn. by rewrite (reduces_reduced _ _ Hr), IH2.
Qed.

Definition ok (x : Addresses.Ad) : Prop :=
base_ok (Addresses.base x) ∧ zlen (Addresses.Addresses x) < 2 ^ 16 ∧
reducible (Addresses.Addresses x).
Definition fields (x : Addresses.Ad) : bytes :=
common_bytes (Addresses.base x) ++ le_put 2 (zlen (Addresses.Addresses x)) ++
concat (addr_bytes <$> (reduced <$> Addresses.Addresses x)) ++ expiry_bytes (Addresses.base x).
Definition received (x : Addresses.Ad) : Addresses.Ad :=
Addresses.MkAd (base_wire (Addresses.base x)) (reduced <$> Addresses.Addresses x).

Lemma writes_addrs l : reducible l →
Writes (Addresses.splice_addrs defaultPort l) (concat (addr_bytes <$> (reduced <$> l))).
Proof.
induction 1 as [|a l (m & H) _ IH]; cbn [Addresses.splice_addrs fmap list_fmap concat]; [apply _|].
rewrite (reduces_reduced a m H). destruct H as [E (m' & [= <-] & _ & Hb)]. destruct a as [a|]; [|done].
cbn [addr_bytes]. eapply writes_bind; [by apply writes_Multiaddr|done].
Qed.

Lemma reads_addrs l : Forall canonical l →
Reads (Addresses.read_addrs (length l)) (concat (addr_bytes <$> l)) l.
Proof.
induction 1 as [|a l (m & -> & E & Hb) _ IH];
  cbn [Addresses.read_addrs length fmap list_fmap concat addr_bytes]; [apply _|].
eapply reads_bind; [by apply reads_Multiaddr|]. rewrite multiaddr_bytes.
rewrite <- (app_nil_r (concat _)). eapply reads_bind; [done|apply _].
Qed.

Lemma zlen_addrs l : Forall canonical l → zlen (concat (addr_bytes <$> l)) = 21 * zlen l.
Proof.
induction 1 as [|a l (m & -> & E & Hb) _ IH]; [done|].
cbn [fmap list_fmap concat addr_bytes]. rewrite zlen_app, zlen_multiaddr_field by done.
change (fmap addr_bytes l) with (addr_bytes <$> l) in *. rewrite IH.
unfold zlen. simpl. lia.
Qed.

#[export] Instance wire :
AdWire Addresses.Ad (T := Addresses.adtype defaultPort)
  (λ _, string_bytes Addresses.Magic_) ok fields (always Addresses.Decode) received.
Proof.
split; [split| | | |]; try done; try (intros ? ? H; exact H);
  intros [[id k e sg] l] ([[p E] He] & Hl & Hc); ad_open; subst k;
  pose proof (zlen_nonneg l); unfold fields, received; ad_open;
  pose proof (reduced_canonical l Hc) as HR; try (match goal with |- is_Some _ => by eexists end).
- unfold Addresses.Splice_. unfold wrapu. rewrite Z.mod_small by lia.
  pose proof (writes_addrs l Hc). eapply writes_eq; [apply _|]. ad_bytes.
- ad_bytes. rewrite zlen_app, zlen_magic4 by done.
  rewrite ?zlen_app, ?zlen_arr, ?zlen_le_put, zlen_addrs by done.
  replace (zlen (reduced <$> l)) with (zlen l) by (unfold zlen; by rewrite length_fmap). ad_lens.
- apply reads_always. unfold Addresses.Decode. ad_bytes.
  rewrite <- (app_nil_r (arr_list sg)). pose proof (reads_addrs _ HR) as HA. rewrite length_fmap in HA.
  eapply reads_bind; [apply _|]. eapply reads_bind; [apply _|].
  eapply reads_bind; [apply _|]. unfold wrapu. rewrite Z.mod_small by lia.
  unfold zlen. rewrite Nat2Z.id. eapply reads_val; [apply _|reflexivity].
- destruct (canonical_reduced _ HR) as [Hc' Hre].
  assert (zlen (reduced <$> l) = zlen l) as Hz by (unfold zlen; by rewrite length_fmap).
  split; [split; [apply base_wire_ok; by split; [eexists|]|]; cbn [Addresses.Addresses]; by rewrite Hz|].
  unfold expiry_bytes. cbn -[le_put]. rewrite wire_time_unix by done.
  change (fmap reduced (fmap reduced l)) with (reduced <$> (reduced <$> l)). rewrite Hre.
  change (fmap reduced l) with (reduced <$> l). by rewrite Hz.
Qed.
End AddressesWire.
End AddressesWire.
