(* ===== verification/Onion.v ===== *)
(** * Onion messages

    Models [pkg/codec/onion], [pkg/codec/ont], [pkg/codec/interfaces.go] and
    [pkg/engine/consts]: the data of every onion layer, its [Encode], [Decode],
    [Len], [Wrap], [Unwrap] and constructor, and the routing header helpers of
    [pkg/hidden].  A layer's encoder takes the encoder of what is inside it; the
    recursive [Encode] ties the knot.  The blinding factors [rand.Read] delivers
    to the cloaks of successive layers are a stream [nat → Blinder]. *)

From S2P Require Export AdsFacts.

(** [pkg/engine/consts] *)
Definition CryptLen : Z := MagicLen + IVLen + CloakLen + PubKeyLen.
Definition ReverseLen : Z := MagicLen + 1 + AddrLen.
Definition ReverseCryptLen : Z := ReverseLen + CryptLen.
Definition RoutingHeaderLen : Z := 3 * ReverseCryptLen.

(** Fixed lengths of the messages, magic included. *)
Definition SessionLen : Z := MagicLen + IDLen + PrvKeyLen * 2.
Definition ExitLen : Z :=
  MagicLen + Uint16Len + 3 * Sha256Len + Uint32Len + IVLen * 3 + IDLen.
Definition GetBalanceLen : Z := MagicLen + IDLen + 3 * Sha256Len + IVLen * 3.
Definition IntroQueryLen : Z := MagicLen + IDLen + PubKeyLen + 3 * Sha256Len + IVLen * 3.
Definition HiddenServiceLen : Z :=
  MagicLen + IntroLen + 3 * Sha256Len + IVLen * 3 + RoutingHeaderLen.
Definition RouteLen : Z :=
  MagicLen + CloakLen + PubKeyLen + IVLen + IDLen + 3 * Sha256Len + 3 * IVLen.
Definition BalanceLen : Z := MagicLen + IDLen + Uint64Len.
Definition ConfirmationLen : Z := MagicLen + IDLen.
Definition ResponseLen : Z := MagicLen + Uint32Len + Uint16Len + IDLen + 1.
Definition ReadyLen : Z :=
  MagicLen + IDLen + PubKeyLen + 2 * RoutingHeaderLen + 3 * Sha256Len + 3 * IVLen.
Definition ReplyCiphersLen : Z := 2 * RoutingHeaderLen + 6 * Sha256Len + 6 * IVLen.
Definition MessageLen : Z := MagicLen + 2 * IDLen + 2 * RoutingHeaderLen + ReplyCiphersLen.
Definition DelayLen : Z := MagicLen + Uint64Len.

(** The magics. *)
Definition EndMagic : string := "!!!!".
Definition CryptMagic : string := "cryp".
Definition ForwardMagic : string := "forw".
Definition ReverseMagic : string := "rvrs".
Definition SessionMagic : string := "sess".
Definition ExitMagic : string := "exit".
Definition GetBalanceMagic : string := "getb".
Definition IntroQueryMagic : string := "intq".
Definition HiddenServiceMagic : string := "hids".
Definition RouteMagic : string := "rout".
Definition BalanceMagic : string := "bala".
Definition ConfirmationMagic : string := "conf".
Definition ResponseMagic : string := "resp".
Definition ReadyMagic : string := "redy".
Definition MessageMagic : string := "whis".
Definition DelayMagic : string := "dely".

Abbreviation RoutingHeaderBytes := (arr 252).

(** Apply a buffer operation in place. *)
Definition modify (f : Splice → Out Splice) : GoM Splice unit := λ s,
  s' ← f s; Ret (tt, s').

Section Headers.
Context {cr : Crypto}.

(** Encipher everything from [p] on with each cipher in turn. *)
Fixpoint encipher_layers (l : list (Hash * IV)) (p : Z) : GoM Splice unit :=
match l with
| [] => mret tt
| (h, iv) :: l => modify (encipher_from (BlockFromHash h) iv p) ;; encipher_layers l p
end.

Definition layers_of (c : Ciphers) (n : Nonces) : list (Hash * IV) := zip (to3 c) (to3 n).

(** ** Routing headers ([pkg/hidden]) *)

Record ReplyHeader := MkReplyHeader {
rh_bytes : RoutingHeaderBytes;
rh_Ciphers : Ciphers;
rh_Nonces : Nonces;
}.

Definition three_zero {n} : three (arr n) := (arr_zero n, arr_zero n, arr_zero n).
Definition ReplyHeader_zero : ReplyHeader :=
MkReplyHeader (arr_zero 252) three_zero three_zero.

(** The cursor is taken before [Advance] moves it. *)
Definition GetRoutingHeaderFromCursor : GoM Splice RoutingHeaderBytes :=
s0 ← get;
en ← Advance RoutingHeaderLen (Lit "routing header");
s ← get;
w ← lift (GetRange (GetCursor s0) en s);
mret (arr_of 252 w).

Definition ReadRoutingHeader : GoM Splice RoutingHeaderBytes :=
b ← GetRoutingHeaderFromCursor; seg (Lit "routingheader") ;; mret b.

Definition WriteRoutingHeader (b : RoutingHeaderBytes) : GoM Splice unit :=
s0 ← get;
en ← Advance RoutingHeaderLen (Lit "routing header");
modify (λ s, l ← gocopy (s_b s) (GetCursor s0) en (arr_list b); Ret (with_b l s)) ;;
seg (Lit "routingheader").

(** [FormatReply]: the header in the clear, the response under three ciphers. *)
Definition FormatReply (header : RoutingHeaderBytes) (ciphers : Ciphers) (nonces : Nonces)
  (res : bytes) : Out Splice :=
let rl := RoutingHeaderLen in
let rb := New (Z.to_nat (rl + zlen res)) in
b ← gocopy (s_b rb) 0 rl (arr_list header);
b ← gocopy b rl (zlen b) res;
r ← encipher_layers (layers_of ciphers nonces) rl (with_b b rb);
Ret r.2.
End Headers.

(** ** Data *)

Section Data.
Context {cr : Crypto} {ma : Multiaddrs}.

Record CryptR := MkCrypt {
  Depth : Z;
  ToHeaderPub : option Pub;
  ToPayloadPub : option Pub;
  From : option Prv;
  Crypt_IV : IV;
  Crypt_Cloak : CloakedPubKey;
  ToPriv : option Prv;
  FromPub : option Pub;
}.

Record SessionR := MkSession {
  Session_ID : ID; Hop : byte; Header : option Keys; Payload : option Keys }.

Record ExitR := MkExit {
  Exit_ID : ID; Exit_Ciphers : Ciphers; Exit_Nonces : Nonces;
  Exit_Port : Z; Exit_Bytes : bytes }.

Record GetBalanceR := MkGetBalance {
  GetBalance_ID : ID; GetBalance_Ciphers : Ciphers; GetBalance_Nonces : Nonces }.

Record IntroQueryR := MkIntroQuery {
  IntroQuery_ID : ID; IntroQuery_Ciphers : Ciphers; IntroQuery_Nonces : Nonces;
  IntroQuery_Key : option Pub }.

Record HiddenServiceR := MkHiddenService {
  HS_Intro : Intro.Ad; HS_Ciphers : Ciphers; HS_Nonces : Nonces;
  HS_Header : RoutingHeaderBytes }.

Record RouteR := MkRoute {
  Route_HiddenService : option Pub; HiddenCloaked : CloakedPubKey;
  Sender : option Prv; SenderPub : option Pub; Route_IV : IV;
  Route_ID : ID; Route_Ciphers : Ciphers; Route_Nonces : Nonces;
  Route_Header : RoutingHeaderBytes }.

Record ResponseR := MkResponse {
  Response_ID : ID; Response_Port : Z; Response_Load : byte; Response_Bytes : bytes }.

Record ReadyR := MkReady {
  Ready_ID : ID; Ready_Address : option Pub;
  Ready_Forward : option ReplyHeader; Ready_Return : option ReplyHeader }.

(** [whisper.Message]; its [Forwards] are session pointers, used by the
    construction of the message only. *)
Record MessageR := MkMessage {
  Message_Address : option Pub; Message_ID : ID; Message_Re : ID;
  Message_Forward : option ReplyHeader; Message_Return : option ReplyHeader;
  Message_Payload : bytes }.

(** [ont.Onion]: [ONil] is the nil interface. *)
Inductive Onion :=
| ONil
| OEnd
| OCrypt (x : CryptR) (inner : Onion)
| OForward (addr : option Multiaddr) (inner : Onion)
| OReverse (addr : option Multiaddr) (inner : Onion)
| OSession (x : SessionR) (inner : Onion)
| OExit (x : ExitR) (inner : Onion)
| OGetBalance (x : GetBalanceR) (inner : Onion)
| OIntroQuery (x : IntroQueryR) (inner : Onion)
| OHiddenService (x : HiddenServiceR) (inner : Onion)
| ORoute (x : RouteR) (inner : Onion)
| OBalance (id : ID) (msat : Z)
| OConfirmation (id : ID)
| OResponse (x : ResponseR)
| OReady (x : ReadyR)
| OMessage (x : MessageR)
| ODelay (d : Z) (inner : Onion).

(** [Magic()] of each type; the method of a nil interface cannot be called. *)
Definition magic_of (o : Onion) : Out string :=
  match o with
  | ONil => Panic PNil
  | OEnd => Ret EndMagic
  | OCrypt _ _ => Ret CryptMagic
  | OForward _ _ => Ret ForwardMagic
  | OReverse _ _ => Ret ReverseMagic
  | OSession _ _ => Ret SessionMagic
  | OExit _ _ => Ret ExitMagic
  | OGetBalance _ _ => Ret GetBalanceMagic
  | OIntroQuery _ _ => Ret IntroQueryMagic
  | OHiddenService _ _ => Ret HiddenServiceMagic
  | ORoute _ _ => Ret RouteMagic
  | OBalance _ _ => Ret BalanceMagic
  | OConfirmation _ => Ret ConfirmationMagic
  | OResponse _ => Ret ResponseMagic
  | OReady _ => Ret ReadyMagic
  | OMessage _ => Ret MessageMagic
  | ODelay _ _ => Ret DelayMagic
  end.
End Data.

(** ** Encoders *)

Section Encoders.
Context {cr : Crypto} {ma : Multiaddrs}.
(** [cfg.GetCurrentDefaultPort()] *)
Context (defaultPort : Z).

Abbreviation Encoder := (GoM Splice (option error)).

(** [Crypt.Encode]: header, inner layers, then everything up to [end] under the
    header key and everything after it under the payload key.  The trace line
    serializes [From], which cannot be nil. *)
Definition Crypt_Encode (bl : Blinder) (x : CryptR) (inner : option Encoder) : Encoder :=
  match From x with
  | None => panicM PNil
  | Some from =>
      match ToHeaderPub x with
      | None => _ ← Advance CryptLen (Lit "crypt"); mret None
      | Some to =>
          Magic CryptMagic ;; IV_ (Crypt_IV x) ;; Cloak_ (Some to) bl ;;
          Pubkey (DerivePub (Some from)) ;;
          s ← get;
          let start := GetCursor s in
          en ← (if bool_decide (Depth x = 0) then mret (Len s)
                else if bool_decide (0 < Depth x)
                then mret (start + (Depth x - 1) * ReverseCryptLen)
                else panicM (PMsg "incorrect value for crypt sequence"));
          e ← match inner with Some m => m | None => mret None end;
          match e with
          | Some _ => mret e
          | None =>
              modify (encipher_range (GetBlock from to) (Crypt_IV x) start en) ;;
              if bool_decide (en = Len s) then mret None
              else match ToPayloadPub x with
                   | None => panicM PNil
                   | Some pld =>
                       modify (encipher_from (GetBlock from pld) (Crypt_IV x) en) ;; mret None
                   end
          end
      end
  end.

(** The trace line renders the address. *)
Definition Forward_Encode (addr : option Multiaddr) (inner : Encoder) : Encoder :=
  match addr with
  | None => panicM PNil
  | Some _ => Magic ForwardMagic ;; Multiaddr_ addr defaultPort ;; inner
  end.

Definition Reverse_Encode (addr : option Multiaddr) (inner : option Encoder) : Encoder :=
  match addr with
  | None => _ ← Advance ReverseLen (Lit "reverse"); mret tt
  | Some _ => Magic ReverseMagic ;; Multiaddr_ addr defaultPort
  end ;;
  match inner with Some m => m | None => mret None end.

Definition Session_Encode (x : SessionR) (inner : Encoder) : Encoder :=
  match Header x, Payload x with
  | Some h, Some p =>
      Magic SessionMagic ;; ID_ (Session_ID x) ;; Prvkey (Keys_Prv h) ;;
      Prvkey (Keys_Prv p) ;; inner
  | _, _ => panicM PNil
  end.

Definition Exit_Encode (x : ExitR) (inner : Encoder) : Encoder :=
  Magic ExitMagic ;; ID_ (Exit_ID x) ;; Ciphers_ (Exit_Ciphers x) ;;
  Nonces_ (Exit_Nonces x) ;; Uint16 (Exit_Port x) ;; Bytes (Exit_Bytes x) ;; inner.

Definition GetBalance_Encode (x : GetBalanceR) (inner : Encoder) : Encoder :=
  Magic GetBalanceMagic ;; ID_ (GetBalance_ID x) ;; Ciphers_ (GetBalance_Ciphers x) ;;
  Nonces_ (GetBalance_Nonces x) ;; inner.

Definition IntroQuery_Encode (x : IntroQueryR) (inner : Encoder) : Encoder :=
  Magic IntroQueryMagic ;; ID_ (IntroQuery_ID x) ;; Ciphers_ (IntroQuery_Ciphers x) ;;
  Nonces_ (IntroQuery_Nonces x) ;; Pubkey (IntroQuery_Key x) ;; inner.

Definition HiddenService_Encode (x : HiddenServiceR) (inner : Encoder) : Encoder :=
  Magic HiddenServiceMagic ;;
  e ← @Ad_Encode _ _ Intro.adtype (HS_Intro x);
  match e with
  | Some _ => mret e
  | None => Ciphers_ (HS_Ciphers x) ;; Nonces_ (HS_Nonces x) ;; inner
  end.

(** [Route.Encode]: what follows the IV is encrypted to the hidden service. *)
Definition Route_Encode (bl : Blinder) (x : RouteR) (inner : Encoder) : Encoder :=
  Magic RouteMagic ;; Cloak_ (Route_HiddenService x) bl ;;
  Pubkey (DerivePub (Sender x)) ;; IV_ (Route_IV x) ;;
  s ← get;
  let start := GetCursor s in
  ID_ (Route_ID x) ;; Ciphers_ (Route_Ciphers x) ;; Nonces_ (Route_Nonces x) ;;
  e ← inner;
  match e with
  | Some _ => mret e
  | None =>
      match Sender x, Route_HiddenService x with
      | Some k, Some p =>
          modify (encipher_from (GetBlock k p) (Route_IV x) start) ;; mret None
      | _, _ => panicM PNil
      end
  end.

Definition Balance_Encode (id : ID) (msat : Z) : Encoder :=
  Magic BalanceMagic ;; ID_ id ;; Uint64 msat ;; mret None.

Definition Confirmation_Encode (id : ID) : Encoder :=
  Magic ConfirmationMagic ;; ID_ id ;; mret None.

Definition Response_Encode (x : ResponseR) : Encoder :=
  Magic ResponseMagic ;; ID_ (Response_ID x) ;; Uint16 (Response_Port x) ;;
  Byte (Response_Load x) ;; Bytes (Response_Bytes x) ;; mret None.

(** [Ready] and [Message] lead with the forward routing header in the clear and
    encrypt the rest for the three hops of that header. *)
Definition Ready_Encode (x : ReadyR) : Encoder :=
  match Ready_Forward x, Ready_Return x with
  | Some fwd, Some ret =>
      WriteRoutingHeader (rh_bytes fwd) ;;
      s ← get;
      let start := GetCursor s in
      Magic ReadyMagic ;; ID_ (Ready_ID x) ;; Pubkey (Ready_Address x) ;;
      WriteRoutingHeader (rh_bytes ret) ;; Ciphers_ (rh_Ciphers ret) ;;
      Nonces_ (rh_Nonces ret) ;;
      encipher_layers (layers_of (rh_Ciphers fwd) (rh_Nonces fwd)) start ;; mret None
  | _, _ => panicM PNil
  end.

Definition Message_Encode (x : MessageR) : Encoder :=
  match Message_Forward x, Message_Return x with
  | Some fwd, Some ret =>
      WriteRoutingHeader (rh_bytes fwd) ;;
      s ← get;
      let start := GetCursor s in
      Magic MessageMagic ;; Pubkey (Message_Address x) ;; ID_ (Message_ID x) ;;
      ID_ (Message_Re x) ;;
      WriteRoutingHeader (rh_bytes ret) ;; Ciphers_ (rh_Ciphers ret) ;;
      Nonces_ (rh_Nonces ret) ;; Bytes (Message_Payload x) ;;
      encipher_layers (layers_of (rh_Ciphers fwd) (rh_Nonces fwd)) start ;; mret None
  | _, _ => panicM PNil
  end.

Definition Delay_Encode (d : Z) (inner : option Encoder) : Encoder :=
  Magic DelayMagic ;; Uint64 (wrapu 64 d) ;;
  match inner with Some m => m | None => mret None end.

Definition End_Encode : Encoder := mret None.

(** [Encode]: the dispatch through the [ont.Onion] interface.  Every cloak takes
    the next blinding factor. *)
Fixpoint Encode (bl : nat → Blinder) (o : Onion) : Encoder :=
  let next := λ n, bl (S n) in
  match o with
  | ONil => panicM PNil
  | OEnd => End_Encode
  | OCrypt x i =>
      Crypt_Encode (bl O) x (match i with ONil => None | _ => Some (Encode next i) end)
  | OForward a i => Forward_Encode a (Encode bl i)
  | OReverse a i =>
      Reverse_Encode a (match i with ONil => None | _ => Some (Encode bl i) end)
  | OSession x i => Session_Encode x (Encode bl i)
  | OExit x i => Exit_Encode x (Encode bl i)
  | OGetBalance x i => GetBalance_Encode x (Encode bl i)
  | OIntroQuery x i => IntroQuery_Encode x (Encode bl i)
  | OHiddenService x i => HiddenService_Encode x (Encode bl i)
  | ORoute x i => Route_Encode (bl O) x (Encode next i)
  | OBalance id m => Balance_Encode id m
  | OConfirmation id => Confirmation_Encode id
  | OResponse x => Response_Encode x
  | OReady x => Ready_Encode x
  | OMessage x => Message_Encode x
  | ODelay d i =>
      Delay_Encode d (match i with ONil => None | _ => Some (Encode bl i) end)
  end.

(** [Len]: the length of a nil inner onion cannot be taken. *)
Fixpoint Onion_Len (o : Onion) : Out Z :=
  match o with
  | ONil => Panic PNil
  | OEnd => Ret 0
  | OCrypt _ i => n ← Onion_Len i; Ret (CryptLen + n)
  | OForward _ i | OReverse _ i => n ← Onion_Len i; Ret (MagicLen + 21 + n)
  | OSession _ i => n ← Onion_Len i; Ret (SessionLen + n)
  | OExit x i => n ← Onion_Len i; Ret (ExitLen + zlen (Exit_Bytes x) + n)
  | OGetBalance _ i => n ← Onion_Len i; Ret (GetBalanceLen + n)
  | OIntroQuery _ i => n ← Onion_Len i; Ret (IntroQueryLen + n)
  | OHiddenService _ i => n ← Onion_Len i; Ret (HiddenServiceLen + n)
  | ORoute _ i => n ← Onion_Len i; Ret (RouteLen + n)
  | OBalance _ _ => Ret BalanceLen
  | OConfirmation _ => Ret ConfirmationLen
  | OResponse x => Ret (ResponseLen + zlen (Response_Bytes x))
  | OReady _ => Ret ReadyLen
  | OMessage x => Ret (MessageLen + zlen (Message_Payload x))
  | ODelay _ i => n ← Onion_Len i; Ret (DelayLen + n)
  end.

(** [codec.Encode]: a splice of the message's length, encoded into. *)
Definition codec_Encode (bl : nat → Blinder) (o : Onion) : Out Splice :=
  n ← Onion_Len o;
  r ← Encode bl o (New (Z.to_nat n));
  Ret r.2.

(** ** Assembly *)

(** [Wrap]: a no-op on the types that carry nothing. *)
Definition Wrap (o inner : Onion) : Out Onion :=
  match o with
  | ONil => Panic PNil
  | OCrypt x _ => Ret (OCrypt x inner)
  | OForward a _ => Ret (OForward a inner)
  | OReverse a _ => Ret (OReverse a inner)
  | OSession x _ => Ret (OSession x inner)
  | OExit x _ => Ret (OExit x inner)
  | OGetBalance x _ => Ret (OGetBalance x inner)
  | OIntroQuery x _ => Ret (OIntroQuery x inner)
  | OHiddenService x _ => Ret (OHiddenService x inner)
  | ORoute x _ => Ret (ORoute x inner)
  | ODelay d _ => Ret (ODelay d inner)
  | OEnd | OBalance _ _ | OConfirmation _ | OResponse _ | OReady _ | OMessage _ => Ret o
  end.

(** [ont.Assemble] on layers that are distinct objects: wrapping the next layer
    into the current one and moving on leaves the first layer holding the whole
    chain. *)
Fixpoint assemble_from (on : Onion) (l : list Onion) : Out Onion :=
  match l with
  | [] => Ret on
  | oc :: l => inner ← assemble_from oc l; Wrap on inner
  end.

Definition Assemble (o : list Onion) : Out Onion :=
  match o with [] => Panic PIndex | on :: l => assemble_from on l end.

(** [Unwrap]: [ONil] is a nil result.  [Delay] has no method of its own, the
    promoted method of its inner onion answers. *)
Fixpoint Unwrap (o : Onion) : Out Onion :=
  match o with
  | ONil => Panic PNil
  | OEnd | OCrypt _ _ | OGetBalance _ _ | OHiddenService _ _ | OResponse _ => Ret o
  | OForward _ i | OReverse _ i | OSession _ i | OExit _ i | OIntroQuery _ i => Ret i
  | ORoute _ _ | OBalance _ _ | OConfirmation _ | OReady _ | OMessage _ => Ret ONil
  | ODelay _ i => Unwrap i
  end.

(** ** Constructors *)

Definition Crypt_New (toHdr toPld : option Pub) (from : option Prv) (iv : IV) (depth : Z)
    : Onion := OCrypt (MkCrypt depth toHdr toPld from iv (arr_zero 8) None None) OEnd.
Definition Forward_New (addr : option Multiaddr) : Onion := OForward addr OEnd.
Definition Reverse_New (addr : option Multiaddr) : Onion := OReverse addr OEnd.
Definition Delay_New (d : Z) : Onion := ODelay d OEnd.
(** [session.New] with the identifier and the two private keys generated. *)
Definition Session_New (id : ID) (hop : byte) (h p : Prv) : Onion :=
  OSession (MkSession id hop (Some (GenerateKeys h)) (Some (GenerateKeys p))) OEnd.

(** [exit.ExitPoint]: the keys, nonces and public keys of the return path. *)
Record ExitPoint := MkExitPoint {
  ep_Keys : three Prv; ep_Nonces : Nonces; ep_ReturnPubs : three Pub }.

Definition ep_ciphers (ep : ExitPoint) : Ciphers :=
  GenCiphers (ep_Keys ep) (ep_ReturnPubs ep).

Definition Exit_New (id : ID) (port : Z) (payload : bytes) (ep : ExitPoint) : Onion :=
  OExit (MkExit id (ep_ciphers ep) (ep_Nonces ep) port payload) OEnd.
Definition NewGetBalance (id : ID) (ep : ExitPoint) : Onion :=
  OGetBalance (MkGetBalance id (ep_ciphers ep) (ep_Nonces ep)) OEnd.
Definition IntroQuery_New (id : ID) (hsk : option Pub) (ep : ExitPoint) : Onion :=
  OIntroQuery (MkIntroQuery id (ep_ciphers ep) (ep_Nonces ep) hsk) OEnd.
Definition HiddenService_New (i : Intro.Ad) (ep : ExitPoint) : Onion :=
  OHiddenService (MkHiddenService i (ep_ciphers ep) (ep_Nonces ep) (arr_zero 252)) OEnd.
(** [route.New] with the key drawn from the key set, the IV and the blinder. *)
Definition Route_New (id : ID) (k : Pub) (sender : Prv) (iv : IV) (bl : Blinder)
    (ep : ExitPoint) : Onion :=
  ORoute (MkRoute (Some k) (GetCloak bl k) (Some sender) (DerivePub (Some sender)) iv id
            (ep_ciphers ep) (ep_Nonces ep) (arr_zero 252)) OEnd.
Definition Balance_New (id : ID) (amt : Z) : Onion := OBalance id amt.
Definition Confirmation_New (id : ID) : Onion := OConfirmation id.
Definition Response_New (id : ID) (port : Z) (res : bytes) (load : byte) : Onion :=
  OResponse (MkResponse id port load res).
Definition Ready_New (id : ID) (addr : option Pub) (fwHeader rvHeader : RoutingHeaderBytes)
    (fc rc : Ciphers) (fn rn : Nonces) : Onion :=
  OReady (MkReady id addr (Some (MkReplyHeader fwHeader fc fn))
            (Some (MkReplyHeader rvHeader rc rn))).
End Encoders.

(** ** Decoders

    A decoder updates the receiver it is called on: what it does not read keeps
    its value, and a message that is too short leaves all of it. *)

Section Decoders.
Context {cr : Crypto} {ma : Multiaddrs}.

Definition checked {A} (need : Z) (magic : string) (x : A) (d : GoM Splice A)
    : GoM Splice (A * option error) :=
  s ← get;
  match TooShort (Remaining s) need magic with
  | Some e => mret (x, Some e)
  | None => y ← d; mret (y, None)
  end.

Definition Crypt_Decode (x : CryptR) : GoM Splice (CryptR * option error) :=
  checked (CryptLen - MagicLen) CryptMagic x
    (iv ← ReadIV; cloak ← ReadCloak; from ← ReadPubkey (FromPub x);
     mret (MkCrypt (Depth x) (ToHeaderPub x) (ToPayloadPub x) (From x) iv cloak
             (ToPriv x) from)).

(** [Crypt.Decrypt]: decipher the rest of the message in place. *)
Definition Crypt_Decrypt (prk : Prv) (x : CryptR) (s : Splice) : Out Splice :=
  match FromPub x with
  | None => Panic PNil
  | Some from => encipher_from (GetBlock prk from) (Crypt_IV x) (GetCursor s) s
  end.

(** Only the length of a magic is checked for. *)
Definition Forward_Decode (addr : option Multiaddr)
    : GoM Splice (option Multiaddr * option error) :=
  checked MagicLen ForwardMagic addr ReadMultiaddr.

Definition Reverse_Decode (addr : option Multiaddr)
    : GoM Splice (option Multiaddr * option error) :=
  checked (ReverseLen - MagicLen) ReverseMagic addr ReadMultiaddr.

(** The hop is not on the wire. *)
Definition Session_Decode (x : SessionR) : GoM Splice (SessionR * option error) :=
  checked (SessionLen - MagicLen) SessionMagic x
    (id ← ReadID; hdr ← ReadPrvkey; pld ← ReadPrvkey;
     mret (MkSession id (Hop x) (Some (MakeKeys hdr)) (Some (MakeKeys pld)))).

Definition Exit_Decode (x : ExitR) : GoM Splice (ExitR * option error) :=
  checked (ExitLen - MagicLen) ExitMagic x
    (id ← ReadID; c ← ReadCiphers; n ← ReadNonces; p ← ReadUint16; b ← ReadBytes;
     mret (MkExit id c n p b)).

Definition GetBalance_Decode (x : GetBalanceR) : GoM Splice (GetBalanceR * option error) :=
  checked (GetBalanceLen - MagicLen) GetBalanceMagic x
    (id ← ReadID; c ← ReadCiphers; n ← ReadNonces; mret (MkGetBalance id c n)).

Definition IntroQuery_Decode (x : IntroQueryR) : GoM Splice (IntroQueryR * option error) :=
  checked (IntroQueryLen - MagicLen) IntroQueryMagic x
    (id ← ReadID; c ← ReadCiphers; n ← ReadNonces; k ← ReadPubkey (IntroQuery_Key x);
     mret (MkIntroQuery id c n k)).

(** The routing header is read into a local, twice, and dropped. *)
Definition HiddenService_Decode (x : HiddenServiceR)
    : GoM Splice (HiddenServiceR * option error) :=
  s ← get;
  match TooShort (Remaining s) (HiddenServiceLen - MagicLen) HiddenServiceMagic with
  | Some e => mret (x, Some e)
  | None =>
      i ← Intro.Decode;
      match i with
      | (i, Some e) => mret (MkHiddenService i (HS_Ciphers x) (HS_Nonces x) (HS_Header x), Some e)
      | (i, None) =>
          c ← ReadCiphers; n ← ReadNonces;
          _ ← GetRoutingHeaderFromCursor;
          _ ← ReadRoutingHeader;
          mret (MkHiddenService i c n (HS_Header x), None)
      end
  end.

Definition Route_Decode (x : RouteR) : GoM Splice (RouteR * option error) :=
  checked (RouteLen - MagicLen) RouteMagic x
    (cloak ← ReadCloak; from ← ReadPubkey (SenderPub x); iv ← ReadIV;
     mret (MkRoute (Route_HiddenService x) cloak (Sender x) from iv (Route_ID x)
             (Route_Ciphers x) (Route_Nonces x) (Route_Header x))).

(** [Route.Decrypt]: decipher the rest, then read the reply fields. *)
Definition Route_Decrypt (prk : Prv) (x : RouteR) : GoM Splice RouteR :=
  match SenderPub x with
  | None => panicM PNil
  | Some from =>
      s ← get;
      modify (encipher_from (GetBlock prk from) (Route_IV x) (GetCursor s)) ;;
      id ← ReadID; c ← ReadCiphers; n ← ReadNonces; h ← ReadRoutingHeader;
      mret (MkRoute (Route_HiddenService x) (HiddenCloaked x) (Sender x) (SenderPub x)
              (Route_IV x) id c n h)
  end.

Definition Balance_Decode (x : ID * Z) : GoM Splice ((ID * Z) * option error) :=
  checked (BalanceLen - MagicLen) BalanceMagic x
    (id ← ReadID; m ← ReadMilliSatoshi; mret (id, m)).

Definition Confirmation_Decode (id : ID) : GoM Splice (ID * option error) :=
  checked (ConfirmationLen - MagicLen) ConfirmationMagic id ReadID.

Definition Response_Decode (x : ResponseR) : GoM Splice (ResponseR * option error) :=
  checked (ResponseLen - MagicLen) ResponseMagic x
    (id ← ReadID; p ← ReadUint16; l ← ReadByte; b ← ReadBytes;
     mret (MkResponse id p l b)).

(** Only the return half travels inside; [Forward] keeps its value. *)
Definition Ready_Decode (x : ReadyR) : GoM Splice (ReadyR * option error) :=
  checked (ReadyLen - MagicLen) ReadyMagic x
    (id ← ReadID; a ← ReadPubkey (Ready_Address x); h ← ReadRoutingHeader;
     c ← ReadCiphers; n ← ReadNonces;
     mret (MkReady id a (Ready_Forward x) (Some (MkReplyHeader h c n)))).

Definition Message_Decode (x : MessageR) : GoM Splice (MessageR * option error) :=
  checked (MessageLen - MagicLen) MessageMagic x
    (a ← ReadPubkey (Message_Address x); id ← ReadID; re ← ReadID; h ← ReadRoutingHeader;
     c ← ReadCiphers; n ← ReadNonces; b ← ReadBytes;
     mret (MkMessage a id re (Message_Forward x) (Some (MkReplyHeader h c n)) b)).

Definition Delay_Decode (d : Z) : GoM Splice (Z * option error) :=
  checked (DelayLen - MagicLen) DelayMagic d ReadDuration.

(** Run a decoder on the data of an onion, leaving its inner layer alone. *)
Definition on_data {A} (f : A → Onion) (m : GoM Splice (A * option error))
    : GoM Splice (Onion * option error) :=
  r ← m; mret (f r.1, r.2).

(** [Decode]: the dispatch through the [codec.Codec] interface. *)
Definition Decode (o : Onion) : GoM Splice (Onion * option error) :=
  match o with
  | ONil => panicM PNil
  | OEnd => mret (OEnd, None)
  | OCrypt x i => on_data (λ x, OCrypt x i) (Crypt_Decode x)
  | OForward a i => on_data (λ a, OForward a i) (Forward_Decode a)
  | OReverse a i => on_data (λ a, OReverse a i) (Reverse_Decode a)
  | OSession x i => on_data (λ x, OSession x i) (Session_Decode x)
  | OExit x i => on_data (λ x, OExit x i) (Exit_Decode x)
  | OGetBalance x i => on_data (λ x, OGetBalance x i) (GetBalance_Decode x)
  | OIntroQuery x i => on_data (λ x, OIntroQuery x i) (IntroQuery_Decode x)
  | OHiddenService x i => on_data (λ x, OHiddenService x i) (HiddenService_Decode x)
  | ORoute x i => on_data (λ x, ORoute x i) (Route_Decode x)
  | OBalance id m => on_data (λ x, OBalance x.1 x.2) (Balance_Decode (id, m))
  | OConfirmation id => on_data OConfirmation (Confirmation_Decode id)
  | OResponse x => on_data OResponse (Response_Decode x)
  | OReady x => on_data OReady (Ready_Decode x)
  | OMessage x => on_data OMessage (Message_Decode x)
  | ODelay d i => on_data (λ d, ODelay d i) (Delay_Decode d)
  end.

(** ** Generators: the empty message each factory function returns *)

Definition id0 : ID := arr_zero 8.
Definition Crypt_Gen : Onion :=
  OCrypt (MkCrypt 0 None None None (arr_zero 16) (arr_zero 8) None None) ONil.
Definition Forward_Gen : Onion := OForward None ONil.
Definition Reverse_Gen : Onion := OReverse None ONil.
Definition Session_Gen : Onion := OSession (MkSession id0 x00 None None) ONil.
Definition Exit_Gen : Onion := OExit (MkExit id0 three_zero three_zero 0 []) ONil.
Definition GetBalance_Gen : Onion := OGetBalance (MkGetBalance id0 three_zero three_zero) ONil.
Definition IntroQuery_Gen : Onion :=
  OIntroQuery (MkIntroQuery id0 three_zero three_zero None) ONil.
Definition HiddenService_Gen : Onion :=
  OHiddenService (MkHiddenService Intro.Gen three_zero three_zero (arr_zero 252)) ONil.
Definition Route_Gen : Onion :=
  ORoute (MkRoute None (arr_zero 8) None None (arr_zero 16) id0 three_zero three_zero
            (arr_zero 252)) ONil.
Definition Balance_Gen : Onion := OBalance id0 0.
Definition Confirmation_Gen : Onion := OConfirmation id0.
Definition Response_Gen : Onion := OResponse (MkResponse id0 0 x00 []).
Definition Ready_Gen : Onion := OReady (MkReady id0 None None None).
Definition Message_Gen : Onion := OMessage (MkMessage None id0 id0 None None []).
Definition Delay_Gen : Onion := ODelay 0 ONil.
End Decoders.
