(* ===== verification/OnionFacts.v ===== *)
(** * Onions on the wire

    [image] is the byte string a message should be: the specification the
    encoders of [Onion] are proved against.  Encryption of the source acts on
    the buffer up to its end, so what the encoders promise is weaker than
    [Writes]: [Emits m bs] says nothing about the bytes behind the message. *)

From S2P Require Export Onion.

Class Emits (m : GoM Splice (option error)) (bs : bytes) : Prop := emits_ok :
  ∀ s, 0 ≤ s_c s → s_c s + zlen bs ≤ Len s →
    ∃ s' r, m s = Ret (None, s') ∧ s_b s' = take (Z.to_nat (s_c s)) (s_b s) ++ bs ++ r ∧
      Len s' = Len s ∧ s_c s' = s_c s + zlen bs ∧ s_E s' = s_E s.

#[export] Instance emits_ret : Emits (mret None) [].
Proof.
  intros s Hc Hl. exists s, (drop (Z.to_nat (s_c s)) (s_b s)). cbn [app].
  rewrite take_drop. split_and!; try done. unfold zlen. simpl. lia.
Qed.

Lemma overlay_split (pos : nat) (bs l : bytes) :
  overlay pos bs l = take pos l ++ bs ++ drop (pos + length bs) l.
Proof. done. Qed.

#[export] Instance emits_bind m1 m2 b1 b2 :
  Writes m1 b1 → Emits m2 b2 → Emits (m1 ;; m2) (b1 ++ b2).
Proof.
  intros W M s Hc Hl. rewrite zlen_app in Hl.
  pose proof (zlen_nonneg b1). pose proof (zlen_nonneg b2).
  destruct (W s) as (s1 & E1 & B1 & C1 & R1); [done|lia|].
  assert (Z.to_nat (s_c s) + length b1 ≤ length (s_b s))%nat by (unfold Len, zlen in *; lia).
  assert (Len s1 = Len s) as L1 by (unfold Len; rewrite B1, zlen_overlay; done).
  destruct (M s1) as (s2 & r & E2 & B2 & L2 & C2 & R2); [lia|lia|].
  exists s2, r. unfold mbind, GoM_bind. rewrite E1. split; [done|].
  split; [|split_and!; [congruence|rewrite zlen_app; lia|congruence]].
  rewrite B2, C1, B1. replace (Z.to_nat (s_c s + zlen b1)) with (Z.to_nat (s_c s) + length b1)%nat
    by (unfold zlen; lia).
  rewrite overlay_split, (app_assoc (take (Z.to_nat (s_c s)) (s_b s)) b1 (drop _ _)).
  rewrite take_app_length' by (rewrite length_app, length_take; lia).
  by rewrite <- !app_assoc.
Qed.

Lemma emits_eq m b b' : Emits m b → b = b' → Emits m b'.
Proof. by intros ? ->. Qed.

Lemma emits_of_writes m b : Writes m b → Emits (m ;; mret None) b.
Proof. intros. eapply emits_eq; [apply _|]. apply app_nil_r. Qed.

(** ** Enciphering a known part of the buffer *)

Lemma encipher_range_app blk iv p w r s lo hi :
  s_b s = p ++ w ++ r → lo = zlen p → hi = zlen p + zlen w →
  encipher_range (Some blk) iv lo hi s = Ret (with_b (p ++ enciphered blk iv w ++ r) s).
Proof.
  intros B -> ->. pose proof (zlen_nonneg p). pose proof (zlen_nonneg w). pose proof (zlen_nonneg r).
  unfold encipher_range, GetRange, copy_range, range_bounds.
  rewrite !bool_decide_false by lia. rewrite B.
  rewrite (goslice_in (p ++ w ++ r)) by (rewrite ?zlen_app; lia). cbn [mbind Out_bind].
  replace (Z.to_nat (zlen p)) with (length p) by (unfold zlen; lia).
  replace (Z.to_nat (zlen p + zlen w - zlen p)) with (length w) by (unfold zlen; lia).
  rewrite drop_app_length, take_app_length. cbn [Encipher mbind Out_bind].
  change (zip_with bxor w _) with (enciphered blk iv w).
  rewrite (gocopy_in (p ++ w ++ r)) by (rewrite ?zlen_app; lia). cbn [mbind Out_bind].
  replace (Z.to_nat (zlen p)) with (length p) by (unfold zlen; lia).
  replace (Z.to_nat (zlen p + zlen w - zlen p)) with (length w) by (unfold zlen; lia).
  rewrite take_ge by (rewrite length_enciphered; done).
  unfold overlay. rewrite take_app_length, length_enciphered.
  rewrite <- (drop_drop (p ++ w ++ r)), drop_app_length, drop_app_length. done.
Qed.

Lemma encipher_from_app blk iv p w s lo :
  s_b s = p ++ w → lo = zlen p →
  encipher_from (Some blk) iv lo s = Ret (with_b (p ++ enciphered blk iv w) s).
Proof.
  intros B Hlo.
  pose proof (encipher_range_app blk iv p w [] s lo (Len s)) as E. rewrite !app_nil_r in E.
  assert (Len s = zlen p + zlen w) as HL by (unfold Len; rewrite B; apply zlen_app).
  specialize (E B Hlo HL). rewrite <- E.
  unfold encipher_from, encipher_range, GetFrom, GetRange, copy_range, range_bounds.
  pose proof (zlen_nonneg p). pose proof (zlen_nonneg w).
  by rewrite !bool_decide_false by lia.
Qed.

Section Image.
Context {cr : Crypto} {ma : Multiaddrs}.
Context (defaultPort : Z).

(** ** The specification of the wire format *)

Definition crypt_header (bl : Blinder) (x : CryptR) (from : Prv) (to : Pub) : bytes :=
  string_bytes CryptMagic ++ arr_list (Crypt_IV x) ++ arr_list (GetCloak bl to) ++
  arr_list (SerializeCompressed (PubKey from)).

Definition secret (k : Prv) (p : Pub) : Block := NewCipher (ComputeSharedSecret k p).

(** The part a crypt layer seals: all of it for the header key at depth 0, the
    first [depth - 1] header layers for it otherwise, the rest for the payload
    key. *)
Definition crypt_cut (x : CryptR) : nat := Z.to_nat ((Depth x - 1) * ReverseCryptLen).

Definition sealed (x : CryptR) (from : Prv) (to : Pub) (im : bytes) : bytes :=
  if bool_decide (Depth x = 0) then enciphered (secret from to) (Crypt_IV x) im
  else match ToPayloadPub x with
       | None => []
       | Some pld =>
           enciphered (secret from to) (Crypt_IV x) (take (crypt_cut x) im) ++
           enciphered (secret from pld) (Crypt_IV x) (drop (crypt_cut x) im)
       end.

Definition enciphered_layers (l : list (Hash * IV)) (b : bytes) : bytes :=
  foldl (λ b '(h, iv), enciphered (NewCipher h) iv b) b l.

Definition three_bytes {n} (t : three (arr n)) : bytes := concat (arr_list <$> to3 t).

Definition reply_bytes (h : ReplyHeader) : bytes :=
  arr_list (rh_bytes h) ++ three_bytes (rh_Ciphers h) ++ three_bytes (rh_Nonces h).

Definition intro_image (x : Intro.Ad) : bytes :=
  string_bytes Intro.Magic_ ++ IntroWire.fields x ++ arr_list (ad_Sig (Intro.base x)).

Definition sized_bytes (b : bytes) : bytes := le_put 4 (zlen b) ++ b.

Fixpoint image (bl : nat → Blinder) (o : Onion) : bytes :=
  let next := λ n, bl (S n) in
  match o with
  | ONil | OEnd => []
  | OCrypt x i =>
      match From x, ToHeaderPub x with
      | Some from, Some to =>
          crypt_header (bl O) x from to ++ sealed x from to (image next i)
      | _, _ => []
      end
  | OForward a i =>
      string_bytes ForwardMagic ++ AddressesWire.addr_bytes a ++ image bl i
  | OReverse a i =>
      string_bytes ReverseMagic ++ AddressesWire.addr_bytes a ++ image bl i
  | OSession x i =>
      string_bytes SessionMagic ++ arr_list (Session_ID x) ++
      match Header x, Payload x with
      | Some h, Some p => arr_list (Serialize (Keys_Prv h)) ++ arr_list (Serialize (Keys_Prv p))
      | _, _ => []
      end ++ image bl i
  | OExit x i =>
      string_bytes ExitMagic ++ arr_list (Exit_ID x) ++ three_bytes (Exit_Ciphers x) ++
      three_bytes (Exit_Nonces x) ++ le_put 2 (Exit_Port x) ++ sized_bytes (Exit_Bytes x) ++
      image bl i
  | OGetBalance x i =>
      string_bytes GetBalanceMagic ++ arr_list (GetBalance_ID x) ++
      three_bytes (GetBalance_Ciphers x) ++ three_bytes (GetBalance_Nonces x) ++ image bl i
  | OIntroQuery x i =>
      string_bytes IntroQueryMagic ++ arr_list (IntroQuery_ID x) ++
      three_bytes (IntroQuery_Ciphers x) ++ three_bytes (IntroQuery_Nonces x) ++
      key_bytes (IntroQuery_Key x) ++ image bl i
  | OHiddenService x i =>
      string_bytes HiddenServiceMagic ++ intro_image (HS_Intro x) ++
      three_bytes (HS_Ciphers x) ++ three_bytes (HS_Nonces x) ++ image bl i
  | ORoute x i =>
      match Sender x, Route_HiddenService x with
      | Some k, Some p =>
          string_bytes RouteMagic ++ arr_list (GetCloak (bl O) p) ++
          arr_list (SerializeCompressed (PubKey k)) ++ arr_list (Route_IV x) ++
          enciphered (secret k p) (Route_IV x)
            (arr_list (Route_ID x) ++ three_bytes (Route_Ciphers x) ++
             three_bytes (Route_Nonces x) ++ image next i)
      | _, _ => []
      end
  | OBalance id m => string_bytes BalanceMagic ++ arr_list id ++ le_put 8 m
  | OConfirmation id => string_bytes ConfirmationMagic ++ arr_list id
  | OResponse x =>
      string_bytes ResponseMagic ++ arr_list (Response_ID x) ++ le_put 2 (Response_Port x) ++
      [Response_Load x] ++ sized_bytes (Response_Bytes x)
  | OReady x =>
      match Ready_Forward x, Ready_Return x with
      | Some f, Some r =>
          arr_list (rh_bytes f) ++
          enciphered_layers (layers_of (rh_Ciphers f) (rh_Nonces f))
            (string_bytes ReadyMagic ++ arr_list (Ready_ID x) ++ key_bytes (Ready_Address x) ++
             reply_bytes r)
      | _, _ => []
      end
  | OMessage x =>
      match Message_Forward x, Message_Return x with
      | Some f, Some r =>
          arr_list (rh_bytes f) ++
          enciphered_layers (layers_of (rh_Ciphers f) (rh_Nonces f))
            (string_bytes MessageMagic ++ key_bytes (Message_Address x) ++
             arr_list (Message_ID x) ++ arr_list (Message_Re x) ++ reply_bytes r ++
             sized_bytes (Message_Payload x))
      | _, _ => []
      end
  | ODelay d i => string_bytes DelayMagic ++ le_put 8 d ++ image bl i
  end.

(** What a message must have for its encoder to succeed. *)
Fixpoint encodable (bl : nat → Blinder) (o : Onion) : Prop :=
  let next := λ n, bl (S n) in
  match o with
  | ONil => False
  | OEnd | OBalance _ _ | OConfirmation _ | OResponse _ => True
  | OCrypt x i =>
      (∃ k, From x = Some k) ∧ (∃ p, ToHeaderPub x = Some p) ∧
      (Depth x = 0 ∨ 0 < Depth x ∧ (∃ p, ToPayloadPub x = Some p) ∧
         (Depth x - 1) * ReverseCryptLen ≤ zlen (image next i)) ∧
      encodable next i
  | OForward a i | OReverse a i => AddressesWire.canonical defaultPort a ∧ encodable bl i
  | OSession x i =>
      (∃ h, Header x = Some h) ∧ (∃ p, Payload x = Some p) ∧ encodable bl i
  | OExit _ i | OGetBalance _ i | ODelay _ i => encodable bl i
  | OIntroQuery x i => (∃ p, IntroQuery_Key x = Some p) ∧ encodable bl i
  | OHiddenService x i => IntroWire.ok (HS_Intro x) ∧ encodable bl i
  | ORoute x i =>
      (∃ k, Sender x = Some k) ∧ (∃ p, Route_HiddenService x = Some p) ∧ encodable next i
  | OReady x =>
      (∃ p, Ready_Address x = Some p) ∧ (∃ f, Ready_Forward x = Some f) ∧
      ∃ r, Ready_Return x = Some r
  | OMessage x =>
      (∃ p, Message_Address x = Some p) ∧ (∃ f, Message_Forward x = Some f) ∧
      ∃ r, Message_Return x = Some r
  end.
End Image.

(** ** Encoders that return to what they wrote

    [Finishes start pre m out]: with [pre] already written from [start] on, [m]
    leaves [out] there. *)

Record Finishes (start : Z) (pre : bytes) (m : GoM Splice (option error)) (out : bytes) : Prop := {
  finishes_len : zlen pre ≤ zlen out;
  finishes_run s p r0 :
    s_b s = p ++ pre ++ r0 → start = zlen p → s_c s = zlen (p ++ pre) →
    start + zlen out ≤ Len s →
    ∃ s' r, m s = Ret (None, s') ∧ s_b s' = p ++ out ++ r ∧ Len s' = Len s ∧
      s_c s' = start + zlen out ∧ s_E s' = s_E s;
}.

Lemma finishes_write start pre m1 b1 m2 out :
  Writes m1 b1 → Finishes start (pre ++ b1) m2 out → Finishes start pre (m1 ;; m2) out.
Proof.
  intros W [L F]. split; [rewrite zlen_app in L; pose proof (zlen_nonneg b1); lia|].
  intros s p r0 B -> C Hl. rewrite zlen_app in L. pose proof (zlen_nonneg p).
  pose proof (zlen_nonneg pre). rewrite zlen_app in C.
  destruct (W s) as (s1 & E1 & B1 & C1 & R1); [lia|lia|].
  assert (Z.to_nat (s_c s) + length b1 ≤ length (s_b s))%nat by (unfold Len, zlen in *; lia).
  assert (Len s1 = Len s) as L1 by (unfold Len; rewrite B1, zlen_overlay; done).
  destruct (F s1 p (drop (length (p ++ pre) + length b1) (s_b s))) as (s2 & r & E2 & B2 & L2 & C2 & R2).
  - rewrite B1, overlay_split, C. rewrite <- zlen_app. unfold zlen. rewrite Nat2Z.id.
    rewrite B at 1. rewrite (app_assoc p pre r0), take_app_length. by rewrite <- !app_assoc.
  - done.
  - rewrite C1, C, !zlen_app. lia.
  - lia.
  - exists s2, r. unfold mbind, GoM_bind. rewrite E1. split_and!; try done; congruence.
Qed.

Lemma finishes_emit start pre m1 b1 k out :
  Emits m1 b1 → Finishes start (pre ++ b1) (k None) out → Finishes start pre (e ← m1; k e) out.
Proof.
  intros M [L F]. split; [rewrite zlen_app in L; pose proof (zlen_nonneg b1); lia|].
  intros s p r0 B -> C Hl. rewrite zlen_app in L. pose proof (zlen_nonneg p).
  pose proof (zlen_nonneg pre). rewrite zlen_app in C.
  destruct (M s) as (s1 & r1 & E1 & B1 & L1 & C1 & R1); [lia|lia|].
  destruct (F s1 p r1) as (s2 & r & E2 & B2 & L2 & C2 & R2).
  - rewrite B1, C. rewrite <- zlen_app. unfold zlen. rewrite Nat2Z.id.
    rewrite B, (app_assoc p pre r0), take_app_length. by rewrite <- !app_assoc.
  - done.
  - rewrite C1, C, !zlen_app. lia.
  - lia.
  - exists s2, r. unfold mbind, GoM_bind. rewrite E1. split_and!; try done; congruence.
Qed.

Lemma finishes_emits k out :
  (∀ s, Finishes (s_c s) [] (k s) out) → Emits (s ← get; k s) out.
Proof.
  intros F s Hc Hl. unfold mbind, GoM_bind, get.
  destruct (F s) as [_ R].
  destruct (R s (take (Z.to_nat (s_c s)) (s_b s)) (drop (Z.to_nat (s_c s)) (s_b s)))
    as (s' & r & E & B & L & C & HE).
  - cbn [app]. by rewrite take_drop.
  - unfold Len, zlen in *. rewrite length_take. lia.
  - rewrite app_nil_r. unfold Len, zlen in *. rewrite length_take. lia.
  - done.
  - by exists s', r.
Qed.

Section FinishesFacts.
Context {cr : Crypto}.

Lemma zlen_enciphered blk iv b : zlen (enciphered blk iv b) = zlen b.
Proof. unfold zlen. by rewrite length_enciphered. Qed.

Lemma zlen_enciphered_layers l b : zlen (enciphered_layers l b) = zlen b.
Proof.
  revert b; induction l as [|[h iv] l IH]; intros b; [done|]. cbn.
  etransitivity; [apply IH|apply zlen_enciphered].
Qed.

Lemma enciphered_layers_app l b c :
  ∃ d, enciphered_layers l (b ++ c) = enciphered_layers l b ++ d ∧ zlen d = zlen c.
Proof.
  revert b c; induction l as [|[h iv] l IH]; intros b c; [by exists c|]. cbn.
  destruct (enciphered_app (NewCipher h) iv b c) as (d & -> & Hd).
  destruct (IH (enciphered (NewCipher h) iv b) d) as (d' & E & Hd').
  exists d'. split; [exact E|]. unfold zlen in *. lia.
Qed.

Lemma encipher_layers_app l p w s lo :
  s_b s = p ++ w → lo = zlen p →
  encipher_layers l lo s = Ret (tt, with_b (p ++ enciphered_layers l w) s).
Proof.
  revert w s; induction l as [|[h iv] l IH]; intros w s B Hlo; cbn [encipher_layers].
  - unfold mret, GoM_ret. cbn. rewrite <- B. by destruct s.
  - unfold mbind, GoM_bind, modify. unfold BlockFromHash.
    rewrite (encipher_from_app _ iv p w s lo B Hlo). cbn [mbind Out_bind].
    rewrite (IH (enciphered (NewCipher h) iv w)) by done. done.
Qed.

Lemma finishes_layers start pre l :
  Finishes start pre (encipher_layers l start ;; mret None) (enciphered_layers l pre).
Proof.
  split; [by rewrite zlen_enciphered_layers|].
  intros s p r0 B -> C Hl. unfold mbind, GoM_bind.
  rewrite (encipher_layers_app l p (pre ++ r0)) by done.
  destruct (enciphered_layers_app l pre r0) as (d & Ed & Hd). rewrite Ed.
  eexists _, d. split; [done|]. cbn [s_b s_c s_E with_b].
  rewrite zlen_enciphered_layers, C, !zlen_app. split_and!; try done.
  unfold Len. cbn. rewrite B, !zlen_app, zlen_enciphered_layers. lia.
Qed.

Lemma finishes_encipher start pre blk iv :
  Finishes start pre (modify (encipher_from (Some blk) iv start) ;; mret None)
    (enciphered blk iv pre).
Proof.
  split; [by rewrite zlen_enciphered|].
  intros s p r0 B -> C Hl. unfold mbind, GoM_bind, modify.
  rewrite (encipher_from_app _ iv p (pre ++ r0)) by done. cbn [mbind Out_bind].
  destruct (enciphered_app blk iv pre r0) as (d & Ed & Hd). rewrite Ed.
  eexists _, d. split; [done|]. cbn [s_b s_c s_E with_b].
  rewrite zlen_enciphered, C, !zlen_app. split_and!; try done.
  unfold Len. cbn. rewrite B, !zlen_app, zlen_enciphered. unfold zlen in *. lia.
Qed.
End FinishesFacts.

(** ** The encoders produce the image *)

Section HeaderFacts.
#[export] Instance writes_RoutingHeader b : Writes (WriteRoutingHeader b) (arr_list b).
Proof.
  intros s Hc Hl. rewrite zlen_arr in Hl. change (Z.of_nat 252) with 252 in Hl.
  unfold WriteRoutingHeader, get, Advance, Inc, seg, modify, mbind, GoM_bind, mret, GoM_ret,
    GetCursor. cbn -[gocopy]. change RoutingHeaderLen with 252.
  rewrite (gocopy_in (s_b s)) by (unfold Len in *; lia). cbn [mbind Out_bind].
  rewrite take_ge by (rewrite arr_len; lia).
  eexists. split; [done|]. cbn. rewrite zlen_arr. done.
Qed.

Lemma reads_GetRoutingHeader h : Reads GetRoutingHeaderFromCursor (arr_list h) h.
Proof.
  intros s (Hc & Hl & T) HE. rewrite zlen_arr in Hl. change (Z.of_nat 252) with 252 in Hl.
  unfold GetRoutingHeaderFromCursor, get, Advance, Inc, seg, lift, mbind, GoM_bind, mret, GoM_ret,
    GetCursor, GetRange, range_bounds. cbn -[goslice].
  change RoutingHeaderLen with 252. rewrite !bool_decide_false by lia.
  rewrite (goslice_in (s_b s)) by (unfold Len in *; lia). cbn [mbind Out_bind].
  replace (Z.to_nat _) with (length (arr_list h)) by (rewrite arr_len; lia).
  rewrite T, arr_of_list. eexists. split; [done|]. cbn. rewrite zlen_arr. done.
Qed.

#[export] Instance reads_RoutingHeader h : Reads ReadRoutingHeader (arr_list h) h.
Proof.
  unfold ReadRoutingHeader. rewrite <- (app_nil_r (arr_list h)).
  eapply reads_bind; [apply reads_GetRoutingHeader|].
  eapply reads_bind_nil; [apply reads_seg|apply _].
Qed.
End HeaderFacts.

#[export] Hint Opaque WriteRoutingHeader ReadRoutingHeader GetRoutingHeaderFromCursor
  : typeclass_instances.

Section EncodeFacts.
Context {cr : Crypto} {crl : CryptoLaws} {ma : Multiaddrs}.
Context (defaultPort : Z).

Lemma writes_canonical a :
  AddressesWire.canonical defaultPort a →
  Writes (Multiaddr_ a defaultPort) (AddressesWire.addr_bytes a).
Proof. intros (m & -> & E & Hb). by apply writes_Multiaddr. Qed.

Lemma canonical_some a : AddressesWire.canonical defaultPort a → ∃ m, a = Some m.
Proof. intros (m & -> & _). by exists m. Qed.

Lemma emits_intro x :
  IntroWire.ok x → Emits (@Ad_Encode _ _ Intro.adtype x) (intro_image x).
Proof.
  intros Hok. pose proof (layout_writes (AdLayout := wire_layout (AdWire := IntroWire.wire)) x Hok).
  unfold Ad_Encode, intro_image. eapply emits_eq; [apply _|].
  by rewrite app_nil_r, <- app_assoc.
Qed.

Lemma emits_then m b k bs :
  Emits m b → Emits (k None) bs → Emits (e ← m; k e) (b ++ bs).
Proof.
  intros M K s Hc Hl. rewrite zlen_app in Hl.
  pose proof (zlen_nonneg b). pose proof (zlen_nonneg bs).
  destruct (M s) as (s1 & r1 & E1 & B1 & L1 & C1 & R1); [done|lia|].
  destruct (K s1) as (s2 & r2 & E2 & B2 & L2 & C2 & R2); [lia|lia|].
  exists s2, r2. unfold mbind, GoM_bind. rewrite E1. split; [done|].
  split; [|split_and!; [congruence|rewrite zlen_app; lia|congruence]].
  rewrite B2, C1, B1, (app_assoc _ b r1).
  rewrite take_app_length' by (rewrite length_app, length_take; unfold Len, zlen in *; lia).
  by rewrite <- !app_assoc.
Qed.

Lemma enciphered_nil blk iv : enciphered blk iv [] = [].
Proof. done. Qed.

(** The two ways a crypt layer seals what is inside it. *)
Lemma emits_sealed x from to inner im :
  Emits inner im →
  (Depth x = 0 ∨ 0 < Depth x ∧ (∃ p, ToPayloadPub x = Some p) ∧
     (Depth x - 1) * ReverseCryptLen ≤ zlen im) →
  Emits
    (s ← get;
     let start := GetCursor s in
     en ← (if bool_decide (Depth x = 0) then mret (Len s)
           else if bool_decide (0 < Depth x)
           then mret (start + (Depth x - 1) * ReverseCryptLen)
           else panicM (PMsg "incorrect value for crypt sequence"));
     e ← inner;
     match e with
     | Some _ => mret e
     | None =>
         modify (encipher_range (GetBlock from to) (Crypt_IV x) start en) ;;
         if bool_decide (en = Len s) then mret None
         else match ToPayloadPub x with
              | None => panicM PNil
              | Some pld =>
                  modify (encipher_from (GetBlock from pld) (Crypt_IV x) en) ;; mret None
              end
     end) (sealed x from to im).
Proof.
  intros M HD s Hc Hl. unfold get, mbind at 1, GoM_bind at 1. cbv zeta. unfold GetCursor.
  set (p := take (Z.to_nat (s_c s)) (s_b s)).
  assert (zlen p = s_c s) as Hp
    by (unfold p, Len, zlen in *; rewrite length_take; pose proof (length (sealed x from to im)); lia).
  destruct HD as [HD|(HD & [pld HP] & Hcut)].
  - unfold sealed in *. rewrite !bool_decide_true in * by done.
    rewrite zlen_enciphered in *.
    destruct (M s Hc Hl) as (s1 & r & E1 & B1 & L1 & C1 & R1). fold p in B1.
    unfold mret, GoM_ret, mbind, GoM_bind, modify, GetBlock. rewrite E1.
    rewrite (encipher_range_app _ _ p (im ++ r) [] s1); [|by rewrite app_nil_r|done|]; cycle 1.
    { unfold Len in L1. rewrite B1 in L1. unfold Len. rewrite zlen_app in L1. lia. }
    cbn [mbind Out_bind]. rewrite bool_decide_true by done.
    destruct (enciphered_app (secret from to) (Crypt_IV x) im r) as (d & Ed & Hd).
    unfold secret in Ed. rewrite Ed. eexists _, d. split; [done|]. cbn [s_b s_c s_E with_b].
    rewrite app_nil_r. split_and!; try done.
    unfold Len in *. cbn. rewrite B1 in L1. rewrite !zlen_app, zlen_enciphered in *.
    unfold zlen in *. lia.
  - unfold sealed in *. rewrite (bool_decide_false (Depth x = 0)) in * by lia. rewrite HP in *.
    assert ((crypt_cut x <= length im)%nat) as Hk.
    { unfold crypt_cut. change ReverseCryptLen with 84 in *. unfold zlen in Hcut. lia. }
    assert ((Depth x - 1) * ReverseCryptLen = Z.of_nat (crypt_cut x)) as Ek.
    { unfold crypt_cut. change ReverseCryptLen with 84 in *. lia. }
    rewrite (bool_decide_true (0 < Depth x)) by done. rewrite Ek.
    set (k := crypt_cut x) in *.
    assert (zlen (take k im) = Z.of_nat k) as Lt by (unfold zlen; rewrite length_take; lia).
    assert (zlen (drop k im) = zlen im - Z.of_nat k) as Ld by (unfold zlen; rewrite length_drop; lia).
    rewrite zlen_app, !zlen_enciphered, Lt, Ld in *.
    destruct (M s Hc ltac:(lia)) as (s1 & r & E1 & B1 & L1 & C1 & R1). fold p in B1.
    rewrite <- (take_drop k im), <- app_assoc in B1.
    assert (Len s = zlen p + Z.of_nat k + (zlen im - Z.of_nat k) + zlen r) as HL.
    { rewrite <- L1. unfold Len. rewrite B1, !zlen_app, Lt, Ld. lia. }
    pose proof (zlen_nonneg r) as Hr.
    unfold mret, GoM_ret, mbind, GoM_bind, modify, GetBlock. rewrite E1.
    rewrite (encipher_range_app _ _ p (take k im) (drop k im ++ r) s1); [|done|done|lia].
    cbn [mbind Out_bind]. case_bool_decide as HE.
    + assert (drop k im = [] ∧ r = []) as [Z1 Z2].
      { unfold zlen in *. split; apply nil_length_inv; lia. }
      eexists _, []. split; [done|]. cbn [s_b s_c s_E with_b].
      rewrite Z1, Z2, enciphered_nil, !app_nil_r. unfold secret. split_and!; try done; [|lia].
      unfold Len in *. cbn. rewrite zlen_app, zlen_enciphered. unfold zlen in *. lia.
    + set (e1 := enciphered _ _ (take k im)).
      assert (zlen e1 = Z.of_nat k) as Le1 by (unfold e1; by rewrite zlen_enciphered).
      rewrite (encipher_from_app _ _ (p ++ e1) (drop k im ++ r)); cycle 1.
      { cbn. by rewrite <- app_assoc. } { rewrite zlen_app. lia. }
      cbn [mbind Out_bind].
      destruct (enciphered_app (secret from pld) (Crypt_IV x) (drop k im) r) as (d & Ed & Hd).
      unfold secret in Ed. rewrite Ed. eexists _, d. split; [done|]. cbn [s_b s_c s_E with_b].
      unfold secret, e1. rewrite <- !app_assoc. split_and!; try done; [|lia].
      unfold Len in *. cbn. rewrite !zlen_app, !zlen_enciphered. unfold zlen in *. lia.
Qed.

Lemma encodable_some {B} bl i (e : GoM Splice B) :
  encodable defaultPort bl i → match i with ONil => None | _ => Some e end = Some e.
Proof. by destruct i. Qed.

#[local] Hint Extern 1 (Writes (Multiaddr_ _ _) _) =>
  apply writes_canonical; assumption : typeclass_instances.

Ltac emit :=
  first [ eapply emits_bind; [apply _|emit] | eassumption | apply emits_ret ].
Ltac finish_writes :=
  repeat (eapply finishes_write; [apply _|]).

Lemma Ready_emits x :
  encodable defaultPort (λ _, arr_zero 4) (OReady x) →
  Emits (Ready_Encode x) (image (λ _, arr_zero 4) (OReady x)).
Proof.
  intros ([p Hp] & [f Hf] & [r Hr]). unfold Ready_Encode. cbn [image]. rewrite Hf, Hr, Hp.
  apply emits_bind; [apply _|]. apply finishes_emits. intros s0.
  finish_writes. cbn [app]. rewrite <- !app_assoc. apply finishes_layers.
Qed.

Lemma Message_emits x :
  encodable defaultPort (λ _, arr_zero 4) (OMessage x) →
  Emits (Message_Encode x) (image (λ _, arr_zero 4) (OMessage x)).
Proof.
  intros ([p Hp] & [f Hf] & [r Hr]). unfold Message_Encode. cbn [image]. rewrite Hf, Hr, Hp.
  apply emits_bind; [apply _|]. apply finishes_emits. intros s0.
  finish_writes. cbn [app]. unfold reply_bytes. rewrite <- !app_assoc. apply finishes_layers.
Qed.

Lemma Route_emits bl x inner im :
  (∃ k, Sender x = Some k) → (∃ p, Route_HiddenService x = Some p) → Emits inner im →
  Emits (Route_Encode bl x inner)
    match Sender x, Route_HiddenService x with
    | Some k, Some p =>
        string_bytes RouteMagic ++ arr_list (GetCloak bl p) ++
        arr_list (SerializeCompressed (PubKey k)) ++ arr_list (Route_IV x) ++
        enciphered (secret k p) (Route_IV x)
          (arr_list (Route_ID x) ++ three_bytes (Route_Ciphers x) ++
           three_bytes (Route_Nonces x) ++ im)
    | _, _ => []
    end.
Proof.
  intros [k Hk] [p Hp] M. unfold Route_Encode. rewrite Hk, Hp. cbn [DerivePub fmap option_fmap option_map].
  do 4 (apply emits_bind; [apply _|]). apply finishes_emits. intros s0. finish_writes.
  eapply finishes_emit; [exact M|]. cbn [app]. rewrite <- !app_assoc.
  unfold GetBlock, secret, three_bytes. apply finishes_encipher.
Qed.

(** Every encoder writes exactly the image of its message. *)
Lemma Encode_emits bl o : encodable defaultPort bl o → Emits (Encode defaultPort bl o) (image bl o).
Proof.
  revert bl; induction o; intros bl He; cbn [Encode image encodable] in *.
  - done.
  - apply emits_ret.
  - destruct He as ([k Hk] & [p Hp] & HD & Hi). specialize (IHo _ Hi).
    rewrite (encodable_some _ _ _ Hi). unfold Crypt_Encode. rewrite Hk, Hp.
    unfold crypt_header. rewrite <- !app_assoc. cbn [DerivePub fmap option_fmap option_map].
    do 4 (apply emits_bind; [apply _|]). by apply emits_sealed.
  - destruct He as [Ha Hi]. specialize (IHo _ Hi). unfold Forward_Encode.
    destruct (canonical_some _ Ha) as [m ->]. emit.
  - destruct He as [Ha Hi]. specialize (IHo _ Hi). unfold Reverse_Encode.
    rewrite (encodable_some _ _ _ Hi). destruct (canonical_some _ Ha) as [m ->].
    rewrite app_assoc. apply emits_bind; [apply _|done].
  - destruct He as ([h Hh] & [p Hp] & Hi). specialize (IHo _ Hi). unfold Session_Encode.
    rewrite Hh, Hp. rewrite <- app_assoc. emit.
  - specialize (IHo _ He). unfold Exit_Encode, sized_bytes, three_bytes. emit.
  - specialize (IHo _ He). unfold GetBalance_Encode, three_bytes. emit.
  - destruct He as [[p Hp] Hi]. specialize (IHo _ Hi). unfold IntroQuery_Encode, three_bytes.
    rewrite Hp. cbn [key_bytes]. emit.
  - destruct He as [Hx Hi]. specialize (IHo _ Hi). unfold HiddenService_Encode, three_bytes.
    apply emits_bind; [apply _|]. eapply emits_then; [by apply emits_intro|]. emit.
  - destruct He as (Hk & Hp & Hi). specialize (IHo _ Hi). by apply Route_emits.
  - unfold Balance_Encode. rewrite <- (app_nil_r (le_put 8 msat)). emit.
  - unfold Confirmation_Encode. rewrite <- (app_nil_r (arr_list id)). emit.
  - unfold Response_Encode, sized_bytes. rewrite <- (app_nil_r (le_put 4 _ ++ _)). emit.
  - by apply Ready_emits.
  - by apply Message_emits.
  - specialize (IHo _ He). unfold Delay_Encode. rewrite (encodable_some _ _ _ He).
    rewrite <- (le_put_wrapu 8 64) by done. emit.
Qed.
End EncodeFacts.
