(* ===== verification/Registry.v ===== *)
(** * The message registry

    Models [pkg/codec/reg/registry.go] and the messages of
    [pkg/engine/dispatcher/dispatcher_messages.go].  [Codec] is the sum of all
    types that implement [codec.Codec]; the registry maps magic bytes to the
    empty message the factory registered for them returns, and is filled by the
    [init] functions of the packages.  [Codec_Decode] is the interface call. *)

From S2P Require Export OnionFacts.

Definition NewKeyMagic : string := "newK".
Definition AcknowledgeMagic : string := "ackn".
Definition OnionMagic : string := "onio".

(** [RxRecord] *)
Record RxRecord := MkRxRecord {
  rx_ID : ID; rx_Hash : Hash; rx_First : Z; rx_Last : Z;
  rx_Size : Z; rx_Received : Z; rx_Ping : Z }.

Definition RxRecord_zero : RxRecord := MkRxRecord (arr_zero 8) (arr_zero 32) 0 0 0 0 0.

Section Registry.
Context {cr : Crypto} {ma : Multiaddrs}.

(** [cert.Act]: the five ads. *)
Inductive Act :=
| ALoad (a : Load.Ad)
| APeer (a : Peer.Ad)
| AIntro (a : Intro.Ad)
| AServices (a : Services.Ad)
| AAddresses (a : Addresses.Ad).

Inductive Codec :=
| CAct (a : Act)
| COnion (o : Onion)
| CNewKey (k : option Pub)
| CAcknowledge (r : RxRecord)
| COnionMsg (b : bytes).

(** ** Dispatcher messages *)

Definition NewKey_Len : Z := 4 + PubKeyLen.
Definition Acknowledge_Len : Z := 4 + IDLen + Sha256Len + 5 * Uint64Len.
Definition OnionMsg_Len (b : bytes) : Z := 4 + zlen b + 4.

Definition NewKey_Encode (k : option Pub) : GoM Splice (option error) :=
  Magic NewKeyMagic ;; Pubkey k ;; mret None.

Definition Acknowledge_Encode (r : RxRecord) : GoM Splice (option error) :=
  Magic AcknowledgeMagic ;; ID_ (rx_ID r) ;; Hash_ (rx_Hash r) ;; Time (rx_First r) ;;
  Time (rx_Last r) ;; Uint64 (rx_Size r) ;; Uint64 (rx_Received r) ;;
  Duration (rx_Ping r) ;; mret None.

Definition OnionMsg_Encode (b : bytes) : GoM Splice (option error) :=
  Magic OnionMagic ;; Bytes b ;; mret None.

(** The length test compares the whole splice, magic included. *)
Definition long_enough {A} (need : Z) (x : A) (d : GoM Splice (A * option error))
    : GoM Splice (A * option error) :=
  s ← get;
  if bool_decide (Len s < need)
  then mret (x, Some (Errorf "message too short, got %d, require %d" [need; Len s]))
  else d.

Definition NewKey_Decode (k : option Pub) : GoM Splice (option Pub * option error) :=
  long_enough NewKey_Len k
    (k ← ReadPubkey k;
     mret (k, match k with
              | None => Some (Errorf "invalid public key" [])
              | Some _ => None
              end)).

Definition Acknowledge_Decode (r : RxRecord) : GoM Splice (RxRecord * option error) :=
  long_enough Acknowledge_Len r
    (id ← ReadID; h ← ReadHash; f ← ReadTime; l ← ReadTime; sz ← ReadUint64;
     rc ← ReadUint64; p ← ReadDuration; mret (MkRxRecord id h f l sz rc p, None)).

Definition OnionMsg_Decode (b : bytes) : GoM Splice (bytes * option error) :=
  long_enough (OnionMsg_Len b) b (b ← ReadBytes; mret (b, None)).

(** ** The interface calls *)

Definition on_act {A} (f : A → Act) (m : GoM Splice (A * option error))
    : GoM Splice (Codec * option error) :=
  r ← m; mret (CAct (f r.1), r.2).

Definition Codec_Decode (c : Codec) : GoM Splice (Codec * option error) :=
  match c with
  | CAct (ALoad _) => on_act ALoad (always Load.Decode [])
  | CAct (APeer _) => on_act APeer (always Peer.Decode [])
  | CAct (AIntro _) => on_act AIntro Intro.Decode
  | CAct (AServices _) => on_act AServices (always Services.Decode [])
  | CAct (AAddresses _) => on_act AAddresses (always Addresses.Decode [])
  | COnion o => r ← Decode o; mret (COnion r.1, r.2)
  | CNewKey k => r ← NewKey_Decode k; mret (CNewKey r.1, r.2)
  | CAcknowledge a => r ← Acknowledge_Decode a; mret (CAcknowledge r.1, r.2)
  | COnionMsg b => r ← OnionMsg_Decode b; mret (COnionMsg r.1, r.2)
  end.

(** [Magic()]: three of the ads answer the empty string. *)
Definition Codec_Magic (c : Codec) : Out string :=
  match c with
  | CAct (ALoad _) | CAct (APeer _) | CAct (AServices _) => Ret EmptyString
  | CAct (AIntro _) => Ret Intro.Magic_
  | CAct (AAddresses _) => Ret Addresses.Magic_
  | COnion o => magic_of o
  | CNewKey _ => Ret NewKeyMagic
  | CAcknowledge _ => Ret AcknowledgeMagic
  | COnionMsg _ => Ret OnionMagic
  end.

(** ** The registry *)

Definition CodecGenerators : Type := gmap bytes Codec.

Definition Register (magicString : string) (cdc : Codec) (reg : CodecGenerators)
    : CodecGenerators := <[string_bytes magicString := cdc]> (reg : gmap bytes Codec).

Definition MakeCodec (magic : bytes) (reg : CodecGenerators) : option Codec :=
  (reg : gmap bytes Codec) !! magic.

(** [Recognise]: four bytes of magic, then the factory; the cursor is left
    after the magic either way. *)
Definition Recognise (reg : CodecGenerators) : GoM Splice (option Codec) :=
  magic ← ReadMagic; mret (MakeCodec magic reg).

(** The [init] functions. *)
Definition registered : list (string * Codec) := [
  (Services.Magic_, CAct (AServices Services.Gen));
  (Load.Magic_, CAct (ALoad Load.Gen));
  (Peer.Magic_, CAct (APeer Peer.Gen));
  (Intro.Magic_, CAct (AIntro Intro.Gen));
  (Addresses.Magic_, CAct (AAddresses Addresses.Gen));
  (RouteMagic, COnion Route_Gen);
  (HiddenServiceMagic, COnion HiddenService_Gen);
  (MessageMagic, COnion Message_Gen);
  (ReadyMagic, COnion Ready_Gen);
  (IntroQueryMagic, COnion IntroQuery_Gen);
  (DelayMagic, COnion Delay_Gen);
  (ExitMagic, COnion Exit_Gen);
  (SessionMagic, COnion Session_Gen);
  (GetBalanceMagic, COnion GetBalance_Gen);
  (CryptMagic, COnion Crypt_Gen);
  (ForwardMagic, COnion Forward_Gen);
  (ReverseMagic, COnion Reverse_Gen);
  (EndMagic, COnion OEnd);
  (ResponseMagic, COnion Response_Gen);
  (BalanceMagic, COnion Balance_Gen);
  (ConfirmationMagic, COnion Confirmation_Gen);
  (NewKeyMagic, CNewKey None);
  (AcknowledgeMagic, CAcknowledge RxRecord_zero);
  (OnionMagic, COnionMsg [])].

Definition the_registry : CodecGenerators :=
  foldl (λ r '(m, c), Register m c r) (∅ : gmap bytes Codec) registered.

(** [Unpack] of a dispatcher onion: nil unless its bytes are an onion. *)
Definition OnionMsg_Unpack (b : bytes) : Out Onion :=
  r ← Recognise the_registry (NewFrom b);
  Ret match r.1 with Some (COnion o) => o | _ => ONil end.

(** [Unwrap] through the interface; [ONil] is nil. *)
Definition Codec_Unwrap (c : Codec) : Out Onion :=
  match c with
  | COnion o => Unwrap o
  | COnionMsg b => OnionMsg_Unpack b
  | CAct _ | CNewKey _ | CAcknowledge _ => Ret ONil
  end.

(** ** Lemmas *)

Lemma registry_fold l (r : CodecGenerators) :
  NoDup ((λ x, string_bytes x.1) <$> l) →
  (∀ m c, (m, c) ∈ l →
    MakeCodec (string_bytes m) (foldl (λ r '(m, c), Register m c r) r l) = Some c) ∧
  (∀ b, b ∉ ((λ x, string_bytes x.1) <$> l) →
    MakeCodec b (foldl (λ r '(m, c), Register m c r) r l) = MakeCodec b r).
Proof.
  revert r; induction l as [|[m c] l IH]; intros r HN.
  { split; [|done]. intros m c H. by apply elem_of_nil in H. }
  rewrite fmap_cons in HN. apply NoDup_cons in HN as [Hm HN]. cbn [foldl].
  destruct (IH (Register m c r) HN) as [I1 I2]. split.
  - intros m' c' [[= -> ->]|H]%elem_of_cons; [|by apply I1].
    rewrite I2 by done. apply lookup_insert_eq.
  - intros b Hb. rewrite fmap_cons, not_elem_of_cons in Hb. destruct Hb as [Hb1 Hb2].
    rewrite I2 by done. by apply lookup_insert_ne.
Qed.

Lemma registered_distinct : NoDup ((λ x, string_bytes x.1) <$> registered).
Proof.
  cut (NoDup ((string_bytes) <$> ((λ x : string * Codec, x.1) <$> registered))).
  { by rewrite <- list_fmap_compose. }
  cbn [registered fmap list_fmap fst]. apply (bool_decide_eq_true_1 _). by vm_compute.
Qed.

Lemma MakeCodec_registered m c :
  (m, c) ∈ registered → MakeCodec (string_bytes m) the_registry = Some c.
Proof. apply registry_fold, registered_distinct. Qed.

Lemma MakeCodec_unknown b :
  b ∉ ((λ x, string_bytes x.1) <$> registered) → MakeCodec b the_registry = None.
Proof.
  intros Hb. unfold the_registry.
  destruct (registry_fold registered (∅ : gmap bytes Codec) registered_distinct) as [_ H].
  rewrite H by done. apply lookup_empty.
Qed.

Lemma reads_Recognise m c :
  (m, c) ∈ registered → length (string_bytes m) = 4%nat →
  Reads (Recognise the_registry) (string_bytes m) (Some c).
Proof.
  intros Hm Hl. unfold Recognise. rewrite <- (app_nil_r (string_bytes m)).
  eapply reads_bind; [by apply reads_Magic|]. rewrite (MakeCodec_registered m c) by done.
  apply reads_ret.
Qed.
End Registry.
