(* ===== verification/OnionPeel.v ===== *)
(** * Receiving onions

    What a relay gets from the wire: [Recognise], [Decode], [Decrypt] and
    [BudgeUp] on the image of a message, one layer at a time and along a whole
    path of hops. *)

From S2P Require Export Registry.

Section Views.
Context {cr : Crypto} {ma : Multiaddrs}.

(** The part of the image [Decode] reads, between the magic and the inner layer. *)
Definition head (bl : nat → Blinder) (o : Onion) : bytes :=
  match o with
  | OCrypt x _ =>
      match From x, ToHeaderPub x with
      | Some k, Some p => arr_list (Crypt_IV x) ++ arr_list (GetCloak (bl O) p) ++
                          arr_list (SerializeCompressed (PubKey k))
      | _, _ => []
      end
  | OForward a _ | OReverse a _ => AddressesWire.addr_bytes a
  | OSession x _ =>
      arr_list (Session_ID x) ++
      match Header x, Payload x with
      | Some h, Some p => arr_list (Serialize (Keys_Prv h)) ++ arr_list (Serialize (Keys_Prv p))
      | _, _ => []
      end
  | OExit x _ =>
      arr_list (Exit_ID x) ++ three_bytes (Exit_Ciphers x) ++ three_bytes (Exit_Nonces x) ++
      le_put 2 (Exit_Port x) ++ sized_bytes (Exit_Bytes x)
  | OGetBalance x _ =>
      arr_list (GetBalance_ID x) ++ three_bytes (GetBalance_Ciphers x) ++
      three_bytes (GetBalance_Nonces x)
  | OIntroQuery x _ =>
      arr_list (IntroQuery_ID x) ++ three_bytes (IntroQuery_Ciphers x) ++
      three_bytes (IntroQuery_Nonces x) ++ key_bytes (IntroQuery_Key x)
  | ORoute x _ =>
      match Sender x, Route_HiddenService x with
      | Some k, Some p => arr_list (GetCloak (bl O) p) ++
                          arr_list (SerializeCompressed (PubKey k)) ++ arr_list (Route_IV x)
      | _, _ => []
      end
  | OBalance id m => arr_list id ++ le_put 8 m
  | OConfirmation id => arr_list id
  | OResponse x =>
      arr_list (Response_ID x) ++ le_put 2 (Response_Port x) ++ [Response_Load x] ++
      sized_bytes (Response_Bytes x)
  | ODelay d _ => le_put 8 d
  | ONil | OEnd | OHiddenService _ _ | OReady _ | OMessage _ => []
  end.

(** What is left for the next layer. *)
Definition rest (bl : nat → Blinder) (o : Onion) : bytes :=
  match o with
  | OCrypt x i =>
      match From x, ToHeaderPub x with
      | Some k, Some p => sealed x k p (image (λ n, bl (S n)) i)
      | _, _ => []
      end
  | OForward _ i | OReverse _ i | OSession _ i | OExit _ i | OGetBalance _ i
  | OIntroQuery _ i | ODelay _ i => image bl i
  | ORoute x i =>
      match Sender x, Route_HiddenService x with
      | Some k, Some p =>
          enciphered (secret k p) (Route_IV x)
            (arr_list (Route_ID x) ++ three_bytes (Route_Ciphers x) ++
             three_bytes (Route_Nonces x) ++ image (λ n, bl (S n)) i)
      | _, _ => []
      end
  | _ => []
  end.

(** The messages that travel in the clear under their own magic, with byte
    strings the 32-bit length can describe. *)
Definition plain (o : Onion) : Prop :=
  match o with
  | ONil | OEnd | OHiddenService _ _ | OReady _ | OMessage _ => False
  | OExit x _ => zlen (Exit_Bytes x) < 2 ^ 32
  | OResponse x => zlen (Response_Bytes x) < 2 ^ 32
  | _ => True
  end.

(** What the receiver holds after [Decode]. *)
Definition decoded (bl : nat → Blinder) (o : Onion) : Onion :=
  match o with
  | OCrypt x _ =>
      match From x, ToHeaderPub x with
      | Some k, Some p =>
          OCrypt (MkCrypt 0 None None None (Crypt_IV x) (GetCloak (bl O) p) None
                    (Some (PubKey k))) ONil
      | _, _ => ONil
      end
  | OForward a _ => OForward a ONil
  | OReverse a _ => OReverse a ONil
  | OSession x _ =>
      OSession (MkSession (Session_ID x) x00 (MakeKeys ∘ Keys_Prv <$> Header x)
                  (MakeKeys ∘ Keys_Prv <$> Payload x)) ONil
  | OExit x _ =>
      OExit (MkExit (Exit_ID x) (Exit_Ciphers x) (Exit_Nonces x) (wrapu 16 (Exit_Port x))
               (Exit_Bytes x)) ONil
  | OGetBalance x _ => OGetBalance x ONil
  | OIntroQuery x _ => OIntroQuery x ONil
  | ORoute x _ =>
      match Sender x, Route_HiddenService x with
      | Some k, Some p =>
          ORoute (MkRoute None (GetCloak (bl O) p) None (Some (PubKey k)) (Route_IV x)
                    id0 three_zero three_zero (arr_zero 252)) ONil
      | _, _ => ONil
      end
  | OBalance id m => OBalance id (wrapu 64 m)
  | OConfirmation id => OConfirmation id
  | OResponse x =>
      OResponse (MkResponse (Response_ID x) (wrapu 16 (Response_Port x)) (Response_Load x)
                   (Response_Bytes x))
  | ODelay d _ => ODelay (wraps 64 d) ONil
  | ONil | OEnd | OHiddenService _ _ | OReady _ | OMessage _ => ONil
  end.

(** The generator of the same type. *)
Definition gen_of (o : Onion) : Onion :=
  match o with
  | OCrypt _ _ => Crypt_Gen | OForward _ _ => Forward_Gen | OReverse _ _ => Reverse_Gen
  | OSession _ _ => Session_Gen | OExit _ _ => Exit_Gen | OGetBalance _ _ => GetBalance_Gen
  | OIntroQuery _ _ => IntroQuery_Gen | ORoute _ _ => Route_Gen
  | OBalance _ _ => Balance_Gen | OConfirmation _ => Confirmation_Gen
  | OResponse _ => Response_Gen | ODelay _ _ => Delay_Gen
  | OReady _ => Ready_Gen | OMessage _ => Message_Gen | OHiddenService _ _ => HiddenService_Gen
  | OEnd => OEnd | ONil => ONil
  end.
End Views.

Section DecodeFacts.
Context {cr : Crypto} {crl : CryptoLaws} {ma : Multiaddrs} {mal : MultiaddrLaws}.
Context (defaultPort : Z).

Lemma reads_checked_fields {A} need m (x : A) d bs v :
  need ≤ zlen bs → Reads d bs v → Reads (checked need m x d) bs (v, None).
Proof.
  intros Hn R. unfold checked. apply IntroWire.reads_checked; [done|].
  eapply reads_bytes; [eapply reads_bind; [exact R|apply reads_ret]|apply app_nil_r].
Qed.

Lemma reads_on_data {A} (f : A → Onion) m bs v e w :
  Reads m bs (v, e) → f v = w → Reads (on_data f m) bs (w, e).
Proof.
  intros R <-. unfold on_data.
  eapply reads_bytes; [eapply reads_bind; [exact R|apply reads_ret]|apply app_nil_r].
Qed.

Lemma reads_canonical a :
  AddressesWire.canonical defaultPort a → Reads ReadMultiaddr (AddressesWire.addr_bytes a) a.
Proof.
  intros (m & -> & E & Hb). cbn [AddressesWire.addr_bytes].
  eapply reads_val; [by apply reads_Multiaddr|apply multiaddr_bytes].
Qed.

Lemma zlen_three {n} (t : three (arr n)) : zlen (three_bytes t) = 3 * Z.of_nat n.
Proof.
  destruct t as [[a b] c]. unfold three_bytes. cbn [to3 fmap list_fmap concat].
  rewrite !zlen_app, !zlen_arr. unfold zlen. simpl. lia.
Qed.

Lemma zlen_sized b : zlen (sized_bytes b) = 4 + zlen b.
Proof. unfold sized_bytes. rewrite zlen_app, zlen_le_put. lia. Qed.

Lemma zlen_addr a : AddressesWire.canonical defaultPort a → zlen (AddressesWire.addr_bytes a) = 21.
Proof. intros (m & -> & _ & Hb). by apply zlen_multiaddr_field. Qed.

#[local] Instance reads_sized b : Small32 b → Reads ReadBytes (sized_bytes b) b.
Proof. unfold sized_bytes. apply _. Qed.

Ltac onion_lens :=
  rewrite ?zlen_app, ?zlen_arr, ?zlen_le_put, ?zlen_1, ?zlen_three, ?zlen_sized;
  match goal with |- ?n ≤ _ => let v := eval vm_compute in n in change n with v end; lia.
Ltac onion_reads :=
  eapply reads_on_data; [apply reads_checked_fields; [onion_lens|]|];
  [unfold three_bytes;
   match goal with |- Reads _ ?bs _ => rewrite <- (app_nil_r bs) end;
   rewrite <- ?app_assoc; apply _|reflexivity].

(** Decoding reads the head of a message and nothing else.  [Route] looks further:
    it wants room for its encrypted part too. *)
Lemma Decode_reads bl o :
  plain o → (∀ x i, o ≠ ORoute x i) → encodable defaultPort bl o → Reads (Decode (gen_of o)) (head bl o) (decoded bl o, None).
Proof.
  destruct o; cbn [plain gen_of head decoded encodable Decode]; intros Hp Hr He; try done;
    unfold Crypt_Gen, Forward_Gen, Reverse_Gen, Session_Gen, Exit_Gen, GetBalance_Gen,
      IntroQuery_Gen, Route_Gen, Balance_Gen, Confirmation_Gen, Response_Gen, Delay_Gen;
    cbn [Decode].
  - destruct He as ([k ->] & [p ->] & _). onion_reads.
  - destruct He as [Ha _]. eapply reads_on_data; [apply reads_checked_fields|reflexivity];
      [rewrite zlen_addr by done; onion_lens|by apply reads_canonical].
  - destruct He as [Ha _]. eapply reads_on_data; [apply reads_checked_fields|reflexivity];
      [rewrite zlen_addr by done; onion_lens|by apply reads_canonical].
  - destruct He as ([h ->] & [p ->] & _). onion_reads.
  - assert (Small32 (Exit_Bytes x)) by done. pose proof (zlen_nonneg (Exit_Bytes x)). onion_reads.
  - destruct x. onion_reads.
  - destruct He as [[p Hk] _]. destruct x. cbn in Hk |- *. rewrite Hk. cbn [key_bytes]. onion_reads.
  - by destruct (Hr x o).
  - onion_reads.
  - eapply reads_on_data; [apply reads_checked_fields; [onion_lens|apply _]|reflexivity].
  - assert (Small32 (Response_Bytes x)) by done. pose proof (zlen_nonneg (Response_Bytes x)). onion_reads.
  - eapply reads_on_data; [apply reads_checked_fields; [onion_lens|apply _]|reflexivity].
Qed.

Lemma Route_Decode_run bl x i s :
  encodable defaultPort bl (ORoute x i) →
  at_cursor s (head bl (ORoute x i) ++ rest bl (ORoute x i)) → s_E s = None →
  ∃ s', Decode Route_Gen s = Ret ((decoded bl (ORoute x i), None), s') ∧ s_b s' = s_b s ∧
    s_c s' = s_c s + zlen (head bl (ORoute x i)) ∧ s_E s' = None.
Proof.
  cbn [encodable head rest decoded]. intros ([k ->] & [p ->] & _) Ha HE.
  pose proof Ha as (_ & Hl & _). apply at_cursor_app in Ha as [Ha _].
  unfold Decode, Route_Gen, on_data, Route_Decode, checked, get. unfold mbind, GoM_bind.
  unfold TooShort. rewrite bool_decide_true; cycle 1.
  { unfold Remaining, GetCursor. rewrite !zlen_app, zlen_enciphered, !zlen_app in Hl.
    rewrite !zlen_three, !zlen_arr in Hl.
    pose proof (zlen_nonneg (image (λ n, bl (S n)) i)).
    change (RouteLen - MagicLen) with 209. lia. }
  assert (Reads (cloak ← ReadCloak; from ← ReadPubkey None; iv ← ReadIV;
            mret (MkRoute None cloak None from iv id0 three_zero three_zero (arr_zero 252)))
           (arr_list (GetCloak (bl O) p) ++ arr_list (SerializeCompressed (PubKey k)) ++
            arr_list (Route_IV x))
           (MkRoute None (GetCloak (bl O) p) None (Some (PubKey k)) (Route_IV x)
                    id0 three_zero three_zero (arr_zero 252))) as R.
  { rewrite <- (app_nil_r (_ ++ _)), <- !app_assoc. apply _. }
  destruct (R s Ha HE) as (s' & E & B & C & N). exists s'. unfold mbind, GoM_bind in E.
  cbn [SenderPub Route_HiddenService Sender Route_ID Route_Ciphers Route_Nonces Route_Header].
  rewrite E. done.
Qed.

Lemma Decode_run bl o s :
  plain o → encodable defaultPort bl o →
  at_cursor s (head bl o ++ rest bl o) → s_E s = None →
  ∃ s', Decode (gen_of o) s = Ret ((decoded bl o, None), s') ∧ s_b s' = s_b s ∧
    s_c s' = s_c s + zlen (head bl o) ∧ s_E s' = None.
Proof.
  intros Hp He Ha HE. destruct o.
  all: try (apply at_cursor_app in Ha as [Ha _]; by apply Decode_reads).
  by apply Route_Decode_run.
Qed.

Lemma image_split bl o :
  plain o → encodable defaultPort bl o →
  ∃ m, magic_of o = Ret m ∧ length (string_bytes m) = 4%nat ∧
    (m, COnion (gen_of o)) ∈ registered ∧
    image bl o = string_bytes m ++ head bl o ++ rest bl o.
Proof.
  destruct o; cbn [plain image head rest encodable magic_of gen_of]; intros Hp He; try done;
    (eexists; split; [reflexivity|split; [reflexivity|split; [unfold registered; set_solver|]]]);
    rewrite <- ?app_assoc, ?app_nil_r; try reflexivity.
  - destruct He as ([k ->] & [p ->] & _). unfold crypt_header. by rewrite <- !app_assoc.
  - destruct He as ([k ->] & [p ->] & _). by rewrite <- !app_assoc.
Qed.

(** Receive a message at the cursor: it is recognised, decodes to [decoded], and
    the cursor is left at what is inside it. *)
Lemma receive_onion bl o s :
  plain o → encodable defaultPort bl o → at_cursor s (image bl o) → s_E s = None →
  ∃ s1 s2, Recognise the_registry s = Ret (Some (COnion (gen_of o)), s1) ∧
    Decode (gen_of o) s1 = Ret ((decoded bl o, None), s2) ∧
    s_b s2 = s_b s ∧ s_E s2 = None ∧
    s_c s2 = s_c s + 4 + zlen (head bl o) ∧ at_cursor s2 (rest bl o).
Proof.
  intros Hp He Ha HE.
  destruct (image_split bl o Hp He) as (m & Hm & Hl & Hr & Himg). rewrite Himg in Ha.
  apply at_cursor_app in Ha as [A1 A2].
  destruct (reads_Recognise m _ Hr Hl s A1 HE) as (s1 & E1 & B1 & C1 & R1).
  assert (zlen (string_bytes m) = 4) as Z4 by (unfold zlen; lia). rewrite Z4 in *.
  assert (at_cursor s1 (head bl o ++ rest bl o)) as A3.
  { unfold at_cursor, Len in *. cbn in A2. by rewrite B1, C1. }
  destruct (Decode_run bl o s1 Hp He A3 R1) as (s2 & E2 & B2 & C2 & R2).
  apply at_cursor_app in A3 as [_ A5].
  exists s1, s2. split_and!; try done; [congruence|lia|].
  unfold at_cursor, Len in *. cbn in A5. by rewrite B2, C2.
Qed.
End DecodeFacts.

(** ** Lengths *)

Section LenFacts.
Context {cr : Crypto} {ma : Multiaddrs}.
Context (defaultPort : Z).

(** Bytes [Len] reserves beyond what the encoder writes: a hidden service message
    counts its routing header twice, a whisper message reserves the reply
    ciphers of an older layout. *)
Fixpoint slack (o : Onion) : Z :=
  match o with
  | OCrypt _ i | OForward _ i | OReverse _ i | OSession _ i | OExit _ i | OGetBalance _ i
  | OIntroQuery _ i | ORoute _ i | ODelay _ i => slack i
  | OHiddenService _ i => RoutingHeaderLen + slack i
  | OMessage _ => MessageLen - 705
  | ONil | OEnd | OBalance _ _ | OConfirmation _ | OResponse _ | OReady _ => 0
  end.

Lemma slack_nonneg o : 0 ≤ slack o.
Proof.
  induction o; cbn [slack]; change RoutingHeaderLen with 252; change MessageLen with 1316; lia.
Qed.

Lemma zlen_sealed x k p im :
  (Depth x = 0 ∨ 0 < Depth x ∧ (∃ q, ToPayloadPub x = Some q) ∧
     (Depth x - 1) * ReverseCryptLen ≤ zlen im) → zlen (sealed x k p im) = zlen im.
Proof.
  intros HD. unfold sealed. destruct HD as [->|(HD & [q ->] & Hc)].
  - by rewrite bool_decide_true, zlen_enciphered.
  - rewrite bool_decide_false by lia. rewrite zlen_app, !zlen_enciphered.
    rewrite <- zlen_app. by rewrite take_drop.
Qed.

Lemma zlen_reply h : zlen (reply_bytes h) = 396.
Proof. unfold reply_bytes. rewrite !zlen_app, zlen_arr, !zlen_three. lia. Qed.

Lemma zlen_intro x : IntroWire.ok x → zlen (intro_image x) = IntroLen.
Proof.
  intros ([[p E] He] & [q F]). unfold intro_image, IntroWire.fields. 
  rewrite !zlen_app, (zlen_common _ _ E), F, zlen_arr. unfold expiry_bytes. cbn [key_bytes].
  rewrite !zlen_le_put, zlen_arr, zlen_magic4 by done. done.
Qed.

Ltac len_step :=
  rewrite ?zlen_app, ?zlen_arr, ?zlen_le_put, ?zlen_1, ?zlen_three, ?zlen_sized,
    ?zlen_enciphered, ?zlen_enciphered_layers, ?zlen_reply; rewrite ?zlen_magic4 by done.

Ltac len_close IH :=
  first [rewrite (IH _ ltac:(eassumption)) | idtac]; cbn [mbind Out_bind]; f_equal; do 2 len_step;
  unfold CryptLen, SessionLen, ExitLen, GetBalanceLen, IntroQueryLen, HiddenServiceLen, RouteLen,
    BalanceLen, ConfirmationLen, ResponseLen, ReadyLen, MessageLen, ReplyCiphersLen, DelayLen,
    RoutingHeaderLen, ReverseCryptLen, ReverseLen, CryptLen, MagicLen, IVLen, CloakLen, PubKeyLen,
    IDLen, PrvKeyLen, Sha256Len, Uint16Len, Uint32Len, Uint64Len, AddrLen, BlindLen, HashLen;
  lia.

(** [Len] is the length of the image, plus the slack. *)
Lemma Onion_Len_image bl o :
  encodable defaultPort bl o → Onion_Len o = Ret (zlen (image bl o) + slack o).
Proof.
  revert bl; induction o; intros bl He; cbn [encodable image Onion_Len slack] in *; try done.
  - destruct He as ([k Hk] & [p Hp] & HD & Hi). rewrite Hk, Hp. unfold crypt_header.
    rewrite zlen_app, zlen_sealed by done. len_close IHo.
  - destruct He as [Ha Hi]. rewrite !zlen_app, (zlen_addr _ _ Ha). len_close IHo.
  - destruct He as [Ha Hi]. rewrite !zlen_app, (zlen_addr _ _ Ha). len_close IHo.
  - destruct He as ([h ->] & [p ->] & Hi). len_close IHo.
  - len_close IHo.
  - len_close IHo.
  - destruct He as [[p ->] Hi]. cbn [key_bytes]. len_close IHo.
  - destruct He as [Hx Hi]. rewrite !zlen_app, (zlen_intro _ Hx). len_close IHo.
  - destruct He as ([k ->] & [p ->] & Hi). len_close IHo.
  - len_close IHo.
  - len_close IHo.
  - len_close IHo.
  - destruct He as ([p ->] & [f ->] & [r ->]). cbn [key_bytes]. len_close IHo.
  - destruct He as ([p ->] & [f ->] & [r ->]). cbn [key_bytes]. len_close IHo.
  - len_close IHo.
Qed.

Lemma codec_Encode_run bl o `{!CryptoLaws} :
  encodable defaultPort bl o →
  ∃ s r, codec_Encode defaultPort bl o = Ret s ∧ s_b s = image bl o ++ r ∧ zlen r = slack o ∧
    s_E s = None.
Proof.
  intros He. unfold codec_Encode. rewrite (Onion_Len_image bl o He). cbn [mbind Out_bind].
  pose proof (slack_nonneg o). pose proof (zlen_nonneg (image bl o)).
  set (n := zlen (image bl o) + slack o) in *.
  assert (Len (New (Z.to_nat n)) = n) as HL
    by (unfold Len, New, zlen; cbn; rewrite length_replicate; lia).
  destruct (Encode_emits defaultPort bl o He (New (Z.to_nat n))) as (s & r & E & B & L & C & N).
  { done. } { rewrite HL. change (s_c (New (Z.to_nat n))) with 0. lia. }
  cbn [New s_b s_c] in B. rewrite take_0 in B. cbn [app] in B. exists s, r. rewrite E. cbn [mbind Out_bind snd]. split_and!; try done.
  unfold Len in *. rewrite B, HL in L. rewrite zlen_app in L. lia.
Qed.

Lemma at_cursor_front s bs r : s_b s = bs ++ r → at_cursor (NewFrom (s_b s)) bs.
Proof.
  intros ->. unfold at_cursor, NewFrom, Load, Len. cbn. rewrite zlen_app, drop_0, take_app_length.
  pose proof (zlen_nonneg r). split_and!; [lia|lia|done].
Qed.
End LenFacts.

(** ** One layer of encryption *)

Section Peel.
Context {cr : Crypto} {crl : CryptoLaws} {ma : Multiaddrs} {mal : MultiaddrLaws}.
Context (defaultPort : Z).

Lemma at_cursor_split s bs :
  at_cursor s bs →
  ∃ p r, s_b s = p ++ bs ++ r ∧ zlen p = s_c s.
Proof.
  intros (Hc & Hl & T). exists (take (Z.to_nat (s_c s)) (s_b s)),
    (drop (length bs) (drop (Z.to_nat (s_c s)) (s_b s))). split.
  - rewrite <- T at 1. by rewrite !take_drop.
  - unfold Len, zlen in *. rewrite length_take. pose proof (zlen_nonneg bs). lia.
Qed.

Lemma BudgeUp_front seed s p bs r :
  s_b s = p ++ bs ++ r → zlen p = s_c s →
  ∃ s' r', BudgeUp seed s = Ret s' ∧ s_b s' = bs ++ r' ∧ Len s' = Len s ∧ s_E s' = s_E s.
Proof.
  intros B Hp. pose proof (zlen_nonneg p). pose proof (zlen_nonneg (bs ++ r)).
  destruct (BudgeUp_run seed s) as (pad & s' & E & Lp & B' & C & N & _).
  { unfold Len. rewrite B, zlen_app. lia. }
  exists s', (r ++ pad). split; [done|].
  assert (s_b s' = bs ++ r ++ pad) as B2.
  { rewrite B', B. replace (Z.to_nat (s_c s)) with (length p) by (unfold zlen in *; lia).
    by rewrite drop_app_length, <- app_assoc. }
  split_and!; [done| |done]. unfold Len. rewrite B2, B, !zlen_app. lia.
Qed.

(** The holder of the private key for a crypt's receiver finds the message
    addressed to it, deciphers it, and has the inner message at the front of
    its buffer. *)
Lemma crypt_layer bl x i prv s seed :
  encodable defaultPort bl (OCrypt x i) → Depth x = 0 → ToHeaderPub x = Some (PubKey prv) →
  at_cursor s (image bl (OCrypt x i)) → s_E s = None →
  ∃ s1 x' s2 s3 s4 r,
    Recognise the_registry s = Ret (Some (COnion Crypt_Gen), s1) ∧
    Decode Crypt_Gen s1 = Ret ((OCrypt x' ONil, None), s2) ∧
    Match (Crypt_Cloak x') (Pub_ToBytes (PubKey prv)) = true ∧
    Crypt_Decrypt prv x' s2 = Ret s3 ∧ BudgeUp seed s3 = Ret s4 ∧
    s_b s4 = image (λ n, bl (S n)) i ++ r ∧ Len s4 = Len s ∧ s_E s4 = None.
Proof.
  intros He HD HT Ha HE.
  destruct (receive_onion defaultPort bl (OCrypt x i) s I He Ha HE)
    as (s1 & s2 & E1 & E2 & B2 & N2 & C2 & A2).
  destruct He as ([k Hk] & _ & _ & Hi). cbn [decoded head rest gen_of] in *.
  rewrite Hk, HT in *. unfold sealed in A2. rewrite bool_decide_true in A2 by done.
  apply at_cursor_split in A2 as (p & r & Bp & Lp).
  set (blk := secret k (PubKey prv)) in *.
  destruct (enciphered_app blk (Crypt_IV x) (enciphered blk (Crypt_IV x) (image (λ n, bl (S n)) i)) r)
    as (d & Ed & Ld).
  rewrite enciphered_twice in Ed.
  eexists s1, _, s2. 
  destruct (BudgeUp_front seed
    (with_b (p ++ image (λ n, bl (S n)) i ++ d) s2) p (image (λ n, bl (S n)) i) d)
    as (s4 & r' & E4 & B4 & L4 & N4); [done|done|].
  eexists _, s4, r'. split; [done|]. split; [done|]. split; [apply Match_Cloak|].
  split.
  { unfold Crypt_Decrypt. cbn [FromPub Crypt_IV]. rewrite GetBlock_comm.
    change (GetBlock k (PubKey prv)) with (Some blk).
    rewrite (encipher_from_app blk _ p (enciphered blk (Crypt_IV x) (image (λ n, bl (S n)) i) ++ r))
      by done. by rewrite Ed. }
  split_and!; [done|done| |by rewrite N4].
  rewrite L4. unfold Len. cbn. rewrite <- B2, Bp, !zlen_app, zlen_enciphered.
  unfold zlen in *. lia.
Qed.
End Peel.

(** ** Replies *)

Section Reply.
Context {cr : Crypto}.

Lemma enciphered_comm k1 i1 k2 i2 b :
  enciphered k1 i1 (enciphered k2 i2 b) = enciphered k2 i2 (enciphered k1 i1 b).
Proof.
  destruct (Encipher_comm (Some k2) (Some k1) i2 i1 b) as [H|[H|H]]; try done.
  unfold Encipher in H. cbn [mbind Out_bind] in H. injection H. done.
Qed.

Lemma enciphered_layers_cons h iv l b :
  enciphered_layers ((h, iv) :: l) b = enciphered_layers l (enciphered (NewCipher h) iv b).
Proof. done. Qed.

Lemma enciphered_layers_push h iv l b :
  enciphered_layers l (enciphered (NewCipher h) iv b) = enciphered (NewCipher h) iv (enciphered_layers l b).
Proof.
  revert b; induction l as [|[h' iv'] l IH]; intros b; [done|].
  by rewrite !enciphered_layers_cons, enciphered_comm, IH.
Qed.

(** The order in which the layers are taken off does not matter. *)
Lemma enciphered_layers_perm l l' b : l ≡ₚ l' → enciphered_layers l b = enciphered_layers l' b.
Proof.
  intros H. revert b; induction H as [|[h iv] l l' _ IH|[h iv] [h' iv'] l|l1 l2 l3 _ IH1 _ IH2]; intros b.
  - done.
  - by rewrite !enciphered_layers_cons.
  - by rewrite !enciphered_layers_cons, enciphered_comm.
  - by rewrite IH1.
Qed.

Lemma enciphered_layers_twice l b : enciphered_layers l (enciphered_layers l b) = b.
Proof.
  revert b; induction l as [|[h iv] l IH]; intros b; [done|].
  rewrite !enciphered_layers_cons, enciphered_layers_push, IH. apply enciphered_twice.
Qed.

Lemma FormatReply_run header c n res :
  ∃ s, FormatReply header c n res = Ret s ∧
    s_b s = arr_list header ++ enciphered_layers (layers_of c n) res ∧ s_E s = None.
Proof.
  pose proof (zlen_nonneg res).
  unfold FormatReply. cbv zeta. set (N := Z.to_nat (RoutingHeaderLen + zlen res)).
  assert (zlen (replicate N x00) = 252 + zlen res) as LN.
  { unfold zlen, N. rewrite length_replicate. change RoutingHeaderLen with 252.
    unfold zlen. lia. }
  unfold New at 1. cbn [s_b]. change RoutingHeaderLen with 252.
  rewrite (gocopy_in (replicate N x00)) by lia. cbn [mbind Out_bind].
  rewrite take_ge by (rewrite arr_len; lia).
  set (b1 := overlay _ (arr_list header) _).
  assert (zlen b1 = 252 + zlen res) as L1.
  { unfold b1. rewrite zlen_overlay; [done|]. rewrite arr_len. unfold zlen in *. lia. }
  rewrite (gocopy_in b1) by lia. cbn [mbind Out_bind].
  rewrite (take_ge res) by (unfold zlen in *; lia).
  assert (overlay (Z.to_nat 252) res b1 = arr_list header ++ res) as ->.
  { unfold overlay. rewrite drop_ge, app_nil_r by (unfold zlen in *; lia). f_equal.
    unfold b1, overlay. rewrite take_0. cbn [app].
    replace (Z.to_nat 252) with (length (arr_list header)) by (rewrite arr_len; lia).
    apply take_app_length. }
  rewrite (encipher_layers_app _ (arr_list header) res); [|done|by rewrite zlen_arr].
  eexists. split; [done|]. done.
Qed.
End Reply.

(** ** Properties *)

Section Properties.
Context {cr : Crypto} {crl : CryptoLaws} {ma : Multiaddrs} {mal : MultiaddrLaws}.
Context (defaultPort : Z).

(** C33: encoding an onion whose layers are complete never panics and never
    fails: the splice [codec.Encode] allocates by [Len] ends up holding exactly
    the specified image of the message, whatever the nesting, the depths of its
    crypts and the blinding factors, followed by as many spare bytes as [Len]
    reserved too many (none, except for hidden service and whisper messages). *)
Theorem codec_Encode_image bl o :
  encodable defaultPort bl o →
  ∃ s r, codec_Encode defaultPort bl o = Ret s ∧ s_b s = image bl o ++ r ∧ zlen r = slack o.
Proof.
  intros He. destruct (codec_Encode_run defaultPort bl o He) as (s & r & E & B & L & _). eauto.
Qed.

(** C23: an encrypted layer opens for its receiver and only the inner message is
    left: when [Crypt.Encode] sealed a message for the holder of [prv], the
    receiver finds the cloaked key to match its own, [Decrypt] with [prv]
    recovers the plaintext by the other half of the Diffie-Hellman exchange, and
    [BudgeUp] brings the inner message to the front of a buffer of the same
    length. *)
Theorem crypt_peels bl x i prv seed :
  encodable defaultPort bl (OCrypt x i) → Depth x = 0 → ToHeaderPub x = Some (PubKey prv) →
  ∃ s s1 x' s2 s3 s4 r, codec_Encode defaultPort bl (OCrypt x i) = Ret s ∧
    Recognise the_registry (NewFrom (s_b s)) = Ret (Some (COnion Crypt_Gen), s1) ∧
    Decode Crypt_Gen s1 = Ret ((OCrypt x' ONil, None), s2) ∧
    Match (Crypt_Cloak x') (Pub_ToBytes (PubKey prv)) = true ∧
    Crypt_Decrypt prv x' s2 = Ret s3 ∧ BudgeUp seed s3 = Ret s4 ∧
    s_b s4 = image (λ n, bl (S n)) i ++ r ∧ Len s4 = Len s.
Proof.
  intros He HD HT. destruct (codec_Encode_run defaultPort bl _ He) as (s & r & E & B & _).
  destruct (crypt_layer defaultPort bl x i prv (NewFrom (s_b s)) seed He HD HT
              (at_cursor_front s _ r B) eq_refl)
    as (s1 & x' & s2 & s3 & s4 & r' & H).
  exists s, s1, x', s2, s3, s4, r'. split; [done|]. naive_solver.
Qed.

(** A reply formatted by the exit opens for the client in three hops: the
    routing header travels in the clear, and when the three relays of the
    return path, in whatever order, have each applied the cipher of their own
    payload key and the sender's public key, the response is back. *)
Theorem FormatReply_opens header (keys plds : three Prv) nonces res l :
  let '(k0, k1, k2) := keys in
  let '(p0, p1, p2) := plds in
  let '(n0, n1, n2) := nonces in
  l ≡ₚ [(ComputeSharedSecret p0 (PubKey k0), n0); (ComputeSharedSecret p1 (PubKey k1), n1);
        (ComputeSharedSecret p2 (PubKey k2), n2)] →
  ∃ s s', FormatReply header (GenCiphers keys (PubKey p0, PubKey p1, PubKey p2)) nonces res = Ret s ∧
    take 252 (s_b s) = arr_list header ∧
    encipher_layers l RoutingHeaderLen s = Ret (tt, s') ∧
    s_b s' = arr_list header ++ res.
Proof.
  destruct keys as [[k0 k1] k2], plds as [[p0 p1] p2], nonces as [[n0 n1] n2]. intros Hl.
  destruct (FormatReply_run header (GenCiphers (k0, k1, k2) (PubKey p0, PubKey p1, PubKey p2))
              (n0, n1, n2) res) as (s & E & B & N).
  exists s. eexists. split; [done|]. split.
  { rewrite B. rewrite take_app_le by (rewrite arr_len; lia). apply take_ge. rewrite arr_len. lia. }
  split; [by apply (encipher_layers_app l (arr_list header)); [|rewrite zlen_arr]|].
  cbn [s_b with_b]. f_equal. rewrite (enciphered_layers_perm _ _ _ Hl).
  unfold ComputeSharedSecret. rewrite (ecdh_comm p0), (ecdh_comm p1), (ecdh_comm p2).
  apply enciphered_layers_twice.
Qed.
End Properties.

(** ** Witnesses *)

#[local] Existing Instances Toy.crypto Toy.laws Toy.multiaddrs Toy.multiaddr_laws.

Module OnionWitness.
Definition addr : option Toy.prv := None.
Definition prv1 : arr 32 := arr_of 32 [x01; x02].
Definition prv2 : arr 32 := arr_of 32 [x07].
Definition a1 : bytes := [x04; x01; x02; x03].
Definition crypt1 : CryptR (cr := Toy.crypto) :=
  MkCrypt (cr := Toy.crypto) 0 (Some prv1) None (Some prv2) (arr_of 16 [x05]) (arr_zero 8) None None.
Definition fwd : Onion (cr := Toy.crypto) (ma := Toy.multiaddrs) :=
  OForward (ma := Toy.multiaddrs) (Some a1) (OConfirmation (arr_of 8 [x09])).
Definition onion1 : Onion (cr := Toy.crypto) (ma := Toy.multiaddrs) := OCrypt crypt1 fwd.
Definition blind : nat → Blinder := λ n, arr_of 4 [z2b (Z.of_nat n)].

Lemma fwd_encodable bl : encodable (cr := Toy.crypto) (ma := Toy.multiaddrs) 80 bl fwd.
Proof. split; [|done]. exists a1. split; [done|]. split; [by vm_compute|by vm_compute]. Qed.

Lemma onion1_encodable : encodable (cr := Toy.crypto) (ma := Toy.multiaddrs) 80 blind onion1.
Proof.
  split; [by exists prv2|]. split; [by exists prv1|]. split; [by left|]. apply fwd_encodable.
Qed.
End OnionWitness.

Lemma codec_Encode_image_witness :
  ∃ s r, codec_Encode (cr := Toy.crypto) (ma := Toy.multiaddrs) 80 OnionWitness.blind
           OnionWitness.onion1 = Ret s ∧
    s_b s = image (cr := Toy.crypto) (ma := Toy.multiaddrs) OnionWitness.blind OnionWitness.onion1 ++ r ∧
    zlen r = 0.
Proof.
  apply (codec_Encode_image (crl := Toy.laws) 80 OnionWitness.blind OnionWitness.onion1).
  exact OnionWitness.onion1_encodable.
Defined.

Lemma crypt_peels_witness :
  ∃ s s1 x' s2 s3 s4 r,
    codec_Encode (cr := Toy.crypto) (ma := Toy.multiaddrs) 80 OnionWitness.blind
      OnionWitness.onion1 = Ret s ∧
    Recognise the_registry (NewFrom (s_b s)) = Ret (Some (COnion Crypt_Gen), s1) ∧
    Decode Crypt_Gen s1 = Ret ((OCrypt x' ONil, None), s2) ∧
    Match (Crypt_Cloak x') (Pub_ToBytes OnionWitness.prv1) = true ∧
    Crypt_Decrypt OnionWitness.prv1 x' s2 = Ret s3 ∧ BudgeUp (arr_zero 32) s3 = Ret s4 ∧
    s_b s4 = image (cr := Toy.crypto) (ma := Toy.multiaddrs) (λ n, OnionWitness.blind (S n))
               OnionWitness.fwd ++ r ∧ Len s4 = Len s.
Proof.
  apply (crypt_peels (crl := Toy.laws) (mal := Toy.multiaddr_laws) 80 OnionWitness.blind
           OnionWitness.crypt1 OnionWitness.fwd OnionWitness.prv1 (arr_zero 32)).
  - exact OnionWitness.onion1_encodable.
  - reflexivity.
  - reflexivity.
Defined.

Lemma FormatReply_opens_witness :
  ∃ s s', FormatReply (cr := Toy.crypto) (arr_zero 252)
            (GenCiphers (cr := Toy.crypto) (OnionWitness.prv1, OnionWitness.prv2, OnionWitness.prv1)
               (OnionWitness.prv2, OnionWitness.prv1, OnionWitness.prv1))
            (arr_zero 16, arr_zero 16, arr_zero 16) [x0a; x0b] = Ret s ∧
    take 252 (s_b s) = arr_list (arr_zero 252) ∧
    encipher_layers (cr := Toy.crypto)
      [(ComputeSharedSecret (cr := Toy.crypto) OnionWitness.prv2 OnionWitness.prv1, arr_zero 16);
       (ComputeSharedSecret (cr := Toy.crypto) OnionWitness.prv1 OnionWitness.prv2, arr_zero 16);
       (ComputeSharedSecret (cr := Toy.crypto) OnionWitness.prv1 OnionWitness.prv1, arr_zero 16)]
      RoutingHeaderLen s = Ret (tt, s') ∧
    s_b s' = arr_list (arr_zero 252) ++ [x0a; x0b].
Proof.
  apply (FormatReply_opens (crl := Toy.laws) (arr_zero 252)
           (OnionWitness.prv1, OnionWitness.prv2, OnionWitness.prv1)
           (OnionWitness.prv2, OnionWitness.prv1, OnionWitness.prv1)
           (arr_zero 16, arr_zero 16, arr_zero 16) [x0a; x0b]).
  reflexivity.
Defined.
