(* ===== verification/Robust.v ===== *)
(** * Decoding arbitrary bytes

    The other half of the codec's contract: what [Decode] does on a buffer that
    nobody encoded.  [Consumes r n] says that the reader [r] is total on any
    buffer with [n] bytes left, whatever they are.  The fixed-size messages check
    for their length first and all but one never panic; the hidden service message
    reads more than it checks for.  The messages with a length prefix trust it.

    What an onion message becomes on the wire and back is stated here, too, because
    it needs the hidden service message's decoder on bytes that it did not write. *)

From S2P Require Export OnionPeel.

Class Consumes {A} (r : GoM Splice A) (n : Z) : Prop := {
  consumes_nonneg : 0 ≤ n;
  consumes_run s : 0 ≤ s_c s → s_c s + n ≤ Len s →
    ∃ v s', r s = Ret (v, s') ∧ s_b s' = s_b s ∧ s_c s' = s_c s + n;
}.
#[export] Hint Mode Consumes - ! - : typeclass_instances.

#[export] Instance consumes_bind {A B} (r : GoM Splice A) (k : A → GoM Splice B) n m :
  Consumes r n → (∀ v, Consumes (k v) m) → Consumes (x ← r; k x) (n + m).
Proof.
  intros R K.
  assert (0 ≤ n + m ∨ ∀ v : A, False) as Hnm.
  { destruct (decide (0 ≤ n + m)); [by left|]. right. intros v.
    pose proof (consumes_nonneg (r := r)). pose proof (consumes_nonneg (r := k v)). lia. }
  assert (0 ≤ m ∨ ∀ v : A, False) as Hm.
  { destruct (decide (0 ≤ m)); [by left|]. right. intros v.
    pose proof (consumes_nonneg (r := k v)). lia. }
  pose proof (consumes_nonneg (r := r)) as Hn.
  assert (0 ≤ m) as Hm'.
  { destruct Hm as [|F]; [done|]. exfalso.
    destruct (consumes_run (r := r) (MkSplice (replicate (Z.to_nat n) x00) 0 [] None)) as (v & _).
    - done.
    - unfold Len, zlen. cbn. rewrite length_replicate. lia.
    - exact (F v). }
  split; [lia|]. intros s Hc Hl.
  destruct (consumes_run (r := r) s) as (v & s1 & E1 & B1 & C1); [done|lia|].
  destruct (consumes_run (r := k v) s1) as (w & s2 & E2 & B2 & C2); [lia|unfold Len in *; rewrite B1; lia|].
  exists w, s2. unfold mbind, GoM_bind. rewrite E1. split_and!; [done|congruence|lia].
Qed.

#[export] Instance consumes_ret {A} (v : A) : Consumes (mret v) 0.
Proof. split; [done|]. intros s _ _. eexists _, _. split; [done|]. cbn. split; [done|lia]. Qed.

#[export] Instance consumes_seg name : Consumes (seg name) 0.
Proof. split; [done|]. intros s _ _. eexists _, _. split; [done|]. cbn. split; [done|lia]. Qed.

#[export] Instance consumes_set_E e : Consumes (set_E e) 0.
Proof. split; [done|]. intros s _ _. eexists _, _. split; [done|]. cbn. split; [done|lia]. Qed.

Lemma consumes_eq {A} (r : GoM Splice A) n m : Consumes r n → n = m → Consumes r m.
Proof. by intros ? ->. Qed.

(** A window that is then interpreted by something total on that many bytes. *)
Lemma consumes_window {A} n (k : bytes → GoM Splice A) :
  0 ≤ n → (∀ w, zlen w = n → Consumes (k w) 0) → Consumes (w ← window n; k w) n.
Proof.
  intros Hn K. split; [done|]. intros s Hc Hl. unfold window, mbind, GoM_bind.
  rewrite (goslice_in (s_b s)) by (unfold Len in *; lia). cbn [mbind Out_bind].
  set (w := take _ _).
  assert (zlen w = n) as Hw.
  { unfold w, Len, zlen in *. rewrite length_take, length_drop. lia. }
  destruct (K w Hw) as [_ R].
  destruct (R (with_c (s_c s + n) s)) as (v & s' & E & B & C).
  { cbn. lia. } { unfold Len in *. cbn. lia. }
  exists v, s'. split; [done|]. cbn in B, C. split; [done|lia].
Qed.

Lemma get_le_total k w : zlen w = Z.of_nat k → ∃ n, get_le k w = Ret n.
Proof. 
  intros Hw. rewrite <- (le_put_get w). replace (length w) with k by (unfold zlen in *; lia).
  rewrite get_le_put. by eexists.
Qed.

Lemma consumes_lift {A B} (o : Out A) (k : A → GoM Splice B) v :
  o = Ret v → Consumes (k v) 0 → Consumes (x ← lift o; k x) 0.
Proof.
  intros -> [_ R]. split; [done|]. intros s Hc Hl.
  destruct (R s Hc Hl) as (w & s' & E). exists w, s'. done.
Qed.

Section Readers.
Context {cr : Crypto} {ma : Multiaddrs}.

Ltac fixed := apply consumes_window; [done|]; intros w Hw.
Ltac number k w Hw :=
  apply consumes_window; [done|]; intros w Hw; destruct (get_le_total k w Hw) as [x Hx];
  eapply consumes_lift; [exact Hx|].

#[export] Instance consumes_arr n name : Consumes (read_arr n name) (Z.of_nat n).
Proof. apply consumes_window; [lia|]. intros w Hw. apply (consumes_bind _ _ 0 0); apply _. Qed.

#[export] Instance consumes_Byte : Consumes ReadByte 1.
Proof.
  split; [done|]. intros s Hc Hl. unfold ReadByte, goindex. rewrite bool_decide_true by (unfold Len in *; lia).
  destruct (lookup_lt_is_Some_2 (s_b s) (Z.to_nat (s_c s))) as [b Hb]; [unfold Len, zlen in *; lia|].
  rewrite Hb. by eexists _, _.
Qed.

#[export] Instance consumes_Hash : Consumes ReadHash 32.
Proof. exact (consumes_arr 32 "hash"). Qed.
#[export] Instance consumes_ID : Consumes ReadID 8.
Proof. exact (consumes_arr 8 "Keys"). Qed.
#[export] Instance consumes_IV : Consumes ReadIV 16.
Proof. exact (consumes_arr 16 "IV"). Qed.
#[export] Instance consumes_Cloak : Consumes ReadCloak 8.
Proof. exact (consumes_arr 8 "cloak"). Qed.
#[export] Instance consumes_Signature : Consumes ReadSignature 64.
Proof. exact (consumes_arr 64 "signature"). Qed.
#[export] Instance consumes_Ciphers : Consumes ReadCiphers 96.
Proof. eapply consumes_eq; [unfold ReadCiphers; apply _|done]. Qed.
#[export] Instance consumes_Nonces : Consumes ReadNonces 48.
Proof. eapply consumes_eq; [unfold ReadNonces; apply _|done]. Qed.

#[export] Instance consumes_Prvkey : Consumes ReadPrvkey 32.
Proof. fixed. apply (consumes_bind _ _ 0 0); apply _. Qed.

(** A key that does not parse leaves the error in the splice and goes on. *)
#[export] Instance consumes_Pubkey k : Consumes (ReadPubkey k) 33.
Proof.
  fixed. destruct (PubFromBytes w). apply (consumes_bind _ _ 0 0); [apply _|].
  intros _. apply (consumes_bind _ _ 0 0); apply _.
Qed.

#[export] Instance consumes_Uint16 : Consumes ReadUint16 2.
Proof.
  unfold ReadUint16. apply (consumes_bind _ _ 0 2); [apply _|]. intros _.
  number 2%nat w Hw. apply (consumes_bind _ _ 0 0); apply _.
Qed.
#[export] Instance consumes_Uint32 : Consumes ReadUint32 4.
Proof. number 4%nat w Hw. apply (consumes_bind _ _ 0 0); apply _. Qed.
#[export] Instance consumes_Uint64 : Consumes ReadUint64 8.
Proof. number 8%nat w Hw. apply (consumes_bind _ _ 0 0); apply _. Qed.
#[export] Instance consumes_MilliSatoshi : Consumes ReadMilliSatoshi 8.
Proof. number 8%nat w Hw. apply (consumes_bind _ _ 0 0); apply _. Qed.
#[export] Instance consumes_Duration : Consumes ReadDuration 8.
Proof. number 8%nat w Hw. apply (consumes_bind _ _ 0 0); apply _. Qed.
#[export] Instance consumes_Time : Consumes ReadTime 8.
Proof. number 8%nat w Hw. apply (consumes_bind _ _ 0 0); apply _. Qed.

#[export] Instance consumes_GetRoutingHeader : Consumes GetRoutingHeaderFromCursor 252.
Proof.
  split; [done|]. intros s Hc Hl.
  unfold GetRoutingHeaderFromCursor, get, Advance, Inc, seg, lift, mbind, GoM_bind, mret, GoM_ret,
    GetCursor, GetRange, range_bounds. cbn -[goslice].
  change RoutingHeaderLen with 252. rewrite !bool_decide_false by lia.
  rewrite (goslice_in (s_b s)) by (unfold Len in *; lia). cbn [mbind Out_bind].
  eexists _, _. split; [done|]. done.
Qed.
#[export] Instance consumes_RoutingHeader : Consumes ReadRoutingHeader 252.
Proof. eapply consumes_eq; [unfold ReadRoutingHeader; apply _|done]. Qed.
End Readers.

#[export] Hint Opaque GetRoutingHeaderFromCursor ReadRoutingHeader : typeclass_instances.

(** ** Fixed-size messages never panic *)

Section FixedSize.
Context {cr : Crypto} {ma : Multiaddrs}.

(** The length each fixed-size decoder checks for, after the magic. *)
Definition fixed_need (o : Onion) : option Z :=
  match o with
  | OCrypt _ _ => Some (CryptLen - MagicLen)
  | OSession _ _ => Some (SessionLen - MagicLen)
  | OGetBalance _ _ => Some (GetBalanceLen - MagicLen)
  | OIntroQuery _ _ => Some (IntroQueryLen - MagicLen)
  | ORoute _ _ => Some (RouteLen - MagicLen)
  | OBalance _ _ => Some (BalanceLen - MagicLen)
  | OConfirmation _ => Some (ConfirmationLen - MagicLen)
  | OReady _ => Some (ReadyLen - MagicLen)
  | ODelay _ _ => Some (DelayLen - MagicLen)
  | OHiddenService _ _ => Some (HiddenServiceLen - MagicLen)
  | OForward _ _ | OReverse _ _ | OExit _ _ | OResponse _ | OMessage _ => None   (* with a length prefix *)
  | ONil | OEnd => None
  end.

(** The bytes a decoder reads beyond those it checks for: a hidden service message
    reads its routing header twice, and checks for a magic that is read before. *)
Definition overread (o : Onion) : Z :=
  match o with OHiddenService _ _ => RoutingHeaderLen - MagicLen | _ => 0 end.

(** What the decoders promise on any bytes at all. *)
Definition total_on {A} (m : GoM Splice (A * option error)) (x : A) (need : Z) : Prop :=
  ∀ s, 0 ≤ s_c s ≤ Len s →
    ∃ y e s', m s = Ret ((y, e), s') ∧ s_b s' = s_b s ∧
      (e = None ↔ need ≤ Remaining s) ∧ (e ≠ None → y = x ∧ s' = s).

Lemma checked_total {A} need magic (x : A) d n :
  Consumes d n → n ≤ need → total_on (checked need magic x d) x need.
Proof.
  intros [Hn R] Hle s Hc. unfold checked, get, mbind, GoM_bind, TooShort. 
  case_bool_decide as HR.
  - destruct (R s) as (v & s' & E & B & C); [lia|unfold Remaining, GetCursor in HR; lia|].
    rewrite E. exists v, None, s'. split_and!; try done.
  - eexists x, _, s. split; [done|]. split_and!; done.
Qed.

Lemma on_data_total {A} (f : A → Onion) m x need :
  total_on m x need → total_on (on_data f m) (f x) need.
Proof.
  intros T s Hc. destruct (T s Hc) as (y & e & s' & E & B & I & N).
  exists (f y), e, s'. unfold on_data, mbind, GoM_bind. rewrite E.
  split_and!; try done. intros He. by destruct (N He) as [-> ->].
Qed.

Lemma Decode_fixed_total o need : fixed_need o = Some need → (∀ x i, o ≠ OHiddenService x i) →
  total_on (Decode o) o need.
Proof.
  intros Hn Hh. destruct o; cbn [fixed_need] in Hn; injection Hn as <- || discriminate Hn; cbn [Decode].
  all: try match goal with
       | |- total_on (on_data ?f (checked _ _ ?x _)) _ _ => apply (on_data_total f _ x)
       | |- total_on (on_data ?f (?d ?x)) _ _ => apply (on_data_total f _ x)
       end; try (eapply checked_total; [apply _|by vm_compute]).
  by destruct (Hh x o).
Qed.

(** *** The hidden service message *)

(** A reader that is first in line runs, and the cursor stands behind what it read. *)
Lemma consumes_first {A B} (r : GoM Splice A) n (k : A → GoM Splice B) s c :
  Consumes r n → 0 ≤ s_c s → s_c s + n ≤ Len s → c = s_c s + n →
  ∃ v s', (r ≫= k) s = k v s' ∧ s_b s' = s_b s ∧ s_c s' = c ∧ Len s' = Len s.
Proof.
  intros [_ R] H0 H1 ->. destruct (R s H0 H1) as (v & s' & E & Bs & Cs). exists v, s'.
  rewrite (bind_run _ _ _ _ _ E). split_and!; try done. unfold Len. by rewrite Bs.
Qed.

Lemma ReadID_run s : 0 ≤ s_c s → s_c s + 8 ≤ Len s →
  ∃ id s', ReadID s = Ret (id, s') ∧ s_b s' = s_b s ∧ s_c s' = s_c s + 8 ∧ Len s' = Len s ∧
    arr_list id = take 8 (drop (Z.to_nat (s_c s)) (s_b s)).
Proof.
  intros H0 H1. unfold ReadID, read_arr, window, seg, mbind, GoM_bind, mret, GoM_ret.
  rewrite goslice_in by (unfold Len in *; lia). cbn [mbind Out_bind].
  replace (Z.to_nat (s_c s + Z.of_nat 8 - s_c s)) with 8%nat by lia.
  eexists _, _. split; [done|]. split; [done|]. split; [done|]. split; [done|].
  apply arr_list_of. unfold Len, zlen in *. rewrite length_take, length_drop. lia.
Qed.

Ltac eat n := lazymatch goal with |- context [(?r ≫= ?k) ?s] =>
  let E := fresh "E" in
  destruct (consumes_first r n k s _ _ ltac:(lia) ltac:(lia) eq_refl) as (? & ? & E & ? & ? & ?); rewrite E; clear E end.

Lemma Intro_fields_run s : 0 ≤ s_c s → s_c s + (IntroLen - MagicLen) ≤ Len s →
  ∃ ad s', Intro.Decode s = Ret ((ad, None), s') ∧ s_b s' = s_b s ∧ s_c s' = s_c s + (IntroLen - MagicLen) ∧
    Len s' = Len s ∧ arr_list (Ads.ad_ID (Intro.base ad)) = take 8 (drop (Z.to_nat (s_c s)) (s_b s)).
Proof.
  change (IntroLen - MagicLen) with 152. intros H0 H1. unfold Intro.Decode.
  rewrite (bind_run _ _ s s s) by done. change (IntroLen - MagicLen) with 152.
  unfold TooShort. rewrite bool_decide_true by (unfold Remaining, GetCursor; lia).
  destruct (ReadID_run s) as (id & s1 & E1 & B1 & C1 & L1 & Hid); [lia|lia|]. rewrite (bind_run _ _ _ _ _ E1).
  eat 33. eat 33. eat 4. eat 2. eat 8. eat 64.
  eexists _, _. split; [done|]. cbn. split_and!; try done; try congruence; lia.
Qed.
Lemma RoutingHeader_panics s : 0 ≤ s_c s ≤ Len s → Len s < s_c s + 252 → GetRoutingHeaderFromCursor s = Panic PSlice.
Proof.
  intros Hc Hl. unfold GetRoutingHeaderFromCursor, get, Advance, Inc, seg, lift, mbind, GoM_bind, mret, GoM_ret,
    GetCursor, GetRange, range_bounds. cbn -[goslice]. change RoutingHeaderLen with 252.
  rewrite !bool_decide_false by lia. by rewrite goslice_out by (unfold Len in *; lia).
Qed.

(** All is read up to the second reading of the routing header. *)
Lemma HiddenService_Decode_prefix x s : 0 ≤ s_c s ≤ Len s → 552 ≤ Remaining s →
  ∃ i c n s', HiddenService_Decode x s = (_ ← ReadRoutingHeader; mret (MkHiddenService i c n (HS_Header x), None)) s' ∧
    s_b s' = s_b s ∧ s_c s' = s_c s + 548 ∧ Len s' = Len s ∧
    arr_list (Ads.ad_ID (Intro.base i)) = take 8 (drop (Z.to_nat (s_c s)) (s_b s)).
Proof.
  unfold Remaining, GetCursor. intros Hc H1. unfold HiddenService_Decode. rewrite (bind_run _ _ s s s) by done.
  change (HiddenServiceLen - MagicLen) with 552.
  unfold TooShort. rewrite bool_decide_true by (unfold Remaining, GetCursor; lia).
  destruct (Intro_fields_run s) as (i & s1 & E1 & B1 & C1 & L1 & Hid); [lia|change (IntroLen - MagicLen) with 152; lia|].
  change (IntroLen - MagicLen) with 152 in C1. rewrite (bind_run _ _ _ _ _ E1).
  eat 96. eat 48. eat 252. eexists _, _, _, _. split; [done|]. split_and!; try done; try congruence; lia.
Qed.

(** What its decoder does with any bytes it does not find too few: it panics on fewer
    than 248 more than it checks for. *)
Lemma HiddenService_Decode_run x s : 0 ≤ s_c s ≤ Len s → 552 ≤ Remaining s →
  (Remaining s < 800 → HiddenService_Decode x s = Panic PSlice) ∧
  (800 ≤ Remaining s → ∃ y s', HiddenService_Decode x s = Ret ((y, None), s') ∧ s_b s' = s_b s ∧
     arr_list (Ads.ad_ID (Intro.base (HS_Intro y))) = take 8 (drop (Z.to_nat (s_c s)) (s_b s))).
Proof.
  intros Hc H1. destruct (HiddenService_Decode_prefix x s Hc H1) as (i & c & n & s' & E & B & C & L & Hid).
  unfold Remaining, GetCursor in *. rewrite E. split; intros HR.
  - apply bind_panic, bind_panic. apply RoutingHeader_panics; lia.
  - destruct (consumes_first ReadRoutingHeader 252 (λ _, mret (MkHiddenService i c n (HS_Header x), @None error)) s' _ _ ltac:(lia) ltac:(lia) eq_refl)
      as (h & s2 & E2 & B2 & _ & _).
    exists (MkHiddenService i c n (HS_Header x)), s2. rewrite E2. split_and!; [done|congruence|done].
Qed.

Lemma HiddenService_too_short x s : Remaining s < 552 → ∃ e, HiddenService_Decode x s = Ret ((x, Some e), s).
Proof.
  intros H1. unfold HiddenService_Decode. rewrite (bind_run _ _ s s s) by done.
  change (HiddenServiceLen - MagicLen) with 552. unfold TooShort. rewrite bool_decide_false by lia. by eexists.
Qed.
End FixedSize.

Section Properties.
Context {cr : Crypto} {ma : Multiaddrs}.

Lemma hidden_or (o : Onion) : (∃ x i, o = OHiddenService x i) ∨ (∀ x i, o ≠ OHiddenService x i).
Proof. destruct o; try (by right); left; by eexists _, _. Qed.

(** C38: what every message without a length prefix does with arbitrary bytes,
    wherever the cursor of a received splice stands.  When fewer bytes are left than
    the decoder checks for it fails, and neither the message nor the splice has
    changed.  Otherwise decoding a crypt, session, get-balance, intro query, route,
    balance, confirmation, ready or delay message returns without an error, so that no
    byte string makes one of these panic; a hidden service message, which reads its
    routing header twice, panics unless 248 bytes more are left. *)
Theorem Decode_any_bytes o need s :
  fixed_need o = Some need → 0 ≤ s_c s ≤ Len s →
  (Remaining s < need → ∃ e, Decode o s = Ret ((o, Some e), s)) ∧
  (need ≤ Remaining s →
     (need + overread o ≤ Remaining s → ∃ o' s', Decode o s = Ret ((o', None), s') ∧ s_b s' = s_b s) ∧
     (Remaining s < need + overread o → Decode o s = Panic PSlice)) ∧
  overread o = match o with OHiddenService _ _ => 248 | _ => 0 end.
Proof.
  intros Hn Hc. destruct (hidden_or o) as [(x & i & ->)|Hh].
  - injection Hn as <-. change (HiddenServiceLen - MagicLen) with 552. change (overread _) with 248.
    cbn [Decode]. unfold on_data. split; [|split; [|done]].
    + intros HR. destruct (HiddenService_too_short x s HR) as [e E]. exists e. by rewrite (bind_run _ _ _ _ _ E).
    + intros HR. destruct (HiddenService_Decode_run x s Hc HR) as [H1 H2]. split; intros HR'.
      * destruct (H2 ltac:(lia)) as (y & s' & E & B & _). eexists _, s'. by rewrite (bind_run _ _ _ _ _ E).
      * apply bind_panic, H1. lia.
  - assert (overread o = 0) as Ho by (destruct o; try done; by destruct (Hh x o)). rewrite Ho.
    destruct (Decode_fixed_total o need Hn Hh s Hc) as (y & e & s' & E & B & He & Hx). split; [|split; [|by destruct o]].
    + intros HR. destruct e as [e|]; [|by apply proj1 in He; specialize (He eq_refl); lia].
      destruct Hx as [-> ->]; [done|]. by exists e.
    + intros HR. destruct e as [e|]; [by apply proj2 in He; specialize (He HR)|]. split; [by exists y, s'|lia].
Qed.

(** A length prefix is believed: an exit or response message whose 32-bit
    payload length points past the end of the buffer makes the decoder slice out
    of range and panic, so a peer can stop a relay with one malformed message. *)
Theorem ReadBytes_trusts_length s n :
  0 ≤ s_c s → s_c s + 4 ≤ Len s →
  le_get (take 4 (drop (Z.to_nat (s_c s)) (s_b s))) = n → Len s < s_c s + 4 + n →
  ReadBytes s = Panic PSlice.
Proof.
  intros Hc Hl Hn Hbig. apply (f_equal (@Ret Z)) in Hn.
  unfold ReadBytes, window, lift, seg, mbind, GoM_bind, DecodeUint32.
  change Uint32Len with 4.
  rewrite (goslice_in (s_b s)) by (unfold Len in *; lia). cbn [mbind Out_bind].
  replace (Z.to_nat (s_c s + 4 - s_c s)) with 4%nat by lia.
  set (w := take 4 _) in *. assert (length w = 4%nat) as Lw.
  { unfold w, Len, zlen in *. rewrite length_take, length_drop. lia. }
  unfold get_le. rewrite bool_decide_true by lia.
  rewrite take_ge by lia. rewrite Hn. cbn [mbind Out_bind].
  rewrite goslice_out by (unfold Len in *; cbn; lia). done.
Qed.
End Properties.

(** ** On the wire and back *)

Section Wire.
Context {cr : Crypto} {crl : CryptoLaws} {ma : Multiaddrs} {mal : MultiaddrLaws}.
Context (defaultPort : Z).

(** The messages that travel under their own magic. *)
Definition own_magic (o : Onion) : Prop := match o with OHiddenService _ _ => True | _ => plain o end.

(** A hidden service message behind its magic: the intro's own magic comes next, where
    the decoder wants the identifier. *)
Lemma hidden_service_received bl x i s : at_cursor s (image bl (OHiddenService x i)) → s_E s = None →
  ∃ s1, Recognise the_registry s = Ret (Some (COnion HiddenService_Gen), s1) ∧ s_b s1 = s_b s ∧ s_c s1 = s_c s + 4 ∧
    take 8 (drop (Z.to_nat (s_c s1)) (s_b s1)) = string_bytes Intro.Magic_ ++ take 4 (arr_list (Ads.ad_ID (Intro.base (HS_Intro x)))).
Proof.
  intros A HE. pose (id := arr_list (Ads.ad_ID (Intro.base (HS_Intro x)))).
  assert (∃ tl, image bl (OHiddenService x i) = string_bytes HiddenServiceMagic ++ (string_bytes Intro.Magic_ ++ take 4 id) ++ tl) as [tl Ei].
  { eexists. cbn [image]. unfold intro_image, IntroWire.fields, common_bytes. rewrite <- !app_assoc.
    do 2 f_equal. fold id. rewrite <- (take_drop 4 id) at 1. by rewrite <- app_assoc. }
  rewrite Ei in A. apply at_cursor_app in A as [A1 A2]. apply at_cursor_app in A2 as [A2 _].
  destruct (reads_Recognise HiddenServiceMagic (COnion HiddenService_Gen) ltac:(unfold registered; set_solver) eq_refl s A1 HE) as (s1 & E1 & B1 & C1 & R1).
  exists s1. change (zlen (string_bytes HiddenServiceMagic)) with 4 in *. split_and!; [done|done|done|].
  destruct A2 as (_ & _ & A2). cbn [s_c s_b with_c] in A2. rewrite B1, C1.
  assert (length (string_bytes Intro.Magic_ ++ take 4 id) = 8%nat) as L8
    by (rewrite length_app, length_take; unfold id; by rewrite arr_len).
  rewrite L8 in A2. exact A2.
Qed.

(** C1: every onion that travels under its own magic is recognised as its type when
    what [codec.Encode] produced arrives, and all but one kind survive the wire:
    [Decode] returns the fields the sender put in (integers at their width, the
    sender's key as a public key, the cloaked receiver), and the cursor is left exactly
    at the encoding of the layer inside.  A hidden service message never survives:
    unless the layer inside reserves 248 bytes its own receiver panics on it, and
    otherwise reads an intro whose identifier begins with the intro's magic. *)
Theorem onion_roundtrip bl o :
  own_magic o → encodable defaultPort bl o →
  ∃ s s1, codec_Encode defaultPort bl o = Ret s ∧
    Recognise the_registry (NewFrom (s_b s)) = Ret (Some (COnion (gen_of o)), s1) ∧
    match o with
    | OHiddenService x i =>
        if decide (zlen (image bl i) + slack i < 248) then Decode (gen_of o) s1 = Panic PSlice
        else ∃ y s2, Decode (gen_of o) s1 = Ret ((OHiddenService y ONil, None), s2) ∧
          arr_list (Ads.ad_ID (Intro.base (HS_Intro y)))
          = string_bytes "inad" ++ take 4 (arr_list (Ads.ad_ID (Intro.base (HS_Intro x))))
    | _ => ∃ s2, Decode (gen_of o) s1 = Ret ((decoded bl o, None), s2) ∧
             s_b s2 = s_b s ∧ at_cursor s2 (rest bl o)
    end.
Proof.
  intros Hp He. destruct (codec_Encode_run defaultPort bl o He) as (s & r & E & B & Hr & _).
  pose proof (at_cursor_front s _ r B) as A. destruct (hidden_or o) as [(x & i & ->)|Hh].
  - destruct (hidden_service_received bl x i (NewFrom (s_b s)) A eq_refl) as (s1 & E1 & B1 & C1 & Hid).
    exists s, s1. split; [done|]. split; [done|]. change (s_c (NewFrom (s_b s))) with 0 in C1. change (s_b (NewFrom (s_b s))) with (s_b s) in B1.
    destruct He as [Hi _]. assert (Remaining s1 = 552 + (zlen (image bl i) + slack i)) as HR.
    { unfold Remaining, Len, GetCursor. rewrite B1, B, C1, zlen_app, Hr. cbn [image slack].
      rewrite !zlen_app, !zlen_three, (zlen_intro _ Hi), zlen_magic4 by done. change IntroLen with 156. change RoutingHeaderLen with 252. lia. }
    pose proof (zlen_nonneg (image bl i)). pose proof (slack_nonneg i).
    destruct (HiddenService_Decode_run (MkHiddenService Intro.Gen three_zero three_zero (arr_zero 252)) s1) as [H1 H2].
    { unfold Remaining, GetCursor in HR. lia. } { lia. }
    cbn [gen_of HiddenService_Gen Decode]. unfold on_data. case_decide as Hd.
    + apply bind_panic, H1. lia.
    + destruct (H2 ltac:(lia)) as (y & s2 & E2 & _ & Hy). exists y, s2. rewrite (bind_run _ _ _ _ _ E2). split; [done|]. by rewrite Hy.
  - assert (plain o) as Hp' by (destruct o; try done; by destruct (Hh x o)).
    destruct (receive_onion defaultPort bl o (NewFrom (s_b s)) Hp' He A eq_refl)
      as (s1 & s2 & E1 & E2 & B2 & _ & _ & A2).
    exists s, s1. split; [done|]. split; [done|]. destruct o; try (by exists s2). by destruct (Hh x o).
Qed.
End Wire.

#[local] Existing Instances Toy.crypto Toy.laws Toy.multiaddrs Toy.multiaddr_laws.

Module RobustWitness.
Definition intro : Intro.Ad (cr := Toy.crypto) :=
  Intro.MkAd (Ads.MkAd (arr_of 8 [x09]) (Some (PubKey (OnionWitness.prv1 : Prv (Crypto := Toy.crypto)))) 0 (arr_zero 64)) (Some (PubKey (OnionWitness.prv2 : Prv (Crypto := Toy.crypto)))) 80 10.
Definition message : HiddenServiceR (cr := Toy.crypto) := MkHiddenService intro three_zero three_zero (arr_zero 252).
Definition hidden_service : Onion (cr := Toy.crypto) (ma := Toy.multiaddrs) := OHiddenService message OEnd.

Lemma hidden_encodable : encodable (cr := Toy.crypto) (ma := Toy.multiaddrs) 80 OnionWitness.blind hidden_service.
Proof. split; [|done]. split; [|by eexists]. split; [by eexists|]. by vm_compute. Qed.
End RobustWitness.

(** A forward survives; the hidden service message that [services.New] makes does not. *)
Lemma onion_roundtrip_witness :
  (∃ s s1 s2, codec_Encode (cr := Toy.crypto) (ma := Toy.multiaddrs) 80 OnionWitness.blind
               OnionWitness.fwd = Ret s ∧
    Recognise the_registry (NewFrom (s_b s)) = Ret (Some (COnion Forward_Gen), s1) ∧
    Decode Forward_Gen s1 =
      Ret ((OForward (ma := Toy.multiaddrs) (Some OnionWitness.a1) ONil, None), s2) ∧
    s_b s2 = s_b s ∧ at_cursor s2 (string_bytes "conf" ++ [x09; x00; x00; x00; x00; x00; x00; x00])) ∧
  ∃ s s1, codec_Encode (cr := Toy.crypto) (ma := Toy.multiaddrs) 80 OnionWitness.blind RobustWitness.hidden_service = Ret s ∧
    Recognise the_registry (NewFrom (s_b s)) = Ret (Some (COnion HiddenService_Gen), s1) ∧
    Decode HiddenService_Gen s1 = Panic PSlice.
Proof.
  split.
  - destruct (onion_roundtrip (crl := Toy.laws) (mal := Toy.multiaddr_laws) 80 OnionWitness.blind
      OnionWitness.fwd I (OnionWitness.fwd_encodable _)) as (s & s1 & H1 & H2 & s2 & H3). by exists s, s1, s2.
  - destruct (onion_roundtrip (crl := Toy.laws) (mal := Toy.multiaddr_laws) 80 OnionWitness.blind
      (OHiddenService RobustWitness.message OEnd) I RobustWitness.hidden_encodable) as (s & s1 & H1 & H2 & H3).
    cbv iota in H3. rewrite decide_True in H3 by (by vm_compute).
    exists s, s1. split; [exact H1|]. split; [exact H2|exact H3].
Defined.

(** Too few bytes for a confirmation; just the bytes a hidden service message checks for. *)
Lemma Decode_any_bytes_witness :
  (∃ e, Decode (cr := Toy.crypto) (ma := Toy.multiaddrs) (OConfirmation (arr_zero 8))
      (MkSplice [x01; x02; x03] 1 [] None) = Ret ((OConfirmation (arr_zero 8), Some e), MkSplice [x01; x02; x03] 1 [] None)) ∧
  Decode (cr := Toy.crypto) (ma := Toy.multiaddrs) HiddenService_Gen (MkSplice (replicate 552 x00) 0 [] None) = Panic PSlice.
Proof.
  split.
  - destruct (Decode_any_bytes (cr := Toy.crypto) (ma := Toy.multiaddrs)
      (OConfirmation (arr_zero 8)) 8 (MkSplice [x01; x02; x03] 1 [] None)) as [H _]; [reflexivity|split; by vm_compute|].
    apply H. by vm_compute.
  - destruct (Decode_any_bytes (cr := Toy.crypto) (ma := Toy.multiaddrs)
      HiddenService_Gen 552 (MkSplice (replicate 552 x00) 0 [] None)) as (_ & H & _); [reflexivity|split; by vm_compute|].
    apply H; by vm_compute.
Defined.

Lemma ReadBytes_trusts_length_witness :
  ReadBytes (MkSplice [x00; xff; x00; x00; x00; x07] 1 [] None) = Panic PSlice.
Proof.
  apply (ReadBytes_trusts_length (MkSplice [x00; xff; x00; x00; x00; x07] 1 [] None) 255);
    [done|done|reflexivity|done].
Defined.
