(* ===== verification/Packet.v ===== *)
(** * Packets

    Models [pkg/engine/packet]: the encrypted packet ([packet.go]), the
    segmentation arithmetic and parity ([segcalc.go]) and the split and join of
    messages ([segment.go]).  The Reed-Solomon coder is a third-party package:
    [ReedSolomon] has its operations, [RSLaw d p] is what the code relies on of a
    coder for [d] data and [p] parity vectors.  [sort.Sort] is a merge sort by
    sequence number: packets with equal numbers, whose order the Go sort leaves
    open, keep the order they came in. *)

From S2P Require Export Robust.

(** templexxx/reedsolomon: [New] and, on a coder with its parameters, [Encode]
    and [Reconst] (vectors that survived, data vectors to rebuild). *)
Class ReedSolomon := {
  rs_New : Z → Z → option error;
  rs_Encode : Z → Z → list bytes → list bytes * option error;
  rs_Reconst : Z → Z → list bytes → list Z → list Z → list bytes * option error;
}.

Record RSLaw `{ReedSolomon} (d p : Z) (parity_of : list bytes → list bytes) : Prop := {
  rs_new_ok : rs_New d p = None;
  rs_parity_len data n :
    zlen data = d → Forall (λ v, zlen v = n) data → 0 < n →
    zlen (parity_of data) = p ∧ Forall (λ v, zlen v = n) (parity_of data);
  (** [Encode] overwrites the last [p] vectors. *)
  rs_encode_ok data par n :
    zlen data = d → zlen par = p → Forall (λ v, zlen v = n) (data ++ par) → 0 < n →
    rs_Encode d p (data ++ par) = (data ++ parity_of data, None);
  (** [Reconst] rebuilds the lost data vectors from any [d] surviving ones. *)
  rs_reconst_ok data vects have lost n :
    zlen data = d → Forall (λ v, zlen v = n) data → 0 < n →
    zlen vects = d + p → Forall (λ v, zlen v = n) vects →
    NoDup have → d ≤ zlen have →
    (∀ i, i ∈ have → 0 ≤ i < d + p ∧
      vects !! Z.to_nat i = (data ++ parity_of data) !! Z.to_nat i) →
    (∀ i, 0 ≤ i < d → i ∉ have → i ∈ lost) →
    ∃ out, rs_Reconst d p vects have lost = (out, None) ∧ take (Z.to_nat d) out = data;
}.

(** ** The packet *)

Section Packet.
Context {cr : Crypto}.

Definition Overhead : Z := 4 + PubKeyLen + CloakLen + IVLen.

Record PacketParams := MkPacketParams {
  pp_ID : ID; pp_To : option Pub; pp_From : option Prv;
  pp_Parity : Z; pp_Seq : Z; pp_Length : Z; pp_Data : bytes }.

Record Packet := MkPacket {
  pk_ID : ID; Seq : Z; pk_Length : Z; pk_Parity : Z; pk_Data : bytes; TimeStamp : Z }.

Definition PacketParams_GetOverhead : Z := Overhead + IDLen + 7.
Definition Packet_GetOverhead : Z := Overhead.

(** [EncodePacket] with the nonce and blinder the generators delivered. *)
Definition EncodePacket (nonc : IV) (bl : Blinder) (ep : PacketParams) : Out bytes :=
  match pp_From ep, pp_To ep with
  | Some from, Some to =>
      let blk := GetBlock from to in
      seq ← EncodeUint16 (replicate 2 x00) (pp_Seq ep);
      len ← EncodeUint32 (replicate 4 x00) (pp_Length ep);
      let pkt := replicate (Z.to_nat (SumLen [seq; len; pp_Data ep] + 1 + Overhead + IDLen)) x00 in
      let k := Pub_ToBytes (PubKey from) in
      let cloaked := GetCloak bl to in
      pkt ← gocopy pkt 4 37 (arr_list k);
      pkt ← gocopy pkt 37 45 (arr_list cloaked);
      pkt ← gocopy pkt 45 61 (arr_list nonc);
      pkt ← gocopy pkt 61 69 (arr_list (pp_ID ep));
      pkt ← gocopy pkt 69 71 seq;
      pkt ← gocopy pkt 71 75 len;
      pkt ← goset pkt 75 (z2b (pp_Parity ep));
      pkt ← gocopy pkt 76 (zlen pkt) (pp_Data ep);
      body ← goslice pkt Overhead (zlen pkt);
      body ← Encipher blk nonc body;
      pkt ← gocopy pkt Overhead (zlen pkt) body;
      rest ← goslice pkt 4 (zlen pkt);
      gocopy pkt 0 4 (take 4 (arr_list (Single rest)))
  | _, _ => Panic PNil
  end.

(** [GetKeysFromPacket]: the third result, the IV, is never set. *)
Definition GetKeysFromPacket (d : bytes)
    : Out (option Pub * CloakedPubKey * IV * option error) :=
  if bool_decide (zlen d < Overhead) then
    Ret (None, arr_zero 8, arr_zero 16, Some (Errorf "packet too small, min %d, got %d" [Overhead; zlen d]))
  else
    chek ← goslice d 0 4;
    rest ← goslice d 4 (zlen d);
    let checkHash := Single rest in
    if bool_decide (chek ≠ take 4 (arr_list checkHash)) then
      Ret (None, arr_zero 8, arr_zero 16, Some (Errorf "check failed: got '%v', expected '%v'" []))
    else
      k ← goslice d 4 37;
      c ← goslice d 37 45;
      let '(from, e) := PubFromBytes k in
      Ret (from, arr_of 8 c, arr_zero 16, e).

(** [DecodePacket]: the IV argument is overwritten by the one in the packet; the
    payload is deciphered in the caller's buffer, returned as second result. *)
Definition DecodePacket (now : Z) (d : bytes) (from : option Pub) (to : option Prv) (iv : IV)
    : Out ((option Packet * option error) * bytes) :=
  if bool_decide (zlen d < Overhead) then
    Ret ((None, Some (Errorf "packet too small, min %d, got %d" [Overhead; zlen d])), d)
  else
    ivb ← goslice d 45 61;
    match to, from with
    | Some to, Some from =>
        data ← goslice d 61 (zlen d);
        data ← Encipher (GetBlock to from) (arr_of 16 ivb) data;
        d ← gocopy d 61 (zlen d) data;
        r ← Cut data IDLen; let '(id, data) := r in
        r ← Cut data Uint16Len; let '(seq, data) := r in
        seq ← DecodeUint16 seq;
        r ← Cut data Uint32Len; let '(length, data) := r in
        length ← DecodeUint32 length;
        par ← goindex data 0;
        data ← goslice data 1 (zlen data);
        Ret ((Some (MkPacket (arr_of 8 id) (wrapu 16 seq) (wrapu 32 length) (b2z par) data now),
              None), d)
    | _, _ => Panic PNil
    end.

(** ** The wire form *)

Definition packet_body (ep : PacketParams) : bytes :=
  arr_list (pp_ID ep) ++ le_put 2 (pp_Seq ep) ++ le_put 4 (pp_Length ep) ++
  [z2b (pp_Parity ep)] ++ pp_Data ep.

Definition packet_tail (nonc : IV) (bl : Blinder) (from : Prv) (to : Pub) (ep : PacketParams)
    : bytes :=
  arr_list (SerializeCompressed (PubKey from)) ++ arr_list (GetCloak bl to) ++ arr_list nonc ++
  enciphered (secret from to) nonc (packet_body ep).

Definition packet_image (nonc : IV) (bl : Blinder) (from : Prv) (to : Pub) (ep : PacketParams)
    : bytes :=
  take 4 (arr_list (Single (packet_tail nonc bl from to ep))) ++ packet_tail nonc bl from to ep.
End Packet.

Section PacketFacts.
Context {cr : Crypto}.

Lemma gocopy_fill (p src : bytes) m lo hi :
  zlen p = lo → hi = lo + zlen src → (length src ≤ m)%nat →
  gocopy (p ++ replicate m x00) lo hi src = Ret ((p ++ src) ++ replicate (m - length src) x00).
Proof.
  intros <- -> Hm. pose proof (zlen_nonneg p). pose proof (zlen_nonneg src).
  rewrite gocopy_ok; [|lia|rewrite zlen_app; unfold zlen in *; rewrite length_replicate; lia].
  f_equal. replace (Z.to_nat (zlen p)) with (length p) by (unfold zlen; lia).
  unfold overlay. rewrite take_app_length, <- drop_drop, drop_app_length, drop_replicate.
  by rewrite app_assoc.
Qed.

Lemma goset_fill (p : bytes) m lo x :
  zlen p = lo → (0 < m)%nat →
  goset (p ++ replicate m x00) lo x = Ret ((p ++ [x]) ++ replicate (m - 1) x00).
Proof.
  intros <- Hm. pose proof (zlen_nonneg p). unfold goset.
  rewrite bool_decide_true; [|rewrite zlen_app; unfold zlen in *; rewrite length_replicate; lia].
  f_equal. replace (Z.to_nat (zlen p)) with (length p) by (unfold zlen; lia).
  destruct m as [|m]; [lia|]. cbn [replicate Nat.sub]. rewrite Nat.sub_0_r.
  rewrite insert_app_r_alt, Nat.sub_diag by lia. cbn. by rewrite <- app_assoc.
Qed.

Lemma goslice_tail (p w : bytes) lo hi :
  zlen p = lo → hi = zlen (p ++ w) → goslice (p ++ w) lo hi = Ret w.
Proof.
  intros <- ->. pose proof (zlen_nonneg p). pose proof (zlen_nonneg w).
  rewrite goslice_in by (rewrite ?zlen_app; lia).
  replace (Z.to_nat (zlen p)) with (length p) by (unfold zlen; lia).
  rewrite drop_app_length, take_ge; [done|]. rewrite zlen_app. unfold zlen. lia.
Qed.

Lemma gocopy_tail (p w w' : bytes) lo hi :
  zlen p = lo → hi = zlen (p ++ w) → length w' = length w →
  gocopy (p ++ w) lo hi w' = Ret (p ++ w').
Proof.
  intros <- -> Hw. pose proof (zlen_nonneg p). pose proof (zlen_nonneg w).
  rewrite gocopy_in by (rewrite ?zlen_app; lia).
  replace (Z.to_nat (zlen p)) with (length p) by (unfold zlen; lia).
  rewrite take_ge by (rewrite zlen_app; unfold zlen; lia).
  unfold overlay. rewrite take_app_length, drop_ge, app_nil_r; [done|]. rewrite length_app. lia.
Qed.

Lemma goslice_mid (p w r : bytes) lo hi :
  zlen p = lo → hi = lo + zlen w → goslice (p ++ w ++ r) lo hi = Ret w.
Proof.
  intros <- ->. pose proof (zlen_nonneg p). pose proof (zlen_nonneg w). pose proof (zlen_nonneg r).
  rewrite goslice_in by (rewrite ?zlen_app; lia).
  replace (Z.to_nat (zlen p)) with (length p) by (unfold zlen; lia).
  replace (Z.to_nat _) with (length w) by (unfold zlen; lia).
  by rewrite drop_app_length, take_app_length.
Qed.

Lemma Cut_app (p w : bytes) l : zlen p = l → Cut (p ++ w) l = Ret (p, w).
Proof.
  intros <-. pose proof (zlen_nonneg p). pose proof (zlen_nonneg w).
  rewrite Cut_spec by (rewrite zlen_app; lia).
  replace (Z.to_nat (zlen p)) with (length p) by (unfold zlen; lia).
  by rewrite take_app_length, drop_app_length.
Qed.

Lemma put_le n (b : bytes) v : length b = n → put n b v = Ret (le_put n v).
Proof.
  intros Hb. unfold put. rewrite bool_decide_true by lia. f_equal.
  apply overlay_full. by rewrite length_le_put.
Qed.

Lemma zlen_packet_body ep : zlen (packet_body ep) = 15 + zlen (pp_Data ep).
Proof. unfold packet_body. rewrite !zlen_app, zlen_arr, !zlen_le_put, zlen_1. lia. Qed.

Lemma zlen_packet_tail nonc bl from to ep :
  zlen (packet_tail nonc bl from to ep) = 72 + zlen (pp_Data ep).
Proof.
  unfold packet_tail. rewrite !zlen_app, !zlen_arr, zlen_enciphered, zlen_packet_body. lia.
Qed.

Lemma length_check h : length (take 4 (arr_list (n := 32) h)) = 4%nat.
Proof. rewrite length_take, arr_len. lia. Qed.

(** [EncodePacket] lays the packet out as [packet_image] says. *)
Lemma EncodePacket_image nonc bl ep from to :
  pp_From ep = Some from → pp_To ep = Some to →
  EncodePacket nonc bl ep = Ret (packet_image nonc bl from to ep).
Proof.
  intros HF HT. unfold EncodePacket. rewrite HF, HT. unfold EncodeUint16, EncodeUint32.
  rewrite !put_le by apply length_replicate. cbn [mbind Out_bind].
  rewrite (le_put_wrapu 2 16), (le_put_wrapu 4 32) by done.
  set (seq := le_put 2 (pp_Seq ep)). set (len := le_put 4 (pp_Length ep)).
  assert (zlen seq = 2) as Ls by apply zlen_le_put.
  assert (zlen len = 4) as Ll by apply zlen_le_put.
  set (data := pp_Data ep).
  assert (replicate (Z.to_nat (SumLen [seq; len; data] + 1 + Overhead + IDLen)) x00
    = replicate 4 x00 ++ replicate (72 + length data) x00) as ->.
  { rewrite <- replicate_add. f_equal. unfold SumLen. cbn [fmap list_fmap foldr foldl].
    change Overhead with 61. change IDLen with 8. unfold zlen in *. lia. }
  assert (∀ m (a : arr m), length (arr_list a) = m) as AL by (intros; apply arr_len).
  unfold Pub_ToBytes.
  rewrite gocopy_fill by (rewrite ?zlen_arr, ?AL; try done; lia). cbn [mbind Out_bind].
  rewrite gocopy_fill by (rewrite ?zlen_app, ?zlen_arr, ?AL; try done; lia). cbn [mbind Out_bind].
  rewrite gocopy_fill by (rewrite ?zlen_app, ?zlen_arr, ?AL; try done; lia). cbn [mbind Out_bind].
  rewrite gocopy_fill by (rewrite ?zlen_app, ?zlen_arr, ?AL; try done; lia). cbn [mbind Out_bind].
  rewrite gocopy_fill by (rewrite ?zlen_app, ?zlen_arr, ?AL; unfold zlen in *; try done; lia).
  cbn [mbind Out_bind].
  rewrite gocopy_fill by (rewrite ?zlen_app, ?zlen_arr, ?AL, ?Ls; unfold zlen in *; try done; lia).
  cbn [mbind Out_bind].
  rewrite goset_fill by (rewrite ?zlen_app, ?zlen_arr, ?AL, ?Ls, ?Ll; unfold zlen in *; try done; lia).
  cbn [mbind Out_bind].
  rewrite gocopy_fill; cycle 1.
  { rewrite ?zlen_app, ?zlen_arr, ?Ls, ?Ll, zlen_1. done. }
  { rewrite ?zlen_app, ?zlen_arr, ?Ls, ?Ll, zlen_1. unfold zlen in *.
    rewrite !length_replicate, ?AL. lia. }
  { unfold zlen in *. rewrite !AL. lia. }
  cbn [mbind Out_bind]. rewrite !AL.
  match goal with |- context [replicate ?n x00] =>
    match n with context [length data] => replace n with O by (unfold zlen in *; lia) end end.
  cbn [replicate]. rewrite app_nil_r.
  set (hdr := replicate 4 x00 ++ arr_list (SerializeCompressed (PubKey from)) ++
              arr_list (GetCloak bl to) ++ arr_list nonc).
  assert (zlen hdr = 61) as Lh by (unfold hdr; rewrite !zlen_app, !zlen_arr; done).
  match goal with |- context [goslice ?b Overhead _] =>
    replace b with (hdr ++ packet_body ep) by (unfold hdr, packet_body; by rewrite <- !app_assoc) end.
  rewrite goslice_tail by done. cbn [mbind Out_bind Encipher].
  unfold GetBlock. cbn [mbind Out_bind Encipher].
  change (zip_with bxor _ _) with (enciphered (secret from to) nonc (packet_body ep)).
  rewrite gocopy_tail by (rewrite ?length_enciphered; done). cbn [mbind Out_bind].
  assert (hdr ++ enciphered (secret from to) nonc (packet_body ep)
          = replicate 4 x00 ++ packet_tail nonc bl from to ep) as ->
    by (unfold hdr, packet_tail; by rewrite <- !app_assoc).
  rewrite goslice_tail by done. cbn [mbind Out_bind].
  rewrite (gocopy_in (_ ++ _)) by (rewrite ?zlen_app; pose proof (zlen_nonneg (packet_tail nonc bl from to ep));
    unfold zlen in *; cbn; lia).
  f_equal. unfold packet_image. rewrite take_ge by (rewrite length_check; done).
  unfold overlay. cbn [Z.to_nat take]. rewrite length_check. cbn [app]. f_equal.
Qed.
End PacketFacts.

Section PacketRoundtrip.
Context {cr : Crypto} {crl : CryptoLaws}.

Lemma zlen_packet_image nonc bl from to ep :
  zlen (packet_image nonc bl from to ep) = 76 + zlen (pp_Data ep).
Proof.
  unfold packet_image. rewrite zlen_app, zlen_packet_tail. unfold zlen at 1.
  rewrite length_check. lia.
Qed.

(** The receiver of a packet finds the sender's key and its own cloaked key. *)
Lemma GetKeysFromPacket_image nonc bl from to ep :
  GetKeysFromPacket (packet_image nonc bl from to ep)
    = Ret (Some (PubKey from), GetCloak bl to, arr_zero 16, None).
Proof.
  unfold GetKeysFromPacket. pose proof (zlen_nonneg (pp_Data ep)).
  pose proof (zlen_packet_image nonc bl from to ep) as LI.
  unfold packet_image in *. set (tail := packet_tail nonc bl from to ep) in *.
  set (chk := take 4 (arr_list (Single tail))) in *.
  assert (zlen chk = 4) as Lc by (unfold zlen, chk; rewrite length_check; done).
  rewrite bool_decide_false by (change Overhead with 61; lia).
  pose proof (goslice_mid [] chk tail 0 4 eq_refl ltac:(lia)) as Ec. cbn [app] in Ec.
  rewrite Ec. cbn [mbind Out_bind].
  rewrite (goslice_tail chk tail 4 (zlen (chk ++ tail))) by done.
  cbn [mbind Out_bind]. rewrite bool_decide_false by (intros N; by apply N).
  change tail with (arr_list (SerializeCompressed (PubKey from)) ++
    (arr_list (GetCloak bl to) ++ arr_list nonc ++ enciphered (secret from to) nonc (packet_body ep))).
  rewrite (goslice_mid _ _ _ 4 37) by (rewrite ?zlen_arr, ?Lc; done). cbn [mbind Out_bind].
  rewrite app_assoc.
  rewrite (goslice_mid _ _ _ 37 45) by (rewrite ?zlen_app, ?zlen_arr, ?Lc; done). cbn [mbind Out_bind].
  unfold PubFromBytes. rewrite parse_serialize. by rewrite arr_of_list.
Qed.

(** The holder of the receiver's private key reads the packet back. *)
Lemma DecodePacket_image now nonc bl from prv ep iv :
  ∃ d, DecodePacket now (packet_image nonc bl from (PubKey prv) ep) (Some (PubKey from))
         (Some prv) iv
    = Ret ((Some (MkPacket (pp_ID ep) (wrapu 16 (pp_Seq ep)) (wrapu 32 (pp_Length ep))
                    (wrapu 8 (pp_Parity ep)) (pp_Data ep) now), None), d).
Proof.
  unfold DecodePacket. rewrite zlen_packet_image. pose proof (zlen_nonneg (pp_Data ep)).
  rewrite bool_decide_false by (change Overhead with 61; lia).
  set (hdr := take 4 (arr_list (Single (packet_tail nonc bl from (PubKey prv) ep))) ++
              arr_list (SerializeCompressed (PubKey from)) ++ arr_list (GetCloak bl (PubKey prv))).
  set (body := enciphered (secret from (PubKey prv)) nonc (packet_body ep)).
  assert (zlen hdr = 45) as Lh.
  { unfold hdr. rewrite !zlen_app, !zlen_arr. unfold zlen. by rewrite length_check. }
  assert (zlen body = 15 + zlen (pp_Data ep)) as Lb by (unfold body; by rewrite zlen_enciphered, zlen_packet_body).
  assert (packet_image nonc bl from (PubKey prv) ep = hdr ++ arr_list nonc ++ body) as E1
    by (unfold packet_image, hdr, body, packet_tail; by rewrite <- !app_assoc).
  rewrite E1. rewrite (goslice_mid _ _ _ 45 61) by (rewrite ?zlen_arr; done).
  cbn [mbind Out_bind]. rewrite app_assoc.
  assert (zlen (hdr ++ arr_list nonc) = 61) as L2 by (rewrite zlen_app, zlen_arr; lia).
  rewrite (goslice_tail _ _ 61) by (rewrite ?zlen_app in *; lia). cbn [mbind Out_bind].
  unfold GetBlock. rewrite arr_of_list.
  assert (NewCipher (ComputeSharedSecret prv (PubKey from)) = secret from (PubKey prv)) as ->
    by (unfold secret, ComputeSharedSecret; by rewrite ecdh_comm).
  cbn [Encipher mbind Out_bind].
  change (zip_with bxor body _) with (enciphered (secret from (PubKey prv)) nonc body).
  unfold body at 1 2. rewrite enciphered_twice.
  rewrite gocopy_tail; [|done|by rewrite (zlen_app (_ ++ _)), L2, zlen_enciphered, zlen_packet_body; lia|by rewrite length_enciphered].
  cbn [mbind Out_bind]. unfold packet_body.
  rewrite Cut_app by (by rewrite zlen_arr). cbn [mbind Out_bind].
  rewrite Cut_app by (by rewrite zlen_le_put). cbn [mbind Out_bind]. unfold DecodeUint16.
  rewrite get_le_put. cbn [mbind Out_bind].
  rewrite Cut_app by (by rewrite zlen_le_put). cbn [mbind Out_bind]. unfold DecodeUint32.
  rewrite get_le_put. cbn [mbind Out_bind app].
  unfold goindex. rewrite bool_decide_true by done. change (Z.to_nat 0) with O.
  cbn [lookup list_lookup mbind Out_bind].
  pose proof (goslice_tail [z2b (pp_Parity ep)] (pp_Data ep) 1 _ eq_refl eq_refl) as Et.
  cbn [app] in Et. rewrite Et. cbn [mbind Out_bind]. eexists. rewrite arr_of_list, b2z_z2b.
  unfold wrapu. rewrite !Z.mod_mod by lia. done.
Qed.

(** No byte string makes [GetKeysFromPacket] panic. *)
Lemma GetKeysFromPacket_total d : ∃ r, GetKeysFromPacket d = Ret r.
Proof.
  unfold GetKeysFromPacket. case_bool_decide as H; [by eexists|].
  change Overhead with 61 in H. pose proof (zlen_nonneg d).
  rewrite !(goslice_in d) by lia. cbn [mbind Out_bind]. case_bool_decide; [by eexists|].
  destruct (PubFromBytes _). by eexists.
Qed.

(** [DecodePacket] on a packet with a header but no room for the sealed fields. *)
Lemma DecodePacket_short now d from to iv :
  Overhead ≤ zlen d < Overhead + 15 →
  ∃ p, DecodePacket now d from to iv = Panic p.
Proof.
  change Overhead with 61. intros Hd. unfold DecodePacket.
  rewrite bool_decide_false by (change Overhead with 61; lia).
  rewrite (goslice_in d 45) by lia. cbn [mbind Out_bind].
  destruct to as [to|]; [|by eexists]. destruct from as [from|]; [|by eexists].
  rewrite (goslice_in d 61) by lia. unfold GetBlock. cbn [mbind Out_bind Encipher].
  set (data := zip_with _ _ _).
  assert (zlen data = zlen d - 61) as Ld.
  { change (zlen data) with (zlen (enciphered (NewCipher (ComputeSharedSecret to from))
      (arr_of 16 (take (Z.to_nat (61 - 45)) (drop (Z.to_nat 45) d)))
      (take (Z.to_nat (zlen d - 61)) (drop (Z.to_nat 61) d)))).
    rewrite zlen_enciphered. unfold zlen in *. rewrite length_take, length_drop. lia. }
  rewrite (gocopy_in d) by lia. cbn [mbind Out_bind]. clearbody data. change IDLen with 8.
  unfold Cut. unfold Uint16Len, Uint32Len.
  destruct (decide (zlen data < 8)); [rewrite (goslice_out data 0 8) by lia; by eexists|].
  rewrite !(goslice_in data) by lia. cbn [mbind Out_bind].
  set (d1 := take _ (drop (Z.to_nat 8) data)).
  assert (zlen d1 = zlen data - 8) as L1.
  { unfold d1, zlen in *. rewrite length_take, length_drop. lia. }
  destruct (decide (zlen d1 < 2)); [rewrite (goslice_out d1 0 2) by lia; by eexists|].
  rewrite !(goslice_in d1) by lia. cbn [mbind Out_bind].
  destruct (get_le_total 2 (take (Z.to_nat (2 - 0)) (drop (Z.to_nat 0) d1))) as [v Hv].
  { unfold zlen in *. rewrite drop_0, length_take. lia. }
  unfold DecodeUint16. rewrite Hv. cbn [mbind Out_bind].
  set (d2 := take _ (drop (Z.to_nat 2) d1)).
  assert (zlen d2 = zlen d1 - 2) as L2.
  { unfold d2, zlen in *. rewrite length_take, length_drop. lia. }
  destruct (decide (zlen d2 < 4)); [rewrite (goslice_out d2 0 4) by lia; by eexists|].
  rewrite !(goslice_in d2) by lia. cbn [mbind Out_bind].
  destruct (get_le_total 4 (take (Z.to_nat (4 - 0)) (drop (Z.to_nat 0) d2))) as [u Hu].
  { unfold zlen in *. rewrite drop_0, length_take. lia. }
  unfold DecodeUint32. rewrite Hu. cbn [mbind Out_bind].
  set (d3 := take _ (drop (Z.to_nat 4) d2)).
  assert (d3 = []) as ->.
  { apply nil_length_inv. unfold d3. rewrite length_take, length_drop. unfold zlen in *. lia. }
  by eexists.
Qed.
End PacketRoundtrip.

(** ** Properties *)

Section Properties.
Context {cr : Crypto} {crl : CryptoLaws}.

(** C32: a packet survives the wire: [EncodePacket] returns, [GetKeysFromPacket]
    accepts the result and yields the sender's public key and the cloak of the
    receiver's, and with that key and the receiver's private key [DecodePacket]
    returns the identifier, sequence number, length, parity and data that were
    sent, whatever the nonce and blinder were. *)
Theorem packet_roundtrip now nonc bl ep from prv iv :
  pp_From ep = Some from → pp_To ep = Some (PubKey prv) →
  0 ≤ pp_Seq ep < 2 ^ 16 → 0 ≤ pp_Length ep < 2 ^ 32 → 0 ≤ pp_Parity ep < 2 ^ 8 →
  ∃ pkt pub d, EncodePacket nonc bl ep = Ret pkt ∧
    zlen pkt = PacketParams_GetOverhead + zlen (pp_Data ep) ∧
    GetKeysFromPacket pkt = Ret (Some pub, GetCloak bl (PubKey prv), arr_zero 16, None) ∧
    pub = PubKey from ∧
    DecodePacket now pkt (Some pub) (Some prv) iv
    = Ret ((Some (MkPacket (pp_ID ep) (pp_Seq ep) (pp_Length ep) (pp_Parity ep)
                    (pp_Data ep) now), None), d).
Proof.
  intros HF HT Hs Hl Hp. destruct (DecodePacket_image now nonc bl from prv ep iv) as (d & E).
  rewrite !wrapu_small in E by done.
  exists (packet_image nonc bl from (PubKey prv) ep), (PubKey from), d.
  rewrite (EncodePacket_image nonc bl ep _ _ HF HT), zlen_packet_image, GetKeysFromPacket_image.
  done.
Qed.

(** [GetKeysFromPacket] is total and checks what it accepts: on any byte
    string it returns, and a packet is accepted only if it has a whole header,
    its first four bytes are those of the hash of the rest, and the sender's key
    in it parses; the IV it returns is always zero. *)
Theorem GetKeysFromPacket_checks d :
  ∃ from cloak iv e, GetKeysFromPacket d = Ret (from, cloak, iv, e) ∧ iv = arr_zero 16 ∧
    (e = None →
       Overhead ≤ zlen d ∧ take 4 d = take 4 (arr_list (Single (drop 4 d))) ∧
       ParsePubKey (take 33 (drop 4 d)) = from ∧ is_Some from ∧
       arr_list cloak = take 8 (drop 37 d)).
Proof.
  unfold GetKeysFromPacket. case_bool_decide as H; [by do 4 eexists; split|].
  change Overhead with 61 in *. pose proof (zlen_nonneg d).
  rewrite !(goslice_in d) by lia. cbn [mbind Out_bind]. rewrite drop_0.
  rewrite (take_ge (drop _ d)) by (unfold zlen in *; rewrite length_drop; lia).
  case_bool_decide as Hc; [by do 4 eexists; split|].
  unfold PubFromBytes. change (Z.to_nat (37 - 4)) with 33%nat.
  change (Z.to_nat (45 - 37)) with 8%nat. change (Z.to_nat 4) with 4%nat in *.
  change (Z.to_nat 37) with 37%nat. change (Z.to_nat (4 - 0)) with 4%nat in Hc.
  destruct (ParsePubKey _) as [p|] eqn:E; do 4 eexists; (split; [done|]); (split; [done|]);
    intros He; [|done].
  split; [lia|]. split; [done|]. split; [done|]. split; [by eexists|].
  apply arr_list_of. rewrite length_take, length_drop. unfold zlen in *. lia.
Qed.

(** [DecodePacket] guards the header only: a packet that passes the length
    guard but has fewer than fifteen sealed bytes makes it panic, although
    [GetKeysFromPacket] may accept it. *)
Theorem DecodePacket_short_panics now d from to iv :
  Overhead ≤ zlen d < Overhead + 15 →
  ∃ p, DecodePacket now d from to iv = Panic p.
Proof. apply DecodePacket_short. Qed.
End Properties.

Lemma packet_roundtrip_witness :
  let ep := MkPacketParams (cr := Toy.crypto) (arr_of 8 [x01]) (Some (arr_of 32 [x07])) (Some (arr_of 32 [x05]))
              64 3 1000 [x0a; x0b] in
  ∃ pkt pub d, EncodePacket (cr := Toy.crypto) (arr_zero 16) (arr_zero _) ep = Ret pkt ∧
    zlen pkt = 78 ∧ pub = arr_of 32 [x05] ∧
    DecodePacket (cr := Toy.crypto) 9 pkt (Some pub) (Some (arr_of 32 [x07])) (arr_zero 16)
    = Ret ((Some (MkPacket (arr_of 8 [x01]) 3 1000 64 [x0a; x0b] 9), None), d).
Proof.
  intros ep.
  destruct (packet_roundtrip (cr := Toy.crypto) (crl := Toy.laws) 9 (arr_zero 16) (arr_zero _) ep
    (arr_of 32 [x05]) (arr_of 32 [x07]) (arr_zero 16)) as (pkt & pub & d & E1 & L & _ & P & E2);
    [done..|].
  exists pkt, pub, d. split; [exact E1|]. split; [exact L|]. split; [exact P|exact E2].
Defined.

Lemma DecodePacket_short_panics_witness :
  ∃ p, DecodePacket (cr := Toy.crypto) 0 (replicate 70 x00) (Some (arr_zero 32))
         (Some (arr_zero 32)) (arr_zero 16) = Panic p.
Proof. apply (DecodePacket_short_panics (cr := Toy.crypto)). split; by vm_compute. Defined.
