(* ===== verification/Segcalc.v ===== *)
(** * Segmentation arithmetic

    Models [pkg/engine/packet/segcalc.go]: [NewSegments], which lays a message
    out in sections of at most 256 packets, and [AddParity], which fills the
    parity packets in.  Go's integer division truncates and panics on zero. *)

From S2P Require Export Packet.

Definition godiv (a b : Z) : Out Z :=
  if bool_decide (b = 0) then Panic (PMsg "integer divide by zero") else Ret (Z.quot a b).
Definition gomod (a b : Z) : Out Z :=
  if bool_decide (b = 0) then Panic (PMsg "integer divide by zero") else Ret (Z.rem a b).

Record Segment := MkSegment { DStart : Z; DEnd : Z; PEnd : Z; SLen : Z; Last : Z }.
#[export] Instance Segment_eq_dec : EqDecision Segment.
Proof. solve_decision. Defined.

(** The loop over the full sections. *)
Fixpoint full_sections (n : nat) (start sectsD segSize last : Z) : list Segment :=
  match n with
  | O => []
  | S n => MkSegment start (start + sectsD) (start + 256) segSize last
           :: full_sections n (start + 256) sectsD segSize last
  end.

Definition NewSegments (payloadLen segmentSize overhead parity : Z) : Out (list Segment) :=
  let segSize := segmentSize - overhead in
  q ← godiv payloadLen segSize;
  let nSegs := q + 1 in
  lastSeg ← gomod payloadLen segSize;
  let sectsD := 256 - parity in
  let sectsP := parity in
  r ← godiv (nSegs * sectsP) sectsD;
  let withR := nSegs + r in
  let withR := if bool_decide (withR = nSegs ∧ 0 < parity) then withR + 1 else withR in
  sects ← godiv nSegs sectsD;
  lastSect ← gomod nSegs sectsD;
  let last := if bool_decide (lastSect = 0 ∧ sects = 1) then lastSeg else segSize in
  let s := full_sections (Z.to_nat sects) 0 sectsD segSize last in
  let start := 256 * Z.of_nat (Z.to_nat sects) in
  if bool_decide (0 < lastSect) then
    let endD := start + lastSect in
    let withR := if bool_decide (withR = endD ∧ 0 < parity) then withR + 1 else withR in
    Ret (s ++ [MkSegment start endD withR segSize lastSeg])
  else Ret s.

(** ** What it computes *)

Section Spec.
Context (payloadLen segSize parity : Z).

Definition n_segs : Z := payloadLen / segSize + 1.
Definition data_per_section : Z := 256 - parity.
Definition n_sections : Z := n_segs / data_per_section.
Definition last_section : Z := n_segs `mod` data_per_section.
Definition last_parity : Z :=
  Z.max (last_section * parity / data_per_section) (if decide (0 < parity) then 1 else 0).
Definition full_last : Z :=
  if decide (last_section = 0 ∧ n_sections = 1) then payloadLen `mod` segSize else segSize.

Definition segments_spec : list Segment :=
  full_sections (Z.to_nat n_sections) 0 data_per_section segSize full_last ++
  if decide (0 < last_section) then
    [MkSegment (256 * n_sections) (256 * n_sections + last_section)
       (256 * n_sections + last_section + last_parity) segSize (payloadLen `mod` segSize)]
  else [].

Context (Hs : 0 < segSize) (Hp : 0 ≤ parity ≤ 255) (Hl : 0 ≤ payloadLen).

Lemma n_segs_pos : 0 < n_segs.
Proof using Hs Hl. unfold n_segs. pose proof (Z.div_pos payloadLen segSize). lia. Qed.

Lemma sections_bounds :
  0 ≤ n_sections ∧ 0 ≤ last_section < data_per_section ∧
  n_segs = data_per_section * n_sections + last_section.
Proof using Hs Hp Hl.
  pose proof n_segs_pos. unfold n_sections, last_section.
  assert (0 < data_per_section) by (unfold data_per_section; lia).
  split; [apply Z.div_pos; lia|]. split; [apply Z.mod_pos_bound; lia|].
  apply Z.div_mod. lia.
Qed.

Lemma with_parity :
  n_segs + n_segs * parity / data_per_section
  = 256 * n_sections + last_section + last_section * parity / data_per_section.
Proof using Hs Hp Hl.
  destruct sections_bounds as (_ & _ & E). rewrite E at 1 2.
  assert (0 < data_per_section) by (unfold data_per_section; lia).
  replace ((data_per_section * n_sections + last_section) * parity)
    with (last_section * parity + (n_sections * parity) * data_per_section) by lia.
  rewrite Z.div_add by lia. unfold data_per_section at 1. lia.
Qed.

Lemma NewSegments_run overhead :
  NewSegments payloadLen (segSize + overhead) overhead parity = Ret segments_spec.
Proof using Hs Hp Hl.
  pose proof n_segs_pos as Hn. destruct sections_bounds as (Hq & Hr & E).
  assert (0 < data_per_section) as HD by (unfold data_per_section; lia).
  unfold NewSegments. replace (segSize + overhead - overhead) with segSize by lia.
  change (256 - parity) with data_per_section.
  unfold godiv, gomod. rewrite !bool_decide_false by lia. cbn [mbind Out_bind].
  rewrite (Z.quot_div_nonneg payloadLen), (Z.rem_mod_nonneg payloadLen) by lia. fold n_segs.
  rewrite (Z.quot_div_nonneg (n_segs * parity)) by nia.
  rewrite (Z.quot_div_nonneg n_segs), (Z.rem_mod_nonneg n_segs) by lia.
  fold n_sections last_section. rewrite Z2Nat.id by lia.
  unfold segments_spec, full_last.
  replace (if bool_decide (last_section = 0 ∧ n_sections = 1) then payloadLen `mod` segSize
           else segSize)
    with (if decide (last_section = 0 ∧ n_sections = 1) then payloadLen `mod` segSize
           else segSize) by (by case_bool_decide; case_decide).
  destruct (decide (0 < last_section)) as [Hls|Hls]; cycle 1.
  { by rewrite bool_decide_false, app_nil_r. }
  rewrite bool_decide_true by done. do 4 f_equal. unfold last_parity.
  pose proof with_parity as HW. set (a := n_segs * parity / data_per_section) in *.
  set (b := last_section * parity / data_per_section) in *.
  assert (0 ≤ b) by (apply Z.div_pos; nia).
  destruct (decide (0 < parity)); cycle 1.
  { rewrite !bool_decide_false by lia. lia. }
  destruct (decide (b = 0)) as [Eb|Eb].
  - destruct (decide (a = 0)) as [Ea|Ea].
    + rewrite (bool_decide_true (n_segs + a = n_segs ∧ _)) by lia.
      rewrite bool_decide_false by lia. lia.
    + rewrite (bool_decide_false (n_segs + a = n_segs ∧ _)) by lia.
      rewrite bool_decide_true by lia. lia.
  - rewrite (bool_decide_false (n_segs + a = n_segs ∧ _)); cycle 1.
    { intros [Ha _]. assert (a = 0) as Ea by lia. rewrite Ea in HW.
      unfold data_per_section in *. nia. }
    rewrite bool_decide_false by lia. lia.
Qed.
End Spec.

(** ** Parity *)

Definition dLen (g : Segment) : Z := DEnd g - DStart g.
Definition pLen (g : Segment) : Z := PEnd g - DEnd g.

Section AddParity.
Context `{ReedSolomon}.

(** The loop of [AddParity] over the sections: the shards so far, the segments
    that are left and the error so far. *)
Fixpoint AddParity_loop (s : list Segment) (segs : list bytes) (shards : list bytes)
    (e : option error) : Out (list bytes * option error) :=
  match s with
  | [] => Ret (shards, e)
  | g :: s =>
      section ← goslice segs 0 (dLen g);
      segs ← goslice segs (dLen g) (zlen segs);
      let section := section ++ replicate (Z.to_nat (pLen g)) (replicate (Z.to_nat (SLen g)) x00) in
      if bool_decide (0 < pLen g) then
        match rs_New (dLen g) (pLen g) with
        | Some e => Ret (shards, Some e)
        | None =>
            match rs_Encode (dLen g) (pLen g) section with
            | (_, Some e) => Ret (shards, Some e)
            | (section, None) => AddParity_loop s segs (shards ++ section) None
            end
        end
      else AddParity_loop s segs (shards ++ section) e
  end.

(** The length check sets the error and goes on. *)
Definition AddParity (s : list Segment) (segs : list bytes) : Out (list bytes * option error) :=
  let segLen := foldl (λ a g, a + dLen g) 0 s in
  let e := if bool_decide (zlen segs ≠ segLen)
           then Some (Errorf "slice wrong length, got %d expected %d" [zlen segs; segLen])
           else None in
  AddParity_loop s segs [] e.
End AddParity.

(** ** Layout *)

(** The sections follow each other without gaps from [from] to [to]. *)
Fixpoint chain (from : Z) (s : list Segment) (to : Z) : Prop :=
  match s with
  | [] => from = to
  | g :: s => DStart g = from ∧ chain (PEnd g) s to
  end.

(** A section the Reed-Solomon coder takes: of 1 to [256-parity] data segments,
    at most 256 with parity, with parity if there is to be any. *)
Definition seg_ok (parity segSize : Z) (g : Segment) : Prop :=
  SLen g = segSize ∧ 1 ≤ dLen g ≤ 256 - parity ∧ dLen g + pLen g ≤ 256 ∧
  (parity = 0 → pLen g = 0) ∧ (0 < parity → 1 ≤ pLen g).

Definition data_count (s : list Segment) : Z := foldr (λ g a, dLen g + a) 0 s.
(** The bytes a joiner takes from the data segments of the sections. *)
Definition data_bytes (s : list Segment) : Z :=
  foldr (λ g a, (dLen g - 1) * SLen g + Last g + a) 0 s.

Lemma data_count_app s1 s2 : data_count (s1 ++ s2) = data_count s1 + data_count s2.
Proof. unfold data_count. induction s1; cbn [app foldr]; lia. Qed.

Lemma data_bytes_app s1 s2 : data_bytes (s1 ++ s2) = data_bytes s1 + data_bytes s2.
Proof. unfold data_bytes. induction s1; cbn [app foldr]; lia. Qed.

Lemma chain_app from s1 mid s2 to :
  chain from s1 mid → chain mid s2 to → chain from (s1 ++ s2) to.
Proof.
  revert from; induction s1 as [|g s1 IH]; cbn; intros from; [by intros ->|].
  intros [? ?] ?. split; [done|]. by apply IH.
Qed.

Section Layout.
Context (payloadLen segSize parity : Z).
Context (Hs : 0 < segSize) (Hp : 0 ≤ parity ≤ 255) (Hl : 0 ≤ payloadLen).
#[local] Abbreviation D := (data_per_section parity).
#[local] Abbreviation NS := (n_sections payloadLen segSize parity).
#[local] Abbreviation LS := (last_section payloadLen segSize parity).
#[local] Abbreviation spec := (segments_spec payloadLen segSize parity).

Lemma full_sections_facts n start last :
  let s := full_sections n start D segSize last in
  chain start s (start + 256 * Z.of_nat n) ∧ data_count s = D * Z.of_nat n ∧
  Forall (seg_ok parity segSize) s ∧ Forall (λ g, Last g = last) s.
Proof using Hp.
  unfold data_per_section. revert start; induction n as [|n IH]; intros start.
  { cbn. split; [lia|]. split; [lia|]. by split. }
  cbn [full_sections chain data_count foldr DStart PEnd].
  destruct (IH (start + 256)) as (C & N & F & L). cbn zeta in *.
  split; [split; [done|]; by replace (start + 256 * Z.of_nat (S n))
    with (start + 256 + 256 * Z.of_nat n) by lia|].
  unfold dLen at 1. cbn [DEnd DStart]. unfold data_count in N. rewrite N.
  split; [lia|]. split; constructor; try done.
  unfold seg_ok, dLen, pLen. cbn. split; [done|]. lia.
Qed.

Lemma last_parity_bounds :
  0 < LS → 0 ≤ last_parity payloadLen segSize parity ∧
  LS + last_parity payloadLen segSize parity ≤ 256 ∧
  (parity = 0 → last_parity payloadLen segSize parity = 0) ∧
  (0 < parity → 1 ≤ last_parity payloadLen segSize parity).
Proof using Hs Hp Hl.
  intros H0. destruct (sections_bounds payloadLen segSize parity Hs Hp Hl) as (_ & B & _).
  unfold last_parity. assert (D = 256 - parity) as ED by done.
  assert (0 ≤ LS * parity / D) by (apply Z.div_pos; nia).
  assert (LS * parity / D ≤ parity) by (apply Z.div_le_upper_bound; nia).
  split; [lia|]. split; [case_decide; lia|]. split; [|case_decide; lia].
  intros ->. rewrite Z.mul_0_r, Z.div_0_l by lia. by case_decide.
Qed.

Lemma segments_spec_layout :
  spec ≠ [] ∧
  chain 0 spec (256 * NS + if decide (0 < LS)
                          then LS + last_parity payloadLen segSize parity else 0) ∧
  data_count spec = payloadLen / segSize + 1 ∧ Forall (seg_ok parity segSize) spec.
Proof using Hs Hp Hl.
  destruct (sections_bounds payloadLen segSize parity Hs Hp Hl) as (Hq & Hr & E).
  pose proof (n_segs_pos payloadLen segSize Hs Hl) as Hn.
  destruct (full_sections_facts (Z.to_nat NS) 0 (full_last payloadLen segSize parity))
    as (C & N & F & _). rewrite !Z2Nat.id in * by lia.
  unfold segments_spec. fold (n_segs payloadLen segSize).
  destruct (decide (0 < LS)) as [Hls|Hls].
  - destruct (last_parity_bounds Hls) as (P0 & P1 & P2 & P3).
    split; [by destruct (full_sections _ _ _ _ _)|].
    split; [eapply chain_app; [exact C|]; cbn; lia|].
    rewrite data_count_app, N. split; [unfold data_count, dLen; cbn; lia|].
    apply Forall_app; split; [done|]. constructor; [|done].
    unfold seg_ok, dLen, pLen. cbn. unfold data_per_section in *. split; [done|]. lia.
  - rewrite app_nil_r, Z.add_0_r. split; [|split; [exact C|split; [lia|done]]].
    destruct (Z.to_nat NS) as [|k] eqn:EK; [|done].
    assert (NS = 0) as E0 by lia. rewrite E0 in E. lia.
Qed.

Lemma data_bytes_full n start last :
  data_bytes (full_sections n start D segSize last)
  = Z.of_nat n * ((D - 1) * segSize + last).
Proof using Type.
  revert start; induction n as [|n IH]; intros start; [done|].
  cbn [full_sections data_bytes foldr]. change (foldr _ 0 ?l) with (data_bytes l).
  rewrite IH. unfold dLen. cbn. unfold data_per_section. lia.
Qed.

Lemma data_bytes_spec :
  data_bytes spec
  = if decide (LS = 0 ∧ 2 ≤ NS) then (payloadLen / segSize + 1) * segSize else payloadLen.
Proof using Hs Hp Hl.
  destruct (sections_bounds payloadLen segSize parity Hs Hp Hl) as (Hq & Hr & E).
  pose proof (n_segs_pos payloadLen segSize Hs Hl) as Hn.
  pose proof (Z.div_mod payloadLen segSize ltac:(lia)) as Em.
  unfold segments_spec. rewrite data_bytes_app, data_bytes_full, Z2Nat.id by lia.
  unfold full_last. unfold n_segs in E. unfold n_segs in Hn.
  destruct (decide (0 < LS)) as [H0|H0].
  - rewrite !decide_False by lia. unfold data_bytes, dLen. cbn. nia.
  - destruct (decide (LS = 0 ∧ NS = 1)) as [[_ E1]|N1]; cbn [data_bytes foldr].
    + rewrite decide_False by lia. rewrite E1. nia.
    + assert (NS ≠ 0) by (intros E0; rewrite E0 in E; lia).
      rewrite decide_True by lia. nia.
Qed.
End Layout.

(** ** Properties *)

(** For every positive payload space, parity up to 255 and message length,
    [NewSegments] divides by nothing zero and returns at least one section; the
    sections follow each other from packet 0 without gaps, hold together one
    segment more than the message fills, and each is one the Reed-Solomon coder
    takes: at least one data segment, at most 256 packets, and parity exactly when
    parity was asked for. *)
Theorem NewSegments_layout payloadLen segSize overhead parity :
  0 < segSize → 0 ≤ parity ≤ 255 → 0 ≤ payloadLen →
  ∃ s to, NewSegments payloadLen (segSize + overhead) overhead parity = Ret s ∧
    s ≠ [] ∧ chain 0 s to ∧ data_count s = payloadLen / segSize + 1 ∧
    Forall (seg_ok parity segSize) s.
Proof.
  intros Hs Hp Hl. eexists _, _. split; [by apply NewSegments_run|].
  by apply segments_spec_layout.
Qed.

Lemma NewSegments_layout_witness :
  ∃ s to, NewSegments 524288 4096 61 128 = Ret s ∧ s ≠ [] ∧ chain 0 s to ∧
    data_count s = 524288 / 4035 + 1 ∧ Forall (seg_ok 128 4035) s.
Proof. apply (NewSegments_layout 524288 4035 61 128); lia. Defined.

(** The sections describe as many bytes as the message has, except when the
    data segments fill two or more sections exactly: then the padding of the last
    segment is counted as data, because [Last] is that of a full segment. *)
Theorem NewSegments_bytes payloadLen segSize overhead parity :
  0 < segSize → 0 ≤ parity ≤ 255 → 0 ≤ payloadLen →
  let n := payloadLen / segSize + 1 in
  ∃ s, NewSegments payloadLen (segSize + overhead) overhead parity = Ret s ∧
    (n `mod` (256 - parity) ≠ 0 ∨ n = 256 - parity → data_bytes s = payloadLen) ∧
    (n `mod` (256 - parity) = 0 → n ≠ 256 - parity →
       data_bytes s = n * segSize ∧ payloadLen < data_bytes s).
Proof.
  intros Hs Hp Hl n. eexists. split; [by apply NewSegments_run|].
  rewrite data_bytes_spec by done.
  destruct (sections_bounds payloadLen segSize parity Hs Hp Hl) as (Hq & Hr & E).
  pose proof (n_segs_pos payloadLen segSize Hs Hl).
  assert (last_section payloadLen segSize parity = n `mod` (256 - parity)) as EL by done.
  assert (n_segs payloadLen segSize = n) as EN by done. rewrite EN in *.
  assert (data_per_section parity = 256 - parity) as ED by done.
  set (q := n_sections payloadLen segSize parity) in *.
  split.
  - intros Hn. rewrite decide_False; [done|]. intros [H1 H2]. rewrite H1 in *.
    destruct Hn as [Hn|Hn]; [lia|nia].
  - intros H1 H2. rewrite decide_True by (split; [lia|]; rewrite EL, H1 in E; nia).
    split; [done|]. pose proof (Z.mod_pos_bound payloadLen segSize Hs).
    pose proof (Z.div_mod payloadLen segSize ltac:(lia)). lia.
Qed.

Lemma NewSegments_bytes_witness :
  ∃ s, NewSegments 5119 80 60 128 = Ret s ∧ data_bytes s = 5120 ∧ 5119 < data_bytes s.
Proof.
  destruct (NewSegments_bytes 5119 20 60 128) as (s & E & _ & H); [lia|lia|lia|].
  exists s. split; [exact E|]. apply H; by vm_compute.
Defined.

(** The vectors of [segcalc_test.go]. *)
Example NewSegments_test1 :
  NewSegments (2 * 2 ^ 17 + 111) 256 Overhead 64 = Ret
    [MkSegment 0 192 256 195 195; MkSegment 256 448 512 195 195;
     MkSegment 512 704 768 195 195; MkSegment 768 960 1024 195 195;
     MkSegment 1024 1216 1280 195 195; MkSegment 1280 1472 1536 195 195;
     MkSegment 1536 1728 1792 195 195; MkSegment 1792 1793 1794 195 175].
Proof. reflexivity. Qed.
Example NewSegments_test2 :
  NewSegments (2 * 2 ^ 18) 4096 Overhead 0 = Ret [MkSegment 0 130 130 4035 3773].
Proof. reflexivity. Qed.
Example NewSegments_test3 :
  NewSegments (2 * 2 ^ 18) 4096 Overhead 128
  = Ret [MkSegment 0 128 256 4035 4035; MkSegment 256 258 260 4035 3773].
Proof. reflexivity. Qed.
Example NewSegments_test4 :
  NewSegments (2 * 2 ^ 17) 4096 Overhead 0 = Ret [MkSegment 0 65 65 4035 3904].
Proof. reflexivity. Qed.
