(* ===== verification/SplitJoin.v ===== *)
(** * Splitting and joining messages

    Models [pkg/engine/packet/segment.go]: [SplitToPackets], which segments a
    message, adds parity and encodes a packet per shard, and [JoinPackets], which
    puts a message together from the packets that arrived. *)

From S2P Require Export Segcalc.

Definition ErrEmptyBytes : string := "cannot encode empty bytes".
Definition ErrDupe : string := "found duplicate packet, no redundancy, decoding failed".
Definition ErrLostNoRedundant : string := "no redundancy with %d lost of %d".
Definition ErrMismatch : string :=
  "found disagreement about common data in segment %d of %d in field %s value: got %v expected %v".
Definition ErrNotEnough : string :=
  "too many lost to recover in section %d, have %d, need %d minimum".

(** ** Splitting *)

Section Split.
Context {cr : Crypto} `{ReedSolomon}.

(** The loop that encodes shard after shard with the next key of the set;
    [rnd i] is the nonce and the blinder drawn for packet [i]. *)
Fixpoint encode_shards (rnd : Z → IV * Blinder) (i : Z) (p : list bytes) (pp : PacketParams)
    (ks : KeySet) (packets : list bytes) : Out (list bytes * PacketParams * KeySet) :=
  match p with
  | [] => Ret (packets, pp, ks)
  | d :: p =>
      let '(from, ks) := Next ks in
      let pp := MkPacketParams (pp_ID pp) (pp_To pp) (Some from) (pp_Parity pp) i
                  (pp_Length pp) d in
      s ← EncodePacket (rnd i).1 (rnd i).2 pp;
      encode_shards rnd (i + 1) p pp ks (packets ++ [s])
  end.

(** The parameters are the caller's and are left as the last packet set them.
    The error of [AddParity] is overwritten by the first [EncodePacket].  [None]:
    the segmentation does not end (no room for payload in a packet). *)
Definition SplitToPackets (seed : arr 32) (rnd : Z → IV * Blinder) (pp : PacketParams)
    (segSize : Z) (ks : KeySet)
    : option (Out ((Z * list bytes * option error) * PacketParams * KeySet)) :=
  if bool_decide (zlen (pp_Data pp) = 0) then
    Some (Ret ((0, [], Some (Errorf ErrEmptyBytes [])), pp, ks))
  else
    let pp := MkPacketParams (pp_ID pp) (pp_To pp) (pp_From pp) (pp_Parity pp) (pp_Seq pp)
                (zlen (pp_Data pp)) (pp_Data pp) in
    let overhead := PacketParams_GetOverhead in
    let ss := segSize - overhead in
    match Slice.Segment seed (pp_Data pp) ss with
    | None => None
    | Some segments => Some (
        segments ← segments;
        segMap ← NewSegments (pp_Length pp) segSize PacketParams_GetOverhead (pp_Parity pp);
        g ← goindex segMap (zlen segMap - 1);
        let dataShards := DEnd g in
        r ← AddParity segMap segments; let '(p, e) := r in
        r ← encode_shards rnd 0 p pp ks []; let '(packets, pp, ks) := r in
        Ret ((dataShards, packets, match p with [] => e | _ => None end), pp, ks))
    end.
End Split.

(** ** Joining *)

Definition RemovePacket {A} (slice : list A) (s : Z) : Out (list A) :=
  a ← goslice slice 0 s;
  b ← goslice slice (s + 1) (zlen slice);
  Ret (a ++ b).

Definition join (msg : bytes) (segments : list bytes) (sLen last : Z) : Out bytes :=
  let b := concat segments in
  b ← (if bool_decide (sLen ≠ last) then goslice b 0 (zlen b - sLen + last) else Ret b);
  Ret (msg ++ b).

Section Join.
Context {cr : Crypto} `{ReedSolomon}.

#[local] Abbreviation slots := (list (option Packet)).

Definition Less (a b : Packet) : Prop := Seq a ≤ Seq b.
#[export] Instance Less_dec a b : Decision (Less a b).
Proof. unfold Less. apply _. Defined.

(** The loop that compares every packet with the first: the sequence numbers to
    discard, or the error. *)
Fixpoint check_common (packets rest : list Packet) (i lp red length prevSeq : Z)
    (discard : list Z) : Out (list Z + error) :=
  match rest with
  | [] => Ret (inl discard)
  | ps :: rest =>
      let common :=
        if bool_decide (pk_Parity ps ≠ red) then
          Ret (inr (Errorf ErrMismatch [i; lp; pk_Parity ps; red]))
        else if bool_decide (pk_Length ps ≠ length) then
          Ret (inr (Errorf ErrMismatch [i; lp; pk_Length ps; length]))
        else check_common packets rest (i + 1) lp red length (Seq ps) discard in
      if bool_decide (Seq ps = prevSeq) then
        if bool_decide (red = 0) then Ret (inr (Errorf ErrDupe []))
        else
          q ← goindex packets prevSeq;
          if bool_decide (Single (pk_Data ps) = Single (pk_Data q)) then
            check_common packets rest (i + 1) lp red length prevSeq (discard ++ [Seq ps])
          else common
      else common
  end.

Fixpoint remove_all (packets : list Packet) (i : Z) (discard : list Z) : Out (list Packet) :=
  match discard with
  | [] => Ret packets
  | d :: discard =>
      packets ← RemovePacket packets (d - i);
      remove_all packets (i + 1) discard
  end.

(** [segments = append(segments, pkts[i].Data)] for [n] indices from [i]. *)
Fixpoint gather (n : nat) (pkts : slots) (i : Z) : Out (list bytes) :=
  match n with
  | O => Ret []
  | S n =>
      o ← goindex pkts i;
      match o with
      | None => Panic PNil
      | Some p => r ← gather n pkts (i + 1); Ret (pk_Data p :: r)
      end
  end.

(** The same with an empty segment of [sLen] bytes for a lost packet. *)
Fixpoint gather_filled (n : nat) (pkts : slots) (i sLen : Z) : Out (list bytes) :=
  match n with
  | O => Ret []
  | S n =>
      o ← goindex pkts i;
      r ← gather_filled n pkts (i + 1) sLen;
      Ret (match o with
           | None => replicate (Z.to_nat sLen) x00
           | Some p => pk_Data p
           end :: r)
  end.

(** The indices, counted from [start], of the lost and of the received packets
    among [n] from [i]. *)
Fixpoint census (n : nat) (pkts : slots) (i start : Z) : Out (list Z * list Z) :=
  match n with
  | O => Ret ([], [])
  | S n =>
      o ← goindex pkts i;
      r ← census n pkts (i + 1) start; let '(lost, have) := r in
      Ret (match o with
           | None => (i - start :: lost, have)
           | Some _ => (lost, i - start :: have)
           end)
  end.

(** All packets are there: concatenate the data shards. *)
Fixpoint join_all (pkts : slots) (segMap : list Segment) (msg : bytes) : Out bytes :=
  match segMap with
  | [] => Ret msg
  | sm :: segMap =>
      segments ← gather (Z.to_nat (dLen sm)) pkts (DStart sm);
      msg ← join msg segments (SLen sm) (Last sm);
      join_all pkts segMap msg
  end.

(** Packets are lost: reconstruct section by section; the message so far is
    returned with an error. *)
Fixpoint join_lossy (pkts : slots) (si : Z) (segMap : list Segment) (msg : bytes)
    : Out (bytes * option error) :=
  match segMap with
  | [] => Ret (msg, None)
  | sm :: segMap =>
      d ← census (Z.to_nat (dLen sm)) pkts (DStart sm) (DStart sm); let '(lD, hD) := d in
      p ← census (Z.to_nat (pLen sm)) pkts (DEnd sm) (DStart sm); let '(lP, hP) := p in
      let dLen := dLen sm in
      if bool_decide (zlen hD + zlen hP < dLen) then
        Ret (msg, Some (Errorf ErrNotEnough [si; zlen hD + zlen hP; dLen]))
      else if bool_decide (zlen hD = dLen) then
        segments ← gather (Z.to_nat dLen) pkts (DStart sm);
        msg ← join msg segments (SLen sm) (Last sm);
        join_lossy pkts (si + 1) segMap msg
      else
        segments ← gather_filled (Z.to_nat (PEnd sm - DStart sm)) pkts (DStart sm) (SLen sm);
        match rs_New dLen (PEnd sm - DEnd sm) with
        | Some e => Ret (msg, Some e)
        | None =>
            match rs_Reconst dLen (PEnd sm - DEnd sm) segments (hD ++ hP) lD with
            | (_, Some e) => Ret (msg, Some e)
            | (segments, None) =>
                segments ← goslice segments 0 dLen;
                msg ← join msg segments (SLen sm) (Last sm);
                join_lossy pkts (si + 1) segMap msg
            end
        end
  end.

Fixpoint collate (packets : list Packet) (pkts : slots) : Out slots :=
  match packets with
  | [] => Ret pkts
  | p :: packets => pkts ← goset pkts (Seq p) (Some p); collate packets pkts
  end.

Definition JoinPackets (packets : slots) : Out (slots * bytes * option error) :=
  if bool_decide (zlen packets = 0) then Ret ([], [], Some (Errorf "empty packets" []))
  else
    let packets := merge_sort Less (omap id packets) in
    let lp := zlen packets in
    p ← goindex packets 0;
    let overhead := Packet_GetOverhead in
    segMap ← NewSegments (pk_Length p) (zlen (pk_Data p) + overhead) overhead (pk_Parity p);
    g ← goindex segMap (zlen segMap - 1);
    let segCount := PEnd g in
    let length := pk_Length p in
    let red := pk_Parity p in
    c ← check_common packets (drop 1 packets) 1 lp red length (Seq p) [];
    match c with
    | inr e => Ret ([], [], Some e)
    | inl discard =>
        packets ← remove_all packets 0 discard;
        let lp := lp - zlen discard in
        if bool_decide (red = 0 ∧ lp < segCount) then
          Ret ([], [], Some (Errorf ErrLostNoRedundant [segCount - lp; segCount]))
        else if bool_decide (segCount = lp) then
          msg ← join_all (Some <$> packets) segMap [];
          Ret ([], msg, None)
        else
          pkts ← collate packets (replicate (Z.to_nat segCount) None);
          r ← join_lossy pkts 0 segMap []; let '(msg, e) := r in
          Ret (pkts, msg, e)
    end.
End Join.

(** ** What the sender lays out *)

Section Shards.
Context `{ReedSolomon} (par : Z → Z → list bytes → list bytes).

(** The coder works for the sections of a message. *)
Definition coders (s : list Segment) : Prop :=
  Forall (λ g, 0 < pLen g → RSLaw (dLen g) (pLen g) (par (dLen g) (pLen g))) s.

Definition parity_for (g : Segment) (data : list bytes) : list bytes :=
  if decide (0 < pLen g) then par (dLen g) (pLen g) data else [].

(** The shards: section by section the data segments, then their parity. *)
Fixpoint shards_of (s : list Segment) (segs : list bytes) : list bytes :=
  match s with
  | [] => []
  | g :: s =>
      let data := take (Z.to_nat (dLen g)) segs in
      data ++ parity_for g data ++ shards_of s (drop (Z.to_nat (dLen g)) segs)
  end.

Context (parity size : Z) (Hsize : 0 < size) (Hpar : 0 ≤ parity).
#[local] Abbreviation sized := (Forall (λ v : bytes, zlen v = size)).
#[local] Abbreviation seg_ok := (seg_ok parity size).

Lemma section_data g s segs :
  seg_ok g → sized segs → zlen segs = data_count (g :: s) → Forall seg_ok s →
  zlen (take (Z.to_nat (dLen g)) segs) = dLen g ∧ sized (take (Z.to_nat (dLen g)) segs) ∧
  zlen (drop (Z.to_nat (dLen g)) segs) = data_count s ∧
  sized (drop (Z.to_nat (dLen g)) segs) ∧ dLen g ≤ zlen segs.
Proof using Type.
  intros (Eg & D & _) Hsz Hn Hs. cbn [data_count foldr] in Hn.
  change (foldr _ 0 s) with (data_count s) in Hn.
  assert (0 ≤ data_count s) as H0.
  { clear -Hs. induction Hs as [|g s (_ & ? & _) Hs IH]; cbn; [lia|]. unfold data_count in IH. lia. }
  unfold zlen in *. rewrite length_take, length_drop.
  split; [lia|]. split; [by apply Forall_take|]. split; [lia|]. split; [by apply Forall_drop|]. lia.
Qed.

Lemma parity_for_sized g data :
  seg_ok g → (0 < pLen g → RSLaw (dLen g) (pLen g) (par (dLen g) (pLen g))) →
  zlen data = dLen g → sized data →
  zlen (parity_for g data) = pLen g ∧ sized (parity_for g data).
Proof using Hsize Hpar.
  intros (_ & D & _ & P0 & P1) HR Hl Hsz. unfold parity_for. case_decide as Hp.
  - by apply (rs_parity_len _ _ _ (HR Hp)).
  - split; [|by constructor]. unfold zlen. cbn.
    destruct (decide (parity = 0)) as [?|?]; lia.
Qed.

Lemma AddParity_loop_run s segs shards e :
  Forall seg_ok s → coders s → sized segs → zlen segs = data_count s →
  ∃ e', AddParity_loop s segs shards e = Ret (shards ++ shards_of s segs, e') ∧
    (e = None → e' = None).
Proof using Hsize Hpar.
  intros Hok. revert segs shards e; induction Hok as [|g s Hg Hok IH];
    intros segs shards e HC Hsz Hn.
  { exists e. cbn. by rewrite app_nil_r. }
  apply Forall_cons in HC as [HR HC].
  destruct (section_data g s segs) as (Ld & Sd & Lr & Sr & Hle); try done.
  set (data := take _ segs) in *. set (rest := drop _ segs) in *.
  destruct (parity_for_sized g data) as (Lp & Sp); try done.
  pose proof Hg as (Eg & D & _). cbn [AddParity_loop shards_of]. fold data rest.
  rewrite (goslice_in segs 0) by lia. cbn [mbind Out_bind]. rewrite drop_0, Z.sub_0_r. fold data.
  rewrite (goslice_in segs (dLen g)) by lia. cbn [mbind Out_bind]. fold rest.
  rewrite take_ge by (unfold rest, zlen; rewrite length_drop; lia).
  case_bool_decide as Hp.
  - specialize (HR Hp). rewrite (rs_new_ok _ _ _ HR).
    rewrite (rs_encode_ok _ _ _ HR data _ size); try done.
    + destruct (IH rest (shards ++ data ++ par (dLen g) (pLen g) data) None HC Sr Lr)
        as (e' & -> & He).
      exists e'. rewrite <- !app_assoc. unfold parity_for. rewrite decide_True by done.
      split; [done|]. intros _. by apply He.
    + unfold zlen. rewrite length_replicate. lia.
    + apply Forall_app; split; [done|]. apply Forall_replicate.
      unfold zlen. rewrite length_replicate. lia.
  - replace (Z.to_nat (pLen g)) with O by lia. cbn [replicate]. rewrite app_nil_r.
    destruct (IH rest (shards ++ data) e HC Sr Lr) as (e' & -> & He).
    exists e'. rewrite <- !app_assoc. unfold parity_for. rewrite decide_False by done. done.
Qed.

Lemma AddParity_run s segs :
  Forall seg_ok s → coders s → sized segs → zlen segs = data_count s →
  AddParity s segs = Ret (shards_of s segs, None).
Proof using Hsize Hpar.
  intros Hok HC Hsz Hn. unfold AddParity.
  assert (foldl (λ a g, a + dLen g) 0 s = data_count s) as ->.
  { enough (∀ z, foldl (λ a g, a + dLen g) z s = z + data_count s) as -> by lia. clear.
    induction s as [|g s IH]; intros z; cbn; [lia|]. rewrite IH. unfold data_count. lia. }
  rewrite bool_decide_false by lia.
  destruct (AddParity_loop_run s segs [] None) as (e & -> & He); try done.
  by rewrite (He eq_refl).
Qed.

Lemma shards_sized s segs from to :
  Forall seg_ok s → coders s → sized segs → zlen segs = data_count s → chain from s to →
  zlen (shards_of s segs) = to - from ∧ sized (shards_of s segs).
Proof using Hsize Hpar.
  intros Hok. revert segs from; induction Hok as [|g s Hg Hok IH];
    intros segs from HC Hsz Hn Hch.
  { cbn in *. split; [unfold zlen; cbn; lia|done]. }
  apply Forall_cons in HC as [HR HC]. destruct Hch as [Hfrom Hch].
  destruct (section_data g s segs) as (Ld & Sd & Lr & Sr & Hle); try done.
  destruct (parity_for_sized g (take (Z.to_nat (dLen g)) segs)) as (Lp & Sp); try done.
  destruct (IH _ (PEnd g) HC Sr Lr Hch) as [L S]. cbn [shards_of].
  rewrite !zlen_app, Ld, Lp, L. split; [unfold dLen, pLen; lia|].
  by repeat (apply Forall_app; split).
Qed.

(** One section short of segments makes [AddParity] slice out of range. *)
Lemma AddParity_short s segs :
  Forall seg_ok s → coders s → sized segs → zlen segs < data_count s →
  AddParity s segs = Panic PSlice.
Proof using Hsize Hpar.
  intros Hok HC Hsz Hn. unfold AddParity. generalize (@nil bytes) at 1.
  match goal with |- context [if ?c then Some ?x else None] => generalize (if c then Some x else None) end.
  revert segs HC Hsz Hn. induction Hok as [|g s Hg Hok IH]; intros segs HC Hsz Hn e shards.
  { cbn in Hn. unfold zlen in Hn. lia. }
  apply Forall_cons in HC as [HR HC]. pose proof Hg as (Eg & D & _). cbn [AddParity_loop].
  destruct (decide (zlen segs < dLen g)); [by rewrite (goslice_out segs 0)|].
  rewrite !goslice_in by lia. cbn [mbind Out_bind]. rewrite drop_0, Z.sub_0_r.
  set (data := take (Z.to_nat (dLen g)) segs). set (rest := take _ (drop _ segs)).
  assert (zlen data = dLen g) by (unfold data, zlen in *; rewrite length_take; lia).
  assert (sized data) by (by apply Forall_take).
  assert (sized rest) by (by apply Forall_take, Forall_drop).
  assert (zlen rest < data_count s).
  { cbn in Hn. change (foldr _ 0 s) with (data_count s) in Hn.
    unfold rest, zlen in *. rewrite length_take, length_drop. lia. }
  case_bool_decide as Hp; [|by apply IH].
  specialize (HR Hp). rewrite (rs_new_ok _ _ _ HR).
  rewrite (rs_encode_ok _ _ _ HR data _ size); try done; [by apply IH|..].
  - unfold zlen. rewrite length_replicate. lia.
  - apply Forall_app; split; [done|]. apply Forall_replicate.
    unfold zlen. rewrite length_replicate. lia.
Qed.
End Shards.

(** ** What the receiver collects *)

Lemma goindex_some {A} (l : list A) i a : 0 ≤ i → l !! Z.to_nat i = Some a → goindex l i = Ret a.
Proof. intros Hi E. unfold goindex. by rewrite bool_decide_true, E by lia. Qed.

Section Slots.
#[local] Abbreviation slots := (list (option Packet)).
Implicit Types (pkts : slots) (shards : list bytes).

Definition agree (o : option Packet) (d : bytes) : Prop :=
  match o with None => True | Some p => pk_Data p = d end.

(** From position [from] the slots hold these shards, or nothing. *)
Definition covers pkts (from : Z) shards : Prop :=
  ∀ k d, shards !! k = Some d → ∃ o, pkts !! (Z.to_nat from + k)%nat = Some o ∧ agree o d.

Definition present pkts (i : Z) : Prop := ∃ p, pkts !! Z.to_nat i = Some (Some p).

#[export] Instance present_dec pkts i : Decision (present pkts i).
Proof.
  unfold present. destruct (pkts !! Z.to_nat i) as [[p|]|].
  - left. by exists p.
  - right. naive_solver.
  - right. naive_solver.
Defined.

Lemma covers_app pkts from s1 s2 :
  0 ≤ from → covers pkts from (s1 ++ s2) →
  covers pkts from s1 ∧ covers pkts (from + zlen s1) s2.
Proof.
  intros Hf HC. split; intros k d E.
  - apply HC. by apply lookup_app_l_Some.
  - destruct (HC (length s1 + k)%nat d) as (o & Eo & Ha).
    { by rewrite lookup_app_r, Nat.add_comm, Nat.add_sub by lia. }
    exists o. split; [|done]. rewrite <- Eo. f_equal. unfold zlen. lia.
Qed.

Lemma covers_cons pkts i d shards :
  0 ≤ i → covers pkts i (d :: shards) →
  (∃ o, pkts !! Z.to_nat i = Some o ∧ agree o d) ∧ covers pkts (i + 1) shards.
Proof.
  intros Hi HC. destruct (covers_app pkts i [d] shards Hi HC) as [_ H2]. split; [|done].
  destruct (HC O d eq_refl) as (o & Eo & Ha). exists o. by rewrite Nat.add_0_r in Eo.
Qed.

Lemma gather_run pkts i data :
  0 ≤ i → covers pkts i data → (∀ x, i ≤ x < i + zlen data → present pkts x) →
  gather (length data) pkts i = Ret data.
Proof.
  revert i; induction data as [|d data IH]; intros i Hi HC HP; [done|].
  destruct (covers_cons _ _ _ _ Hi HC) as ((o & Eo & Ha) & HC').
  destruct (HP i) as (p & Ep); [unfold zlen; cbn [length]; lia|].
  rewrite Eo in Ep. injection Ep as ->. cbn [gather length].
  rewrite (goindex_some _ _ _ Hi Eo). cbn [mbind Out_bind].
  rewrite IH; [|lia|done|intros x ?; apply HP; unfold zlen in *; cbn [length] in *; lia].
  cbn. by rewrite Ha.
Qed.

Lemma gather_filled_run pkts i size shards :
  0 ≤ i → 0 ≤ size → covers pkts i shards → Forall (λ v, zlen v = size) shards →
  ∃ vects, gather_filled (length shards) pkts i size = Ret vects ∧
    length vects = length shards ∧ Forall (λ v, zlen v = size) vects ∧
    ∀ x, i ≤ x < i + zlen shards → present pkts x →
         vects !! Z.to_nat (x - i) = shards !! Z.to_nat (x - i).
Proof.
  intros Hi Hz. revert i Hi; induction shards as [|d shards IH]; intros i Hi HC HS.
  { exists []. split_and!; [done|done|done|]. intros x ?. unfold zlen in *. cbn in *. lia. }
  destruct (covers_cons _ _ _ _ Hi HC) as ((o & Eo & Ha) & HC').
  apply Forall_cons in HS as [Hd HS].
  destruct (IH (i + 1)) as (vects & E & L & Sv & P); [lia|done|done|].
  cbn [gather_filled length]. rewrite (goindex_some _ _ _ Hi Eo). cbn [mbind Out_bind].
  rewrite E. cbn [mbind Out_bind]. eexists. split; [done|]. split; [cbn; lia|]. split.
  - constructor; [|done]. destruct o as [p|]; [by rewrite Ha|].
    unfold zlen. rewrite length_replicate. lia.
  - intros x Hx (p & Ep). destruct (decide (x = i)) as [->|Hne].
    + rewrite Eo in Ep. injection Ep as ->. rewrite Z.sub_diag. cbn in *. by rewrite Ha.
    + unfold zlen in *. cbn [length] in *.
      replace (Z.to_nat (x - i)) with (S (Z.to_nat (x - (i + 1)))) by lia. cbn [lookup list_lookup].
      apply P; [lia|]. by exists p.
Qed.

Lemma census_run pkts i start shards :
  0 ≤ i → covers pkts i shards →
  ∃ lost have, census (length shards) pkts i start = Ret (lost, have) ∧
    NoDup have ∧ zlen lost + zlen have = zlen shards ∧
    (∀ x, x ∈ have ↔ i ≤ x + start < i + zlen shards ∧ present pkts (x + start)) ∧
    (∀ x, x ∈ lost ↔ i ≤ x + start < i + zlen shards ∧ ¬ present pkts (x + start)).
Proof.
  revert i; induction shards as [|d shards IH]; intros i Hi HC.
  { exists [], []. split; [done|]. split; [by constructor|]. split; [done|].
    split; intros x; (split; [by intros ?%not_elem_of_nil|unfold zlen; cbn; lia]). }
  destruct (covers_cons _ _ _ _ Hi HC) as ((o & Eo & Ha) & HC').
  destruct (IH (i + 1)) as (lost & have & E & ND & L & Hh & Hl); [lia|done|].
  cbn [census length]. rewrite (goindex_some _ _ _ Hi Eo). cbn [mbind Out_bind].
  rewrite E. cbn [mbind Out_bind].
  assert (present pkts i ↔ o ≠ None) as HP.
  { unfold present. rewrite Eo. destruct o; naive_solver. }
  assert (∀ x, i ≤ x + start < i + zlen (d :: shards) ↔
    x = i - start ∨ i + 1 ≤ x + start < i + 1 + zlen shards) as HR.
  { intros x. unfold zlen. cbn [length]. lia. }
  assert (∀ x, x = i - start → x + start = i) as Hxs by lia.
  destruct o as [p|].
  - exists lost, (i - start :: have). split; [done|]. split; [|split; [|split]].
    + constructor; [|done]. intros [? _]%Hh. lia.
    + unfold zlen in *. cbn [length]. lia.
    + intros x. rewrite elem_of_cons, Hh, HR. split.
      * intros [Hx|[? ?]]; [|by split; [right|]]. split; [by left|].
        rewrite (Hxs x Hx). by apply HP.
      * intros [[?|?] ?]; [by left|by right].
    + intros x. rewrite Hl, HR. split; [intros [? ?]; by split; [right|]|].
      intros [[Hx|?] Hn]; [|by split]. rewrite (Hxs x Hx) in Hn. by destruct Hn; apply HP.
  - exists (i - start :: lost), have. split; [done|]. split; [done|]. split; [|split].
    + unfold zlen in *. cbn [length]. lia.
    + intros x. rewrite Hh, HR. split; [intros [? ?]; by split; [right|]|].
      intros [[Hx|?] Hn]; [|by split]. rewrite (Hxs x Hx) in Hn. by apply HP in Hn.
    + intros x. rewrite elem_of_cons, Hl, HR. split.
      * intros [Hx|[? ?]]; [|by split; [right|]]. split; [by left|].
        rewrite (Hxs x Hx). intros N%HP. done.
      * intros [[?|?] ?]; [by left|by right].
Qed.
End Slots.

(** Enough of every section arrived: as many packets as it has data segments. *)
Definition enough (pkts : list (option Packet)) (s : list Segment) : Prop :=
  Forall (λ g, ∃ l : list Z, NoDup l ∧ dLen g ≤ zlen l ∧
            ∀ x, x ∈ l → DStart g ≤ x < PEnd g ∧ present pkts x) s.

(** What the joiner makes of the data segments. *)
Fixpoint joined (s : list Segment) (segs : list bytes) (msg : bytes) : Out bytes :=
  match s with
  | [] => Ret msg
  | g :: s =>
      msg ← join msg (take (Z.to_nat (dLen g)) segs) (SLen g) (Last g);
      joined s (drop (Z.to_nat (dLen g)) segs) msg
  end.

Section JoinSections.
Context `{ReedSolomon} (par : Z → Z → list bytes → list bytes).
Context (parity size : Z) (Hsize : 0 < size) (Hpar : 0 ≤ parity).
#[local] Abbreviation sized := (Forall (λ v : bytes, zlen v = size)).
#[local] Abbreviation seg_ok := (seg_ok parity size).
Implicit Types pkts : list (option Packet).

Lemma join_all_run pkts s segs from to msg :
  Forall seg_ok s → coders par s → sized segs → zlen segs = data_count s →
  0 ≤ from → chain from s to → covers pkts from (shards_of par s segs) →
  (∀ x, from ≤ x < to → present pkts x) →
  join_all pkts s msg = joined s segs msg.
Proof using Hsize Hpar.
  intros Hok. revert segs from msg; induction Hok as [|g s Hg Hok IH];
    intros segs from msg HC Hsz Hn Hf Hch HV HP; [done|].
  pose proof HC as HC0. apply Forall_cons in HC as [HR HC].
  destruct Hch as [Hfrom Hch].
  destruct (section_data parity size g s segs) as (Ld & Sd & Lr & Sr & Hle); try done.
  destruct (parity_for_sized par parity size Hsize Hpar g (take (Z.to_nat (dLen g)) segs))
    as (Lp & Sp); try done.
  destruct (shards_sized par parity size Hsize Hpar s _ _ _ Hok HC Sr Lr Hch) as [Lt _].
  cbn [shards_of] in HV. pose proof (zlen_nonneg (shards_of par s (drop (Z.to_nat (dLen g)) segs))).
  pose proof Hg as (_ & D & _).
  apply covers_app in HV as [HVd HV]; [|done]. apply covers_app in HV as [_ HV]; [|lia].
  rewrite Ld, Lp in HV. cbn [join_all joined]. rewrite Hfrom.
  replace (Z.to_nat (dLen g)) with (length (take (Z.to_nat (dLen g)) segs)) at 1
    by (unfold zlen in Ld; lia).
  assert (0 ≤ pLen g) by (rewrite <- Lp; apply zlen_nonneg).
  unfold dLen, pLen in *.
  rewrite gather_run; [|done|done|intros x ?; apply HP; lia].
  cbn [mbind Out_bind]. destruct (join _ _ _ _); [|done]. cbn [mbind Out_bind].
  apply (IH _ (PEnd g)); try done; [lia| |intros x ?; apply HP; lia].
  by replace (PEnd g) with (from + (DEnd g - DStart g) + (PEnd g - DEnd g)) by lia.
Qed.

(** One section of [join_lossy]: with enough packets its data comes back. *)
Lemma join_lossy_section pkts si g s msg data from :
  seg_ok g → (0 < pLen g → RSLaw (dLen g) (pLen g) (par (dLen g) (pLen g))) →
  zlen data = dLen g → sized data → 0 ≤ from → DStart g = from →
  covers pkts from data → covers pkts (from + dLen g) (parity_for par g data) →
  (∃ l : list Z, NoDup l ∧ dLen g ≤ zlen l ∧
     ∀ x, x ∈ l → DStart g ≤ x < PEnd g ∧ present pkts x) →
  join_lossy pkts si (g :: s) msg
  = (msg ← join msg data (SLen g) (Last g); join_lossy pkts (si + 1) s msg).
Proof using Hsize Hpar.
  intros Hg HR Ld Sd Hf <- HVd HVp (l & NDl & Hl & Hin).
  destruct (parity_for_sized par parity size Hsize Hpar g data) as (Lp & Sp); try done.
  pose proof Hg as (Eg & D & _).
  assert (0 ≤ pLen g) by (rewrite <- Lp; apply zlen_nonneg).
  destruct (census_run pkts (DStart g) (DStart g) data) as (lD & hD & ED & NDD & LD & HhD & HlD);
    [done|done|].
  destruct (census_run pkts (DStart g + dLen g) (DStart g) (parity_for par g data))
    as (lP & hP & EP & NDP & LP & HhP & HlP); [lia|done|].
  assert (DStart g + dLen g = DEnd g) as EE by (unfold dLen; lia). rewrite EE in *.
  cbn [join_lossy].
  replace (Z.to_nat (dLen g)) with (length data) by (unfold zlen in Ld; lia).
  replace (Z.to_nat (pLen g)) with (length (parity_for par g data)) by (unfold zlen in Lp; lia).
  rewrite ED, EP. cbn [mbind Out_bind].
  assert (NoDup (hD ++ hP)) as ND.
  { apply NoDup_app. split; [done|]. split; [|done]. intros x [? _]%HhD [? _]%HhP. lia. }
  assert (zlen l ≤ zlen (hD ++ hP)) as Hle.
  { assert (zlen l = zlen ((λ x, x - DStart g) <$> l)) as -> by (unfold zlen; by rewrite length_fmap).
    unfold zlen. apply inj_le, submseteq_length, NoDup_submseteq.
    - apply NoDup_fmap_2; [|done]. intros x y ?. lia.
    - intros x (y & -> & Hy)%list_elem_of_fmap. destruct (Hin y Hy) as [? Hp].
      apply elem_of_app. rewrite HhD, HhP.
      replace (y - DStart g + DStart g) with y by lia. unfold dLen, pLen in *.
      destruct (decide (y < DEnd g)); [left|right]; (split; [lia|done]). }
  rewrite zlen_app in Hle. rewrite bool_decide_false by lia.
  case_bool_decide as Hall.
  - rewrite gather_run; [done|done|done|].
    intros x Hx. destruct (decide (present pkts x)) as [|Hnp]; [done|].
    assert (lD = []) as E0 by (apply nil_length_inv; unfold zlen in *; lia).
    destruct (not_elem_of_nil (x - DStart g)). rewrite <- E0. apply HlD.
    by replace (x - DStart g + DStart g) with x by lia.
  - assert (0 < pLen g) as Hp.
    { pose proof (zlen_nonneg lD). pose proof (zlen_nonneg lP). lia. }
    specialize (HR Hp).
    assert (covers pkts (DStart g) (data ++ parity_for par g data)) as HV.
    { intros k d [Hk|[Hk Hk']]%lookup_app_Some; [by apply HVd|].
      destruct (HVp _ _ Hk') as (o & Eo & Ha). exists o. split; [|done]. rewrite <- Eo. f_equal.
      unfold zlen in *. lia. }
    destruct (gather_filled_run pkts (DStart g) size (data ++ parity_for par g data))
      as (vects & EV & LV & SV & PV); [done|lia|done|by apply Forall_app|].
    assert (zlen (data ++ parity_for par g data) = dLen g + pLen g) as LL
      by (rewrite zlen_app; lia).
    replace (Z.to_nat (PEnd g - DStart g)) with (length (data ++ parity_for par g data))
      by (unfold zlen, dLen, pLen in *; lia).
    rewrite Eg, EV. cbn [mbind Out_bind]. fold (pLen g). rewrite (rs_new_ok _ _ _ HR).
    unfold parity_for in *. rewrite decide_True in * by done.
    destruct (rs_reconst_ok _ _ _ HR data vects (hD ++ hP) lD size) as (out & -> & Eout); try done.
    + unfold zlen in *. lia.
    + rewrite zlen_app. lia.
    + intros i [Hi|Hi]%elem_of_app.
      * apply HhD in Hi as [? ?]. split; [lia|].
        replace i with (i + DStart g - DStart g) by lia. apply PV; [lia|done].
      * apply HhP in Hi as [? ?]. split; [unfold dLen, pLen in *; lia|].
        replace i with (i + DStart g - DStart g) by lia. apply PV; [|done].
        unfold dLen, pLen in *; lia.
    + intros i Hi Hnot. apply HlD. split; [lia|]. intros Hpr.
      apply Hnot, elem_of_app. left. apply HhD. split; [lia|done].
    + rewrite goslice_in; cycle 1; [lia| |].
      { apply (f_equal length) in Eout. rewrite length_take in Eout. unfold zlen in *. lia. }
      cbn [mbind Out_bind]. rewrite drop_0, Z.sub_0_r, Eout. done.
Qed.

Lemma join_lossy_run pkts s segs from to msg si :
  Forall seg_ok s → coders par s → sized segs → zlen segs = data_count s →
  0 ≤ from → chain from s to → covers pkts from (shards_of par s segs) → enough pkts s →
  join_lossy pkts si s msg = (m ← joined s segs msg; Ret (m, None)).
Proof using Hsize Hpar.
  intros Hok. revert segs from msg si; induction Hok as [|g s Hg Hok IH];
    intros segs from msg si HC Hsz Hn Hf Hch HV HE; [done|].
  apply Forall_cons in HC as [HR HC]. apply Forall_cons in HE as [Hge HE].
  destruct Hch as [Hfrom Hch].
  destruct (section_data parity size g s segs) as (Ld & Sd & Lr & Sr & Hle); try done.
  destruct (parity_for_sized par parity size Hsize Hpar g (take (Z.to_nat (dLen g)) segs))
    as (Lp & Sp); try done.
  pose proof Hg as (_ & D & _).
  cbn [shards_of] in HV. apply covers_app in HV as [HVd HV]; [|done].
  pose proof HV as HV'. apply covers_app in HV as [HVp HV]; [|lia]. rewrite Ld, Lp in *.
  rewrite (join_lossy_section pkts si g s msg (take (Z.to_nat (dLen g)) segs) from); try done.
  cbn [joined]. destruct (join _ _ _ _); [|done]. cbn [mbind Out_bind].
  assert (0 ≤ pLen g) by (rewrite <- Lp; apply zlen_nonneg). unfold dLen, pLen in *.
  apply (IH _ (PEnd g)); try done; [lia|].
  by replace (PEnd g) with (from + (DEnd g - DStart g) + (PEnd g - DEnd g)) by lia.
Qed.
End JoinSections.

Section JoinPayload.
Context (size : Z) (Hsize : 0 < size).

Lemma join_run msg (data : list bytes) last :
  Forall (λ v, zlen v = size) data → 1 ≤ zlen data → 0 ≤ last ≤ size →
  join msg data size last = Ret (msg ++ take (Z.to_nat (zlen data * size - size + last)) (concat data)).
Proof using Hsize.
  intros Hd H1 Hl. unfold join. pose proof (length_concat_sized data size Hd) as LC.
  case_bool_decide as Hne.
  - rewrite goslice_in by nia. cbn [mbind Out_bind]. rewrite drop_0. by rewrite LC, Z.sub_0_r.
  - subst last. cbn [mbind Out_bind]. rewrite take_ge; [done|].
    unfold zlen in *. lia.
Qed.

Lemma joined_run parity init fin segs msg :
  Forall (seg_ok parity size) (init ++ [fin]) → Forall (λ g, Last g = SLen g) init →
  0 ≤ Last fin ≤ size → Forall (λ v, zlen v = size) segs → zlen segs = data_count (init ++ [fin]) →
  joined (init ++ [fin]) segs msg
  = Ret (msg ++ take (Z.to_nat (zlen segs * size - size + Last fin)) (concat segs)).
Proof using Hsize.
  revert segs msg; induction init as [|g init IH]; intros segs msg Hok HL Hf Hsz Hn.
  - cbn [app joined]. apply Forall_cons in Hok as [(Eg & D & _) _]. cbn in Hn.
    rewrite take_ge by (unfold zlen in *; lia). rewrite Eg, join_run by (done || lia). done.
  - cbn [app] in *. apply Forall_cons in Hok as [Hg Hok]. apply Forall_cons in HL as [Hlg HL].
    destruct (section_data parity size g (init ++ [fin]) segs) as (Ld & Sd & Lr & Sr & Hle); try done.
    pose proof Hg as (Eg & D & _). cbn [joined]. rewrite Hlg, Eg, join_run by (done || lia).
    cbn [mbind Out_bind]. rewrite IH; try done. f_equal. rewrite <- app_assoc. f_equal.
    assert (1 ≤ data_count (init ++ [fin])) as H1.
    { rewrite data_count_app. assert (0 ≤ data_count init) as ?.
      { apply Forall_app in Hok as [Hok _]. clear -Hok.
        induction Hok as [|h l (_ & ? & _) Hl IHl]; cbn; [lia|]. unfold data_count in IHl. lia. }
      apply Forall_app in Hok as [_ Hok]. apply Forall_cons in Hok as [(_ & ? & _) _]. cbn. lia. }
    assert (concat segs = concat (take (Z.to_nat (dLen g)) segs) ++
      concat (drop (Z.to_nat (dLen g)) segs)) as -> by (by rewrite <- concat_app, take_drop).
    pose proof (length_concat_sized _ size Sd) as LC. rewrite Ld in LC.
    assert (zlen segs = dLen g + zlen (drop (Z.to_nat (dLen g)) segs)) as LS.
    { unfold zlen in *. rewrite length_drop. lia. }
    rewrite LS in *. set (rest := drop _ segs) in *. set (data := take _ segs) in *.
    assert (length (concat data) = Z.to_nat (dLen g * size)) as LL by (unfold zlen in LC; lia).
    rewrite take_app, LL. f_equal.
    + rewrite !take_ge; [done|rewrite LL; nia|rewrite LL, Ld; nia].
    + f_equal. nia.
Qed.
End JoinPayload.

Lemma segments_spec_init payloadLen size parity :
  0 < size → 0 ≤ parity ≤ 255 → 0 ≤ payloadLen →
  ((payloadLen / size + 1) `mod` (256 - parity) ≠ 0 ∨ payloadLen / size + 1 = 256 - parity) →
  ∃ init fin, segments_spec payloadLen size parity = init ++ [fin] ∧
    Forall (λ g, Last g = SLen g) init ∧ Last fin = payloadLen `mod` size.
Proof.
  intros Hs Hp Hl Hx.
  destruct (sections_bounds payloadLen size parity Hs Hp Hl) as (Hq & Hr & E).
  pose proof (n_segs_pos payloadLen size Hs Hl) as Hn.
  assert (last_section payloadLen size parity = (payloadLen / size + 1) `mod` (256 - parity)) as EL by done.
  assert (n_segs payloadLen size = payloadLen / size + 1) as EN by done.
  assert (data_per_section parity = 256 - parity) as ED by done.
  unfold segments_spec. set (NS := n_sections payloadLen size parity) in *.
  destruct (decide (0 < last_section payloadLen size parity)) as [H0|H0].
  - eexists _, _. split; [done|]. split; [|done]. unfold full_last.
    rewrite decide_False by lia. generalize 0 at 1. generalize (Z.to_nat NS).
    intros n; induction n as [|n IH]; intros st; cbn; by constructor.
  - rewrite app_nil_r. assert (NS = 1) as E1.
    { destruct Hx as [Hx|Hx]; [lia|]. rewrite EN, Hx, ED in E. nia. }
    rewrite E1. exists [], (MkSegment 0 (data_per_section parity) 256 size
      (full_last payloadLen size parity)). split; [done|]. split; [done|].
    cbn. unfold full_last. fold NS. rewrite decide_True by lia. done.
Qed.

(** The data segments of a message join to the message. *)
Lemma joined_payload payload size parity segs :
  0 < size → 0 ≤ parity ≤ 255 → zlen payload `mod` size ≠ 0 →
  ((zlen payload / size + 1) `mod` (256 - parity) ≠ 0 ∨ zlen payload / size + 1 = 256 - parity) →
  segments_of payload size segs →
  zlen segs = zlen payload / size + 1 ∧
  joined (segments_spec (zlen payload) size parity) segs [] = Ret payload.
Proof.
  intros Hs Hp Hm Hx (Hsz & pad & EC & Hpad). pose proof (zlen_nonneg payload) as H0.
  pose proof (zlen_nonneg pad) as H1. pose proof (length_concat_sized segs size Hsz) as LC.
  rewrite EC, zlen_app in LC.
  pose proof (Z.div_mod (zlen payload) size ltac:(lia)) as Em.
  pose proof (Z.mod_pos_bound (zlen payload) size Hs).
  assert (zlen segs = zlen payload / size + 1) as Ln by nia. split; [done|].
  destruct (segments_spec_init (zlen payload) size parity) as (init & fin & ES & HL & EF); try done.
  destruct (segments_spec_layout (zlen payload) size parity Hs Hp H0) as (_ & _ & DC & Hok).
  rewrite ES in *. erewrite (joined_run size Hs parity); try done; [|lia|lia].
  f_equal. cbn [app]. rewrite EC, EF, Ln.
  replace (Z.to_nat _) with (length payload) by (unfold zlen in *; nia).
  apply take_app_length.
Qed.

(** ** The whole of [JoinPackets] *)

Lemma Sorted_seqZ m n : Sorted Z.le (seqZ m n).
Proof.
  unfold seqZ. generalize (Z.to_nat n). clear n. intros n. revert m.
  induction n as [|n IH]; intros m; [constructor|].
  cbn [seq fmap list_fmap]. rewrite <- fmap_S_seq, <- list_fmap_compose.
  assert ((((λ i, Z.add (Z.of_nat i) m) ∘ S) <$> seq 0 n) = ((λ i, Z.of_nat i + (m + 1)) <$> seq 0 n))
    as -> by (apply list_fmap_ext; intros; unfold compose; lia).
  constructor; [apply IH|]. destruct n; cbn; constructor. lia.
Qed.

Section JoinWhole.
Context {cr : Crypto} `{ReedSolomon} (par : Z → Z → list bytes → list bytes).

Lemma check_common_ok packets rest i lp red len prevSeq :
  NoDup (prevSeq :: (Seq <$> rest)) →
  Forall (λ p, pk_Parity p = red ∧ pk_Length p = len) rest →
  check_common packets rest i lp red len prevSeq [] = Ret (inl []).
Proof.
  revert i prevSeq; induction rest as [|ps rest IH]; intros i prevSeq ND HF; [done|].
  apply Forall_cons in HF as [[Hp Hl] HF]. cbn [fmap list_fmap] in ND.
  apply NoDup_cons in ND as [Hne ND]. cbn [check_common].
  rewrite (bool_decide_false (Seq ps = prevSeq)) by (intros E; apply Hne; rewrite E; by left).
  rewrite !bool_decide_false by (intros N; by apply N). by apply IH.
Qed.

Lemma collate_run packets pkts :
  NoDup (Seq <$> packets) → Forall (λ p, 0 ≤ Seq p < zlen pkts) packets →
  ∃ pkts', collate packets pkts = Ret pkts' ∧ length pkts' = length pkts ∧
    (∀ p, p ∈ packets → pkts' !! Z.to_nat (Seq p) = Some (Some p)) ∧
    (∀ k, (∀ p, p ∈ packets → Z.to_nat (Seq p) ≠ k) → pkts' !! k = pkts !! k).
Proof.
  revert pkts; induction packets as [|p packets IH]; intros pkts ND HF.
  { exists pkts. split_and!; try done. intros p Hp. by apply not_elem_of_nil in Hp. }
  cbn [fmap list_fmap] in ND. apply NoDup_cons in ND as [Hne ND].
  apply Forall_cons in HF as [Hr HF].
  cbn [collate]. unfold goset at 1. rewrite bool_decide_true by done. cbn [mbind Out_bind].
  destruct (IH (<[Z.to_nat (Seq p):=Some p]> pkts)) as (pkts' & E & L & H1 & H2); [done| |].
  { eapply Forall_impl; [exact HF|]. intros q. unfold zlen. by rewrite length_insert. }
  exists pkts'. rewrite length_insert in L. split; [done|]. split; [done|].
  assert (∀ q, q ∈ packets → Z.to_nat (Seq q) ≠ Z.to_nat (Seq p)) as Hd.
  { intros q Hq E'. apply Hne. apply list_elem_of_fmap. exists q. split; [|done].
    rewrite Forall_forall in HF. specialize (HF q Hq). lia. }
  split.
  - intros q [->|Hq]%elem_of_cons; [|by apply H1].
    rewrite H2 by done. apply list_lookup_insert_eq. unfold zlen in *. lia.
  - intros k Hk. rewrite H2.
    + apply list_lookup_insert_ne. apply Hk. by left.
    + intros q Hq. apply Hk. by right.
Qed.

(** Sorted by distinct sequence numbers below their count, the packets stand at
    their sequence number. *)
Lemma seqs_complete (packets : list Packet) :
  NoDup (Seq <$> packets) → Sorted Less packets →
  Forall (λ p, 0 ≤ Seq p < zlen packets) packets →
  ∀ k p, packets !! k = Some p → Seq p = Z.of_nat k.
Proof.
  intros ND HS HF.
  assert (Seq <$> packets ≡ₚ seqZ 0 (zlen packets)) as HP.
  { apply submseteq_length_Permutation.
    - apply NoDup_submseteq; [done|]. intros x (p & -> & Hp)%list_elem_of_fmap.
      rewrite Forall_forall in HF. apply elem_of_seqZ. specialize (HF p Hp). lia.
    - rewrite length_fmap, length_seqZ. unfold zlen. lia. }
  assert (Seq <$> packets = seqZ 0 (zlen packets)) as E.
  { apply (Sorted_unique Z.le); [|apply Sorted_seqZ|done].
    clear -HS. induction HS as [|p ps HS IH Hh]; [constructor|].
    cbn [fmap list_fmap]. constructor; [done|]. destruct Hh; by constructor. }
  intros k p Hk. assert ((Seq <$> packets) !! k = Some (Seq p)) as Hk'.
  { by rewrite list_lookup_fmap, Hk. }
  rewrite E in Hk'. apply lookup_seqZ in Hk'. lia.
Qed.

Lemma chain_last from s to :
  chain from s to → s ≠ [] → ∃ g, goindex s (zlen s - 1) = Ret g ∧ PEnd g = to.
Proof.
  intros Hch Hne. destruct s as [|g s] using rev_ind; [done|]. clear IHs. exists g. split.
  - apply goindex_some; [unfold zlen; rewrite length_app; cbn; lia|].
    rewrite lookup_app_r; [|unfold zlen; rewrite length_app; cbn; lia].
    replace (_ - _)%nat with O; [done|]. unfold zlen. rewrite length_app. cbn. lia.
  - clear Hne. revert from Hch. induction s as [|h s IH]; intros from [? ?]; [done|].
    by eapply IH.
Qed.

Lemma length_filter_disjoint (P Q R : Packet → Prop) `{!∀ p, Decision (P p)}
    `{!∀ p, Decision (Q p)} `{!∀ p, Decision (R p)} l :
  (∀ p, P p → R p) → (∀ p, Q p → R p) → (∀ p, P p → ¬ Q p) →
  zlen (filter P l) + zlen (filter Q l) ≤ zlen (filter R l).
Proof.
  intros HPR HQR HPQ. induction l as [|p l IH]; [done|]. unfold zlen in *.
  rewrite !filter_cons. specialize (HPR p). specialize (HQR p). specialize (HPQ p).
  repeat case_decide; cbn [length]; try tauto; lia.
Qed.

#[local] Abbreviation inside lo hi := (filter (λ p : Packet, lo ≤ Seq p < hi)).

Lemma all_there s from to (got : list Packet) parity size :
  chain from s to → Forall (seg_ok parity size) s → parity = 0 →
  (∀ g, g ∈ s → dLen g ≤ zlen (inside (DStart g) (PEnd g) got)) →
  from ≤ to ∧ to - from ≤ zlen (inside from to got).
Proof.
  intros Hch Hok Hp Hg. revert from Hch; induction Hok as [|g s Hgo Hok IH]; intros from Hch.
  { cbn in Hch. subst. unfold zlen. lia. }
  destruct Hch as [<- Hch]. destruct (IH (λ h Hh, Hg h (list_elem_of_further _ _ _ Hh)) _ Hch) as [Hle HI].
  destruct Hgo as (_ & D & _ & P0 & _). specialize (P0 Hp).
  assert (dLen g ≤ zlen (inside (DStart g) (PEnd g) got)) as H1 by (apply Hg; by left).
  unfold dLen, pLen in *. split; [lia|].
  pose proof (length_filter_disjoint (λ p, DStart g ≤ Seq p < PEnd g)
    (λ p, PEnd g ≤ Seq p < to) (λ p, DStart g ≤ Seq p < to) got) as H2.
  cbn beta in H2. specialize (H2 ltac:(lia) ltac:(lia) ltac:(lia)). lia.
Qed.

Lemma covers_collated (packets : list Packet) pkts n (shards : list bytes) :
  (∀ p, p ∈ packets → pkts !! Z.to_nat (Seq p) = Some (Some p)) →
  (∀ k, (∀ p, p ∈ packets → Z.to_nat (Seq p) ≠ k) → pkts !! k = replicate n None !! k) →
  length shards = n →
  (∀ p, p ∈ packets → shards !! Z.to_nat (Seq p) = Some (pk_Data p)) →
  covers pkts 0 shards.
Proof.
  intros H1 H2 Hn Hs k d Hk. cbn [Nat.add Z.to_nat].
  destruct (decide (Exists (λ p, Z.to_nat (Seq p) = k) packets)) as [He|He].
  - apply Exists_exists in He as (p & Hp & <-). exists (Some p). split; [by apply H1|].
    cbn. rewrite (Hs p Hp) in Hk. by injection Hk.
  - exists None. split; [|done]. rewrite H2.
    + apply lookup_replicate. split; [done|]. rewrite <- Hn. by eapply lookup_lt_Some.
    + intros p Hp E. apply He, Exists_exists. by exists p.
Qed.

(** The packets that arrived of a message cut into [segs]. *)
Definition arrived (s : list Segment) (segs : list bytes) (len parity : Z)
    (got : list Packet) : Prop :=
  got ≠ [] ∧ NoDup (Seq <$> got) ∧
  (∀ p, p ∈ got → 0 ≤ Seq p ∧ shards_of par s segs !! Z.to_nat (Seq p) = Some (pk_Data p) ∧
     pk_Length p = len ∧ pk_Parity p = parity) ∧
  (∀ g, g ∈ s → dLen g ≤ zlen (inside (DStart g) (PEnd g) got)).

Lemma arrived_perm s segs len parity got got' :
  got ≡ₚ got' → arrived s segs len parity got → arrived s segs len parity got'.
Proof.
  intros E (Hne & ND & Hd & He). split; [|split; [|split]].
  - intros ->. by apply Hne, Permutation_nil.
  - by rewrite <- E.
  - intros p. rewrite <- E. apply Hd.
  - intros g Hg. specialize (He g Hg). unfold zlen in *. by rewrite <- E.
Qed.

Context (s : list Segment) (segs : list bytes) (len parity size to : Z).
Context (Hsize : 0 < size) (Hpar : 0 ≤ parity) (Hsz : Forall (λ v, zlen v = size) segs).
Context (Hok : Forall (seg_ok parity size) s) (HC : coders par s) (Hn : zlen segs = data_count s).
Context (Hch : chain 0 s to) (Hne : s ≠ []).

Lemma arrived_range got :
  arrived s segs len parity got → Forall (λ p, 0 ≤ Seq p < to) got ∧ zlen got ≤ to.
Proof using Hsize Hpar Hsz Hok HC Hn Hch.
  intros (_ & ND & Hd & _).
  destruct (shards_sized par parity size Hsize Hpar s segs 0 to) as [Ls _]; try done.
  assert (Forall (λ p, 0 ≤ Seq p < to) got) as HF.
  { apply Forall_forall. intros p Hp. destruct (Hd p Hp) as (? & Hs & _).
    apply lookup_lt_Some in Hs. unfold zlen in Ls. lia. }
  split; [done|].
  assert (length (Seq <$> got) ≤ length (seqZ 0 to))%nat as Hle.
  { apply submseteq_length, NoDup_submseteq; [done|].
    intros x (p & -> & Hp)%list_elem_of_fmap. rewrite Forall_forall in HF.
    specialize (HF p Hp). apply elem_of_seqZ. lia. }
  rewrite length_fmap, length_seqZ in Hle.
  destruct (decide (0 ≤ to)); [unfold zlen; lia|].
  destruct got as [|p got]; [|apply Forall_cons in HF as [? _]; lia].
  pose proof (zlen_nonneg (shards_of par s segs)). lia.
Qed.

Lemma arrived_enough got pkts :
  arrived s segs len parity got →
  (∀ p, p ∈ got → pkts !! Z.to_nat (Seq p) = Some (Some p)) → enough pkts s.
Proof using Type.
  intros (_ & ND & _ & He) Hp. apply Forall_forall. intros g Hg.
  exists (Seq <$> inside (DStart g) (PEnd g) got). split; [|split].
  - eapply sublist_NoDup; [exact ND|]. by apply fmap_sublist, sublist_filter.
  - unfold zlen. rewrite length_fmap. by apply He.
  - intros x (p & -> & [Hx Hin]%list_elem_of_filter)%list_elem_of_fmap. split; [done|].
    exists p. by apply Hp.
Qed.

Lemma join_complete got msg :
  arrived s segs len parity got → Sorted Less got → zlen got = to →
  join_all (Some <$> got) s msg = joined s segs msg.
Proof using Hsize Hpar Hsz Hok HC Hn Hch.
  intros HA HS Hl. destruct (arrived_range got HA) as [HF _].
  destruct HA as (_ & ND & Hd & _).
  assert (∀ k p, got !! k = Some p → Seq p = Z.of_nat k) as HK.
  { apply seqs_complete; try done. by rewrite Hl. }
  apply (join_all_run par parity size Hsize Hpar _ s segs 0 to); try done.
  - intros k d Hk. rewrite Nat.add_0_l.
    destruct (got !! k) as [p|] eqn:Ep.
    + exists (Some p). rewrite list_lookup_fmap, Ep. split; [done|]. cbn.
      destruct (Hd p) as (_ & Hs & _); [by eapply list_elem_of_lookup_2|].
      rewrite (HK _ _ Ep), Nat2Z.id, Hk in Hs. by injection Hs.
    + exfalso. apply lookup_ge_None in Ep. apply lookup_lt_Some in Hk.
      destruct (shards_sized par parity size Hsize Hpar s segs 0 to) as [Ls _]; try done.
      unfold zlen in *. lia.
  - intros x Hx. destruct (lookup_lt_is_Some_2 got (Z.to_nat x)) as [p Ep].
    { unfold zlen in Hl. lia. }
    exists p. by rewrite list_lookup_fmap, Ep.
Qed.

Lemma JoinPackets_arrived ps :
  arrived s segs len parity (omap id ps) →
  NewSegments len (size + Packet_GetOverhead) Packet_GetOverhead parity = Ret s →
  ∃ pkts, JoinPackets ps = (msg ← joined s segs []; Ret (pkts, msg, None)).
Proof using Hsize Hpar Hsz Hok HC Hn Hch Hne.
  intros HA HN. set (packets := merge_sort Less (omap id ps)).
  apply (arrived_perm _ _ _ _ _ packets) in HA; [|symmetry; apply merge_sort_Permutation].
  assert (Sorted Less packets) as HS.
  { apply Sorted_merge_sort. intros p q. unfold Less. lia. }
  destruct (shards_sized par parity size Hsize Hpar s segs 0 to) as [Ls Ss]; try done.
  destruct (arrived_range packets HA) as [HF Hle].
  pose proof HA as (Hnil & ND & Hd & He). unfold JoinPackets. fold packets.
  rewrite bool_decide_false; cycle 1.
  { intros E. apply Hnil. unfold packets. destruct ps; [done|unfold zlen in E; cbn in E; lia]. }
  destruct packets as [|p0 rest] eqn:EP; [done|]. rewrite <- EP in *.
  assert (goindex packets 0 = Ret p0) as -> by (apply goindex_some; [done|by rewrite EP]).
  cbn [mbind Out_bind].
  destruct (Hd p0) as (_ & Hs0 & Hl0 & Hp0); [rewrite EP; by left|].
  assert (zlen (pk_Data p0) = size) as ->.
  { rewrite Forall_forall in Ss. apply Ss. by eapply list_elem_of_lookup_2. }
  rewrite Hl0, Hp0, HN. cbn [mbind Out_bind].
  destruct (chain_last 0 s to Hch Hne) as (g & -> & Eg). cbn [mbind Out_bind]. rewrite Eg.
  rewrite check_common_ok; cycle 1.
  { rewrite EP in ND. by rewrite EP. }
  { apply Forall_forall. intros p Hp. rewrite EP in Hp. cbn in Hp.
    destruct (Hd p) as (_ & _ & ? & ?); [rewrite EP; by right|done]. }
  cbn [mbind Out_bind remove_all]. rewrite bool_decide_false; cycle 1.
  { intros [Hz Hlt]. destruct (all_there s 0 to packets parity size) as [_ Hall]; try done.
    assert (zlen (inside 0 to packets) ≤ zlen packets).
    { apply inj_le, sublist_length, sublist_filter. }
    unfold zlen in *. cbn [length] in *. lia. }
  change (zlen packets - zlen []) with (zlen packets - 0). rewrite Z.sub_0_r.
  case_bool_decide as Hfull.
  - exists []. by rewrite (join_complete packets []).
  - destruct (collate_run packets (replicate (Z.to_nat to) None)) as (pkts & -> & Lp & H1 & H2).
    { done. }
    { eapply Forall_impl; [exact HF|]. intros p. unfold zlen. rewrite length_replicate. lia. }
    cbn [mbind Out_bind]. exists pkts.
    rewrite (join_lossy_run par parity size Hsize Hpar pkts s segs 0 to); try done.
    + by destruct (joined s segs []).
    + eapply (covers_collated packets _ (Z.to_nat to)); try done; [unfold zlen in Ls; lia|].
      intros p Hp. by destruct (Hd p Hp) as (_ & ? & _).
    + by apply (arrived_enough packets).
Qed.
End JoinWhole.

(** ** The whole of [SplitToPackets] *)

Section SplitWhole.
Context {cr : Crypto} {crl : CryptoLaws} `{ReedSolomon}.

(** A packet of the sequence carries one shard. *)
Definition carries (id : ID) (to : Pub) (parity len seq : Z) (w d : bytes) : Prop :=
  ∃ nonc bl from, w = packet_image nonc bl from to
    (MkPacketParams id (Some to) (Some from) parity seq len d).

Lemma encode_shards_run rnd i p pp ks packets to :
  pp_To pp = Some to →
  ∃ wires pp' ks', encode_shards rnd i p pp ks packets = Ret (packets ++ wires, pp', ks') ∧
    length wires = length p ∧
    ∀ k d, p !! k = Some d → ∃ w, wires !! k = Some w ∧
      carries (pp_ID pp) to (pp_Parity pp) (pp_Length pp) (i + Z.of_nat k) w d.
Proof.
  revert i pp ks packets; induction p as [|d p IH]; intros i pp ks packets Hto.
  { exists [], pp, ks. cbn. by rewrite app_nil_r. }
  cbn [encode_shards]. destruct (Next ks) as [from ks1].
  erewrite EncodePacket_image by done. cbn [mbind Out_bind].
  match goal with |- context [encode_shards rnd _ p ?q ks1 (packets ++ [?w])] =>
    destruct (IH (i + 1) q ks1 (packets ++ [w])) as (wires & pp' & ks' & -> & L & Hw); [done|];
    exists (w :: wires), pp', ks' end.
  rewrite <- app_assoc. split; [done|]. split; [cbn; lia|].
  intros [|k] d' Hk; cbn in Hk |- *.
  - injection Hk as <-. eexists. split; [done|]. rewrite Z.add_0_r, Hto. by eexists _, _, _.
  - destruct (Hw k d' Hk) as (w & Ew & Hc). exists w. split; [done|].
    by replace (i + Z.of_nat (S k)) with (i + 1 + Z.of_nat k) by lia.
Qed.

(** The packet a receiver decodes from one that carries a shard. *)
Lemma carries_decodes now id prv parity len seq w d iv :
  carries id (PubKey prv) parity len seq w d →
  0 ≤ parity < 2 ^ 8 → 0 ≤ len < 2 ^ 32 → 0 ≤ seq < 2 ^ 16 →
  ∃ pub cloak w', GetKeysFromPacket w = Ret (Some pub, cloak, arr_zero 16, None) ∧
    DecodePacket now w (Some pub) (Some prv) iv
    = Ret ((Some (MkPacket id seq len parity d now), None), w').
Proof.
  intros (nonc & bl & from & ->) Hp Hl Hs. rewrite GetKeysFromPacket_image.
  destruct (DecodePacket_image now nonc bl from prv
    (MkPacketParams id (Some (PubKey prv)) (Some from) parity seq len d) iv) as (w' & E).
  cbn [pp_ID pp_Seq pp_Length pp_Parity pp_Data] in E. rewrite !wrapu_small in E by done.
  eexists _, _, w'. split; [done|exact E].
Qed.

Context (par : Z → Z → list bytes → list bytes).

Lemma SplitToPackets_run seed rnd pp segSize ks to :
  let payload := pp_Data pp in
  let size := segSize - PacketParams_GetOverhead in
  let parity := pp_Parity pp in
  let s := segments_spec (zlen payload) size parity in
  pp_To pp = Some to → 0 < size → 0 ≤ parity ≤ 255 → zlen payload `mod` size ≠ 0 →
  coders par s →
  ∃ segs wires shards pp' ks', segments_of payload size segs ∧
    zlen segs = zlen payload / size + 1 ∧
    SplitToPackets seed rnd pp segSize ks = Some (Ret ((shards, wires, None), pp', ks')) ∧
    length wires = length (shards_of par s segs) ∧
    ∀ k d, shards_of par s segs !! k = Some d → ∃ w, wires !! k = Some w ∧
      carries (pp_ID pp) to parity (zlen payload) (Z.of_nat k) w d.
Proof.
  intros payload size parity s Hto Hs Hp Hm HC.
  assert (zlen payload ≠ 0) as Hne by (intros E; rewrite E, Z.mod_0_l in Hm; lia).
  pose proof (zlen_nonneg payload) as H0.
  destruct (Segment_loop_ok seed payload size (length payload) 0 []) as (segs & ES & Hseg);
    [done|done|unfold zlen; lia|].
  change (drop (Z.to_nat 0) payload) with payload in Hseg.
  assert (zlen segs = zlen payload / size + 1) as Ln.
  { destruct Hseg as (Hsz & pad & EC & Hpad).
    pose proof (length_concat_sized segs size Hsz) as LC. rewrite EC, zlen_app in LC.
    pose proof (Z.div_mod (zlen payload) size ltac:(lia)).
    pose proof (Z.mod_pos_bound (zlen payload) size Hs). pose proof (zlen_nonneg pad). nia. }
  destruct (segments_spec_layout (zlen payload) size parity Hs Hp H0) as (Hnil & Hch & DC & Hok).
  fold s in Hnil, Hch, DC, Hok. destruct (chain_last _ _ _ Hch Hnil) as (g & Eg & _).
  destruct (encode_shards_run rnd 0 (shards_of par s segs)
    (MkPacketParams (pp_ID pp) (pp_To pp) (pp_From pp) (pp_Parity pp) (pp_Seq pp)
       (zlen (pp_Data pp)) (pp_Data pp)) ks [] to Hto) as (wires & pp' & ks' & EE & L & Hw).
  exists segs, wires, (DEnd g), pp', ks'. split; [done|]. split; [done|]. split; [|split; [done|exact Hw]].
  unfold SplitToPackets. rewrite bool_decide_false by done. cbn [pp_Data pp_Length pp_Parity].
  fold payload size parity. unfold Slice.Segment. rewrite ES. f_equal. cbn [mbind Out_bind].
  replace segSize with (size + PacketParams_GetOverhead) by (unfold size; lia).
  rewrite NewSegments_run by done. fold s. cbn [mbind Out_bind]. rewrite Eg. cbn [mbind Out_bind app].
  destruct Hseg as (Hsz & _).
  rewrite (AddParity_run par parity size) by (try done; lia).
  cbn [mbind Out_bind]. fold payload parity in EE. cbn [app] in EE. rewrite EE. cbn [mbind Out_bind].
  by destruct (shards_of par s segs).
Qed.

Lemma SplitToPackets_exact seed rnd pp segSize ks :
  let payload := pp_Data pp in
  let size := segSize - PacketParams_GetOverhead in
  0 < size → 0 ≤ pp_Parity pp ≤ 255 → payload ≠ [] → zlen payload `mod` size = 0 →
  coders par (segments_spec (zlen payload) size (pp_Parity pp)) →
  SplitToPackets seed rnd pp segSize ks = Some (Panic PSlice).
Proof.
  intros payload size Hs Hp Hne Hm HC. pose proof (zlen_nonneg payload) as H0.
  destruct (Segment_loop_ok seed payload size (length payload) 0 []) as (segs & ES & Hseg);
    [done|done|unfold zlen; lia|].
  change (drop (Z.to_nat 0) payload) with payload in Hseg.
  destruct Hseg as (Hsz & pad & EC & Hpad).
  pose proof (length_concat_sized segs size Hsz) as LC. rewrite EC, zlen_app in LC.
  pose proof (Z.div_mod (zlen payload) size ltac:(lia)) as Em. pose proof (zlen_nonneg pad).
  destruct (segments_spec_layout (zlen payload) size (pp_Parity pp) Hs Hp H0)
    as (Hnil & Hch & DC & Hok).
  destruct (chain_last _ _ _ Hch Hnil) as (g & Eg & _).
  unfold SplitToPackets. rewrite bool_decide_false; cycle 1.
  { fold payload. destruct payload; [done|unfold zlen; cbn; lia]. }
  cbn [pp_Data pp_Length pp_Parity].
  fold payload size. unfold Slice.Segment. rewrite ES. f_equal. cbn [mbind Out_bind].
  replace segSize with (size + PacketParams_GetOverhead) by (unfold size; lia).
  rewrite NewSegments_run by done. cbn [mbind Out_bind]. rewrite Eg. cbn [mbind Out_bind app].
  rewrite (AddParity_short par (pp_Parity pp) size); try done; [lia|]. rewrite DC. nia.
Qed.
End SplitWhole.

(** A coder for one data vector: its parity are copies of it. *)
Module ToyRS.
#[export] Instance coder : ReedSolomon := {|
  rs_New := λ d p, None;
  rs_Encode := λ d p v,
    (take (Z.to_nat d) v ++ replicate (Z.to_nat p) (default [] (v !! O)), None);
  rs_Reconst := λ d p v have lost,
    (default [] ((have !! O) ≫= λ i, v !! Z.to_nat i) :: drop 1 v, None);
|}.

Definition par (d p : Z) (data : list bytes) : list bytes :=
  replicate (Z.to_nat p) (default [] (data !! O)).

Lemma single {A} (l : list A) : zlen l = 1 → ∃ v, l = [v].
Proof. destruct l as [|v [|]]; unfold zlen; cbn; intros; [lia|by exists v|lia]. Qed.

Lemma law p : 0 ≤ p → RSLaw 1 p (par 1 p).
Proof.
  intros Hp. constructor; [done|..].
  - intros data n Hl Hd Hn. unfold par. split.
    + unfold zlen. rewrite length_replicate. lia.
    + apply Forall_replicate. destruct (single _ Hl) as [v ->]. by apply Forall_cons in Hd as [? _].
  - intros data q n Hl _ _ _. by destruct (single _ Hl) as [v ->].
  - intros data vects have lost n Hl. destruct (single _ Hl) as [v ->]. intros Hd Hn Hv Hs ND Hh Hin Hlost.
    destruct have as [|i have]; [unfold zlen in Hh; cbn in Hh; lia|]. destruct (Hin i) as [Hi Ei]; [by left|].
    eexists. split; [done|]. cbn.
    assert (([v] ++ par 1 p [v]) !! Z.to_nat i = Some v) as E.
    { unfold par. destruct (Z.to_nat i) as [|k] eqn:Ek; [done|]. cbn.
      apply lookup_replicate. split; [done|]. lia. }
    cbn in E, Ei. by rewrite Ei, E.
Qed.
End ToyRS.

(** ** Properties *)

Section Properties.
Context {cr : Crypto} {crl : CryptoLaws} `{ReedSolomon}.
Context (par : Z → Z → list bytes → list bytes).

(** C7: a split message survives loss, reordering and transport: a message of
    less than 2^32 bytes that is no multiple of the payload space of a packet
    and does not fill two or more sections exactly is split into packets that the
    receiver's keys decode, and from any of those packets, in any order, each at
    most once, [JoinPackets] returns the message as soon as every section has as
    many packets as it has data segments; without parity that is all of them,
    with parity any so many per section. *)
Theorem split_join seed rnd pp segSize ks prv now iv :
  let payload := pp_Data pp in
  let size := segSize - PacketParams_GetOverhead in
  let parity := pp_Parity pp in
  let n := zlen payload / size + 1 in
  pp_To pp = Some (PubKey prv) → 0 < size → 0 ≤ parity ≤ 255 →
  zlen payload < 2 ^ 32 → zlen payload `mod` size ≠ 0 →
  n `mod` (256 - parity) ≠ 0 ∨ n = 256 - parity →
  coders par (segments_spec (zlen payload) size parity) →
  Forall (λ g, PEnd g ≤ 2 ^ 16) (segments_spec (zlen payload) size parity) →
  ∃ s shards wires pp' ks' pkts,
    NewSegments (zlen payload) segSize PacketParams_GetOverhead parity = Ret s ∧
    SplitToPackets seed rnd pp segSize ks = Some (Ret ((shards, wires, None), pp', ks')) ∧
    Forall2 (λ w p, ∃ pub cloak w',
      GetKeysFromPacket w = Ret (Some pub, cloak, arr_zero 16, None) ∧
      DecodePacket now w (Some pub) (Some prv) iv = Ret ((Some p, None), w')) wires pkts ∧
    ∀ got : list (option Packet),
      (∀ p, p ∈ omap id got → p ∈ pkts) → NoDup (Seq <$> omap id got) →
      (∀ g, g ∈ s → dLen g ≤ zlen (filter (λ p, DStart g ≤ Seq p < PEnd g) (omap id got))) →
      ∃ r, JoinPackets got = Ret (r, payload, None).
Proof.
  intros payload size parity n Hto Hs Hp Hlen Hm Hx HC Hend. pose proof (zlen_nonneg payload) as H0.
  set (s := segments_spec (zlen payload) size parity) in *.
  destruct (SplitToPackets_run par seed rnd pp segSize ks _ Hto Hs Hp Hm HC)
    as (segs & wires & shards & pp' & ks' & Hseg & Ln & ES & Lw & Hw).
  destruct (joined_payload payload size parity segs) as (_ & EJ); try done.
  destruct (segments_spec_layout (zlen payload) size parity Hs Hp H0) as (Hnil & Hch & DC & Hok).
  fold s in Hnil, Hch, DC, Hok, EJ. fold payload size parity in Ln, ES, Lw, Hw. fold s in Lw, Hw.
  set (to := 256 * _ + _) in Hch.
  destruct (shards_sized par parity size Hs ltac:(lia) s segs 0 to) as [Ls Ss]; try done.
  { apply Hseg. } { by rewrite Ln, DC. }
  assert (to ≤ 2 ^ 16) as Hto16.
  { destruct (chain_last 0 s to Hch Hnil) as (g & Eg & <-). rewrite Forall_forall in Hend.
    apply Hend. unfold goindex in Eg. case_bool_decide; [|done].
    destruct (s !! _) eqn:El; [|done]. injection Eg as ->. by eapply list_elem_of_lookup_2. }
  set (pkts := imap (λ k d, MkPacket (pp_ID pp) (Z.of_nat k) (zlen payload) parity d now)
                 (shards_of par s segs)).
  exists s, shards, wires, pp', ks', pkts. split; [|split; [done|split]].
  - replace segSize with (size + PacketParams_GetOverhead) by (unfold size; lia).
    by apply NewSegments_run.
  - apply Forall2_same_length_lookup_2; [by unfold pkts; rewrite length_imap|].
    intros k w p Ew Ep. unfold pkts in Ep. rewrite list_lookup_imap in Ep.
    destruct (shards_of par s segs !! k) as [d|] eqn:Ed; [|done]. injection Ep as <-.
    destruct (Hw k d Ed) as (w1 & Ew1 & Hc). rewrite Ew in Ew1. injection Ew1 as <-.
    eapply carries_decodes; [done|lia|lia|]. apply lookup_lt_Some in Ed. unfold zlen in Ls. lia.
  - intros got Hin ND He.
    assert (∀ p, p ∈ omap id got → 0 ≤ Seq p ∧
      shards_of par s segs !! Z.to_nat (Seq p) = Some (pk_Data p) ∧
      pk_Length p = zlen payload ∧ pk_Parity p = parity) as Hd.
    { intros p Hp'%Hin. unfold pkts in Hp'. apply elem_of_lookup_imap in Hp' as (k & d & -> & Ed).
      cbn. rewrite Nat2Z.id. split; [lia|]. done. }
    assert (omap id got ≠ []) as Hne.
    { intros E. rewrite E in He. destruct s as [|g s'] eqn:Es; [done|].
      specialize (He g ltac:(by left)). apply Forall_cons in Hok as [(_ & ? & _) _].
      unfold zlen in He. cbn in He. lia. }
    destruct (JoinPackets_arrived par s segs (zlen payload) parity size to Hs) with (ps := got)
      as (r & ->); try done; [lia|apply Hseg|by rewrite Ln, DC|by apply NewSegments_run|].
    rewrite EJ. by exists r.
Qed.

(** A message whose length is a positive multiple of the payload space of a
    packet cannot be sent: the segment map counts one data segment more than
    there is, and adding parity slices out of range and panics. *)
Theorem SplitToPackets_exact_panics seed rnd pp segSize ks :
  let size := segSize - PacketParams_GetOverhead in
  0 < size → 0 ≤ pp_Parity pp ≤ 255 → pp_Data pp ≠ [] → zlen (pp_Data pp) `mod` size = 0 →
  coders par (segments_spec (zlen (pp_Data pp)) size (pp_Parity pp)) →
  SplitToPackets seed rnd pp segSize ks = Some (Panic PSlice).
Proof. apply SplitToPackets_exact. Qed.

(** The duplicate removal assumes at most two copies: three copies of the
    first packet, which the network may well deliver, make [JoinPackets] remove
    index -1 and panic, for any positive parity and any message. *)
Theorem JoinPackets_triplicate_panics p :
  Seq p = 0 → 0 < zlen (pk_Data p) → 0 < pk_Parity p ≤ 255 → 0 ≤ pk_Length p →
  JoinPackets [Some p; Some p; Some p] = Panic PSlice.
Proof.
  intros Hs Hd Hp Hl. unfold JoinPackets. rewrite bool_decide_false by done.
  change (omap id [Some p; Some p; Some p]) with [p; p; p].
  assert (merge_sort Less [p; p; p] = [p; p; p]) as ->.
  { symmetry. apply (replicate_Permutation 3 p). symmetry. apply merge_sort_Permutation. }
  cbv zeta. rewrite (goindex_some [p; p; p] 0 p) by done. cbn [mbind Out_bind].
  rewrite NewSegments_run by lia. cbn [mbind Out_bind].
  destruct (segments_spec_layout (pk_Length p) (zlen (pk_Data p)) (pk_Parity p))
    as (Hnil & Hch & _ & _); [lia|lia|lia|].
  destruct (chain_last _ _ _ Hch Hnil) as (g & -> & _). cbn [mbind Out_bind drop check_common].
  rewrite bool_decide_true by done. rewrite (bool_decide_false (pk_Parity p = 0)) by lia.
  rewrite Hs. rewrite (goindex_some [p; p; p] 0 p) by done. cbn [mbind Out_bind].
  rewrite bool_decide_true by done.
  cbn [mbind Out_bind app remove_all]. done.
Qed.
End Properties.

Definition toy_params (data : bytes) : PacketParams (cr := Toy.crypto) :=
  MkPacketParams (cr := Toy.crypto) (arr_of 8 [x01]) (Some (arr_of 32 [x07])) None 1 0 0 data.

Lemma toy_coders : coders (H := ToyRS.coder) ToyRS.par (segments_spec 1 2 1).
Proof.
  assert (segments_spec 1 2 1 = [MkSegment 0 1 2 2 1]) as -> by reflexivity.
  constructor; [|constructor]. intros _. by apply ToyRS.law.
Qed.

Lemma split_join_witness :
  let pp := toy_params [x2a] in
  ∃ s shards wires pp' ks' pkts,
    NewSegments 1 78 76 1 = Ret s ∧
    SplitToPackets (cr := Toy.crypto) (H := ToyRS.coder) (arr_zero 32)
      (λ i, (arr_zero 16, arr_zero _)) pp 78
      (MkKeySet (cr := Toy.crypto) (arr_of 32 [x03]) (arr_of 32 [x05]))
    = Some (Ret ((shards, wires, None), pp', ks')) ∧
    Forall2 (λ w p, ∃ pub cloak w',
        GetKeysFromPacket (cr := Toy.crypto) w = Ret (Some pub, cloak, arr_zero 16, None) ∧
        DecodePacket (cr := Toy.crypto) 9 w (Some pub) (Some (arr_of 32 [x07])) (arr_zero 16)
        = Ret ((Some p, None), w')) wires pkts ∧
    ∀ got : list (option Packet),
      (∀ p, p ∈ omap id got → p ∈ pkts) → NoDup (Seq <$> omap id got) →
      (∀ g, g ∈ s → dLen g ≤ zlen (filter (λ p, DStart g ≤ Seq p < PEnd g) (omap id got))) →
      ∃ r, JoinPackets (cr := Toy.crypto) (H := ToyRS.coder) got = Ret (r, [x2a], None).
Proof.
  intros pp.
  apply (split_join (cr := Toy.crypto) (crl := Toy.laws) (H := ToyRS.coder) ToyRS.par (arr_zero 32)
    (λ i, (arr_zero 16, arr_zero _)) pp 78
    (MkKeySet (cr := Toy.crypto) (arr_of 32 [x03]) (arr_of 32 [x05])) (arr_of 32 [x07]) 9 (arr_zero 16)).
  - reflexivity.
  - reflexivity.
  - split; by vm_compute.
  - reflexivity.
  - by vm_compute.
  - left. by vm_compute.
  - exact toy_coders.
  - repeat constructor; by vm_compute.
Defined.

Lemma SplitToPackets_exact_panics_witness :
  SplitToPackets (cr := Toy.crypto) (H := ToyRS.coder) (arr_zero 32)
    (λ i, (arr_zero 16, arr_zero _))
    (MkPacketParams (cr := Toy.crypto) (arr_of 8 [x01]) (Some (arr_of 32 [x07])) None 0 0 0
       [x01; x02]) 78
    (MkKeySet (cr := Toy.crypto) (arr_of 32 [x03]) (arr_of 32 [x05])) = Some (Panic PSlice).
Proof.
  apply (SplitToPackets_exact_panics (cr := Toy.crypto) (H := ToyRS.coder) ToyRS.par);
    [done|done|done|done|].
  assert (segments_spec (zlen [x01; x02]) 2 0 = [MkSegment 0 2 2 2 0]) as E by reflexivity.
  change (coders (H := ToyRS.coder) ToyRS.par (segments_spec (zlen [x01; x02]) 2 0)).
  rewrite E. constructor; [|constructor]. intros N. exfalso. by vm_compute in N.
Defined.

Lemma JoinPackets_triplicate_panics_witness :
  let p := Some (MkPacket (arr_zero 8) 0 100 1 [x01; x02] 0) in
  JoinPackets (cr := Toy.crypto) (H := ToyRS.coder) [p; p; p] = Panic PSlice.
Proof.
  apply (JoinPackets_triplicate_panics (cr := Toy.crypto) (H := ToyRS.coder)
    (MkPacket (arr_zero 8) 0 100 1 [x01; x02] 0)); [done|done|split; by vm_compute|by vm_compute].
Defined.
