(* ===== verification/Node.v ===== *)
(** * Nodes, payments and pending responses

    Models [pkg/engine/node], [pkg/engine/services], [pkg/engine/payments] and
    [pkg/engine/responses]: the records the session manager keeps, with their
    operations.  A [sync.Mutex] is a flag: locking it while it is held blocks the
    goroutine ([PBlock]), unlocking it while it is free is Go's fatal error
    ([PLock]); a nil mutex pointer cannot be locked. *)

From S2P Require Export SplitJoin.

(** libp2p: the peer identifier of a key and the address component that carries
    it ([/p2p/<id>]). *)
Class Peers `{Crypto} `{Multiaddrs} := {
  PeerID : Type;
  PeerID_eq_dec :: EqDecision PeerID;
  PeerID_countable :: Countable PeerID;
  IDFromPublicKey : Pub → option PeerID;
  P2pAddr : PeerID → option Multiaddr;
}.

(** [tpt.Transport]: sending on it. *)
Class Transports := {
  Transport : Type;
  tpt_Send : Transport → bytes → Transport * option error;
}.

(** ** Mutexes *)

Definition mutex_lock (m : option bool) : Out (option bool) :=
  match m with
  | None => Panic PNil
  | Some true => Panic PBlock
  | Some false => Ret (Some true)
  end.
Definition mutex_unlock (m : option bool) : Out (option bool) :=
  match m with
  | None => Panic PNil
  | Some false => Panic PLock
  | Some true => Ret (Some false)
  end.

(** ** Services and nodes *)

Definition IP4 : Z := 1.
(** [1 << iota] in the second line of the block. *)
Definition IP6 : Z := Z.shiftl 1 1.
Definition PaymentChanBuffers : Z := 8.

Section Node.
Context {cr : Crypto} {ma : Multiaddrs} {pe : Peers} {tp : Transports}.

Record ServiceR := MkServiceR {
  svc_Port : Z; svc_RelayRate : Z; svc_Transport : option Transport }.

(** [crypto.Keys] of a node: the private key is nil for a peer. *)
Record IdentityKeys := MkIdentity { id_Pub : Pub; id_Bytes : PubBytes; id_Prv : option Prv }.

Record Node := MkNode {
  n_ID : ID;
  n_Mutex : option bool;
  Addresses : list Multiaddr;
  Identity : IdentityKeys;
  RelayRate : Z;
  Services : list ServiceR;
  n_Load : byte;
  n_Transport : option Transport;
}.

Definition with_Mutex (m : option bool) (n : Node) : Node :=
  MkNode (n_ID n) m (Addresses n) (Identity n) (RelayRate n) (Services n) (n_Load n) (n_Transport n).
Definition with_Services (s : list ServiceR) (n : Node) : Node :=
  MkNode (n_ID n) (n_Mutex n) (Addresses n) (Identity n) (RelayRate n) s (n_Load n) (n_Transport n).
Definition with_Addresses (a : list Multiaddr) (n : Node) : Node :=
  MkNode (n_ID n) (n_Mutex n) a (Identity n) (RelayRate n) (Services n) (n_Load n) (n_Transport n).
Definition with_Transport (t : option Transport) (n : Node) : Node :=
  MkNode (n_ID n) (n_Mutex n) (Addresses n) (Identity n) (RelayRate n) (Services n) (n_Load n) t.

(** [NewNode] with the identifier the generator delivered. *)
Definition NewNode (id : ID) (addr : list Multiaddr) (keys : IdentityKeys)
    (tpt : option Transport) (relayRate : Z) : Node :=
  MkNode id (Some false) addr keys relayRate [] x00 tpt.

Definition Node_Lock : GoM Node unit := λ n, m ← mutex_lock (n_Mutex n); Ret (tt, with_Mutex m n).
Definition Node_Unlock : GoM Node unit := λ n, m ← mutex_unlock (n_Mutex n); Ret (tt, with_Mutex m n).

(** [Lock(); defer Unlock()] around a body. *)
Definition Node_locked {A} (m : GoM Node A) : GoM Node A :=
  Node_Lock ;; a ← m; Node_Unlock ;; mret a.

Definition AddKeyToMultiaddr (a : Multiaddr) (pub : Pub) : option Multiaddr :=
  pid ← IDFromPublicKey pub; k ← P2pAddr pid; Some (Encapsulate a k).

(** [ValueForProtocol] of an address: whether a component has the code. *)
Definition has_protocol (a : Multiaddr) (code : Z) : bool :=
  bool_decide (Exists (λ c, ProtoCode c = code) (Split a)).

(** [PickAddress] collects the addresses of the enabled protocols in a local and
    returns its named result, which nothing assigns: nil. *)
Definition PickAddress (p : Z) (n : Node) : option Multiaddr :=
  let tmp := n.(Addresses) ≫= λ temp,
    (if bool_decide (Z.land p IP4 ≠ 0) && has_protocol temp P_IP4
     then [AddKeyToMultiaddr temp (id_Pub (Identity n))] else []) ++
    (if bool_decide (Z.land p IP6 ≠ 0) && has_protocol temp P_IP6
     then [AddKeyToMultiaddr temp (id_Pub (Identity n))] else []) in
  let _ := tmp in None.

(** The first service on a port, with its index. *)
Definition on_port (port : Z) (s : list ServiceR) : option (nat * ServiceR) :=
  list_find (λ v, svc_Port v = port) s.

Definition AddService (s : ServiceR) : GoM Node (option error) :=
  Node_locked (
    n ← get;
    match on_port (svc_Port s) (Services n) with
    | Some _ => mret (Some (Errorf "service already exists for port %d" [svc_Port s]))
    | None => set (with_Services (Services n ++ [s]) n) ;; mret None
    end).

(** Removes the first service on the port: [Services[1:]] or [append] around it. *)
Definition DeleteService (port : Z) : GoM Node unit :=
  Node_locked (
    n ← get;
    match on_port port (Services n) with
    | Some (i, _) =>
        set (with_Services (if bool_decide (i < 1)%nat then drop 1 (Services n)
               else take i (Services n) ++ drop (i + 1) (Services n)) n)
    | None => mret tt
    end).

Definition FindService (port : Z) : GoM Node (option ServiceR) :=
  Node_locked (n ← get; mret (snd <$> on_port port (Services n))).

Definition SendTo (port : Z) (b : bytes) : GoM Node (option error) :=
  Node_locked (
    n ← get;
    match on_port port (Services n) with
    | Some (i, v) =>
        match svc_Transport v with
        | None => panicM PNil
        | Some t =>
            let '(t, e) := tpt_Send t b in
            set (with_Services (<[i := MkServiceR (svc_Port v) (svc_RelayRate v) (Some t)]>
                   (Services n)) n) ;;
            mret e
        end
    | None => mret (Some (Errorf "%v port not registered %d" [port]))
    end).
End Node.

(** ** Pending payments *)

Record Payment := MkPayment { pay_ID : ID; Preimage : Hash; Amount : Z }.
Abbreviation PendingPayments := (list Payment).

Definition Payments_Add (p : PendingPayments) (np : Payment) : PendingPayments := p ++ [np].

(** [Delete] edits the array of [p] in place while it ranges over it: [arr] is
    that array, [n] the length of the result, a prefix of it.  Taking an element
    out shifts the ones behind it forward and leaves the last one in place. *)
Fixpoint delete_loop (k i : nat) (preimage : Hash) (arr : list Payment) (n : nat)
    : list Payment * nat :=
  match k with
  | O => (arr, n)
  | S k =>
      match arr !! i with
      | Some x =>
          if bool_decide (Preimage x = preimage) then
            if bool_decide (i = length arr - 1)%nat then delete_loop k (i + 1) preimage arr i
            else delete_loop k (i + 1) preimage
                   (take i arr ++ drop (i + 1) arr ++ drop (length arr - 1) arr) (length arr - 1)
          else delete_loop k (i + 1) preimage arr n
      | None => (arr, n)
      end
  end.

Definition Payments_Delete (p : PendingPayments) (preimage : Hash) : PendingPayments :=
  let '(arr, n) := delete_loop (length p) 0 preimage p (length p) in take n arr.

Definition Payments_Find (p : PendingPayments) (id : ID) : option Payment :=
  snd <$> list_find (λ x, pay_ID x = id) p.
Definition Payments_FindPreimage (p : PendingPayments) (pi : Hash) : option Payment :=
  snd <$> list_find (λ x, Preimage x = pi) p.

(** ** Pending responses

    [Hook] is what stands for the closures of [PostAcct], [Callback] for the
    callback; running them acts on the state [W] of the engine, which holds the
    pending responses. *)

(** [l[1:]], or [append(l[:i], l[i+1:]...)]. *)
Definition cut_out {A} (l : list A) (i : nat) : Out (list A) :=
  if bool_decide (i < 1)%nat then goslice l 1 (zlen l) else RemovePacket l (Z.of_nat i).

Lemma cut_out_mid {A} (pre post : list A) x :
  cut_out (pre ++ x :: post) (length pre) = Ret (pre ++ post).
Proof.
  pose proof (zlen_app pre (x :: post)) as LA. unfold zlen in LA at 2 3. cbn [length] in LA.
  unfold cut_out, RemovePacket. case_bool_decide as Hlt.
  - destruct pre; [|cbn in Hlt; lia]. rewrite goslice_in by lia.
    rewrite take_ge by (rewrite length_drop; unfold zlen in *; lia). done.
  - rewrite !goslice_in by lia. cbn [mbind Out_bind]. rewrite Z.sub_0_r, Nat2Z.id, drop_0.
    rewrite take_app_length, drop_app_ge by lia.
    replace (Z.to_nat (Z.of_nat (length pre) + 1) - length pre)%nat with 1%nat by lia.
    cbn [drop]. f_equal. f_equal. apply take_ge. lia.
Qed.

Section Responses.
Context {Hook Callback W Ifc : Type}.
Context (runHook : Hook → GoM W unit).
Context (runCallback : Callback → ID → Ifc → bytes → GoM W (option error)).

Record Response := MkResponseRec {
  r_ID : ID; SentSize : Z; r_Port : Z; Billable : list PubBytes; Return_ : PubBytes;
  PostAcct : list Hook; r_Callback : Callback; r_Time : Z }.

Record Pending := MkPending { p_locked : bool; responses : list Response }.

Context (get_Pending : W → Pending) (set_Pending : Pending → W → W).

Definition Pending_Lock : GoM W unit := λ w,
  let p := get_Pending w in
  if p_locked p then Panic PBlock else Ret (tt, set_Pending (MkPending true (responses p)) w).
Definition Pending_Unlock : GoM W unit := λ w,
  let p := get_Pending w in
  if p_locked p then Ret (tt, set_Pending (MkPending false (responses p)) w) else Panic PLock.
Definition Pending_locked {A} (m : GoM W A) : GoM W A :=
  Pending_Lock ;; a ← m; Pending_Unlock ;; mret a.

Definition set_responses (l : list Response) : GoM W unit := λ w,
  Ret (tt, set_Pending (MkPending (p_locked (get_Pending w)) l) w).
Definition get_responses : GoM W (list Response) := λ w, Ret (responses (get_Pending w), w).

Definition Pending_Add (r : Response) : GoM W unit :=
  Pending_locked (l ← get_responses; set_responses (l ++ [r])).

Definition Pending_Find (id : ID) : GoM W (option Response) :=
  l ← get_responses; mret (snd <$> list_find (λ r, r_ID r = id) l).

Definition FindOlder (t : Z) : GoM W (list Response) :=
  Pending_locked (l ← get_responses; mret (filter (λ r, r_Time r < t) l)).

Definition GetOldestPending : GoM W (option Response) :=
  Pending_locked (l ← get_responses; mret (l !! O)).

Fixpoint run_hooks (l : list Hook) : GoM W unit :=
  match l with [] => mret tt | h :: l => runHook h ;; run_hooks l end.

(** The hooks and the callback run with the mutex held; the list is read again
    after them, as [p.responses] is. *)
Definition ProcessAndDelete (id : ID) (ifc : Ifc) (b : bytes) : GoM W (bool * option error) :=
  Pending_locked (
    l ← get_responses;
    match list_find (λ r, r_ID r = id) l with
    | None => mret (false, None)
    | Some (i, r) =>
        run_hooks (PostAcct r) ;;
        e ← runCallback (r_Callback r) id ifc b;
        l ← get_responses;
        a ← lift (cut_out l i);
        set_responses a ;;
        mret (true, e)
    end).
End Responses.
Arguments Response : clear implicits.
Arguments Pending : clear implicits.

(** ** A node's services are a finite map from ports *)

Section NodeFacts.
Context {cr : Crypto} {ma : Multiaddrs} {pe : Peers} {tp : Transports}.

Definition registry (n : Node) : gmap Z ServiceR :=
  list_to_map ((λ s, (svc_Port s, s)) <$> Services n).
(** The mutex is free and no two services share a port. *)
Definition node_ok (n : Node) : Prop :=
  n_Mutex n = Some false ∧ NoDup (svc_Port <$> Services n).

Lemma relock n : n_Mutex n = Some false → with_Mutex (Some false) (with_Mutex (Some true) n) = n.
Proof. destruct n; cbn. by intros ->. Qed.

Lemma Node_locked_run {A} (m : GoM Node A) n a n' :
  n_Mutex n = Some false → m (with_Mutex (Some true) n) = Ret (a, n') →
  n_Mutex n' = Some true → Node_locked m n = Ret (a, with_Mutex (Some false) n').
Proof.
  intros Hm E Hm'. unfold Node_locked, Node_Lock, Node_Unlock, mbind, GoM_bind, Out_bind.
  rewrite Hm. cbn [mutex_lock]. rewrite E, Hm'. done.
Qed.

Lemma on_port_None p l : on_port p l = None ↔ p ∉ svc_Port <$> l.
Proof.
  unfold on_port. rewrite list_find_None, Forall_forall, list_elem_of_fmap.
  split; [intros H (s & -> & Hs); by apply (H s)|intros H s Hs <-; apply H; by exists s].
Qed.

Lemma on_port_Some p l i s :
  on_port p l = Some (i, s) → svc_Port s = p ∧
  l = take i l ++ s :: drop (S i) l ∧ p ∉ svc_Port <$> take i l.
Proof.
  unfold on_port. intros (Hi & Hp & Hb)%list_find_Some. split; [done|].
  split; [symmetry; by apply take_drop_middle|].
  intros (q & -> & Hq)%list_elem_of_fmap. apply list_elem_of_lookup in Hq as [j Hj].
  apply lookup_take_Some in Hj as [Hj Hlt]. by apply (Hb j q Hj Hlt).
Qed.

Lemma registry_lookup n p : NoDup (svc_Port <$> Services n) →
  registry n !! p = snd <$> on_port p (Services n).
Proof.
  intros ND. unfold registry. assert (NoDup ((λ s, (svc_Port s, s)) <$> Services n).*1) as ND'.
  { rewrite <- list_fmap_compose. exact ND. }
  destruct (on_port p (Services n)) as [[i s]|] eqn:E; cbn.
  - apply elem_of_list_to_map; [done|]. apply list_elem_of_fmap. exists s.
    destruct (on_port_Some _ _ _ _ E) as (<- & El & _). split; [done|]. rewrite El.
    apply elem_of_app. right. by left.
  - apply not_elem_of_list_to_map. rewrite <- list_fmap_compose. by apply on_port_None.
Qed.
Lemma node_locked_get {A} n (f : Node → A * Node) m :
  n_Mutex n = Some false → n_Mutex (f n).2 = Some false →
  m (with_Mutex (Some true) n) = Ret ((f n).1, with_Mutex (Some true) (f n).2) →
  Node_locked m n = Ret (f n).
Proof.
  intros Hm Hf E. rewrite (Node_locked_run _ _ _ _ Hm E) by done.
  destruct (f n) as [a n']. cbn in *. f_equal. f_equal. by apply relock.
Qed.

Lemma FindService_run n p : node_ok n → FindService p n = Ret (registry n !! p, n).
Proof.
  intros [Hm ND]. rewrite registry_lookup by done.
  by apply (node_locked_get n (λ n, (snd <$> on_port p (Services n), n))).
Qed.

Lemma AddService_run n s :
  node_ok n → ∃ e n', AddService s n = Ret (e, n') ∧ node_ok n' ∧
    match registry n !! svc_Port s with
    | Some _ => e ≠ None ∧ n' = n
    | None => e = None ∧ registry n' = <[svc_Port s := s]> (registry n)
    end.
Proof.
  intros [Hm ND]. rewrite registry_lookup by done.
  destruct (on_port (svc_Port s) (Services n)) as [[i v]|] eqn:E.
  - set (err := Errorf "service already exists for port %d" [svc_Port s]).
    exists (Some err), n. split; [|by split].
    apply (node_locked_get n (λ n, (Some err, n))); [done|done|].
    unfold mbind, GoM_bind, get. cbn [with_Mutex Services]. by rewrite E.
  - exists None, (with_Services (Services n ++ [s]) n). split; [|split; [split; [done|]|split; [done|]]].
    + apply (node_locked_get n (λ n, (None, with_Services (Services n ++ [s]) n))); [done|done|].
      unfold mbind, GoM_bind, get. cbn [with_Mutex Services]. by rewrite E.
    + cbn. rewrite fmap_app. apply NoDup_app. split; [done|].
      split; [|cbn; apply NoDup_singleton]. apply on_port_None in E.
      by intros x Hx ->%list_elem_of_singleton.
    + unfold registry. cbn. rewrite fmap_app, list_to_map_app. cbn. rewrite insert_empty.
      symmetry. apply insert_union_singleton_r.
      change (registry n !! svc_Port s = None). by rewrite registry_lookup, E.
Qed.

(** Taking a service with a port of its own out of the list deletes its port. *)
Lemma registry_split n i p v :
  NoDup (svc_Port <$> Services n) → on_port p (Services n) = Some (i, v) →
  let l := take i (Services n) ++ drop (S i) (Services n) in
  NoDup (svc_Port <$> l) ∧ registry (with_Services l n) = delete p (registry n).
Proof.
  intros ND E. destruct (on_port_Some _ _ _ _ E) as (Hv & El & Hp).
  remember (take i (Services n)) as T. remember (drop (S i) (Services n)) as D.
  clear HeqT HeqD. intros l. rewrite El, fmap_app, fmap_cons in ND. apply NoDup_app in ND as (N1 & N2 & N3).
  apply NoDup_cons in N3 as [N3 N4].
  assert (NoDup (svc_Port <$> l)) as ND.
  { unfold l. rewrite fmap_app. apply NoDup_app. split; [done|]. split; [|done].
    intros x Hx Hx'. apply (N2 x Hx). by right. }
  split; [done|]. apply map_eq. intros q. rewrite lookup_delete. case_decide as Hq.
  - subst q. unfold registry. apply not_elem_of_list_to_map. rewrite <- list_fmap_compose.
    cbn. unfold l. rewrite fmap_app, elem_of_app. rewrite Hv in N3. by intros [?|?].
  - unfold registry. cbn [with_Services Services]. rewrite El. unfold l.
    rewrite !fmap_app, !list_to_map_app, fmap_cons. cbn [list_to_map foldr uncurry fst snd].
    rewrite !lookup_union, lookup_insert_ne by congruence. done.
Qed.

Lemma DeleteService_run n p :
  node_ok n → ∃ n', DeleteService p n = Ret (tt, n') ∧ node_ok n' ∧
    registry n' = delete p (registry n).
Proof.
  intros [Hm ND]. destruct (on_port p (Services n)) as [[i v]|] eqn:E.
  - destruct (registry_split n i p v ND E) as [ND' ER].
    set (l := take i (Services n) ++ drop (S i) (Services n)) in *.
    exists (with_Services l n). split; [|by split].
    apply (node_locked_get n (λ n, (tt, with_Services l n))); [done|done|].
    unfold mbind, GoM_bind, get. cbn [with_Mutex Services]. rewrite E. unfold set. do 3 f_equal.
    unfold l. rewrite Nat.add_1_r. case_bool_decide; [|done]. by replace i with O by lia.
  - exists n. split; [|split; [done|]].
    + apply (node_locked_get n (λ n, (tt, n))); [done|done|].
      unfold mbind, GoM_bind, get. cbn [with_Mutex Services]. by rewrite E.
    + symmetry. apply delete_id. by rewrite registry_lookup, E.
Qed.
End NodeFacts.

(** ** Deleting a payment *)

Lemma filter_keep {A} (P : A → Prop) `{!∀ x, Decision (P x)} l : Forall P l → filter P l = l.
Proof. induction 1 as [|x l Hx Hl IH]; [done|]. by rewrite filter_cons, decide_True, IH. Qed.

Lemma delete_loop_skip k i h arr n :
  (∀ j x, (i ≤ j)%nat → arr !! j = Some x → Preimage x ≠ h) →
  delete_loop k i h arr n = (arr, n).
Proof.
  revert i; induction k as [|k IH]; intros i H; [done|]. cbn.
  destruct (arr !! i) as [x|] eqn:E; [|done]. rewrite bool_decide_false by (by eapply H).
  apply IH. intros j y Hj. apply H. lia.
Qed.

Lemma delete_loop_prefix k pre h arr n :
  Forall (λ x, Preimage x ≠ h) pre →
  delete_loop (length pre + k) 0 h (pre ++ arr) n = delete_loop k (length pre) h (pre ++ arr) n.
Proof.
  intros Hp. enough (∀ done, (done ≤ length pre)%nat →
    delete_loop (done + k) (length pre - done) h (pre ++ arr) n
    = delete_loop k (length pre) h (pre ++ arr) n) as E.
  { specialize (E (length pre)). rewrite Nat.sub_diag in E. by apply E. }
  intros d. induction d as [|d IH]; intros Hd; [by rewrite Nat.sub_0_r|].
  cbn [Nat.add delete_loop].
  destruct (lookup_lt_is_Some_2 pre (length pre - S d)) as [x Hx]; [lia|].
  rewrite lookup_app_l, Hx by lia. rewrite Forall_lookup in Hp.
  rewrite bool_decide_false by (by eapply Hp).
  replace (length pre - S d + 1)%nat with (length pre - d)%nat by lia. apply IH. lia.
Qed.

Lemma delete_head pre a suf h :
  Forall (λ x, Preimage x ≠ h) pre → Preimage a = h →
  delete_loop (length (pre ++ a :: suf)) 0 h (pre ++ a :: suf) (length (pre ++ a :: suf))
  = match suf with
    | [] => (pre ++ [a], length pre)
    | _ => delete_loop (length suf) (length pre + 1) h
             (pre ++ suf ++ drop (length suf - 1) suf) (length pre + length suf)
    end.
Proof.
  intros Hp Ha. rewrite length_app at 1. rewrite delete_loop_prefix by done.
  cbn [length delete_loop]. rewrite lookup_app_r, Nat.sub_diag by lia. cbn [lookup list_lookup].
  rewrite bool_decide_true by done. destruct suf as [|b suf].
  - rewrite bool_decide_true by (rewrite length_app; cbn; lia). done.
  - rewrite bool_decide_false by (rewrite length_app; cbn; lia).
    f_equal; [|rewrite length_app; cbn; lia].
    rewrite take_app_length, drop_app_ge by lia.
    replace (length pre + 1 - length pre)%nat with 1%nat by lia. cbn [drop]. f_equal. f_equal.
    rewrite length_app, drop_app_ge by (cbn; lia).
    replace (length pre + length (a :: b :: suf) - 1 - length pre)%nat
      with (S (length (b :: suf) - 1)) by (cbn; lia). done.
Qed.

Lemma Payments_Delete_head pre a suf h :
  Forall (λ x, Preimage x ≠ h) pre → Preimage a = h → Forall (λ x, Preimage x ≠ h) (drop 1 suf) →
  Payments_Delete (pre ++ a :: suf) h = pre ++ suf.
Proof.
  intros Hp Ha Hs. unfold Payments_Delete. rewrite (delete_head pre a suf h Hp Ha).
  destruct suf as [|b suf]; [by rewrite app_nil_r, take_app_length|].
  cbn [drop] in Hs. destruct (decide (Preimage b = h ∧ suf = [])) as [[Hb ->]|Hn].
  - cbn [length delete_loop Nat.sub drop app].
    rewrite lookup_app_r by lia. replace (length pre + 1 - length pre)%nat with 1%nat by lia.
    cbn [lookup list_lookup]. rewrite bool_decide_true by done.
    rewrite bool_decide_true by (rewrite length_app; cbn; lia).
    by rewrite take_app_ge, Nat.add_sub_swap, Nat.sub_diag by lia.
  - rewrite delete_loop_skip; cycle 1.
    { intros j x Hj. rewrite lookup_app_r by lia.
      destruct (j - length pre)%nat as [|k] eqn:Ek; [lia|]. rewrite Forall_forall in Hs.
      cbn [app lookup list_lookup]. intros Hk%list_elem_of_lookup_2.
      apply elem_of_app in Hk as [Hk|Hk]; [by apply Hs|].
      destruct suf as [|c suf].
      + apply list_elem_of_singleton in Hk as ->. intros Hb. by apply Hn.
      + apply Hs. cbn [length Nat.sub drop] in Hk.
        rewrite <- (take_drop (length suf) (c :: suf)). apply elem_of_app. right.
        exact Hk. }
    rewrite app_assoc. apply take_app_length'. by rewrite length_app.
Qed.

(** ** Running the hooks of a response *)

Section ResponseFacts.
Context {Hook Callback W Ifc : Type}.
Context (runHook : Hook → GoM W unit).
Context (runCallback : Callback → ID → Ifc → bytes → GoM W (option error)).
Context (get_Pending : W → Pending Hook Callback) (set_Pending : Pending Hook Callback → W → W).
Context (Hgs : ∀ p w, get_Pending (set_Pending p w) = p).

Lemma Pending_locked_run {A} (m : GoM W A) w a w' :
  p_locked (get_Pending w) = false →
  m (set_Pending (MkPending true (responses (get_Pending w))) w) = Ret (a, w') →
  p_locked (get_Pending w') = true →
  Pending_locked get_Pending set_Pending m w
  = Ret (a, set_Pending (MkPending false (responses (get_Pending w'))) w').
Proof using Type.
  intros Hl E Hl'. unfold Pending_locked, Pending_Lock, Pending_Unlock, mbind, GoM_bind, Out_bind.
  rewrite Hl, E, Hl'. done.
Qed.

Lemma Pending_locked_blocks {A} (m : GoM W A) w :
  p_locked (get_Pending w) = true →
  Pending_locked get_Pending set_Pending m w = Panic PBlock.
Proof using Type.
  intros Hl. unfold Pending_locked, Pending_Lock, mbind, GoM_bind, Out_bind. by rewrite Hl.
Qed.

(** The callback of a response starts with the mutex of the pending responses
    held, whatever its hooks do to the rest of the engine. *)
Lemma ProcessAndDelete_callback id ifc b w pre r post w1 :
  responses (get_Pending w) = pre ++ r :: post → p_locked (get_Pending w) = false →
  Forall (λ x, r_ID x ≠ id) pre → r_ID r = id →
  run_hooks runHook (PostAcct r) (set_Pending (MkPending true (responses (get_Pending w))) w)
  = Ret (tt, w1) →
  ProcessAndDelete runHook runCallback get_Pending set_Pending id ifc b w
  = ('(e, w2) ← runCallback (r_Callback r) id ifc b w1;
     '(x, w3) ← (l ← get_responses get_Pending;
        a ← lift (cut_out l (length pre));
        set_responses get_Pending set_Pending a ;; mret (true, e)) w2;
     '(_, w4) ← Pending_Unlock get_Pending set_Pending w3; Ret (x, w4)).
Proof using Hgs.
  intros El Hl Hpre Hr Eh. unfold ProcessAndDelete, Pending_locked, Pending_Lock.
  unfold mbind at 1, GoM_bind at 1. rewrite Hl. unfold mbind at 1, GoM_bind at 1.
  unfold mbind at 1, GoM_bind at 1. unfold get_responses at 1. rewrite Hgs. cbn [responses].
  assert (list_find (λ r, r_ID r = id) (responses (get_Pending w)) = Some (length pre, r)) as ->.
  { rewrite El. apply list_find_Some. rewrite lookup_app_r, Nat.sub_diag by lia.
    split; [done|]. split; [done|]. intros j y Hj Hlt. rewrite lookup_app_l in Hj by done.
    rewrite Forall_lookup in Hpre. by eapply Hpre. }
  unfold mbind at 1, GoM_bind at 1. rewrite Eh.
  unfold mbind at 1, GoM_bind at 1. unfold mbind at 6, Out_bind at 1.
  destruct (runCallback _ _ _ _ _) as [[e w2]|]; [|done]. done.
Qed.
End ResponseFacts.

(** ** Properties *)

Section Properties.
Context {cr : Crypto} {ma : Multiaddrs} {pe : Peers} {tp : Transports}.

(** On a node whose mutex is free and whose services have distinct ports, the
    service list is a finite map from ports: [AddService] inserts unless the port
    is taken, in which case it reports an error and changes nothing,
    [DeleteService] deletes, [FindService] looks up; all three keep the ports
    distinct and leave the mutex free. *)
Theorem services_refine_map n s p :
  node_ok n →
  (∃ e n', AddService s n = Ret (e, n') ∧ node_ok n' ∧
     match registry n !! svc_Port s with
     | Some _ => e ≠ None ∧ n' = n
     | None => e = None ∧ registry n' = <[svc_Port s := s]> (registry n)
     end) ∧
  (∃ n', DeleteService p n = Ret (tt, n') ∧ node_ok n' ∧ registry n' = delete p (registry n)) ∧
  FindService p n = Ret (registry n !! p, n).
Proof.
  intros Hn. split; [by apply AddService_run|]. split; [by apply DeleteService_run|].
  by apply FindService_run.
Qed.
End Properties.

(** When the pending payments have distinct preimages, [Delete] is exactly the
    removal of the one that matches, in order; a payment that is found by its
    preimage is not found again after its deletion. *)
Theorem Payments_Delete_unique p h :
  NoDup (Preimage <$> p) →
  Payments_Delete p h = filter (λ x, Preimage x ≠ h) p ∧
  Payments_FindPreimage (Payments_Delete p h) h = None.
Proof.
  intros ND. assert (Payments_Delete p h = filter (λ x, Preimage x ≠ h) p) as E.
  { destruct (list_find (λ x, Preimage x = h) p) as [[i a]|] eqn:Ef.
    - apply list_find_Some in Ef as (Hi & Ha & _).
      pose proof (take_drop_middle _ _ _ Hi) as El. rewrite <- El in ND |- *.
      rewrite fmap_app, fmap_cons in ND. apply NoDup_app in ND as (_ & N2 & N3).
      apply NoDup_cons in N3 as [N3 _].
      assert (Forall (λ x, Preimage x ≠ h) (take i p)) as H1.
      { apply Forall_forall. intros x Hx Ex. apply (N2 h).
        - rewrite <- Ex. by apply list_elem_of_fmap_2.
        - rewrite <- Ha. by left. }
      assert (Forall (λ x, Preimage x ≠ h) (drop (S i) p)) as H2.
      { apply Forall_forall. intros x Hx Ex. apply N3. rewrite Ha, <- Ex.
        by apply list_elem_of_fmap_2. }
      rewrite Payments_Delete_head; [|done|done|by apply Forall_drop].
      rewrite filter_app, filter_cons, decide_False by (intros N; by apply N).
      by rewrite !filter_keep.
    - apply list_find_None in Ef. rewrite filter_keep by done.
      unfold Payments_Delete. rewrite delete_loop_skip; [by rewrite take_ge|].
      intros j x _ Hj. rewrite Forall_lookup in Ef. by eapply Ef. }
  split; [done|]. rewrite E. unfold Payments_FindPreimage.
  assert (list_find (λ x, Preimage x = h) (filter (λ x, Preimage x ≠ h) p) = None) as ->; [|done].
  apply list_find_None, Forall_forall. intros x [? _]%list_elem_of_filter. done.
Qed.

(** Of two payments with one preimage that stand next to each other [Delete]
    removes only the first, because it edits the array it ranges over: the payment
    is still found and can be claimed a second time. *)
Theorem Payments_Delete_keeps_duplicate pre a b suf h :
  Forall (λ x, Preimage x ≠ h) (pre ++ suf) → Preimage a = h → Preimage b = h →
  Payments_Delete (pre ++ a :: b :: suf) h = pre ++ b :: suf ∧
  Payments_FindPreimage (Payments_Delete (pre ++ a :: b :: suf) h) h = Some b.
Proof.
  intros [Hp Hs]%Forall_app Ha Hb. rewrite Payments_Delete_head by done. split; [done|].
  unfold Payments_FindPreimage.
  assert (list_find (λ x, Preimage x = h) (pre ++ b :: suf) = Some (length pre, b)) as ->; [|done].
  apply list_find_Some. rewrite lookup_app_r, Nat.sub_diag by lia. split; [done|]. split; [done|].
  intros j x Hj Hlt. rewrite lookup_app_l in Hj by done. rewrite Forall_lookup in Hp.
  by eapply Hp.
Qed.

Section ResponseProperties.
Context {Hook Callback W Ifc : Type}.
Context (runHook : Hook → GoM W unit).
Context (runCallback : Callback → ID → Ifc → bytes → GoM W (option error)).
Context (get_Pending : W → Pending Hook Callback) (set_Pending : Pending Hook Callback → W → W).

(** When a response arrives and its hooks and callback leave the pending
    responses alone, [ProcessAndDelete] runs all hooks in order, then the callback
    with the message, passes on its error, removes exactly the first entry with
    the identifier, keeps the order of the others and releases the mutex. *)
Theorem ProcessAndDelete_removes id ifc b w pre r post w1 e w2 :
  (∀ p w, get_Pending (set_Pending p w) = p) →
  responses (get_Pending w) = pre ++ r :: post → p_locked (get_Pending w) = false →
  Forall (λ x, r_ID x ≠ id) pre → r_ID r = id →
  run_hooks runHook (PostAcct r) (set_Pending (MkPending true (responses (get_Pending w))) w)
  = Ret (tt, w1) →
  runCallback (r_Callback r) id ifc b w1 = Ret (e, w2) →
  get_Pending w2 = MkPending true (responses (get_Pending w)) →
  ∃ w', ProcessAndDelete runHook runCallback get_Pending set_Pending id ifc b w
        = Ret ((true, e), w') ∧ get_Pending w' = MkPending false (pre ++ post).
Proof.
  intros Hgs El Hl Hpre Hr Eh Ec Hw2.
  rewrite (ProcessAndDelete_callback _ _ _ _ Hgs id ifc b w pre r post w1) by done.
  rewrite Ec. cbn [mbind Out_bind]. unfold mbind, GoM_bind, get_responses, lift.
  rewrite Hw2. cbn [responses]. rewrite El, cut_out_mid.
  cbn [mbind Out_bind]. unfold set_responses, Pending_Unlock. rewrite Hw2. cbn [mret GoM_ret p_locked Out_bind].
  rewrite Hgs. cbn [p_locked responses]. eexists. split; [done|]. by rewrite Hgs.
Qed.

(** The callback runs with the mutex of the pending responses held, so a
    callback that sends a message, which registers a response, blocks the engine
    for ever. *)
Theorem ProcessAndDelete_reentrant_blocks id ifc b w pre r post w1 r' :
  (∀ p w, get_Pending (set_Pending p w) = p) →
  responses (get_Pending w) = pre ++ r :: post → p_locked (get_Pending w) = false →
  Forall (λ x, r_ID x ≠ id) pre → r_ID r = id →
  run_hooks runHook (PostAcct r) (set_Pending (MkPending true (responses (get_Pending w))) w)
  = Ret (tt, w1) →
  p_locked (get_Pending w1) = true →
  (∀ w, runCallback (r_Callback r) id ifc b w
        = (Pending_Add get_Pending set_Pending r' ;; mret None) w) →
  ProcessAndDelete runHook runCallback get_Pending set_Pending id ifc b w = Panic PBlock.
Proof.
  intros Hgs El Hl Hpre Hr Eh Hw1 Ec.
  rewrite (ProcessAndDelete_callback _ _ _ _ Hgs id ifc b w pre r post w1) by done.
  rewrite Ec.
  assert ((Pending_Add get_Pending set_Pending r' ;; mret None) w1 = @Panic (option error * W) PBlock)
    as ->; [|done].
  unfold mbind, GoM_bind, Pending_Add. by rewrite Pending_locked_blocks.
Qed.
End ResponseProperties.

(** A transport that keeps what was sent, peer identifiers that are the key. *)
Module ToyNet.
#[export] Instance transports : Transports := {|
  Transport := list bytes;
  tpt_Send := λ t b, (t ++ [b], None);
|}.

#[export] Instance peers : @Peers Toy.crypto Toy.multiaddrs := {|
  PeerID := arr 33 : Type;
  IDFromPublicKey := λ p, Some (SerializeCompressed p);
  P2pAddr := λ i, Some (arr_list i : @Multiaddr Toy.multiaddrs);
|}.
End ToyNet.

Definition toy_node : Node (cr := Toy.crypto) (ma := Toy.multiaddrs) (tp := ToyNet.transports) :=
  NewNode (cr := Toy.crypto) (ma := Toy.multiaddrs) (tp := ToyNet.transports) (arr_of 8 [x01]) []
    (MkIdentity (cr := Toy.crypto) (arr_of 32 [x05]) (Toy.compress (arr_of 32 [x05])) None) None 10.

Lemma services_refine_map_witness :
  let svc := MkServiceR (tp := ToyNet.transports) 80 5 None in
  ∃ n', AddService svc toy_node = Ret (None, n') ∧ registry n' = {[ 80 := svc ]}.
Proof.
  intros svc. destruct (services_refine_map toy_node svc 80) as ((e & n' & E & _ & R) & _ & _).
  - split; [reflexivity|apply NoDup_nil_2].
  - assert (registry toy_node !! svc_Port svc = None) as EN by reflexivity. rewrite EN in R.
    destruct R as [-> R]. exists n'. split; [exact E|]. rewrite R. reflexivity.
Defined.

Lemma Payments_Delete_unique_witness :
  let a := MkPayment (arr_of 8 [x01]) (arr_of 32 [x01]) 5 in
  let b := MkPayment (arr_of 8 [x02]) (arr_of 32 [x02]) 7 in
  Payments_Delete [a; b] (arr_of 32 [x01]) = [b] ∧
  Payments_FindPreimage (Payments_Delete [a; b] (arr_of 32 [x01])) (arr_of 32 [x01]) = None.
Proof.
  intros a b. destruct (Payments_Delete_unique [a; b] (arr_of 32 [x01])) as [E F].
  - apply (bool_decide_unpack _). by vm_compute.
  - split; [|exact F]. rewrite E. by vm_compute.
Defined.

Lemma Payments_Delete_keeps_duplicate_witness :
  let a := MkPayment (arr_of 8 [x01]) (arr_of 32 [x01]) 5 in
  let b := MkPayment (arr_of 8 [x02]) (arr_of 32 [x01]) 7 in
  Payments_Delete [a; b] (arr_of 32 [x01]) = [b] ∧
  Payments_FindPreimage (Payments_Delete [a; b] (arr_of 32 [x01])) (arr_of 32 [x01]) = Some b.
Proof.
  intros a b.
  apply (Payments_Delete_keeps_duplicate [] a b [] (arr_of 32 [x01])); [by constructor|done|done].
Defined.

(** A world of pending responses with a counter: hooks add to it. *)
Definition toy_hook (h : Z) : GoM (Pending Z bool * Z) unit := λ w, Ret (tt, (w.1, w.2 + h)).
Definition toy_setp (p : Pending Z bool) (w : Pending Z bool * Z) : Pending Z bool * Z := (p, w.2).
Definition toy_response (cb : bool) : Response Z bool :=
  MkResponseRec (arr_of 8 [x01]) 0 80 [] (arr_zero 33) [3; 4] cb 0.
Definition toy_callback (cb : bool) (id : ID) (_ : unit) (b : bytes)
    : GoM (Pending Z bool * Z) (option error) :=
  if cb then Pending_Add fst toy_setp (toy_response false) ;; mret None
  else λ w, Ret (None, (w.1, w.2 + zlen b)).

Lemma ProcessAndDelete_removes_witness :
  ∃ w', ProcessAndDelete toy_hook toy_callback fst toy_setp (arr_of 8 [x01]) tt [xff]
          (MkPending false [toy_response false], 0) = Ret ((true, None), w') ∧
    w'.1 = MkPending false [].
Proof.
  apply (ProcessAndDelete_removes toy_hook toy_callback fst toy_setp (arr_of 8 [x01]) tt [xff]
    (MkPending false [toy_response false], 0) [] (toy_response false) []
    (MkPending true [toy_response false], 7) None (MkPending true [toy_response false], 8));
    [done|done|done|by constructor|done|done|done|done].
Defined.

Lemma ProcessAndDelete_reentrant_blocks_witness :
  ProcessAndDelete toy_hook toy_callback fst toy_setp (arr_of 8 [x01]) tt [xff]
    (MkPending false [toy_response true], 0) = Panic PBlock.
Proof.
  apply (ProcessAndDelete_reentrant_blocks toy_hook toy_callback fst toy_setp (arr_of 8 [x01]) tt
    [xff] (MkPending false [toy_response true], 0) [] (toy_response true) []
    (MkPending true [toy_response true], 7) (toy_response false));
    [done|done|done|by constructor|done|done|done|done].
Defined.
