(* ===== verification/Sess.v ===== *)
(** * The session manager

    Models [pkg/engine/sess] and [pkg/engine/sessions].  Nodes and sessions are
    shared objects: the session list, the circuit cache and the callers hold
    pointers to them, so the manager's state has a heap of each, and a pointer is
    a location; a location the heap does not have is a nil pointer.  The mutex is
    a flag.  Random shuffles ([cryptorand.Shuffle]) and the iteration order of Go
    maps are arguments. *)

From S2P Require Export Node.

Abbreviation loc := positive.

Section Sess.
Context {cr : Crypto} {ma : Multiaddrs} {pe : Peers} {tp : Transports}.

(** [sessions.Data] *)
Record Data := MkData {
  d_ID : ID; d_Node : loc; d_Remaining : Z; d_Header : Keys; d_Payload : Keys;
  d_Preimage : Hash; d_Hop : Z }.

Definition with_Remaining (r : Z) (d : Data) : Data :=
  MkData (d_ID d) (d_Node d) r (d_Header d) (d_Payload d) (d_Preimage d) (d_Hop d).

(** [NewSessionData] with both key pairs given. *)
Definition NewSessionData (id : ID) (node : loc) (rem : Z) (hdr pld : Keys) (hop : Z) : Data :=
  let h := Prv_ToBytes (Keys_Prv hdr) in
  let p := Prv_ToBytes (Keys_Prv pld) in
  MkData id node rem hdr pld (Single (arr_list h ++ arr_list p)) hop.

(** [sessions.Circuit]: five slots. *)
#[local] Abbreviation Circuit := (list (option loc)).
Definition NewCircuit : Circuit := replicate 5 None.

Record Manager := MkManager {
  nodeAt : gmap loc Node;
  dataAt : gmap loc Data;
  sm_locked : bool;
  nodes : list loc;
  sm_PendingPayments : PendingPayments;
  Sessions : list loc;
  CircuitCache : gmap ID Circuit;
  Protocols : Z;
}.

Definition with_nodeAt h (s : Manager) :=
  MkManager h (dataAt s) (sm_locked s) (nodes s) (sm_PendingPayments s) (Sessions s)
    (CircuitCache s) (Protocols s).
Definition with_dataAt h (s : Manager) :=
  MkManager (nodeAt s) h (sm_locked s) (nodes s) (sm_PendingPayments s) (Sessions s)
    (CircuitCache s) (Protocols s).
Definition with_locked b (s : Manager) :=
  MkManager (nodeAt s) (dataAt s) b (nodes s) (sm_PendingPayments s) (Sessions s)
    (CircuitCache s) (Protocols s).
Definition with_nodes l (s : Manager) :=
  MkManager (nodeAt s) (dataAt s) (sm_locked s) l (sm_PendingPayments s) (Sessions s)
    (CircuitCache s) (Protocols s).
Definition with_Pending l (s : Manager) :=
  MkManager (nodeAt s) (dataAt s) (sm_locked s) (nodes s) l (Sessions s)
    (CircuitCache s) (Protocols s).
Definition with_Sessions l (s : Manager) :=
  MkManager (nodeAt s) (dataAt s) (sm_locked s) (nodes s) (sm_PendingPayments s) l
    (CircuitCache s) (Protocols s).
Definition with_Cache c (s : Manager) :=
  MkManager (nodeAt s) (dataAt s) (sm_locked s) (nodes s) (sm_PendingPayments s) (Sessions s)
    c (Protocols s).

Definition upd (f : Manager → Manager) : GoM Manager unit := λ s, Ret (tt, f s).

(** [NewSessionManager] around the local node [n], an object of the heap [h]. *)
Definition NewSessionManager (protocols : Z) (h : gmap loc Node) (n : loc) : Manager :=
  MkManager h ∅ false [n] [] [] ∅ protocols.

Definition Lock : GoM Manager unit := λ s,
  if sm_locked s then Panic PBlock else Ret (tt, with_locked true s).
Definition Unlock : GoM Manager unit := λ s,
  if sm_locked s then Ret (tt, with_locked false s) else Panic PLock.
(** [sm.Lock(); defer sm.Unlock()] *)
Definition locked {A} (m : GoM Manager A) : GoM Manager A := Lock ;; a ← m; Unlock ;; mret a.

Definition node_at (l : loc) : GoM Manager Node := λ s,
  match nodeAt s !! l with Some n => Ret (n, s) | None => Panic PNil end.
Definition data_at (l : loc) : GoM Manager Data := λ s,
  match dataAt s !! l with Some d => Ret (d, s) | None => Panic PNil end.
Definition set_node (l : loc) (n : Node) : GoM Manager unit :=
  upd (λ s, with_nodeAt (<[l := n]> (nodeAt s)) s).
Definition set_data (l : loc) (d : Data) : GoM Manager unit :=
  upd (λ s, with_dataAt (<[l := d]> (dataAt s)) s).

(** A method of a node called through its pointer. *)
Definition on_node {A} (l : loc) (m : GoM Node A) : GoM Manager A :=
  n ← node_at l; r ← lift (m n); set_node l r.2 ;; mret r.1.

(** The first location in [l] whose object satisfies [p]. *)
Fixpoint find_data (p : Data → Out bool) (l : list loc) : GoM Manager (option loc) :=
  match l with
  | [] => mret None
  | x :: l => d ← data_at x; b ← lift (p d); if b : bool then mret (Some x) else find_data p l
  end.
Fixpoint find_node (p : Node → Out bool) (l : list loc) : GoM Manager (option loc) :=
  match l with
  | [] => mret None
  | x :: l => n ← node_at x; b ← lift (p n); if b : bool then mret (Some x) else find_node p l
  end.

Definition holds (P : Prop) `{Decision P} : Out bool := Ret (bool_decide P).

(** ** Nodes *)

Definition AddNodes (nn : list loc) : GoM Manager unit :=
  locked (upd (λ s, with_nodes (nodes s ++ nn) s)).

Definition GetLocalNode : GoM Manager loc := s ← get; lift (goindex (nodes s) 0).

Definition GetLocalNodeIdentityBytes : GoM Manager PubBytes :=
  locked (l ← GetLocalNode; n ← node_at l; mret (id_Bytes (Identity n))).
Definition GetLocalNodeIdentityPrv : GoM Manager (option Prv) :=
  locked (l ← GetLocalNode; n ← node_at l; mret (id_Prv (Identity n))).
Definition GetLocalNodeRelayRate : GoM Manager Z :=
  locked (l ← GetLocalNode; n ← node_at l; mret (RelayRate n)).
Definition GetLocalNodeAddresses : GoM Manager (list Multiaddr) :=
  l ← GetLocalNode; n ← node_at l; mret (Addresses n).

(** A random address: the first of a shuffled copy. *)
Definition GetLocalNodeAddress (shuffle : list Multiaddr → list Multiaddr)
    : GoM Manager Multiaddr :=
  addys ← GetLocalNodeAddresses; lift (goindex (shuffle addys) 0).

Definition MatchesLocalNodeAddress (ap : option Multiaddr) : GoM Manager bool :=
  addys ← GetLocalNodeAddresses;
  match ap with
  | None => match addys with [] => mret false | _ => panicM PNil end
  | Some a => mret (bool_decide (a ∈ addys))
  end.

Definition SetLocalNode (n : loc) : GoM Manager unit :=
  locked (s ← get; l ← lift (goset (nodes s) 0 n); upd (with_nodes l)).

Definition AddLocalNodeAddresses (addr : list Multiaddr) : GoM Manager unit :=
  locked (
    match addr with
    | [] => mret tt
    | _ => l ← GetLocalNode; n ← node_at l; set_node l (with_Addresses (Addresses n ++ addr) n)
    end).
Definition AddLocalNodeAddress (addr : Multiaddr) : GoM Manager unit :=
  locked (l ← GetLocalNode; n ← node_at l; set_node l (with_Addresses (Addresses n ++ [addr]) n)).

(** [RemoveLocalNodeAddress]: the copy starts with as many nil addresses as there
    were and collects the addresses that are equal; calling [Equal] on one of the
    nils later panics, so an address here is an option. *)
Definition removed_addresses (addr : Multiaddr) (l : list Multiaddr) : list (option Multiaddr) :=
  replicate (length l) None ++ (Some <$> filter (λ v, v = addr) l).

Definition AddServiceToLocalNode (s : ServiceR) : GoM Manager (option error) :=
  locked (l ← GetLocalNode; on_node l (AddService s)).
Definition SendFromLocalNode (port : Z) (b : bytes) : GoM Manager (option error) :=
  locked (l ← GetLocalNode; on_node l (SendTo port b)).

Definition NodesLen : GoM Manager Z := locked (s ← get; mret (zlen (nodes s))).

Definition FindNodeByID (i : ID) : GoM Manager (option loc) :=
  locked (s ← get; find_node (λ n, holds (n_ID n = i)) (nodes s)).
Definition FindNodeByIdentity (id : Pub) : GoM Manager (option loc) :=
  locked (s ← get; find_node (λ n, Ret (Pub_Equals (id_Pub (Identity n)) id)) (nodes s)).
Definition FindNodeByIndex (i : Z) : GoM Manager loc :=
  locked (s ← get; lift (goindex (nodes s) i)).

(** The addresses are compared in their string forms. *)
Definition FindNodeByAddrPort (String : Multiaddr → string) (id : string)
    : GoM Manager (option loc) :=
  locked (s ← get; find_node (λ n, holds (Exists (λ a, String a = id) (Addresses n))) (nodes s)).

Definition index_of (l : loc) (ls : list loc) : nat :=
  default 0%nat (fst <$> list_find (λ x, x = l) ls).

Fixpoint find_index (p : Node → bool) (l : list loc) : GoM Manager (option nat) :=
  match l with
  | [] => mret None
  | x :: l => n ← node_at x;
              if p n then mret (Some 0%nat) else i ← find_index p l; mret (S <$> i)
  end.

Definition DeleteNodeByAddrPort (String : Multiaddr → string) (ip : string)
    : GoM Manager (option error) :=
  locked (
    s ← get;
    i ← find_index (λ n, bool_decide (Exists (λ a, String a = ip) (Addresses n))) (nodes s);
    match i with
    | Some i => l ← lift (RemovePacket (nodes s) (Z.of_nat i)); upd (with_nodes l) ;; mret None
    | None => mret (Some (Errorf "node with ip %v not found" []))
    end).

(** The error is set before the search and not cleared when the node is found. *)
Definition DeleteNodeByID (ii : ID) : GoM Manager (option error) :=
  locked (
    s ← get;
    i ← find_index (λ n, bool_decide (n_ID n = ii)) (nodes s);
    (match i with
     | Some i => l ← lift (RemovePacket (nodes s) (Z.of_nat i)); upd (with_nodes l)
     | None => mret tt
     end) ;;
    mret (Some (Errorf "id %x not found" []))).

(** [ForEachNode]: all nodes but the first, until the function says stop. *)
Fixpoint each_node (fn : loc → GoM Manager bool) (l : list loc) : GoM Manager unit :=
  match l with
  | [] => mret tt
  | x :: l => b ← fn x; if b : bool then mret tt else each_node fn l
  end.
Definition ForEachNode (fn : loc → GoM Manager bool) : GoM Manager unit :=
  locked (s ← get; each_node fn (drop 1 (nodes s))).

(** ** Payments *)

(** The debug line names the local node. *)
Definition AddPendingPayment (np : Payment) : GoM Manager unit :=
  locked (l ← GetLocalNode; _ ← node_at l;
          upd (λ s, with_Pending (Payments_Add (sm_PendingPayments s) np) s)).
Definition DeletePendingPayment (preimage : Hash) : GoM Manager unit :=
  locked (upd (λ s, with_Pending (Payments_Delete (sm_PendingPayments s) preimage) s)).
Definition ClearPendingPayments : GoM Manager unit := upd (with_Pending []).
Definition FindPendingPayment (id : ID) : GoM Manager (option Payment) :=
  locked (s ← get; mret (Payments_Find (sm_PendingPayments s) id)).
Definition FindPendingPreimage (pi : Hash) : GoM Manager (option Payment) :=
  locked (s ← get; mret (Payments_FindPreimage (sm_PendingPayments s) pi)).

(** ** Sessions *)

(** [CircuitCache.Add] *)
Definition Cache_Add (sc : gmap ID Circuit) (id : ID) (hop : Z) (s : loc)
    : Out (gmap ID Circuit) :=
  let sce := default NewCircuit (sc !! id) in
  sce ← goset sce hop (Some s); Ret (<[id := sce]> sc).

Definition AddSession (s : loc) : GoM Manager unit :=
  locked (
    d ← data_at s;
    m ← get;
    dupe ← find_data (λ x, holds (Keys_Bytes (d_Header x) = Keys_Bytes (d_Header d))) (Sessions m);
    match dupe with
    | Some _ => mret tt
    | None =>
        upd (λ m, with_Sessions (Sessions m ++ [s]) m) ;;
        if bool_decide (d_Hop d < 5) then
          n ← node_at (d_Node d);
          m ← get;
          c ← lift (Cache_Add (CircuitCache m) (n_ID n) (d_Hop d) s);
          upd (with_Cache c)
        else mret tt
    end).

Definition ClearSessions : GoM Manager unit :=
  s ← get; l ← lift (goslice (Sessions s) 0 1); upd (with_Sessions l).

Definition FindSession (p : Data → Out bool) : GoM Manager (option loc) :=
  locked (s ← get; find_data p (Sessions s)).

Definition FindSessionByHeader (prvKey : option Prv) : GoM Manager (option loc) :=
  FindSession (λ d, match prvKey with
                    | Some k => Ret (Prv_Equals (Keys_Prv (d_Header d)) k)
                    | None => Panic PNil
                    end).
Definition FindSessionByHeaderPub (pubKey : option Pub) : GoM Manager (option loc) :=
  FindSession (λ d, match pubKey with
                    | Some k => Ret (Pub_Equals (Keys_Pub (d_Header d)) k)
                    | None => Panic PNil
                    end).
Definition FindSessionByPubkey (id : PubBytes) : GoM Manager (option loc) :=
  FindSession (λ d, holds (Keys_Bytes (d_Header d) = id)).
Definition FindSessionPreimage (pr : Hash) : GoM Manager (option loc) :=
  FindSession (λ d, holds (d_Preimage d = pr)).

(** [IterateSessions]: the function runs with the mutex held. *)
Fixpoint each_session (fn : loc → GoM Manager bool) (l : list loc) : GoM Manager unit :=
  match l with
  | [] => mret tt
  | x :: l => b ← fn x; if b : bool then mret tt else each_session fn l
  end.
Definition IterateSessions (fn : loc → GoM Manager bool) : GoM Manager unit :=
  locked (s ← get; each_session fn (Sessions s)).

(** [DecSats]: the debug line names the first address of the session's node. *)
Definition DecSats (l : loc) (sats : Z) : GoM Manager bool :=
  d ← data_at l;
  if bool_decide (d_Remaining d < sats) then mret false
  else
    n ← node_at (d_Node d);
    _ ← lift (goindex (Addresses n) 0);
    set_data l (with_Remaining (d_Remaining d - sats) d) ;;
    mret true.

Definition IncSats (l : loc) (sats : Z) : GoM Manager unit :=
  d ← data_at l; set_data l (with_Remaining (wrapu 64 (d_Remaining d + sats)) d).

Definition DecSession (id : PubBytes) (msats : Z) : GoM Manager bool :=
  sess ← FindSessionByPubkey id;
  match sess with
  | Some l => locked (DecSats l (wrapu 64 (Z.quot (Z.quot msats 1024) 1024)))
  | None => mret false
  end.

Definition IncSession (id : PubBytes) (msats : Z) : GoM Manager unit :=
  sess ← FindSessionByPubkey id;
  match sess with Some l => locked (IncSats l msats) | None => mret tt end.

Definition GetNodeCircuit (id : ID) : GoM Manager (option Circuit) :=
  locked (s ← get; mret (CircuitCache s !! id)).

Definition GetSessionByIndex (i : Z) : GoM Manager (option loc) :=
  locked (s ← get;
    if bool_decide (i < zlen (Sessions s)) then x ← lift (goindex (Sessions s) i); mret (Some x)
    else mret None).

Fixpoint sessions_at (hop : Z) (l : list loc) : GoM Manager (list loc) :=
  match l with
  | [] => mret []
  | x :: l => d ← data_at x; r ← sessions_at hop l;
              mret (if bool_decide (d_Hop d = hop) then x :: r else r)
  end.
Definition GetSessionsAtHop (hop : Z) : GoM Manager (list loc) :=
  locked (s ← get; sessions_at hop (Sessions s)).

(** [DeleteSession] ranges over the indices the list had at the start while it
    takes sessions out. *)
Fixpoint delete_session_loop (k : nat) (i : Z) (id : PubBytes) : GoM Manager unit :=
  match k with
  | O => mret tt
  | S k =>
      s ← get;
      l ← lift (goindex (Sessions s) i);
      d ← data_at l;
      (if bool_decide (Keys_Bytes (d_Header d) = id) then
         n ← node_at (d_Node d);
         (match CircuitCache s !! n_ID n with
          | None => panicM PNil
          | Some c => c ← lift (goset c (d_Hop d) None);
                      upd (λ s, with_Cache (<[n_ID n := c]> (CircuitCache s)) s)
          end) ;;
         r ← lift (RemovePacket (Sessions s) i);
         upd (with_Sessions r)
       else mret tt) ;;
      delete_session_loop k (i + 1) id
  end.
Definition DeleteSession (id : PubBytes) : GoM Manager unit :=
  locked (s ← get; delete_session_loop (length (Sessions s)) 0 id).

Fixpoint indices_of_node (id : ID) (l : list loc) (i : nat) : GoM Manager (list nat) :=
  match l with
  | [] => mret []
  | x :: l => d ← data_at x; n ← node_at (d_Node d); r ← indices_of_node id l (S i);
              mret (if bool_decide (n_ID n = id) then i :: r else r)
  end.

(** A session is kept if some found index is not its own. *)
Definition keep_sessions (found : list nat) (l : list loc) : list loc :=
  snd <$> filter (λ x, Exists (λ j, x.1 ≠ j) found) (imap pair l).

Definition DeleteNodeAndSessions (id : ID) : GoM Manager unit :=
  locked (
    s ← get;
    match CircuitCache s !! id with
    | None => mret tt
    | Some _ =>
        upd (λ s, with_Cache (delete id (CircuitCache s)) s) ;;
        i ← find_index (λ n, bool_decide (n_ID n = id)) (nodes s);
        (match i with
         | Some i => l ← lift (RemovePacket (nodes s) (Z.of_nat i)); upd (with_nodes l)
         | None => mret tt
         end) ;;
        found ← indices_of_node id (Sessions s) 0;
        upd (with_Sessions (keep_sessions found (Sessions s)))
    end).

(** [FindCloaked]: header key, payload key, session, identity. *)
Definition FindCloaked (clk : CloakedPubKey)
    : GoM Manager (option Prv * option Prv * option loc * bool) :=
  let b : Blinder := arr_of 4 (take 4 (arr_list clk)) in
  ident ← GetLocalNodeIdentityBytes;
  if bool_decide (Cloak b ident = clk) then
    hdr ← GetLocalNodeIdentityPrv; mret (hdr, None, None, true)
  else
    sess ← FindSession (λ d, holds (Cloak b (Keys_Bytes (d_Header d)) = clk));
    match sess with
    | Some l => d ← data_at l;
                mret (Some (Keys_Prv (d_Header d)), Some (Keys_Prv (d_Payload d)), Some l, false)
    | None => mret (None, None, None, false)
    end.

(** [UpdateSessionCache] *)
Fixpoint add_circuits (l : list loc) : GoM Manager unit :=
  match l with
  | [] => mret tt
  | x :: l =>
      n ← node_at x;
      s ← get;
      (match CircuitCache s !! n_ID n with
       | Some _ => mret tt
       | None => upd (λ s, with_Cache (<[n_ID n := NewCircuit]> (CircuitCache s)) s)
       end) ;;
      add_circuits l
  end.
Fixpoint place_sessions (l : list loc) : GoM Manager unit :=
  match l with
  | [] => mret tt
  | x :: l =>
      d ← data_at x; n ← node_at (d_Node d);
      s ← get;
      (match CircuitCache s !! n_ID n with
       | None => panicM PNil
       | Some c => c ← lift (goset c (d_Hop d) (Some x));
                   upd (λ s, with_Cache (<[n_ID n := c]> (CircuitCache s)) s)
       end) ;;
      place_sessions l
  end.
Definition UpdateSessionCache : GoM Manager unit :=
  locked (s ← get; add_circuits (nodes s) ;; place_sessions (Sessions s)).

(** ** Choosing hops ([select.go], [send.go]) *)

Section Select.
(** The shuffles drawn, the string form of an address, and its coloured form. *)
Context (shuffleA : list Multiaddr → list Multiaddr).
Context (shuffleS : list (option loc) → list (option loc)).
Context (String Sprint : Multiaddr → string).

Definition GetLocalNodeAddressString : GoM Manager string :=
  a ← GetLocalNodeAddress shuffleA; mret (Sprint a).

Definition header_of (s : Manager) (x : loc) : option PubBytes :=
  (λ d, Keys_Bytes (d_Header d)) <$> dataAt s !! x.

(** The sessions that are not nil and not among those the caller has. *)
Definition candidates (s : Manager) (have : list (option loc)) : list (option loc) :=
  Some <$> filter (λ x, is_Some (header_of s x) ∧
                        Forall (λ y, (y ≫= header_of s) = None ∨ (y ≫= header_of s) ≠ header_of s x) have)
             (Sessions s).

(** The comparison of addresses decides nothing, but it may index out of range:
    each address of the sessions chosen so far against the one at the same index
    of the candidate's node. *)
Fixpoint compare_addresses (addrs : list Multiaddr) (a : Z) (w : loc) : GoM Manager unit :=
  match addrs with
  | [] => mret tt
  | x :: addrs =>
      la ← GetLocalNodeAddressString;
      (if bool_decide (String x = la) then mret tt
       else d ← data_at w; n ← node_at (d_Node d); _ ← lift (goindex (Addresses n) a); mret tt) ;;
      compare_addresses addrs (a + 1) w
  end.
Fixpoint compare_chosen (so : list (option loc)) (w : loc) : GoM Manager unit :=
  match so with
  | [] => mret tt
  | None :: _ => panicM PNil
  | Some v :: so =>
      d ← data_at v; n ← node_at (d_Node d);
      compare_addresses (Addresses n) 0 w ;; compare_chosen so w
  end.

(** The loop [for { ... }] over the candidates for position [i].  The cursor moves
    forward, wraps to the start behind a candidate of another hop and does not
    wrap behind one that is taken; [None] is a loop that does not end. *)
Fixpoint pick (fuel : nat) (hop : Z) (i : nat) (so ws : list (option loc)) (cur : Z) (s : Manager)
    : option (Out (list (option loc) * list (option loc))) :=
  match fuel with
  | O => None
  | S fuel =>
      match goindex ws cur with
      | Panic p => Some (Panic p)
      | Ret None => pick fuel hop i so ws (cur + 1) s
      | Ret (Some l) =>
          match so !! i, dataAt s !! l with
          | None, _ => Some (Panic PIndex)
          | Some (Some _), _ => Some (Ret (so, ws))
          | Some None, None => Some (Panic PNil)
          | Some None, Some d =>
              if bool_decide (d_Hop d = hop) then
                Some (r ← compare_chosen (take i so) l s;
                      Ret (<[i := Some l]> so, <[Z.to_nat cur := None]> ws))
              else
                let cur := cur + 1 in
                pick fuel hop i so ws (if bool_decide (cur = zlen ws) then 0 else cur) s
          end
      end
  end.

Fixpoint select_loop (hops : list Z) (i : nat) (so ws : list (option loc)) (s : Manager)
    : option (Out (list (option loc))) :=
  match hops with
  | [] => Some (Ret so)
  | hop :: hops =>
      match pick (S (length ws)) hop i so ws 0 s with
      | None => None
      | Some (Panic p) => Some (Panic p)
      | Some (Ret (so, ws)) => select_loop hops (S i) so ws s
      end
  end.

(** The debug line at the end lists the addresses of all nodes chosen. *)
Fixpoint list_addresses (so : list (option loc)) : GoM Manager unit :=
  match so with
  | [] => mret tt
  | None :: _ => panicM PNil
  | Some v :: so => d ← data_at v; _ ← node_at (d_Node d); list_addresses so
  end.

(** [SelectHops] fills the caller's slice and returns it; a length mismatch is
    logged and gives nil. *)
Definition SelectHops (hops : list Z) (alreadyHave : list (option loc)) (s : Manager)
    : option (Out (list (option loc) * Manager)) :=
  match GetLocalNodeAddressString s with
  | Panic p => Some (Panic p)
  | Ret (_, s) =>
      match Lock s with
      | Panic p => Some (Panic p)
      | Ret (_, s) =>
          let ws := shuffleS (candidates s alreadyHave) in
          if bool_decide (length alreadyHave ≠ length hops) then
            Some ('(_, s) ← Unlock s; Ret ([], s))
          else
            match select_loop hops 0 alreadyHave ws s with
            | None => None
            | Some so => Some (so ← so; '(_, s) ← list_addresses so s; '(_, s) ← Unlock s; Ret (so, s))
            end
      end
  end.

(** [SelectUnusedCircuit]: one pass over the cache in the order [ids]; [c] are the
    nodes chosen so far, at most five. *)
Fixpoint unused_pass (ids : list ID) (nodeList : list loc) (c : list loc) : GoM Manager (list loc) :=
  match ids with
  | [] => mret c
  | id :: ids =>
      if bool_decide (length c = 5%nat) then mret c
      else
        s ← get;
        circuit ← lift (match CircuitCache s !! id with Some x => Ret x | None => Panic PNil end);
        slot ← lift (goindex circuit (zlen c));
        c ← match slot with
            | Some _ => mret c
            | None =>
                j ← find_node (λ n, holds (n_ID n = id)) nodeList;
                mret (match j with Some n => c ++ [n] | None => c end)
            end;
        unused_pass ids nodeList c
  end.

(** [order k] is the order in which the map is iterated in pass [k]. *)
Fixpoint unused_loop (fuel k : nat) (order : nat → list ID) (nodeList c : list loc) (s : Manager)
    : option (Out (list loc * Manager)) :=
  if bool_decide (length c < 5)%nat then
    match fuel with
    | O => None
    | S fuel =>
        match unused_pass (order k) nodeList c s with
        | Panic p => Some (Panic p)
        | Ret (c, s) => unused_loop fuel (S k) order nodeList c s
        end
    end
  else Some (Ret (c, s)).

Definition SelectUnusedCircuit (fuel : nat) (order : Manager → nat → list ID) (s : Manager)
    : option (Out (list loc * Manager)) :=
  match (Lock ;; s ← get;
         (if bool_decide (nodes s = []) then panicM (PMsg "makeslice: len out of range") else mret tt) ;;
         add_circuits (drop 1 (nodes s)) ;; mret (drop 1 (nodes s))) s with
  | Panic p => Some (Panic p)
  | Ret (nodeList, s) =>
      match unused_loop fuel 0 (order s) nodeList [] s with
      | None => None
      | Some r => Some ('(c, s) ← r; '(_, s) ← Unlock s; Ret (c, s))
      end
  end.

Definition StandardCircuit : list Z := [0; 1; 2; 3; 4; 5].

(** [Send]: the first node one of whose addresses, drawn at random, is [addr]. *)
Definition Send (addr : option Multiaddr) (b : bytes) : GoM Manager unit :=
  match addr with
  | None => panicM PNil
  | Some addr =>
      ForEachNode (λ l,
        n ← node_at l;
        if bool_decide (zlen (Addresses n) < 1) then mret false
        else
          addy ← lift (goindex (String <$> shuffleA (Addresses n)) 0);
          if bool_decide (String addr = addy) then
            _ ← GetLocalNodeAddressString;
            match n_Transport n with
            | None => panicM PNil
            | Some t => set_node l (with_Transport (Some (tpt_Send t b).1) n) ;; mret true
            end
          else mret false)
  end.
End Select.
End Sess.
