(* ===== verification/SessFacts.v ===== *)
(** * The session manager: invariant and behaviour

    The manager's state is well formed ([wf]) when its mutex is free, its pointers
    point into the heaps, no two sessions have one header key, and the circuit
    cache agrees with the sessions.  The operations are specified against it. *)

From S2P Require Export Sess.

Section Facts.
Context {cr : Crypto} {ma : Multiaddrs} {pe : Peers} {tp : Transports}.

(** ** Stepping through methods *)

Lemma data_at_run (s : Manager) x d : dataAt s !! x = Some d → data_at x s = Ret (d, s).
Proof. intros E. unfold data_at. by rewrite E. Qed.
Lemma node_at_run (s : Manager) x n : nodeAt s !! x = Some n → node_at x s = Ret (n, s).
Proof. intros E. unfold node_at. by rewrite E. Qed.

Lemma locked_run {A} (m : GoM Manager A) s a s' :
  sm_locked s = false → m (with_locked true s) = Ret (a, s') → sm_locked s' = true →
  locked m s = Ret (a, with_locked false s').
Proof.
  intros Hl E Hl'. unfold locked. erewrite bind_run; [|unfold Lock; by rewrite Hl].
  erewrite bind_run by exact E. erewrite bind_run; [done|]. unfold Unlock. by rewrite Hl'.
Qed.

Lemma locked_panic {A} (m : GoM Manager A) s p :
  sm_locked s = false → m (with_locked true s) = Panic p → locked m s = Panic p.
Proof.
  intros Hl E. unfold locked. erewrite bind_run; [|unfold Lock; by rewrite Hl].
  by erewrite bind_panic by exact E.
Qed.

Lemma relocked (s : Manager) b : sm_locked s = false → with_locked false (with_locked b s) = s.
Proof. destruct s; cbn. by intros ->. Qed.

(** A method that only reads. *)
Lemma locked_read {A} (m : GoM Manager A) s a :
  sm_locked s = false → m (with_locked true s) = Ret (a, with_locked true s) →
  locked m s = Ret (a, s).
Proof. intros Hl E. erewrite locked_run; [by rewrite relocked|done|exact E|done]. Qed.

(** ** Searching the sessions *)

(** The test applied to a pointer. *)
Definition sel (s : Manager) (q : Data → bool) (x : loc) : bool :=
  match dataAt s !! x with Some d => q d | None => false end.

Definition live (s : Manager) (x : loc) : Prop := is_Some (dataAt s !! x).

Lemma find_data_run (p : Data → Out bool) (q : Data → bool) s l :
  (∀ d, p d = Ret (q d)) → Forall (live s) l →
  find_data p l s = Ret (snd <$> list_find (λ x, sel s q x = true) l, s).
Proof.
  intros Hpq. induction 1 as [|x l [d Hd] Hl IH]; [done|].
  cbn [find_data]. rewrite (bind_run _ _ _ _ _ (data_at_run s x d Hd)).
  rewrite Hpq. change ((lift (Ret (q d)) ≫= ?f) s) with (f (q d) s). cbn [list_find].
  assert (sel s q x = q d) as Es by (unfold sel; by rewrite Hd). destruct (q d) eqn:Eq.
  - by rewrite decide_True.
  - rewrite decide_False by congruence. rewrite IH. cbn.
    by destruct (list_find _ l) as [[i y]|].
Qed.

(** ** Well-formed managers *)

Record wf (s : Manager) : Prop := {
  wf_free : sm_locked s = false;
  wf_nodes : Forall (λ x, is_Some (nodeAt s !! x)) (nodes s);
  wf_local : nodes s ≠ [];
  wf_sessions : ∀ x, x ∈ Sessions s → ∃ d n, dataAt s !! x = Some d ∧ nodeAt s !! d_Node d = Some n;
  wf_distinct : NoDup (header_of s <$> Sessions s);
  wf_cache : ∀ id c h x, CircuitCache s !! id = Some c → c !! h = Some (Some x) →
    ∃ d n, dataAt s !! x = Some d ∧ nodeAt s !! d_Node d = Some n ∧
           n_ID n = id ∧ d_Hop d = Z.of_nat h;
  wf_circuits : ∀ id c, CircuitCache s !! id = Some c → length c = 5%nat;
  wf_cached : ∀ x d n, x ∈ Sessions s → dataAt s !! x = Some d → nodeAt s !! d_Node d = Some n →
    0 ≤ d_Hop d < 5 → ∃ c y, CircuitCache s !! n_ID n = Some c ∧
                            c !! Z.to_nat (d_Hop d) = Some (Some y);
}.

Lemma wf_live s : wf s → Forall (live s) (Sessions s).
Proof.
  intros W. apply Forall_forall. intros x Hx.
  destruct (wf_sessions s W x Hx) as (d & _ & Hd & _). by exists d.
Qed.

(** A search of a well-formed manager's sessions returns the first that fits and
    changes nothing. *)
Lemma FindSession_run (p : Data → Out bool) (q : Data → bool) s :
  (∀ d, p d = Ret (q d)) → wf s →
  FindSession p s = Ret (snd <$> list_find (λ x, sel s q x = true) (Sessions s), s).
Proof.
  intros Hpq W. unfold FindSession. apply locked_read; [apply W|].
  change ((get ≫= ?f) ?s) with (f s s). cbn beta.
  rewrite (find_data_run p q) by (done || apply (wf_live s W)). done.
Qed.

Definition by_key (id : PubBytes) (d : Data) : bool :=
  bool_decide (Keys_Bytes (d_Header d) = id).

(** With distinct header keys there is one session of a key. *)
Lemma find_by_key s x d :
  wf s → x ∈ Sessions s → dataAt s !! x = Some d →
  ∃ i, list_find (λ y, sel s (by_key (Keys_Bytes (d_Header d))) y = true) (Sessions s)
       = Some (i, x).
Proof.
  intros W Hx Hd. apply list_elem_of_lookup in Hx as [i Hi]. exists i.
  apply list_find_Some. split; [done|]. split.
  { unfold sel. rewrite Hd. by apply bool_decide_true. }
  intros j y Hj Hlt Hy. unfold sel in Hy. destruct (dataAt s !! y) as [e|] eqn:He; [|done].
  apply bool_decide_eq_true in Hy. enough (i = j) by lia.
  apply (proj1 (NoDup_alt _) (wf_distinct s W) i j (Some (Keys_Bytes (d_Header d)))).
  - rewrite list_lookup_fmap, Hi. cbn. unfold header_of. by rewrite Hd.
  - rewrite list_lookup_fmap, Hj. cbn. unfold header_of. rewrite He. cbn. by rewrite Hy.
Qed.

(** ** Adding a session *)

Definition slot (s : Manager) (id : ID) (h : Z) : option loc :=
  CircuitCache s !! id ≫= λ c, c !! Z.to_nat h ≫= λ o, o.

(** The manager with the session at [x] appended, and cached unless it is a return
    session. *)
Definition added (x : loc) (d : Data) (n : Node) (s : Manager) : Manager :=
  let s := with_Sessions (Sessions s ++ [x]) s in
  if bool_decide (d_Hop d < 5) then
    with_Cache (<[n_ID n := <[Z.to_nat (d_Hop d) := Some x]>
                              (default NewCircuit (CircuitCache s !! n_ID n))]> (CircuitCache s)) s
  else s.

Lemma dupe_search s d :
  wf s →
  find_data (λ x, holds (Keys_Bytes (d_Header x) = Keys_Bytes (d_Header d))) (Sessions s)
    (with_locked true s)
  = Ret (snd <$> list_find (λ x, sel s (by_key (Keys_Bytes (d_Header d))) x = true) (Sessions s),
         with_locked true s).
Proof.
  intros W.
  rewrite (find_data_run _ (by_key (Keys_Bytes (d_Header d))) (with_locked true s)).
  - done.
  - done.
  - exact (wf_live s W).
Qed.

Lemma circuit_length s id : wf s → length (default NewCircuit (CircuitCache s !! id)) = 5%nat.
Proof.
  intros W. destruct (CircuitCache s !! id) as [c|] eqn:E; cbn; [|done].
  by apply (wf_circuits s W id).
Qed.

Lemma AddSession_fresh s x d n :
  wf s → dataAt s !! x = Some d → nodeAt s !! d_Node d = Some n → 0 ≤ d_Hop d →
  Some (Keys_Bytes (d_Header d)) ∉ header_of s <$> Sessions s →
  AddSession x s = Ret (tt, added x d n s).
Proof.
  intros W Hd Hn Hh Hfresh. unfold AddSession.
  assert (sm_locked (added x d n (with_locked true s)) = true) as HL
    by (unfold added; by case_bool_decide).
  assert (with_locked false (added x d n (with_locked true s)) = added x d n s) as <-.
  { unfold added. destruct s; cbn in *. pose proof (wf_free _ W) as F. cbn in F. subst.
    by case_bool_decide. }
  refine (locked_run _ _ _ _ (wf_free s W) _ HL).
  rewrite (bind_run _ _ _ d (with_locked true s)) by (by apply data_at_run).
  change ((get ≫= ?f) (with_locked true s)) with (f (with_locked true s) (with_locked true s)).
  cbn beta. erewrite bind_run by (exact (dupe_search s d W)).
  assert (list_find (λ x, sel s (by_key (Keys_Bytes (d_Header d))) x = true) (Sessions s) = None) as ->.
  { apply list_find_None, Forall_forall. intros y Hy E. apply Hfresh.
    apply list_elem_of_fmap. exists y. split; [|done]. unfold sel, header_of in *.
    destruct (dataAt s !! y); [|done]. apply bool_decide_eq_true in E. cbn. by rewrite E. }
  cbn [fmap option_fmap option_map]. unfold added. set (s1 := with_Sessions _ (with_locked true s)).
  rewrite (bind_run _ _ _ tt s1) by done. case_bool_decide as H5; [|done].
  rewrite (bind_run _ _ _ n s1) by (by apply node_at_run).
  change ((get ≫= ?f) s1) with (f s1 s1). cbn beta. unfold Cache_Add, goset.
  change (CircuitCache s1) with (CircuitCache s).
  rewrite bool_decide_true; [done|]. unfold zlen. rewrite circuit_length by done. lia.
Qed.

Lemma AddSession_dupe s x d :
  wf s → dataAt s !! x = Some d → Some (Keys_Bytes (d_Header d)) ∈ header_of s <$> Sessions s →
  AddSession x s = Ret (tt, s).
Proof.
  intros W Hd Hdup. unfold AddSession. apply locked_read; [apply W|].
  rewrite (bind_run _ _ _ d (with_locked true s)) by (by apply data_at_run).
  change ((get ≫= ?f) (with_locked true s)) with (f (with_locked true s) (with_locked true s)).
  cbn beta. erewrite bind_run by (exact (dupe_search s d W)).
  apply list_elem_of_fmap in Hdup as (y & Ey & Hy).
  destruct (list_find _ _) as [[i z]|] eqn:E; [done|].
  apply list_find_None in E. rewrite Forall_forall in E. destruct (E y Hy).
  unfold sel, header_of in *. destruct (dataAt s !! y); [|done]. cbn in Ey. injection Ey as Ey.
  by apply bool_decide_eq_true.
Qed.

Lemma new_circuit_slot h : NewCircuit !! h ≫= (λ o : option loc, o) = None.
Proof. do 5 (destruct h as [|h]; [done|]). done. Qed.

Lemma added_slot x d n s id h :
  wf s → 0 ≤ d_Hop d → 0 ≤ h →
  slot (added x d n s) id h
  = if decide (d_Hop d < 5 ∧ id = n_ID n ∧ h = d_Hop d) then Some x else slot s id h.
Proof.
  intros W Hh H0. unfold slot, added. case_bool_decide as H5; cycle 1.
  { rewrite decide_False by lia. done. }
  cbn. destruct (decide (id = n_ID n)) as [->|Hne].
  - rewrite lookup_insert_eq. cbn. destruct (decide (h = d_Hop d)) as [->|Hn].
    + rewrite decide_True by done. rewrite list_lookup_insert_eq; [done|].
      rewrite circuit_length by done. lia.
    + rewrite decide_False by naive_solver. rewrite list_lookup_insert_ne by lia.
      destruct (CircuitCache s !! n_ID n); [done|]. exact (new_circuit_slot (Z.to_nat h)).
  - rewrite lookup_insert_ne by done. rewrite decide_False by naive_solver. done.
Qed.

Lemma added_wf s x d n :
  wf s → dataAt s !! x = Some d → nodeAt s !! d_Node d = Some n → 0 ≤ d_Hop d →
  Some (Keys_Bytes (d_Header d)) ∉ header_of s <$> Sessions s →
  wf (added x d n s).
Proof.
  intros W Hd Hn Hh Hfresh.
  assert (nodeAt (added x d n s) = nodeAt s) as E1 by (unfold added; by case_bool_decide).
  assert (dataAt (added x d n s) = dataAt s) as E2 by (unfold added; by case_bool_decide).
  assert (Sessions (added x d n s) = Sessions s ++ [x]) as E3 by (unfold added; by case_bool_decide).
  assert (nodes (added x d n s) = nodes s) as E4 by (unfold added; by case_bool_decide).
  constructor; rewrite ?E1, ?E2, ?E3, ?E4; try apply W.
  - unfold added. case_bool_decide; apply W.
  - intros y [Hy| ->%list_elem_of_singleton]%elem_of_app; [by apply W|]. by exists d, n.
  - unfold header_of. rewrite E2, fmap_app. apply NoDup_app. split; [apply W|].
    split; [|apply NoDup_singleton]. intros h Hin ->%list_elem_of_singleton.
    rewrite Hd in Hin. by apply Hfresh.
  - intros id c h y Hc Hs. unfold added in Hc. case_bool_decide as H5; cycle 1.
    { by apply (wf_cache s W id c). }
    cbn in Hc. destruct (decide (id = n_ID n)) as [->|Hne]; cycle 1.
    { rewrite lookup_insert_ne in Hc by done. by apply (wf_cache s W id c). }
    rewrite lookup_insert_eq in Hc. injection Hc as <-.
    destruct (decide (h = Z.to_nat (d_Hop d))) as [->|Hnh].
    + rewrite list_lookup_insert_eq in Hs by (rewrite circuit_length by done; lia).
      injection Hs as <-. exists d, n. rewrite Z2Nat.id by lia. done.
    + rewrite list_lookup_insert_ne in Hs by done.
      destruct (CircuitCache s !! n_ID n) as [c|] eqn:Ec; [by apply (wf_cache s W (n_ID n) c)|].
      pose proof (new_circuit_slot h) as N. cbn in Hs, N. by rewrite Hs in N.
  - intros id c Hc. unfold added in Hc. case_bool_decide; [|by apply (wf_circuits s W id)].
    cbn in Hc. destruct (decide (id = n_ID n)) as [->|Hne]; cycle 1.
    { rewrite lookup_insert_ne in Hc by done. by apply (wf_circuits s W id). }
    rewrite lookup_insert_eq in Hc. injection Hc as <-. rewrite length_insert.
    by apply circuit_length.
  - intros y e m Hy He Hm Hr.
    enough (is_Some (slot (added x d n s) (n_ID m) (d_Hop e))) as [z Hz].
    { unfold slot in Hz. destruct (CircuitCache _ !! _) as [c|]; [|done]. cbn in Hz.
      destruct (c !! Z.to_nat (d_Hop e)) as [o|] eqn:Eo; [|done]. cbn in Hz. subst o. by exists c, z. }
    rewrite added_slot by (done || lia). case_decide as Hx; [by eexists|].
    apply elem_of_app in Hy as [Hy| ->%list_elem_of_singleton].
    + destruct (wf_cached s W y e m Hy He Hm Hr) as (c & z & Ec & Ez).
      exists z. unfold slot. rewrite Ec. cbn. by rewrite Ez.
    + exfalso. apply Hx. rewrite Hd in He. injection He as <-. rewrite Hn in Hm.
      injection Hm as <-. split; [lia|done].
Qed.

(** ** Balances *)

(** The credit [DecSession] takes for an amount in millisatoshi-bytes. *)
Definition charge (msats : Z) : Z := wrapu 64 (Z.quot (Z.quot msats 1024) 1024).

Definition with_balance (x : loc) (d : Data) (r : Z) (s : Manager) : Manager :=
  with_dataAt (<[x := with_Remaining r d]> (dataAt s)) s.

Lemma DecSession_found s x d n msats :
  wf s → x ∈ Sessions s → dataAt s !! x = Some d → nodeAt s !! d_Node d = Some n →
  Addresses n ≠ [] →
  DecSession (Keys_Bytes (d_Header d)) msats s
  = Ret (if decide (d_Remaining d < charge msats) then (false, s)
         else (true, with_balance x d (d_Remaining d - charge msats) s)).
Proof.
  intros W Hx Hd Hn Ha. unfold DecSession, FindSessionByPubkey.
  erewrite bind_run by (apply (FindSession_run _ (by_key (Keys_Bytes (d_Header d)))); done).
  destruct (find_by_key s x d W Hx Hd) as [i ->]. cbn [fmap option_fmap option_map snd].
  fold (charge msats). case_decide as Hr.
  - apply locked_read; [apply W|]. unfold DecSats.
    erewrite bind_run by (apply data_at_run; exact Hd). by rewrite bool_decide_true.
  - assert (with_locked false (with_balance x d (d_Remaining d - charge msats) (with_locked true s))
            = with_balance x d (d_Remaining d - charge msats) s) as <-.
    { destruct s; cbn. pose proof (wf_free _ W) as F. cbn in F. by subst. }
    refine (locked_run _ _ _ (with_balance x d (d_Remaining d - charge msats) (with_locked true s))
              (wf_free s W) _ eq_refl). unfold DecSats.
    erewrite bind_run by (apply data_at_run; exact Hd). rewrite bool_decide_false by done.
    erewrite bind_run by (apply node_at_run; exact Hn).
    destruct (Addresses n) as [|a l] eqn:EA; [done|].
    by rewrite (bind_run _ _ _ a (with_locked true s)).
Qed.

Lemma DecSession_unknown s id msats :
  wf s → Some id ∉ header_of s <$> Sessions s → DecSession id msats s = Ret (false, s).
Proof.
  intros W Hid. unfold DecSession, FindSessionByPubkey.
  erewrite bind_run by (apply (FindSession_run _ (by_key id)); done).
  assert (list_find (λ x, sel s (by_key id) x = true) (Sessions s) = None) as ->; [|done].
  apply list_find_None, Forall_forall. intros y Hy E. apply Hid.
  apply list_elem_of_fmap. exists y. split; [|done]. unfold sel, header_of in *.
  destruct (dataAt s !! y); [|done]. apply bool_decide_eq_true in E. cbn. by rewrite E.
Qed.

(** Changing a balance changes nothing else that the invariant speaks of. *)
Lemma with_balance_data s x d r y e :
  dataAt s !! x = Some d → dataAt (with_balance x d r s) !! y = Some e →
  ∃ e0, dataAt s !! y = Some e0 ∧ d_Node e = d_Node e0 ∧ d_Hop e = d_Hop e0 ∧
        d_Header e = d_Header e0.
Proof.
  intros Hd He. cbn in He. destruct (decide (y = x)) as [->|Hne].
  - rewrite lookup_insert_eq in He. injection He as <-. by exists d.
  - rewrite lookup_insert_ne in He by done. by exists e.
Qed.

Lemma with_balance_live s x d r y e :
  dataAt s !! x = Some d → dataAt s !! y = Some e →
  ∃ e', dataAt (with_balance x d r s) !! y = Some e' ∧ d_Node e' = d_Node e ∧
        d_Hop e' = d_Hop e ∧ d_Header e' = d_Header e.
Proof.
  intros Hd He. cbn. destruct (decide (y = x)) as [->|Hne].
  - rewrite lookup_insert_eq. eexists. split; [done|]. rewrite He in Hd. by injection Hd as ->.
  - rewrite lookup_insert_ne by done. by exists e.
Qed.

Lemma with_balance_wf s x d r :
  wf s → dataAt s !! x = Some d → wf (with_balance x d r s).
Proof.
  intros W Hd. constructor; try apply W.
  - intros y Hy. destruct (wf_sessions s W y Hy) as (e & n & He & Hn).
    destruct (with_balance_live s x d r y e Hd He) as (e' & He' & En & _).
    exists e', n. by rewrite En.
  - assert (header_of (with_balance x d r s) <$> Sessions s = header_of s <$> Sessions s) as E.
    { apply list_fmap_ext. intros i y _. unfold header_of.
      destruct (dataAt s !! y) as [e|] eqn:He.
      - destruct (with_balance_live s x d r y e Hd He) as (e' & -> & _ & _ & Eh). cbn. by rewrite Eh.
      - cbn. rewrite lookup_insert_ne by congruence. by rewrite He. }
    cbn [with_balance with_dataAt Sessions]. rewrite E. apply W.
  - intros id c h y Hc Hs. destruct (wf_cache s W id c h y Hc Hs) as (e & n & He & Hn & Hi & Hh).
    destruct (with_balance_live s x d r y e Hd He) as (e' & He' & En & Eh & _).
    exists e', n. rewrite En, Eh. done.
  - intros y e n Hy He Hn Hr.
    destruct (with_balance_data s x d r y e Hd He) as (e0 & He0 & En & Eh & _).
    rewrite En, Eh in *. by apply (wf_cached s W y e0 n).
Qed.

(** ** Cloaked keys *)

Definition matches (clk : CloakedPubKey) (d : Data) : bool :=
  Match clk (Keys_Bytes (d_Header d)).

Lemma local_node s : wf s → ∃ l n, goindex (nodes s) 0 = Ret l ∧ nodeAt s !! l = Some n.
Proof.
  intros W. pose proof (wf_local s W) as Hne. pose proof (wf_nodes s W) as HF.
  destruct (nodes s) as [|l ls]; [done|]. apply Forall_cons in HF as [[n Hn] _].
  by exists l, n.
Qed.

Lemma GetLocalNodeIdentityBytes_run s l n :
  wf s → goindex (nodes s) 0 = Ret l → nodeAt s !! l = Some n →
  GetLocalNodeIdentityBytes s = Ret (id_Bytes (Identity n), s) ∧
  GetLocalNodeIdentityPrv s = Ret (id_Prv (Identity n), s).
Proof.
  intros W Hl Hn. split; (apply locked_read; [apply W|]);
    (erewrite bind_run; [|unfold GetLocalNode; change ((get ≫= ?f) ?s) with (f s s); cbn;
                          unfold lift; rewrite Hl; done]);
    by erewrite bind_run by (apply node_at_run; exact Hn).
Qed.

Lemma FindCloaked_run s l n clk :
  wf s → goindex (nodes s) 0 = Ret l → nodeAt s !! l = Some n →
  FindCloaked clk s = Ret
    (if Match clk (id_Bytes (Identity n)) then (id_Prv (Identity n), None, None, true)
     else match snd <$> list_find (λ x, sel s (matches clk) x = true) (Sessions s) with
          | Some x =>
              match dataAt s !! x with
              | Some d => (Some (Keys_Prv (d_Header d)), Some (Keys_Prv (d_Payload d)), Some x, false)
              | None => (None, None, None, false)
              end
          | None => (None, None, None, false)
          end, s).
Proof.
  intros W Hl Hn. destruct (GetLocalNodeIdentityBytes_run s l n W Hl Hn) as [EB EP].
  unfold FindCloaked. erewrite bind_run by exact EB.
  assert (∀ k, bool_decide (Cloak (arr_of 4 (take 4 (arr_list clk))) k = clk) = Match clk k) as EM.
  { intros k. unfold Match. apply bool_decide_ext. split; intros E; symmetry; exact E. }
  rewrite EM. destruct (Match clk (id_Bytes (Identity n))).
  { by erewrite bind_run by exact EP. }
  erewrite bind_run; cycle 1.
  { apply (FindSession_run _ (matches clk)); [|done]. intros d. unfold holds. by rewrite EM. }
  destruct (list_find _ _) as [[i x]|] eqn:E; [|done]. cbn [fmap option_fmap option_map snd].
  apply list_find_Some in E as (_ & Hs & _). unfold sel in Hs.
  destruct (dataAt s !! x) as [d|] eqn:Ed; [|done].
  by erewrite bind_run by (apply data_at_run; exact Ed).
Qed.

(** ** Deleting sessions *)

Lemma goindex_lookup {A} (l : list A) (i : nat) x : l !! i = Some x → goindex l (Z.of_nat i) = Ret x.
Proof. intros E. apply goindex_some; [lia|]. by rewrite Nat2Z.id. Qed.

Lemma goindex_past {A} (l : list A) (i : nat) : (length l ≤ i)%nat → goindex l (Z.of_nat i) = Panic PIndex.
Proof.
  intros H. unfold goindex. rewrite bool_decide_true by lia. rewrite Nat2Z.id.
  by rewrite (proj2 (lookup_ge_None l i)).
Qed.

Lemma RemovePacket_mid {A} (pre post : list A) x i :
  i = length pre → RemovePacket (pre ++ x :: post) (Z.of_nat i) = Ret (pre ++ post).
Proof.
  intros ->. pose proof (zlen_app pre (x :: post)) as LA. unfold zlen in LA at 2 3. cbn [length] in LA.
  unfold RemovePacket. rewrite !goslice_in by lia. cbn [mbind Out_bind].
  rewrite Z.sub_0_r, Nat2Z.id, drop_0, take_app_length, drop_app_ge by lia.
  replace (Z.to_nat (Z.of_nat (length pre) + 1) - length pre)%nat with 1%nat by lia.
  cbn [drop]. f_equal. f_equal. apply take_ge. lia.
Qed.

(** Turns of the loop that do not match, and the turn that finds the list too
    short. *)
Lemma delete_session_skip k i id s x d :
  Sessions s !! i = Some x → dataAt s !! x = Some d → Keys_Bytes (d_Header d) ≠ id →
  delete_session_loop (S k) (Z.of_nat i) id s = delete_session_loop k (Z.of_nat (S i)) id s.
Proof.
  intros Hx Hd Hne. cbn [delete_session_loop].
  change ((get ≫= ?f) s) with (f s s). cbn beta.
  rewrite (bind_run _ _ _ x s) by (unfold lift; by rewrite (goindex_lookup _ _ _ Hx)).
  rewrite (bind_run _ _ _ d s) by (by apply data_at_run).
  rewrite bool_decide_false by done. rewrite (bind_run _ _ _ tt s) by done.
  f_equal. lia.
Qed.

Lemma delete_session_past k i id s :
  (length (Sessions s) ≤ i)%nat →
  delete_session_loop (S k) (Z.of_nat i) id s = Panic PIndex.
Proof.
  intros H. cbn [delete_session_loop]. change ((get ≫= ?f) s) with (f s s). cbn beta.
  apply bind_panic. unfold lift. by rewrite goindex_past.
Qed.

Definition other_key (id : PubBytes) (s : Manager) (x : loc) : Prop :=
  ∃ d, dataAt s !! x = Some d ∧ Keys_Bytes (d_Header d) ≠ id.

Lemma delete_session_skips j k i id s :
  (∀ m, (i ≤ m < i + j)%nat → ∃ x, Sessions s !! m = Some x ∧ other_key id s x) →
  delete_session_loop (j + k) (Z.of_nat i) id s = delete_session_loop k (Z.of_nat (i + j)) id s.
Proof.
  revert i; induction j as [|j IH]; intros i H; [by rewrite Nat.add_0_r|].
  destruct (H i ltac:(lia)) as (x & Hx & d & Hd & Hne). cbn [Nat.add].
  rewrite (delete_session_skip _ _ _ _ x d) by done. rewrite IH; [f_equal; lia|].
  intros m Hm. apply H. lia.
Qed.

(** The turn that matches: the cache slot is cleared and the session taken out. *)
Definition removed (x : loc) (d : Data) (n : Node) (c : list (option loc)) (rest : list loc)
    (s : Manager) : Manager :=
  with_Sessions rest (with_Cache (<[n_ID n := <[Z.to_nat (d_Hop d) := None]> c]> (CircuitCache s)) s).

Lemma delete_session_hit k pre post id s x d n c :
  Sessions s = pre ++ x :: post → dataAt s !! x = Some d → Keys_Bytes (d_Header d) = id →
  nodeAt s !! d_Node d = Some n → CircuitCache s !! n_ID n = Some c → 0 ≤ d_Hop d < zlen c →
  delete_session_loop (S k) (Z.of_nat (length pre)) id s
  = delete_session_loop k (Z.of_nat (S (length pre))) id (removed x d n c (pre ++ post) s).
Proof.
  intros El Hd Hk Hn Hc Hh. cbn [delete_session_loop].
  change ((get ≫= ?f) s) with (f s s). cbn beta.
  rewrite (bind_run _ _ _ x s); cycle 1.
  { unfold lift. erewrite goindex_lookup; [done|]. rewrite El. by apply list_lookup_middle. }
  rewrite (bind_run _ _ _ d s) by (by apply data_at_run).
  rewrite bool_decide_true by done.
  rewrite (bind_run _ _ _ tt (removed x d n c (pre ++ post) s)); [by f_equal; lia|].
  rewrite (bind_run _ _ _ n s) by (by apply node_at_run). rewrite Hc, El.
  unfold goset, lift. rewrite bool_decide_true by done. rewrite RemovePacket_mid by done. done.
Qed.

(** ** Deleting a node with its sessions *)

Section MineIndices.
Context (q : loc → bool).

Fixpoint mine_indices (l : list loc) (i : nat) : list nat :=
  match l with
  | [] => []
  | x :: l => if q x then i :: mine_indices l (S i) else mine_indices l (S i)
  end.

Lemma mine_indices_ge l i j : j ∈ mine_indices l i → (i ≤ j)%nat.
Proof.
  revert i; induction l as [|x l IH]; intros i; cbn; [by intros ?%not_elem_of_nil|].
  destruct (q x); [intros [->|H]%elem_of_cons; [lia|]|intros H]; apply IH in H; lia.
Qed.

Lemma mine_indices_length l i : length (mine_indices l i) = length (filter (λ x, q x = true) l).
Proof.
  revert i; induction l as [|x l IH]; intros i; [done|]. cbn [mine_indices]. rewrite filter_cons.
  destruct (q x) eqn:E; [rewrite decide_True by done|rewrite decide_False by congruence];
    cbn; by rewrite IH.
Qed.

Lemma keep_none l : keep_sessions [] l = [].
Proof.
  unfold keep_sessions. enough (filter (λ x : nat * loc, Exists (λ j, x.1 ≠ j) []) (imap pair l) = [])
    as -> by done.
  induction (imap pair l) as [|p m IH]; [done|]. rewrite filter_cons, decide_False; [done|].
  intros N; inversion N.
Qed.

Lemma keep_all found l : (∀ k, ∃ j, j ∈ found ∧ k ≠ j) → keep_sessions found l = l.
Proof.
  intros H. unfold keep_sessions. rewrite filter_keep.
  - clear H. enough (∀ f : nat → nat, snd <$> imap (λ i x, (f i, x)) l = l) as E by (by apply (E id)).
    induction l as [|x l IH]; intros f; [done|]. cbn. f_equal. apply (IH (f ∘ S)).
  - apply Forall_forall. intros [k y] _. apply Exists_exists. destruct (H k) as (j & Hj & Hne).
    by exists j.
Qed.

Lemma keep_one_gen l i j :
  mine_indices l i = [j] →
  snd <$> filter (λ x, Exists (λ j, x.1 ≠ j) [j]) (imap (λ k x, ((i + k)%nat, x)) l)
  = filter (λ x, q x = false) l.
Proof.
  assert (∀ l i j, (j < i)%nat → mine_indices l i = [] →
    snd <$> filter (λ x, Exists (λ j, x.1 ≠ j) [j]) (imap (λ k x, ((i + k)%nat, x)) l)
    = filter (λ x, q x = false) l) as Hrest.
  { clear. intros l. induction l as [|x l IH]; intros i j Hlt H; [done|]. cbn in H.
    destruct (q x) eqn:E; [done|]. cbn [imap]. rewrite !filter_cons.
    rewrite decide_True by (left; cbn; lia). rewrite decide_True by done. cbn. f_equal.
    rewrite <- (IH (S i) j) by (done || lia). do 2 f_equal. apply imap_ext.
    intros k y _. cbn. f_equal. lia. }
  revert i; induction l as [|x l IH]; intros i H; [done|]. cbn in H. cbn [imap].
  assert (imap ((λ k y, ((i + k)%nat, y)) ∘ S) l = imap (λ k y, ((S i + k)%nat, y)) l) as Ei.
  { apply imap_ext. intros k y _. cbn. f_equal. lia. }
  rewrite Ei, !filter_cons. destruct (q x) eqn:E.
  - injection H as <- H. rewrite decide_False; cycle 1.
    { intros [N|N]%Exists_cons; [cbn in N; lia|by apply Exists_nil in N]. }
    rewrite decide_False by congruence. apply Hrest; [lia|done].
  - assert (i < j)%nat as Hij by (apply (mine_indices_ge l (S i)); rewrite H; by left).
    rewrite decide_True by (left; cbn; lia). rewrite decide_True by done. cbn. f_equal. exact (IH (S i) H).
Qed.
End MineIndices.

Definition mine (s : Manager) (id : ID) (x : loc) : bool :=
  match dataAt s !! x ≫= λ d, nodeAt s !! d_Node d with
  | Some n => bool_decide (n_ID n = id)
  | None => false
  end.

Lemma indices_of_node_run s id l i :
  (∀ x, x ∈ l → ∃ d n, dataAt s !! x = Some d ∧ nodeAt s !! d_Node d = Some n) →
  indices_of_node id l i s = Ret (mine_indices (mine s id) l i, s).
Proof.
  revert i; induction l as [|x l IH]; intros i H; [done|].
  destruct (H x ltac:(by left)) as (d & n & Hd & Hn). cbn [indices_of_node mine_indices].
  rewrite (bind_run _ _ _ d s) by (by apply data_at_run).
  rewrite (bind_run _ _ _ n s) by (by apply node_at_run).
  rewrite (bind_run _ _ _ (mine_indices (mine s id) l (S i)) s).
  2:{ apply IH. intros y Hy. apply H. by right. }
  unfold mine at 3. rewrite Hd. cbn. rewrite Hn. by case_bool_decide.
Qed.

Lemma find_index_run (p : Node → bool) s l :
  Forall (λ x, is_Some (nodeAt s !! x)) l →
  find_index p l s
  = Ret (fst <$> list_find (λ x, match nodeAt s !! x with Some n => p n | None => false end = true) l, s).
Proof.
  induction 1 as [|x l [n Hn] Hl IH]; [done|]. cbn [find_index list_find].
  rewrite (bind_run _ _ _ n s) by (by apply node_at_run).
  destruct (decide (match nodeAt s !! x with Some n => p n | None => false end = true)) as [E|E];
    rewrite Hn in E.
  - by rewrite E.
  - destruct (p n); [done|]. rewrite (bind_run _ _ _ _ _ IH). cbn.
    by destruct (list_find _ l) as [[? ?]|].
Qed.
End Facts.
