(* ===== verification/SessProps.v ===== *)
(** * Properties of the session manager *)

From S2P Require Export SessFacts.

Section Lemmas.
Context {cr : Crypto} {ma : Multiaddrs} {pe : Peers} {tp : Transports}.

(** Sessions on either side of one have other keys. *)
Lemma others_differ s pre x post d :
  wf s → Sessions s = pre ++ x :: post → dataAt s !! x = Some d →
  Forall (other_key (Keys_Bytes (d_Header d)) s) (pre ++ post).
Proof.
  intros W El Hd. apply Forall_forall. intros y Hy.
  assert (y ∈ Sessions s) as HyS.
  { rewrite El. apply elem_of_app in Hy as [?|?]; apply elem_of_app; [by left|right; by right]. }
  destruct (wf_sessions s W y HyS) as (e & _ & He & _). exists e. split; [done|]. intros Ek.
  pose proof (wf_distinct s W) as ND. rewrite El, fmap_app, fmap_cons in ND.
  apply NoDup_app in ND as (_ & N2 & N3). apply NoDup_cons in N3 as [N3 _].
  assert (header_of s y = header_of s x) as Eh by (unfold header_of; rewrite Hd, He; cbn; by rewrite Ek).
  apply elem_of_app in Hy as [Hy|Hy].
  - apply (N2 (header_of s y)); [by apply list_elem_of_fmap_2|]. rewrite Eh. by left.
  - apply N3. rewrite <- Eh. by apply list_elem_of_fmap_2.
Qed.

Lemma removed_other s x d n c rest id y :
  other_key id s y → other_key id (removed x d n c rest s) y.
Proof. done. Qed.

(** The whole loop of [DeleteSession] on a session with a slot. *)
Lemma delete_loop_run s pre x post d n c :
  wf s → Sessions s = pre ++ x :: post → dataAt s !! x = Some d →
  nodeAt s !! d_Node d = Some n → 0 ≤ d_Hop d < 5 → CircuitCache s !! n_ID n = Some c →
  delete_session_loop (length (Sessions s)) 0 (Keys_Bytes (d_Header d)) (with_locked true s)
  = match post with
    | [] => Ret (tt, with_locked true (removed x d n c pre s))
    | _ => Panic PIndex
    end.
Proof.
  intros W El Hd Hn Hh Hc. pose proof (others_differ s pre x post d W El Hd) as HO.
  set (id := Keys_Bytes (d_Header d)) in *. set (t := with_locked true s).
  assert (length (Sessions s) = length pre + S (length post))%nat as -> by (rewrite El, length_app; done).
  change 0 with (Z.of_nat 0). rewrite delete_session_skips; cycle 1.
  { intros m Hm. destruct (lookup_lt_is_Some_2 pre m) as [y Hy]; [lia|]. exists y.
    change (Sessions t) with (Sessions s). rewrite El, lookup_app_l by lia. split; [done|].
    rewrite Forall_forall in HO. apply HO, elem_of_app. left. by eapply list_elem_of_lookup_2. }
  cbn [Nat.add]. rewrite (delete_session_hit _ pre post id t x d n c); try done.
  2:{ unfold zlen. rewrite (wf_circuits s W _ _ Hc). lia. }
  set (t' := removed x d n c (pre ++ post) t).
  destruct post as [|b post].
  { cbn. unfold t', removed, t. by rewrite app_nil_r. }
  replace (length (b :: post)) with (length post + 1)%nat by (cbn; lia).
  rewrite delete_session_skips; cycle 1.
  { intros m Hm. change (Sessions t') with (pre ++ b :: post).
    destruct (lookup_lt_is_Some_2 (pre ++ b :: post) m) as [y Hy]; [rewrite length_app; cbn; lia|].
    exists y. split; [done|]. apply removed_other.
    rewrite Forall_forall in HO. apply HO. by eapply list_elem_of_lookup_2. }
  apply delete_session_past. change (Sessions t') with (pre ++ b :: post).
  rewrite length_app. cbn. lia.
Qed.

(** [DeleteNodeAndSessions] on a node that has a circuit. *)
Lemma DeleteNode_run s id c :
  wf s → CircuitCache s !! id = Some c →
  ∃ s', DeleteNodeAndSessions id s = Ret (tt, s') ∧ CircuitCache s' = delete id (CircuitCache s) ∧
    Sessions s' = keep_sessions (mine_indices (mine s id) (Sessions s) 0) (Sessions s).
Proof.
  intros W Hc. set (s1 := with_Cache (delete id (CircuitCache s)) (with_locked true s)).
  assert (∀ s2 : Manager, sm_locked s2 = true → dataAt s2 = dataAt s → nodeAt s2 = nodeAt s →
    Sessions s2 = Sessions s →
    (found ← indices_of_node id (Sessions s) 0;
     upd (with_Sessions (keep_sessions found (Sessions s)))) s2
    = Ret (tt, with_Sessions (keep_sessions (mine_indices (mine s id) (Sessions s) 0) (Sessions s)) s2))
    as Hfin.
  { intros s2 _ Ed En Es. erewrite bind_run; [done|].
    rewrite indices_of_node_run; [|intros y Hy; rewrite Ed, En; by apply W].
    do 3 f_equal. unfold mine. by rewrite Ed, En. }
  assert (∃ s2, (i ← find_index (λ n, bool_decide (n_ID n = id)) (nodes s);
       match i with
       | Some i => l ← lift (RemovePacket (nodes s) (Z.of_nat i)); upd (with_nodes l)
       | None => mret tt
       end) s1 = Ret (tt, s2) ∧ sm_locked s2 = true ∧ dataAt s2 = dataAt s ∧ nodeAt s2 = nodeAt s ∧
       Sessions s2 = Sessions s ∧ CircuitCache s2 = delete id (CircuitCache s)) as (s2 & E2 & HL & Ed & En & Es & Ec).
  { erewrite bind_run by (apply find_index_run; exact (wf_nodes s W)).
    destruct (list_find _ (nodes s)) as [[i y]|] eqn:Ef; cbn [fmap option_fmap option_map fst]; cycle 1.
    { by exists s1. }
    apply list_find_Some in Ef as (Hi & _ & _).
    assert (RemovePacket (nodes s) (Z.of_nat i) = Ret (take i (nodes s) ++ drop (S i) (nodes s))) as ER.
    { rewrite <- (take_drop_middle _ _ _ Hi) at 1. apply RemovePacket_mid.
      apply lookup_lt_Some in Hi. rewrite length_take. lia. }
    rewrite ER. by eexists. }
  exists (with_locked false (with_Sessions
    (keep_sessions (mine_indices (mine s id) (Sessions s) 0) (Sessions s)) s2)).
  split; [|by split]. unfold DeleteNodeAndSessions.
  apply (locked_run _ s tt (with_Sessions
    (keep_sessions (mine_indices (mine s id) (Sessions s) 0) (Sessions s)) s2)); [apply W| |done].
  change ((get ≫= ?f) (with_locked true s)) with (f (with_locked true s) (with_locked true s)).
  cbn beta. change (CircuitCache (with_locked true s)) with (CircuitCache s). rewrite Hc.
  erewrite bind_run by done. fold s1.
  change (nodes (with_locked true s)) with (nodes s).
  change (Sessions (with_locked true s)) with (Sessions s).
  etrans; [apply (bind_assoc _ (λ i, match i with
       | Some i => l ← lift (RemovePacket (nodes s) (Z.of_nat i)); upd (with_nodes l)
       | None => mret tt
       end) (λ _, found ← indices_of_node id (Sessions s) 0;
                  upd (with_Sessions (keep_sessions found (Sessions s)))))|].
  erewrite bind_run by exact E2. by apply Hfin.
Qed.
End Lemmas.

Section Properties.
Context {cr : Crypto} {ma : Multiaddrs} {pe : Peers} {tp : Transports}.

(** C35: on a well-formed manager [AddSession] of a session whose node is known
    returns and keeps the manager well formed.  A session whose header key is
    already there is refused and nothing changes; another one is appended, and
    unless it is a return session (hop 5 and up) it takes the slot of its hop in
    the circuit of its node, every other slot keeping its session. *)
Theorem AddSession_wf s x d n :
  wf s → dataAt s !! x = Some d → nodeAt s !! d_Node d = Some n → 0 ≤ d_Hop d →
  ∃ s', AddSession x s = Ret (tt, s') ∧ wf s' ∧
    if decide (Some (Keys_Bytes (d_Header d)) ∈ header_of s <$> Sessions s) then s' = s
    else Sessions s' = Sessions s ++ [x] ∧
         ∀ id h, 0 ≤ h → slot s' id h
           = if decide (d_Hop d < 5 ∧ id = n_ID n ∧ h = d_Hop d) then Some x else slot s id h.
Proof.
  intros W Hd Hn Hh. destruct (decide _) as [Hdup|Hfresh].
  - exists s. by rewrite (AddSession_dupe s x d).
  - exists (added x d n s). rewrite (AddSession_fresh s x d n) by done.
    split; [done|]. split; [by apply added_wf|]. split; [unfold added; by case_bool_decide|].
    intros id h H0. by apply added_slot.
Qed.

(** C36: [DecSession] never overdraws: the charge, a 2^20th of the product of rate
    and bytes, is taken from the session with that key if its balance covers it,
    and refused otherwise; no other session, and nothing else, changes, the
    manager stays well formed, and a key without a session is refused. *)
Theorem DecSession_exact s x d n msats :
  wf s → x ∈ Sessions s → dataAt s !! x = Some d → nodeAt s !! d_Node d = Some n →
  Addresses n ≠ [] →
  ∃ ok s', DecSession (Keys_Bytes (d_Header d)) msats s = Ret (ok, s') ∧ wf s' ∧
    (ok = true ↔ charge msats ≤ d_Remaining d) ∧
    dataAt s' !! x = Some (with_Remaining (d_Remaining d - if ok then charge msats else 0) d) ∧
    (∀ y, y ≠ x → dataAt s' !! y = dataAt s !! y) ∧
    (∀ id, Some id ∉ header_of s <$> Sessions s → DecSession id msats s = Ret (false, s)).
Proof.
  intros W Hx Hd Hn Ha. rewrite (DecSession_found s x d n msats) by done.
  case_decide as Hr; eexists _, _; (split; [done|]).
  - split; [done|]. split; [split; [done|lia]|]. split; [|split; [done|intros; by apply DecSession_unknown]].
    rewrite Z.sub_0_r, Hd. by destruct d.
  - split; [by apply with_balance_wf|]. split; [split; [lia|done]|].
    split; [cbn; by rewrite lookup_insert_eq|]. split; [|intros; by apply DecSession_unknown].
    intros y Hy. cbn. by rewrite lookup_insert_ne.
Qed.

(** A relay recognises what is addressed to it: given a cloaked key,
    [FindCloaked] answers with the node's identity key if the cloak is of that
    key; otherwise with the header and payload keys of the first session whose
    header key the cloak is of; and with nothing only if it is of none of them.
    In particular the cloak of a session's key, whatever the blinder, always finds
    a session or the identity. *)
Theorem FindCloaked_complete s l n clk :
  wf s → goindex (nodes s) 0 = Ret l → nodeAt s !! l = Some n →
  ∃ hdr pld sess identity, FindCloaked clk s = Ret ((hdr, pld, sess, identity), s) ∧
    (identity = true ↔ Match clk (id_Bytes (Identity n)) = true) ∧
    (identity = true → hdr = id_Prv (Identity n)) ∧
    (identity = false → ∀ y, sess = Some y ↔
       ∃ i, Sessions s !! i = Some y ∧ sel s (matches clk) y = true ∧
            ∀ j z, Sessions s !! j = Some z → (j < i)%nat → sel s (matches clk) z = false) ∧
    (∀ y, sess = Some y → ∃ d, dataAt s !! y = Some d ∧ hdr = Some (Keys_Prv (d_Header d)) ∧
                               pld = Some (Keys_Prv (d_Payload d))) ∧
    (∀ b y d, y ∈ Sessions s → dataAt s !! y = Some d → clk = Cloak b (Keys_Bytes (d_Header d)) →
       identity = true ∨ is_Some sess).
Proof.
  intros W Hl Hn. rewrite (FindCloaked_run s l n clk W Hl Hn).
  destruct (Match clk (id_Bytes (Identity n))) eqn:EM.
  { do 4 eexists. split; [done|]. split; [done|]. split; [done|]. split; [done|].
    split; [done|]. intros. by left. }
  destruct (list_find _ _) as [[i x]|] eqn:E; cbn [fmap option_fmap option_map snd].
  - apply list_find_Some in E as (Hi & Hx & Hb). unfold sel in Hx.
    destruct (dataAt s !! x) as [d|] eqn:Ed; [|done]. do 4 eexists. split; [done|].
    split; [done|]. split; [done|]. split; [|split; [|intros; right; by eexists]].
    + intros _ y. split.
      * intros [= <-]. exists i. unfold sel at 1. rewrite Ed. split; [done|]. split; [done|].
        intros j z Hj Hlt. specialize (Hb j z Hj Hlt). by destruct (sel s (matches clk) z).
      * intros (k & Hk & Hy & Hbk). destruct (Nat.lt_trichotomy i k) as [Hlt|[<-|Hlt]].
        -- specialize (Hbk i x Hi Hlt). unfold sel in Hbk. rewrite Ed in Hbk. congruence.
        -- congruence.
        -- by destruct (Hb k y Hk Hlt).
    + intros y [= <-]. by exists d.
  - apply list_find_None in E. rewrite Forall_forall in E. do 4 eexists. split; [done|].
    split; [done|]. split; [done|]. split; [|split; [done|]].
    + intros _ y. split; [done|]. intros (i & Hi & Hy & _).
      destruct (E y); [by eapply list_elem_of_lookup_2|done].
    + intros b y d Hy Hd ->. destruct (E y Hy). unfold sel. rewrite Hd. apply Match_Cloak.
Qed.

(** [DeleteSession] ranges over the indices the list had when it started: it
    works only for the last session, which it takes out together with its slot; a
    session with any other behind it makes it index past the end and panic. *)
Theorem DeleteSession_last_only s pre x post d n :
  wf s → Sessions s = pre ++ x :: post → dataAt s !! x = Some d →
  nodeAt s !! d_Node d = Some n → 0 ≤ d_Hop d < 5 →
  (post ≠ [] → DeleteSession (Keys_Bytes (d_Header d)) s = Panic PIndex) ∧
  (post = [] → ∃ s', DeleteSession (Keys_Bytes (d_Header d)) s = Ret (tt, s') ∧
     Sessions s' = pre ∧ slot s' (n_ID n) (d_Hop d) = None ∧
     ∀ id h, 0 ≤ h → (id ≠ n_ID n ∨ h ≠ d_Hop d) → slot s' id h = slot s id h).
Proof.
  intros W El Hd Hn Hh.
  assert (x ∈ Sessions s) as Hx by (rewrite El; apply elem_of_app; right; by left).
  destruct (wf_cached s W x d n Hx Hd Hn Hh) as (c & y & Hc & Hy).
  pose proof (delete_loop_run s pre x post d n c W El Hd Hn Hh Hc) as E.
  unfold DeleteSession. split.
  - intros Hne. apply locked_panic; [apply W|].
    change ((get ≫= ?f) (with_locked true s)) with (f (with_locked true s) (with_locked true s)).
    cbn beta. change (Sessions (with_locked true s)) with (Sessions s). rewrite E. by destruct post.
  - intros ->. exists (with_locked false (with_locked true (removed x d n c pre s))).
    split; [|split; [done|]].
    + apply locked_run; [apply W| |done].
      change ((get ≫= ?f) (with_locked true s)) with (f (with_locked true s) (with_locked true s)).
      cbn beta. exact E.
    + unfold slot. cbn. rewrite lookup_insert_eq. cbn. pose proof (wf_circuits s W _ _ Hc) as Lc.
      rewrite list_lookup_insert_eq by lia. split; [done|]. intros id h H0 Hne.
      destruct (decide (id = n_ID n)) as [->|]; [|by rewrite lookup_insert_ne].
      rewrite lookup_insert_eq, Hc. cbn. rewrite list_lookup_insert_ne; [done|].
      destruct Hne; [done|lia].
Qed.

(** [DeleteNodeAndSessions] drops the node's circuit, but the sessions are
    right only if the node has exactly one: then just that one goes.  With none
    all sessions of all nodes are dropped, with two or more none is. *)
Theorem DeleteNodeAndSessions_count s id c :
  wf s → CircuitCache s !! id = Some c →
  let ours := filter (λ x, mine s id x = true) (Sessions s) in
  ∃ s', DeleteNodeAndSessions id s = Ret (tt, s') ∧ CircuitCache s' = delete id (CircuitCache s) ∧
    Sessions s' = if decide (length ours = 0%nat) then []
                  else if decide (length ours = 1%nat)
                  then filter (λ x, mine s id x = false) (Sessions s)
                  else Sessions s.
Proof.
  intros W Hc ours. destruct (DeleteNode_run s id c W Hc) as (s' & E & Ec & Es).
  exists s'. split; [done|]. split; [done|]. rewrite Es.
  pose proof (mine_indices_length (mine s id) (Sessions s) 0) as L. fold ours in L.
  destruct (mine_indices (mine s id) (Sessions s) 0) as [|i [|j r]] eqn:EI; cbn [length] in L.
  - rewrite decide_True by done. apply keep_none.
  - rewrite decide_False, decide_True by lia. exact (keep_one_gen _ _ 0 i EI).
  - rewrite !decide_False by lia. apply keep_all. intros k.
    assert (i ≠ j) as Hij.
    { destruct (Sessions s) as [|x l]; [done|]. clear -EI. revert EI.
      generalize (x :: l), 0%nat. clear. intros l. induction l as [|y l IH]; intros m; cbn; [done|].
      destruct (mine s id y); [|apply IH]. intros [= <- H].
      assert (S m ≤ j)%nat; [|lia]. apply (mine_indices_ge (mine s id) l). rewrite H. by left. }
    destruct (decide (k = i)) as [->|]; [exists j|exists i]; (split; [|done]); [right|]; by left.
Qed.
End Properties.

(** A manager with a local node, a relay and two sessions with it. *)
Module ToySess.
#[local] Existing Instances Toy.crypto Toy.multiaddrs ToyNet.transports.

Definition key (b : byte) : Keys := MakeKeys (arr_of 32 [b]).
Definition node (b : byte) : Node :=
  NewNode (arr_of 8 [b]) [[x04]] (MkIdentity (Keys_Pub (key b)) (Keys_Bytes (key b))
    (Some (Keys_Prv (key b)))) None 10.
Definition data (b : byte) (hop : Z) : Data :=
  NewSessionData (arr_of 8 [b]) 2%positive 100 (key b) (key xff) hop.

Definition heap : Manager :=
  MkManager {[ 1%positive := node x01; 2%positive := node x02 ]}
    {[ 1%positive := data x11 0; 2%positive := data x12 1; 3%positive := data x13 2 ]}
    false [1%positive; 2%positive] [] [1%positive; 2%positive]
    {[ arr_of 8 [x02] := [Some 1%positive; Some 2%positive; None; None; None] ]} 1.

Lemma heap_wf : wf heap.
Proof.
  constructor.
  - reflexivity.
  - apply (bool_decide_unpack _). by vm_compute.
  - done.
  - intros x Hx. assert (x = 1%positive ∨ x = 2%positive) as [-> | ->].
    { repeat (apply elem_of_cons in Hx as [->|Hx]; [naive_solver|]). by apply not_elem_of_nil in Hx. }
    + eexists _, _. by split.
    + eexists _, _. by split.
  - apply (bool_decide_unpack _). by vm_compute.
  - intros id c h x Hc Hs. unfold heap in Hc; cbn [CircuitCache] in Hc. apply lookup_singleton_Some in Hc as [<- <-].
    destruct h as [|[|[|[|[|h]]]]]; try done; injection Hs as <-; eexists _, _; by repeat split.
  - intros id c Hc. unfold heap in Hc; cbn [CircuitCache] in Hc. by apply lookup_singleton_Some in Hc as [_ <-].
  - intros x d n Hx Hd Hn _. assert (x = 1%positive ∨ x = 2%positive) as [-> | ->].
    { repeat (apply elem_of_cons in Hx as [->|Hx]; [naive_solver|]). by apply not_elem_of_nil in Hx. }
    + injection Hd as <-. injection Hn as <-. eexists _, _. split; [unfold heap; cbn [CircuitCache]; by apply lookup_singleton_eq|]. done.
    + injection Hd as <-. injection Hn as <-. eexists _, _. split; [unfold heap; cbn [CircuitCache]; by apply lookup_singleton_eq|]. done.
Qed.
End ToySess.

#[local] Existing Instances Toy.crypto Toy.multiaddrs ToyNet.transports.

Lemma AddSession_wf_witness :
  ∃ s', AddSession 3%positive ToySess.heap = Ret (tt, s') ∧
    Sessions s' = [1%positive; 2%positive; 3%positive] ∧ slot s' (arr_of 8 [x02]) 2 = Some 3%positive.
Proof.
  destruct (AddSession_wf ToySess.heap 3%positive (ToySess.data x13 2) (ToySess.node x02)
    ToySess.heap_wf) as (s' & E & _ & R); [reflexivity|reflexivity|by vm_compute|].
  rewrite decide_False in R; cycle 1.
  { apply (bool_decide_unpack _). by vm_compute. }
  destruct R as [ES R]. exists s'. split; [exact E|]. split; [exact ES|].
  rewrite R by done. by rewrite decide_True.
Defined.

Lemma DecSession_exact_witness :
  ∃ s', DecSession (Keys_Bytes (ToySess.key x11)) (30 * 1024 * 1024) ToySess.heap = Ret (true, s') ∧
    dataAt s' !! 1%positive = Some (with_Remaining (100 - 30) (ToySess.data x11 0)).
Proof.
  destruct (DecSession_exact ToySess.heap 1%positive (ToySess.data x11 0) (ToySess.node x02)
    (30 * 1024 * 1024) ToySess.heap_wf) as (ok & s' & E & _ & Hok & Hd & _);
    [by left|reflexivity|reflexivity|done|].
  assert (ok = true) as -> by (apply Hok; by vm_compute).
  exists s'. split; [exact E|exact Hd].
Defined.

Lemma FindCloaked_complete_witness :
  ∃ hdr pld sess identity,
    FindCloaked (Cloak (arr_of 4 [x09]) (Keys_Bytes (ToySess.key x12))) ToySess.heap
    = Ret ((hdr, pld, sess, identity), ToySess.heap) ∧ (identity = true ∨ is_Some sess).
Proof.
  destruct (FindCloaked_complete ToySess.heap 1%positive (ToySess.node x01)
    (Cloak (arr_of 4 [x09]) (Keys_Bytes (ToySess.key x12))) ToySess.heap_wf)
    as (hdr & pld & sess & identity & E & _ & _ & _ & _ & H); [reflexivity|reflexivity|].
  exists hdr, pld, sess, identity. split; [exact E|].
  apply (H (arr_of 4 [x09]) 2%positive (ToySess.data x12 1)); [right; by left|reflexivity|reflexivity].
Defined.

Lemma DeleteSession_last_only_witness :
  DeleteSession (Keys_Bytes (ToySess.key x11)) ToySess.heap = Panic PIndex.
Proof.
  apply (DeleteSession_last_only ToySess.heap [] 1%positive [2%positive] (ToySess.data x11 0)
    (ToySess.node x02) ToySess.heap_wf); [reflexivity|reflexivity|reflexivity|split; by vm_compute|done].
Defined.

Lemma DeleteNodeAndSessions_count_witness :
  ∃ s', DeleteNodeAndSessions (arr_of 8 [x02]) ToySess.heap = Ret (tt, s') ∧
    Sessions s' = [1%positive; 2%positive].
Proof.
  destruct (DeleteNodeAndSessions_count ToySess.heap (arr_of 8 [x02])
    [Some 1%positive; Some 2%positive; None; None; None] ToySess.heap_wf) as (s' & E & _ & R);
    [by apply lookup_singleton_eq|].
  exists s'. split; [exact E|]. rewrite R. by vm_compute.
Defined.
