(* ===== verification/SelectProps.v ===== *)
(** * Choosing hops: [select.go]

    When the selection of hops ends, and with what: it fills the open positions
    from the candidate sessions if there are enough of them, and spins with the
    mutex held if a hop has none. *)

From S2P Require Export SessProps.

Section Select.
Context {cr : Crypto} {ma : Multiaddrs} {pe : Peers} {tp : Transports}.
Context (shuffleA : list Multiaddr → list Multiaddr).
Context (shuffleS : list (option loc) → list (option loc)).
Context (String Sprint : Multiaddr → string).

(** The position a candidate is for; an entry already taken is for none. *)
Definition hop_of (s : Manager) (w : option loc) : option Z :=
  w ≫= λ l, d_Hop <$> dataAt s !! l.

(** A pointer to a session whose node has [k] addresses. *)
Definition good (s : Manager) (k : nat) (x : loc) : Prop :=
  ∃ d n, dataAt s !! x = Some d ∧ nodeAt s !! d_Node d = Some n ∧ length (Addresses n) = k.

(** The positions for hop [h] that the caller left open. *)
Definition demand (h : Z) (hops : list Z) (have : list (option loc)) : nat :=
  length (filter (λ p, p = (h, None)) (zip hops have)).
(** The candidates for hop [h]. *)
Definition supply (s : Manager) (h : Z) (ws : list (option loc)) : nat :=
  length (filter (λ w, hop_of s w = Some h) ws).

(** Whether a candidate is left, of [m], whenever the loop comes to a position the
    caller filled. *)
Fixpoint spare (have : list (option loc)) (m : nat) : bool :=
  match have with
  | [] => true
  | None :: have => spare have (m - 1)
  | Some _ :: have => bool_decide (0 < m)%nat && spare have m
  end.

(** The sessions chosen for the open positions, in order. *)
Fixpoint picks (have so : list (option loc)) : list loc :=
  match have, so with
  | None :: have, Some x :: so => x :: picks have so
  | _ :: have, _ :: so => picks have so
  | _, _ => []
  end.

(** [so] fills [have] for [hops]: what was there stays, what was open gets a
    session of its hop. *)
Definition fills (s : Manager) (hops : list Z) (have so : list (option loc)) : Prop :=
  Forall3 (λ h o o', match o with
                     | Some x => o' = Some x
                     | None => is_Some o' ∧ hop_of s o' = Some h
                     end) hops have so.

(** The candidates still there. *)
Abbreviation left_ ws := (omap id ws).

Lemma insert_mid {A} (pre post : list A) x y :
  <[length pre := y]> (pre ++ x :: post) = pre ++ y :: post.
Proof. rewrite insert_app_r_alt by lia. by rewrite Nat.sub_diag. Qed.

(** ** The inner loop *)

(** The entry at which the inner loop stops. *)
Definition stops (s : Manager) (open : bool) (hop : Z) (w : option loc) : bool :=
  if open then bool_decide (hop_of s w = Some hop) else bool_decide (is_Some w).

Lemma pick_skip s hop i so ws (o : option loc) (k n cur : nat) :
  so !! i = Some o → (∀ w, w ∈ left_ ws → live s w) →
  (cur + k < length ws)%nat →
  (∀ j w, (cur ≤ j < cur + k)%nat → ws !! j = Some w →
          stops s (bool_decide (o = None)) hop w = false) →
  pick shuffleA String Sprint (k + n)%nat hop i so ws (Z.of_nat cur) s
  = pick shuffleA String Sprint n hop i so ws (Z.of_nat (cur + k)) s.
Proof.
  intros Ho Hlive. revert cur. induction k as [|k IH]; intros cur Hlt Hst.
  { by rewrite Nat.add_0_r. }
  destruct (lookup_lt_is_Some_2 ws cur) as [w Hw]; [lia|].
  specialize (Hst cur w ltac:(lia) Hw) as Hs. cbn [pick Nat.add].
  rewrite (goindex_lookup _ _ _ Hw).
  replace (cur + S k)%nat with (S cur + k)%nat by lia.
  destruct w as [l|].
  - assert (live s l) as [d Hd].
    { apply Hlive, list_elem_of_omap. exists (Some l). split; [|done].
      by eapply list_elem_of_lookup_2. }
    rewrite Ho. destruct o as [x|]; unfold stops in Hs; [by rewrite bool_decide_false in Hs|].
    cbn in Hs. rewrite Hd in Hs |- *. apply bool_decide_eq_false in Hs. cbn in Hs.
    rewrite bool_decide_false by congruence. rewrite bool_decide_false by (unfold zlen; lia).
    replace (Z.of_nat cur + 1)%Z with (Z.of_nat (S cur)) by lia. apply IH; [lia|].
    intros j w Hj. apply Hst. lia.
  - replace (Z.of_nat cur + 1)%Z with (Z.of_nat (S cur)) by lia. apply IH; [lia|].
    intros j w Hj. apply Hst. lia.
Qed.

(** The comparison of addresses goes through when all nodes have as many. *)
Lemma compare_addresses_run s k addrs a w str :
  GetLocalNodeAddressString shuffleA Sprint s = Ret (str, s) → good s k w →
  0 ≤ a → a + zlen addrs ≤ Z.of_nat k →
  compare_addresses shuffleA String Sprint addrs a w s = Ret (tt, s).
Proof.
  intros Hl (d & n & Hd & Hn & Hk). revert a.
  induction addrs as [|x addrs IH]; intros a H0 Ha; [done|].
  assert (zlen (x :: addrs) = zlen addrs + 1) as EL by (unfold zlen; cbn; lia).
  assert (0 ≤ zlen addrs) by (unfold zlen; lia).
  cbn [compare_addresses]. rewrite (bind_run _ _ _ _ _ Hl). case_bool_decide.
  - rewrite (bind_run _ _ _ tt s) by done. apply IH; lia.
  - destruct (lookup_lt_is_Some_2 (Addresses n) (Z.to_nat a)) as [y Hy]; [lia|].
    rewrite (bind_run _ _ _ tt s); [apply IH; lia|].
    rewrite (bind_run _ _ _ _ _ (data_at_run s w d Hd)), (bind_run _ _ _ _ _ (node_at_run s _ n Hn)).
    rewrite (bind_run _ _ _ y s); [done|]. unfold lift. by rewrite (goindex_some _ a y).
Qed.

Definition all_good (s : Manager) (k : nat) (so : list (option loc)) : Prop :=
  Forall (λ o, ∃ x, o = Some x ∧ good s k x) so.

Lemma compare_chosen_run s k so w str :
  GetLocalNodeAddressString shuffleA Sprint s = Ret (str, s) → good s k w → all_good s k so →
  compare_chosen shuffleA String Sprint so w s = Ret (tt, s).
Proof.
  intros Hl Hw. induction 1 as [|o so (x & -> & d & n & Hd & Hn & Hk) _ IH]; [done|].
  cbn [compare_chosen].
  rewrite (bind_run _ _ _ _ _ (data_at_run s x d Hd)), (bind_run _ _ _ _ _ (node_at_run s _ n Hn)).
  rewrite (bind_run _ _ _ tt s); [done|].
  apply (compare_addresses_run s k _ 0 w str); [done|done|lia|unfold zlen; lia].
Qed.

Lemma list_addresses_run s k so : all_good s k so → list_addresses so s = Ret (tt, s).
Proof.
  induction 1 as [|o so (x & -> & d & n & Hd & Hn & Hk) _ IH]; [done|]. cbn [list_addresses].
  by rewrite (bind_run _ _ _ _ _ (data_at_run s x d Hd)), (bind_run _ _ _ _ _ (node_at_run s _ n Hn)).
Qed.

(** The inner loop goes to the first entry that stops it. *)
Lemma pick_to_stop s hop i so ws (o : option loc) :
  so !! i = Some o → (∀ w, w ∈ left_ ws → live s w) →
  Exists (λ w, stops s (bool_decide (o = None)) hop w = true) ws →
  ∃ j w n, ws !! j = Some w ∧ stops s (bool_decide (o = None)) hop w = true ∧
    pick shuffleA String Sprint (S (length ws)) hop i so ws 0 s
    = pick shuffleA String Sprint (S n) hop i so ws (Z.of_nat j) s.
Proof.
  intros Ho Hlive Hex. set (b := bool_decide (o = None)) in *.
  destruct (list_find (λ w, stops s b hop w = true) ws) as [[j w]|] eqn:E; cycle 1.
  { apply list_find_None in E. rewrite Exists_exists in Hex. rewrite Forall_forall in E.
    destruct Hex as (w & Hw & Hs). by destruct (E w). }
  apply list_find_Some in E as (Hw & Hs & Hmin). pose proof (lookup_lt_Some _ _ _ Hw) as Hlt.
  exists j, w, (length ws - j)%nat. split; [done|]. split; [done|].
  replace (S (length ws)) with (j + S (length ws - j))%nat by lia.
  apply (pick_skip s hop i so ws o j _ 0); [done|done|lia|].
  intros k v Hk Hv. apply not_true_is_false. intros H. by apply (Hmin k v Hv); [lia|].
Qed.

Lemma hop_of_Some s w h : hop_of s w = Some h → ∃ l d, w = Some l ∧ dataAt s !! l = Some d ∧ d_Hop d = h.
Proof.
  destruct w as [l|]; [|done]. cbn. destruct (dataAt s !! l) as [d|] eqn:E; [|done].
  intros [= <-]. by exists l, d.
Qed.

Lemma pick_filled s hop x pre post ws :
  (∀ w, w ∈ left_ ws → live s w) → left_ ws ≠ [] →
  pick shuffleA String Sprint (S (length ws)) hop (length pre) (pre ++ Some x :: post) ws 0 s
  = Some (Ret (pre ++ Some x :: post, ws)).
Proof.
  intros Hlive Hne. pose proof (list_lookup_middle pre post (Some x) _ eq_refl) as Ho.
  destruct (pick_to_stop s hop (length pre) (pre ++ Some x :: post) ws (Some x))
    as (j & w & n & Hw & Hs & ->); [done|done| |].
  { destruct (left_ ws) as [|y l] eqn:E; [done|]. apply Exists_exists. exists (Some y).
    split; [|by apply bool_decide_true]. assert (y ∈ left_ ws) as H by (rewrite E; by left).
    apply list_elem_of_omap in H as (v & H & Hv). unfold id in Hv. by subst v. }
  cbn [pick]. rewrite (goindex_lookup _ _ _ Hw). rewrite Ho.
  apply bool_decide_eq_true in Hs as [l ->]. done.
Qed.

Lemma pick_exhausted s hop i so ws cur :
  left_ ws = [] → (cur ≤ length ws)%nat →
  pick shuffleA String Sprint (S (length ws - cur)) hop i so ws (Z.of_nat cur) s = Some (Panic PIndex).
Proof.
  intros Hn. remember (length ws - cur)%nat as m eqn:Em. revert cur Em.
  induction m as [|m IH]; intros cur Em Hle; cbn [pick].
  - by rewrite goindex_past by lia.
  - destruct (lookup_lt_is_Some_2 ws cur) as [w Hw]; [lia|]. rewrite (goindex_lookup _ _ _ Hw).
    destruct w as [l|].
    + assert (l ∈ left_ ws) as H; [|rewrite Hn in H; by apply not_elem_of_nil in H].
      apply list_elem_of_omap. exists (Some l). split; [|done]. by eapply list_elem_of_lookup_2.
    + replace (Z.of_nat cur + 1)%Z with (Z.of_nat (S cur)) by lia. apply IH; lia.
Qed.

Lemma pick_open s k hop pre post ws str :
  GetLocalNodeAddressString shuffleA Sprint s = Ret (str, s) →
  all_good s k pre → (∀ w, w ∈ left_ ws → good s k w) →
  (0 < supply s hop ws)%nat →
  ∃ j l, ws !! j = Some (Some l) ∧ hop_of s (Some l) = Some hop ∧
    pick shuffleA String Sprint (S (length ws)) hop (length pre) (pre ++ None :: post) ws 0 s
    = Some (Ret (pre ++ Some l :: post, <[j := None]> ws)).
Proof.
  intros Hl Hpre Hgood Hsup. pose proof (list_lookup_middle pre post (@None loc) _ eq_refl) as Ho.
  destruct (pick_to_stop s hop (length pre) (pre ++ None :: post) ws None)
    as (j & w & n & Hw & Hs & E); [done| | |].
  { intros w Hw. destruct (Hgood w Hw) as (d & _ & Hd & _). by exists d. }
  { unfold supply in Hsup. destruct (filter _ ws) as [|w l] eqn:E; [cbn in Hsup; lia|].
    apply Exists_exists. exists w. assert (w ∈ filter (λ w, hop_of s w = Some hop) ws) as H
      by (rewrite E; by left).
    apply list_elem_of_filter in H as [H1 H2]. split; [done|]. by apply bool_decide_true. }
  apply bool_decide_eq_true in Hs. destruct (hop_of_Some s w hop Hs) as (l & d & -> & Hd & Hh).
  exists j, l. split; [done|]. split; [done|]. rewrite E. cbn [pick].
  rewrite (goindex_lookup _ _ _ Hw), Ho, Hd. rewrite bool_decide_true by done.
  rewrite take_app_length. rewrite (compare_chosen_run s k pre l str); [|done| |done]; cycle 1.
  { apply Hgood, list_elem_of_omap. exists (Some l). split; [|done]. by eapply list_elem_of_lookup_2. }
  cbn [mbind Out_bind]. rewrite Nat2Z.id. by rewrite insert_mid.
Qed.

(** ** The outer loop *)

Lemma demand_cons h g o hops have :
  demand h (g :: hops) (o :: have)
  = ((if decide (g = h ∧ o = None) then 1 else 0) + demand h hops have)%nat.
Proof.
  unfold demand. cbn [zip zip_with]. rewrite filter_cons.
  repeat case_decide; naive_solver.
Qed.

Lemma supply_mid s h w1 w w2 :
  supply s h (w1 ++ w :: w2)
  = ((if decide (hop_of s w = Some h) then 1 else 0) + supply s h (w1 ++ None :: w2))%nat.
Proof.
  unfold supply. rewrite !filter_app, !filter_cons, !length_app.
  rewrite (decide_False (P := hop_of s None = Some h)) by done.
  case_decide; cbn [length]; lia.
Qed.

Lemma left_mid (w1 w2 : list (option loc)) (l : loc) : left_ (w1 ++ Some l :: w2) ≡ₚ l :: left_ (w1 ++ None :: w2).
Proof. rewrite !omap_app. cbn. by rewrite Permutation_middle. Qed.

Lemma select_loop_run s k str hops : 
  GetLocalNodeAddressString shuffleA Sprint s = Ret (str, s) →
  ∀ pre post ws, all_good s k pre → length post = length hops →
  (∀ x, Some x ∈ post → good s k x) → (∀ w, w ∈ left_ ws → good s k w) →
  (∀ h, (demand h hops post ≤ supply s h ws)%nat) →
  if spare post (length (left_ ws)) then
    ∃ post', select_loop shuffleA String Sprint hops (length pre) (pre ++ post) ws s
             = Some (Ret (pre ++ post')) ∧
      fills s hops post post' ∧ picks post post' ⊆+ left_ ws ∧ all_good s k post'
  else select_loop shuffleA String Sprint hops (length pre) (pre ++ post) ws s = Some (Panic PIndex).
Proof.
  intros Hl. induction hops as [|h hops IH]; intros pre post ws Hpre Hlen Hpost Hws Hd.
  { destruct post; [|done]. exists []. split; [done|]. split; [constructor|].
    split; [apply submseteq_nil_l|constructor]. }
  destruct post as [|[x|] post]; [done| |]; injection Hlen as Hlen; cbn [select_loop spare].
  - case_bool_decide as Hm; cbn [andb]; cycle 1.
    { pose proof (pick_exhausted s h (length pre) (pre ++ Some x :: post) ws 0) as E.
      rewrite Nat.sub_0_r in E. change (Z.of_nat 0) with 0 in E. rewrite E; [done| |lia].
      destruct (left_ ws); [done|]. cbn in Hm. lia. }
    rewrite pick_filled; cycle 1.
    { intros w Hw. destruct (Hws w Hw) as (d & _ & Hdw & _). by exists d. }
    { intros H. rewrite H in Hm. cbn in Hm. lia. }
    assert (good s k x) as Hx by (apply Hpost; by left).
    specialize (IH (pre ++ [Some x]) post ws). rewrite length_app, Nat.add_1_r, <- app_assoc in IH.
    cbn [app] in IH. ospecialize* IH; [|done| |done| |].
    { apply Forall_app. split; [done|]. constructor; [by exists x|constructor]. }
    { intros y Hy. apply Hpost. by right. }
    { intros g. specialize (Hd g). rewrite demand_cons in Hd. lia. }
    destruct (spare post _); [|exact IH]. destruct IH as (post' & E & Hf & Hp & Hg).
    exists (Some x :: post'). rewrite E, <- app_assoc. split; [done|]. split; [by constructor|].
    split; [done|]. constructor; [by exists x|done].
  - pose proof (Hd h) as Hdh. rewrite demand_cons, decide_True in Hdh by done.
    destruct (pick_open s k h pre post ws str) as (j & l & Hw & Hh & ->); [done|done|done|lia|].
    assert (good s k l) as Hl'.
    { apply Hws, list_elem_of_omap. exists (Some l). split; [|done]. by eapply list_elem_of_lookup_2. }
    pose proof (take_drop_middle ws j (Some l) Hw) as Ews.
    set (w1 := take j ws) in *. set (w2 := drop (S j) ws) in *.
    assert (length w1 = j) as Lw1.
    { apply lookup_lt_Some in Hw. unfold w1. rewrite length_take. lia. }
    rewrite <- Ews in Hws, Hd |- *. rewrite <- Lw1, insert_mid.
    specialize (IH (pre ++ [Some l]) post (w1 ++ None :: w2)).
    rewrite length_app, Nat.add_1_r, <- app_assoc in IH. cbn [app] in IH.
    ospecialize* IH; [|done| | | |].
    { apply Forall_app. split; [done|]. constructor; [by exists l|constructor]. }
    { intros y Hy. apply Hpost. by right. }
    { intros w Hin. apply Hws. rewrite left_mid. by right. }
    { intros g. specialize (Hd g). rewrite demand_cons, supply_mid, Hh in Hd.
      repeat case_decide; naive_solver lia. }
    assert (length (left_ (w1 ++ Some l :: w2)) = S (length (left_ (w1 ++ None :: w2)))) as ->
      by (by rewrite left_mid).
    rewrite Nat.sub_succ, Nat.sub_0_r.
    destruct (spare post _); [|exact IH]. destruct IH as (post' & E & Hf & Hp & Hg).
    exists (Some l :: post'). rewrite E, <- app_assoc. split; [done|].
    split; [constructor; [split; [by eexists|done]|done]|].
    split; [rewrite left_mid; cbn [picks]; by apply submseteq_skip|].
    constructor; [by exists l|done].
Qed.

(** ** The whole selection *)

Context (shuffleA_perm : ∀ l, shuffleA l ≡ₚ l) (shuffleS_perm : ∀ l, shuffleS l ≡ₚ l).

Lemma address_string_run s l n :
  goindex (nodes s) 0 = Ret l → nodeAt s !! l = Some n → Addresses n ≠ [] →
  ∃ str, ∀ b, GetLocalNodeAddressString shuffleA Sprint (with_locked b s) = Ret (str, with_locked b s).
Proof.
  intros Hl Hn Ha. destruct (shuffleA (Addresses n)) as [|a r] eqn:Es.
  { pose proof (shuffleA_perm (Addresses n)) as P. rewrite Es in P. symmetry in P.
    by apply Permutation_nil_r in P. }
  exists (Sprint a). intros b.
  unfold GetLocalNodeAddressString, GetLocalNodeAddress, GetLocalNodeAddresses, GetLocalNode.
  set (s' := with_locked b s).
  assert (∀ A (f : list Multiaddr → GoM Manager A),
            (((s0 ← get; lift (goindex (nodes s0) 0)) ≫= λ l0, n0 ← node_at l0; mret (Addresses n0)) ≫= f) s'
            = f (Addresses n) s') as E.
  { intros A f. rewrite <- bind_assoc.
    rewrite (bind_run (s0 ← get; lift (goindex (nodes s0) 0)) _ s' l s').
    - rewrite (bind_run _ _ s' (Addresses n) s'); [done|].
      by rewrite (bind_run _ _ _ _ _ (node_at_run s' l n Hn)).
    - change ((get ≫= ?f) s') with (f s' s'). cbn beta. unfold lift.
      change (nodes s') with (nodes s). by rewrite Hl. }
  rewrite (bind_run _ _ s' a s'); [done|]. rewrite E. unfold lift. by rewrite Es.
Qed.

Lemma left_candidates s have :
  left_ (candidates s have)
  = filter (λ x, is_Some (header_of s x) ∧
                 Forall (λ y, (y ≫= header_of s) = None ∨ (y ≫= header_of s) ≠ header_of s x) have)
      (Sessions s).
Proof.
  unfold candidates. induction (filter _ (Sessions s)) as [|x l IH]; [done|].
  cbn. f_equal. exact IH.
Qed.

Lemma left_perm (l l' : list (option loc)) : l ≡ₚ l' → left_ l ≡ₚ left_ l'.
Proof. intros P. by rewrite P. Qed.

Lemma supply_perm s h l l' : l ≡ₚ l' → supply s h l = supply s h l'.
Proof. intros P. unfold supply. by rewrite P. Qed.

Lemma length_candidates s have : length (left_ (candidates s have)) = length (candidates s have).
Proof. rewrite left_candidates. unfold candidates. by rewrite length_fmap. Qed.

(** C34: what [SelectHops] does when there are as many candidates for every hop as
    the caller left positions open for it, and nodes have equally many addresses.
    If a candidate is left whenever the loop comes to a position the caller filled,
    it terminates and releases the mutex: the caller's sessions stay where they
    were, each open position gets a session of its hop, no session is chosen
    twice, and none with the key of one the caller has.  Otherwise, the candidates
    all taken, it runs past their end and panics, although nothing was left to
    choose. *)
Theorem SelectHops_fills s k hops have l n :
  wf s → goindex (nodes s) 0 = Ret l → nodeAt s !! l = Some n → Addresses n ≠ [] →
  (∀ x, x ∈ Sessions s ∨ Some x ∈ have → good s k x) → length have = length hops →
  (∀ h, (demand h hops have ≤ supply s h (candidates s have))%nat) →
  if spare have (length (candidates s have)) then
    ∃ so, SelectHops shuffleA shuffleS String Sprint hops have s = Some (Ret (so, s)) ∧
      fills s hops have so ∧ NoDup (picks have so) ∧
      ∀ x, x ∈ picks have so →
        x ∈ Sessions s ∧ ∀ y, Some y ∈ have → header_of s y ≠ header_of s x
  else SelectHops shuffleA shuffleS String Sprint hops have s = Some (Panic PIndex).
Proof.
  intros W Hl Hn Ha Hgood Hlen Hd.
  destruct (address_string_run s l n Hl Hn Ha) as [str Hstr].
  pose proof (Hstr (sm_locked s)) as H0. assert (with_locked (sm_locked s) s = s) as Es by (by destruct s).
  rewrite Es in H0. unfold SelectHops. rewrite H0. unfold Lock. rewrite (wf_free s W).
  pose proof (shuffleS_perm (candidates s have)) as P.
  rewrite bool_decide_false by (rewrite Hlen; auto).
  change (candidates (with_locked true s) have) with (candidates s have).
  pose proof (select_loop_run (with_locked true s) k str hops (Hstr true) [] have
              (shuffleS (candidates s have))) as R. ospecialize* R; [constructor|done| | | |].
  { intros x Hx. apply Hgood. by right. }
  { intros x Hx. rewrite P, left_candidates in Hx. apply Hgood. left.
    by apply list_elem_of_filter in Hx as [_ ?]. }
  { intros h. rewrite (supply_perm _ h _ _ P). apply Hd. }
  assert (length (left_ (shuffleS (candidates s have))) = length (candidates s have)) as EL
    by (by rewrite P, length_candidates).
  cbn [length app] in R. rewrite EL in R.
  destruct (spare have _); [|by rewrite R]. destruct R as (so & E & Hf & Hp & Hg).
  rewrite E. exists so. cbn [mbind Out_bind].
  rewrite (list_addresses_run _ k so Hg). cbn. rewrite relocked by apply W. split; [done|].
  split; [exact Hf|]. rewrite P, left_candidates in Hp. split.
  - destruct (submseteq_Permutation _ _ Hp) as [rest Pr].
    apply (NoDup_app (picks have so) rest). rewrite <- Pr. apply NoDup_filter.
    eapply NoDup_fmap_1. apply (wf_distinct s W).
  - intros x Hx. eapply elem_of_submseteq in Hx; [|exact Hp].
    apply list_elem_of_filter in Hx as [[[key Hk] Hx] HxS]. split; [done|].
    intros y Hy Heq. rewrite Forall_forall in Hx. specialize (Hx (Some y) Hy). cbn in Hx.
    destruct Hx as [Hx|Hx]; [|done]. congruence.
Qed.

(** Without a candidate for the first open position the selection fails hard:
    if there are other candidates it goes round them for ever, whatever the
    shuffle and however long one waits, and never releases the manager's mutex; if
    there are none it indexes an empty slice and panics. *)
Theorem SelectHops_starves s h hops have l n :
  wf s → goindex (nodes s) 0 = Ret l → nodeAt s !! l = Some n → Addresses n ≠ [] →
  length have = length hops → supply s h (candidates s (None :: have)) = 0%nat →
  let ws := shuffleS (candidates s (None :: have)) in
  (candidates s (None :: have) = [] →
     SelectHops shuffleA shuffleS String Sprint (h :: hops) (None :: have) s = Some (Panic PIndex)) ∧
  (candidates s (None :: have) ≠ [] →
     SelectHops shuffleA shuffleS String Sprint (h :: hops) (None :: have) s = None ∧
     ∀ fuel, pick shuffleA String Sprint fuel h 0 (None :: have) ws 0 (with_locked true s) = None).
Proof.
  intros W Hl Hn Ha Hlen Hsup ws.
  destruct (address_string_run s l n Hl Hn Ha) as [str Hstr].
  pose proof (Hstr (sm_locked s)) as H0. assert (with_locked (sm_locked s) s = s) as Es by (by destruct s).
  rewrite Es in H0.
  pose proof (shuffleS_perm (candidates s (None :: have))) as P. fold ws in P.
  assert (SelectHops shuffleA shuffleS String Sprint (h :: hops) (None :: have) s
          = match pick shuffleA String Sprint (S (length ws)) h 0 (None :: have) ws 0 (with_locked true s) with
            | None => None
            | Some (Panic p) => Some (Panic p)
            | Some (Ret (so, ws)) =>
                match select_loop shuffleA String Sprint hops 1 so ws (with_locked true s) with
                | None => None
                | Some so => Some (so ← so; '(_, s) ← list_addresses so (with_locked true s); '(_, s) ← Unlock s; Ret (so, s))
                end
            end) as E.
  { unfold SelectHops. rewrite H0. unfold Lock. rewrite (wf_free s W).
    rewrite bool_decide_false by (cbn [length]; lia).
    change (candidates (with_locked true s) (None :: have)) with (candidates s (None :: have)).
    fold ws. cbn [select_loop]. by destruct (pick _ _ _ _ _ _ _ _ _ _) as [[[? ?]|]|]. }
  split.
  - intros Hnil. rewrite Hnil in P. apply Permutation_nil_r in P. rewrite E, P. done.
  - intros Hne. assert (∀ fuel cur, (cur < length ws)%nat →
        pick shuffleA String Sprint fuel h 0 (None :: have) ws (Z.of_nat cur) (with_locked true s) = None) as G.
    { intros fuel. induction fuel as [|fuel IH]; intros cur Hlt; [done|].
      destruct (lookup_lt_is_Some_2 ws cur Hlt) as [w Hw].
      assert (w ∈ candidates s (None :: have)) as Hin by (rewrite <- P; by eapply list_elem_of_lookup_2).
      pose proof Hin as Hin'. apply list_elem_of_fmap in Hin as (x & -> & Hx).
      apply list_elem_of_filter in Hx as [_ Hx]. destruct (wf_sessions s W x Hx) as (d & _ & Hd & _).
      cbn [pick]. rewrite (goindex_lookup _ _ _ Hw). cbn [lookup list_lookup].
      change (dataAt (with_locked true s)) with (dataAt s). rewrite Hd.
      rewrite bool_decide_false; cycle 1.
      { intros Hh. unfold supply in Hsup. apply length_zero_iff_nil in Hsup.
        assert (Some x ∈ filter (λ w, hop_of s w = Some h) (candidates s (None :: have))) as Hf.
        { apply list_elem_of_filter. split; [|done]. cbn. rewrite Hd. cbn. by rewrite Hh. }
        rewrite Hsup in Hf. by apply not_elem_of_nil in Hf. }
      case_bool_decide.
      - apply (IH 0%nat). destruct ws; [by cbn in Hlt|cbn; lia].
      - replace (Z.of_nat cur + 1)%Z with (Z.of_nat (S cur)) by lia. apply IH. unfold zlen in *. lia. }
    assert (0 < length ws)%nat as Hpos.
    { rewrite P. destruct (candidates _ _); [done|cbn; lia]. }
    split; [|intros fuel; by apply (G fuel 0%nat)]. rewrite E.
    change 0 with (Z.of_nat 0). by rewrite G.
Qed.
End Select.

(** ** Choosing nodes for new sessions *)

Section Unused.
Context {cr : Crypto} {ma : Multiaddrs} {pe : Peers} {tp : Transports}.

(** [n] is a known node of the list with nothing in its slot [k]. *)
Definition vacant (s : Manager) (nodeList : list loc) (k : nat) (x : loc) : Prop :=
  x ∈ nodeList ∧ ∃ n c, nodeAt s !! x = Some n ∧ CircuitCache s !! n_ID n = Some c ∧
                       c !! k = Some None.

Definition chosen_ok (s : Manager) (nodeList c : list loc) : Prop :=
  (length c ≤ 5)%nat ∧ ∀ k x, c !! k = Some x → vacant s nodeList k x.

Lemma find_node_run s id l :
  Forall (λ x, is_Some (nodeAt s !! x)) l →
  ∃ r, find_node (λ n, holds (n_ID n = id)) l s = Ret (r, s) ∧
    match r with
    | Some x => x ∈ l ∧ ∃ n, nodeAt s !! x = Some n ∧ n_ID n = id
    | None => ∀ x n, x ∈ l → nodeAt s !! x = Some n → n_ID n ≠ id
    end.
Proof.
  induction 1 as [|x l [n Hn] _ (r & E & IH)].
  { exists None. split; [done|]. intros x n Hx. by apply not_elem_of_nil in Hx. }
  cbn [find_node]. rewrite (bind_run _ _ _ _ _ (node_at_run s x n Hn)).
  rewrite (bind_run _ _ s (bool_decide (n_ID n = id)) s) by done. case_bool_decide as Hid.
  - exists (Some x). split; [done|]. split; [by left|]. by exists n.
  - exists r. split; [done|]. destruct r as [y|].
    + destruct IH as [Hy IH]. split; [by right|done].
    + intros y n' [->|Hy]%elem_of_cons Hn'; [congruence|]. by apply (IH y).
Qed.

Lemma chosen_snoc s nl c x : chosen_ok s nl c → (length c < 5)%nat → vacant s nl (length c) x →
  chosen_ok s nl (c ++ [x]).
Proof.
  intros [Hl Hc] Hlt Hx. split; [rewrite length_app; cbn; lia|]. intros k y Hk.
  apply lookup_app_Some in Hk as [Hk|[Hk H]]; [by apply Hc|].
  apply list_lookup_singleton_Some in H as [H <-]. by replace k with (length c) by lia.
Qed.

(** One pass over the cache keeps the choice right, and extends it when some
    circuit of the pass has the next slot free. *)
Lemma unused_pass_run s nl ids : Forall (λ x, is_Some (nodeAt s !! x)) nl →
  (∀ id c, CircuitCache s !! id = Some c → length c = 5%nat) →
  ∀ c, chosen_ok s nl c → (∀ id, id ∈ ids → is_Some (CircuitCache s !! id)) →
  ∃ c', unused_pass ids nl c s = Ret (c', s) ∧ chosen_ok s nl c' ∧ (length c ≤ length c')%nat ∧
    ((length c < 5)%nat →
     (∃ x n, vacant s nl (length c) x ∧ nodeAt s !! x = Some n ∧ n_ID n ∈ ids) →
     (length c < length c')%nat).
Proof.
  intros Hnl H5. induction ids as [|id ids IH]; intros c Hc Hids.
  { exists c. split; [done|]. split; [done|]. split; [done|].
    intros _ (x & n & _ & _ & H). by apply not_elem_of_nil in H. }
  cbn [unused_pass]. case_bool_decide as Hlen.
  { exists c. split; [done|]. split; [done|]. split; [done|]. lia. }
  pose proof (proj1 Hc) as Hle.
  destruct (Hids id) as [circ Hcirc]; [by left|].
  change ((get ≫= ?f) s) with (f s s). cbn beta. rewrite Hcirc.
  rewrite (bind_run _ _ s circ s) by done.
  destruct (lookup_lt_is_Some_2 circ (length c)) as [o Ho]; [rewrite (H5 _ _ Hcirc); lia|].
  rewrite (bind_run _ _ s o s) by (unfold lift; unfold zlen; by rewrite (goindex_lookup _ _ _ Ho)).
  destruct o as [y|].
  - rewrite (bind_run _ _ s c s) by done.
    destruct (IH c Hc) as (c' & E & Hc' & Hl & Hp); [intros; apply Hids; by right|].
    exists c'. split; [done|]. split; [done|]. split; [done|]. intros H (x & n & Hx & Hn & Hin).
    apply Hp; [done|]. exists x, n. split; [done|]. split; [done|].
    apply elem_of_cons in Hin as [Hin|]; [|done].
    destruct Hx as (_ & n' & c0 & Hn' & Hc0 & H0). rewrite Hn in Hn'. injection Hn' as <-.
    rewrite Hin, Hcirc in Hc0. injection Hc0 as <-. congruence.
  - destruct (find_node_run s id nl Hnl) as (r & E & Hr).
    rewrite <- bind_assoc. rewrite (bind_run _ _ s r s) by exact E.
    destruct r as [x|].
    + destruct Hr as [Hx (n & Hn & Hid)].
      assert (chosen_ok s nl (c ++ [x])) as Hc1.
      { apply chosen_snoc; [done|lia|]. split; [done|]. exists n, circ. by rewrite Hid. }
      rewrite (bind_run _ _ s (c ++ [x]) s) by done.
      destruct (IH (c ++ [x]) Hc1) as (c' & E' & Hc' & Hl & _); [intros; apply Hids; by right|].
      exists c'. rewrite length_app in Hl. cbn in Hl. split; [done|]. split; [done|]. split; lia.
    + rewrite (bind_run _ _ s c s) by done.
      destruct (IH c Hc) as (c' & E' & Hc' & Hl & Hp); [intros; apply Hids; by right|].
      exists c'. split; [done|]. split; [done|]. split; [done|]. intros H (x & n & Hx & Hn & Hin).
      apply Hp; [done|]. exists x, n. split; [done|]. split; [done|].
      apply elem_of_cons in Hin as [Hin|]; [|done]. by destruct (Hr x n (proj1 Hx) Hn).
Qed.

Lemma unused_loop_run s nl (order : nat → list ID) : Forall (λ x, is_Some (nodeAt s !! x)) nl →
  (∀ id c, CircuitCache s !! id = Some c → length c = 5%nat) →
  (∀ k id, id ∈ order k ↔ is_Some (CircuitCache s !! id)) →
  (∀ k, (k < 5)%nat → ∃ x, vacant s nl k x) →
  ∀ fuel k c, chosen_ok s nl c → (5 - length c ≤ fuel)%nat →
  ∃ c', unused_loop fuel k order nl c s = Some (Ret (c', s)) ∧ chosen_ok s nl c' ∧ length c' = 5%nat.
Proof.
  intros Hnl H5 Ho Hv. induction fuel as [|fuel IH]; intros k c Hc Hf; pose proof (proj1 Hc); cbn [unused_loop].
  - rewrite bool_decide_false by lia. exists c. split; [done|]. split; [done|]. lia.
  - case_bool_decide as Hlt; [|exists c; split; [done|]; split; [done|]; lia].
    destruct (unused_pass_run s nl (order k) Hnl H5 c Hc) as (c' & -> & Hc' & _ & Hp).
    { intros id. by apply Ho. }
    apply IH; [done|]. enough (length c < length c')%nat by lia. apply Hp; [done|].
    destruct (Hv (length c) Hlt) as [x Hx]. pose proof Hx as (_ & n & c0 & Hn & Hc0 & _).
    exists x, n. split; [done|]. split; [done|]. apply Ho. by exists c0.
Qed.

(** Empty circuits for the nodes that have none change no slot. *)
Lemma add_circuits_run s l : Forall (λ x, is_Some (nodeAt s !! x)) l →
  ∃ c, add_circuits l s = Ret (tt, with_Cache c s) ∧
    (∀ id, c !! id = match CircuitCache s !! id with
                     | Some v => Some v
                     | None => if decide (Exists (λ x, (n_ID <$> nodeAt s !! x) = Some id) l)
                               then Some NewCircuit else None
                     end).
Proof.
  intros H. revert s H. induction l as [|x l IH]; intros s H.
  { exists (CircuitCache s). split; [by destruct s|]. intros id.
    rewrite decide_False by (by intros ?%Exists_nil). by destruct (_ !! _). }
  apply Forall_cons in H as [[n Hn] H]. cbn [add_circuits].
  rewrite (bind_run _ _ _ _ _ (node_at_run s x n Hn)).
  change ((get ≫= ?f) s) with (f s s). cbn beta.
  destruct (CircuitCache s !! n_ID n) as [v|] eqn:Ec.
  - rewrite (bind_run _ _ s tt s) by done. destruct (IH s H) as (c & E & Hc). exists c.
    split; [done|]. intros id. rewrite Hc. destruct (CircuitCache s !! id) eqn:Ei; [done|].
    apply decide_ext. rewrite Exists_cons, Hn. cbn. naive_solver congruence.
  - set (s1 := with_Cache (<[n_ID n := NewCircuit]> (CircuitCache s)) s).
    rewrite (bind_run _ _ s tt s1) by done. destruct (IH s1 H) as (c & E & Hc). exists c.
    split; [done|]. intros id. rewrite Hc. cbn [CircuitCache s1 with_Cache].
    destruct (decide (id = n_ID n)) as [->|Hne].
    + rewrite lookup_insert_eq, Ec. rewrite decide_True; [done|].
      apply Exists_cons. left. by rewrite Hn.
    + rewrite lookup_insert_ne by done. destruct (CircuitCache s !! id); [done|].
      apply decide_ext. rewrite Exists_cons, Hn. cbn. naive_solver congruence.
Qed.

(** If for each of the five positions some known node has that slot free,
    [SelectUnusedCircuit] terminates, in whatever order the map is iterated, after
    at most five passes: it releases the mutex, returns five known nodes, the
    [k]-th with its slot [k] free, and changes no slot of any circuit. *)
Theorem SelectUnusedCircuit_vacant s (order : Manager → nat → list ID) fuel :
  wf s → (∀ s' k id, id ∈ order s' k ↔ is_Some (CircuitCache s' !! id)) → (5 ≤ fuel)%nat →
  (∀ k, 0 ≤ k < 5 → ∃ x n, x ∈ drop 1 (nodes s) ∧ nodeAt s !! x = Some n ∧ slot s (n_ID n) k = None) →
  ∃ c s', SelectUnusedCircuit fuel order s = Some (Ret (c, s')) ∧ length c = 5%nat ∧
    (∀ k x, c !! k = Some x →
       x ∈ drop 1 (nodes s) ∧ ∃ n, nodeAt s !! x = Some n ∧ slot s (n_ID n) (Z.of_nat k) = None) ∧
    (∀ id h, slot s' id h = slot s id h) ∧ s' = with_Cache (CircuitCache s') s.
Proof.
  intros W Ho Hf Hv. set (nl := drop 1 (nodes s)) in *.
  assert (Forall (λ x, is_Some (nodeAt s !! x)) nl) as Hnl by (apply Forall_drop, W).
  destruct (add_circuits_run (with_locked true s) nl Hnl) as (c0 & E0 & Hc0).
  cbn [CircuitCache nodeAt with_locked] in Hc0.
  set (s1 := with_Cache c0 (with_locked true s)) in *.
  assert (∀ id h, slot s1 id h = slot s id h) as Hslot.
  { intros id h. unfold slot. cbn [CircuitCache s1 with_Cache]. rewrite Hc0.
    destruct (CircuitCache s !! id); [done|]. case_decide; [|done].
    cbn [mbind option_bind]. destruct (NewCircuit !! Z.to_nat h) as [o|] eqn:E; [|done].
    by apply lookup_replicate in E as [-> _]. }
  assert (∀ id c, CircuitCache s1 !! id = Some c → length c = 5%nat) as H5.
  { intros id c. cbn [CircuitCache s1 with_Cache]. rewrite Hc0.
    destruct (CircuitCache s !! id) eqn:E; [|case_decide; [by intros [= <-]|done]].
    intros [= <-]. by eapply W. }
  assert (∀ k x n c, nodeAt s !! x = Some n → CircuitCache s1 !! n_ID n = Some c → (k < 5)%nat →
            slot s (n_ID n) (Z.of_nat k) = None → c !! k = Some None) as Hfree.
  { intros k x n c Hn Hc Hk. rewrite <- Hslot. unfold slot. rewrite Hc. cbn. rewrite Nat2Z.id.
    destruct (lookup_lt_is_Some_2 c k) as [o Eo]; [rewrite (H5 _ _ Hc); lia|].
    rewrite Eo. cbn. by intros ->. }
  destruct (unused_loop_run s1 nl (order s1) Hnl H5 (Ho s1)) with (fuel := fuel) (k := 0%nat) (c := @nil loc)
    as (c & E & [_ Hc] & Hlen).
  { intros k Hk. destruct (Hv (Z.of_nat k)) as (x & n & Hx & Hn & Hs); [lia|].
    assert (is_Some (CircuitCache s1 !! n_ID n)) as [c Hc].
    { cbn [CircuitCache s1 with_Cache]. rewrite Hc0. destruct (CircuitCache s !! n_ID n); [done|].
      rewrite decide_True; [done|]. apply Exists_exists. exists x. split; [done|]. by rewrite Hn. }
    exists x. split; [done|]. exists n, c. split; [done|]. split; [done|]. by apply (Hfree k x n c). }
  { split; [cbn; lia|]. intros k x Hk. done. }
  { cbn [length]. lia. }
  exists c, (with_Cache c0 s). split; [|split; [done|split; [|split; [|by destruct s]]]].
  - unfold SelectUnusedCircuit. assert ((Lock ;; s ← get;
         (if bool_decide (nodes s = []) then panicM (PMsg "makeslice: len out of range") else mret tt) ;;
         add_circuits (drop 1 (nodes s)) ;; mret (drop 1 (nodes s))) s = Ret (nl, s1)) as ->.
    { rewrite (bind_run _ _ s tt (with_locked true s)) by (unfold Lock; by rewrite (wf_free s W)).
      change ((get ≫= ?f) ?s) with (f s s). cbn beta.
      rewrite bool_decide_false by apply W. rewrite (bind_run _ _ _ tt (with_locked true s)) by done.
      by rewrite (bind_run _ _ _ tt s1) by exact E0. }
    rewrite E. cbn. pose proof (wf_free s W) as Hfr. destruct s; cbn in *. by rewrite Hfr.
  - intros k x Hk. destruct (Hc k x Hk) as [Hx (n & c1 & Hn & Hc1 & Hs)]. split; [done|].
    exists n. split; [done|]. rewrite <- Hslot. unfold slot. rewrite Hc1. cbn. rewrite Nat2Z.id.
    by rewrite Hs.
  - intros id h. rewrite <- Hslot. done.
Qed.
End Unused.

#[local] Existing Instances Toy.crypto Toy.multiaddrs ToyNet.transports.

(** A manager that knows one relay and has no sessions. *)
Definition toy_fresh : Manager :=
  MkManager {[ 1%positive := ToySess.node x01; 2%positive := ToySess.node x02 ]} ∅ false
    [1%positive; 2%positive] [] [] ∅ 1.

Lemma toy_fresh_wf : wf toy_fresh.
Proof.
  constructor; try done; try (intros; by apply not_elem_of_nil in H);
    try (by constructor); try (apply (bool_decide_unpack _); by vm_compute);
    intros *; try by intros ?%not_elem_of_nil.
Qed.

Lemma SelectHops_fills_witness :
  ∃ so, SelectHops id id (λ _, "a"%string) (λ _, "a"%string) [0; 1] [None; None] ToySess.heap
        = Some (Ret (so, ToySess.heap)) ∧ NoDup (picks [None; None] so).
Proof.
  pose proof (SelectHops_fills id id (λ _, "a"%string) (λ _, "a"%string) ltac:(done) ltac:(done)
    ToySess.heap 1 [0; 1] [None; None] 1%positive (ToySess.node x01) ToySess.heap_wf) as H.
  cbn [spare] in H. destruct H as (so & E & _ & N & _).
  - done.
  - done.
  - done.
  - intros x [Hx|Hx].
    + repeat (apply elem_of_cons in Hx as [->|Hx]; [eexists _, _; by repeat split|]).
      by apply not_elem_of_nil in Hx.
    + repeat (apply elem_of_cons in Hx as [Hx|Hx]; [done|]). by apply not_elem_of_nil in Hx.
  - done.
  - intros h. destruct (decide (h = 0)) as [->|]; [by vm_compute; lia|].
    destruct (decide (h = 1)) as [->|]; [by vm_compute; lia|].
    unfold demand. cbn [zip zip_with]. rewrite !filter_cons_False by naive_solver congruence. cbn; lia.
  - exists so. split; [exact E|exact N].
Defined.

Lemma SelectHops_starves_witness :
  SelectHops id id (λ _, "a"%string) (λ _, "a"%string) [3] [None] ToySess.heap = None.
Proof.
  destruct (SelectHops_starves id id (λ _, "a"%string) (λ _, "a"%string) ltac:(done) ltac:(done)
    ToySess.heap 3 [] [] 1%positive (ToySess.node x01) ToySess.heap_wf) as [_ H].
  - done.
  - done.
  - done.
  - done.
  - by vm_compute.
  - apply H. by vm_compute.
Defined.

Lemma SelectUnusedCircuit_vacant_witness :
  ∃ c s', SelectUnusedCircuit 5 (λ s _, elements (dom (CircuitCache s))) toy_fresh = Some (Ret (c, s')) ∧
    length c = 5%nat.
Proof.
  destruct (SelectUnusedCircuit_vacant toy_fresh (λ s _, elements (dom (CircuitCache s))) 5 toy_fresh_wf)
    as (c & s' & E & L & _).
  - intros s' _ id. by rewrite elem_of_elements, elem_of_dom.
  - lia.
  - intros k Hk. exists 2%positive, (ToySess.node x02). split; [by left|]. by split.
  - exists c, s'. by split.
Defined.
