(* ===== verification/Hidden.v ===== *)
(** * The hidden service manager

    Models [Hidden] of [pkg/hidden/hidden.go] (its routing headers and replies are
    in [Onion]): the hidden services hosted here, the introductions received for
    others, and the intros known from gossip, each a map keyed by public key, under
    one mutex.  Go's map iteration order is an argument wherever a method ranges
    over a map. *)

From S2P Require Export SelectProps.

Section Hidden.
Context {cr : Crypto} {ma : Multiaddrs} {pe : Peers} {tp : Transports}.

(** [Introduction]: a pointer to an intro, and the reply header. *)
Record Introduction := MkIntroduction { in_Intro : option Intro.Ad; in_Reply : ReplyHeader }.

Record LocalHiddenService := MkLocal {
  lh_Prv : Prv; CurrentIntros : list Intro.Ad; lh_Service : option ServiceR }.

Record Hidden := MkHidden {
  h_locked : bool;
  MyIntros : gmap PubBytes Introduction;
  KnownIntros : gmap PubBytes Intro.Ad;
  h_Services : gmap PubBytes LocalHiddenService;
}.

Definition hid_locked b (h : Hidden) := MkHidden b (MyIntros h) (KnownIntros h) (h_Services h).
Definition with_MyIntros m (h : Hidden) := MkHidden (h_locked h) m (KnownIntros h) (h_Services h).
Definition with_KnownIntros m (h : Hidden) := MkHidden (h_locked h) (MyIntros h) m (h_Services h).
Definition with_HServices m (h : Hidden) := MkHidden (h_locked h) (MyIntros h) (KnownIntros h) m.

Definition NewHiddenRouting : Hidden := MkHidden false ∅ ∅ ∅.

Definition Hidden_Lock : GoM Hidden unit := λ h,
  if h_locked h then Panic PBlock else Ret (tt, hid_locked true h).
Definition Hidden_Unlock : GoM Hidden unit := λ h,
  if h_locked h then Ret (tt, hid_locked false h) else Panic PLock.
(** [hr.Lock()] ... [hr.Unlock()]: not deferred, so a panic leaves it locked. *)
Definition between {A} (m : GoM Hidden A) : GoM Hidden A :=
  Hidden_Lock ;; a ← m; Hidden_Unlock ;; mret a.

(** The lookups that the handlers write themselves. *)
Definition known_intro (key : PubBytes) (h : Hidden) : option Intro.Ad := KnownIntros h !! key.
Definition local_service (key : PubBytes) (h : Hidden) : option LocalHiddenService := h_Services h !! key.

(** A fresh entry replaces whatever the key had. *)
Definition AddHiddenService (svc : option ServiceR) (key : Prv) (i : Intro.Ad) : GoM Hidden unit :=
  let pk := Pub_ToBytes (PubKey key) in
  between (h ← get;
    set (with_HServices (<[pk := MkLocal key [i] svc]> (h_Services h)) h)).

(** The first introduction of a key stays. *)
Definition AddIntro (pk : option Pub) (i : Introduction) : GoM Hidden unit :=
  between (
    match pk with
    | None => panicM PNil
    | Some pk =>
        let key := Pub_ToBytes pk in
        h ← get;
        match MyIntros h !! key with
        | Some _ => mret tt
        | None => set (with_MyIntros (<[key := i]> (MyIntros h)) h)
        end
    end).

Definition AddIntroToHiddenService (key : PubBytes) (i : Intro.Ad) : GoM Hidden unit :=
  between (
    h ← get;
    match h_Services h !! key with
    | None => panicM PNil
    | Some s => set (with_HServices
        (<[key := MkLocal (lh_Prv s) (CurrentIntros s ++ [i]) (lh_Service s)]> (h_Services h)) h)
    end).

Definition Hidden_Delete (key : PubBytes) : GoM Hidden (option Introduction) :=
  between (
    h ← get;
    match MyIntros h !! key with
    | Some i => set (with_MyIntros (delete key (MyIntros h)) h) ;; mret (Some i)
    | None => mret None
    end).

(** The first intro with the identifier, in the services as [orderS] lists them,
    is cut out of its service's list; the first one among the known intros, as
    [orderK] lists them, is deleted. *)
Definition DeleteIntroByID (orderS orderK : list PubBytes) (id : ID) : GoM Hidden unit :=
  between (
    h ← get;
    (match list_find (λ k, Exists (λ a, ad_ID (Intro.base a) = id)
                             (from_option CurrentIntros [] (h_Services h !! k))) orderS with
     | Some (_, k) =>
         match h_Services h !! k with
         | Some s =>
             match list_find (λ a, ad_ID (Intro.base a) = id) (CurrentIntros s) with
             | Some (j, _) =>
                 tmp ← lift (RemovePacket (CurrentIntros s) (Z.of_nat j));
                 set (with_HServices (<[k := MkLocal (lh_Prv s) tmp (lh_Service s)]> (h_Services h)) h)
             | None => mret tt
             end
         | None => mret tt
         end
     | None => mret tt
     end) ;;
    h ← get;
    match list_find (λ k, (ad_ID ∘ Intro.base <$> KnownIntros h !! k) = Some id) orderK with
    | Some (_, k) => set (with_KnownIntros (delete k (KnownIntros h)) h)
    | None => mret tt
    end).

(** The named result is never assigned. *)
Definition DeleteKnownIntro (key : PubBytes) : GoM Hidden (option Introduction) :=
  between (h ← get;
    set (with_KnownIntros (delete key (KnownIntros h)) h) ;; mret None).

(** The keys of the three maps in turn; for an introduction the key of its intro
    is tried, not the key it is stored under. *)
Fixpoint match_intros (clk : CloakedPubKey) (order : list PubBytes) (h : Hidden)
    : Out (option PubBytes) :=
  match order with
  | [] => Ret None
  | k :: order =>
      match (i ← MyIntros h !! k; a ← in_Intro i; ad_Key (Intro.base a)) with
      | None => Panic PNil
      | Some pk => if Match clk (Pub_ToBytes pk) then Ret (Some (Pub_ToBytes pk))
                   else match_intros clk order h
      end
  end.

Definition FindCloakedHiddenService (orderM orderS orderK : list PubBytes) (clk : CloakedPubKey)
    : GoM Hidden (option PubBytes) := λ h,
  m ← match_intros clk orderM h;
  Ret (match m with
       | Some k => Some k
       | None => snd <$> list_find (λ k, Match clk k = true) (orderS ++ orderK)
       end, h).

Definition FindHiddenService (key : PubBytes) : GoM Hidden (option LocalHiddenService) :=
  between (h ← get; mret (h_Services h !! key)).
Definition FindIntroductionUnsafe (key : PubBytes) : GoM Hidden (option Introduction) :=
  h ← get; mret (MyIntros h !! key).
Definition FindIntroduction (key : PubBytes) : GoM Hidden (option Introduction) :=
  between (FindIntroductionUnsafe key).
Definition FindKnownIntroUnsafe (key : PubBytes) : GoM Hidden (option Intro.Ad) :=
  h ← get; mret (KnownIntros h !! key).
Definition FindKnownIntro (key : PubBytes) : GoM Hidden (option Intro.Ad) :=
  between (FindKnownIntroUnsafe key).

(** ** What the manager keeps *)

(** Free, and every introduction stored under the key of its intro. *)
Record hidden_ok (h : Hidden) : Prop := {
  hok_free : h_locked h = false;
  hok_keys : ∀ k i, MyIntros h !! k = Some i →
    ∃ a pk, in_Intro i = Some a ∧ ad_Key (Intro.base a) = Some pk ∧ Pub_ToBytes pk = k;
}.

(** A key some map of the manager has. *)
Definition knows (h : Hidden) (k : PubBytes) : Prop :=
  is_Some (MyIntros h !! k) ∨ is_Some (h_Services h !! k) ∨ is_Some (KnownIntros h !! k).

Lemma between_run {A} (m : GoM Hidden A) h a h' :
  h_locked h = false → m (hid_locked true h) = Ret (a, h') → h_locked h' = true →
  between m h = Ret (a, hid_locked false h').
Proof.
  intros Hl E Hl'. unfold between. rewrite (bind_run _ _ h tt (hid_locked true h)); cycle 1.
  { unfold Hidden_Lock. by rewrite Hl. }
  rewrite (bind_run _ _ _ _ _ E). rewrite (bind_run _ _ _ tt (hid_locked false h')); [done|].
  unfold Hidden_Unlock. by rewrite Hl'.
Qed.

Lemma match_intros_run clk order h :
  hidden_ok h → (∀ k, k ∈ order → is_Some (MyIntros h !! k)) →
  match_intros clk order h = Ret (snd <$> list_find (λ k, Match clk k = true) order).
Proof.
  intros H. induction order as [|k order IH]; intros Ho; [done|]. cbn [match_intros].
  destruct (Ho k) as [i Hi]; [by left|]. destruct (hok_keys h H k i Hi) as (a & pk & Ha & Hk & E).
  rewrite Hi. cbn [mbind option_bind]. rewrite Ha. cbn. rewrite Hk, E.
  destruct (Match clk k) eqn:Em.
  - by rewrite decide_True.
  - rewrite decide_False by congruence. rewrite IH; [|intros; apply Ho; by right].
    by destruct (list_find _ order) as [[j y]|].
Qed.

(** The relay of a hidden service recognises its clients: whatever order the
    maps are iterated in, [FindCloakedHiddenService] of a cloaked key answers with
    a key the manager knows and the cloak is of, and with none only if the cloak is
    of no key it knows; introductions added under their own key keep the manager
    in the state this needs, and the one stored first for a key stays. *)
Theorem FindCloakedHiddenService_complete h clk orderM orderS orderK :
  hidden_ok h →
  (∀ k, k ∈ orderM ↔ is_Some (MyIntros h !! k)) → (∀ k, k ∈ orderS ↔ is_Some (h_Services h !! k)) →
  (∀ k, k ∈ orderK ↔ is_Some (KnownIntros h !! k)) →
  (∃ r, FindCloakedHiddenService orderM orderS orderK clk h = Ret (r, h) ∧
     match r with
     | Some k => knows h k ∧ Match clk k = true
     | None => ∀ k, knows h k → Match clk k = false
     end) ∧
  ∀ a pk r, ad_Key (Intro.base a) = Some pk →
    ∃ h', AddIntro (Some pk) (MkIntroduction (Some a) r) h = Ret (tt, h') ∧ hidden_ok h' ∧
      MyIntros h' !! Pub_ToBytes pk
      = Some (default (MkIntroduction (Some a) r) (MyIntros h !! Pub_ToBytes pk)) ∧
      ∀ k, k ≠ Pub_ToBytes pk → MyIntros h' !! k = MyIntros h !! k.
Proof.
  intros H HM HS HK. split.
  - unfold FindCloakedHiddenService. rewrite (match_intros_run clk orderM h H) by (intros; by apply HM).
    cbn [mbind Out_bind]. eexists. split; [done|].
    destruct (list_find (λ k, Match clk k = true) orderM) as [[j k]|] eqn:E1; cbn.
    { apply list_find_Some in E1 as (Hk & Hm & _). split; [|done]. left. apply HM.
      by eapply list_elem_of_lookup_2. }
    destruct (list_find (λ k, Match clk k = true) (orderS ++ orderK)) as [[j k]|] eqn:E2; cbn.
    { apply list_find_Some in E2 as (Hk & Hm & _). split; [|done]. right.
      apply list_elem_of_lookup_2, elem_of_app in Hk as [Hk|Hk]; [left; by apply HS|right; by apply HK]. }
    apply list_find_None in E1, E2. rewrite Forall_forall in E1, E2.
    intros k Hk. apply not_true_is_false. destruct Hk as [Hk|[Hk|Hk]].
    + by apply E1, HM.
    + apply E2, elem_of_app. left. by apply HS.
    + apply E2, elem_of_app. right. by apply HK.
  - intros a pk r Hpk. destruct (MyIntros h !! Pub_ToBytes pk) as [i|] eqn:Ei.
    + exists (hid_locked false (hid_locked true h)). split; [|split; [|done]].
      * apply between_run; [apply H| |done]. unfold mbind, GoM_bind, get. cbn. by rewrite Ei.
      * constructor; [done|apply H].
    + exists (hid_locked false (with_MyIntros
        (<[Pub_ToBytes pk := MkIntroduction (Some a) r]> (MyIntros h)) (hid_locked true h))).
      split; [|split; [|split]].
      * apply between_run; [apply H| |done]. unfold mbind, GoM_bind, get. cbn. by rewrite Ei.
      * constructor; [done|]. cbn. intros k i Hi.
        destruct (decide (k = Pub_ToBytes pk)) as [->|Hne].
        -- rewrite lookup_insert_eq in Hi. injection Hi as <-. by exists a, pk.
        -- rewrite lookup_insert_ne in Hi by done. by apply H.
      * cbn. by rewrite lookup_insert_eq.
      * intros k Hk. cbn. by rewrite lookup_insert_ne.
Qed.
End Hidden.

#[local] Existing Instances Toy.crypto Toy.multiaddrs ToyNet.transports.

Lemma FindCloakedHiddenService_complete_witness :
  ∃ r, FindCloakedHiddenService [] [Keys_Bytes (ToySess.key x11)] []
         (Cloak (arr_of 4 [x09]) (Keys_Bytes (ToySess.key x11)))
         (with_HServices {[ Keys_Bytes (ToySess.key x11) := MkLocal (arr_of 32 [x11]) [] None ]}
            NewHiddenRouting)
       = Ret (Some r, with_HServices
                {[ Keys_Bytes (ToySess.key x11) := MkLocal (arr_of 32 [x11]) [] None ]}
                NewHiddenRouting).
Proof.
  set (h := with_HServices _ _).
  destruct (FindCloakedHiddenService_complete h (Cloak (arr_of 4 [x09]) (Keys_Bytes (ToySess.key x11)))
    [] [Keys_Bytes (ToySess.key x11)] []) as [(r & E & H) _].
  - constructor; [done|]. intros k i Hi. done.
  - intros k. split; [by intros ?%not_elem_of_nil|]. by intros [? Hi].
  - intros k. rewrite elem_of_cons. unfold h. cbn [h_Services with_HServices]. split.
    + intros [->|Hn]; [by rewrite lookup_singleton_eq|by apply not_elem_of_nil in Hn].
    + intros [v Hv]. apply lookup_singleton_Some in Hv as [<- _]. by left.
  - intros k. split; [by intros ?%not_elem_of_nil|]. by intros [? Hi].
  - destruct r as [k|]; [by exists k|]. exfalso.
    assert (Match (Cloak (arr_of 4 [x09]) (Keys_Bytes (ToySess.key x11))) (Keys_Bytes (ToySess.key x11))
            = true) as Hm by (by vm_compute).
    rewrite H in Hm; [done|]. right. left. unfold h. cbn [h_Services with_HServices].
    by rewrite lookup_singleton_eq.
Defined.
