(* ===== verification/Skins.v ===== *)
(** * Building messages: headers, skins, accounting

    Models [pkg/headers], [pkg/engine/onion_skins.go], the [Account] methods of the
    onion types, [pkg/engine/acct.go] and [pkg/engine/sess/data.go].  A message is
    built as a list of layers ([Skins]); its sessions are pointers into the
    manager's heap.  Keys come from a key set that is threaded through; nonces,
    identifiers and blinding factors drawn at random are arguments. *)

From S2P Require Export Hidden.

Section Skins.
Context {cr : Crypto} {ma : Multiaddrs} {pe : Peers} {tp : Transports}.

Abbreviation Skins := (list Onion).
(** [sessions.Circuit] as a value: five session pointers. *)
Abbreviation CircuitV := (list (option loc)).

(** The session behind a pointer. *)
Definition deref (s : option loc) : GoM Manager Data :=
  match s with Some l => data_at l | None => panicM PNil end.

(** ** Headers ([pkg/headers]) *)

Record Routing := MkRouting {
  rt_Sessions : three (option loc); rt_Keys : three (option Prv); rt_Nonces : Nonces }.

Record Headers := MkHeaders {
  hd_Forward : Routing; hd_Return : Routing; hd_ReturnPubs : three Pub }.

Definition some3 {A} (t : three A) : three (option A) :=
  let '(a, b, c) := t in (Some a, Some b, Some c).

(** [GetHeaders] with the six nonces drawn: the forward path are the first two
    hops of the circuit and [bob], the return path the last two and [alice]. *)
Definition GetHeaders (alice bob : option loc) (c : CircuitV) (n : three IV * three IV) (ks : KeySet)
    : GoM Manager (Headers * KeySet) :=
  let '(fwKeys, ks) := Next3 ks in
  let '(rtKeys, ks) := Next3 ks in
  c0 ← lift (goindex c 0); c1 ← lift (goindex c 1);
  c3 ← lift (goindex c 3); c4 ← lift (goindex c 4);
  d3 ← deref c3; d4 ← deref c4; da ← deref alice;
  mret (MkHeaders (MkRouting (c0, c1, bob) (some3 fwKeys) n.1)
          (MkRouting (c3, c4, alice) (some3 rtKeys) n.2)
          (Keys_Pub (d_Payload d3), Keys_Pub (d_Payload d4), Keys_Pub (d_Payload da)), ks).

(** [ExitPoint]: generating the ciphers from it dereferences its keys. *)
Definition Headers_ExitPoint (h : Headers) : Out ExitPoint :=
  match rt_Keys (hd_Return h) with
  | (Some a, Some b, Some c) => Ret (MkExitPoint (a, b, c) (rt_Nonces (hd_Return h)) (hd_ReturnPubs h))
  | _ => Panic PNil
  end.

(** ** Skins *)

Definition SConfirmation (o : Skins) (id : ID) (load : byte) : Skins := o ++ [Confirmation_New id].
Definition SEnd (o : Skins) : Skins := o ++ [OEnd].
Definition SExit (o : Skins) (id : ID) (port : Z) (payload : bytes) (ep : ExitPoint) : Skins :=
  o ++ [Exit_New id port payload ep].
Definition SForward (o : Skins) (addr : option Multiaddr) : Skins := o ++ [Forward_New addr].
Definition SCrypt (o : Skins) (toHdr toPld : option Pub) (from : option Prv) (iv : IV) (depth : Z)
    : Skins := o ++ [Crypt_New toHdr toPld from iv depth].
Definition SReverse (o : Skins) (ip : option Multiaddr) : Skins := o ++ [Reverse_New ip].
Definition SGetBalance (o : Skins) (id : ID) (ep : ExitPoint) : Skins := o ++ [NewGetBalance id ep].
Definition SHiddenService (o : Skins) (i : Intro.Ad) (point : ExitPoint) : Skins :=
  o ++ [HiddenService_New i point].
Definition SIntroQuery (o : Skins) (id : ID) (hsk : option Pub) (ep : ExitPoint) : Skins :=
  o ++ [IntroQuery_New id hsk ep].
Definition SReady (o : Skins) (id : ID) (addr : option Pub) (fwHdr rvHdr : RoutingHeaderBytes)
    (fc rc : Ciphers) (fn rn : Nonces) : Skins := o ++ [Ready_New id addr fwHdr rvHdr fc rc fn rn].
Definition SResponse (o : Skins) (id : ID) (res : bytes) (port : Z) (load : byte) : Skins :=
  o ++ [Response_New id port res load].
(** A session without both keys is left out. *)
Definition SSession (o : Skins) (sess : SessionR) : Skins :=
  match Header sess, Payload sess with
  | Some _, Some _ => o ++ [OSession sess OEnd]
  | _, _ => o
  end.
Definition SRoute (o : Skins) (id : ID) (k : Pub) (ks : KeySet) (iv : IV) (bl : Blinder)
    (ep : ExitPoint) : Skins * KeySet :=
  let '(sender, ks) := Next ks in (o ++ [Route_New id k sender iv bl ep], ks).

Definition ForwardCrypt (o : Skins) (s : option loc) (k : Prv) (n : IV) (p : Z) : GoM Manager Skins :=
  d ← deref s; nd ← node_at (d_Node d);
  mret (SCrypt (SForward o (PickAddress p nd)) (Some (Keys_Pub (d_Header d)))
          (Some (Keys_Pub (d_Payload d))) (Some k) n 0).

Definition ForwardSession (o : Skins) (s : loc) (k : Prv) (n : IV) (sess : SessionR) (p : Z)
    : GoM Manager Skins :=
  nd ← node_at s;
  mret (SSession (SCrypt (SForward o (PickAddress p nd)) (Some (id_Pub (Identity nd))) None
                    (Some k) n 0) sess).

(** Without a session or a key the two layers are zero values. *)
Definition ReverseCrypt (o : Skins) (s : option loc) (k : option Prv) (n : IV) (seq : Z) (p : Z)
    : GoM Manager Skins :=
  match s, k with
  | Some l, Some k =>
      d ← data_at l; nd ← node_at (d_Node d);
      mret (SCrypt (SReverse o (PickAddress p nd)) (Some (Keys_Pub (d_Header d)))
              (Some (Keys_Pub (d_Payload d))) (Some k) n seq)
  | _, _ => mret (o ++ [Reverse_Gen; Crypt_Gen])
  end.

Definition SRoutingHeader (o : Skins) (r : Routing) (p : Z) : GoM Manager Skins :=
  let '(s0, s1, s2) := rt_Sessions r in
  let '(k0, k1, k2) := rt_Keys r in
  let '(n0, n1, n2) := rt_Nonces r in
  o ← ReverseCrypt o s0 k0 n0 3 p;
  o ← ReverseCrypt o s1 k1 n1 2 p;
  ReverseCrypt o s2 k2 n2 1 p.

(** ** Whole messages *)

(** The messages with a reply: a forward header, the request, a return header. *)
Definition round_trip (alice bob : option loc) (c : CircuitV) (n : three IV * three IV) (ks : KeySet)
    (p : Z) (request : ExitPoint → KeySet → Skins → Skins * KeySet) : GoM Manager (Skins * KeySet) :=
  r ← GetHeaders alice bob c n ks; let '(headers, ks) := r in
  o ← SRoutingHeader [] (hd_Forward headers) p;
  ep ← lift (Headers_ExitPoint headers);
  let '(o, ks) := request ep ks o in
  o ← SRoutingHeader o (hd_Return headers) p;
  mret (o, ks).

Record ExitParams := MkExitParams {
  xp_Port : Z; xp_Payload : bytes; xp_ID : ID; xp_Alice : option loc; xp_Bob : option loc;
  xp_S : CircuitV; xp_KS : KeySet }.

Definition MakeExit (p : ExitParams) (n : three IV * three IV) (np : Z) : GoM Manager (Skins * KeySet) :=
  round_trip (xp_Alice p) (xp_Bob p) (xp_S p) n (xp_KS p) np
    (λ ep ks o, (SExit o (xp_ID p) (xp_Port p) (xp_Payload p) ep, ks)).

Definition MakeGetBalance (id : ID) (alice bob : option loc) (c : CircuitV) (ks : KeySet)
    (n : three IV * three IV) (np : Z) : GoM Manager (Skins * KeySet) :=
  round_trip alice bob c n ks np (λ ep ks o, (SGetBalance o id ep, ks)).

Definition MakeHiddenService (i : Intro.Ad) (alice bob : option loc) (c : CircuitV) (ks : KeySet)
    (n : three IV * three IV) (p : Z) : GoM Manager (Skins * KeySet) :=
  round_trip alice bob c n ks p (λ ep ks o, (SHiddenService o i ep, ks)).

Definition MakeIntroQuery (id : ID) (hsk : option Pub) (alice bob : option loc) (c : CircuitV)
    (ks : KeySet) (n : three IV * three IV) (p : Z) : GoM Manager (Skins * KeySet) :=
  round_trip alice bob c n ks p (λ ep ks o, (SIntroQuery o id hsk ep, ks)).

Definition MakeRoute (id : ID) (k : Pub) (ks : KeySet) (alice bob : option loc) (c : CircuitV)
    (n : three IV * three IV) (iv : IV) (bl : Blinder) (p : Z) : GoM Manager (Skins * KeySet) :=
  round_trip alice bob c n ks p (λ ep ks o, SRoute o id k ks iv bl ep).

(** [MakeSession]: the sessions from position [i] on, each to its hop's identity. *)
Fixpoint session_skins (i : Z) (s : list SessionR) (hop : list loc) (n : list IV) (ks : KeySet) (p : Z)
    (sk : Skins) : GoM Manager (Skins * KeySet) :=
  match s with
  | [] => mret (sk, ks)
  | x :: s =>
      h ← lift (goindex hop i); iv ← lift (goindex n i);
      let '(k, ks) := Next ks in
      sk ← (if bool_decide (i = 0) then
              nd ← node_at h;
              mret (SSession (SCrypt sk (Some (id_Pub (Identity nd))) None (Some k) iv 0) x)
            else ForwardSession sk h k iv x p);
      session_skins (i + 1) s hop n ks p sk
  end.

Definition MakeSession (id : ID) (s : list SessionR) (client : option loc) (hop : list loc)
    (n : list IV) (ks : KeySet) (p : Z) : GoM Manager (Skins * KeySet) :=
  r ← session_skins 0 s hop n ks p []; let '(sk, ks) := r in
  let '(k, ks) := Next ks in
  iv ← lift (goindex n 5);
  sk ← ForwardCrypt sk client k iv p;
  mret (SConfirmation sk id x00, ks).

(** [Skins.Message] to the two sessions the message forwards through. *)
Definition SMessage (o : Skins) (msg : MessageR) (forwards : option loc * option loc)
    (n : IV * IV) (ks : KeySet) (p : Z) : GoM Manager (Skins * KeySet) :=
  let '(k, ks) := Next ks in
  o ← ForwardCrypt o forwards.1 k n.1 p;
  let '(k, ks) := Next ks in
  o ← ForwardCrypt o forwards.2 k n.2 p;
  mret (o ++ [OMessage msg], ks).

(** [Ping]: through the five sessions and back to the client. *)
Fixpoint ping_legs (s : list (option loc)) (n : list IV) (ks : KeySet) (p : Z) (o : Skins)
    : GoM Manager (Skins * KeySet) :=
  match s, n with
  | x :: s, iv :: n => let '(k, ks) := Next ks in
                       o ← ForwardCrypt o x k iv p; ping_legs s n ks p o
  | _, _ => mret (o, ks)
  end.

Definition Ping (id : ID) (client : option loc) (s : CircuitV) (n : list IV) (ks : KeySet) (p : Z)
    : GoM Manager (Skins * KeySet) :=
  s0 ← lift (goindex s 0); d ← deref s0;
  n0 ← lift (goindex n 0);
  let '(k, ks) := Next ks in
  let o := SCrypt [] (Some (Keys_Pub (d_Header d))) None (Some k) n0 0 in
  r ← ping_legs (drop 1 s ++ [client]) (drop 1 n) ks p o; let '(o, ks) := r in
  mret (SConfirmation o id x00, ks).

(** ** Accounting *)

(** The closures of [PostAcct]: what [Forward.Account] and [Exit.Account] capture. *)
Inductive Hook :=
| HForward (s : loc) (size : Z)
| HExit (s : loc) (j : nat) (size : Z).

(** [sess.Data] *)
Record SessData := MkSessData {
  sd_B : bytes; sd_Sessions : list loc; sd_Billable : list PubBytes; sd_Ret : PubBytes;
  sd_ID : ID; sd_Port : Z; sd_PostAcct : list Hook }.

Definition SessData_zero : SessData := MkSessData [] [] [] (arr_zero 33) (arr_zero 8) 0 [].

Definition add_session (l : loc) (r : SessData) : SessData :=
  MkSessData (sd_B r) (sd_Sessions r ++ [l]) (sd_Billable r) (sd_Ret r) (sd_ID r) (sd_Port r) (sd_PostAcct r).
Definition add_billable (k : PubBytes) (r : SessData) : SessData :=
  MkSessData (sd_B r) (sd_Sessions r) (sd_Billable r ++ [k]) (sd_Ret r) (sd_ID r) (sd_Port r) (sd_PostAcct r).
Definition with_Ret (k : PubBytes) (r : SessData) : SessData :=
  MkSessData (sd_B r) (sd_Sessions r) (sd_Billable r) k (sd_ID r) (sd_Port r) (sd_PostAcct r).
Definition with_sdID (id : ID) (r : SessData) : SessData :=
  MkSessData (sd_B r) (sd_Sessions r) (sd_Billable r) (sd_Ret r) id (sd_Port r) (sd_PostAcct r).
Definition with_sdPort (p : Z) (r : SessData) : SessData :=
  MkSessData (sd_B r) (sd_Sessions r) (sd_Billable r) (sd_Ret r) (sd_ID r) p (sd_PostAcct r).
Definition add_hook (h : Hook) (r : SessData) : SessData :=
  MkSessData (sd_B r) (sd_Sessions r) (sd_Billable r) (sd_Ret r) (sd_ID r) (sd_Port r) (sd_PostAcct r ++ [h]).

(** Running a hook: the rate is read then. *)
Definition run_hook (h : Hook) : GoM Manager unit :=
  match h with
  | HForward l size =>
      d ← data_at l; n ← node_at (d_Node d);
      _ ← DecSession (Keys_Bytes (d_Header d)) (wraps 64 (RelayRate n * size)); mret tt
  | HExit l j size =>
      d ← data_at l; n ← node_at (d_Node d);
      v ← lift (goindex (Services n) (Z.of_nat j));
      _ ← DecSession (Keys_Bytes (d_Header d)) (Z.quot (wraps 64 (svc_RelayRate v * size)) 2); mret tt
  end.

(** The loop of [Exit.Account] over the services of the node: each turn unlocks
    the mutex that was locked once before the loop. *)
Fixpoint find_service_unlocking (port : Z) (nd : loc) (j : nat) (l : list ServiceR)
    : GoM Manager (option nat) :=
  match l with
  | [] => mret None
  | v :: l =>
      on_node nd Node_Unlock ;;
      if bool_decide (svc_Port v ≠ port) then find_service_unlocking port nd (S j) l
      else mret (Some j)
  end.

(** What the layers that bill one session have in common. *)
Definition bill (s : option loc) (res : SessData) : GoM Manager SessData :=
  d ← deref s; mret (add_billable (Keys_Bytes (d_Header d)) res).

Definition Exit_Account (x : ExitR) (res : SessData) (s : option loc) : GoM Manager SessData :=
  d ← deref s;
  on_node (d_Node d) Node_Lock ;;
  n ← node_at (d_Node d);
  j ← find_service_unlocking (Exit_Port x) (d_Node d) 0 (Services n);
  res ← (match j, s with
         | Some j, Some l => mret (add_hook (HExit l j (zlen (sd_B res))) (with_sdPort (Exit_Port x) res))
         | _, _ => mret res
         end);
  res ← bill s res;
  mret (with_sdID (Exit_ID x) res).

(** [Crypt.Account]: the session of the layer's key. *)
Definition Crypt_Account (x : CryptR) (res : SessData) (last : bool)
    : GoM Manager (SessData * option loc) :=
  sd ← FindSessionByHeaderPub (ToHeaderPub x);
  match sd with
  | None => mret (res, None)
  | Some l =>
      let res := add_session l res in
      d ← data_at l;
      mret (if last then add_billable (Keys_Bytes (d_Header d)) (with_Ret (Keys_Bytes (d_Header d)) res)
            else res, Some l)
  end.

(** [Account] of each type, with the session the previous layer found. *)
Abbreviation Accounted := (GoM Manager (SessData * option loc)).
Definition Forward_Account (res : SessData) (s : option loc) : Accounted :=
  res ← bill s res;
  match s with
  | Some l => mret (add_hook (HForward l (zlen (sd_B res))) res, None)
  | None => panicM PNil
  end.
Definition Reverse_Account (res : SessData) (s : option loc) : Accounted :=
  res ← bill s res; mret (res, None).
Definition GetBalance_Account (x : GetBalanceR) (res : SessData) (s : option loc) : Accounted :=
  res ← bill s (with_sdID (GetBalance_ID x) res); mret (res, None).
Definition IntroQuery_Account (x : IntroQueryR) (res : SessData) (s : option loc) : Accounted :=
  res ← bill s (with_sdID (IntroQuery_ID x) res); mret (res, None).
Definition HiddenService_Account (x : HiddenServiceR) (res : SessData) (s : option loc) : Accounted :=
  res ← bill s (with_sdID (ad_ID (Intro.base (HS_Intro x))) res); mret (res, None).
Definition Route_Account (x : RouteR) (res : SessData) (s : option loc) : Accounted :=
  res ← bill s (with_sdID (Route_ID x) res); mret (res, None).
Definition Message_Account (x : MessageR) (res : SessData) (s : option loc) : Accounted :=
  res ← bill s (with_sdID (Message_ID x) res); mret (res, None).
Definition Balance_Account (id : ID) (res : SessData) : Accounted := mret (with_sdID id res, None).
Definition Confirmation_Account (id : ID) (res : SessData) : Accounted := mret (with_sdID id res, None).

(** The interface call. *)
Definition Account (o : Onion) (res : SessData) (s : option loc) (last : bool) : Accounted :=
  match o with
  | ONil => panicM PNil
  | OCrypt x _ => Crypt_Account x res last
  | OForward _ _ => Forward_Account res s
  | OReverse _ _ => Reverse_Account res s
  | OExit x _ => res ← Exit_Account x res s; mret (res, None)
  | OGetBalance x _ => GetBalance_Account x res s
  | OIntroQuery x _ => IntroQuery_Account x res s
  | OHiddenService x _ => HiddenService_Account x res s
  | ORoute x _ => Route_Account x res s
  | OMessage x => Message_Account x res s
  | OBalance id _ => Balance_Account id res
  | OConfirmation id => Confirmation_Account id res
  | OEnd | OSession _ _ | OResponse _ | OReady _ | ODelay _ _ => mret (res, None)
  end.

(** The loop of [PostAcctOnion]: every crypt finds its session, and the layer
    behind it is accounted to that session. *)
Fixpoint acct_loop (l : Skins) (res : SessData) : GoM Manager SessData :=
  match l with
  | [] => mret res
  | OCrypt x _ :: l =>
      let last := match l with [] => true | _ => false end in
      r ← Crypt_Account x res last; let '(res, s) := r in
      match l with
      | [] => mret res
      | next :: _ => r ← Account next res s last; acct_loop l r.1
      end
  | _ :: l => acct_loop l res
  end.

Definition PostAcctOnion (defaultPort : Z) (bl : nat → Blinder) (o : Skins) : GoM Manager SessData :=
  assembled ← lift (Assemble o);
  sp ← lift (codec_Encode defaultPort bl assembled);
  acct_loop o (MkSessData (s_b sp) [] [] (arr_zero 33) (arr_zero 8) 0 []).
End Skins.
