(* ===== verification/SkinFacts.v ===== *)
(** * Building messages: what the skins amount to

    A message whose return addresses are not known still encodes ([Fits]); the
    accounting of a message with a reply bills every session of its circuit. *)

From S2P Require Export Skins.

(** ** Encoders of a known size

    [m] fills exactly [n] bytes, whatever they are. *)

Record Fits (m : GoM Splice (option error)) (n : Z) : Prop := {
  fits_nonneg : 0 ≤ n;
  fits_run s : 0 ≤ s_c s → s_c s + n ≤ Len s →
    ∃ s', m s = Ret (None, s') ∧ Len s' = Len s ∧ s_c s' = s_c s + n;
}.

Lemma fits_emits m b : Emits m b → Fits m (zlen b).
Proof.
  intros M. constructor; [apply zlen_nonneg|]. intros s Hc Hl.
  destruct (M s Hc Hl) as (s' & r & E & _ & L & C & _). by exists s'.
Qed.

Lemma fits_bind m1 m2 b k n : Writes m1 b → zlen b = k → Fits m2 n → Fits (m1 ;; m2) (k + n).
Proof.
  intros W <- [Hn M]. pose proof (zlen_nonneg b). constructor; [lia|]. intros s Hc Hl.
  destruct (W s) as (s1 & E1 & B1 & C1 & R1); [done|lia|].
  assert (Len s1 = Len s) as L1.
  { unfold Len. rewrite B1, zlen_overlay; [done|]. unfold Len, zlen in *. lia. }
  destruct (M s1) as (s2 & E2 & L2 & C2); [lia|lia|].
  exists s2. unfold mbind, GoM_bind. rewrite E1. split; [done|]. lia.
Qed.

Lemma fits_end : Fits (mret None) 0.
Proof. constructor; [done|]. intros s Hc Hl. exists s. split; [done|]. split; [done|lia]. Qed.

Section Fits.
Context {cr : Crypto} {crl : CryptoLaws} {ma : Multiaddrs}.

Lemma fits_reverse_nil port inner n : Fits inner n →
  Fits (Reverse_Encode port None (Some inner)) (ReverseLen + n).
Proof.
  intros [Hn M]. change ReverseLen with 23 in *. constructor; [lia|].
  intros s Hc Hl. unfold Reverse_Encode.
  destruct (M (with_segs (Segments s ++ [MkNameOffset (s_c s + 23) (Lit "reverse")])
                 (with_c (s_c s + 23) s))) as (s' & E & L & C); [cbn; lia|cbn; unfold Len in *; cbn; lia|].
  exists s'. split; [exact E|]. cbn in C. split; [exact L|lia].
Qed.

Lemma encipher_range_fits blk iv lo hi s :
  0 ≤ lo ≤ hi → hi ≤ Len s →
  ∃ b, encipher_range (Some blk) iv lo hi s = Ret (with_b b s) ∧ zlen b = Len s.
Proof.
  intros H1 H2. unfold Len in *.
  pose proof (take_drop (Z.to_nat lo) (s_b s)) as E1.
  pose proof (take_drop (Z.to_nat (hi - lo)) (drop (Z.to_nat lo) (s_b s))) as E2.
  rewrite <- E2 in E1.
  set (p := take (Z.to_nat lo) (s_b s)) in *.
  set (w := take (Z.to_nat (hi - lo)) (drop (Z.to_nat lo) (s_b s))) in *.
  set (r := drop (Z.to_nat (hi - lo)) (drop (Z.to_nat lo) (s_b s))) in *.
  assert (zlen p = lo) as Lp by (unfold p, zlen in *; rewrite length_take; lia).
  assert (zlen w = hi - lo) as Lw by (unfold w, zlen in *; rewrite length_take, length_drop; lia).
  rewrite (encipher_range_app blk iv p w r s lo hi) by (done || lia).
  eexists. split; [done|]. rewrite <- E1, !zlen_app, zlen_enciphered. done.
Qed.

Lemma encipher_from_fits blk iv lo s :
  0 ≤ lo ≤ Len s → ∃ b, encipher_from (Some blk) iv lo s = Ret (with_b b s) ∧ zlen b = Len s.
Proof.
  intros H. unfold Len in *. pose proof (take_drop (Z.to_nat lo) (s_b s)) as E1.
  set (p := take (Z.to_nat lo) (s_b s)) in *. set (w := drop (Z.to_nat lo) (s_b s)) in *.
  assert (zlen p = lo) as Lp by (unfold p, zlen in *; rewrite length_take; lia).
  rewrite (encipher_from_app blk iv p w s lo) by done.
  eexists. split; [done|]. rewrite <- E1, !zlen_app, zlen_enciphered. done.
Qed.

(** A crypt layer around an encoder of known size. *)
Lemma fits_crypt bl x k hp pp inner n :
  From x = Some k → ToHeaderPub x = Some hp → ToPayloadPub x = Some pp →
  0 < Depth x → (Depth x - 1) * ReverseCryptLen ≤ n → Fits inner n →
  Fits (Crypt_Encode bl x (Some inner)) (CryptLen + n).
Proof.
  intros Hk Hh Hp HD Hn M. change ReverseCryptLen with 84 in *. unfold Crypt_Encode. rewrite Hk, Hh, Hp.
  cbn [DerivePub fmap option_fmap option_map].
  replace (CryptLen + n) with (4 + (16 + (8 + (33 + n)))) by (change CryptLen with 61; lia).
  do 4 (eapply fits_bind; [apply _|by rewrite ?zlen_arr|]). destruct M as [Hn0 M].
  constructor; [done|].
  intros s Hc Hl. unfold get, mbind at 1, GoM_bind at 1. cbv zeta. unfold GetCursor.
  rewrite bool_decide_false, bool_decide_true by lia.
  destruct (M s Hc Hl) as (s1 & E1 & L1 & C1).
  unfold mret, GoM_ret, mbind, GoM_bind, modify. rewrite E1.
  set (en := s_c s + (Depth x - 1) * ReverseCryptLen).
  assert (s_c s ≤ en ≤ s_c s + n) as Hen by (unfold en; change ReverseCryptLen with 84; lia).
  destruct (encipher_range_fits (NewCipher (ComputeSharedSecret k hp)) (Crypt_IV x) (s_c s) en s1)
    as (b1 & Er & Lb1); [lia|lia|].
  change (Some (NewCipher (ComputeSharedSecret k hp))) with (GetBlock k hp) in Er. rewrite Er.
  cbn [mbind Out_bind]. case_bool_decide as He; [eexists; split; [done|]; unfold Len in *; cbn; lia|].
  destruct (encipher_from_fits (NewCipher (ComputeSharedSecret k pp)) (Crypt_IV x) en (with_b b1 s1))
    as (b2 & E2 & Lb2); [unfold Len; cbn; lia|].
  change (Some (NewCipher (ComputeSharedSecret k pp))) with (GetBlock k pp) in E2.
  rewrite E2. cbn [mbind Out_bind]. eexists. split; [done|].
  unfold Len in *. cbn in *. lia.
Qed.

(** A request and what follows it. *)
Lemma fits_exit x inner n : Fits inner n →
  Fits (Exit_Encode x inner) (ExitLen + zlen (Exit_Bytes x) + n).
Proof.
  intros M. unfold Exit_Encode. set (z := zlen (Exit_Bytes x)).
  replace (ExitLen + z + n) with (4 + (8 + (96 + (48 + (2 + ((4 + z) + n)))))) by (change ExitLen with 162; lia).
  do 6 (eapply fits_bind; [apply _|first [by rewrite ?zlen_arr|etransitivity; [apply zlen_three|done]|apply zlen_sized]|]).
  done.
Qed.
End Fits.

(** ** The layers of a message with a reply *)

Section Layers.
Context {cr : Crypto} {crl : CryptoLaws} {ma : Multiaddrs} {pe : Peers} {tp : Transports}.
Context (defaultPort : Z).

(** The crypt layer [ReverseCrypt] makes for a session. *)
Definition hop_crypt (d : Data) (k : Prv) (n : IV) (depth : Z) : CryptR :=
  MkCrypt depth (Some (Keys_Pub (d_Header d))) (Some (Keys_Pub (d_Payload d))) (Some k) n
    (arr_zero 8) None None.

(** The two layers, as [PickAddress] leaves them: without an address. *)
Definition hop_layers (d : Data) (k : Prv) (n : IV) (depth : Z) : list Onion :=
  [Reverse_New None; OCrypt (hop_crypt d k n depth) OEnd].
Definition hop_around (d : Data) (k : Prv) (n : IV) (depth : Z) (i : Onion) : Onion :=
  OReverse None (OCrypt (hop_crypt d k n depth) i).

Lemma fits_hop bl d k iv depth i n :
  0 < depth → (depth - 1) * ReverseCryptLen ≤ n → i ≠ ONil →
  Fits (Encode defaultPort (λ n, bl (S n)) i) n →
  Fits (Encode defaultPort bl (hop_around d k iv depth i)) (ReverseLen + (CryptLen + n)).
Proof.
  intros HD Hn Hi M. cbn [hop_around Encode]. apply fits_reverse_nil.
  assert (match i with ONil => None | _ => Some (Encode defaultPort (λ n, bl (S n)) i) end
          = Some (Encode defaultPort (λ n, bl (S n)) i)) as -> by (by destruct i).
  by eapply fits_crypt.
Qed.

Definition header_around (d0 d1 d2 : Data) (k : three Prv) (n : three IV) (i : Onion) : Onion :=
  let '(k0, k1, k2) := k in let '(n0, n1, n2) := n in
  hop_around d0 k0 n0 3 (hop_around d1 k1 n1 2 (hop_around d2 k2 n2 1 i)).

Lemma fits_header bl d0 d1 d2 k n i m :
  i ≠ ONil → Fits (Encode defaultPort (λ n, bl (S (S (S n)))) i) m →
  Fits (Encode defaultPort bl (header_around d0 d1 d2 k n i)) (RoutingHeaderLen + m).
Proof.
  intros Hi M. pose proof (fits_nonneg _ _ M). destruct k as [[k0 k1] k2], n as [[n0 n1] n2].
  change RoutingHeaderLen with 252.
  replace (252 + m) with (ReverseLen + (CryptLen + (ReverseLen + (CryptLen + (ReverseLen + (CryptLen + m))))))
    by (change ReverseLen with 23; change CryptLen with 61; lia).
  cbn [header_around].
  repeat (apply fits_hop; [done|change ReverseCryptLen with 84; change ReverseLen with 23;
                                change CryptLen with 61; lia|done|]). done.
Qed.

(** The message [MakeExit] assembles, encoded: nothing panics, the splice has the
    length [Len] computes. *)
Definition exit_onion (x : ExitR) (d0 d1 d2 d3 d4 d5 : Data) (kf kr : three Prv) (n : three IV * three IV)
    : Onion :=
  header_around d0 d1 d2 kf n.1 (OExit x (header_around d3 d4 d5 kr n.2 OEnd)).

Lemma exit_onion_encodes bl x d0 d1 d2 d3 d4 d5 kf kr n :
  ∃ sp, codec_Encode defaultPort bl (exit_onion x d0 d1 d2 d3 d4 d5 kf kr n) = Ret sp.
Proof.
  assert (Fits (Encode defaultPort bl (exit_onion x d0 d1 d2 d3 d4 d5 kf kr n))
            (RoutingHeaderLen + (ExitLen + zlen (Exit_Bytes x) + (RoutingHeaderLen + 0)))) as [Hn M].
  { apply fits_header; [done|]. cbn [Encode]. apply fits_exit.
    apply fits_header; [done|]. apply fits_end. }
  unfold codec_Encode.
  assert (∃ m, Onion_Len (exit_onion x d0 d1 d2 d3 d4 d5 kf kr n) = Ret m ∧
     RoutingHeaderLen + (ExitLen + zlen (Exit_Bytes x) + (RoutingHeaderLen + 0)) ≤ m) as (m & -> & Hm).
  { destruct kf as [[? ?] ?], kr as [[? ?] ?], n as [[[? ?] ?] [[? ?] ?]].
    eexists. split; [reflexivity|]. change RoutingHeaderLen with 252. change CryptLen with 61.
    change MagicLen with 4. lia. }
  cbn [mbind Out_bind]. destruct (M (New (Z.to_nat m))) as (s' & -> & _); [done| |by eexists].
  unfold New, Len, zlen in *. cbn. rewrite length_replicate. lia.
Qed.
End Layers.

(** ** Building and accounting an exit message *)

Section Account.
Context {cr : Crypto} {crl : CryptoLaws} {ma : Multiaddrs} {pe : Peers} {tp : Transports}.
Context (defaultPort : Z).

(** A session pointer whose session and node exist. *)
Definition hop_ok (s : Manager) (l : loc) (d : Data) : Prop :=
  l ∈ Sessions s ∧ dataAt s !! l = Some d ∧ is_Some (nodeAt s !! d_Node d).

Lemma deref_run s l d : dataAt s !! l = Some d → deref (Some l) s = Ret (d, s).
Proof. apply data_at_run. Qed.

Lemma ReverseCrypt_run s l d k n seq p o : hop_ok s l d →
  ReverseCrypt o (Some l) (Some k) n seq p s = Ret (o ++ hop_layers d k n seq, s).
Proof.
  intros (_ & Hd & [nd Hn]). unfold ReverseCrypt.
  rewrite (bind_run _ _ _ _ _ (data_at_run s l d Hd)), (bind_run _ _ _ _ _ (node_at_run s _ nd Hn)).
  unfold mret, GoM_ret, SCrypt, SReverse, hop_layers, PickAddress. by rewrite <- app_assoc.
Qed.

Definition header_layers (d0 d1 d2 : Data) (k : three Prv) (n : three IV) : list Onion :=
  let '(k0, k1, k2) := k in let '(n0, n1, n2) := n in
  hop_layers d0 k0 n0 3 ++ hop_layers d1 k1 n1 2 ++ hop_layers d2 k2 n2 1.

Lemma SRoutingHeader_run s l0 l1 l2 d0 d1 d2 k n p o :
  hop_ok s l0 d0 → hop_ok s l1 d1 → hop_ok s l2 d2 →
  SRoutingHeader o (MkRouting (Some l0, Some l1, Some l2) (some3 k) n) p s
  = Ret (o ++ header_layers d0 d1 d2 k n, s).
Proof.
  intros H0 H1 H2. destruct k as [[k0 k1] k2], n as [[n0 n1] n2].
  unfold SRoutingHeader. cbn [rt_Sessions rt_Keys rt_Nonces some3].
  rewrite (bind_run _ _ _ _ _ (ReverseCrypt_run s l0 d0 k0 n0 3 p o H0)).
  rewrite (bind_run _ _ _ _ _ (ReverseCrypt_run s l1 d1 k1 n1 2 p _ H1)).
  rewrite (ReverseCrypt_run s l2 d2) by done. cbn [header_layers]. by rewrite <- !app_assoc.
Qed.

(** The messages with a reply have the shape header, request, header. *)
Lemma round_trip_run s l0 l1 l2 l3 l4 l5 x d0 d1 d2 d3 d4 d5 n ks p f :
  hop_ok s l0 d0 → hop_ok s l1 d1 → hop_ok s l2 d2 → hop_ok s l3 d3 → hop_ok s l4 d4 → hop_ok s l5 d5 →
  let kf := Next3 ks in let kr := Next3 kf.2 in
  let ep := MkExitPoint kr.1 n.2
      (Keys_Pub (d_Payload d3), Keys_Pub (d_Payload d4), Keys_Pub (d_Payload d5)) in
  let q := f ep kr.2 (header_layers d0 d1 d2 kf.1 n.1) in
  round_trip (Some l5) (Some l2) [Some l0; Some l1; x; Some l3; Some l4] n ks p f s
  = Ret ((q.1 ++ header_layers d3 d4 d5 kr.1 n.2, q.2), s).
Proof.
  intros H0 H1 H2 H3 H4 H5. cbv zeta. unfold round_trip, GetHeaders.
  destruct (Next3 ks) as [kf ks1] eqn:E1. cbn [fst snd].
  destruct (Next3 ks1) as [kr ks2] eqn:E2. cbn [fst snd].
  set (ep := MkExitPoint kr n.2 _).
  rewrite <- !bind_assoc. do 4 (rewrite (bind_run _ _ s _ s) by reflexivity; cbv beta; rewrite <- ?bind_assoc).
  rewrite (bind_run _ _ _ _ _ (deref_run s l3 d3 ltac:(apply H3))), <- bind_assoc.
  rewrite (bind_run _ _ _ _ _ (deref_run s l4 d4 ltac:(apply H4))), <- bind_assoc.
  rewrite (bind_run _ _ _ _ _ (deref_run s l5 d5 ltac:(apply H5))).
  rewrite (bind_run _ _ s _ s) by reflexivity. cbv beta iota zeta.
  cbn [hd_Forward hd_Return hd_ReturnPubs].
  rewrite (bind_run _ _ _ _ _ (SRoutingHeader_run s l0 l1 l2 d0 d1 d2 kf n.1 p [] H0 H1 H2)).
  cbn [app]. rewrite (bind_run _ _ s ep s); cycle 1.
  { unfold Headers_ExitPoint, ep. destruct kr as [[? ?] ?]. done. }
  destruct (f ep ks2 (header_layers d0 d1 d2 kf n.1)) as [o ks3] eqn:Ef. cbn [fst snd].
  by rewrite (bind_run _ _ _ _ _ (SRoutingHeader_run s l3 l4 l5 d3 d4 d5 kr n.2 p o H3 H4 H5)).
Qed.

(** Header keys are kept with their own bytes. *)
Definition keyed (s : Manager) : Prop :=
  ∀ x d, dataAt s !! x = Some d → Keys_Bytes (d_Header d) = Pub_ToBytes (Keys_Pub (d_Header d)).

Lemma Pub_Equals_bytes (k k' : Pub) : Pub_Equals k k' = bool_decide (Pub_ToBytes k = Pub_ToBytes k').
Proof.
  unfold Pub_Equals. rewrite raw_equal_spec. apply bool_decide_ext. split; [|congruence]. by intros ?%arr_eq.
Qed.

Lemma FindSessionByHeaderPub_run s l d : wf s → keyed s → hop_ok s l d →
  FindSessionByHeaderPub (Some (Keys_Pub (d_Header d))) s = Ret (Some l, s).
Proof.
  intros W K (Hl & Hd & _). unfold FindSessionByHeaderPub.
  rewrite (FindSession_run _ (λ d', Pub_Equals (Keys_Pub (d_Header d')) (Keys_Pub (d_Header d))) s) by done.
  destruct (find_by_key s l d W Hl Hd) as [i Hi].
  rewrite (list_find_ext _ (λ y, sel s (by_key (Keys_Bytes (d_Header d))) y = true)); [by rewrite Hi|].
  intros y. unfold sel. destruct (dataAt s !! y) as [e|] eqn:He; [|done].
  unfold by_key. rewrite Pub_Equals_bytes, !bool_decide_eq_true, (K _ _ Hd), (K _ _ He). done.
Qed.

Lemma Crypt_Account_run s l d k n depth res last : wf s → keyed s → hop_ok s l d →
  Crypt_Account (hop_crypt d k n depth) res last s
  = Ret ((let res := add_session l res in
          if last : bool then add_billable (Keys_Bytes (d_Header d)) (with_Ret (Keys_Bytes (d_Header d)) res)
          else res, Some l), s).
Proof.
  intros W K H. unfold Crypt_Account. cbn [ToHeaderPub hop_crypt].
  rewrite (bind_run _ _ _ _ _ (FindSessionByHeaderPub_run s l d W K H)).
  by rewrite (bind_run _ _ _ _ _ (data_at_run s l d ltac:(apply H))).
Qed.

(** A hop of the circuit and the layer behind it. *)
Lemma acct_hop s l d k n depth next rest res : wf s → keyed s → hop_ok s l d →
  acct_loop (hop_layers d k n depth ++ next :: rest) res s
  = (r ← Account next (add_session l res) (Some l) false; acct_loop (next :: rest) r.1) s.
Proof.
  intros W K H. cbn [hop_layers app acct_loop Reverse_New].
  by rewrite (bind_run _ _ _ _ _ (Crypt_Account_run s l d k n depth res false W K H)).
Qed.

Lemma acct_last s l d k n depth res : wf s → keyed s → hop_ok s l d →
  acct_loop (hop_layers d k n depth) res s
  = Ret (add_billable (Keys_Bytes (d_Header d)) (with_Ret (Keys_Bytes (d_Header d)) (add_session l res)), s).
Proof.
  intros W K H. cbn [hop_layers acct_loop Reverse_New].
  by rewrite (bind_run _ _ _ _ _ (Crypt_Account_run s l d k n depth res true W K H)).
Qed.

Lemma bill_run s l d res : dataAt s !! l = Some d →
  bill (Some l) res s = Ret (add_billable (Keys_Bytes (d_Header d)) res, s).
Proof. intros Hd. unfold bill. by rewrite (bind_run _ _ _ _ _ (deref_run s l d Hd)). Qed.

Lemma Account_reverse_run s l d res last : dataAt s !! l = Some d →
  Account (Reverse_New None) res (Some l) last s = Ret ((add_billable (Keys_Bytes (d_Header d)) res, None), s).
Proof. intros Hd. cbn. by rewrite (bind_run _ _ _ _ _ (bill_run s l d res Hd)). Qed.

(** A hop and a return layer behind it. *)
Lemma acct_hop_reverse s l d k n depth rest res : wf s → keyed s → hop_ok s l d →
  acct_loop (Reverse_New None :: OCrypt (hop_crypt d k n depth) OEnd :: Reverse_New None :: rest) res s
  = acct_loop (Reverse_New None :: rest) (add_billable (Keys_Bytes (d_Header d)) (add_session l res)) s.
Proof.
  intros W K H. change (Reverse_New None :: OCrypt (hop_crypt d k n depth) OEnd :: ?x)
    with (hop_layers d k n depth ++ x). rewrite (acct_hop s l d) by done.
  by rewrite (bind_run _ _ _ _ _ (Account_reverse_run s l d _ false ltac:(apply H))).
Qed.

(** Three hops in a row; the layer behind the third decides. *)
Lemma acct_header s l0 l1 l2 d0 d1 d2 k n next rest res :
  wf s → keyed s → hop_ok s l0 d0 → hop_ok s l1 d1 → hop_ok s l2 d2 →
  acct_loop (header_layers d0 d1 d2 k n ++ next :: rest) res s
  = (r ← Account next (add_session l2 (add_billable (Keys_Bytes (d_Header d1)) (add_session l1
           (add_billable (Keys_Bytes (d_Header d0)) (add_session l0 res))))) (Some l2) false;
     acct_loop (next :: rest) r.1) s.
Proof.
  intros W K H0 H1 H2. destruct k as [[k0 k1] k2], n as [[n0 n1] n2]. cbn [header_layers].
  rewrite <- !app_assoc. cbn [hop_layers app].
  rewrite (acct_hop_reverse s l0), (acct_hop_reverse s l1) by done.
  by rewrite <- (acct_hop s l2 d2 k2 n2 1).
Qed.

(** The return path: the third hop is the last layer. *)
Lemma acct_return s l0 l1 l2 d0 d1 d2 k n res :
  wf s → keyed s → hop_ok s l0 d0 → hop_ok s l1 d1 → hop_ok s l2 d2 →
  acct_loop (header_layers d0 d1 d2 k n) res s
  = Ret (add_billable (Keys_Bytes (d_Header d2)) (with_Ret (Keys_Bytes (d_Header d2)) (add_session l2
      (add_billable (Keys_Bytes (d_Header d1)) (add_session l1
         (add_billable (Keys_Bytes (d_Header d0)) (add_session l0 res)))))), s).
Proof.
  intros W K H0 H1 H2. destruct k as [[k0 k1] k2], n as [[n0 n1] n2]. cbn [header_layers hop_layers app].
  unfold hop_layers. rewrite (acct_hop_reverse s l0), (acct_hop_reverse s l1) by done. by apply (acct_last s l2).
Qed.

(** ** The service lookup of [Exit.Account] *)

Definition locked_node (s : Manager) (l : loc) (n : Node) : Manager :=
  with_nodeAt (<[l := with_Mutex (Some true) n]> (nodeAt s)) s.

Lemma lock_node_run s l n : nodeAt s !! l = Some n → n_Mutex n = Some false →
  on_node l Node_Lock s = Ret (tt, locked_node s l n).
Proof.
  intros Hn Hm. unfold on_node. rewrite (bind_run _ _ _ _ _ (node_at_run s l n Hn)).
  unfold Node_Lock. rewrite Hm. done.
Qed.

Lemma unlock_node_run s l n : nodeAt s !! l = Some n → n_Mutex n = Some false →
  on_node l Node_Unlock (locked_node s l n) = Ret (tt, s).
Proof.
  intros Hn Hm. unfold on_node.
  assert (nodeAt (locked_node s l n) !! l = Some (with_Mutex (Some true) n)) as Hn'
    by (cbn; by rewrite lookup_insert_eq).
  rewrite (bind_run _ _ _ _ _ (node_at_run _ l _ Hn')).
  rewrite (bind_run _ _ _ (tt, n) (locked_node s l n)); cycle 1.
  { unfold lift, Node_Unlock. cbn. do 3 f_equal. rewrite <- Hm. by destruct n. }
  cbn [fst snd]. rewrite (bind_run _ _ _ tt s); [done|].
  unfold set_node, upd, locked_node. cbn. rewrite insert_insert_eq, insert_id by done. by destruct s.
Qed.

Lemma unlock_node_panic s l n : nodeAt s !! l = Some n → n_Mutex n = Some false →
  on_node l Node_Unlock s = Panic PLock.
Proof.
  intros Hn Hm. unfold on_node. rewrite (bind_run _ _ _ _ _ (node_at_run s l n Hn)).
  apply bind_panic. unfold lift, Node_Unlock. by rewrite Hm.
Qed.

Lemma find_service_run s l n port svcs : nodeAt s !! l = Some n → n_Mutex n = Some false →
  find_service_unlocking port l 0 svcs (locked_node s l n)
  = match svcs with
    | [] => Ret (None, locked_node s l n)
    | v :: svcs => if decide (svc_Port v = port) then Ret (Some 0%nat, s)
                   else match svcs with [] => Ret (None, s) | _ => Panic PLock end
    end.
Proof.
  intros Hn Hm. destruct svcs as [|v svcs]; [done|]. cbn [find_service_unlocking].
  rewrite (bind_run _ _ _ _ _ (unlock_node_run s l n Hn Hm)).
  case_decide as Hp; [by rewrite bool_decide_false by (intros H; by apply H)|].
  rewrite bool_decide_true by done. destruct svcs as [|v' svcs]; [done|]. cbn [find_service_unlocking].
  apply bind_panic. by apply (unlock_node_panic s l n).
Qed.

(** The account of the exit layer itself. *)
Definition exit_res (x : ExitR) (l : loc) (d : Data) (hook : bool) (res : SessData) : SessData :=
  let res := if hook then add_hook (HExit l 0 (zlen (sd_B res))) (with_sdPort (Exit_Port x) res) else res in
  with_sdID (Exit_ID x) (add_billable (Keys_Bytes (d_Header d)) res).

Lemma Exit_Account_run s l d n x i res last :
  dataAt s !! l = Some d → nodeAt s !! d_Node d = Some n → n_Mutex n = Some false →
  Account (OExit x i) res (Some l) last s
  = match Services n with
    | [] => Ret ((exit_res x l d false res, None), locked_node s (d_Node d) n)
    | v :: svcs => if decide (svc_Port v = Exit_Port x) then Ret ((exit_res x l d true res, None), s)
                   else match svcs with [] => Ret ((exit_res x l d false res, None), s) | _ => Panic PLock end
    end.
Proof.
  intros Hd Hn Hm. cbn [Account]. unfold Exit_Account.
  rewrite <- !bind_assoc. rewrite (bind_run _ _ _ _ _ (deref_run s l d Hd)), <- bind_assoc.
  rewrite (bind_run _ _ _ _ _ (lock_node_run s _ n Hn Hm)), <- bind_assoc.
  assert (nodeAt (locked_node s (d_Node d) n) !! d_Node d = Some (with_Mutex (Some true) n)) as Hn'
    by (cbn; by rewrite lookup_insert_eq).
  rewrite (bind_run _ _ _ _ _ (node_at_run _ _ _ Hn')), <- bind_assoc.
  change (Services (with_Mutex (Some true) n)) with (Services n).
  pose proof (find_service_run s (d_Node d) n (Exit_Port x) (Services n) Hn Hm) as E.
  destruct (Services n) as [|v svcs].
  - rewrite (bind_run _ _ _ _ _ E), <- bind_assoc.
    rewrite (bind_run _ _ _ res (locked_node s (d_Node d) n)) by done.
    rewrite <- bind_assoc, (bind_run _ _ _ _ _ (bill_run (locked_node s (d_Node d) n) l d res Hd)). done.
  - case_decide as Hp; [|destruct svcs as [|v' svcs]].
    + rewrite (bind_run _ _ _ _ _ E), <- bind_assoc. rewrite (bind_run _ _ s
        (add_hook (HExit l 0 (zlen (sd_B res))) (with_sdPort (Exit_Port x) res)) s) by done.
      by rewrite <- bind_assoc, (bind_run _ _ _ _ _ (bill_run s l d _ Hd)).
    + rewrite (bind_run _ _ _ _ _ E), <- bind_assoc. rewrite (bind_run _ _ s res s) by done.
      by rewrite <- bind_assoc, (bind_run _ _ _ _ _ (bill_run s l d _ Hd)).
    + by apply bind_panic.
Qed.

(** What an exit request costs: [MakeExit] on six sessions the manager holds
    builds the message, which encodes, and [PostAcctOnion] bills the six sessions
    in the order of the circuit, names the return session and the request's
    identifier, and attaches the exit fee to the third session if the exit's first
    service is the one asked for.  If it is another service of several, the walk
    over the services unlocks the node's mutex a second time, which is fatal. *)
Theorem PostAcctOnion_exit s l0 l1 l2 l3 l4 l5 x d0 d1 d2 d3 d4 d5 nd v svcs port payload id ks n np bl :
  wf s → keyed s →
  hop_ok s l0 d0 → hop_ok s l1 d1 → hop_ok s l2 d2 → hop_ok s l3 d3 → hop_ok s l4 d4 → hop_ok s l5 d5 →
  nodeAt s !! d_Node d2 = Some nd → n_Mutex nd = Some false → Services nd = v :: svcs →
  ∃ o ks', MakeExit (MkExitParams port payload id (Some l5) (Some l2)
                       [Some l0; Some l1; x; Some l3; Some l4] ks) n np s = Ret ((o, ks'), s) ∧
    if decide (svc_Port v = port ∨ svcs = []) then
      ∃ on sp res, Assemble o = Ret on ∧ codec_Encode defaultPort bl on = Ret sp ∧
        PostAcctOnion defaultPort bl o s = Ret (res, s) ∧ sd_B res = s_b sp ∧ sd_ID res = id ∧
        sd_Sessions res = [l0; l1; l2; l3; l4; l5] ∧
        sd_Billable res = (λ d, Keys_Bytes (d_Header d)) <$> [d0; d1; d2; d3; d4; d5] ∧
        sd_Ret res = Keys_Bytes (d_Header d5) ∧
        sd_PostAcct res = if decide (svc_Port v = port) then [HExit l2 0 (zlen (s_b sp))] else []
    else PostAcctOnion defaultPort bl o s = Panic PLock.
Proof.
  intros W K H0 H1 H2 H3 H4 H5 Hn Hm Hs. unfold MakeExit. cbn [xp_Alice xp_Bob xp_S xp_KS xp_ID xp_Port xp_Payload].
  rewrite (round_trip_run s l0 l1 l2 l3 l4 l5 x d0 d1 d2 d3 d4 d5) by done. cbv zeta.
  destruct (Next3 ks) as [kf ks1]. cbn [fst snd]. destruct (Next3 ks1) as [kr ks2]. cbn [fst snd].
  set (ep := MkExitPoint kr n.2 (Keys_Pub (d_Payload d3), Keys_Pub (d_Payload d4), Keys_Pub (d_Payload d5))).
  set (o := SExit (header_layers d0 d1 d2 kf n.1) id port payload ep ++ header_layers d3 d4 d5 kr n.2).
  exists o, ks2. split; [done|].
  set (xr := MkExit id (ep_ciphers ep) (ep_Nonces ep) port payload).
  assert (o = header_layers d0 d1 d2 kf n.1 ++ OExit xr OEnd :: header_layers d3 d4 d5 kr n.2) as Eo.
  { unfold o, SExit. by rewrite <- app_assoc. }
  assert (Assemble o = Ret (exit_onion xr d0 d1 d2 d3 d4 d5 kf kr n)) as EA.
  { rewrite Eo. by destruct kf as [[? ?] ?], kr as [[? ?] ?], n as [[[? ?] ?] [[? ?] ?]]. }
  destruct (exit_onion_encodes defaultPort bl xr d0 d1 d2 d3 d4 d5 kf kr n) as [sp Esp].
  assert (∀ r, acct_loop o (MkSessData (s_b sp) [] [] (arr_zero 33) (arr_zero 8) 0 []) s = r →
               PostAcctOnion defaultPort bl o s = r) as Post.
  { intros r <-. unfold PostAcctOnion. rewrite EA. rewrite (bind_run _ _ s _ s) by reflexivity.
    rewrite Esp. by rewrite (bind_run _ _ s sp s). }
  pose proof (Exit_Account_run s l2 d2 nd xr OEnd) as EX. setoid_rewrite Hs in EX.
  set (r5 := add_session l2 (add_billable (Keys_Bytes (d_Header d1)) (add_session l1
    (add_billable (Keys_Bytes (d_Header d0)) (add_session l0
      (MkSessData (s_b sp) [] [] (arr_zero 33) (arr_zero 8) 0 [])))))) in *.
  assert (∀ hook, Account (OExit xr OEnd) r5 (Some l2) false s = Ret ((exit_res xr l2 d2 hook r5, None), s) →
    ∃ res, PostAcctOnion defaultPort bl o s = Ret (res, s) ∧ sd_B res = s_b sp ∧ sd_ID res = id ∧
        sd_Sessions res = [l0; l1; l2; l3; l4; l5] ∧
        sd_Billable res = (λ d, Keys_Bytes (d_Header d)) <$> [d0; d1; d2; d3; d4; d5] ∧
        sd_Ret res = Keys_Bytes (d_Header d5) ∧
        sd_PostAcct res = if hook : bool then [HExit l2 0 (zlen (s_b sp))] else []) as Good.
  { intros hook E. eexists. split.
    - apply Post. rewrite Eo, (acct_header s l0 l1 l2) by done.
      rewrite (bind_run _ _ _ _ _ E). cbn [acct_loop]. by apply acct_return.
    - by destruct hook. }
  destruct (decide (svc_Port v = port ∨ svcs = [])) as [Hp|Hp].
  - exists (exit_onion xr d0 d1 d2 d3 d4 d5 kf kr n), sp.
    destruct (Good (bool_decide (svc_Port v = port))) as (res & E & R).
    { rewrite EX by (done || apply H2). change (Exit_Port xr) with port.
      destruct (decide (svc_Port v = port)) as [E|E]; [by rewrite bool_decide_true|].
      rewrite bool_decide_false by done. destruct Hp as [Hp|Hp]; [done|by rewrite Hp]. }
    exists res. split; [done|]. split; [done|]. split; [done|].
    destruct (decide (svc_Port v = port)) as [Hq|Hq]; [rewrite bool_decide_true in R by done|
      rewrite bool_decide_false in R by done]; exact R.
  - apply Post. rewrite Eo, (acct_header s l0 l1 l2) by done. apply bind_panic.
    fold r5. rewrite EX by (done || apply H2). change (Exit_Port xr) with port.
    rewrite decide_False by naive_solver. destruct svcs; [naive_solver|done].
Qed.
End Account.

(** ** Witness: six sessions with one relay *)

Module ToySkins.
#[local] Existing Instances Toy.crypto Toy.multiaddrs ToyNet.transports.

Definition service : ServiceR := MkServiceR 80 5 None.
Definition relay : Node := with_Services [service] (ToySess.node x02).
Definition pts : list (loc * Data) :=
  zip [1;2;3;4;5;6]%positive (zip_with (λ b h, ToySess.data b h) [x11; x12; x13; x14; x15; x16] [0;1;2;3;4;5]).
Definition heap : Manager :=
  MkManager {[ 1%positive := ToySess.node x01; 2%positive := relay ]} (list_to_map pts)
    false [1%positive; 2%positive] [] [1;2;3;4;5;6]%positive
    {[ arr_of 8 [x02] := Some <$> [1;2;3;4;5]%positive ]} 1.

Lemma heap_data x d : dataAt heap !! x = Some d → (x, d) ∈ pts.
Proof. intros H. by apply elem_of_list_to_map_2. Qed.

Lemma heap_sessions x : x ∈ Sessions heap → ∃ b h, dataAt heap !! x = Some (ToySess.data b h) ∧
  (h < 5 → (Some <$> [1;2;3;4;5]%positive) !! Z.to_nat h = Some (Some x)).
Proof.
  intros Hx. repeat (apply elem_of_cons in Hx as [->|Hx]; [by eexists _, _|]). by apply not_elem_of_nil in Hx.
Qed.

Lemma skins_wf : wf heap.
Proof.
  constructor.
  - reflexivity.
  - apply (bool_decide_unpack _). by vm_compute.
  - done.
  - intros x (b & h & Hd & _)%heap_sessions. exists (ToySess.data b h), relay. by split.
  - apply (bool_decide_unpack _). by vm_compute.
  - intros id c h x Hc Hs. unfold heap in Hc; cbn [CircuitCache] in Hc.
    apply lookup_singleton_Some in Hc as [<- <-].
    destruct h as [|[|[|[|[|h]]]]]; try done; injection Hs as <-; eexists _, _; by repeat split.
  - intros id c Hc. unfold heap in Hc; cbn [CircuitCache] in Hc. by apply lookup_singleton_Some in Hc as [_ <-].
  - intros x d n (b & h & Hd & Hh)%heap_sessions Hd' Hn Hr. rewrite Hd in Hd'. injection Hd' as <-.
    injection Hn as <-. exists (Some <$> [1;2;3;4;5]%positive), x.
    split; [unfold heap; cbn [CircuitCache]; by apply lookup_singleton_eq|]. apply Hh. apply Hr.
Qed.

Lemma heap_keyed : keyed heap.
Proof.
  intros x d H%heap_data. unfold pts in H. cbn [zip zip_with] in H.
  repeat (apply elem_of_cons in H as [[= -> ->]|H]; [done|]). by apply not_elem_of_nil in H.
Qed.
End ToySkins.

#[local] Existing Instances Toy.crypto Toy.laws Toy.multiaddrs ToyNet.transports ToyNet.peers.

Lemma PostAcctOnion_exit_witness :
  ∃ o ks' res, MakeExit (MkExitParams 80 [x68; x69] (arr_of 8 [x77]) (Some 6%positive) (Some 3%positive)
         [Some 1%positive; Some 2%positive; None; Some 4%positive; Some 5%positive]
         (MkKeySet (cr := Toy.crypto) (arr_of 32 [x21]) (arr_of 32 [x22]))) (three_zero, three_zero) 1 ToySkins.heap
       = Ret ((o, ks'), ToySkins.heap) ∧
    PostAcctOnion 80 OnionWitness.blind o ToySkins.heap = Ret (res, ToySkins.heap) ∧
    sd_Sessions res = [1;2;3;4;5;6]%positive.
Proof.
  destruct (PostAcctOnion_exit (cr := Toy.crypto) 80 ToySkins.heap 1 2 3 4 5 6 None
    (ToySess.data x11 0) (ToySess.data x12 1) (ToySess.data x13 2) (ToySess.data x14 3)
    (ToySess.data x15 4) (ToySess.data x16 5) ToySkins.relay ToySkins.service [] 80 [x68; x69] (arr_of 8 [x77])
    (MkKeySet (cr := Toy.crypto) (arr_of 32 [x21]) (arr_of 32 [x22])) (three_zero, three_zero) 1 OnionWitness.blind
    ToySkins.skins_wf ToySkins.heap_keyed) as (o & ks' & E & H).
  1-6: split; [by repeat (left || right)|]; split; [reflexivity|by exists ToySkins.relay].
  1-3: reflexivity.
  rewrite decide_True in H by (by left). destruct H as (on & sp & res & _ & _ & EP & _ & _ & HS & _).
  exists o, ks', res. split; [exact E|]. split; [exact EP|exact HS].
Defined.

