(* ===== verification/Engine.v ===== *)
(** * The engine: what a relay does with a message

    Models [pkg/engine/engine.go], the [Handle] methods of all onion types, and
    [pkg/engine/eng_senders.go] and [reply.go].  The engine's state is the session
    manager, the pending responses, the hidden service manager, the key set and the
    load; sending is a step of the transport of a node in the manager's heap.
    [HandleMessage] and the handlers call each other: the handlers take it as an
    argument and the recursion has fuel ([PFuel] when it runs out).  The debug lines
    that name the local node are part of the behaviour: they panic on a node without
    addresses.  Random choices and the iteration orders of maps are the fields of
    [Env]; a counter in the state makes successive draws independent. *)

From S2P Require Export SkinFacts.

(** What the engine draws from outside. *)
Class Env `{Crypto} `{Multiaddrs} `{Peers} `{Transports} := {
  shuffleA : list Multiaddr → list Multiaddr;
  shuffleS : list (option loc) → list (option loc);
  AString : Multiaddr → string;
  ASprint : Multiaddr → string;
  noise : nat → arr 32;
  draw_iv : nat → nat → IV;
  draw_id : nat → ID;
  blinds : nat → nat → Blinder;
  received : nat → Transport → bytes;
  orderM : Hidden → list PubBytes;
  orderS : Hidden → list PubBytes;
  orderK : Hidden → list PubBytes;
  defaultPort : Z;
  ValueForProtocol : Multiaddr → Z → string + error;
  AddrPort : Type;
  ParseAddrPort : string → AddrPort + error;
}.

Section Engine.
Context {cr : Crypto} {ma : Multiaddrs} {pe : Peers} {tp : Transports} {env : Env}.
(** The callbacks of the engine's users, and the hooks for intros. *)
Context {User IntroHook : Type}.

(** [responses.Callback] as the senders pass it: nil, a user's, or the closure of
    [SendIntroQuery]. *)
Inductive CB := CbNil | CbUser (c : User) | CbIntro (h : IntroHook).

Record Engine := MkEngine {
  e_Mgr : Manager; e_Responses : Pending Hook CB; e_Hidden : Hidden;
  e_Load : Z; e_KeySet : KeySet; e_draws : nat }.

Definition with_Mgr m (e : Engine) :=
  MkEngine m (e_Responses e) (e_Hidden e) (e_Load e) (e_KeySet e) (e_draws e).
Definition with_Responses (p : Pending Hook CB) (e : Engine) :=
  MkEngine (e_Mgr e) p (e_Hidden e) (e_Load e) (e_KeySet e) (e_draws e).
Definition with_Hidden h (e : Engine) :=
  MkEngine (e_Mgr e) (e_Responses e) h (e_Load e) (e_KeySet e) (e_draws e).
Definition with_KeySet k (e : Engine) :=
  MkEngine (e_Mgr e) (e_Responses e) (e_Hidden e) (e_Load e) k (e_draws e).

(** [GetLoad], [SetLoad]: the load is kept as 32 bits and read as a byte. *)
Definition GetLoad (e : Engine) : Z := wrapu 8 (e_Load e).
Definition SetLoad (load : Z) (e : Engine) : Engine :=
  MkEngine (e_Mgr e) (e_Responses e) (e_Hidden e) (wrapu 8 load) (e_KeySet e) (e_draws e).

Definition mgr {A} (m : GoM Manager A) : GoM Engine A := λ e,
  r ← m (e_Mgr e); Ret (r.1, with_Mgr r.2 e).
Definition hid {A} (m : GoM Hidden A) : GoM Engine A := λ e,
  r ← m (e_Hidden e); Ret (r.1, with_Hidden r.2 e).
(** The number of the next draw. *)
Definition draw : GoM Engine nat := λ e,
  Ret (e_draws e, MkEngine (e_Mgr e) (e_Responses e) (e_Hidden e) (e_Load e) (e_KeySet e) (S (e_draws e))).
Definition next_key : GoM Engine Prv := λ e,
  let '(k, ks) := Next (e_KeySet e) in Ret (k, with_KeySet ks e).
Definition local_name : GoM Engine unit :=
  mgr (GetLocalNodeAddressString shuffleA ASprint) ;; mret tt.
Definition budge (s : Splice) : GoM Engine Splice := d ← draw; lift (BudgeUp (noise d) s).
Definition select_hops (hops : list Z) (have : list (option loc)) : GoM Engine (list (option loc)) :=
  mgr (λ m, match SelectHops shuffleA shuffleS AString ASprint hops have m with
            | Some r => r
            | None => Panic PFuel
            end).

(** The bytes the service behind a port answers within five seconds, if any:
    [ReceiveFrom] locks the node and finds the service's channel. *)
Definition ReceiveFrom (port : Z) : GoM Node (option Transport) :=
  Node_locked (
    n ← get;
    match on_port port (Services n) with
    | Some (_, v) => match svc_Transport v with Some t => mret (Some t) | None => panicM PNil end
    | None => mret None
    end).

Definition Responses_ProcessAndDelete (run_cb : CB → ID → Onion → bytes → GoM Engine (option error))
  : ID → Onion → bytes → GoM Engine (bool * option error) :=
  ProcessAndDelete (λ h, mgr (run_hook h)) run_cb e_Responses with_Responses.
Definition Responses_Find (id : ID) : GoM Engine (option (Response Hook CB)) :=
  Pending_Find e_Responses id.

(** ** The handlers *)

Section Handlers.
Context (run_cb : CB → ID → Onion → bytes → GoM Engine (option error)).
Context (HandleMessage : Splice → Onion → GoM Engine unit).

Abbreviation Handler := (GoM Engine (option error)).

Definition with_ToPriv (k : option Prv) (x : CryptR) : CryptR :=
  MkCrypt (Depth x) (ToHeaderPub x) (ToPayloadPub x) (From x) (Crypt_IV x) (Crypt_Cloak x) k (FromPub x).

Definition Crypt_Handle (x : CryptR) (i : Onion) (s : Splice) : Handler :=
  r ← mgr (FindCloaked (Crypt_Cloak x)); let '(hdr, _, _, identity) := r in
  match hdr with
  | None => mret None
  | Some hdr =>
      let x := with_ToPriv (Some hdr) x in
      s ← lift (Crypt_Decrypt hdr x s);
      go ← (if identity : bool then
              rest ← lift (GetRest s);
              m ← lift (goslice rest 0 MagicLen);
              mret (bool_decide (m = string_bytes SessionMagic))
            else mret true);
      if go : bool then
        s ← budge s; HandleMessage s (OCrypt x i) ;; mret None
      else mret None
  end.

(** The charge of a relay for a message of [size] bytes, to the session of the
    crypt it came in. *)
Definition charge_relay (x : CryptR) (size : Z) : GoM Engine unit :=
  sess ← mgr (FindSessionByHeader (ToPriv x));
  match sess with
  | Some l =>
      rate ← mgr GetLocalNodeRelayRate;
      d ← mgr (data_at l);
      _ ← mgr (DecSession (Keys_Bytes (d_Header d)) (wraps 64 (rate * size))); mret tt
  | None => mret tt
  end.

Definition Forward_Handle (addr : option Multiaddr) (i : Onion) (s : Splice) (p : Onion) : Handler :=
  m ← mgr (MatchesLocalNodeAddress addr);
  if m : bool then
    s ← budge s; HandleMessage s (OForward addr i) ;; mret None
  else
    (match p with OCrypt on1 _ => charge_relay on1 (Len s) | _ => mret tt end) ;;
    s ← budge s;
    mgr (Send shuffleA AString ASprint addr (GetAll s)) ;; mret None.

(** The three-layer header: the layer of this relay is opened, the two behind it
    move up, noise takes the place of the last. *)
Definition shift_header (hdr pld : Prv) (x : CryptR) (seed : arr 32) (s : Splice) : Out Splice :=
  match FromPub x with
  | None => Panic PNil
  | Some from =>
      let first := GetCursor s in
      let start := first - ReverseCryptLen in
      let second := first + ReverseCryptLen in
      let last := second + ReverseCryptLen in
      s ← encipher_range (GetBlock hdr from) (Crypt_IV x) first (first + 2 * ReverseCryptLen) s;
      s ← CopyRanges start first first second s;
      s ← CopyRanges first second second last s;
      pad ← NoisePad seed ReverseCryptLen;
      s ← CopyIntoRange pad second last s;
      if bool_decide (last = Len s) then Ret s
      else encipher_from (GetBlock pld from) (Crypt_IV x) last s
  end.

Definition Reverse_Handle (addr : option Multiaddr) (s : Splice) (p : Onion) : Handler :=
  m ← mgr (MatchesLocalNodeAddress addr);
  if m : bool then
    r ← lift (Recognise the_registry s); let '(on, s) := r in
    match on with
    | None => panicM PNil
    | Some on =>
        r ← lift (Codec_Decode on s); let '((on, e), s) := r in
        match e with
        | Some _ => mret e
        | None =>
            match on with
            | COnion (OCrypt x i) =>
                let first := GetCursor s in
                let start := first - ReverseCryptLen in
                let last := first + 2 * ReverseCryptLen in
                r ← mgr (FindCloaked (Crypt_Cloak x)); let '(hdr, pld, _, _) := r in
                match hdr, pld with
                | Some hdr, Some pld =>
                    let x := with_ToPriv (Some hdr) x in
                    d ← draw;
                    s ← lift (shift_header hdr pld x (noise d) s);
                    m ← lift (GetRange start (start + MagicLen) s);
                    if bool_decide (m ≠ string_bytes ReverseMagic) then
                      s ← budge (SetCursor last s);
                      HandleMessage s (OCrypt x i) ;; mret None
                    else
                      sess ← mgr (FindSessionByHeader (Some hdr));
                      match sess with
                      | Some l =>
                          dl ← mgr (data_at l);
                          rate ← mgr GetLocalNodeRelayRate;
                          _ ← mgr (DecSession (Keys_Bytes (d_Header dl)) (wraps 64 (rate * Len s)));
                          s ← budge (SetCursor start s);
                          HandleMessage s (OCrypt x i) ;; mret None
                      | None => mret None
                      end
                | _, _ => local_name ;; mret None
                end
            | _ => mret None
            end
        end
    end
  else match p with
       | ONil => mret None
       | _ => local_name ;; mgr (Send shuffleA AString ASprint addr (GetAll s)) ;; mret None
       end.

(** [PreimageHash] *)
Definition PreimageHash (x : SessionR) : Out Hash :=
  match Header x, Payload x with
  | Some h, Some p =>
      Ret (Single (arr_list (Prv_ToBytes (Keys_Prv h)) ++ arr_list (Prv_ToBytes (Keys_Prv p))))
  | _, _ => Panic PNil
  end.

(** A new session object, and its pointer. *)
Definition new_data (d : Data) : GoM Manager loc := λ s,
  let l := fresh (dom (dataAt s)) in Ret (l, with_dataAt (<[l := d]> (dataAt s)) s).

Definition Session_Handle (x : SessionR) (s : Splice) : Handler :=
  h ← lift (PreimageHash x);
  pi ← mgr (FindPendingPreimage h);
  match pi, Header x, Payload x with
  | Some pi, Some hdr, Some pld =>
      mgr (DeletePendingPayment (Preimage pi)) ;;
      local_name ;;
      ln ← mgr GetLocalNode;
      l ← mgr (new_data (NewSessionData (pay_ID pi) ln (Amount pi) hdr pld (b2z (Hop x))));
      mgr (AddSession l) ;;
      s ← budge s; HandleMessage s ONil ;; mret None
  | _, _, _ => mret None
  end.

(** The session with an identifier. *)
Definition session_by_id (id : ID) : GoM Manager (option loc) := FindSession (λ d, holds (d_ID d = id)).

(** The charge for a request and its reply, at half rate, to the session of the
    crypt the request came in. *)
Definition charge_query (p : Onion) (insize outsize : Z) : GoM Engine unit :=
  match p with
  | OCrypt on1 _ =>
      sess ← mgr (FindSessionByHeader (ToPriv on1));
      match sess with
      | Some l =>
          d ← mgr (data_at l);
          n ← mgr (node_at (d_Node d));
          let cost size := Z.quot (wraps 64 (RelayRate n * size)) 2 in
          _ ← mgr (DecSession (Keys_Bytes (d_Header d)) (cost insize + cost outsize)); mret tt
      | None => mret tt
      end
  | _ => mret tt
  end.

Definition balance_reply (header : RoutingHeaderBytes) (x : GetBalanceR) (msat : Z) (padding : Z → Z)
    : GoM Engine bytes :=
  b ← lift (codec_Encode defaultPort (blinds 0) (OBalance (GetBalance_ID x) msat));
  rbb ← lift (FormatReply header (GetBalance_Ciphers x) (GetBalance_Nonces x) (GetAll b));
  d ← draw;
  pad ← lift (NoisePad (noise d) (padding (Len rbb)));
  mret (GetAll rbb ++ pad).

(** The second reply is padded by what the first one, padded, left of 714. *)
Definition GetBalance_Handle (x : GetBalanceR) (i : Onion) (s : Splice) (p : Onion) : Handler :=
  sd ← mgr (session_by_id (GetBalance_ID x));
  match sd with
  | None => mret None
  | Some l =>
      d ← mgr (data_at l);
      r ← lift (GetRoutingHeaderFromCursor s); let '(header, s) := r in
      rb ← balance_reply header x (d_Remaining d) (λ n, 714 - n);
      charge_query p (Len s) (zlen rb) ;;
      sd ← mgr (session_by_id (GetBalance_ID x));
      d ← match sd with Some l => mgr (data_at l) | None => mret d end;
      rb ← balance_reply header x (d_Remaining d) (λ _, 714 - zlen rb);
      HandleMessage (Load rb 0) (OGetBalance x i) ;; mret None
  end.

(** The intro is written over the message at the cursor before the routing header
    is taken from behind it. *)
Definition IntroQuery_Handle (x : IntroQueryR) (i : Onion) (s : Splice) (p : Onion) : Handler :=
  hid Hidden_Lock ;;
  local_name ;;
  match IntroQuery_Key x with
  | None => panicM PNil
  | Some k =>
      e ← get;
      match known_intro (Pub_ToBytes k) (e_Hidden e) with
      | None => hid Hidden_Unlock ;; mret None
      | Some il =>
          hid Hidden_Unlock ;;
          r ← lift (@Ad_Encode _ _ Intro.adtype il s); let '(err, s) := r in
          r ← lift (GetRoutingHeaderFromCursor s); let '(header, s) := r in
          rb ← lift (FormatReply header (IntroQuery_Ciphers x) (IntroQuery_Nonces x) (GetAll s));
          charge_query p (Len s) (Len rb) ;;
          HandleMessage rb (OIntroQuery x i) ;; mret err
      end
  end.

Definition HiddenService_Handle (x : HiddenServiceR) : Handler :=
  local_name ;;
  hid (AddIntro (ad_Key (Intro.base (HS_Intro x)))
         (MkIntroduction (Some (HS_Intro x))
            (MkReplyHeader (HS_Header x) (HS_Ciphers x) (HS_Nonces x)))) ;;
  mret None.

Definition Exit_Handle (x : ExitR) (i : Onion) (s : Splice) (p : Onion) : Handler :=
  local_name ;;
  e ← mgr (SendFromLocalNode (Exit_Port x) (Exit_Bytes x));
  match e with
  | Some _ => mret e
  | None =>
      ln ← mgr GetLocalNode;
      ch ← mgr (on_node ln (ReceiveFrom (Exit_Port x)));
      d ← draw;
      let result := match ch with Some t => received d t | None => [] end in
      st ← get;
      res ← lift (codec_Encode defaultPort (blinds 0)
                    (Response_New (Exit_ID x) (Exit_Port x) result (z2b (GetLoad st))));
      r ← lift (GetRoutingHeaderFromCursor s); let '(header, s) := r in
      rb ← lift (FormatReply header (Exit_Ciphers x) (Exit_Nonces x) (GetAll res));
      go ← match p with
           | OCrypt on _ =>
               sess ← mgr (FindSessionByHeader (ToPriv on));
               match sess with
               | None => mret false
               | Some l =>
                   dl ← mgr (data_at l);
                   mgr (on_node (d_Node dl) Node_Lock) ;;
                   n ← mgr (node_at (d_Node dl));
                   j ← mgr (find_service_unlocking (Exit_Port x) (d_Node dl) 0 (Services n));
                   (match j ≫= λ j, Services n !! j with
                    | Some v =>
                        let cost size := Z.quot (wraps 64 (svc_RelayRate v * size)) 2 in
                        _ ← mgr (DecSession (Keys_Bytes (d_Header dl)) (cost (Len s) + cost (Len rb)));
                        mret tt
                    | None => mret tt
                    end) ;; mret true
               end
           | _ => mret true
           end;
      if go : bool then HandleMessage rb (OExit x i) ;; mret None else mret None
  end.

(** The accounting of a response to the sessions of its circuit: the first two
    carried the request, the third is the exit. *)
Fixpoint bill_response (sent port dataSize : Z) (i : nat) (l : list PubBytes) : GoM Engine unit :=
  match l with
  | [] => mret tt
  | k :: l =>
      se ← mgr (FindSessionByPubkey k);
      (match se with
       | None => mret tt
       | Some sl =>
           d ← mgr (data_at sl); n ← mgr (node_at (d_Node d));
           r ← (match i with
                | 0%nat | 1%nat => mret (RelayRate n, sent)
                | 2%nat =>
                    mgr (on_node (d_Node d) Node_Lock) ;;
                    mgr (on_node (d_Node d) Node_Unlock) ;;
                    mret (match on_port port (Services n) with
                          | Some (_, v) => Z.quot (svc_RelayRate v) 2
                          | None => RelayRate n
                          end, dataSize)
                | _ => mret (RelayRate n, dataSize)
                end);
           _ ← mgr (DecSession (Keys_Bytes (d_Header d)) (wraps 64 (r.1 * r.2))); mret tt
       end) ;;
      bill_response sent port dataSize (S i) l
  end.

Definition Response_Handle (x : ResponseR) (s : Splice) : Handler :=
  pending ← Responses_Find (Response_ID x);
  match pending with
  | None => mret None
  | Some pr =>
      bill_response (SentSize pr) (Response_Port x) (Len s) 0 (Billable pr) ;;
      _ ← Responses_ProcessAndDelete run_cb (Response_ID x) ONil (Response_Bytes x);
      mret None
  end.

(** The session is used before it is checked for nil. *)
Fixpoint bill_balance (sent size : Z) (i : nat) (l : list PubBytes) : GoM Engine unit :=
  match l with
  | [] => mret tt
  | k :: l =>
      se ← mgr (FindSessionByPubkey k);
      match se with
      | None => panicM PNil
      | Some sl =>
          d ← mgr (data_at sl); n ← mgr (node_at (d_Node d));
          let out := wraps 64 (RelayRate n * size) in
          let in_ := wraps 64 (RelayRate n * sent) in
          _ ← mgr (DecSession (Keys_Bytes (d_Header d))
                     (if bool_decide (i < 2)%nat then in_
                      else if bool_decide (i = 2)%nat then Z.quot (wraps 64 (in_ + out)) 2 else out));
          bill_balance sent size (S i) l
      end
  end.

Definition Balance_Handle (id : ID) (msat : Z) (s : Splice) : Handler :=
  pending ← Responses_Find id;
  match pending with
  | None => mret None
  | Some pr =>
      bill_balance (SentSize pr) (Len s) 0 (Billable pr) ;;
      se ← mgr (session_by_id id);
      (match se with
       | Some l => d ← mgr (data_at l); mgr (set_data l (with_Remaining msat d))
       | None => mret tt
       end) ;;
      _ ← Responses_ProcessAndDelete run_cb (r_ID pr) ONil (GetAll s);
      mret None
  end.

Definition Confirmation_Handle (id : ID) (s : Splice) : Handler :=
  _ ← Responses_ProcessAndDelete run_cb id ONil (GetAll s); mret None.

Definition Message_Handle (x : MessageR) (s : Splice) : Handler :=
  r ← Responses_ProcessAndDelete run_cb (Message_ID x) (OMessage x) (GetAll s); mret r.2.
Definition Ready_Handle (x : ReadyR) (s : Splice) : Handler :=
  r ← Responses_ProcessAndDelete run_cb (Ready_ID x) (OReady x) (GetAll s); mret r.2.

Definition Delay_Handle (d : Z) (i : Onion) (s : Splice) : Handler :=
  s ← budge s; HandleMessage s (ODelay d i) ;; mret None.

(** The hidden service's side of a route: the header for the reply has three
    sessions, the loop over the five addresses indexes it with each of its indices. *)
Fixpoint route_addresses (sessions : list (option loc)) (i : Z) (k : nat)
    : GoM Manager (list (option Multiaddr)) :=
  match k with
  | O => mret []
  | S k =>
      l ← lift (goindex sessions i); d ← deref l; n ← node_at (d_Node d);
      m ← get;
      r ← route_addresses sessions (i + 1) k;
      mret (PickAddress (Protocols m) n :: r)
  end.

(** The sessions of [l] at two positions, dereferenced. *)
Definition session_at (l : list (option loc)) (i : Z) : GoM Manager Data :=
  s ← lift (goindex l i); deref s.

Definition route_layer (addrs : list (option Multiaddr)) (rt : list (option loc)) (i : Z)
    (mk : option Multiaddr → Onion) (k : Prv) (n : IV) (depth : Z) : GoM Manager (list Onion) :=
  a ← lift (goindex addrs i); d ← session_at rt i;
  mret [mk a; Crypt_New (Some (Keys_Pub (d_Header d))) (Some (Keys_Pub (d_Payload d))) (Some k) n depth].

Definition Route_Handle (x : RouteR) (s : Splice) : GoM Engine (option error) :=
  local_name ;;
  e ← get;
  hc ← hid (FindCloakedHiddenService (orderM (e_Hidden e)) (orderS (e_Hidden e)) (orderK (e_Hidden e))
              (HiddenCloaked x));
  match hc with
  | None => mret None
  | Some hc =>
      let '(pub, err) := PubFromBytes (arr_list hc) in
      match err with
      | Some _ => mret err
      | None =>
          match local_service hc (e_Hidden e) with
          | None => mret None
          | Some hh =>
              i0 ← lift (goindex (CurrentIntros hh) 0);
              (match ad_Key (Intro.base i0) with Some _ => mret tt | None => panicM PNil end) ;;
              r ← lift (Route_Decrypt (lh_Prv hh) x s); let '(x, s) := r in
              dn ← draw;
              let n := draw_iv dn in
              k0 ← next_key; k1 ← next_key; k2 ← next_key;
              ss ← select_hops [3; 4; 5; 0; 1] (replicate 5 None);
              let rt := take 3 ss in
              addrs ← mgr (route_addresses rt 0 5);
              l0 ← mgr (route_layer addrs rt 0 Reverse_New k0 (n 0%nat) 3);
              l1 ← mgr (route_layer addrs rt 1 Reverse_New k1 (n 1%nat) 2);
              l2 ← mgr (route_layer addrs rt 2 Reverse_New k2 (n 2%nat) 1);
              rh ← lift (Assemble (l0 ++ l1 ++ l2));
              rHdr ← lift (codec_Encode defaultPort (blinds dn) rh);
              d0 ← mgr (session_at ss 0); d1 ← mgr (session_at ss 1); d2 ← mgr (session_at ss 2);
              k3 ← next_key;
              m3 ← mgr (route_layer addrs ss 3 Forward_New k3 (n 3%nat) 0);
              k4 ← next_key;
              m4 ← mgr (route_layer addrs ss 4 Forward_New k4 (n 4%nat) 0);
              r ← lift (GetRoutingHeaderFromCursor (SetCursor 0 rHdr));
              let ready := Ready_New (Route_ID x) pub (Route_Header x) r.1 (Route_Ciphers x)
                  (GenCiphers (k0, k1, k2) (PubKey (Keys_Prv (d_Payload d0)),
                     PubKey (Keys_Prv (d_Payload d1)), PubKey (Keys_Prv (d_Payload d2))))
                  (Route_Nonces x) (n 0%nat, n 1%nat, n 2%nat) in
              assembled ← lift (Assemble (m3 ++ m4 ++ [ready]));
              reply ← lift (codec_Encode defaultPort (blinds (S dn)) assembled);
              HandleMessage reply (ORoute x ONil) ;; mret None
          end
      end
  end.

(** The interface call [Handle]. *)
Definition Handle (o : Onion) (s : Splice) (p : Onion) : GoM Engine (option error) :=
  match o with
  | ONil => panicM PNil
  | OEnd => mret None
  | OCrypt x i => Crypt_Handle x i s
  | OForward a i => Forward_Handle a i s p
  | OReverse a _ => Reverse_Handle a s p
  | OSession x _ => Session_Handle x s
  | OExit x i => Exit_Handle x i s p
  | OGetBalance x i => GetBalance_Handle x i s p
  | OIntroQuery x i => IntroQuery_Handle x i s p
  | OHiddenService x _ => HiddenService_Handle x
  | ORoute x _ => Route_Handle x s
  | OBalance id m => Balance_Handle id m s
  | OConfirmation id => Confirmation_Handle id s
  | OResponse x => Response_Handle x s
  | OReady x => Ready_Handle x s
  | OMessage x => Message_Handle x s
  | ODelay d i => Delay_Handle d i s
  end.
End Handlers.

(** [HandleMessage]: an error of the handler is only logged. *)
Fixpoint HandleMessage (run_cb : CB → ID → Onion → bytes → GoM Engine (option error)) (fuel : nat)
    (s : Splice) (pr : Onion) : GoM Engine unit :=
  match fuel with
  | O => panicM PFuel
  | S fuel =>
      local_name ;;
      r ← lift (Recognise the_registry (with_segs [] (SetCursor 0 s))); let '(on, s) := r in
      match on with
      | None => mret tt
      | Some on =>
          _ ← lift (Codec_Magic on);
          r ← lift (Codec_Decode on s); let '((on, e), s) := r in
          match e with
          | Some _ => mret tt
          | None =>
              m ← lift (Codec_Unwrap on);
              match m with
              | ONil => mret tt
              | _ => _ ← Handle run_cb (HandleMessage run_cb fuel) m s pr; mret tt
              end
          end
      end
  end.

(** ** Events of the engine *)

(** An incoming payment tops up the session with its preimage or waits for the
    session's keys. *)
Definition HandlePayment (p : Payment) : GoM Engine unit :=
  l ← mgr (locked (s ← get;
        x ← find_data (λ d, holds (d_Preimage d = Preimage p)) (Sessions s);
        match x with
        | Some l => IncSats l (Amount p) ;; mret true
        | None => mret false
        end));
  if l : bool then mret tt else mgr (AddPendingPayment p).

(** ** Senders ([eng_senders.go], [send.go], [reply.go]) *)

(** [SendWithOneHook]: the response is registered first; the address is the one
    [PickAddress] names. *)
Definition SendWithOneHook (now : Z) (res : SessData) (hook : CB) : GoM Engine unit :=
  e ← get;
  l ← mgr GetLocalNode; n ← mgr (node_at l);
  let addr := PickAddress (Protocols (e_Mgr e)) n in
  Pending_Add e_Responses with_Responses
    (MkResponseRec (sd_ID res) (zlen (sd_B res)) (sd_Port res) (sd_Billable res) (sd_Ret res)
       (sd_PostAcct res) hook now) ;;
  local_name ;;
  match addr with
  | None => panicM PNil
  | Some _ => mgr (Send shuffleA AString ASprint addr (sd_B res))
  end.

(** Build, account, send: what the senders have in common. *)
Definition with_keys {A} (m : KeySet → GoM Manager (A * KeySet)) : GoM Engine A :=
  e ← get; r ← mgr (m (e_KeySet e)); e ← get; set (with_KeySet r.2 e) ;; mret r.1.
Definition send_onion (now : Z) (o : list Onion) (hook : CB) : GoM Engine ID :=
  d ← draw;
  res ← mgr (PostAcctOnion defaultPort (blinds d) o);
  SendWithOneHook now res hook ;; mret (sd_ID res).
Definition six_nonces : GoM Engine (three IV * three IV) :=
  d ← draw; let n := draw_iv d in
  mret ((n 0%nat, n 1%nat, n 2%nat), (n 3%nat, n 4%nat, n 5%nat)).

(** The standard circuit with [bob] third and [alice] last, cut to five. *)
Definition circuit_for (bob alice : option loc) : GoM Engine (list (option loc)) :=
  se ← select_hops StandardCircuit [None; None; bob; None; None; alice];
  mret (take 5 (se ++ replicate 5 None)).

(** The positional literal of [SendExit] puts [bob] where [Alice] is expected. *)
Definition SendExit (now port : Z) (msg : bytes) (id : ID) (alice bob : option loc) (hook : CB)
    : GoM Engine ID :=
  c ← circuit_for bob alice;
  n ← six_nonces;
  p ← mgr (s ← get; mret (Protocols s));
  o ← with_keys (λ ks, MakeExit (MkExitParams port msg id bob alice c ks) n p);
  send_onion now o hook.

Definition SendGetBalance (now : Z) (alice bob : option loc) (hook : CB) : GoM Engine ID :=
  c ← circuit_for bob alice;
  n ← six_nonces;
  p ← mgr (s ← get; mret (Protocols s));
  d ← mgr (deref alice);
  o ← with_keys (λ ks, MakeGetBalance (d_ID d) alice bob c ks n p);
  send_onion now o hook.

(** [MakeIntroQuery] is called with the two swapped, too. *)
Definition SendIntroQuery (now : Z) (id : ID) (hsk : option Pub) (alice bob : option loc) (hook : IntroHook)
    : GoM Engine ID :=
  c ← circuit_for bob alice;
  n ← six_nonces;
  p ← mgr (s ← get; mret (Protocols s));
  o ← with_keys (λ ks, MakeIntroQuery id hsk bob alice c ks n p);
  send_onion now o (CbIntro hook).

Definition SendPing (now : Z) (c : list (option loc)) (hook : CB) : GoM Engine ID :=
  se ← select_hops StandardCircuit (take 6 (c ++ replicate 6 None));
  d ← draw;
  last ← mgr (lift (goindex se (zlen se - 1)));
  p ← mgr (s ← get; mret (Protocols s));
  o ← with_keys (λ ks, Ping (draw_id d) last (take 5 se) (map (draw_iv d) (seq 0 6)) ks p);
  send_onion now o hook.

(** [SendRoute] to the relay whose session has an address that reads like [ap]. *)
Definition SendRoute (now : Z) (k : Pub) (ap : string) (hook : CB) : GoM Engine unit :=
  _ ← mgr (FindNodeByAddrPort AString ap);
  ss ← mgr (locked (s ← get; (fix go l := match l with
         | [] => mret None
         | x :: l => d ← data_at x; n ← node_at (d_Node d);
                     if bool_decide (Exists (λ a, AString a = ap) (Addresses n))
                     then mret (Some x) else go l
         end) (Sessions s)));
  match ss with
  | None => local_name
  | Some _ =>
      local_name ;;
      se ← select_hops StandardCircuit [None; None; ss; None; None; None];
      n ← six_nonces; d ← draw;
      p ← mgr (s ← get; mret (Protocols s));
      s5 ← mgr (lift (goindex se 5)); s2 ← mgr (lift (goindex se 2));
      o ← with_keys (λ ks, MakeRoute (draw_id d) k ks s5 s2 (take 5 se) n (draw_iv d 6%nat) (blinds d 6%nat) p);
      _ ← send_onion now o hook; mret tt
  end.

Definition SendMessage (now : Z) (mp : MessageR) (forwards : option loc * option loc) (hook : CB)
    : GoM Engine ID :=
  oo ← select_hops [0; 1] [forwards.1; forwards.2];
  f0 ← mgr (lift (goindex oo 0)); _ ← mgr (lift (goindex oo 1));
  d ← draw;
  res ← mgr (PostAcctOnion defaultPort (blinds d) [OMessage mp]);
  _ ← mgr (d ← deref f0; node_at (d_Node d));
  SendWithOneHook now res hook ;; mret (sd_ID res).

(** [SendHiddenService]: the address of [alice] is only logged, but its error ends the
    call. *)
Definition SendHiddenService (now : Z) (id : ID) (key : Prv) (relayRate port expiry : Z)
    (alice bob : option loc) (svc : option ServiceR) (hook : CB)
    : GoM Engine (option Intro.Ad * option error) :=
  se ← select_hops StandardCircuit [None; None; alice; None; None; None];
  let c := take 5 se in
  d ← mgr (deref alice); n ← mgr (node_at (d_Node d));
  p ← mgr (s ← get; mret (Protocols s));
  match AddrToAddrPort ValueForProtocol ParseAddrPort (PickAddress p n) with
  | (_, Some e) => mret (None, Some e)
  | (_, None) =>
      db ← mgr (deref bob); nb ← mgr (node_at (d_Node db));
      i ← lift (Intro.New_ id key (Some (id_Pub (Identity nb))) relayRate port expiry);
      six ← six_nonces;
      o ← with_keys (λ ks, MakeHiddenService i alice bob c ks six p);
      local_name ;;
      dn ← draw;
      res ← mgr (PostAcctOnion defaultPort (blinds dn) o);
      hid (AddHiddenService svc key i) ;;
      local_name ;;
      SendWithOneHook now res hook ;; mret (Some i, None)
  end.

Definition MakeReplyHeader : GoM Engine ReplyHeader :=
  dn ← draw; let n := draw_iv dn in
  k0 ← next_key; k1 ← next_key; k2 ← next_key;
  s ← select_hops [3; 4; 5] [None; None; None];
  s0 ← mgr (lift (goindex s 0)); s1 ← mgr (lift (goindex s 1)); s2 ← mgr (lift (goindex s 2));
  p ← mgr (s ← get; mret (Protocols s));
  let rt := MkRouting (s0, s1, s2) (Some k0, Some k1, Some k2) (n 0%nat, n 1%nat, n 2%nat) in
  rh ← mgr (SRoutingHeader [] rt p);
  on ← lift (Assemble rh);
  rHdr ← lift (codec_Encode defaultPort (blinds dn) on);
  d0 ← mgr (deref s0); d1 ← mgr (deref s1); d2 ← mgr (deref s2);
  r ← lift (GetRoutingHeaderFromCursor (SetCursor 0 rHdr));
  mret (MkReplyHeader r.1 (GenCiphers (k0, k1, k2)
          (PubKey (Keys_Prv (d_Payload d0)), PubKey (Keys_Prv (d_Payload d1)), PubKey (Keys_Prv (d_Payload d2))))
          (rt_Nonces rt)).
End Engine.
