(* ===== verification/EngineFacts.v ===== *)
(** * Running the engine: lemmas and properties *)

From S2P Require Export Engine.

Section EngineFacts.
Context {cr : Crypto} {crl : CryptoLaws} {ma : Multiaddrs} {mal : MultiaddrLaws}
  {pe : Peers} {tp : Transports} {env : Env}.
Context {User IntroHook : Type}.
Abbreviation Engine := (Engine (User := User) (IntroHook := IntroHook)).
Context (run_cb : CB (User := User) (IntroHook := IntroHook) → ID → Onion → bytes → GoM Engine (option error)).

(** The local node can be named: it has an address. *)
Definition named (e : Engine) : Prop :=
  ∃ l n, goindex (nodes (e_Mgr e)) 0 = Ret l ∧ nodeAt (e_Mgr e) !! l = Some n ∧
         shuffleA (Addresses n) ≠ [].

Lemma with_Mgr_id (e : Engine) : with_Mgr (e_Mgr e) e = e.
Proof. by destruct e. Qed.

Lemma mgr_run {A} (m : GoM Manager A) (e : Engine) a s :
  m (e_Mgr e) = Ret (a, s) → mgr m e = Ret (a, with_Mgr s e).
Proof. intros E. unfold mgr. by rewrite E. Qed.

Lemma GetLocalNode_run s l : goindex (nodes s) 0 = Ret l → GetLocalNode s = Ret (l, s).
Proof. intros E. unfold GetLocalNode, mbind, GoM_bind, get, lift. cbn. by rewrite E. Qed.

Lemma mgr_read {A} (m : GoM Manager A) (e : Engine) a :
  m (e_Mgr e) = Ret (a, e_Mgr e) → mgr m e = Ret (a, e).
Proof. intros E. rewrite (mgr_run m e a _ E). by rewrite with_Mgr_id. Qed.

Lemma mgr_panic {A} (m : GoM Manager A) (e : Engine) p :
  m (e_Mgr e) = Panic p → mgr m e = Panic p.
Proof. intros E. unfold mgr. by rewrite E. Qed.

Lemma local_name_run (e : Engine) : named e → local_name e = Ret (tt, e).
Proof.
  intros (l & n & Hl & Hn & Ha). unfold local_name.
  destruct (shuffleA (Addresses n)) as [|a r] eqn:Es; [done|].
  erewrite bind_run; [done|]. apply mgr_read with (a := ASprint a).
  unfold GetLocalNodeAddressString, GetLocalNodeAddress, GetLocalNodeAddresses, GetLocalNode.
  change ((get ≫= ?f) ?s) with (f s s). cbn beta.
  unfold mbind, GoM_bind, get, lift. rewrite Hl. cbn. unfold node_at. rewrite Hn. cbn.
  by rewrite Es.
Qed.

(** A message at the front of the buffer is read from there. *)
Lemma front_at s bs r : s_b s = bs ++ r → at_cursor (with_segs [] (SetCursor 0 s)) bs.
Proof.
  intros B. pose proof (zlen_nonneg r). unfold at_cursor, Len. cbn. rewrite B, zlen_app, drop_0, take_app_length.
  split_and!; [lia|lia|done].
Qed.

(** One turn of [HandleMessage] on a message that is recognised and decoded. *)
Lemma HandleMessage_turn fuel s pr (e : Engine) on s1 on' s2 m mg :
  named e → Recognise the_registry (with_segs [] (SetCursor 0 s)) = Ret (Some on, s1) →
  Codec_Magic on = Ret mg → Codec_Decode on s1 = Ret ((on', None), s2) → Codec_Unwrap on' = Ret m →
  HandleMessage run_cb (S fuel) s pr e
  = match m with
    | ONil => Ret (tt, e)
    | _ => (_ ← Handle run_cb (HandleMessage run_cb fuel) m s2 pr; mret tt) e
    end.
Proof.
  intros N ER EM ED EU. cbn [HandleMessage].
  rewrite (bind_run _ _ _ _ _ (local_name_run e N)).
  rewrite (bind_run _ _ _ _ _ (lift_run _ _ e ER)).
  rewrite (bind_run _ _ _ _ _ (lift_run _ _ e EM)).
  rewrite (bind_run _ _ _ _ _ (lift_run _ _ e ED)).
  rewrite (bind_run _ _ _ _ _ (lift_run _ _ e EU)).
  by destruct m.
Qed.

(** After a draw of noise. *)
Definition bump (e : Engine) : Engine :=
  MkEngine (e_Mgr e) (e_Responses e) (e_Hidden e) (e_Load e) (e_KeySet e) (S (e_draws e)).

Lemma budge_run s s' (e : Engine) :
  BudgeUp (noise (e_draws e)) s = Ret s' → budge s e = Ret (s', bump e).
Proof.
  intros E. unfold budge. rewrite (bind_run draw _ e (e_draws e) (bump e)) by done.
  by rewrite (lift_run _ _ _ E).
Qed.

(** The session at [l], whose header key is [prv], is the only one a cloak finds. *)
Definition addressed (clk : CloakedPubKey) (prv : Prv) (s : Manager) : Prop :=
  (∃ x n, goindex (nodes s) 0 = Ret x ∧ nodeAt s !! x = Some n ∧ Match clk (id_Bytes (Identity n)) = false) ∧
  ∃ l d, l ∈ Sessions s ∧ dataAt s !! l = Some d ∧ Keys_Prv (d_Header d) = prv ∧
         Keys_Bytes (d_Header d) = Pub_ToBytes (PubKey prv) ∧
         ∀ y, y ∈ Sessions s → sel s (matches clk) y = true → y = l.

Lemma addressed_finds clk prv s :
  wf s → addressed clk prv s → Match clk (Pub_ToBytes (PubKey prv)) = true →
  ∃ pld l, FindCloaked clk s = Ret ((Some prv, pld, l, false), s).
Proof.
  intros W ((x & n & Hx & Hn & HM) & l & d & Hl & Hd & Ek & Eb & Hu) Hm.
  rewrite (FindCloaked_run s x n clk W Hx Hn), HM.
  destruct (list_find _ _) as [[i y]|] eqn:E; cbn [fmap option_fmap option_map snd].
  - apply list_find_Some in E as (Hi & Hy & _).
    apply (Hu y) in Hy as ->; [|by eapply list_elem_of_lookup_2].
    rewrite Hd, Ek. by do 2 eexists.
  - apply list_find_None in E. rewrite Forall_forall in E. exfalso. apply (E l Hl).
    unfold sel. rewrite Hd. unfold matches. by rewrite Eb.
Qed.

Lemma bind_step {St A B} (m m' : GoM St A) (f : A → GoM St B) s s' :
  m s = m' s' → (m ≫= f) s = (m' ≫= f) s'.
Proof. intros E. unfold mbind, GoM_bind. by rewrite E. Qed.

(** A handler that ends in a further turn, seen from the turn it is in. *)
Lemma handled {R} (m : GoM Engine unit) (x : R) (e : Engine) :
  ((m ;; mret x) ≫= λ _, mret tt) e = m e.
Proof. unfold mbind, GoM_bind, mret, GoM_ret. by destruct (m e) as [[[] ?]|]. Qed.

(** A relay that holds the session a crypt is sealed for opens the layer and goes on
    with the message inside, at the front of an equally long buffer. *)
Lemma HandleMessage_crypt fuel dp bl x i prv s r pr (e : Engine) :
  encodable dp bl (OCrypt x i) → Depth x = 0 → ToHeaderPub x = Some (PubKey prv) →
  s_b s = image bl (OCrypt x i) ++ r → s_E s = None →
  named e → wf (e_Mgr e) → addressed (GetCloak (bl O) (PubKey prv)) prv (e_Mgr e) →
  ∃ x' s' r', HandleMessage run_cb (S fuel) s pr e = HandleMessage run_cb fuel s' (OCrypt x' ONil) (bump e) ∧
    ToPriv x' = Some prv ∧ s_b s' = image (λ n, bl (S n)) i ++ r' ∧ Len s' = Len s ∧ s_E s' = None.
Proof.
  intros He HD HT B HE N W A.
  destruct (crypt_layer dp bl x i prv _ (noise (e_draws e)) He HD HT (front_at s _ r B) HE)
    as (s1 & x' & s2 & s3 & s4 & r' & E1 & E2 & HM & E3 & E4 & B4 & L4 & N4).
  assert (Crypt_Cloak x' = GetCloak (bl O) (PubKey prv)) as EC.
  { destruct (receive_onion dp bl (OCrypt x i) _ I He (front_at s _ r B) HE) as (t1 & t2 & F1 & F2 & _).
    cbn [gen_of] in *. rewrite E1 in F1. injection F1 as <-. rewrite E2 in F2. cbn [decoded] in F2.
    destruct He as ([k Hk] & _). rewrite Hk, HT in F2. by injection F2 as ->. }
  destruct (addressed_finds _ prv _ W A (Match_Cloak _ _)) as (pld & l & EF).
  exists (with_ToPriv (Some prv) x'), s4, r'. split; [|by split_and!].
  rewrite (HandleMessage_turn fuel s pr e (COnion Crypt_Gen) s1 (COnion (OCrypt x' ONil)) s2 (OCrypt x' ONil) CryptMagic);
    [|done|done|done| |done]; cycle 1.
  { cbn [Codec_Decode]. unfold mbind, GoM_bind. by rewrite E2. }
  cbn [Handle]. rewrite EC in *.
  etransitivity; [apply (bind_step _ (HandleMessage run_cb fuel s4 (OCrypt (with_ToPriv (Some prv) x') ONil) ;; mret None)
    _ e (bump e))|apply handled].
  unfold Crypt_Handle. rewrite EC, (bind_run _ _ _ _ _ (mgr_read _ e _ EF)). cbn [Crypt_Cloak].
  change (Crypt_Decrypt prv (with_ToPriv (Some prv) x') s2) with (Crypt_Decrypt prv x' s2).
  rewrite (bind_run _ _ _ _ _ (lift_run _ _ e E3)). rewrite (bind_run _ _ e true e) by done.
  by rewrite (bind_run _ _ _ _ _ (budge_run s3 s4 e E4)).
Qed.
(** The messages whose [Unwrap] is nil once they are decoded. *)
Definition dropped (o : Onion) : Prop :=
  match o with
  | OForward _ _ | OReverse _ _ | OSession _ _ | OExit _ _ | OIntroQuery _ _
  | ORoute _ _ | OBalance _ _ | OConfirmation _ => True
  | _ => False
  end.

Lemma HandleMessage_drop fuel dp bl o s r pr (e : Engine) :
  plain o → dropped o → encodable dp bl o → s_b s = image bl o ++ r → s_E s = None → named e →
  HandleMessage run_cb (S fuel) s pr e = Ret (tt, e).
Proof.
  intros Hp HD He B HE N.
  destruct (receive_onion dp bl o _ Hp He (front_at s _ r B) HE) as (s1 & s2 & E1 & E2 & _).
  destruct (image_split dp bl o Hp He) as (m & Hm & _).
  assert (∃ mg, magic_of (gen_of o) = Ret mg) as [mg HG] by (destruct o; eauto).
  rewrite (HandleMessage_turn fuel s pr e (COnion (gen_of o)) s1 (COnion (decoded bl o)) s2 ONil mg);
    [done|done|done|done| |].
  - cbn [Codec_Decode]. unfold mbind, GoM_bind. by rewrite E2.
  - destruct o; cbn [dropped decoded Codec_Unwrap] in *; try done.
    destruct He as ([k Hk] & [q Hq] & _). by rewrite Hk, Hq.
Qed.
End EngineFacts.

(** ** A concrete engine *)

Module ToyEngine.
#[local] Existing Instances Toy.crypto Toy.multiaddrs ToyNet.transports ToyNet.peers.

#[export] Instance env : Env := {|
  shuffleA := λ l, l;
  shuffleS := λ l, l;
  AString := λ _, EmptyString;
  ASprint := λ _, EmptyString;
  noise := λ _, arr_zero 32;
  draw_iv := λ _ _, arr_zero 16;
  draw_id := λ _, arr_zero 8;
  blinds := λ _ _, arr_zero 4;
  received := λ _ _, [];
  orderM := λ h, fst <$> map_to_list (MyIntros h);
  orderS := λ h, fst <$> map_to_list (h_Services h);
  orderK := λ h, fst <$> map_to_list (KnownIntros h);
  defaultPort := 80;
  ValueForProtocol := λ _ _, inr (Errorf "none" []);
  AddrPort := unit;
  ParseAddrPort := λ _, inl tt;
|}.

Definition around (s : Manager) : Engine (User := unit) (IntroHook := unit) :=
  MkEngine s (MkPending false []) NewHiddenRouting 0
    (MkKeySet (cr := Toy.crypto) (arr_of 32 [x21]) (arr_of 32 [x22])) 0.

Lemma heap_named : named (around ToySess.heap).
Proof. exists 1%positive, (ToySess.node x01). split; [reflexivity|]. split; [reflexivity|done]. Qed.
End ToyEngine.
