(* ===== verification/ReplyPath.v ===== *)
(** * The way back of a reply

    A relay of the return path opens its layer of the routing header, moves the two
    behind it up and ciphers the payload once more ([Reverse.Handle]).  Three such
    relays uncover the layers the client made, one each, and take the three ciphers
    off the response that [FormatReply] put on. *)

From S2P Require Export EngineFacts.

(** ** Ranges of a buffer *)

Section Ranges.

Lemma GetRange_app p w r s lo hi :
  s_b s = p ++ w ++ r → lo = zlen p → hi = zlen p + zlen w → GetRange lo hi s = Ret w.
Proof.
  intros B -> ->. pose proof (zlen_nonneg p). pose proof (zlen_nonneg w). pose proof (zlen_nonneg r).
  unfold GetRange, range_bounds. rewrite !bool_decide_false by lia. rewrite B.
  rewrite goslice_in by (rewrite ?zlen_app; lia).
  replace (Z.to_nat (zlen p)) with (length p) by (unfold zlen; lia).
  replace (Z.to_nat (zlen p + zlen w - zlen p)) with (length w) by (unfold zlen; lia).
  by rewrite drop_app_length, take_app_length.
Qed.

Lemma copy_range_app p w r src s lo hi :
  s_b s = p ++ w ++ r → lo = zlen p → hi = zlen p + zlen w → zlen src = zlen w →
  copy_range lo hi src s = Ret (with_b (p ++ src ++ r) s).
Proof.
  intros B -> -> L. pose proof (zlen_nonneg p). pose proof (zlen_nonneg w). pose proof (zlen_nonneg r).
  unfold copy_range, range_bounds. rewrite !bool_decide_false by lia. rewrite B.
  rewrite gocopy_in by (rewrite ?zlen_app; lia). cbn [mbind Out_bind].
  replace (Z.to_nat (zlen p)) with (length p) by (unfold zlen; lia).
  replace (Z.to_nat (zlen p + zlen w - zlen p)) with (length w) by (unfold zlen; lia).
  assert (length src = length w) as L' by (unfold zlen in L; lia).
  rewrite take_ge by lia. unfold overlay. rewrite take_app_length, L'.
  rewrite <- (drop_drop (p ++ w ++ r)), drop_app_length, drop_app_length. done.
Qed.

(** Moving the range behind a range over it. *)
Lemma CopyRanges_app p a b r s lo mid hi :
  s_b s = p ++ a ++ b ++ r → lo = zlen p → mid = zlen p + zlen a → hi = mid + zlen b →
  zlen a = zlen b →
  CopyRanges lo mid mid hi s = Ret (with_b (p ++ b ++ b ++ r) s).
Proof.
  intros B Hlo Hmid Hhi L. unfold CopyRanges.
  rewrite (GetRange_app p a (b ++ r) s lo mid) by (done || lia). cbn [mbind Out_bind].
  rewrite (GetRange_app (p ++ a) b r s mid hi); [|by rewrite <- app_assoc|rewrite zlen_app; lia|rewrite zlen_app; lia].
  cbn [mbind Out_bind]. apply (copy_range_app p a); [done|done|lia|done].
Qed.

Lemma CopyIntoRange_app p w r src s lo hi :
  s_b s = p ++ w ++ r → lo = zlen p → hi = zlen p + zlen w → zlen src = zlen w →
  CopyIntoRange src lo hi s = Ret (with_b (p ++ src ++ r) s).
Proof.
  intros B Hlo Hhi L. pose proof (zlen_nonneg w). unfold CopyIntoRange.
  rewrite (GetRange_app p w r s) by done. cbn [mbind Out_bind].
  rewrite goslice_in by lia. cbn [mbind Out_bind]. rewrite drop_0, take_ge.
  - by apply (copy_range_app p w).
  - unfold zlen in *. lia.
Qed.
End Ranges.

Section ReplyPath.
Context {cr : Crypto} {crl : CryptoLaws}.

(** [shift_header] on bytes: the buffer holds, up to the cursor, something and the
    layer this relay has read, then the two further layers and the payload. *)
Lemma shift_header_run hdr pld x from seed s p h0 h1 h2 body :
  FromPub x = Some from → s_b s = p ++ h0 ++ h1 ++ h2 ++ body →
  zlen h0 = ReverseCryptLen → zlen h1 = ReverseCryptLen → zlen h2 = ReverseCryptLen →
  s_c s = zlen p + ReverseCryptLen →
  ∃ pad s', zlen pad = ReverseCryptLen ∧ shift_header hdr pld x seed s = Ret s' ∧
    s_b s' = p ++ enciphered (secret hdr from) (Crypt_IV x) (h1 ++ h2) ++ pad ++
             enciphered (secret pld from) (Crypt_IV x) body ∧ s_c s' = s_c s.
Proof.
  intros HF B L0 L1 L2 HC. unfold shift_header. rewrite HF. cbv zeta. unfold GetCursor.
  set (K := ReverseCryptLen) in *. assert (0 < K) as HK by (subst K; reflexivity).
  set (first := s_c s) in *.
  change (GetBlock hdr from) with (Some (secret hdr from)).
  change (GetBlock pld from) with (Some (secret pld from)).
  set (D := enciphered (secret hdr from) (Crypt_IV x) (h1 ++ h2)).
  assert (zlen D = K + K) as LD by (unfold D; rewrite zlen_enciphered, zlen_app; lia).
  rewrite (encipher_range_app _ _ (p ++ h0) (h1 ++ h2) body);
    [|by rewrite B, <- !app_assoc|rewrite zlen_app; lia|rewrite !zlen_app; lia].
  cbn [mbind Out_bind]. fold D.
  set (d1 := take (Z.to_nat K) D). set (d2 := drop (Z.to_nat K) D).
  assert (D = d1 ++ d2) as HD by (symmetry; apply take_drop).
  assert (zlen d1 = K) as Ld1 by (unfold d1, zlen in *; rewrite length_take; lia).
  assert (zlen d2 = K) as Ld2 by (unfold d2, zlen in *; rewrite length_drop; lia).
  clearbody d1 d2.
  rewrite (CopyRanges_app p h0 d1 (d2 ++ body));
    [|cbn; by rewrite HD, <- !app_assoc|lia|lia|lia|lia].
  cbn [mbind Out_bind].
  rewrite (CopyRanges_app (p ++ d1) d1 d2 body);
    [|cbn; by rewrite <- !app_assoc|rewrite zlen_app; lia|rewrite zlen_app; lia|lia|lia].
  cbn [mbind Out_bind].
  destruct (NoisePad_ok seed K) as (pad & EP & LP); [lia|]. rewrite EP. cbn [mbind Out_bind].
  rewrite (CopyIntoRange_app (p ++ d1 ++ d2) d2 body pad);
    [|cbn; by rewrite <- !app_assoc|rewrite !zlen_app; lia|rewrite !zlen_app; lia|lia].
  cbn [mbind Out_bind]. exists pad.
  set (s1 := with_b ((p ++ d1 ++ d2) ++ pad ++ body) _).
  assert (Len s1 = first + K + K + zlen body) as Ls
    by (unfold Len, s1; cbn; rewrite !zlen_app; lia).
  case_bool_decide as Hb.
  - exists s1. split; [lia|]. split; [done|]. split; [|done].
    assert (body = []) as -> by (apply nil_length_inv; unfold zlen in *; lia).
    unfold s1. cbn [s_b with_b]. by rewrite HD, <- !app_assoc.
  - eexists. split; [lia|]. split.
    + apply (encipher_from_app (secret pld from) (Crypt_IV x) (p ++ d1 ++ d2 ++ pad) body).
      * unfold s1. cbn. by rewrite <- !app_assoc.
      * rewrite !zlen_app. lia.
    + split; [|done]. cbn. by rewrite HD, <- !app_assoc.
Qed.

(** What a relay of the return path makes of a message at whose front it has read its
    layer: [x] is what it decoded, [hdr] and [pld] its session's keys. *)
Definition hop (hdr pld : Prv) (x : CryptR) (seed : arr 32) (b : bytes) : Out bytes :=
  s ← shift_header hdr pld x seed (SetCursor ReverseCryptLen (NewFrom b)); Ret (s_b s).

Lemma hop_run hdr pld x k seed l0 l1 l2 body :
  FromPub x = Some (PubKey k) →
  zlen l0 = ReverseCryptLen → zlen l1 = ReverseCryptLen → zlen l2 = ReverseCryptLen →
  ∃ pad, zlen pad = ReverseCryptLen ∧
    hop hdr pld x seed (l0 ++ l1 ++ l2 ++ body)
    = Ret (enciphered (secret k (PubKey hdr)) (Crypt_IV x) (l1 ++ l2) ++ pad ++
           enciphered (secret k (PubKey pld)) (Crypt_IV x) body).
Proof.
  intros HF L0 L1 L2. unfold hop.
  destruct (shift_header_run hdr pld x (PubKey k) seed (SetCursor ReverseCryptLen (NewFrom (l0 ++ l1 ++ l2 ++ body)))
    [] l0 l1 l2 body) as (pad & s' & LP & E & B & _); [done..|].
  exists pad. split; [done|]. rewrite E. cbn [mbind Out_bind]. rewrite B.
  unfold secret, ComputeSharedSecret. by rewrite (ecdh_comm hdr), (ecdh_comm pld).
Qed.

(** Deciphering a longer text deciphers its beginning. *)
Lemma deciphered_app blk iv b c :
  ∃ d, enciphered blk iv (enciphered blk iv b ++ c) = b ++ d ∧ zlen d = zlen c.
Proof.
  destruct (enciphered_app blk iv (enciphered blk iv b) c) as (d & E & L).
  rewrite enciphered_twice in E. exists d. split; [done|]. unfold zlen. by rewrite L.
Qed.

Lemma halves (b : bytes) : zlen b = 2 * ReverseCryptLen →
  ∃ x y, b = x ++ y ∧ zlen x = ReverseCryptLen ∧ zlen y = ReverseCryptLen.
Proof.
  change ReverseCryptLen with 84. intros L. exists (take 84 b), (drop 84 b).
  unfold zlen in *. rewrite take_drop, length_take, length_drop. split; [done|lia].
Qed.

(** The header a client builds: each layer but the first under the header keys of the
    ones before it. *)
Definition layered_header (e0 e1 : Block * IV) (l0 l1 l2 : bytes) : bytes :=
  l0 ++ enciphered e0.1 e0.2 (l1 ++ enciphered e1.1 e1.2 l2).

(** C4: a reply comes back.  The client has sent a routing header of three layers,
    with one key, nonce and session per hop, and the three ciphers of the payload
    keys; whoever answers sends [FormatReply] of the header and the response.  Each
    relay of the way back finds its own layer at the front in the clear, after all
    relays before it have done their part, and behind the third hop the response is
    in the clear where the client looks for it, the buffer's length unchanged. *)
Theorem reply_comes_back (header : RoutingHeaderBytes) l0 l1 l2 (k h p : three Prv) (n : Nonces)
    (x0 x1 x2 : CryptR) seed0 seed1 seed2 res :
  let '(k0, k1, k2) := k in let '(h0, h1, h2) := h in let '(p0, p1, p2) := p in
  let '(n0, n1, n2) := n in
  zlen l0 = ReverseCryptLen → zlen l1 = ReverseCryptLen → zlen l2 = ReverseCryptLen →
  arr_list header = layered_header (secret k0 (PubKey h0), n0) (secret k1 (PubKey h1), n1) l0 l1 l2 →
  (FromPub x0, Crypt_IV x0) = (Some (PubKey k0), n0) →
  (FromPub x1, Crypt_IV x1) = (Some (PubKey k1), n1) →
  (FromPub x2, Crypt_IV x2) = (Some (PubKey k2), n2) →
  ∃ s r0 b1 r1 b2 r2 b3 junk,
    FormatReply header (GenCiphers k (PubKey p0, PubKey p1, PubKey p2)) n res = Ret s ∧
    s_b s = l0 ++ r0 ∧
    hop h0 p0 x0 seed0 (s_b s) = Ret b1 ∧ b1 = l1 ++ r1 ∧
    hop h1 p1 x1 seed1 b1 = Ret b2 ∧ b2 = l2 ++ r2 ∧
    hop h2 p2 x2 seed2 b2 = Ret b3 ∧ b3 = junk ++ res ∧ zlen junk = RoutingHeaderLen.
Proof.
  destruct k as [[k0 k1] k2], h as [[h0 h1] h2], p as [[p0 p1] p2], n as [[n0 n1] n2].
  intros L0 L1 L2 HH [= F0 I0] [= F1 I1] [= F2 I2].
  destruct (FormatReply_run header (GenCiphers (k0, k1, k2) (PubKey p0, PubKey p1, PubKey p2))
              (n0, n1, n2) res) as (s & E & B & _).
  set (E0 := enciphered (secret k0 (PubKey h0)) n0) in *.
  set (E1 := enciphered (secret k1 (PubKey h1)) n1) in *.
  set (P0 := enciphered (secret k0 (PubKey p0)) n0).
  set (P1 := enciphered (secret k1 (PubKey p1)) n1).
  set (P2 := enciphered (secret k2 (PubKey p2)) n2).
  assert (s_b s = l0 ++ E0 (l1 ++ E1 l2) ++ P2 (P1 (P0 res))) as Bs.
  { rewrite B, HH. unfold layered_header. cbn [fst snd]. by rewrite <- app_assoc. }
  assert (∀ q, P0 (P2 (P1 (P0 q))) = P2 (P1 q)) as C0.
  { intros q. unfold P0, P1, P2. rewrite (enciphered_comm (secret k0 _)), (enciphered_comm (secret k0 _)).
    by rewrite enciphered_twice. }
  assert (∀ q, P1 (P2 (P1 q)) = P2 q) as C1.
  { intros q. unfold P1, P2. rewrite (enciphered_comm (secret k1 _)). by rewrite enciphered_twice. }
  assert (zlen (E1 l2) = ReverseCryptLen) as LE by (unfold E1; by rewrite zlen_enciphered).
  destruct (halves (E0 (l1 ++ E1 l2))) as (a & b & Hab & La & Lb).
  { unfold E0. rewrite zlen_enciphered, zlen_app. lia. }
  rewrite Hab, <- app_assoc in Bs.
  destruct (hop_run h0 p0 x0 k0 seed0 l0 a b (P2 (P1 (P0 res)))) as (q0 & Lq0 & H0); [done..|].
  rewrite I0 in H0. fold P0 in H0. fold E0 in H0. rewrite C0, <- Hab in H0. unfold E0 in H0.
  rewrite enciphered_twice, <- app_assoc in H0.
  destruct (hop_run h1 p1 x1 k1 seed1 l1 (E1 l2) q0 (P2 (P1 res))) as (q1 & Lq1 & H1); [done..|].
  rewrite I1 in H1. fold P1 in H1. rewrite C1 in H1.
  destruct (deciphered_app (secret k1 (PubKey h1)) n1 l2 q0) as (d & Ed & Ld).
  change (E1 (E1 l2 ++ q0) = l2 ++ d) in Ed. fold E1 in H1.
  rewrite Ed, <- app_assoc in H1.
  destruct (hop_run h2 p2 x2 k2 seed2 l2 d q1 (P2 res)) as (q2 & Lq2 & H2); [done|done|lia|done|].
  assert (hop h2 p2 x2 seed2 (l2 ++ d ++ q1 ++ P2 res)
          = Ret ((enciphered (secret k2 (PubKey h2)) n2 (d ++ q1) ++ q2) ++ res)) as H3.
  { rewrite H2, I2. unfold P2. by rewrite enciphered_twice, <- app_assoc. }
  exists s, ((a ++ b) ++ P2 (P1 (P0 res))). do 6 eexists. split; [exact E|].
  split; [by rewrite Bs, <- app_assoc|]. rewrite Bs. split; [exact H0|]. split; [done|].
  split; [exact H1|]. split; [done|]. split; [exact H3|]. split; [done|].
  rewrite zlen_app, zlen_enciphered, zlen_app. unfold RoutingHeaderLen. lia.
Qed.
End ReplyPath.

(** ** Witnesses *)

#[local] Existing Instances Toy.crypto Toy.laws.

Module ReplyWitness.
Definition k0 : arr 32 := arr_of 32 [x01; x02].
Definition k1 : arr 32 := arr_of 32 [x03].
Definition k2 : arr 32 := arr_of 32 [x05; x00; x01].
Definition l0 : bytes := replicate 84 x0a.
Definition l1 : bytes := replicate 84 x0b.
Definition l2 : bytes := replicate 84 x0c.
Definition iv (b : byte) : IV := arr_of 16 [b].
Definition x (k : arr 32) (b : byte) : CryptR (cr := Toy.crypto) :=
  MkCrypt (cr := Toy.crypto) 0 None None None (iv b) (arr_zero 8) None (Some k).
Definition header : RoutingHeaderBytes :=
  arr_of 252 (layered_header (secret (cr := Toy.crypto) k0 k2, iv x01) (secret (cr := Toy.crypto) k1 k0, iv x02)
                l0 l1 l2).
End ReplyWitness.

Lemma reply_comes_back_witness :
  ∃ s r0 b1 r1 b2 r2 b3 junk,
    FormatReply (cr := Toy.crypto) ReplyWitness.header
      (GenCiphers (cr := Toy.crypto) (ReplyWitness.k0, ReplyWitness.k1, ReplyWitness.k2)
         (PubKey ReplyWitness.k1, PubKey ReplyWitness.k2, PubKey ReplyWitness.k0))
      (ReplyWitness.iv x01, ReplyWitness.iv x02, ReplyWitness.iv x03) [x2a; x2b] = Ret s ∧
    s_b s = ReplyWitness.l0 ++ r0 ∧
    hop (cr := Toy.crypto) ReplyWitness.k2 ReplyWitness.k1 (ReplyWitness.x ReplyWitness.k0 x01)
      (arr_zero 32) (s_b s) = Ret b1 ∧ b1 = ReplyWitness.l1 ++ r1 ∧
    hop (cr := Toy.crypto) ReplyWitness.k0 ReplyWitness.k2 (ReplyWitness.x ReplyWitness.k1 x02)
      (arr_zero 32) b1 = Ret b2 ∧ b2 = ReplyWitness.l2 ++ r2 ∧
    hop (cr := Toy.crypto) ReplyWitness.k1 ReplyWitness.k0 (ReplyWitness.x ReplyWitness.k2 x03)
      (arr_zero 32) b2 = Ret b3 ∧ b3 = junk ++ [x2a; x2b] ∧ zlen junk = RoutingHeaderLen.
Proof.
  refine (reply_comes_back (crl := Toy.laws) ReplyWitness.header
           ReplyWitness.l0 ReplyWitness.l1 ReplyWitness.l2
           (ReplyWitness.k0, ReplyWitness.k1, ReplyWitness.k2)
           (ReplyWitness.k2, ReplyWitness.k0, ReplyWitness.k1)
           (ReplyWitness.k1, ReplyWitness.k2, ReplyWitness.k0)
           (ReplyWitness.iv x01, ReplyWitness.iv x02, ReplyWitness.iv x03)
           (ReplyWitness.x ReplyWitness.k0 x01) (ReplyWitness.x ReplyWitness.k1 x02)
           (ReplyWitness.x ReplyWitness.k2 x03) (arr_zero 32) (arr_zero 32) (arr_zero 32)
           [x2a; x2b] _ _ _ _ _ _ _).
  - by vm_compute.
  - by vm_compute.
  - by vm_compute.
  - apply (bool_decide_eq_true_1 _). by vm_compute.
  - by vm_compute.
  - by vm_compute.
  - by vm_compute.
Defined.
