(* ===== verification/Lifecycle.v ===== *)
(** * From a payment to a session

    A payment arrives ([Handler], payment case), waits for its session keys, is turned
    into a session by the [Session] message that knows the preimage, and a further
    payment with the preimage tops the session up. *)

From S2P Require Export EngineFacts.

Section Lifecycle.
Context {cr : Crypto} {ma : Multiaddrs} {pe : Peers} {tp : Transports} {env : Env}.
Context {User IntroHook : Type}.
Abbreviation Engine := (Engine (User := User) (IntroHook := IntroHook)).

(** Well-formedness under the steps that leave the sessions alone. *)
Lemma wf_with_Pending l s : wf s → wf (with_Pending l s).
Proof. intros W. constructor; apply W. Qed.

Lemma fresh_not_session s : wf s → fresh (dom (dataAt s)) ∉ Sessions s.
Proof.
  intros W Hx. destruct (wf_sessions s W _ Hx) as (d & _ & Hd & _).
  eapply (is_fresh (dom (dataAt s))), elem_of_dom_2, Hd.
Qed.

Lemma header_of_extended l d s : dataAt s !! l = None →
  ∀ x, x ≠ l → header_of (with_dataAt (<[l := d]> (dataAt s)) s) x = header_of s x.
Proof. intros _ x Hx. unfold header_of. cbn. by rewrite lookup_insert_ne. Qed.

Lemma headers_extended l d s : l ∉ Sessions s → dataAt s !! l = None →
  header_of (with_dataAt (<[l := d]> (dataAt s)) s) <$> Sessions s = header_of s <$> Sessions s.
Proof.
  intros Hl Hn. apply list_fmap_ext. intros i x Hi.
  apply header_of_extended; [done|]. intros ->. apply Hl. by eapply list_elem_of_lookup_2.
Qed.

Lemma wf_extended l d s : wf s → dataAt s !! l = None → wf (with_dataAt (<[l := d]> (dataAt s)) s).
Proof.
  intros W Hn.
  assert (∀ x e, dataAt s !! x = Some e → <[l := d]> (dataAt s) !! x = Some e) as HK.
  { intros x e He. rewrite lookup_insert_ne; [done|congruence]. }
  assert (l ∉ Sessions s) as Hl.
  { intros Hx. destruct (wf_sessions s W l Hx) as (e & _ & He & _). congruence. }
  constructor; try apply W.
  - intros x Hx. destruct (wf_sessions s W x Hx) as (e & n & He & Hn'). exists e, n. split; [by apply HK|done].
  - change (Sessions (with_dataAt _ s)) with (Sessions s). rewrite headers_extended by done. apply W.
  - intros id c h x Hc Hx. destruct (wf_cache s W id c h x Hc Hx) as (e & n & He & ?).
    exists e, n. split; [by apply HK|done].
  - intros x e n Hx He Hn' Hh. destruct (wf_sessions s W x Hx) as (e' & _ & He' & _).
    assert (e = e') as -> by (cbn in He; rewrite (HK _ _ He') in He; congruence).
    by apply (wf_cached s W x e').
Qed.

(** Searching the sessions under the mutex. *)
Lemma locked_find (p : Data → Out bool) (q : Data → bool) s :
  (∀ d, p d = Ret (q d)) → wf s →
  find_data p (Sessions s) (with_locked true s)
  = Ret (snd <$> list_find (λ x, sel s q x = true) (Sessions s), with_locked true s).
Proof.
  intros Hpq W. rewrite (find_data_run p q) by (done || apply (wf_live s W)). done.
Qed.

(** No session was bought with the preimage, and no payment for it waits. *)
Record unclaimed (h : Hash) (s : Manager) : Prop := {
  no_session x d : x ∈ Sessions s → dataAt s !! x = Some d → d_Preimage d ≠ h;
  no_payment : Forall (λ p, Preimage p ≠ h) (sm_PendingPayments s);
}.

Definition paid_for (h : Hash) (d : Data) : bool := bool_decide (d_Preimage d = h).

Lemma unclaimed_find h s : wf s → unclaimed h s →
  list_find (λ x, sel s (paid_for h) x = true) (Sessions s) = None.
Proof.
  intros W U. apply list_find_None, Forall_forall. intros x Hx Hs.
  destruct (wf_sessions s W x Hx) as (d & _ & Hd & _). unfold sel in Hs. rewrite Hd in Hs.
  apply bool_decide_eq_true_1 in Hs. by apply (no_session h s U x d).
Qed.

(** A payment nobody has a session for waits. *)
Lemma HandlePayment_waits p (e : Engine) : wf (e_Mgr e) → unclaimed (Preimage p) (e_Mgr e) →
  HandlePayment p e = Ret (tt, with_Mgr (with_Pending (sm_PendingPayments (e_Mgr e) ++ [p]) (e_Mgr e)) e).
Proof.
  intros W U. set (s := e_Mgr e) in *. unfold HandlePayment.
  erewrite bind_run; cycle 1.
  { apply mgr_read, (locked_read _ s false); [apply W|].
    change ((get ≫= ?f) ?t) with (f t t). cbn beta.
    rewrite (bind_run _ _ _ _ _ (locked_find _ (paid_for (Preimage p)) s ltac:(done) W)).
    by rewrite unclaimed_find. }
  cbn match. apply mgr_run. fold s. unfold AddPendingPayment.
  destruct (local_node s W) as (l & n & Hl & Hn).
  rewrite (locked_run _ s tt (with_Pending (sm_PendingPayments s ++ [p]) (with_locked true s)));
    [|apply W| |done].
  - do 2 f_equal. destruct (wf_free s W). by destruct s.
  - rewrite (bind_run _ _ _ _ _ (GetLocalNode_run (with_locked true s) l Hl)).
    by rewrite (bind_run _ _ _ _ _ (node_at_run (with_locked true s) l n Hn)).
Qed.

Lemma FindPendingPreimage_run h s : wf s →
  FindPendingPreimage h s = Ret (Payments_FindPreimage (sm_PendingPayments s) h, s).
Proof. intros W. unfold FindPendingPreimage. apply locked_read; [apply W|done]. Qed.

Lemma DeletePendingPayment_run h s : wf s →
  DeletePendingPayment h s = Ret (tt, with_Pending (Payments_Delete (sm_PendingPayments s) h) s).
Proof.
  intros W. unfold DeletePendingPayment. erewrite locked_run; [| |done|done].
  - do 2 f_equal. destruct (wf_free s W). by destruct s.
  - apply W.
Qed.

Lemma FindPreimage_last l p : Forall (λ x, Preimage x ≠ Preimage p) l →
  Payments_FindPreimage (l ++ [p]) (Preimage p) = Some p.
Proof.
  intros HF. unfold Payments_FindPreimage.
  assert (list_find (λ x, Preimage x = Preimage p) (l ++ [p]) = Some (length l, p)) as ->; [|done].
  apply list_find_Some. rewrite lookup_app_r, Nat.sub_diag by lia. split; [done|]. split; [done|].
  intros j x Hj Hlt. rewrite lookup_app_l in Hj by done. rewrite Forall_lookup in HF. by eapply HF.
Qed.

Lemma with_Pending_twice l k s : with_Pending l (with_Pending k s) = with_Pending l s.
Proof. done. Qed.
Lemma with_Pending_id s : with_Pending (sm_PendingPayments s) s = s.
Proof. by destruct s. Qed.

(** The manager with the session object a payment buys, before it is listed. *)
Definition bought (p : Payment) (n : loc) (hdr pld : Keys) (hop : Z) : Data :=
  NewSessionData (pay_ID p) n (Amount p) hdr pld hop.

Definition enrolled (d : Data) (n : Node) (s : Manager) : Manager :=
  let l := fresh (dom (dataAt s)) in added l d n (with_dataAt (<[l := d]> (dataAt s)) s).

Lemma enrol s d n : wf s → nodeAt s !! d_Node d = Some n → 0 ≤ d_Hop d →
  Some (Keys_Bytes (d_Header d)) ∉ header_of s <$> Sessions s →
  let l := fresh (dom (dataAt s)) in
  AddSession l (with_dataAt (<[l := d]> (dataAt s)) s) = Ret (tt, enrolled d n s) ∧ wf (enrolled d n s).
Proof.
  intros W Hn Hh Hf l.
  assert (dataAt s !! l = None) as Hl by (apply not_elem_of_dom, is_fresh).
  set (t := with_dataAt (<[l := d]> (dataAt s)) s).
  assert (wf t) as Wt by (by apply wf_extended).
  assert (dataAt t !! l = Some d) as Hd by (cbn; by rewrite lookup_insert_eq).
  assert (Some (Keys_Bytes (d_Header d)) ∉ header_of t <$> Sessions t) as Hf'.
  { change (Sessions t) with (Sessions s). unfold t. rewrite headers_extended; [done|by apply fresh_not_session|done]. }
  split; [|by apply added_wf]. by apply AddSession_fresh.
Qed.

(** The [Session] message with the preimage of a waiting payment. *)
Lemma Session_Handle_claims (HM : Splice → Onion → GoM Engine unit) p x hdr pld l n sp sp' (e : Engine) :
  let s := e_Mgr e in
  let e1 := with_Mgr (with_Pending (sm_PendingPayments s ++ [p]) s) e in
  wf s → named e → unclaimed (Preimage p) s →
  Header x = Some hdr → Payload x = Some pld → PreimageHash x = Ret (Preimage p) →
  goindex (nodes s) 0 = Ret l → nodeAt s !! l = Some n →
  Some (Keys_Bytes hdr) ∉ header_of s <$> Sessions s → BudgeUp (noise (e_draws e)) sp = Ret sp' →
  Session_Handle HM x sp e1
  = (HM sp' ONil ;; mret None) (bump (with_Mgr (enrolled (bought p l hdr pld (b2z (Hop x))) n s) e)).
Proof.
  intros s e1 W N U Hh Hp HP Hl Hn Hf HB. set (s1 := with_Pending (sm_PendingPayments s ++ [p]) s) in *.
  assert (wf s1) as W1 by (by apply wf_with_Pending).
  unfold Session_Handle. rewrite (bind_run _ _ _ _ _ (lift_run _ _ e1 HP)).
  erewrite bind_run by (apply mgr_read; exact (FindPendingPreimage_run (Preimage p) s1 W1)).
  change (sm_PendingPayments s1) with (sm_PendingPayments s ++ [p]).
  rewrite (FindPreimage_last _ _ (no_payment _ _ U)), Hh, Hp. cbn match.
  assert (DeletePendingPayment (Preimage p) s1 = Ret (tt, s)) as ED.
  { rewrite (DeletePendingPayment_run _ _ W1). do 2 f_equal.
    change (sm_PendingPayments s1) with (sm_PendingPayments s ++ [p]).
    rewrite Payments_Delete_head, app_nil_r; [|apply U|done|by constructor].
    unfold s1. rewrite with_Pending_twice. apply with_Pending_id. }
  assert (with_Mgr s e1 = e) as Ee by (by destruct e).
  erewrite bind_run by (apply mgr_run; exact ED). rewrite Ee.
  rewrite (bind_run _ _ _ _ _ (local_name_run e N)).
  rewrite (bind_run _ _ _ _ _ (mgr_read GetLocalNode e l (GetLocalNode_run s l Hl))).
  set (d := bought p l hdr pld (b2z (Hop x))).
  destruct (enrol s d n W Hn) as [EE WE]; [cbn; apply b2z_range|done|].
  set (t := fresh (dom (dataAt s))) in *.
  erewrite bind_run by (by apply mgr_run with (a := t)).
  erewrite bind_run by (apply mgr_run; exact EE).
  rewrite (bind_run _ _ _ sp' (bump (with_Mgr (enrolled d n s) e))); [done|].
  by apply (budge_run sp sp' (with_Mgr (enrolled d n s) e)).
Qed.

Lemma enrolled_facts d n s :
  let l := fresh (dom (dataAt s)) in let t := enrolled d n s in
  Sessions t = Sessions s ++ [l] ∧ dataAt t = <[l := d]> (dataAt s) ∧
  sm_PendingPayments t = sm_PendingPayments s ∧ nodes t = nodes s ∧ nodeAt t = nodeAt s.
Proof. intros l t. unfold t, enrolled, added. case_bool_decide; done. Qed.

(** A session message whose preimage no payment waits for changes nothing. *)
Lemma Session_Handle_unpaid (HM : Splice → Onion → GoM Engine unit) x h sp (e : Engine) :
  wf (e_Mgr e) → PreimageHash x = Ret h → Forall (λ p, Preimage p ≠ h) (sm_PendingPayments (e_Mgr e)) →
  Session_Handle HM x sp e = Ret (None, e).
Proof.
  intros W HP HF. unfold Session_Handle. rewrite (bind_run _ _ _ _ _ (lift_run _ _ e HP)).
  erewrite bind_run by (apply mgr_read; exact (FindPendingPreimage_run h _ W)).
  unfold Payments_FindPreimage. by rewrite (proj2 (list_find_None _ _) HF).
Qed.

(** A payment for a session that is there tops it up. *)
Lemma HandlePayment_tops_up p y d i (e : Engine) :
  wf (e_Mgr e) →
  list_find (λ x, sel (e_Mgr e) (paid_for (Preimage p)) x = true) (Sessions (e_Mgr e)) = Some (i, y) →
  dataAt (e_Mgr e) !! y = Some d →
  HandlePayment p e
  = Ret (tt, with_Mgr (with_balance y d (wrapu 64 (d_Remaining d + Amount p)) (e_Mgr e)) e).
Proof.
  intros W HL Hd. unfold HandlePayment. set (s := e_Mgr e) in *.
  rewrite (bind_run _ _ e true (with_Mgr (with_balance y d (wrapu 64 (d_Remaining d + Amount p)) s) e)); [done|].
  apply mgr_run. fold s.
  rewrite (locked_run _ s true (with_locked true (with_balance y d (wrapu 64 (d_Remaining d + Amount p)) s)));
    [|apply W| |done].
  { do 2 f_equal. destruct (wf_free s W). by destruct s. }
  change ((get ≫= ?f) ?t) with (f t t). cbn beta.
  rewrite (bind_run _ _ _ _ _ (locked_find _ (paid_for (Preimage p)) s ltac:(done) W)).
  rewrite HL. cbn [fmap option_fmap option_map snd].
  unfold IncSats. erewrite bind_run; [done|].
  by rewrite (bind_run _ _ _ _ _ (data_at_run (with_locked true s) y d Hd)).
Qed.

(** C5: a payment becomes a session.  A payment for a preimage nobody has claimed is
    taken in and waits; the [Session] message whose two keys hash to the preimage then
    makes a session of it: a new, listed session of the local node with the payment's
    identifier and amount and the keys of the message; the payment waits no longer, so
    the same message again does nothing; the manager stays well formed; the rest of
    the message is handled next.  A further payment for the preimage is added to the
    balance of that session and does not wait. *)
Theorem payment_buys_session (HM : Splice → Onion → GoM Engine unit) p p' x hdr pld l n sp sp' (e : Engine) :
  let s := e_Mgr e in
  wf s → named e → unclaimed (Preimage p) s →
  Header x = Some hdr → Payload x = Some pld → PreimageHash x = Ret (Preimage p) →
  goindex (nodes s) 0 = Ret l → nodeAt s !! l = Some n →
  Some (Keys_Bytes hdr) ∉ header_of s <$> Sessions s →
  BudgeUp (noise (e_draws e)) sp = Ret sp' → Preimage p' = Preimage p →
  ∃ e1 e2 e3 y d,
    HandlePayment p e = Ret (tt, e1) ∧
    Session_Handle HM x sp e1 = (HM sp' ONil ;; mret None) e2 ∧
    wf (e_Mgr e2) ∧ y ∉ Sessions s ∧ Sessions (e_Mgr e2) = Sessions s ++ [y] ∧
    dataAt (e_Mgr e2) = <[y := d]> (dataAt s) ∧ sm_PendingPayments (e_Mgr e2) = sm_PendingPayments s ∧
    (d_ID d, d_Node d, d_Remaining d, d_Header d, d_Payload d) = (pay_ID p, l, Amount p, hdr, pld) ∧
    Session_Handle HM x sp e2 = Ret (None, e2) ∧
    HandlePayment p' e2 = Ret (tt, e3) ∧ sm_PendingPayments (e_Mgr e3) = sm_PendingPayments s ∧
    dataAt (e_Mgr e3) = <[y := with_Remaining (wrapu 64 (Amount p + Amount p')) d]> (dataAt (e_Mgr e2)).
Proof.
  intros s W N U Hh Hp HP Hl Hn Hf HB Ep.
  set (d := bought p l hdr pld (b2z (Hop x))).
  set (e2 := bump (with_Mgr (enrolled d n s) e)).
  destruct (enrol s d n W Hn) as [_ W2]; [cbn; apply b2z_range|done|].
  destruct (enrolled_facts d n s) as (ES & ED & EP & _ & _).
  set (y := fresh (dom (dataAt s))) in *.
  assert (wf (e_Mgr e2)) as We2 by exact W2.
  assert (dataAt (e_Mgr e2) !! y = Some d) as Hy.
  { change (e_Mgr e2) with (enrolled d n s). rewrite ED. apply lookup_insert_eq. }
  assert (d_Preimage d = Preimage p) as Hpi.
  { unfold PreimageHash in HP. rewrite Hh, Hp in HP. by injection HP. }
  assert (list_find (λ z, sel (e_Mgr e2) (paid_for (Preimage p')) z = true) (Sessions (e_Mgr e2))
          = Some (length (Sessions s), y)) as HL.
  { change (e_Mgr e2) with (enrolled d n s) in *. rewrite ES. apply list_find_Some.
    rewrite lookup_app_r, Nat.sub_diag by lia. split; [done|]. split.
    - unfold sel. rewrite Hy, Ep. by apply bool_decide_eq_true_2.
    - intros j z Hj Hlt Hz. rewrite lookup_app_l in Hj by done.
      apply list_elem_of_lookup_2 in Hj. destruct (wf_sessions s W z Hj) as (c & _ & Hc & _).
      assert (z ≠ y) by (intros ->; by apply (fresh_not_session s W)).
      unfold sel in Hz. rewrite ED, lookup_insert_ne, Hc, Ep in Hz by done.
      apply bool_decide_eq_true_1 in Hz. by apply (no_session _ _ U z c). }
  eexists _, e2, _, y, d. split; [by apply HandlePayment_waits|].
  split; [by apply (Session_Handle_claims HM p x hdr pld l n sp sp' e)|].
  split; [done|]. split; [by apply fresh_not_session|]. split; [done|]. split; [done|]. split; [done|].
  split; [done|]. split.
  { apply (Session_Handle_unpaid HM x (Preimage p)); [done|done|].
    change (e_Mgr e2) with (enrolled d n s). rewrite EP. apply U. }
  split; [by apply (HandlePayment_tops_up p' y d _ e2 We2 HL)|]. split; [done|done].
Qed.
End Lifecycle.

(** ** Witness *)

#[local] Existing Instances Toy.crypto Toy.multiaddrs ToyNet.transports ToyNet.peers ToyEngine.env.

Module LifeWitness.
Definition keys : Keys := MakeKeys (arr_of 32 [x31]).
Definition session : SessionR := MkSession (arr_of 8 [x05]) x00 (Some keys) (Some keys).
Definition paid : Hash := Single (arr_list (Prv_ToBytes (Keys_Prv keys)) ++ arr_list (Prv_ToBytes (Keys_Prv keys))).
Definition pay (sats : Z) : Payment := MkPayment (arr_of 8 [x09]) paid sats.
Definition next (s : Splice) (p : Onion) : GoM (Engine (User := unit) (IntroHook := unit)) unit := mret tt.
Definition sp : Splice := NewFrom [x00; x01].
End LifeWitness.

Lemma payment_buys_session_witness :
  let e := ToyEngine.around ToySess.heap in
  ∃ e1 e2 e3 y d,
    HandlePayment (LifeWitness.pay 1000) e = Ret (tt, e1) ∧
    Session_Handle LifeWitness.next LifeWitness.session LifeWitness.sp e1 = Ret (None, e2) ∧
    Sessions (e_Mgr e2) = [1%positive; 2%positive; y] ∧ dataAt (e_Mgr e2) !! y = Some d ∧ d_Remaining d = 1000 ∧
    HandlePayment (LifeWitness.pay 500) e2 = Ret (tt, e3) ∧
    dataAt (e_Mgr e3) !! y = Some (with_Remaining 1500 d).
Proof.
  intros e.
  destruct (payment_buys_session LifeWitness.next (LifeWitness.pay 1000) (LifeWitness.pay 500)
    LifeWitness.session LifeWitness.keys LifeWitness.keys 1%positive (ToySess.node x01)
    LifeWitness.sp LifeWitness.sp e) as (e1 & e2 & e3 & y & d & H1 & H2 & _ & _ & HS & HD & _ & HF & _ & H3 & _ & H4).
  - exact ToySess.heap_wf.
  - exact ToyEngine.heap_named.
  - constructor.
    + intros x d Hx Hd. assert (x = 1%positive ∨ x = 2%positive) as [-> | ->].
      { repeat (apply elem_of_cons in Hx as [->|Hx]; [naive_solver|]). by apply not_elem_of_nil in Hx. }
      * injection Hd as <-. apply (bool_decide_unpack _). by vm_compute.
      * injection Hd as <-. apply (bool_decide_unpack _). by vm_compute.
    + by constructor.
  - reflexivity.
  - reflexivity.
  - reflexivity.
  - reflexivity.
  - reflexivity.
  - apply (bool_decide_unpack _). by vm_compute.
  - by vm_compute.
  - reflexivity.
  - exists e1, e2, e3, y, d. injection HF as _ _ HR _ _.
    split; [exact H1|]. split; [rewrite H2; reflexivity|]. split; [exact HS|].
    split; [rewrite HD; apply lookup_insert_eq|]. split; [exact HR|]. split; [exact H3|].
    rewrite H4. apply lookup_insert_eq.
Defined.
