(* ===== verification/Buying.v ===== *)
(** * Buying sessions

    Models [BuyNewSessions] of [pkg/engine/eng_sessions.go], [PayChan.Send] of
    [pkg/engine/payments] and [IterateSessionCache]: the client pays five nodes for a
    session each, waits for the confirmations, sends the keys and puts the sessions on
    file when the confirmation of the message comes back.  The payment channels of the
    nodes are queues of [PaymentChanBuffers] payments; what the Lightning node says on
    the confirmation channels is an argument, in the order in which it is received. *)

From S2P Require Export Lifecycle.

Section Buying.
Context {cr : Crypto} {ma : Multiaddrs} {pe : Peers} {tp : Transports} {env : Env}.
Context {User IntroHook : Type}.
Abbreviation Engine := (Engine (User := User) (IntroHook := IntroHook)).

Definition PaymentChanBuffers : Z := 8.

(** The engine with the payment channels of the nodes. *)
Record Market := MkMarket { mk_Engine : Engine; PayChans : gmap loc (list Payment) }.

Definition on_engine {A} (m : GoM Engine A) : GoM Market A := λ s,
  r ← m (mk_Engine s); Ret (r.1, MkMarket r.2 (PayChans s)).

(** [PayChan.Send]: a nil channel blocks for ever, a full one until it is read. *)
Definition PayChan_Send (node : loc) (amount : Z) (id : ID) (preimage : Hash) : GoM Market unit := λ s,
  match PayChans s !! node with
  | Some q =>
      if bool_decide (zlen q < PaymentChanBuffers)
      then Ret (tt, MkMarket (mk_Engine s) (<[node := q ++ [MkPayment id preimage amount]]> (PayChans s)))
      else Panic PBlock
  | None => Panic PBlock
  end.

Fixpoint pay_nodes (amount : Z) (ns : list (loc * SessionR)) : GoM Market unit :=
  match ns with
  | [] => mret tt
  | (node, x) :: ns =>
      h ← lift (PreimageHash x); PayChan_Send node amount (Session_ID x) h ;; pay_nodes amount ns
  end.

(** The loop around the [select]: only successes are counted, and without further
    messages it waits for ever. *)
Fixpoint await_confirms (confirms : list (nat * bool)) (pendingConfirms : Z) : Out unit :=
  if bool_decide (pendingConfirms ≤ 0) then Ret tt
  else
    match confirms with
    | [] => Panic PBlock
    | (_, success) :: confirms =>
        await_confirms confirms (if success : bool then pendingConfirms - 1 else pendingConfirms)
    end.

(** What discarding the result of [PendingPayments.Delete] leaves: the array is
    shifted, the length stays. *)
Definition Payments_Delete_discarded (p : PendingPayments) (preimage : Hash) : PendingPayments :=
  (delete_loop (length p) 0 preimage p (length p)).1.

(** The loop of the hook: each session is cached and listed, also if its key is on
    file. *)
Fixpoint store_sessions (first : loc) (amount : Z) (i : Z) (ns : list (loc * SessionR)) : GoM Manager unit :=
  match ns with
  | [] => mret tt
  | (nd, x) :: ns =>
      n0 ← node_at first; _ ← lift (goindex (Addresses n0) 0);
      match Header x, Payload x with
      | Some hdr, Some pld =>
          ss ← new_data (NewSessionData (Session_ID x) nd amount hdr pld i);
          n ← node_at nd;
          s ← get;
          c ← lift (Cache_Add (CircuitCache s) (n_ID n) i ss);
          upd (with_Cache c) ;;
          upd (λ s, with_Sessions (Sessions s ++ [ss]) s) ;;
          h ← lift (PreimageHash x);
          upd (λ s, with_Pending (Payments_Delete_discarded (sm_PendingPayments s) h) s) ;;
          store_sessions first amount (i + 1) ns
      | _, _ => panicM PNil
      end
  end.

(** The callback of [BuyNewSessions]; [fn] runs with the manager's mutex held. *)
Definition buy_hook (amount : Z) (ns : list (loc * SessionR)) (fn : GoM Engine unit) : GoM Engine (option error) :=
  match ns with
  | [] => panicM PIndex
  | (first, _) :: _ =>
      mgr Lock ;; mgr (store_sessions first amount 0 ns) ;; fn ;; mgr Unlock ;; mret None
  end.

(** [session.New(byte(i))] for the five hops, with identifiers and keys that were
    drawn. *)
Definition new_sessions (ids : nat → ID) (keys : nat → Prv * Prv) : list SessionR :=
  (λ i, MkSession (ids i) (z2b (Z.of_nat i)) (Some (GenerateKeys (keys i).1)) (Some (GenerateKeys (keys i).2))) <$> seq 0 5.

(** [hook] stands for the callback in the pending responses. *)
Definition BuyNewSessions (fuel : nat) (order : Manager → nat → list ID) (ids : nat → ID) (keys : nat → Prv * Prv)
    (confirms : list (nat * bool)) (hook : list (loc * SessionR) → User) (now amount : Z)
    : GoM Market (option error) :=
  nodes ← on_engine (mgr (λ m, match SelectUnusedCircuit fuel order m with Some r => r | None => Panic PFuel end));
  if bool_decide (length nodes < 5)%nat then mret (Some (Errorf "failed to find nodes %d" []))
  else
    returnHops ← on_engine (mgr (GetSessionsAtHop 5));
    let returnHops := Some <$> returnHops in
    returnSession ← lift (goindex (if bool_decide (1 < zlen returnHops) then shuffleS returnHops else returnHops) 0);
    d ← on_engine draw;
    let conf := draw_id d in
    let s := new_sessions ids keys in
    let ns := zip nodes s in
    pay_nodes amount ns ;;
    lift (await_confirms confirms (zlen ns)) ;;
    n ← on_engine draw;
    p ← on_engine (mgr (s ← get; mret (Protocols s)));
    o ← on_engine (with_keys (λ ks, MakeSession conf s returnSession nodes (map (draw_iv n) (seq 0 6)) ks p));
    _ ← on_engine (send_onion now o (CbUser (hook ns)));
    mret None.

(** [IterateSessionCache] in the order in which the map is iterated: the function is
    run on the first node with the identifier, with the mutex held. *)
Fixpoint each_circuit (fn : loc → list (option loc) → GoM Manager bool) (ids : list ID) (nodes : list loc) : GoM Manager unit :=
  match ids with
  | [] => mret tt
  | i :: ids =>
      n ← find_node (λ n, holds (n_ID n = i)) nodes;
      match n with
      | None => each_circuit fn ids nodes
      | Some l =>
          s ← get;
          b ← (match CircuitCache s !! i with Some c => fn l c | None => panicM PNil end);
          if b : bool then mret tt else each_circuit fn ids nodes
      end
  end.
Definition IterateSessionCache (order : Manager → list ID) (fn : loc → list (option loc) → GoM Manager bool) : GoM Manager unit :=
  locked (s ← get; each_circuit fn (order s) (nodes s)).

(** ** Facts *)

Definition successes (l : list (nat * bool)) : Z := zlen (filter (λ c, c.2 = true) l).

(** The wait ends exactly when enough confirmations came. *)
Lemma await_confirms_spec confirms pending :
  await_confirms confirms pending = if bool_decide (pending ≤ successes confirms) then Ret tt else Panic PBlock.
Proof.
  unfold successes. revert pending. induction confirms as [|[k b] l IH]; intros n; cbn [await_confirms].
  - rewrite filter_nil. by repeat case_bool_decide.
  - rewrite filter_cons. unfold zlen in *. destruct b; cbn [snd].
    + rewrite decide_True by done. cbn [length]. rewrite IH. repeat case_bool_decide; (done || lia).
    + rewrite decide_False by done. rewrite IH. repeat case_bool_decide; (done || lia).
Qed.

(** The payments for one node. *)
Definition payments_to (amount : Z) (ns : list (loc * SessionR)) (l : loc) : list Payment :=
  omap (λ y, if decide (y.1 = l) then if PreimageHash y.2 is Ret h then Some (MkPayment (Session_ID y.2) h amount) else None else None) ns.

Definition keyed (x : SessionR) : Prop := is_Some (Header x) ∧ is_Some (Payload x).

Lemma keyed_hash x : keyed x → ∃ h, PreimageHash x = Ret h.
Proof. intros [[a Ea] [b Eb]]. unfold PreimageHash. rewrite Ea, Eb. by eexists. Qed.

(** Every node is sent its payments, in order, if its channel has room for them. *)
Lemma pay_nodes_spec amount ns (s : Market) :
  Forall (λ y, keyed y.2) ns →
  (∀ l, l ∈ ns.*1 → ∃ q, PayChans s !! l = Some q ∧ zlen (q ++ payments_to amount ns l) ≤ PaymentChanBuffers) →
  ∃ s', pay_nodes amount ns s = Ret (tt, s') ∧ mk_Engine s' = mk_Engine s ∧
    ∀ l, PayChans s' !! l = (λ q, q ++ payments_to amount ns l) <$> PayChans s !! l.
Proof.
  revert s; induction ns as [|[nd x] ns IH]; intros s HK HQ.
  { exists s. split; [done|]. split; [done|]. intros l. cbn. destruct (PayChans s !! l); cbn; [by rewrite app_nil_r|done]. }
  apply Forall_cons in HK as [[h Eh]%keyed_hash HK]. cbn [snd] in Eh.
  set (p := MkPayment (Session_ID x) h amount).
  assert (∀ l, payments_to amount ((nd, x) :: ns) l = (if decide (nd = l) then [p] else []) ++ payments_to amount ns l) as EP.
  { intros l. unfold payments_to. cbn. rewrite Eh. by case_decide. }
  destruct (HQ nd) as (q & Eq & Hq); [by left|]. rewrite EP, decide_True in Hq by done.
  set (s1 := MkMarket (mk_Engine s) (<[nd := q ++ [p]]> (PayChans s))).
  destruct (IH s1 HK) as (s' & E & Em & EC).
  { intros l Hl. destruct (HQ l) as (ql & Eql & Hql); [by right|]. rewrite EP in Hql. cbn [PayChans s1].
    destruct (decide (nd = l)) as [->|Hne].
    - exists (q ++ [p]). rewrite lookup_insert_eq. split; [done|]. by rewrite <- app_assoc.
    - exists ql. rewrite lookup_insert_ne by done. by split. }
  exists s'. split; [|split; [done|]].
  - cbn [pay_nodes]. rewrite (bind_run _ _ s h s) by by apply lift_run. rewrite (bind_run _ _ s tt s1); [exact E|].
    unfold PayChan_Send. rewrite Eq. unfold zlen in *. rewrite !length_app in Hq. cbn [length] in Hq.
    rewrite bool_decide_eq_true_2 by lia. done.
  - intros l. rewrite EC, EP. cbn [PayChans s1]. destruct (decide (nd = l)) as [->|Hne].
    + rewrite lookup_insert_eq, Eq. cbn. by rewrite <- app_assoc.
    + by rewrite lookup_insert_ne by done.
Qed.

Lemma payments_to_app amount ns1 ns2 l : payments_to amount (ns1 ++ ns2) l = payments_to amount ns1 l ++ payments_to amount ns2 l.
Proof. apply omap_app. Qed.

(** Every session of the node is paid for. *)
Lemma length_payments_to amount ns l : Forall (λ y, keyed y.2) ns →
  length (payments_to amount ns l) = length (filter (λ y, y.1 = l) ns).
Proof.
  induction 1 as [|[nd x] ns Hx HK IH]; [done|]. apply keyed_hash in Hx as [h Eh]. cbn [snd] in Eh.
  rewrite filter_cons. unfold payments_to in *. cbn. rewrite Eh. by case_decide; cbn; rewrite IH.
Qed.

(** The payment for the [k]th session stands on its node's channel behind what was there
    and the payments for the node's sessions before it. *)
Lemma payment_sent amount ns k nd x h (m : Market) : let p := MkPayment (Session_ID x) h amount in
  Forall (λ y, keyed y.2) ns → ns !! k = Some (nd, x) → PreimageHash x = Ret h →
  (∀ l, l ∈ ns.*1 → ∃ q, PayChans m !! l = Some q ∧ zlen q + zlen ns ≤ PaymentChanBuffers) →
  ∃ m' q before after, pay_nodes amount ns m = Ret (tt, m') ∧ mk_Engine m' = mk_Engine m ∧
    PayChans m !! nd = Some q ∧ PayChans m' !! nd = Some (q ++ before ++ p :: after) ∧
    length (before ++ p :: after) = length (filter (λ y, y.1 = nd) ns) ∧
    length before = length (filter (λ y, y.1 = nd) (take k ns)).
Proof.
  intros p HK Hk Hh HQ. destruct (pay_nodes_spec amount ns m HK) as (m' & E & Ee & EC).
  { intros l Hl. destruct (HQ l Hl) as (q & Eq & Hq). exists q. split; [done|].
    pose proof (length_payments_to amount ns l HK) as L. pose proof (length_filter (λ y : loc * SessionR, y.1 = l) ns).
    unfold zlen in *. rewrite length_app. lia. }
  assert (nd ∈ ns.*1) as Hnd by (apply list_elem_of_fmap; exists (nd, x); split; [done|by eapply list_elem_of_lookup_2]).
  destruct (HQ nd Hnd) as (q & Eq & _). pose proof (EC nd) as En. rewrite Eq in En.
  assert (payments_to amount ns nd = payments_to amount (take k ns) nd ++ p :: payments_to amount (drop (S k) ns) nd) as EP.
  { rewrite <- (take_drop_middle ns k (nd, x)) at 1 by done. rewrite payments_to_app. f_equal.
    unfold payments_to. cbn. by rewrite decide_True, Hh by done. }
  rewrite EP in En. exists m', q, (payments_to amount (take k ns) nd), (payments_to amount (drop (S k) ns) nd).
  split_and!; try done.
  - by rewrite <- EP, length_payments_to.
  - apply length_payments_to. by apply Forall_take.
Qed.

(** The session at [l] is the one that was bought of the node [nd] for position [i]. *)
Definition bought_at (amount i : Z) (nd : loc) (x : SessionR) (l : loc) (s : Manager) : Prop :=
  ∃ d n, dataAt s !! l = Some d ∧ nodeAt s !! nd = Some n ∧
    (d_ID d, d_Node d, d_Remaining d, d_Hop d) = (Session_ID x, nd, amount, i) ∧
    Header x = Some (d_Header d) ∧ Payload x = Some (d_Payload d) ∧ PreimageHash x = Ret (d_Preimage d) ∧
    slot s (n_ID n) i = Some l.

(** What the hook needs of a node and its session: the node is known, and the key of
    the session is on file for no other. *)
Definition buyable (s : Manager) (y : loc * SessionR) : Prop :=
  keyed y.2 ∧ is_Some (nodeAt s !! y.1) ∧ (Keys_Bytes <$> Header y.2) ∉ header_of s <$> Sessions s.

Lemma store_sessions_run first n0 amount i ns (s : Manager) :
  wf s → nodeAt s !! first = Some n0 → Addresses n0 ≠ [] → 0 ≤ i → i + zlen ns ≤ 5 →
  Forall (buyable s) ns → NoDup ((λ y, Keys_Bytes <$> Header y.2) <$> ns) →
  ∃ ls s', store_sessions first amount i ns (with_locked true s) = Ret (tt, with_locked true s') ∧ wf s' ∧
    Sessions s' = Sessions s ++ ls ∧ nodeAt s' = nodeAt s ∧ length ls = length ns ∧
    (∀ l d, dataAt s !! l = Some d → dataAt s' !! l = Some d) ∧
    (∀ id h, 0 ≤ h → h < i ∨ i + zlen ns ≤ h → slot s' id h = slot s id h) ∧
    ∀ k nd x l, ns !! k = Some (nd, x) → ls !! k = Some l → bought_at amount (i + Z.of_nat k) nd x l s'.
Proof.
  revert i s; induction ns as [|[nd x] ns IH]; intros i s W H0 Ha Hi H5 HB HN.
  { exists [], s. rewrite app_nil_r. by split_and!. }
  apply Forall_cons in HB as [([[hdr Eh] [pld Ep]] & [n En] & Hf) HB]. cbn [fst snd] in *. rewrite Eh in Hf. cbn in Hf.
  apply NoDup_cons in HN as [HN1 HN]. cbn [snd] in HN1. rewrite Eh in HN1. cbn [fmap option_fmap option_map] in HN1.
  set (d := NewSessionData (Session_ID x) nd amount hdr pld i).
  destruct (enrol s d n W En) as [_ W1]; [done|done|].
  destruct (enrolled_facts d n s) as (ES & ED & _ & _ & EN). set (l0 := fresh (dom (dataAt s))) in *.
  assert (dataAt s !! l0 = None) as Hl0 by (apply not_elem_of_dom, is_fresh).
  set (s1 := with_Pending (Payments_Delete_discarded (sm_PendingPayments s) (d_Preimage d)) (enrolled d n s)).
  assert (wf s1) as W1' by by apply wf_with_Pending.
  assert (∀ l e, dataAt s !! l = Some e → dataAt s1 !! l = Some e) as HD.
  { intros l e El. change (dataAt s1) with (dataAt (enrolled d n s)). rewrite ED, lookup_insert_ne; [done|congruence]. }
  assert (header_of s1 <$> Sessions s1 = (header_of s <$> Sessions s) ++ [Some (Keys_Bytes hdr)]) as EH.
  { change (Sessions s1) with (Sessions (enrolled d n s)). rewrite ES, fmap_app. f_equal.
    - apply list_fmap_ext. intros k y Hk%list_elem_of_lookup_2. destruct (wf_sessions s W y Hk) as (e & _ & Ee & _).
      unfold header_of. by rewrite (HD y e), Ee.
    - cbn. unfold header_of. change (dataAt s1) with (dataAt (enrolled d n s)). by rewrite ED, lookup_insert_eq. }
  destruct (IH (i + 1) s1) as (ls & s' & E & W' & ES' & EN' & EL & HD' & HS & HB'); try done.
  { change (nodeAt s1) with (nodeAt (enrolled d n s)). by rewrite EN. }
  { lia. }
  { unfold zlen in *. cbn [length] in H5. lia. }
  { rewrite Forall_forall in HB |- *. intros y Hy. destruct (HB y Hy) as (HK & Hn & Hh). split_and!; [done| |].
    - change (nodeAt s1) with (nodeAt (enrolled d n s)). by rewrite EN.
    - rewrite EH. rewrite elem_of_app, list_elem_of_singleton. intros [?|Ey]; [done|]. apply HN1. rewrite <- Ey.
      by apply (list_elem_of_fmap_2 (λ y, Keys_Bytes <$> Header y.2)). }
  assert (∀ id h, 0 ≤ h → slot s1 id h = if decide (h < 5 ∧ id = n_ID n ∧ h = i) then Some l0 else slot s id h) as HS1.
  { intros id h Hh. change (slot s1 id h) with (slot (enrolled d n s) id h). unfold enrolled. fold l0.
    rewrite added_slot by (done || by apply wf_extended). apply decide_ext. change (d_Hop d) with i. naive_solver lia. }
  exists (l0 :: ls), s'. split_and!.
  - cbn [store_sessions]. rewrite Eh, Ep.
    rewrite (bind_run _ _ _ n0 (with_locked true s)) by by apply node_at_run.
    destruct (Addresses n0) as [|a0 al]; [done|]. rewrite (bind_run _ _ _ a0 (with_locked true s)) by done.
    rewrite (bind_run _ _ _ l0 (with_locked true (with_dataAt (<[l0 := d]> (dataAt s)) s))) by done.
    rewrite (bind_run _ _ _ n (with_locked true (with_dataAt (<[l0 := d]> (dataAt s)) s))) by by apply node_at_run.
    change ((get ≫= ?f) ?t) with (f t t). cbn beta. unfold Cache_Add at 1, goset.
    change (CircuitCache (with_locked true (with_dataAt ?m s))) with (CircuitCache s).
    rewrite bool_decide_eq_true_2; cycle 1.
    { unfold zlen. rewrite circuit_length by done. unfold zlen in *. cbn [length] in H5. lia. }
    refine (eq_trans _ E). unfold s1, enrolled, added. change (d_Hop d) with i. rewrite bool_decide_eq_true_2 by (unfold zlen in *; cbn [length] in H5; lia).
    cbn [mbind Out_bind]. unfold PreimageHash. rewrite Eh, Ep. reflexivity.
  - done.
  - rewrite ES'. change (Sessions s1) with (Sessions (enrolled d n s)). by rewrite ES, <- app_assoc.
  - rewrite EN'. exact EN.
  - cbn. by rewrite EL.
  - intros l e El. by apply HD', HD.
  - intros id h Hh Hr. unfold zlen in *. cbn [length] in Hr. rewrite HS, HS1 by lia. rewrite decide_False; [done|]. lia.
  - intros [|k] nd' x' l Ek El.
    + cbn in Ek, El. injection Ek as <- <-. injection El as <-. exists d, n. split_and!; try done.
      * apply HD'. change (dataAt s1) with (dataAt (enrolled d n s)). by rewrite ED, lookup_insert_eq.
      * by rewrite EN', <- EN in *.
      * cbn. do 2 f_equal. lia.
      * unfold PreimageHash. by rewrite Eh, Ep.
      * rewrite Z.add_0_r. unfold zlen in *. cbn [length] in H5. rewrite HS, HS1, decide_True by lia || (split_and!; lia || done). done.
    + replace (i + Z.of_nat (S k)) with (i + 1 + Z.of_nat k) by lia. by apply HB'.
Qed.

(** ** What is bought *)

(** When the confirmation of the message with the keys comes back, the sessions are
    the client's: each of the five that were paid for is listed behind those on file,
    has the identifier, the two keys and the whole amount, and is the one the circuit
    cache has for its node at its position; nothing else on file changes, and the
    manager stays well formed. *)
Lemma buy_hook_stores amount ns fn first x0 n0 (e : Engine) :
  let s := e_Mgr e in
  wf s → ns !! 0%nat = Some (first, x0) → nodeAt s !! first = Some n0 → Addresses n0 ≠ [] → zlen ns ≤ 5 →
  Forall (buyable s) ns → NoDup ((λ y, Keys_Bytes <$> Header y.2) <$> ns) → (∀ e, fn e = Ret (tt, e)) →
  ∃ ls e', buy_hook amount ns fn e = Ret (None, e') ∧ wf (e_Mgr e') ∧
    Sessions (e_Mgr e') = Sessions s ++ ls ∧ length ls = length ns ∧ nodeAt (e_Mgr e') = nodeAt s ∧
    (∀ l d, dataAt s !! l = Some d → dataAt (e_Mgr e') !! l = Some d) ∧
    (∀ id h, zlen ns ≤ h → slot (e_Mgr e') id h = slot s id h) ∧
    ∀ k nd x l, ns !! k = Some (nd, x) → ls !! k = Some l → bought_at amount (Z.of_nat k) nd x l (e_Mgr e').
Proof.
  intros s W H0 En Ha H5 HB HN Hfn.
  destruct (store_sessions_run first n0 amount 0 ns s) as (ls & s' & E & W' & HS & HE & HL & HD & HO & HK); try done.
  exists ls, (with_Mgr s' e). split; [|split_and!; try done; intros id h Hh; apply HO; unfold zlen in *; lia].
  destruct ns as [|[f y] ns]; [done|]. injection H0 as -> ->. unfold buy_hook.
  set (e1 := with_Mgr (with_locked true s) e). set (e2 := with_Mgr (with_locked true s') e).
  rewrite (bind_run _ _ e tt e1). 2:{ apply mgr_run. unfold Lock. fold s. by rewrite (wf_free s W). }
  rewrite (bind_run _ _ e1 tt e2). 2:{ unfold e1, e2. erewrite mgr_run by exact E. done. }
  rewrite (bind_run _ _ e2 tt e2) by apply Hfn.
  rewrite (bind_run _ _ e2 tt (with_Mgr s' e)); [done|]. unfold e2. erewrite mgr_run; [done|].
  unfold Unlock. cbn. do 3 f_equal. destruct s'; cbn in *. by rewrite <- (wf_free _ W').
Qed.

(** C6: a session is bought at both ends.  When the channels of the nodes have room the
    client puts on each, behind what is there, the payments for that node's sessions in
    their order, with the identifier and the preimage of the session and the whole
    amount.  Such a payment waits at its relay until the [Session] message with the keys
    comes, and becomes a session of the relay; when the confirmation is back the client
    lists its own: the two have the same identifier, keys, preimage and balance, the
    whole amount.  The client caches its session for the node at the position it bought
    it for, and both managers stay well formed. *)
Theorem session_bought (HM : Splice → Onion → GoM Engine unit) amount ns fn first x0 n0 k nd x h hdr lr nr sp sp' (e er : Engine) (chans : gmap loc (list Payment)) :
  let s := e_Mgr e in let r := e_Mgr er in
  (∀ l, l ∈ ns.*1 → ∃ q, chans !! l = Some q ∧ zlen q + zlen ns ≤ PaymentChanBuffers) →
  wf s → ns !! 0%nat = Some (first, x0) → nodeAt s !! first = Some n0 → Addresses n0 ≠ [] → zlen ns ≤ 5 →
  Forall (buyable s) ns → NoDup ((λ y, Keys_Bytes <$> Header y.2) <$> ns) → (∀ e, fn e = Ret (tt, e)) →
  ns !! k = Some (nd, x) → PreimageHash x = Ret h → Header x = Some hdr →
  wf r → named er → unclaimed h r → goindex (nodes r) 0 = Ret lr → nodeAt r !! lr = Some nr →
  Some (Keys_Bytes hdr) ∉ header_of r <$> Sessions r → BudgeUp (noise (e_draws er)) sp = Ret sp' →
  let p := MkPayment (Session_ID x) h amount in
  ∃ m' q before after er1 er2 e' y dr l dc n,
    pay_nodes amount ns (MkMarket e chans) = Ret (tt, m') ∧ mk_Engine m' = e ∧
    chans !! nd = Some q ∧ PayChans m' !! nd = Some (q ++ before ++ p :: after) ∧
    length (before ++ p :: after) = length (filter (λ y, y.1 = nd) ns) ∧
    length before = length (filter (λ y, y.1 = nd) (take k ns)) ∧ HandlePayment p er = Ret (tt, er1) ∧
    Session_Handle HM x sp er1 = (HM sp' ONil ;; mret None) er2 ∧ buy_hook amount ns fn e = Ret (None, e') ∧
    wf (e_Mgr er2) ∧ Sessions (e_Mgr er2) = Sessions r ++ [y] ∧ dataAt (e_Mgr er2) !! y = Some dr ∧
    wf (e_Mgr e') ∧ l ∈ Sessions (e_Mgr e') ∧ dataAt (e_Mgr e') !! l = Some dc ∧
    nodeAt s !! nd = Some n ∧ slot (e_Mgr e') (n_ID n) (Z.of_nat k) = Some l ∧ d_Remaining dc = amount ∧
    (d_ID dr, d_Remaining dr, d_Header dr, d_Payload dr, d_Preimage dr)
    = (d_ID dc, d_Remaining dc, d_Header dc, d_Payload dc, d_Preimage dc).
Proof.
  intros s r Hroom W H0 En Ha H5 HB HN Hfn Hk Hh Hhdr Wr Nr Ur Hlr Hnr Hf HBu p.
  destruct (payment_sent amount ns k nd x h (MkMarket e chans)) as (m' & q & before & after & Em & Ee & Eq & Eq' & L1 & L2); try done.
  { eapply Forall_impl; [exact HB|]. by intros y (Hy & _). }
  destruct (buy_hook_stores amount ns fn first x0 n0 e) as (ls & e' & E & W' & HS & HL & HE & _ & _ & HA); try done.
  destruct (lookup_lt_is_Some_2 ls k) as [l Hl]; [rewrite HL; by eapply lookup_lt_Some|].
  destruct (HA k nd x l Hk Hl) as (dc & n & Edc & En' & Ef & Eh & Ep & Epi & Es). injection Ef as Ei Ed Er _.
  rewrite Hh in Epi. injection Epi as Epi. rewrite Hhdr in Eh. injection Eh as Eh.
  set (d := bought p lr hdr (d_Payload dc) (b2z (Hop x))).
  destruct (enrol r d nr Wr Hnr) as [_ W2]; [cbn; apply b2z_range|done|].
  destruct (enrolled_facts d nr r) as (ES & ED & _).
  exists m', q, before, after, (with_Mgr (with_Pending (sm_PendingPayments r ++ [p]) r) er), (bump (with_Mgr (enrolled d nr r) er)), e', (fresh (dom (dataAt r))), d, l, dc, n. split_and!; try done.
  - by apply HandlePayment_waits.
  - by apply (Session_Handle_claims HM p x hdr (d_Payload dc) lr nr sp sp' er).
  - change (e_Mgr _) with (enrolled d nr r). by rewrite ED, lookup_insert_eq.
  - rewrite HS. apply elem_of_app. right. by eapply list_elem_of_lookup_2.
  - by rewrite HE in En'.
  - unfold PreimageHash in Hh. rewrite Hhdr, Ep in Hh. injection Hh as Hh. unfold d, bought, NewSessionData. cbn. rewrite Hh, Ei, Er, Eh, Epi. done.
Qed.

(** Without five successes there is no end. *)
Theorem BuyNewSessions_waits fuel order ids keys confirms hook now amount (s : Market) :
  successes confirms < 5 → ∀ s', BuyNewSessions fuel order ids keys confirms hook now amount s ≠ Ret (None, s').
Proof.
  intros Hc s' H. unfold BuyNewSessions in H.
  destruct (bind_inv _ _ _ _ _ H) as (nodes & s1 & _ & H1). clear H. case_bool_decide as Hn; [done|].
  destruct (bind_inv _ _ _ _ _ H1) as (hops & s2 & _ & H2). clear H1.
  destruct (bind_inv _ _ _ _ _ H2) as (ret & s3 & _ & H3). clear H2.
  destruct (bind_inv _ _ _ _ _ H3) as (dd & s4 & _ & H4). clear H3.
  destruct (bind_inv _ _ _ _ _ H4) as ([] & s5 & _ & H5). clear H4.
  destruct (bind_inv _ _ _ _ _ H5) as ([] & s6 & H6 & _). clear H5. revert H6.
  rewrite await_confirms_spec, bool_decide_eq_false_2; [done|].
  unfold zlen. rewrite length_zip_with. unfold new_sessions. rewrite length_fmap, length_seq. lia.
Qed.
End Buying.

(** ** Witness *)

#[local] Existing Instances Toy.crypto Toy.multiaddrs ToyNet.transports ToyNet.peers ToyEngine.env.

Module BuyWitness.
Definition quiet : GoM (Engine (User := unit) (IntroHook := unit)) unit := mret tt.
End BuyWitness.

(** The toy engine as the client and as the relay it buys of. *)
Lemma session_bought_witness :
  let e := ToyEngine.around ToySess.heap in let x := LifeWitness.session in
  let p := MkPayment (Session_ID x) LifeWitness.paid 1000 in
  ∃ m' er1 er2 e' y dr l dc,
    pay_nodes 1000 [(2%positive, x)] (MkMarket e {[2%positive := []]}) = Ret (tt, m') ∧ PayChans m' !! 2%positive = Some [p] ∧
    HandlePayment p e = Ret (tt, er1) ∧ Session_Handle LifeWitness.next x LifeWitness.sp er1 = Ret (None, er2) ∧
    buy_hook 1000 [(2%positive, x)] BuyWitness.quiet e = Ret (None, e') ∧
    dataAt (e_Mgr er2) !! y = Some dr ∧ dataAt (e_Mgr e') !! l = Some dc ∧ d_Remaining dr = 1000 ∧ d_Header dr = d_Header dc.
Proof.
  intros e x p.
  assert (Forall (buyable ToySess.heap) [(2%positive, x)]) as HB.
  { constructor; [|constructor]. split_and!; [split; by eexists|by eexists|]. apply (bool_decide_unpack _). by vm_compute. }
  assert (unclaimed LifeWitness.paid (e_Mgr e)) as HU.
  { constructor; [|by constructor].
    intros z d Hz Hd. assert (z = 1%positive ∨ z = 2%positive) as [-> | ->].
    { repeat (apply elem_of_cons in Hz as [->|Hz]; [naive_solver|]). by apply not_elem_of_nil in Hz. }
    - injection Hd as <-. apply (bool_decide_unpack _). by vm_compute.
    - injection Hd as <-. apply (bool_decide_unpack _). by vm_compute. }
  destruct (session_bought LifeWitness.next 1000 [(2%positive, x)] BuyWitness.quiet 2%positive x (ToySess.node x02) 0 2%positive x
    LifeWitness.paid LifeWitness.keys 1%positive (ToySess.node x01) LifeWitness.sp LifeWitness.sp e e {[2%positive := []]})
    as (m' & q & before & after & er1 & er2 & e' & y & dr & l & dc & n & P1 & _ & P2 & P3 & P4 & P5 & H1 & H2 & H3 & _ & _ & H4 & _ & _ & H5 & _ & _ & H6 & H7).
  - intros l Hl. apply list_elem_of_singleton in Hl as ->. exists []. split; [reflexivity|by vm_compute].
  - exact ToySess.heap_wf.
  - reflexivity.
  - reflexivity.
  - discriminate.
  - by vm_compute.
  - exact HB.
  - repeat constructor. intros H; inversion H.
  - reflexivity.
  - reflexivity.
  - reflexivity.
  - reflexivity.
  - exact ToySess.heap_wf.
  - exact ToyEngine.heap_named.
  - exact HU.
  - reflexivity.
  - reflexivity.
  - apply (bool_decide_unpack _). by vm_compute.
  - by vm_compute.
  - exists m', er1, er2, e', y, dr, l, dc. injection H7 as _ HR HH _ _. split; [exact P1|].
    injection P2 as <-. destruct before as [|? before]; [|discriminate P5]. destruct after as [|? after]; [|discriminate P4].
    split; [exact P3|].
    split; [exact H1|]. split; [rewrite H2; reflexivity|]. split; [exact H3|]. split; [exact H4|]. split; [exact H5|].
    split; [rewrite HR; exact H6|exact HH].
Defined.
