(* ===== verification/Billing.v ===== *)
(** * What a response costs

    [Response.Handle] charges the sessions of the circuit by their position: the first
    two for the bytes sent, the third, the exit, for the bytes received at half the
    rate of its service, the others for the bytes received at their relay rate. *)

From S2P Require Export Lifecycle.

Section Billing.
Context {cr : Crypto} {ma : Multiaddrs} {pe : Peers} {tp : Transports} {env : Env}.
Context {User IntroHook : Type}.
Abbreviation Engine := (Engine (User := User) (IntroHook := IntroHook)).

(** The fee of the session at a position, on its node. *)
Definition fee (sent port size : Z) (i : nat) (n : Node) : Z :=
  match i with
  | 0%nat | 1%nat => RelayRate n * sent
  | 2%nat => match on_port port (Services n) with
             | Some (_, v) => Z.quot (svc_RelayRate v) 2
             | None => RelayRate n
             end * size
  | _ => RelayRate n * size
  end.

(** What a balance gives for it: all of it or nothing. *)
Definition paid (msats balance : Z) : Z := if decide (balance < charge msats) then 0 else charge msats.

(** The sessions' nodes are reachable: unlocked, and with an address. *)
Definition reachable (s : Manager) : Prop :=
  ∀ x d n, x ∈ Sessions s → dataAt s !! x = Some d → nodeAt s !! d_Node d = Some n →
    n_Mutex n = Some false ∧ Addresses n ≠ [].

(** What a session owes for a response when [l] are the keys billed, from position [i]. *)
Definition owed (sent port size : Z) (i : nat) (l : list PubBytes) (d : Data) (n : Node) : Z :=
  match list_find (λ k, k = Keys_Bytes (d_Header d)) l with
  | Some (j, _) => paid (wraps 64 (fee sent port size (i + j) n)) (d_Remaining d)
  | None => 0
  end.

(** [s'] is [s] with every listed session charged what it owes. *)
Record Billed (sent port size : Z) (i : nat) (l : list PubBytes) (s s' : Manager) : Prop := {
  billed_wf : wf s';
  billed_reachable : reachable s';
  billed_sessions : Sessions s' = Sessions s;
  billed_nodes : nodeAt s' = nodeAt s;
  billed_listed x d n : x ∈ Sessions s → dataAt s !! x = Some d → nodeAt s !! d_Node d = Some n →
    dataAt s' !! x = Some (with_Remaining (d_Remaining d - owed sent port size i l d n) d);
  billed_others x : x ∉ Sessions s → dataAt s' !! x = dataAt s !! x;
}.

Lemma with_Remaining_same d : with_Remaining (d_Remaining d - 0) d = d.
Proof. destruct d. unfold with_Remaining. cbn. by rewrite Z.sub_0_r. Qed.

Lemma reachable_with_balance x d r s : dataAt s !! x = Some d → reachable s → reachable (with_balance x d r s).
Proof.
  intros Hd R y e n Hy He Hn.
  destruct (with_balance_data s x d r y e Hd He) as (e0 & He0 & En & _).
  apply (R y e0); [done|done|]. rewrite <- En. exact Hn.
Qed.

(** Keys that no session has are passed over. *)
Lemma find_unknown s k : wf s → Some k ∉ header_of s <$> Sessions s → FindSessionByPubkey k s = Ret (None, s).
Proof.
  intros W Hk. unfold FindSessionByPubkey. rewrite (FindSession_run _ (by_key k)) by done.
  assert (list_find (λ x, sel s (by_key k) x = true) (Sessions s) = None) as ->; [|done].
  apply list_find_None, Forall_forall. intros x Hx Hs. unfold sel in Hs.
  destruct (dataAt s !! x) as [d|] eqn:Ed; [|done]. apply bool_decide_eq_true_1 in Hs.
  apply Hk. apply list_elem_of_fmap. exists x. split; [|done]. unfold header_of. rewrite Ed. cbn. by rewrite Hs.
Qed.

Lemma find_known s x d : wf s → x ∈ Sessions s → dataAt s !! x = Some d →
  FindSessionByPubkey (Keys_Bytes (d_Header d)) s = Ret (Some x, s).
Proof.
  intros W Hx Hd. unfold FindSessionByPubkey.
  rewrite (FindSession_run _ (by_key (Keys_Bytes (d_Header d)))) by done.
  destruct (find_by_key s x d W Hx Hd) as [i ->]. done.
Qed.

(** The manager after one session was charged. *)
Definition charged (x : loc) (d : Data) (msats : Z) (s : Manager) : Manager :=
  if decide (d_Remaining d < charge msats) then s else with_balance x d (d_Remaining d - charge msats) s.

Lemma charged_facts x d n msats s :
  wf s → reachable s → x ∈ Sessions s → dataAt s !! x = Some d → nodeAt s !! d_Node d = Some n →
  (∃ ok, DecSession (Keys_Bytes (d_Header d)) msats s = Ret (ok, charged x d msats s)) ∧
  wf (charged x d msats s) ∧ reachable (charged x d msats s) ∧
  Sessions (charged x d msats s) = Sessions s ∧ nodeAt (charged x d msats s) = nodeAt s ∧
  dataAt (charged x d msats s) !! x = Some (with_Remaining (d_Remaining d - paid msats (d_Remaining d)) d) ∧
  ∀ y, y ≠ x → dataAt (charged x d msats s) !! y = dataAt s !! y.
Proof.
  intros W R Hx Hd Hn. destruct (R x d n Hx Hd Hn) as [_ Ha].
  rewrite (DecSession_found s x d n msats W Hx Hd Hn Ha). unfold charged, paid.
  destruct (decide (d_Remaining d < charge msats)).
  - rewrite with_Remaining_same. split; [by eexists|]. by split_and!.
  - split; [by eexists|]. split; [by apply with_balance_wf|]. split; [by apply reachable_with_balance|].
    split; [done|]. split; [done|]. split; [cbn; by rewrite lookup_insert_eq|].
    intros y Hy. cbn. by rewrite lookup_insert_ne.
Qed.

Lemma owed_cons sent port size i k l d n :
  owed sent port size i (k :: l) d n
  = if decide (k = Keys_Bytes (d_Header d)) then paid (wraps 64 (fee sent port size i n)) (d_Remaining d)
    else owed sent port size (S i) l d n.
Proof.
  unfold owed. cbn [list_find]. case_decide as E; [by rewrite Nat.add_0_r|].
  destruct (list_find _ l) as [[j y]|]; [|done]. cbn. by rewrite Nat.add_succ_r.
Qed.

Lemma owed_absent sent port size i l d n : Keys_Bytes (d_Header d) ∉ l → owed sent port size i l d n = 0.
Proof.
  intros H. unfold owed. rewrite (proj2 (list_find_None _ _)); [done|].
  apply Forall_forall. intros k Hk ->. by apply H.
Qed.

(** Charging the head and then the rest. *)
Lemma Billed_cons sent port size i l s s' x d n :
  wf s → reachable s → x ∈ Sessions s → dataAt s !! x = Some d → nodeAt s !! d_Node d = Some n →
  Keys_Bytes (d_Header d) ∉ l →
  Billed sent port size (S i) l (charged x d (wraps 64 (fee sent port size i n)) s) s' →
  Billed sent port size i (Keys_Bytes (d_Header d) :: l) s s'.
Proof.
  intros W R Hx Hd Hn Hk [BW BR BS BN BL BO]. set (m := wraps 64 (fee sent port size i n)) in *.
  destruct (charged_facts x d n m s W R Hx Hd Hn) as (_ & _ & _ & CS & CN & CX & CO).
  rewrite CS in *. rewrite CN in *. constructor; [done|done|done|done| |].
  - intros y e ne Hy He Hne. rewrite owed_cons. destruct (decide (y = x)) as [->|Hyx].
    + rewrite Hd in He. injection He as <-. rewrite Hn in Hne. injection Hne as <-.
      rewrite decide_True by done. rewrite (BL x _ n Hy CX Hn).
      rewrite owed_absent by done. by rewrite with_Remaining_same.
    + assert (Keys_Bytes (d_Header d) ≠ Keys_Bytes (d_Header e)) as Hne'.
      { intros Ek. apply Hyx. pose proof (wf_distinct s W) as ND.
        apply list_elem_of_lookup in Hy as [a Ha]. apply list_elem_of_lookup in Hx as [b Hb].
        assert (a = b) as ->; [|congruence].
        eapply (NoDup_lookup _ _ _ (Some (Keys_Bytes (d_Header d))) ND);
          rewrite list_lookup_fmap; [rewrite Ha|rewrite Hb]; cbn; unfold header_of;
          [rewrite He|rewrite Hd]; cbn; congruence. }
      rewrite decide_False by done. apply BL; [done| |done]. by rewrite CO.
  - intros y Hy. rewrite BO by done. apply CO. by intros ->.
Qed.

(** Keys of nobody cost nothing. *)
Lemma Billed_skip sent port size i l s s' k :
  Some k ∉ header_of s <$> Sessions s →
  Billed sent port size (S i) l s s' → Billed sent port size i (k :: l) s s'.
Proof.
  intros Hk [BW BR BS BN BL BO]. constructor; [done..| |done].
  intros x d n Hx Hd Hn. rewrite owed_cons, decide_False; [by apply BL|].
  intros ->. apply Hk. apply list_elem_of_fmap. exists x. split; [|done]. unfold header_of. by rewrite Hd.
Qed.

Lemma with_Mgr_twice s t (e : Engine) : with_Mgr s (with_Mgr t e) = with_Mgr s e.
Proof. done. Qed.

(** The exit's node is locked and unlocked around the search for the service. *)
Lemma relock_run s l n : nodeAt s !! l = Some n → n_Mutex n = Some false →
  on_node l Node_Lock s = Ret (tt, locked_node s l n) ∧
  on_node l Node_Unlock (locked_node s l n) = Ret (tt, s).
Proof. intros Hn Hm. split; [by apply lock_node_run|by apply unlock_node_run]. Qed.

Lemma bill_response_cons sent port size i l (e : Engine) x d n :
  let s := e_Mgr e in let m := wraps 64 (fee sent port size i n) in
  wf s → reachable s → x ∈ Sessions s → dataAt s !! x = Some d → nodeAt s !! d_Node d = Some n →
  bill_response sent port size i (Keys_Bytes (d_Header d) :: l) e
  = bill_response sent port size (S i) l (with_Mgr (charged x d m s) e).
Proof.
  intros s m W R Hx Hd Hn. destruct (R x d n Hx Hd Hn) as [Hm _].
  destruct (charged_facts x d n m s W R Hx Hd Hn) as ([ok ED] & _).
  cbn [bill_response].
  rewrite (bind_run _ _ _ _ _ (mgr_read _ e _ (find_known s x d W Hx Hd))).
  erewrite bind_run; [done|].
  rewrite (bind_run _ _ _ _ _ (mgr_read _ e _ (data_at_run s x d Hd))).
  rewrite (bind_run _ _ _ _ _ (mgr_read _ e _ (node_at_run s _ n Hn))).
  assert (∀ r, wraps 64 (r.1 * r.2) = m →
    (_ ← mgr (DecSession (Keys_Bytes (d_Header d)) (wraps 64 (r.1 * r.2))); mret tt) e
    = Ret (tt, with_Mgr (charged x d m s) e)) as Fin.
  { intros r ->. by rewrite (bind_run _ _ _ _ _ (mgr_run _ e _ _ ED)). }
  destruct i as [|[|[|i]]].
  - by apply (Fin (RelayRate n, sent)).
  - by apply (Fin (RelayRate n, sent)).
  - destruct (relock_run s _ n Hn Hm) as [EL EU].
    rewrite (bind_run _ _ e (match on_port port (Services n) with
                             | Some (_, v) => Z.quot (svc_RelayRate v) 2
                             | None => RelayRate n
                             end, size) e); [by apply Fin|].
    rewrite (bind_run _ _ _ _ _ (mgr_run _ e _ _ EL)).
    rewrite (bind_run _ _ _ _ _ (mgr_run _ (with_Mgr (locked_node s (d_Node d) n) e) _ _ EU)).
    rewrite with_Mgr_twice. unfold s. by rewrite with_Mgr_id.
  - by apply (Fin (RelayRate n, size)).
Qed.

Lemma bill_response_run sent port size l : ∀ i (e : Engine),
  wf (e_Mgr e) → reachable (e_Mgr e) → NoDup l →
  ∃ s', bill_response sent port size i l e = Ret (tt, with_Mgr s' e) ∧
        Billed sent port size i l (e_Mgr e) s'.
Proof.
  induction l as [|k l IH]; intros i e W R ND.
  { exists (e_Mgr e). split; [by rewrite with_Mgr_id|]. constructor; try done.
    intros x d n _ Hd _. by rewrite with_Remaining_same. }
  apply NoDup_cons in ND as [Hk ND].
  destruct (decide (Some k ∈ header_of (e_Mgr e) <$> Sessions (e_Mgr e))) as [Hin|Hout].
  - apply list_elem_of_fmap in Hin as (x & Ex & Hx).
    destruct (wf_sessions _ W x Hx) as (d & n & Hd & Hn).
    unfold header_of in Ex. rewrite Hd in Ex. injection Ex as ->.
    rewrite (bill_response_cons sent port size i l e x d n) by done.
    destruct (charged_facts x d n (wraps 64 (fee sent port size i n)) _ W R Hx Hd Hn)
      as (_ & CW & CR & _).
    destruct (IH (S i) (with_Mgr (charged x d (wraps 64 (fee sent port size i n)) (e_Mgr e)) e)) as (s' & E & B);
      [done|done|done|].
    exists s'. split; [by rewrite E, with_Mgr_twice|]. by apply (Billed_cons sent port size i l _ s' x d n).
  - destruct (IH (S i) e) as (s' & E & B); [done|done|done|].
    exists s'. split; [|by apply Billed_skip]. cbn [bill_response].
    rewrite (bind_run _ _ _ _ _ (mgr_read _ e _ (find_unknown _ k W Hout))).
    by rewrite (bind_run _ _ e tt e).
Qed.

(** C8: a response is paid for by position.  When a response comes in for a pending
    request whose circuit billed distinct keys, the handler charges every listed
    session what the schedule says for its key's position (bytes sent for the first
    two, bytes received at half the service's rate for the third, at the relay rate for
    the others; nothing if the key was not billed), whole or not at all, touches no
    other object, keeps the manager well formed, and then hands the response's bytes to
    the pending request's hooks and callback; without a pending request it does
    nothing. *)
Theorem Response_Handle_bills (run_cb : CB (User := User) (IntroHook := IntroHook) → ID → Onion → bytes → GoM Engine (option error))
    x sp (e : Engine) :
  wf (e_Mgr e) → reachable (e_Mgr e) →
  match snd <$> list_find (λ r, r_ID r = Response_ID x) (responses (e_Responses e)) with
  | None => Response_Handle run_cb x sp e = Ret (None, e)
  | Some pr => NoDup (Billable pr) →
      ∃ s', Billed (SentSize pr) (Response_Port x) (Len sp) 0 (Billable pr) (e_Mgr e) s' ∧
        Response_Handle run_cb x sp e
        = (_ ← Responses_ProcessAndDelete run_cb (Response_ID x) ONil (Response_Bytes x); mret None)
            (with_Mgr s' e)
  end.
Proof.
  intros W R. unfold Response_Handle.
  rewrite (bind_run (Responses_Find (Response_ID x)) _ e
             (snd <$> list_find (λ r, r_ID r = Response_ID x) (responses (e_Responses e))) e) by done.
  destruct (snd <$> _) as [pr|]; [|done]. intros ND.
  destruct (bill_response_run (SentSize pr) (Response_Port x) (Len sp) (Billable pr) 0 e W R ND) as (s' & E & B).
  exists s'. split; [done|]. by rewrite (bind_run _ _ _ _ _ E).
Qed.
End Billing.

(** ** Witness *)

#[local] Existing Instances Toy.crypto Toy.multiaddrs ToyNet.transports ToyNet.peers ToyEngine.env.

Module BillWitness.
Definition bytes_of (b : byte) : PubBytes := Keys_Bytes (ToySess.key b).
Definition pending : Response Hook (CB (User := unit) (IntroHook := unit)) :=
  MkResponseRec (arr_of 8 [x77]) 1000 80 [bytes_of x11; bytes_of x12; bytes_of x13; bytes_of x16]
    (bytes_of x16) [] CbNil 0.
Definition engine : Engine (User := unit) (IntroHook := unit) :=
  with_Responses (MkPending false [pending]) (ToyEngine.around ToySkins.heap).
Definition run (c : CB (User := unit) (IntroHook := unit)) (i : ID) (o : Onion) (b : bytes)
  : GoM (Engine (User := unit) (IntroHook := unit)) (option error) := mret None.
Definition response : ResponseR := MkResponse (arr_of 8 [x77]) 80 x00 [x01].

Lemma heap_reachable : reachable ToySkins.heap.
Proof.
  intros x d n Hx Hd Hn. destruct (ToySkins.heap_sessions x Hx) as (b & h & Hd' & _).
  rewrite Hd in Hd'. injection Hd' as ->. injection Hn as <-. by split.
Qed.
End BillWitness.

Lemma Response_Handle_bills_witness :
  ∃ s', Billed 1000 80 3000 0 (Billable BillWitness.pending) ToySkins.heap s' ∧
    Response_Handle BillWitness.run BillWitness.response (New 3000) BillWitness.engine
    = Ret (None, with_Responses (MkPending false []) (with_Mgr s' BillWitness.engine)).
Proof.
  pose proof (Response_Handle_bills BillWitness.run BillWitness.response (New 3000) BillWitness.engine) as H.
  specialize (H ToySkins.skins_wf BillWitness.heap_reachable).
  destruct H as (s' & B & E).
  - apply (bool_decide_unpack _). by vm_compute.
  - exists s'. split; [exact B|]. rewrite E. reflexivity.
Defined.
