(* ===== verification/EngineProps.v ===== *)
(** * What a relay does with a message *)

From S2P Require Export Billing.

Section EngineProps.
Context {cr : Crypto} {crl : CryptoLaws} {ma : Multiaddrs} {mal : MultiaddrLaws}
  {pe : Peers} {tp : Transports} {env : Env}.
Context {User IntroHook : Type}.
Abbreviation Engine := (Engine (User := User) (IntroHook := IntroHook)).
Context (run_cb : CB (User := User) (IntroHook := IntroHook) → ID → Onion → bytes → GoM Engine (option error)).

(** C2: a relay opens exactly what is sealed for it: when the bytes a sender encodes
    for a crypt layer arrive, and the layer's receiver is a session of the relay that
    its cloak identifies, then handling the message is handling the message inside: the
    inner image is at the front of an equally long buffer, the layer with the session's
    private key is what the next handler sees as the previous one, and apart from a
    draw of noise the engine is unchanged. *)
Theorem HandleMessage_peels fuel dp bl x i prv s r pr (e : Engine) :
  encodable dp bl (OCrypt x i) → Depth x = 0 → ToHeaderPub x = Some (PubKey prv) →
  s_b s = image bl (OCrypt x i) ++ r → s_E s = None →
  named e → wf (e_Mgr e) → addressed (GetCloak (bl O) (PubKey prv)) prv (e_Mgr e) →
  ∃ x' s' r', HandleMessage run_cb (S fuel) s pr e = HandleMessage run_cb fuel s' (OCrypt x' ONil) (bump e) ∧
    ToPriv x' = Some prv ∧ s_b s' = image (λ n, bl (S n)) i ++ r' ∧ Len s' = Len s ∧ s_E s' = None.
Proof. apply HandleMessage_crypt. Qed.

(** Most messages are dropped.  The types whose [Unwrap] is nil after decoding
    ([Forward], [Reverse], [Session], [Exit], [IntroQuery], [Route], [Balance],
    [Confirmation]) never reach their handlers: such a message changes nothing, and
    behind a crypt layer for the relay it costs one draw of noise.  In particular a
    relay forwards nothing and takes in no session. *)
Theorem HandleMessage_drops fuel dp bl o s r pr (e : Engine) :
  plain o → dropped o → s_E s = None → named e →
  (encodable dp bl o → s_b s = image bl o ++ r →
   HandleMessage run_cb (S fuel) s pr e = Ret (tt, e)) ∧
  (∀ x prv, encodable dp bl (OCrypt x o) → Depth x = 0 → ToHeaderPub x = Some (PubKey prv) →
   s_b s = image bl (OCrypt x o) ++ r →
   wf (e_Mgr e) → addressed (GetCloak (bl O) (PubKey prv)) prv (e_Mgr e) →
   HandleMessage run_cb (S (S fuel)) s pr e = Ret (tt, bump e)).
Proof.
  intros Hp HD HE N. split.
  - intros He B. by apply (HandleMessage_drop run_cb fuel dp bl o s r).
  - intros x prv He HDx HT B W A.
    destruct (HandleMessage_crypt run_cb (S fuel) dp bl x o prv s r pr e) as (x' & s' & r' & -> & _ & B' & _ & E');
      try done.
    destruct He as (_ & _ & _ & Ho).
    by apply (HandleMessage_drop run_cb fuel dp (λ n, bl (S n)) o s' r').
Qed.

(** Nothing is ever sent: [SendWithOneHook] asks the local node for an address,
    [PickAddress] always answers nil, and printing the nil address panics, after the
    response has been registered as pending; so [SendExit], [SendGetBalance] and the
    other senders, which end in it, never return. *)
Theorem SendWithOneHook_panics now res (hook : CB (User := User) (IntroHook := IntroHook)) (e : Engine) :
  wf (e_Mgr e) → named e → p_locked (e_Responses e) = false →
  SendWithOneHook now res hook e = Panic PNil ∧
  ∀ o, PostAcctOnion defaultPort (blinds (e_draws e)) o (e_Mgr e) = Ret (res, e_Mgr e) →
       send_onion now o hook e = Panic PNil.
Proof.
  intros W N HP.
  assert (∀ e : Engine, wf (e_Mgr e) → named e → p_locked (e_Responses e) = false →
            SendWithOneHook now res hook e = Panic PNil) as HS.
  { clear. intros e W N HP. unfold SendWithOneHook.
    change ((get ≫= ?f) e) with (f e e). cbn beta.
    destruct (local_node _ W) as (l & n & Hl & Hn).
    rewrite (bind_run _ _ _ _ _ (mgr_read _ e _ (GetLocalNode_run _ l Hl))).
    rewrite (bind_run _ _ _ _ _ (mgr_read _ e _ (node_at_run _ l n Hn))).
    cbn [PickAddress].
    set (r := MkResponseRec _ _ _ _ _ _ _ _).
    set (e1 := with_Responses (MkPending false (responses (e_Responses e) ++ [r])) e).
    rewrite (bind_run _ _ e tt e1).
    - erewrite bind_run; [done|]. by apply local_name_run.
    - unfold Pending_Add, Pending_locked, mbind, GoM_bind, Pending_Lock. rewrite HP. done. }
  split; [by apply HS|]. intros o HO. unfold send_onion.
  rewrite (bind_run draw _ e (e_draws e) (bump e)) by done.
  rewrite (bind_run _ _ _ _ _ (mgr_read _ (bump e) _ HO)).
  apply bind_panic. by apply HS.
Qed.
End EngineProps.

(** ** Witnesses *)

#[local] Existing Instances Toy.crypto Toy.laws Toy.multiaddrs Toy.multiaddr_laws
  ToyNet.transports ToyNet.peers ToyEngine.env.

Module RelayWitness.
Definition prv : arr 32 := arr_of 32 [x11].
Definition layer : CryptR := MkCrypt 0 (Some prv) None (Some OnionWitness.prv2) (arr_of 16 [x05]) (arr_zero 8) None None.
Definition message : Splice := NewFrom (image OnionWitness.blind (OCrypt layer OnionWitness.fwd)).
Definition engine : Engine (User := unit) (IntroHook := unit) := ToyEngine.around ToySess.heap.

Lemma from_bytes b : s_b (NewFrom b) = b ++ [].
Proof. symmetry. apply app_nil_r. Qed.

Lemma message_bytes : s_b message = image OnionWitness.blind (OCrypt layer OnionWitness.fwd) ++ [].
Proof. exact (from_bytes _). Qed.

Lemma encodes : encodable 80 OnionWitness.blind (OCrypt layer OnionWitness.fwd).
Proof.
  split; [by eexists|]. split; [by eexists|]. split; [by left|]. apply OnionWitness.fwd_encodable.
Qed.

Lemma for_us : addressed (GetCloak (OnionWitness.blind O) (PubKey prv)) prv ToySess.heap.
Proof.
  split.
  - exists 1%positive, (ToySess.node x01). split; [reflexivity|]. split; [reflexivity|]. by vm_compute.
  - exists 1%positive, (ToySess.data x11 0). split; [by left|]. split; [reflexivity|].
    split; [reflexivity|]. split; [reflexivity|]. intros y Hy Hs.
    apply elem_of_cons in Hy as [->|Hy]; [done|]. apply list_elem_of_singleton in Hy as ->.
    exfalso. by vm_compute in Hs.
Qed.
End RelayWitness.

Lemma HandleMessage_peels_witness :
  ∃ x' s' r', HandleMessage BillWitness.run 5 RelayWitness.message ONil RelayWitness.engine
      = HandleMessage BillWitness.run 4 s' (OCrypt x' ONil) (bump RelayWitness.engine) ∧
    ToPriv x' = Some RelayWitness.prv ∧ s_b s' = image (λ n, OnionWitness.blind (S n)) OnionWitness.fwd ++ r' ∧
    Len s' = Len RelayWitness.message ∧ s_E s' = None.
Proof.
  apply (HandleMessage_peels BillWitness.run 4 80 OnionWitness.blind RelayWitness.layer OnionWitness.fwd
    RelayWitness.prv RelayWitness.message [] ONil RelayWitness.engine RelayWitness.encodes).
  - reflexivity.
  - reflexivity.
  - exact RelayWitness.message_bytes.
  - reflexivity.
  - exact ToyEngine.heap_named.
  - exact ToySess.heap_wf.
  - exact RelayWitness.for_us.
Defined.

Lemma HandleMessage_drops_witness :
  HandleMessage BillWitness.run 2 RelayWitness.message ONil RelayWitness.engine
  = Ret (tt, bump RelayWitness.engine).
Proof.
  destruct (HandleMessage_drops BillWitness.run 0 80 OnionWitness.blind OnionWitness.fwd
    RelayWitness.message [] ONil RelayWitness.engine) as [_ H].
  - exact I.
  - exact I.
  - reflexivity.
  - exact ToyEngine.heap_named.
  - apply (H RelayWitness.layer RelayWitness.prv RelayWitness.encodes).
    + reflexivity.
    + reflexivity.
    + exact RelayWitness.message_bytes.
    + exact ToySess.heap_wf.
    + exact RelayWitness.for_us.
Defined.

Lemma SendWithOneHook_panics_witness :
  SendWithOneHook 0 SessData_zero CbNil RelayWitness.engine = Panic PNil.
Proof.
  apply (SendWithOneHook_panics 0 SessData_zero CbNil RelayWitness.engine).
  - exact ToySess.heap_wf.
  - exact ToyEngine.heap_named.
  - reflexivity.
Defined.
