(* ===== verification/Datastore.v ===== *)
(** * The datastore and the metadata book kept in it

    Models [pkg/engine/transport/pstoreds/metadata.go] over two packages that are not
    under src/: go-datastore ([Datastore], whose law says that what was put is what
    is got, until the key is put or deleted again) and encoding/gob ([Gob]).  A Go
    value of type [interface{}] is a [Value]: its dynamic type and what it holds. *)

From S2P Require Export Node.

(** [ds.Datastore] and [ds.Key] *)
Class Datastore := {
  DsKey : Type;
  DsKey_eq_dec :: EqDecision DsKey;
  NewKey : bytes → DsKey;
  ChildString : DsKey → bytes → DsKey;
  DS : Type;
  ds_ErrNotFound : error;
  ds_Get : DsKey → DS → bytes + error;
  ds_Put : DsKey → bytes → DS → DS * option error;
  ds_Delete : DsKey → DS → DS * option error;
  (** the keys that a query for a prefix finds *)
  ds_Query : DsKey → DS → list DsKey + error;
}.

Class DatastoreLaws `{Datastore} : Prop := {
  ds_put_get k v d d' : ds_Put k v d = (d', None) → ds_Get k d' = inl v;
  ds_put_other k k' v d d' : ds_Put k v d = (d', None) → k ≠ k' → ds_Get k' d' = ds_Get k' d;
}.

(** The dynamic types that matter to the sources: [[]byte], the named type
    [slice.Bytes], the set of protocols [map[protocol.ID]struct{}], and the rest. *)
Inductive Value {Any : Type} :=
  VBytes (b : bytes) | VSliceBytes (b : bytes) | VProtocols (m : gset string) | VOther (v : Any).
Arguments Value : clear implicits.

(** A [gob.Encoder] and [gob.Decoder] of an interface value. *)
Class Gob (Any : Type) := {
  gob_Encode : Value Any → bytes + error;
  gob_Decode : bytes → Value Any + error;
}.

(** Basic types are registered by default, the set of protocols by [init]; they come
    back as they were. *)
Class GobLaws (Any : Type) `{Gob Any} : Prop := {
  gob_bytes b : ∃ w, gob_Encode (VBytes b) = inl w ∧ gob_Decode w = inl (VBytes b);
  gob_protocols m : ∃ w, gob_Encode (VProtocols m) = inl w ∧ gob_Decode w = inl (VProtocols m);
}.

Section Metadata.
Context {ds : Datastore} {P : Type} (base32 : P → bytes) {Any : Type} {gob : Gob Any}.

Definition ErrNotFound : error := Errorf "item not found" [].
Definition pmBase : DsKey := NewKey (string_bytes "/peers/metadata").
Definition pm_key (p : P) (key : bytes) : DsKey := ChildString (ChildString pmBase (base32 p)) key.

Definition dsPeerMetadata_Get (p : P) (key : bytes) (d : DS) : Value Any + error :=
  match ds_Get (pm_key p key) d with
  | inr e => inr (if decide (e = ds_ErrNotFound) then ErrNotFound else e)
  | inl v => gob_Decode v
  end.

Definition dsPeerMetadata_Put (p : P) (key : bytes) (val : Value Any) (d : DS) : DS * option error :=
  match gob_Encode val with
  | inr e => (d, Some e)
  | inl w => ds_Put (pm_key p key) w d
  end.

(** A query that fails removes nothing; so does a deletion, silently. *)
Definition dsPeerMetadata_RemovePeer (p : P) (d : DS) : DS :=
  match ds_Query (ChildString pmBase (base32 p)) d with
  | inr _ => d
  | inl keys => foldl (λ d k, (ds_Delete k d).1) d keys
  end.

Context {dsl : DatastoreLaws} {gobl : GobLaws Any}.

(** Bytes are got as they were put. *)
Lemma metadata_put_get p key b d d' :
  dsPeerMetadata_Put p key (VBytes b) d = (d', None) → dsPeerMetadata_Get p key d' = inl (VBytes b).
Proof.
  unfold dsPeerMetadata_Put, dsPeerMetadata_Get. destruct (gob_bytes b) as (w & -> & Ed).
  intros E%ds_put_get. by rewrite E.
Qed.

Lemma metadata_put_other p key p' key' v d d' :
  dsPeerMetadata_Put p key v d = (d', None) → pm_key p key ≠ pm_key p' key' →
  dsPeerMetadata_Get p' key' d' = dsPeerMetadata_Get p' key' d.
Proof.
  unfold dsPeerMetadata_Put, dsPeerMetadata_Get. destruct (gob_Encode v) as [w|e]; [|done].
  intros E Hne. by rewrite (ds_put_other _ _ _ _ _ E Hne).
Qed.
End Metadata.

(** A gob for the witnesses. *)
Module ToyGob.
#[export] Instance gob : Gob unit := {|
  gob_Encode := λ v, match v with VBytes b => inl (x00 :: b) | VSliceBytes b => inl (x01 :: b) | VOther _ => inl [x02]
                     | VProtocols m => inl (x03 :: Toy.of_pos (encode m)) end;
  gob_Decode := λ w, match w with
    | x00 :: b => inl (VBytes b) | x01 :: b => inl (VSliceBytes b) | [x02] => inl (VOther tt)
    | x03 :: b => match decode (Toy.to_pos b) with Some m => inl (VProtocols m) | None => inr (Errorf "gob" []) end
    | _ => inr (Errorf "gob" []) end;
|}.
#[export] Instance gob_laws : GobLaws unit.
Proof.
  split; [intros b; by exists (x00 :: b)|]. intros m. eexists. split; [done|]. cbn. by rewrite Toy.to_of_pos, decode_encode.
Qed.
End ToyGob.
