(* ===== verification/Gossip.v ===== *)
(** * Gossip: a relay's advertisements, and those of the others

    Models [pkg/engine/ads/ads.go], [pkg/engine/peerstore.go], the construction of an
    engine in [pkg/engine/engine.go] and [ProtocolsAvailable] of
    [pkg/engine/transport/listener.go].  Publishing on the gossip topic is libp2p's: it
    succeeds or not ([Publish_error]), and what was published is kept in the state.
    The records of peers are in the metadata book of the datastore. *)

From S2P Require Export Datastore EngineFacts Registry.

Class GossipNet `{Crypto} `{Multiaddrs} `{Peers} := {
  (** the base32 form of an identifier *)
  id_base32 : PeerID → bytes;
  (** [topic.Publish], after what was published before *)
  Publish_error : list bytes → bytes → option error;
}.

Section Gossip.
Context {cr : Crypto} {ma : Multiaddrs} {pe : Peers} {tp : Transports} {env : Env}.
Context {ds : Datastore} {gn : GossipNet} {User IntroHook Any : Type} {gob : Gob Any}.

(** ** Ads through the interface [cert.Act] *)

Definition on_type {B} (f : ∀ A, AdType A → A → B) (a : Act) : B :=
  match a with
  | ALoad x => f _ Load.adtype x
  | APeer x => f _ Peer.adtype x
  | AIntro x => f _ Intro.adtype x
  | AServices x => f _ Services.adtype x
  | AAddresses x => f _ (Addresses.adtype defaultPort) x
  end.

Definition Act_Len (a : Act) : Z := on_type (λ _ _ x, ad_len x) a.
Definition Act_Encode (a : Act) : GoM Splice (option error) := on_type (λ _ _ x, Ad_Encode x) a.
Definition Act_Expired (now : Z) (a : Act) : bool := on_type (λ _ _ x, Expired now x) a.
Definition Act_Validate (now : Z) (a : Act) : Out bool := on_type (λ _ _ x, Ad_Validate now x) a.
Definition Act_PubKey (a : Act) : option Pub := on_type (λ _ _ x, PubKey_ x) a.
(** The identifier of a nil key is asked of its bytes. *)
Definition Act_GetID (a : Act) : Out (PeerID + error) :=
  match Act_PubKey a with
  | None => Panic PNil
  | Some k => Ret (match IDFromPublicKey k with Some id => inl id | None => inr (Errorf "IDFromPublicKey" []) end)
  end.

(** ** The ads of a node *)

Definition DefaultAdExpiry : Z := 3600 * 10 ^ 9 * 24 * 7.

Record NodeAds := MkNodeAds {
  na_Peer : option Peer.Ad; na_Address : option Addresses.Ad;
  na_Services : option Services.Ad; na_Load : option Load.Ad }.

(** The interfaces of four pointers, any of which may be nil. *)
Definition GetAsCerts (na : NodeAds) : list (option Act) :=
  [AAddresses <$> na_Address na; ALoad <$> na_Load na; APeer <$> na_Peer na; AServices <$> na_Services na].

Definition GetMultiaddrs (n : Node) : list (option Multiaddr) :=
  (λ aa, AddKeyToMultiaddr aa (id_Pub (Identity n))) <$> Node.Addresses n.

Definition GetServices (n : Node) : list Services.Service :=
  (λ s, Services.MkService (svc_Port s) (svc_RelayRate s)) <$> Node.Services n.

(** The times are those of the two calls of [time.Now], the identifiers those of the
    four of [nonce.NewID]. *)
Definition GenerateAds (now now' : Z) (id : nat → ID) (n : Node) (ld : byte) : NodeAds :=
  let expiry := now + DefaultAdExpiry in
  let s := GetServices n in
  let ma := GetMultiaddrs n in
  let base i e := Ads.MkAd (id i) (Some (id_Pub (Identity n))) e (arr_zero 64) in
  MkNodeAds
    (Some (Peer.MkAd (base 0%nat expiry) (Node.RelayRate n)))
    (Some (Addresses.MkAd (base 1%nat expiry) ma))
    (Some (Services.MkAd (base 2%nat expiry) s))
    (Some (Load.MkAd (base 3%nat (now' + 60 * 10 ^ 9 * 10)) ld)).

Definition ErrNilNodeAds : error := Errorf "cannot process nil NodeAds" [].

(** The node has no mutex.  [None] is a node with a nil address among its addresses,
    which [Node] has no room for. *)
Definition NodeFromAds (id : ID) (a : option NodeAds) : Out (option Node + error) :=
  match a with
  | Some (MkNodeAds (Some p) (Some ad) (Some s) (Some l)) =>
      let svcs := (λ v, MkServiceR (Services.Port v) (Services.RelayRate v) None) <$> Services.Services s in
      match ad_Key (Addresses.base ad) with
      | None => Panic PNil
      | Some k =>
          Ret (inl (addrs ← mapM Datatypes.id (Addresses.Addresses ad);
               Some (MkNode id None addrs (MkIdentity k (SerializeCompressed k) None)
                       (Peer.RelayRate p) svcs (Load.Load l) None)))
      end
  | _ => Ret (inr ErrNilNodeAds)
  end.

(** ** The engine with its gossip *)

Record Ng := MkNg {
  ng_Engine : Engine (User := User) (IntroHook := IntroHook);
  ng_HostID : PeerID;
  ng_NodeAds : NodeAds;
  ng_published : list bytes;
  ng_DS : DS;
}.
Definition with_Engine e (ng : Ng) := MkNg e (ng_HostID ng) (ng_NodeAds ng) (ng_published ng) (ng_DS ng).
Definition with_NodeAds a (ng : Ng) := MkNg (ng_Engine ng) (ng_HostID ng) a (ng_published ng) (ng_DS ng).
Definition with_published l (ng : Ng) := MkNg (ng_Engine ng) (ng_HostID ng) (ng_NodeAds ng) l (ng_DS ng).
Definition with_DS d (ng : Ng) := MkNg (ng_Engine ng) (ng_HostID ng) (ng_NodeAds ng) (ng_published ng) d.

Definition on_Mgr {A} (m : GoM Manager A) : GoM Ng A := λ ng,
  r ← mgr m (ng_Engine ng); Ret (r.1, with_Engine r.2 ng).

(** [LogEntry] names the local node. *)
Definition LogEntry : GoM Ng unit := on_Mgr (l ← GetLocalNode; _ ← node_at l; mret tt).

Definition SendAd (a : bytes) : GoM Ng (option error) := λ ng,
  match Publish_error (ng_published ng) a with
  | Some e => Ret (Some e, ng)
  | None => Ret (None, with_published (ng_published ng ++ [a]) ng)
  end.

Definition deref_ad (v : option Act) : Out Act := match v with Some a => Ret a | None => Panic PNil end.

(** An encoder's error ends [SendAds] without one. *)
Fixpoint send_certs (l : list (option Act)) : GoM Ng (option error) :=
  match l with
  | [] => mret None
  | v :: l =>
      a ← lift (deref_ad v);
      r ← lift (Act_Encode a (New (Z.to_nat (Act_Len a))));
      match r.1 with
      | Some _ => mret None
      | None => e ← SendAd (GetAll r.2); match e with Some e => mret (Some e) | None => send_certs l end
      end
  end.
Definition SendAds : GoM Ng (option error) := ng ← get; send_certs (GetAsCerts (ng_NodeAds ng)).

(** A round of [gossip]: the ads that have expired are published; whether to go on.
    [clock] tells the time at each of the checks. *)
Fixpoint publish_expired (clock : nat → Z) (i : nat) (l : list (option Act)) : GoM Ng bool :=
  match l with
  | [] => mret true
  | v :: l =>
      a ← lift (deref_ad v);
      if negb (Act_Expired (clock i) a) then publish_expired clock (S i) l
      else
        r ← lift (Act_Encode a (New (Z.to_nat (Act_Len a))));
        e ← SendAd (GetAll r.2);
        match e with Some _ => mret false | None => publish_expired clock (S i) l end
  end.

Fixpoint gossip_ticks (clocks : list (nat → Z)) : GoM Ng unit :=
  match clocks with
  | [] => mret tt
  | clock :: clocks =>
      LogEntry ;;
      ng ← get;
      go ← publish_expired clock 0 (GetAsCerts (ng_NodeAds ng));
      if go : bool then gossip_ticks clocks else mret tt
  end.
(** [gossip] up to the shutdown: everything at once, then a round a tick. *)
Definition gossip (clocks : list (nat → Z)) : GoM Ng unit := SendAds ;; gossip_ticks clocks.

(** ** Receiving *)

Definition ErrWrongTypeDecode : error := Errorf "magic '%s' but type is '%s'" [].

Definition Put (id : PeerID) (key : bytes) (v : Value Any) : GoM Ng (option error) := λ ng,
  let '(d, e) := dsPeerMetadata_Put id_base32 id key v (ng_DS ng) in Ret (e, with_DS d ng).
Definition Get (id : PeerID) (key : bytes) : GoM Ng (Value Any + error) := λ ng,
  Ret (dsPeerMetadata_Get id_base32 id key (ng_DS ng), ng).

(** The message behind its magic, by the type registered for it. *)
Definition recognise_decode (data : bytes) : Out ((Codec * option error + error) * Splice) :=
  r ← Recognise the_registry (NewFrom data);
  match r.1 with
  | None => Ret (inr (Errorf "ad not recognised" []), r.2)
  | Some c => d ← Codec_Decode c r.2; Ret (inl d.1, d.2)
  end.

Definition HandleAd (now : Z) (from : PeerID) (data : bytes) : GoM Ng (option error) :=
  if bool_decide (zlen data < 1) then mret None
  else
    ng ← get;
    if decide (from = ng_HostID ng) then mret None
    else
      r ← lift (recognise_decode data);
      match r.1 with
      | inr e => mret (Some e)
      | inl (_, Some e) => mret (Some e)
      | inl (CAct a, None) =>
          id ← lift (Act_GetID a);
          match id with
          | inr e => mret (Some e)
          | inl id =>
              v ← lift (Act_Validate now a);
              if negb v then mret (Some (Errorf "ad failed validation" []))
              else
                magic ← lift (goslice (GetAll r.2) 0 MagicLen);
                LogEntry ;;
                _ ← lift (goslice (GetAll r.2) 0 MagicLen);
                Put id magic (VBytes (GetAll r.2))
          end
      | inl (_, None) => mret (Some ErrWrongTypeDecode)
      end.

(** The record's dynamic type must be [slice.Bytes]. *)
Definition GetPeerRecord (id : PeerID) (key : bytes) : GoM Ng (option Act * option error) :=
  a ← Get id key;
  match a with
  | inr e => mret (None, Some e)
  | inl (VSliceBytes adb) =>
      r ← lift (recognise_decode adb);
      match r.1 with
      | inr _ => mret (None, Some (Errorf "%s peer record not recognised" []))
      | inl (_, Some e) => mret (None, Some e)
      | inl (CAct a, None) => mret (Some a, None)
      | inl (_, None) => mret (None, Some (Errorf "%s peer record did not decode as Act" []))
      end
  | inl _ => mret (None, Some (Errorf "peer record did not decode slice.Bytes" []))
  end.

Definition ClearPeerRecord (id : PeerID) (key : bytes) : GoM Ng (option error) :=
  a ← Get id key;
  match a with
  | inr e => mret (Some e)
  | inl _ => Put id key (VBytes [])
  end.

(** ** A new engine *)

(** The protocols are intersected with nothing. *)
Definition ProtocolsAvailable (addrs : option (list Multiaddr)) : Z :=
  match addrs with
  | None => Z.lor IP4 IP6
  | Some l =>
      foldl (λ p v,
        let p := if has_protocol v P_IP4 then Z.land p IP4 else p in
        if has_protocol v P_IP4 then Z.land p IP6 else p) 0 l
  end.

Record Params := MkParams {
  p_Transport : option Transport; p_Keys : IdentityKeys; p_Node : loc; p_Nodes : list loc;
  p_NReturnSessions : Z; p_HostID : PeerID; p_HostAddrs : list Multiaddr }.

(** What a new engine is given from outside: its key set, the outcome of setting up
    the topic, the clock, and identifiers and keys. *)
Record Start := MkStart {
  st_KeySet : KeySet + error; st_Gossip : option error; st_now : Z; st_now' : Z;
  st_ID : nat → ID; st_Session : nat → ID * Keys * Keys }.

(** The loop that signs the ads, over its four elements. *)
Definition sign_with {A} {H : AdType A} (x : option A) : GoM Ng (option A) :=
  prv ← on_Mgr GetLocalNodeIdentityPrv;
  match x, prv with
  | Some x, Some prv => x ← lift (Ad_Sign prv x); mret (Some x)
  | _, _ => panicM PNil
  end.
Definition sign_ads : GoM Ng unit :=
  ng ← get; let na := ng_NodeAds ng in
  a ← sign_with (H := Addresses.adtype defaultPort) (na_Address na);
  l ← sign_with (H := Load.adtype) (na_Load na);
  p ← sign_with (H := Peer.adtype) (na_Peer na);
  s ← sign_with (H := Services.adtype) (na_Services na);
  ng ← get; set (with_NodeAds (MkNodeAds p a s l) ng).

Fixpoint return_sessions (st : Start) (node : loc) (i n : nat) : GoM Ng unit :=
  match n with
  | O => mret tt
  | S n =>
      let '(id, hdr, pld) := st_Session st i in
      on_Mgr (l ← new_data (NewSessionData id node 0 hdr pld 5); AddSession l) ;;
      return_sessions st node (S i) n
  end.

Definition set_NodeAds (na : NodeAds) : GoM Ng unit := λ ng, Ret (tt, with_NodeAds na ng).

(** From the topic on: an error of [SendAds] ends the construction without one. *)
Definition New_start (p : Params) (st : Start) (n : Node) : GoM Ng (option error) :=
  on_Mgr (AddNodes (p_Node p :: p_Nodes p)) ;;
  match st_Gossip st with
  | Some e => mret (Some e)
  | None =>
      LogEntry ;;
      set_NodeAds (GenerateAds (st_now st) (st_now' st) (st_ID st) n (z2b 25)) ;;
      sign_ads ;;
      e ← SendAds;
      match e with
      | Some _ => mret None
      | None => return_sessions st (p_Node p) 0 (Z.to_nat (p_NReturnSessions p)) ;; mret None
      end
  end.

Definition with_Identity (k : IdentityKeys) (n : Node) : Node :=
  MkNode (n_ID n) (n_Mutex n) (Node.Addresses n) k (Node.RelayRate n) (Node.Services n) (n_Load n) (n_Transport n).

(** [New] over the nodes of a heap; no engine when the key set cannot be made. *)
Definition New_ (p : Params) (st : Start) (h : gmap loc Node) (d : DS) : Out (option Ng * option error) :=
  match h !! p_Node p with
  | None => Panic PNil
  | Some n =>
      let n := with_Identity (p_Keys p) (with_Transport (p_Transport p) n) in
      match st_KeySet st with
      | inr e => Ret (None, Some e)
      | inl ks =>
          let n := with_Addresses (Node.Addresses n ++ p_HostAddrs p) n in
          let m := NewSessionManager (ProtocolsAvailable (Some (p_HostAddrs p))) (<[p_Node p := n]> h) (p_Node p) in
          let ng := MkNg (MkEngine m (MkPending false []) NewHiddenRouting 0 ks 0) (p_HostID p)
                      (MkNodeAds None None None None) [] d in
          r ← New_start p st n ng; Ret (Some r.2, r.1)
      end
  end.
End Gossip.
