(* ===== verification/GossipFacts.v ===== *)
(** * How ads travel

    Each type of ad keeps the promises of [AdWire]; here they are put together for the
    interface [cert.Act]: the message of an ad is recognised and decoded at every
    engine, and what [HandleAd] does with it depends on its signature and expiry only. *)

From S2P Require Export Gossip.

Section Facts.
Context {cr : Crypto} {crl : CryptoLaws} {ma : Multiaddrs} {mal : MultiaddrLaws} {pe : Peers} {tp : Transports} {env : Env}.
Context {ds : Datastore} {gn : GossipNet} {User IntroHook Any : Type} {gob : Gob Any}.

(** ** The message of an ad *)

Definition act_ok (a : Act) : Prop :=
  match a with
  | ALoad x => LoadWire.ok x
  | APeer x => PeerWire.ok x
  | AIntro x => IntroWire.ok x
  | AServices x => ServicesWire.ok x
  | AAddresses x => AddressesWire.ok defaultPort x
  end.

Definition act_received (a : Act) : Act :=
  match a with
  | ALoad x => ALoad (LoadWire.received x)
  | APeer x => APeer (PeerWire.received x)
  | AIntro x => AIntro (IntroWire.received x)
  | AServices x => AServices (ServicesWire.received x)
  | AAddresses x => AAddresses (AddressesWire.received defaultPort x)
  end.

Definition act_magic (a : Act) : bytes := string_bytes
  match a with
  | ALoad _ => Load.Magic_
  | APeer _ => Peer.Magic_
  | AIntro _ => Intro.Magic_
  | AServices _ => Services.Magic_
  | AAddresses _ => Addresses.Magic_
  end.

Definition act_base (a : Act) : Ads.Ad := on_type (λ _ _ x, ad_base x) a.
Definition act_encoded (a : Act) : Out bytes := r ← Act_Encode a (New (Z.to_nat (Act_Len a))); Ret (GetAll r.2).

(** A message that is recognised as the ad [a] and holds its own bytes. *)
Definition carries (msg : bytes) (a : Act) : Prop :=
  4 ≤ zlen msg ∧ take 4 msg = act_magic a ∧
  ∃ sp, recognise_decode msg = Ret (inl (CAct (act_received a), None), sp) ∧ GetAll sp = msg.

Lemma message_of {A} {T : AdType A} {magic fields ok decode received}
    {W : AdWire A magic ok fields decode received} (x : A) m gen (inj : A → Act) :
  ok x → magic x = string_bytes m → (m, gen) ∈ registered →
  Codec_Decode gen = on_act inj (decode (magic x)) →
  act_magic (inj x) = string_bytes m → act_received (inj x) = inj (received x) →
  ∃ msg, encoded x = Ret msg ∧ carries msg (inj x).
Proof.
  intros Hok Hm Hr HD Em Er. destruct (encoded_at x Hok) as (msg & E & AC). exists msg. split; [done|].
  pose proof (wire_magic x) as Hl. rewrite Hm in Hl, AC, HD. set (body := fields x ++ _) in AC.
  assert (zlen (string_bytes m ++ body) ≤ zlen msg) as Hlen by (destruct AC as (_ & H & _); exact H).
  assert (4 ≤ zlen (string_bytes m ++ body)) as H4.
  { pose proof (zlen_nonneg body). rewrite zlen_app. unfold zlen at 1. rewrite Hl. lia. }
  apply at_cursor_app in AC as [AC1 AC2].
  assert (Reads (Recognise the_registry) (string_bytes m) (Some gen)) as R1 by (by apply reads_Recognise).
  destruct (R1 _ AC1 eq_refl) as (s1 & E1 & B1 & C1 & F1).
  assert (at_cursor s1 body) as AC3 by (unfold at_cursor, Len; by rewrite B1, C1).
  pose proof (wire_reads x Hok) as R2. rewrite Hm in R2. destruct (R2 _ AC3 F1) as (s2 & E2 & B2 & _).
  split; [lia|]. split.
  - destruct AC1 as (_ & _ & HB). cbn in HB. rewrite drop_0, Hl in HB. by rewrite HB, Em.
  - exists s2. split; [|unfold GetAll; by rewrite B2, B1].
    unfold recognise_decode. rewrite E1. cbn [mbind Out_bind fst snd]. rewrite HD. unfold on_act.
    by rewrite (bind_run _ _ _ _ _ E2), Er.
Qed.

Lemma act_message a : act_ok a → ∃ msg, act_encoded a = Ret msg ∧ carries msg a.
Proof.
  destruct a as [x|x|x|x|x]; intros Hok; cbn in Hok.
  - apply (message_of (W := LoadWire.wire) x Load.Magic_ (CAct (ALoad Load.Gen)) ALoad); try done. by do 1 right; left.
  - apply (message_of (W := PeerWire.wire) x Peer.Magic_ (CAct (APeer Peer.Gen)) APeer); try done. by do 2 right; left.
  - apply (message_of (W := IntroWire.wire) x Intro.Magic_ (CAct (AIntro Intro.Gen)) AIntro); try done. by do 3 right; left.
  - apply (message_of (W := ServicesWire.wire) x Services.Magic_ (CAct (AServices Services.Gen)) AServices); try done. by left.
  - apply (message_of (W := AddressesWire.wire defaultPort) x Addresses.Magic_ (CAct (AAddresses Addresses.Gen)) AAddresses);
      try done. by do 4 right; left.
Qed.

(** Its key and, once its expiry has passed, its validity. *)
Lemma act_received_key a : Act_PubKey (act_received a) = ad_Key (act_base a).
Proof. by destruct a. Qed.

Lemma act_key a : act_ok a → is_Some (ad_Key (act_base a)).
Proof.
  destruct a as [x|x|x|x|x]; intros Hok;
    [apply (layout_key (AdLayout := wire_layout (AdWire := LoadWire.wire)) x Hok)
    |apply (layout_key (AdLayout := wire_layout (AdWire := PeerWire.wire)) x Hok)
    |apply (layout_key (AdLayout := wire_layout (AdWire := IntroWire.wire)) x Hok)
    |apply (layout_key (AdLayout := wire_layout (AdWire := ServicesWire.wire)) x Hok)
    |apply (layout_key (AdLayout := wire_layout (AdWire := AddressesWire.wire defaultPort)) x Hok)].
Qed.

Lemma act_validate now a : act_ok a → ∃ b,
  Act_Validate now (act_received a) = Ret (b && bool_decide (now < wire_time (ad_Expiry (act_base a)))).
Proof.
  destruct a as [x|x|x|x|x]; intros Hok;
    [destruct (Validate_received (W := LoadWire.wire) now x Hok) as (b & E & _)
    |destruct (Validate_received (W := PeerWire.wire) now x Hok) as (b & E & _)
    |destruct (Validate_received (W := IntroWire.wire) now x Hok) as (b & E & _)
    |destruct (Validate_received (W := ServicesWire.wire) now x Hok) as (b & E & _)
    |destruct (Validate_received (W := AddressesWire.wire defaultPort) now x Hok) as (b & E & _)];
    by exists b.
Qed.

Lemma wire_time_le t : - 2 ^ 63 ≤ Unix t < 2 ^ 63 → wire_time t ≤ t.
Proof.
  intros H. unfold wire_time, UnixTime. rewrite wraps_small by (cbn; lia). unfold Unix.
  pose proof (Z.mul_div_le t (10 ^ 9) ltac:(lia)). lia.
Qed.

(** ** What [HandleAd] does with it *)

Definition local_ok (ng : Ng (User := User) (IntroHook := IntroHook)) : Prop := ∃ l n,
  goindex (nodes (e_Mgr (ng_Engine ng))) 0 = Ret l ∧ nodeAt (e_Mgr (ng_Engine ng)) !! l = Some n.

Lemma on_Mgr_run {A} (m : GoM Manager A) (ng : Ng (User := User) (IntroHook := IntroHook)) a s :
  m (e_Mgr (ng_Engine ng)) = Ret (a, s) → on_Mgr m ng = Ret (a, with_Engine (with_Mgr s (ng_Engine ng)) ng).
Proof. intros E. unfold on_Mgr, mgr. by rewrite E. Qed.

Lemma on_Mgr_read {A} (m : GoM Manager A) (ng : Ng (User := User) (IntroHook := IntroHook)) a :
  m (e_Mgr (ng_Engine ng)) = Ret (a, e_Mgr (ng_Engine ng)) → on_Mgr m ng = Ret (a, ng).
Proof. intros E. rewrite (on_Mgr_run _ _ _ _ E). by destruct ng as [[]]. Qed.

Lemma LogEntry_run ng : local_ok ng → LogEntry ng = Ret (tt, ng).
Proof.
  intros (l & n & El & En). apply on_Mgr_read. rewrite (bind_run _ _ _ _ _ (GetLocalNode_run _ l El)).
  unfold mbind, GoM_bind, node_at. by rewrite En.
Qed.

Definition BadAd : error := Errorf "ad failed validation" [].

Lemma HandleAd_run now from msg a id ng v :
  carries msg a → from ≠ ng_HostID ng → local_ok ng →
  Act_GetID (act_received a) = Ret (inl id) → Act_Validate now (act_received a) = Ret v →
  HandleAd now from msg ng = if v : bool then Put id (act_magic a) (VBytes msg) ng else Ret (Some BadAd, ng).
Proof.
  intros (H4 & HT & sp & ER & EG) Hf HL EI EV. unfold HandleAd. rewrite bool_decide_false by lia.
  change ((get ≫= ?f) ng) with (f ng ng). cbn beta. rewrite decide_False by done.
  rewrite (bind_run _ _ _ _ _ (lift_run _ _ ng ER)). cbn match. cbn [fst snd].
  rewrite (bind_run _ _ _ _ _ (lift_run _ _ ng EI)). cbn match.
  rewrite (bind_run _ _ _ _ _ (lift_run _ _ ng EV)). destruct v; cbn [negb]; [|done].
  assert (goslice (GetAll sp) 0 MagicLen = Ret (act_magic a)) as EM.
  { rewrite EG, <- HT. change MagicLen with 4. rewrite goslice_in by lia. cbn. by rewrite drop_0. }
  rewrite (bind_run _ _ _ _ _ (lift_run _ _ ng EM)), (bind_run _ _ _ _ _ (LogEntry_run ng HL)).
  rewrite (bind_run _ _ _ _ _ (lift_run _ _ ng EM)). by rewrite EG.
Qed.

(** ** Signing and sending *)

Definition Act_Sign (prv : Prv) (a : Act) : Out Act :=
  match a with
  | ALoad x => x ← Ad_Sign (H := Load.adtype) prv x; Ret (ALoad x)
  | APeer x => x ← Ad_Sign (H := Peer.adtype) prv x; Ret (APeer x)
  | AIntro x => x ← Ad_Sign (H := Intro.adtype) prv x; Ret (AIntro x)
  | AServices x => x ← Ad_Sign (H := Services.adtype) prv x; Ret (AServices x)
  | AAddresses x => x ← Ad_Sign (H := Addresses.adtype defaultPort) prv x; Ret (AAddresses x)
  end.

Lemma Ad_Sign_content {A} {T : AdType A} prv (x x' : A) :
  Ad_Sign prv x = Ret x' → ∃ sg, x' = set_base (with_Sig sg (ad_base x)) x.
Proof.
  unfold Ad_Sign. destruct (signed_bytes x); [|done]. cbn. destruct (Prv_Sign _ _) as [sg|]; [|done].
  intros [= <-]. by exists sg.
Qed.

(** A signed ad is an ad, and valid at every receiver until its expiry. *)
Record signed_ad (prv : Prv) (a a' : Act) : Prop := {
  sa_ok : act_ok a';
  sa_magic : act_magic a' = act_magic a;
  sa_key : ad_Key (act_base a') = Some (PubKey prv);
  sa_valid now : Act_Validate now (act_received a') = Ret (bool_decide (now < wire_time (ad_Expiry (act_base a))));
}.

Lemma sign_generic {A} {T : AdType A} {magic fields ok decode received}
    {W : AdWire A magic ok fields decode received} prv (x x' : A) (inj : A → Act) :
  ok x → ad_Key (ad_base x) = Some (PubKey prv) → Ad_Sign prv x = Ret x' →
  (∀ y, act_ok (inj y) = ok y) → (∀ y, act_magic (inj y) = act_magic (inj x)) → (∀ y, act_base (inj y) = ad_base y) →
  (∀ now y, Act_Validate now (act_received (inj y)) = Ad_Validate now (received y)) →
  signed_ad prv (inj x) (inj x').
Proof.
  intros Hok Hk HS E1 E2 E3 E4. destruct (Sign_base prv x x' Hok HS) as (sg & _ & _ & Hok' & Hb & _).
  split; [by rewrite E1|apply E2|by rewrite E3, Hb|]. intros now. rewrite E4, E3.
  by apply (Validate_signed prv now x x').
Qed.

Lemma act_signed prv a a' : act_ok a → ad_Key (act_base a) = Some (PubKey prv) → Act_Sign prv a = Ret a' →
  signed_ad prv a a'.
Proof.
  destruct a as [x|x|x|x|x]; intros Hok Hk HS; cbn [Act_Sign] in HS;
    (destruct (Ad_Sign prv x) as [x'|] eqn:E; [|done]); injection HS as <-.
  - by apply (sign_generic (W := LoadWire.wire)).
  - by apply (sign_generic (W := PeerWire.wire)).
  - by apply (sign_generic (W := IntroWire.wire)).
  - by apply (sign_generic (W := ServicesWire.wire)).
  - by apply (sign_generic (W := AddressesWire.wire defaultPort)).
Qed.

Lemma Act_Encode_none a s : after (Act_Encode a) s (λ e _, e = None).
Proof. destruct a; cbn; repeat (apply after_bind; intros ? ? _); by apply after_mret. Qed.

Lemma send_certs_run l msgs (ng : Ng (User := User) (IntroHook := IntroHook)) :
  (∀ sent b, Publish_error sent b = None) →
  Forall2 (λ v m, ∃ a, v = Some a ∧ act_encoded a = Ret m) l msgs →
  send_certs l ng = Ret (None, with_published (ng_published ng ++ msgs) ng).
Proof.
  intros HP HF. revert ng. induction HF as [|v m l msgs (a & -> & E) _ IH]; intros ng.
  { cbn. rewrite app_nil_r. by destruct ng. }
  cbn [send_certs]. rewrite (bind_run _ _ ng a ng) by done. cbn beta.
  unfold act_encoded in E. destruct (Act_Encode a _) as [[e sp]|] eqn:EE; [|done]. injection E as <-.
  pose proof (Act_Encode_none _ _ _ _ EE) as He. cbn in He. subst e.
  rewrite (bind_run _ _ ng (None, sp) ng) by done. cbn [fst snd].
  erewrite bind_run by (unfold SendAd; by rewrite HP). rewrite IH. cbn. by rewrite <- app_assoc.
Qed.

(** The local node signs for itself. *)
Definition self (prv : Prv) (ng : Ng (User := User) (IntroHook := IntroHook)) : Prop :=
  sm_locked (e_Mgr (ng_Engine ng)) = false ∧ ∃ l n,
  goindex (nodes (e_Mgr (ng_Engine ng))) 0 = Ret l ∧ nodeAt (e_Mgr (ng_Engine ng)) !! l = Some n ∧
  id_Prv (Identity n) = Some prv.

Lemma sign_with_run {A} {T : AdType A} prv (x : A) ng : self prv ng →
  sign_with (Some x) ng = (x' ← Ad_Sign prv x; Ret (Some x', ng)).
Proof.
  intros (HL & l & n & El & En & Hp). unfold sign_with.
  assert (on_Mgr GetLocalNodeIdentityPrv ng = Ret (Some prv, ng)) as E.
  { apply on_Mgr_read. unfold GetLocalNodeIdentityPrv. apply locked_read; [done|].
    rewrite (bind_run _ _ _ _ _ (GetLocalNode_run (with_locked true (e_Mgr (ng_Engine ng))) l El)).
    unfold mbind, GoM_bind, node_at. cbn. rewrite En. cbn.
    by rewrite Hp. }
  rewrite (bind_run _ _ _ _ _ E). unfold mbind, GoM_bind, Out_bind, lift. by destruct (Ad_Sign prv x).
Qed.

(** A key that signs everything signs every ad. *)
Definition signs (prv : Prv) : Prop := ∀ h, is_Some (SchnorrSign prv h).

Lemma Ad_Sign_total {A} {T : AdType A} {magic fields ok decode received}
    {W : AdWire A magic ok fields decode received} prv (x : A) : signs prv → ok x → ∃ x', Ad_Sign prv x = Ret x'.
Proof.
  intros HS Hok. unfold Ad_Sign. rewrite (signed_bytes_body (L := wire_layout) x Hok). cbn [mbind Out_bind].
  unfold Prv_Sign. destruct (HS (Single (magic x ++ fields x))) as [sg ->]. by eexists.
Qed.

Lemma sign_ads_total prv p a s l ng : signs prv → self prv ng →
  ng_NodeAds ng = MkNodeAds (Some p) (Some a) (Some s) (Some l) →
  act_ok (APeer p) → act_ok (AAddresses a) → act_ok (AServices s) → act_ok (ALoad l) →
  ∃ na, sign_ads ng = Ret (tt, with_NodeAds na ng).
Proof.
  intros HS HF EN Hp Ha Hs Hl. unfold sign_ads. change ((get ≫= ?f) ng) with (f ng ng). cbv beta zeta. rewrite EN.
  cbn [na_Peer na_Address na_Services na_Load].
  destruct (Ad_Sign_total (W := AddressesWire.wire defaultPort) prv a HS Ha) as [a' Ea].
  destruct (Ad_Sign_total (W := LoadWire.wire) prv l HS Hl) as [l' El].
  destruct (Ad_Sign_total (W := PeerWire.wire) prv p HS Hp) as [p' Ep].
  destruct (Ad_Sign_total (W := ServicesWire.wire) prv s HS Hs) as [s' Es].
  rewrite (bind_run _ _ ng (Some a') ng) by (rewrite (sign_with_run prv a ng HF); by rewrite Ea).
  rewrite (bind_run _ _ ng (Some l') ng) by (rewrite (sign_with_run prv l ng HF); by rewrite El).
  rewrite (bind_run _ _ ng (Some p') ng) by (rewrite (sign_with_run prv p ng HF); by rewrite Ep).
  rewrite (bind_run _ _ ng (Some s') ng) by (rewrite (sign_with_run prv s ng HF); by rewrite Es).
  by eexists.
Qed.
End Facts.
