(* ===== verification/GossipProps.v ===== *)
(** * Properties of gossip *)

From S2P Require Export GossipFacts Robust.

Section Properties.
Context {cr : Crypto} {crl : CryptoLaws} {ma : Multiaddrs} {mal : MultiaddrLaws} {pe : Peers} {tp : Transports} {env : Env}.
Context {ds : Datastore} {dsl : DatastoreLaws} {gn : GossipNet} {User IntroHook Any : Type} {gob : Gob Any} {gobl : GobLaws Any}.
#[local] Abbreviation Ng := (Ng (User := User) (IntroHook := IntroHook)).

(** The store takes what it is given, and tells the kinds of ads of a peer apart. *)
Definition puts_succeed : Prop := ∀ k v d, (ds_Put k v d).2 = None.
Definition keys_distinct (pid : PeerID) : Prop := ∀ k k', length k = 4%nat → length k' = 4%nat → k ≠ k' →
  pm_key id_base32 pid k ≠ pm_key id_base32 pid k'.

Definition on_file (ng : Ng) (pid : PeerID) (key : bytes) : Value Any + error :=
  dsPeerMetadata_Get id_base32 pid key (ng_DS ng).

Lemma Put_bytes (ng : Ng) pid key b : puts_succeed → ∃ ng', Put pid key (VBytes b) ng = Ret (None, ng') ∧
  on_file ng' pid key = inl (VBytes b) ∧ ng_Engine ng' = ng_Engine ng ∧ ng_HostID ng' = ng_HostID ng ∧
  ∀ key', pm_key id_base32 pid key ≠ pm_key id_base32 pid key' → on_file ng' pid key' = on_file ng pid key'.
Proof.
  intros HP. unfold Put. destruct (dsPeerMetadata_Put id_base32 pid key (VBytes b) (ng_DS ng)) as [d e] eqn:E.
  assert (e = None) as ->.
  { unfold dsPeerMetadata_Put in E. destruct (gob_bytes b) as (w & Ew & _). rewrite Ew in E.
    rewrite <- (HP (pm_key id_base32 pid key) w (ng_DS ng)). by rewrite E. }
  eexists. split; [done|]. split; [by apply (metadata_put_get _ _ _ _ _ _ E)|]. split; [done|]. split; [done|].
  intros key' Hne. by apply (metadata_put_other _ _ _ _ _ _ _ _ E).
Qed.

(** Messages of valid ads of one peer, one of each kind, are all put on file. *)
Lemma handle_all_stores t from pid (l : list (Act * bytes)) (ng : Ng) :
  puts_succeed → keys_distinct pid → from ≠ ng_HostID ng → local_ok ng →
  Forall (λ am, carries am.2 am.1 ∧ Act_GetID (act_received am.1) = Ret (inl pid) ∧
    Act_Validate t (act_received am.1) = Ret true) l → NoDup (act_magic ∘ fst <$> l) →
  ∃ ng', mapM (HandleAd t from) l.*2 ng = Ret (replicate (length l) None, ng') ∧
    (∀ a msg, (a, msg) ∈ l → on_file ng' pid (act_magic a) = inl (VBytes msg)) ∧
    (∀ key, length key = 4%nat → key ∉ act_magic ∘ fst <$> l → on_file ng' pid key = on_file ng pid key).
Proof.
  intros HP HK. assert (∀ a, length (act_magic a) = 4%nat) as Hm by by intros [].
  revert ng; induction l as [|[a msg] l IH]; intros ng Hf HL HF HN.
  { exists ng. split; [done|]. split; [by intros ? ? ?%not_elem_of_nil|done]. }
  apply Forall_cons in HF as [(HC & HI & HV) HF]. rewrite fmap_cons in HN. apply NoDup_cons in HN as [Ha HN].
  destruct (Put_bytes ng pid (act_magic a) msg HP) as (ng1 & E1 & HO & EE & EH & Hother).
  destruct (IH ng1) as (ng2 & E2 & H2 & H2'); try done; [by rewrite EH|by unfold local_ok; rewrite EE|].
  exists ng2. split; [|split].
  - cbn [fmap list_fmap snd mapM]. erewrite bind_run.
    2: { rewrite (HandleAd_run t from msg a pid ng true); done. }
    by rewrite (bind_run _ _ _ _ _ E2).
  - intros a' msg' [[= -> ->]|Hin]%elem_of_cons; [|by apply H2]. rewrite H2'; [done|apply Hm|done].
  - intros key Hkey Hk. rewrite fmap_cons, not_elem_of_cons in Hk. destruct Hk as [Hk1 Hk2].
    rewrite H2' by done. apply Hother. apply HK; [apply Hm|done|]. intros E. by apply Hk1.
Qed.

(** What the ads of a node can carry. *)
Record advertisable (now now' : Z) (n : Node) : Prop := {
  ad_services : zlen (Node.Services n) < 2 ^ 16;
  ad_addresses : zlen (Node.Addresses n) < 2 ^ 16;
  ad_reducible : AddressesWire.reducible defaultPort (GetMultiaddrs n);
  ad_expiry : - 2 ^ 63 ≤ Unix (now + DefaultAdExpiry) < 2 ^ 63;
  ad_expiry' : - 2 ^ 63 ≤ Unix (now' + 60 * 10 ^ 9 * 10) < 2 ^ 63;
}.

Lemma sign_ads_run (ng ng' : Ng) prv p a s l : self prv ng → ng_NodeAds ng = MkNodeAds (Some p) (Some a) (Some s) (Some l) →
  sign_ads ng = Ret (tt, ng') → ∃ p' a' s' l',
    Act_Sign prv (APeer p) = Ret (APeer p') ∧ Act_Sign prv (AAddresses a) = Ret (AAddresses a') ∧
    Act_Sign prv (AServices s) = Ret (AServices s') ∧ Act_Sign prv (ALoad l) = Ret (ALoad l') ∧
    ng' = with_NodeAds (MkNodeAds (Some p') (Some a') (Some s') (Some l')) ng.
Proof.
  intros HS EN E. unfold sign_ads in E. change ((get ≫= ?f) ng) with (f ng ng) in E. cbv beta zeta in E. rewrite EN in E.
  cbn [na_Peer na_Address na_Services na_Load] in E. unfold mbind, GoM_bind in E.
  rewrite (sign_with_run prv a ng HS) in E. cbn [Act_Sign].
  destruct (Ad_Sign (H := Addresses.adtype defaultPort) prv a) as [a'|]; [|done]. cbn in E.
  rewrite (sign_with_run prv l ng HS) in E. destruct (Ad_Sign (H := Load.adtype) prv l) as [l'|]; [|done]. cbn in E.
  rewrite (sign_with_run prv p ng HS) in E. destruct (Ad_Sign (H := Peer.adtype) prv p) as [p'|]; [|done]. cbn in E.
  rewrite (sign_with_run prv s ng HS) in E. destruct (Ad_Sign (H := Services.adtype) prv s) as [s'|]; [|done]. cbn in E.
  injection E as <-. by exists p', a', s', l'.
Qed.

Lemma generated_ok now now' id n ld v : advertisable now now' n →
  v ∈ GetAsCerts (GenerateAds now now' id n ld) →
  ∃ a, v = Some a ∧ act_ok a ∧ ad_Key (act_base a) = Some (id_Pub (Identity n)) ∧
    ad_Expiry (act_base a) ∈ [now + DefaultAdExpiry; now' + 60 * 10 ^ 9 * 10].
Proof.
  intros [H1 H2 H3 H4 H5] Hv. cbn in Hv.
  assert (∀ i e, - 2 ^ 63 ≤ Unix e < 2 ^ 63 → base_ok (Ads.MkAd (id i) (Some (id_Pub (Identity n))) e (arr_zero 64))) as HB
    by (intros i e He; split; [by eexists|done]).
  repeat (apply elem_of_cons in Hv as [->|Hv]); [..|by apply not_elem_of_nil in Hv]; eexists; (split; [reflexivity|]).
  - split; [|split; [reflexivity|left]]. split; [by apply HB|].
    split; [unfold GetMultiaddrs; cbn; unfold zlen in *; by rewrite length_fmap|done].
  - split; [by apply HB|]. split; [reflexivity|right; left].
  - split; [by apply HB|]. split; [reflexivity|left].
  - split; [|split; [reflexivity|left]]. split; [by apply HB|]. cbn. unfold GetServices, zlen in *. by rewrite length_fmap.
Qed.

(** Ads of a peer on file, decoded as they were received. *)
Definition filed (ng : Ng) (pid : PeerID) (na : NodeAds) : Prop := ∀ a, Some a ∈ GetAsCerts na →
  ∃ msg sp, on_file ng pid (act_magic a) = inl (VBytes msg) ∧ recognise_decode msg = Ret (inl (CAct a, None), sp).

(** The four ads signed: what they say is what was generated. *)
Record signed_ads prv now now' id n ld (na : NodeAds) : Prop := {
  sg_ads : ∃ p a s l, na = MkNodeAds (Some p) (Some a) (Some s) (Some l);
  sg_signed v : v ∈ GetAsCerts na → ∃ b, v = Some b ∧
    ∃ a, Some a ∈ GetAsCerts (GenerateAds now now' id n ld) ∧ signed_ad prv a b ∧
      ad_Expiry (act_base a) ∈ [now + DefaultAdExpiry; now' + 60 * 10 ^ 9 * 10];
  sg_Peer p : na_Peer na = Some p → Peer.RelayRate p = Node.RelayRate n;
  sg_Addresses a : na_Address na = Some a → Addresses.Addresses a = GetMultiaddrs n ∧ ad_Key (Addresses.base a) = Some (PubKey prv);
  sg_Services s : na_Services na = Some s → Services.Services s = GetServices n;
  sg_Load l : na_Load na = Some l → Load.Load l = ld;
}.

Lemma signing prv now now' id n ld (A A' : Ng) :
  self prv A → id_Pub (Identity n) = PubKey prv → advertisable now now' n →
  (set_NodeAds (GenerateAds now now' id n ld) ;; sign_ads) A = Ret (tt, A') →
  ∃ na, A' = with_NodeAds na A ∧ signed_ads prv now now' id n ld na.
Proof.
  intros HSelf HKey Hadv E. set (na0 := GenerateAds now now' id n ld) in *.
  rewrite (bind_run _ _ A tt (with_NodeAds na0 A)) in E by done.
  assert (self prv (with_NodeAds na0 A)) as HSelf' by exact HSelf.
  eapply sign_ads_run in E; [|exact HSelf'|reflexivity]. destruct E as (p' & a' & s' & l' & Ep & Ea & Es & El & ->).
  eexists. split; [reflexivity|].
  assert (∀ a b, Some a ∈ GetAsCerts na0 → Act_Sign prv a = Ret b → ∃ c, Some b = Some c ∧
    ∃ a, Some a ∈ GetAsCerts na0 ∧ signed_ad prv a c ∧
      ad_Expiry (act_base a) ∈ [now + DefaultAdExpiry; now' + 60 * 10 ^ 9 * 10]) as HG.
  { intros a b Hin HS. exists b. split; [done|]. exists a. split; [done|].
    destruct (generated_ok now now' id n ld _ Hadv Hin) as (a0 & [= <-] & Hok & Hk & He).
    split; [|done]. apply act_signed; [done|by rewrite Hk, HKey|done]. }
  assert (∀ B (T : AdType B) (x x' : B) (inj : B → Act), (x'' ← Ad_Sign prv x; Ret (inj x'')) = Ret (inj x') →
    (∀ y z, inj y = inj z → y = z) → ∃ sg, x' = set_base (with_Sig sg (ad_base x)) x) as HC.
  { intros B T x x' inj H Hinj. destruct (Ad_Sign prv x) as [y|] eqn:E; [|done]. injection H as H.
    apply Hinj in H as <-. by eapply Ad_Sign_content. }
  constructor; cbn.
  - by eexists _, _, _, _.
  - intros v Hv. repeat (apply elem_of_cons in Hv as [->|Hv]); [..|by apply not_elem_of_nil in Hv].
    + by eapply HG, Ea; left.
    + by eapply HG, El; do 1 right; left.
    + by eapply HG, Ep; do 2 right; left.
    + by eapply HG, Es; do 3 right; left.
  - intros p [= <-]. apply (HC _ Peer.adtype) in Ep as [sg ->]; [done|by intros ?? [=]].
  - intros a [= <-]. apply (HC _ (Addresses.adtype defaultPort)) in Ea as [sg ->]; [cbn; by rewrite HKey|by intros ?? [=]].
  - intros s [= <-]. apply (HC _ Services.adtype) in Es as [sg ->]; [done|by intros ?? [=]].
  - intros l [= <-]. apply (HC _ Load.adtype) in El as [sg ->]; [done|by intros ?? [=]].
Qed.

Lemma signed_node prv now now' id n ld na addrs id' : signed_ads prv now now' id n ld na →
  mapM Datatypes.id (AddressesWire.reduced defaultPort <$> GetMultiaddrs n) = Some addrs →
  ∃ p a s l, na = MkNodeAds (Some p) (Some a) (Some s) (Some l) ∧
  NodeFromAds id' (Some (MkNodeAds (Some (PeerWire.received p)) (Some (AddressesWire.received defaultPort a))
    (Some (ServicesWire.received s)) (Some (LoadWire.received l))))
  = Ret (inl (Some (MkNode id' None addrs
      (MkIdentity (PubKey prv) (SerializeCompressed (PubKey prv)) None) (wrapu 32 (Node.RelayRate n))
      ((λ s, MkServiceR (wrapu 16 (svc_Port s)) (wrapu 32 (svc_RelayRate s)) None) <$> Node.Services n) ld None))).
Proof.
  intros [(p & a & s & l & ->) _ HP HA HS HL] Haddrs. exists p, a, s, l. split; [done|]. cbn in *.
  destruct (HA a eq_refl) as [EA EK]. unfold PeerWire.received, LoadWire.received. cbn.
  rewrite EK, EA, Haddrs, (HP p eq_refl), (HS s eq_refl), (HL l eq_refl). cbn.
  unfold GetServices. do 4 f_equal. rewrite <- !list_fmap_compose. done.
Qed.

(** The messages of signed ads, to one who has not heard of the relay. *)
Lemma ads_received prv pid now now' id n ld na : signed_ads prv now now' id n ld na →
  puts_succeed → keys_distinct pid → IDFromPublicKey (PubKey prv) = Some pid →
  ∃ msgs, Forall2 (λ v m, ∃ a, v = Some a ∧ act_encoded a = Ret m) (GetAsCerts na) msgs ∧
    ∀ t from (B : Ng), from ≠ ng_HostID B → local_ok B →
      t < wire_time (now + DefaultAdExpiry) → t < wire_time (now' + 60 * 10 ^ 9 * 10) →
      ∃ B', mapM (HandleAd t from) msgs B = Ret ([None; None; None; None], B') ∧
        ∀ b, Some b ∈ GetAsCerts na → ∃ msg sp, on_file B' pid (act_magic b) = inl (VBytes msg) ∧
          recognise_decode msg = Ret (inl (CAct (act_received b), None), sp).
Proof.
  intros [(p & a & s & l & ->) HS _ _ _ _] HPut HKeys HID.
  assert (∀ b, Some b ∈ GetAsCerts (MkNodeAds (Some p) (Some a) (Some s) (Some l)) → ∃ msg,
    act_encoded b = Ret msg ∧ carries msg b ∧ Act_GetID (act_received b) = Ret (inl pid) ∧ ∀ t,
    t < wire_time (now + DefaultAdExpiry) → t < wire_time (now' + 60 * 10 ^ 9 * 10) →
    Act_Validate t (act_received b) = Ret true) as HM.
  { intros b Hb. destruct (HS _ Hb) as (? & [= <-] & a0 & _ & [Hok _ Hk Hv] & Hx).
    destruct (act_message b Hok) as (msg & E & C). exists msg. split_and!; try done.
    - unfold Act_GetID. by rewrite act_received_key, Hk, HID.
    - intros t ??. rewrite Hv. f_equal. apply bool_decide_true.
      apply elem_of_cons in Hx as [->| ->%list_elem_of_singleton]; done. }
  destruct (HM (AAddresses a) ltac:(left)) as (ma' & Ea & Ca & Ia & Va).
  destruct (HM (ALoad l) ltac:(do 1 right; left)) as (ml & El & Cl & Il & Vl).
  destruct (HM (APeer p) ltac:(do 2 right; left)) as (mp & Ep & Cp & Ip & Vp).
  destruct (HM (AServices s) ltac:(do 3 right; left)) as (ms & Es & Cs & Is & Vs).
  exists [ma'; ml; mp; ms]. split; [cbn; repeat (constructor; [by eexists|]); constructor|].
  intros t from B Hfrom HL Ht Ht'. set (l0 := [(AAddresses a, ma'); (ALoad l, ml); (APeer p, mp); (AServices s, ms)]).
  destruct (handle_all_stores t from pid l0 B) as (B' & EB & HF & _); try done.
  { repeat (constructor; [cbn [fst snd]; split_and!; auto|]). constructor. }
  { apply (bool_decide_eq_true_1 _). by vm_compute. }
  exists B'. split; [exact EB|]. intros b Hb.
  assert (∃ msg, (b, msg) ∈ l0 ∧ carries msg b) as (msg & Hin & _ & _ & sp & ER & _).
  { cbn in Hb. repeat (apply elem_of_cons in Hb as [[= ->]|Hb]); [..|by apply not_elem_of_nil in Hb];
      (eexists; split; [|eassumption]; unfold l0; rewrite !elem_of_cons; tauto). }
  exists msg, sp. by rewrite (HF b msg Hin).
Qed.

(** C16: A relay gets known: the four ads it makes of itself, signs and sends are accepted by
    every other engine until the first of them expires and put on file under its
    identifier, and the node that [NodeFromAds] makes of them has the relay's key, its
    addresses reduced to network address and port, its rate, services and load, but no
    mutex, so that none of its methods that lock it can be called. *)
Theorem ads_reach_peers prv pid n now now' id ld addrs (A A' : Ng) :
  (∀ sent b, Publish_error sent b = None) → puts_succeed → keys_distinct pid →
  IDFromPublicKey (PubKey prv) = Some pid → id_Pub (Identity n) = PubKey prv → self prv A →
  advertisable now now' n → mapM Datatypes.id (AddressesWire.reduced defaultPort <$> GetMultiaddrs n) = Some addrs →
  (set_NodeAds (GenerateAds now now' id n ld) ;; sign_ads) A = Ret (tt, A') →
  ∃ msgs, SendAds A' = Ret (None, with_published (ng_published A' ++ msgs) A') ∧
    ∀ t from (B : Ng), from ≠ ng_HostID B → local_ok B →
      t < wire_time (now + DefaultAdExpiry) → t < wire_time (now' + 60 * 10 ^ 9 * 10) →
      ∃ B' na n', mapM (HandleAd t from) msgs B = Ret ([None; None; None; None], B') ∧ filed B' pid na ∧
        (∀ id', NodeFromAds id' (Some na) = Ret (inl (Some (n' id')))) ∧
        ∀ id', n' id' = MkNode id' None addrs
          (MkIdentity (PubKey prv) (SerializeCompressed (PubKey prv)) None) (wrapu 32 (Node.RelayRate n))
          ((λ s, MkServiceR (wrapu 16 (svc_Port s)) (wrapu 32 (svc_RelayRate s)) None) <$> Node.Services n) ld None ∧
          ∀ port, FindService port (n' id') = Panic PNil.
Proof.
  intros HPub HPut HKeys HID HKey HSelf Hadv Haddrs E.
  destruct (signing prv now now' id n ld A A' HSelf HKey Hadv E) as (na & -> & HS).
  destruct (ads_received prv pid now now' id n ld na HS HPut HKeys HID) as (msgs & Hmsgs & HR).
  exists msgs. split; [by apply send_certs_run|]. intros t from B Hf HL Ht Ht'.
  destruct (HR t from B Hf HL Ht Ht') as (B' & EB & HF).
  destruct (signed_node prv now now' id n ld na addrs (id 0%nat) HS Haddrs) as (p & a & s & l & -> & _).
  exists B'. eexists (MkNodeAds (Some (PeerWire.received p)) (Some (AddressesWire.received defaultPort a))
    (Some (ServicesWire.received s)) (Some (LoadWire.received l))), (λ id', _). split; [exact EB|]. split; [|split].
  - intros b Hb. cbn in Hb. repeat (apply elem_of_cons in Hb as [[= ->]|Hb]); [..|by apply not_elem_of_nil in Hb].
    + apply (HF (AAddresses a)). left.
    + apply (HF (ALoad l)). do 1 right; left.
    + apply (HF (APeer p)). do 2 right; left.
    + apply (HF (AServices s)). do 3 right; left.
  - intros id'. destruct (signed_node prv now now' id n ld _ addrs id' HS Haddrs) as (? & ? & ? & ? & [= <- <- <- <-] & EN).
    exact EN.
  - intros id'. by split.
Qed.

(** ** Records of peers *)

(** Nothing on file is of the type that [GetPeerRecord] asks for. *)
Definition untyped (ng : Ng) : Prop := ∀ pid key b, on_file ng pid key ≠ inl (VSliceBytes b).

Lemma Put_untyped pid key b : puts_succeed → keeps untyped (Put pid key (VBytes b)).
Proof.
  intros HP ng HU e ng' E. unfold Put in E.
  destruct (dsPeerMetadata_Put id_base32 pid key (VBytes b) (ng_DS ng)) as [d e'] eqn:EP. injection E as <- <-.
  assert (e' = None) as ->.
  { unfold dsPeerMetadata_Put in EP. destruct (gob_bytes b) as (w & Ew & _). rewrite Ew in EP.
    rewrite <- (HP (pm_key id_base32 pid key) w (ng_DS ng)). by rewrite EP. }
  intros pid' key' b'. unfold on_file. cbn [with_DS ng_DS].
  destruct (decide (pm_key id_base32 pid key = pm_key id_base32 pid' key')) as [Ek|Hne].
  - pose proof (metadata_put_get _ _ _ _ _ _ EP) as HO. unfold dsPeerMetadata_Get in *. rewrite <- Ek, HO. congruence.
  - rewrite (metadata_put_other _ _ _ _ _ _ _ _ EP Hne). apply HU.
Qed.

Lemma LogEntry_keeps P : keeps P (LogEntry (User := User) (IntroHook := IntroHook)).
Proof.
  intros ng HP x ng' E. assert (ng' = ng) as ->; [|done].
  unfold LogEntry, on_Mgr, mgr, GetLocalNode, node_at, lift, get, mbind, GoM_bind, Out_bind in E.
  destruct (goindex _ _) as [l|]; [|done]. destruct (nodeAt _ !! l); [|done]. injection E as _ <-. by destruct ng as [[]].
Qed.
#[local] Hint Resolve Put_untyped LogEntry_keeps : keeps.

Lemma HandleAd_untyped now from data : puts_succeed → keeps untyped (HandleAd now from data).
Proof. intros HP. unfold HandleAd. keeping. Qed.

Lemma ClearPeerRecord_untyped pid key : puts_succeed → keeps untyped (ClearPeerRecord pid key).
Proof.
  intros HP. unfold ClearPeerRecord. apply keeps_bind; [|keeping].
  intros ng HU r ng' [= <- <-]. exact HU.
Qed.

(** What gossip does to the records. *)
Inductive record_op := RHandle (now : Z) (from : PeerID) (data : bytes) | RClear (pid : PeerID) (key : bytes).
Definition record_step (o : record_op) : GoM Ng (option error) :=
  match o with RHandle now from data => HandleAd now from data | RClear pid key => ClearPeerRecord pid key end.

(** No record can be read back: what [HandleAd] and [ClearPeerRecord] put on file is
    a [[]byte], [GetPeerRecord] asks for a [slice.Bytes], and so after any history it
    answers an error whatever it is asked for. *)
Theorem GetPeerRecord_never ops r (ng ng' : Ng) pid key :
  puts_succeed → untyped ng → mapM record_step ops ng = Ret (r, ng') →
  ∃ e, GetPeerRecord pid key ng' = Ret ((None, Some e), ng') ∧
    ∀ v, on_file ng' pid key = inl v → e = Errorf "peer record did not decode slice.Bytes" [].
Proof.
  intros HP HU E. assert (untyped ng') as HU'.
  { revert r ng HU E. induction ops as [|o ops IH]; intros r ng HU E; [by injection E as _ <-|].
    cbn [mapM] in E. unfold mbind, GoM_bind in E. destruct (record_step o ng) as [[x ng1]|] eqn:E1; [|done].
    assert (untyped ng1) as HU1.
    { destruct o; [by eapply HandleAd_untyped|by eapply ClearPeerRecord_untyped]. }
    destruct (mapM record_step ops ng1) as [[y ng2]|] eqn:E2; [|done]. injection E as _ <-. by eapply IH. }
  unfold GetPeerRecord. rewrite (bind_run _ _ ng' (on_file ng' pid key) ng') by done.
  specialize (HU' pid key). destruct (on_file ng' pid key) as [[b|b|m|v]|e]; try (eexists; split; [done|]; by intros).
  by destruct (HU' b).
Qed.

(** ** Rounds of gossip *)

Lemma HandleAd_invalid t from m a (B : Ng) : act_ok a → carries m a → from ≠ ng_HostID B → local_ok B →
  ad_Expiry (act_base a) ≤ t → ∃ e, HandleAd t from m B = Ret (Some e, B).
Proof.
  intros Hok HC Hf HL Ht. destruct (act_key a Hok) as [k Hk].
  assert (Act_Validate t (act_received a) = Ret false) as HV.
  { destruct (act_validate t a Hok) as (b & ->). rewrite bool_decide_false, andb_false_r; [done|].
    assert (wire_time (ad_Expiry (act_base a)) ≤ ad_Expiry (act_base a)); [|lia].
    apply wire_time_le. destruct a; cbn in Hok |- *; try apply Hok; by destruct Hok as [[_ ?] _]. }
  destruct (IDFromPublicKey k) as [pid|] eqn:EP.
  - exists BadAd. rewrite (HandleAd_run t from m a pid B false); try done.
    unfold Act_GetID. by rewrite act_received_key, Hk, EP.
  - destruct HC as (H4 & _ & sp & ER & _). unfold HandleAd. rewrite bool_decide_false by lia.
    change ((get ≫= ?f) B) with (f B B). cbn beta. rewrite decide_False by done.
    rewrite (bind_run _ _ _ _ _ (lift_run _ _ B ER)). cbn [fst snd].
    assert (Act_GetID (act_received a) = Ret (inr (Errorf "IDFromPublicKey" []))) as EI.
    { unfold Act_GetID. by rewrite act_received_key, Hk, EP. }
    rewrite (bind_run _ _ _ _ _ (lift_run _ _ B EI)). by eexists.
Qed.

(** Nobody who gets the message, then or later, makes anything of it. *)
Definition useless (since : Z) (m : bytes) : Prop := ∀ t from (B : Ng), since ≤ t → from ≠ ng_HostID B → local_ok B →
  ∃ e, HandleAd t from m B = Ret (Some e, B).

Definition ads_ok (l : list (option Act)) : Prop := Forall (λ v, ∃ a, v = Some a ∧ act_ok a) l.

Lemma publish_expired_after since clock i l (ng : Ng) : ads_ok l → (∀ j, clock j ≤ since) →
  after (publish_expired clock i l) ng (λ _ ng', ng_NodeAds ng' = ng_NodeAds ng ∧
    ∃ late, ng_published ng' = ng_published ng ++ late ∧ Forall (useless since) late).
Proof.
  intros HF Hc. revert i ng. induction HF as [|v l (a & -> & Hok) _ IH]; intros i ng; cbn [publish_expired].
  { apply after_mret. split; [done|]. exists []. by rewrite app_nil_r. }
  apply after_bind, after_lift. intros ? [= <-]. destruct (Act_Expired (clock i) a) eqn:EX; cbn [negb]; [|apply IH].
  apply after_bind, after_lift. intros [e sp] EE. pose proof (Act_Encode_none _ _ _ _ EE) as He. cbn in He. subst e.
  destruct (act_message a Hok) as (m & Em & HC). unfold act_encoded in Em. rewrite EE in Em. injection Em as Em.
  apply after_bind. intros e ng1 E1. cbn [snd] in E1. unfold SendAd in E1. rewrite Em in E1.
  destruct (Publish_error (ng_published ng) m) as [x|]; injection E1 as <- <-.
  { apply after_mret. split; [done|]. exists []. by rewrite app_nil_r. }
  eapply after_weaken; [apply IH|]. intros go ng2 [E2 (late & EP & HL)]. cbn in *. split; [done|].
  exists (m :: late). rewrite EP, <- app_assoc. split; [done|]. constructor; [|done].
  intros t from B Ht Hf HLo. apply (HandleAd_invalid t from m a B); try done.
  specialize (Hc i). assert (ad_Expiry (act_base a) < clock i); [|lia].
  destruct a; by apply bool_decide_eq_true_1 in EX.
Qed.

Lemma publish_fresh clock i a l (ng : Ng) : Act_Expired (clock i) a = false →
  publish_expired clock i (Some a :: l) ng = publish_expired clock (S i) l ng.
Proof. intros E. cbn [publish_expired]. rewrite (bind_run _ _ ng a ng) by done. cbn beta. by rewrite E. Qed.

Lemma publish_old clock i a l m (ng : Ng) : Act_Expired (clock i) a = true → act_encoded a = Ret m →
  Publish_error (ng_published ng) m = None →
  publish_expired clock i (Some a :: l) ng = publish_expired clock (S i) l (with_published (ng_published ng ++ [m]) ng).
Proof.
  intros E Em EP. cbn [publish_expired]. rewrite (bind_run _ _ ng a ng) by done. cbn beta. rewrite E. cbn [negb].
  unfold act_encoded in Em. destruct (Act_Encode a _) as [[e sp]|]; [|done]. injection Em as <-.
  rewrite (bind_run _ _ ng (e, sp) ng) by done. cbn [snd].
  by rewrite (bind_run _ _ ng None (with_published (ng_published ng ++ [GetAll sp]) ng)) by (unfold SendAd; by rewrite EP).
Qed.

(** After the first sending, gossip spreads nothing of use: what the rounds publish
    are the ads that have expired, as they are, and every engine that gets one of them
    then or later refuses it and is left as it was. *)
Theorem gossip_useless since clocks (ng ng' : Ng) :
  ads_ok (GetAsCerts (ng_NodeAds ng)) → Forall (λ clock, ∀ i, clock i ≤ since) clocks →
  gossip_ticks clocks ng = Ret (tt, ng') →
  ∃ late, ng_published ng' = ng_published ng ++ late ∧ Forall (useless since) late.
Proof.
  revert ng. induction clocks as [|clock clocks IH]; intros ng HF HC E.
  { injection E as <-. exists []. by rewrite app_nil_r. }
  apply Forall_cons in HC as [Hc HC]. cbn [gossip_ticks] in E. unfold mbind at 1, GoM_bind at 1 in E.
  destruct (LogEntry ng) as [[[] ng1]|] eqn:EL; [|done]. apply (LogEntry_keeps (λ x, x = ng) ng eq_refl) in EL. subst ng1.
  change ((get ≫= ?f) ng) with (f ng ng) in E. cbn beta in E. unfold mbind, GoM_bind in E.
  destruct (publish_expired _ _ _ ng) as [[go ng2]|] eqn:EP; [|done].
  apply (publish_expired_after since) in EP as (EN & late & El & HL); [|done|done].
  destruct go; [|injection E as <-; by exists late].
  apply IH in E as (late2 & E2 & HL2); [|by rewrite EN|done].
  exists (late ++ late2). rewrite E2, El, app_assoc. split; [done|]. by apply Forall_app.
Qed.

(** ** Types *)

(** The Go type behind a [codec.Codec]. *)
Definition type_of (c : Codec) : string :=
  match c with
  | CAct (ALoad _) => "load.Ad" | CAct (APeer _) => "peer.Ad" | CAct (AIntro _) => "intro.Ad"
  | CAct (AServices _) => "services.Ad" | CAct (AAddresses _) => "addresses.Ad"
  | COnion ONil => "nil" | COnion OEnd => "end.End" | COnion (OCrypt _ _) => "crypt.Crypt"
  | COnion (OForward _ _) => "forward.Forward" | COnion (OReverse _ _) => "reverse.Reverse"
  | COnion (OSession _ _) => "session.Session" | COnion (OExit _ _) => "exit.Exit"
  | COnion (OGetBalance _ _) => "getbalance.GetBalance" | COnion (OIntroQuery _ _) => "introquery.IntroQuery"
  | COnion (OHiddenService _ _) => "hiddenservice.HiddenService" | COnion (ORoute _ _) => "route.Route"
  | COnion (OBalance _ _) => "balance.Balance" | COnion (OConfirmation _) => "confirmation.Confirmation"
  | COnion (OResponse _) => "response.Response" | COnion (OReady _) => "ready.Ready"
  | COnion (OMessage _) => "message.Message" | COnion (ODelay _ _) => "delay.Delay"
  | CNewKey _ => "dispatcher.NewKeyMessage" | CAcknowledge _ => "dispatcher.AckMessage"
  | COnionMsg _ => "dispatcher.OnionMessage"
  end.

(** The types the sender writes a magic for. *)
Definition magic_types : list (string * string) := [
  (Load.Magic_, "load.Ad"); (Peer.Magic_, "peer.Ad"); (Intro.Magic_, "intro.Ad");
  (Services.Magic_, "services.Ad"); (Addresses.Magic_, "addresses.Ad");
  (EndMagic, "end.End"); (CryptMagic, "crypt.Crypt"); (ForwardMagic, "forward.Forward");
  (ReverseMagic, "reverse.Reverse"); (SessionMagic, "session.Session"); (ExitMagic, "exit.Exit");
  (GetBalanceMagic, "getbalance.GetBalance"); (IntroQueryMagic, "introquery.IntroQuery");
  (HiddenServiceMagic, "hiddenservice.HiddenService"); (RouteMagic, "route.Route");
  (BalanceMagic, "balance.Balance"); (ConfirmationMagic, "confirmation.Confirmation");
  (ResponseMagic, "response.Response"); (ReadyMagic, "ready.Ready"); (MessageMagic, "message.Message");
  (DelayMagic, "delay.Delay"); (NewKeyMagic, "dispatcher.NewKeyMessage");
  (AcknowledgeMagic, "dispatcher.AckMessage"); (OnionMagic, "dispatcher.OnionMessage")]%string.

(** Decoding fills in a message and does not make another of it. *)
Lemma Codec_Decode_type c s : after (Codec_Decode c) s (λ r _, type_of r.1 = type_of c).
Proof.
  destruct c as [[]|[]| | |]; cbn [Codec_Decode Decode];
    try (apply after_bind; intros ? ? E; apply after_mret; revert E; cbn [fst]);
    try (intros [= <- <-]; done); try done.
  all: intros E; unfold on_data, mbind, GoM_bind in E.
  all: match type of E with match ?m with _ => _ end = _ => destruct m as [[]|]; [|done] end.
  all: by injection E as <- <-.
Qed.

Definition ad_magics : list bytes :=
  string_bytes <$> [Load.Magic_; Peer.Magic_; Intro.Magic_; Services.Magic_; Addresses.Magic_].
Definition ad_types : list string := ["load.Ad"; "peer.Ad"; "intro.Ad"; "services.Ad"; "addresses.Ad"]%string.

Lemma ad_type c : (∃ a, c = CAct a) ↔ type_of c ∈ ad_types.
Proof.
  split.
  - intros [[] ->]; apply (bool_decide_eq_true_1 _); by vm_compute.
  - destruct c as [a|[]| | |]; [by exists a|..]; intros H; apply (bool_decide_eq_true_2 _) in H; by vm_compute in H.
Qed.

Lemma registered_types : Forall (λ mc, (mc.1, type_of mc.2) ∈ magic_types) registered.
Proof. repeat (constructor; [apply (bool_decide_eq_true_1 _); by vm_compute|]). constructor. Qed.

Lemma ad_magic_types : Forall (λ mt, string_bytes mt.1 ∈ ad_magics ↔ mt.2 ∈ ad_types) magic_types.
Proof. apply (bool_decide_eq_true_1 _). by vm_compute. Qed.

Lemma made_type b g : MakeCodec b the_registry = Some g → ∃ m, (m, type_of g) ∈ magic_types ∧ b = string_bytes m.
Proof.
  intros E. destruct (decide (b ∈ (λ x, string_bytes x.1) <$> registered)) as [Hb|Hb];
    [|by rewrite MakeCodec_unknown in E].
  apply list_elem_of_fmap in Hb as ([m g'] & -> & Hin). change (MakeCodec (string_bytes m) the_registry = Some g) in E. rewrite (MakeCodec_registered m g') in E by done.
  injection E as ->. exists m. split; [|done]. pose proof registered_types as HF. rewrite Forall_forall in HF.
  by apply (HF (m, g)).
Qed.

Lemma ReadMagic_takes data w s : ReadMagic (NewFrom data) = Ret (w, s) → w = take 4 data.
Proof.
  unfold ReadMagic. destruct (window MagicLen (NewFrom data)) as [[v s0]|] eqn:E; [|by rewrite (bind_panic _ _ _ _ E)].
  rewrite (bind_run _ _ _ _ _ E). intros [= <- _]. unfold window, goslice in E.
  case_bool_decide; [|done]. by injection E as <- _.
Qed.

(** C37: What comes out of [Recognise] and [Decode] has the type that its magic stands
    for, whatever the bytes; so the assertion to [cert.Act], by which [HandleAd] and
    [GetPeerRecord] go, holds exactly for the five kinds of ads. *)
Theorem decoded_type data c e sp :
  recognise_decode data = Ret (inl (c, e), sp) →
  (∃ m, (m, type_of c) ∈ magic_types ∧ take 4 data = string_bytes m) ∧
  ((∃ a, c = CAct a) ↔ take 4 data ∈ ad_magics).
Proof.
  intros E. unfold recognise_decode in E. destruct (Recognise the_registry (NewFrom data)) as [[o s1]|] eqn:ER; [|done].
  cbn in E. destruct o as [g|]; [|done]. destruct (Codec_Decode g s1) as [[r s2]|] eqn:ED; [|done].
  pose proof (Codec_Decode_type g s1 _ _ ED) as HT. cbn in E, HT. injection E as -> <-. cbn in HT.
  assert (MakeCodec (take 4 data) the_registry = Some g) as HM.
  { unfold Recognise in ER. destruct (ReadMagic (NewFrom data)) as [[w s0]|] eqn:EW;
      [|by rewrite (bind_panic _ _ _ _ EW) in ER].
    rewrite (bind_run _ _ _ _ _ EW) in ER. apply ReadMagic_takes in EW as <-. by injection ER. }
  apply made_type in HM as (m & Hm & Em). rewrite <- HT in Hm. split; [by exists m|].
  pose proof ad_magic_types as HF. rewrite Forall_forall in HF. rewrite ad_type, Em. symmetry. apply (HF _ Hm).
Qed.

(** ** Bytes nobody should send *)

Lemma recognised m gen rest : (m, gen) ∈ registered → length (string_bytes m) = 4%nat →
  ∃ s, Recognise the_registry (NewFrom (string_bytes m ++ rest)) = Ret (Some gen, s) ∧
    s_b s = string_bytes m ++ rest ∧ s_c s = 4.
Proof.
  intros Hr Hl. assert (zlen (string_bytes m) = 4) as Hz by (unfold zlen; lia).
  destruct (reads_Recognise m gen Hr Hl (NewFrom (string_bytes m ++ rest))) as (s & E & B & C & _); [|done|].
  - unfold at_cursor, Len. cbn. rewrite zlen_app, drop_0. pose proof (zlen_nonneg rest). split_and!; [lia|lia|].
    apply take_app_length.
  - exists s. split; [done|]. split; [done|]. rewrite C, Hz. done.
Qed.

Lemma ReadID_short s : Len s < s_c s + 8 → ReadID s = Panic PSlice.
Proof. intros Hl. apply bind_panic. unfold window. by rewrite goslice_out. Qed.

(** The ads whose decoders look at no length. *)
Definition unguarded : list (string * Codec) := [
  (Load.Magic_, CAct (ALoad Load.Gen)); (Peer.Magic_, CAct (APeer Peer.Gen));
  (Services.Magic_, CAct (AServices Services.Gen)); (Addresses.Magic_, CAct (AAddresses Addresses.Gen))].

Lemma unguarded_short m gen s : (m, gen) ∈ unguarded → Len s < s_c s + 8 → Codec_Decode gen s = Panic PSlice.
Proof.
  intros Hm Hl. repeat (apply elem_of_cons in Hm as [[= -> ->]|Hm]); [..|by apply not_elem_of_nil in Hm];
    apply bind_panic, bind_panic, bind_panic, ReadID_short, Hl.
Qed.

(** A load ad whose key is none. *)
Lemma ReadPubkey_bad s kb rest : at_cursor s (kb ++ rest) → zlen kb = 33 → ParsePubKey kb = None →
  ∃ s', ReadPubkey None s = Ret (None, s') ∧ s_b s' = s_b s ∧ s_c s' = s_c s + 33.
Proof.
  intros AC Hk HP. apply at_cursor_app in AC as [AC _]. destruct AC as (H0 & H1 & HB).
  assert (window PubKeyLen s = Ret (kb, with_c (s_c s + PubKeyLen) s)) as EW.
  { unfold window. change PubKeyLen with 33. rewrite goslice_in by (unfold Len in *; lia).
    replace (Z.to_nat (s_c s + 33 - s_c s)) with (length kb) by (unfold zlen in Hk; lia). by rewrite HB. }
  unfold ReadPubkey. rewrite (bind_run _ _ _ _ _ EW). unfold PubFromBytes. rewrite HP. by eexists.
Qed.

Lemma load_no_key s k id kb rest : at_cursor s (arr_list (n := 8) id ++ kb ++ rest) → zlen kb = 33 → zlen rest = 73 →
  ParsePubKey kb = None → ∃ x s', Codec_Decode (CAct (ALoad k)) s = Ret ((CAct (ALoad x), None), s') ∧ ad_Key (Load.base x) = None.
Proof.
  intros AC Hk Hr HP. pose proof AC as (H0 & H1 & _). rewrite !zlen_app, zlen_arr, Hk, Hr in H1.
  destruct (consumes_run (r := ReadID) s) as (id' & s1 & E1 & B1 & C1); [done|lia|].
  apply at_cursor_app in AC as [_ AC]. rewrite zlen_arr in AC.
  assert (at_cursor s1 (kb ++ rest)) as AC1 by (unfold at_cursor, Len; by rewrite B1, C1).
  destruct (ReadPubkey_bad s1 kb rest AC1 Hk HP) as (s2 & E2 & B2 & C2).
  set (tail := load ← ReadByte; expiry ← ReadTime; sig ← ReadSignature; mret (Load.MkAd (Ads.MkAd id' None expiry sig) load)).
  assert (Consumes tail 73) as HT by (eapply consumes_eq; [unfold tail; apply _|done]).
  destruct (consumes_run (Consumes := HT) s2) as (x & s3 & E3 & _); [lia|unfold Len in *; rewrite B2, B1; lia|].
  exists x, s3. assert (Load.Decode s = Ret (x, s3)) as ED.
  { unfold Load.Decode. by rewrite (bind_run _ _ _ _ _ E1), (bind_run _ _ _ _ _ E2). }
  split; [cbn [Codec_Decode]; unfold on_act, always; by rewrite (bind_run _ _ s (x, None) s3) by (by rewrite (bind_run _ _ _ _ _ ED))|].
  revert E3. generalize x s3. change (after tail s2 (λ x _, ad_Key (Load.base x) = None)). unfold tail.
  repeat (apply after_bind; intros ? ? _). by apply after_mret.
Qed.

(** C39: Anyone on the topic can bring the others down: four of the five ads are decoded
    without a look at their length, and a message of one of these magics with fewer than
    eight bytes behind it makes [HandleAd] panic; so does an ad of full length whose key
    is no point of the curve, because the identifier of a nil key is asked for. *)
Theorem HandleAd_panics now from (ng : Ng) : from ≠ ng_HostID ng →
  (∀ m gen rest, (m, gen) ∈ unguarded → zlen rest < 8 → HandleAd now from (string_bytes m ++ rest) ng = Panic PSlice) ∧
  (∀ id kb rest, zlen kb = 33 → zlen rest = 73 → ParsePubKey kb = None →
    HandleAd now from (string_bytes Load.Magic_ ++ arr_list (n := 8) id ++ kb ++ rest) ng = Panic PNil).
Proof.
  intros Hf. assert (∀ m rest, length (string_bytes m) = 4%nat → zlen (string_bytes m ++ rest) < 1 → False) as Hlen.
  { intros m rest Hl. rewrite zlen_app. pose proof (zlen_nonneg rest). unfold zlen at 1. rewrite Hl. lia. }
  split.
  - intros m gen rest Hm Hr. assert ((m, gen) ∈ registered ∧ length (string_bytes m) = 4%nat) as [Hreg Hl].
    { repeat (apply elem_of_cons in Hm as [[= -> ->]|Hm]); [..|by apply not_elem_of_nil in Hm]; (split; [|done]).
      - by do 1 right; left.
      - by do 2 right; left.
      - by left.
      - by do 4 right; left. }
    destruct (recognised m gen rest Hreg Hl) as (s & E & B & C). unfold HandleAd.
    rewrite bool_decide_false by (intros ?; by eapply Hlen).
    change ((get ≫= ?f) ng) with (f ng ng). cbn beta. rewrite decide_False by done. apply bind_panic.
    unfold lift, recognise_decode. rewrite E. cbn [mbind Out_bind fst snd].
    rewrite (unguarded_short m gen s Hm); [done|]. unfold Len. rewrite B, C, zlen_app. unfold zlen at 1. lia.
  - intros id kb rest Hk Hr HP.
    destruct (recognised Load.Magic_ (CAct (ALoad Load.Gen)) (arr_list id ++ kb ++ rest)) as (s & E & B & C);
      [by do 1 right; left|done|].
    destruct (load_no_key s Load.Gen id kb rest) as (x & s' & ED & Hx); try done.
    { unfold at_cursor, Len. rewrite B, C. split_and!; [lia|rewrite (zlen_app (string_bytes _)); done|].
      rewrite drop_app_length' by done. apply firstn_all. }
    unfold HandleAd. rewrite bool_decide_false by (intros ?; by eapply (Hlen Load.Magic_)).
    change ((get ≫= ?f) ng) with (f ng ng). cbn beta. rewrite decide_False by done.
    erewrite bind_run; [|apply lift_run; unfold recognise_decode; rewrite E; cbn [mbind Out_bind fst snd]; by rewrite ED].
    cbn [fst snd]. apply bind_panic. unfold lift, Act_GetID. change (Act_PubKey (ALoad x)) with (ad_Key (Load.base x)).
    by rewrite Hx.
Qed.
End Properties.

(** ** Witnesses *)

(** Addresses of two-byte components, identifiers that are keys, a datastore that is a
    map, and a topic that takes everything. *)
Module ToyGossip.
#[local] Existing Instances Toy.crypto Toy.laws ToyNet.transports.

Fixpoint pairs (l : bytes) : list bytes :=
  match l with x :: y :: l => [x; y] :: pairs l | _ => [] end.
#[export] Instance multiaddrs : Multiaddrs := {|
  Multiaddr := bytes;
  Split := pairs;
  ProtoCode := λ a, match a with x :: _ => b2z x | [] => 0 end;
  Encapsulate := app;
  MarshalBinary := λ a, a;
  NewMultiaddrBytes := Some;
  TcpAddr := λ p, [x06; z2b p];
|}.
#[export] Instance multiaddr_laws : MultiaddrLaws.
Proof. by constructor. Qed.
#[export] Instance peers : @Peers Toy.crypto multiaddrs := {|
  PeerID := arr 33 : Type;
  IDFromPublicKey := λ p, Some (SerializeCompressed p);
  P2pAddr := λ i, Some ([xa5; x01] : @Multiaddr multiaddrs);
|}.
#[export] Instance env : Env := {|
  shuffleA := λ l, l; shuffleS := λ l, l; AString := λ _, EmptyString; ASprint := λ _, EmptyString;
  noise := λ _, arr_zero 32; draw_iv := λ _ _, arr_zero 16; draw_id := λ _, arr_zero 8; blinds := λ _ _, arr_zero 4;
  received := λ _ _, [];
  orderM := λ h, fst <$> map_to_list (MyIntros h); orderS := λ h, fst <$> map_to_list (h_Services h);
  orderK := λ h, fst <$> map_to_list (KnownIntros h);
  defaultPort := 80; ValueForProtocol := λ _ _, inr (Errorf "none" []); Engine.AddrPort := unit; ParseAddrPort := λ _, inl tt;
|}.
#[export] Instance datastore : Datastore := {|
  DsKey := list bytes; NewKey := λ b, [b]; ChildString := λ k b, k ++ [b];
  DS := gmap (list bytes) bytes; ds_ErrNotFound := Errorf "datastore: key not found" [];
  ds_Get := λ k (d : gmap (list bytes) bytes), match d !! k with Some v => inl v | None => inr (Errorf "datastore: key not found" []) end;
  ds_Put := λ k v (d : gmap (list bytes) bytes), (<[k := v]> d, None);
  ds_Delete := λ k (d : gmap (list bytes) bytes), (delete k d, None);
  ds_Query := λ k (d : gmap (list bytes) bytes), inl (filter (λ k', k `prefix_of` k') (map_to_list d).*1);
|}.
#[export] Instance datastore_laws : DatastoreLaws.
Proof.
  split; cbn.
  - intros k v d d' [= <-]. by rewrite lookup_insert_eq.
  - intros k k' v d d' [= <-] Hne. by rewrite lookup_insert_ne.
Qed.
#[export] Instance net : GossipNet := {|
  id_base32 := arr_list; Publish_error := λ _ _, None |}.

Definition prv : Prv := arr_of 32 [x05].
Definition pid : PeerID := SerializeCompressed prv.
Definition other : PeerID := arr_of 33 [x07].
Definition local : Node := MkNode (arr_of 8 [x01]) (Some false) [[x04; x09; x06; x50]]
  (MkIdentity prv (SerializeCompressed prv) (Some prv)) 20000 [MkServiceR 80 7 None] x00 None.
Definition ads (n : Node) : NodeAds := GenerateAds 10 20 (λ i, arr_of 8 [z2b (Z.of_nat i)]) n x19.
Definition ng (na : NodeAds) (host : arr 33) : Ng (User := unit) (IntroHook := unit) :=
  MkNg (MkEngine (with_nodeAt {[ 1%positive := local ]} (NewSessionManager 0 ∅ 1%positive)) (MkPending false [])
          NewHiddenRouting 0 (MkKeySet prv prv) 0) host na [] (∅ : gmap (list bytes) bytes).
Definition A := ng (MkNodeAds None None None None) (SerializeCompressed prv).
Definition B := ng (MkNodeAds None None None None) (arr_zero 33).

Lemma A_self : self prv A.
Proof. split; [done|]. exists 1%positive, local. split_and!; done. Qed.
Lemma local_here host na : local_ok (ng na host).
Proof. exists 1%positive, local. split; done. Qed.
Lemma keys pid : keys_distinct pid.
Proof. intros k k' _ _ Hne [= E]. done. Qed.
Lemma puts : puts_succeed.
Proof. done. Qed.
Lemma local_ads : advertisable 10 20 local.
Proof.
  split; [by vm_compute|by vm_compute| |by vm_compute|by vm_compute].
  constructor; [|constructor]. exists [x04; x09; x06; x50].
  split; [by vm_compute|]. exists [x04; x09; x06; x50]. split_and!; by vm_compute.
Qed.
Lemma made_ok a : Some a ∈ GetAsCerts (ads local) → act_ok a.
Proof.
  intros H. destruct (generated_ok 10 20 (λ i, arr_of 8 [z2b (Z.of_nat i)]) local x19 _ local_ads H) as (? & [= <-] & Hok & _).
  exact Hok.
Qed.
Lemma signing_key : signs prv.
Proof. intros h. by eexists. Qed.
End ToyGossip.
#[local] Existing Instances Toy.crypto Toy.laws ToyNet.transports ToyGossip.multiaddrs ToyGossip.multiaddr_laws ToyGossip.peers
  ToyGossip.env ToyGossip.datastore ToyGossip.datastore_laws ToyGob.gob ToyGob.gob_laws ToyGossip.net.

Lemma ads_reach_peers_witness : ∃ msgs (A' : Ng (User := unit) (IntroHook := unit)), SendAds A' = Ret (None, with_published (ng_published A' ++ msgs) A') ∧
  ∃ B' na n', mapM (HandleAd 30 ToyGossip.pid) msgs ToyGossip.B = Ret ([None; None; None; None], B') ∧
    filed B' ToyGossip.pid na ∧
    NodeFromAds (arr_zero 8) (Some na) = Ret (inl (Some n')) ∧ Node.Addresses n' = [[x04; x09; x06; x50]] ∧
    FindService 80 n' = Panic PNil.
Proof.
  assert (∃ na, sign_ads (with_NodeAds (ToyGossip.ads ToyGossip.local) ToyGossip.A)
    = Ret (tt, with_NodeAds na ToyGossip.A)) as [na E].
  { apply (sign_ads_total ToyGossip.prv _ _ _ _ (with_NodeAds (ToyGossip.ads ToyGossip.local) ToyGossip.A)
      ToyGossip.signing_key ToyGossip.A_self eq_refl); apply ToyGossip.made_ok;
      [by do 2 right; left|by left|by do 3 right; left|by do 1 right; left]. }
  destruct (ads_reach_peers ToyGossip.prv ToyGossip.pid ToyGossip.local 10 20
    (λ i, arr_of 8 [z2b (Z.of_nat i)]) x19 [[x04; x09; x06; x50]] ToyGossip.A (with_NodeAds na ToyGossip.A))
    as (msgs & ES & HR).
  - reflexivity.
  - exact ToyGossip.puts.
  - apply ToyGossip.keys.
  - reflexivity.
  - reflexivity.
  - exact ToyGossip.A_self.
  - exact ToyGossip.local_ads.
  - by vm_compute.
  - exact E.
  - exists msgs, (with_NodeAds na ToyGossip.A). split; [exact ES|].
    destruct (HR 30 ToyGossip.pid ToyGossip.B) as (B' & nb & n' & EB & HF & HN & Hn').
    + intros H. apply (f_equal arr_list) in H. by vm_compute in H.
    + apply ToyGossip.local_here.
    + by vm_compute.
    + by vm_compute.
    + exists B', nb, (n' (arr_zero 8)). split; [exact EB|]. split; [exact HF|]. split; [apply HN|].
      destruct (Hn' (arr_zero 8)) as [-> HP]. split; [reflexivity|apply HP].
Defined.

Lemma GetPeerRecord_never_witness : ∃ r ng', mapM record_step [RClear ToyGossip.other []] ToyGossip.B = Ret (r, ng') ∧
  ∃ e, GetPeerRecord ToyGossip.other (string_bytes Load.Magic_) ng' = Ret ((None, Some e), ng').
Proof.
  exists [Some ErrNotFound], ToyGossip.B. assert (mapM record_step [RClear ToyGossip.other []] ToyGossip.B
    = Ret ([Some ErrNotFound], ToyGossip.B)) as E by reflexivity. split; [exact E|].
  destruct (GetPeerRecord_never [RClear ToyGossip.other []] [Some ErrNotFound] ToyGossip.B ToyGossip.B
    ToyGossip.other (string_bytes Load.Magic_) ToyGossip.puts) as (e & H & _).
  - intros pid key b H. unfold on_file, dsPeerMetadata_Get in H. cbn in H. by rewrite lookup_empty in H.
  - exact E.
  - exists e. exact H.
Defined.

Lemma gossip_useless_witness :
  let ng := ToyGossip.ng (ToyGossip.ads ToyGossip.local) ToyGossip.pid in
  ∃ late, gossip_ticks [λ _, 700 * 10 ^ 9] ng = Ret (tt, with_published late ng) ∧ length late = 1%nat ∧
    Forall (useless (700 * 10 ^ 9) (User := unit) (IntroHook := unit)) late.
Proof.
  intros ng. set (a := ALoad (Load.MkAd (Ads.MkAd (arr_of 8 [x03]) (Some (PubKey ToyGossip.prv)) (20 + 60 * 10 ^ 9 * 10) (arr_zero 64)) x19)).
  destruct (act_message a) as (m & Em & _); [by split; [by eexists|]|].
  assert (∃ late, gossip_ticks [λ _, 700 * 10 ^ 9] ng = Ret (tt, with_published late ng) ∧ length late = 1%nat) as (late & E & Hl).
  { exists [m]. split; [|reflexivity]. cbn [gossip_ticks].
    rewrite (bind_run _ _ ng tt ng) by (apply LogEntry_run, ToyGossip.local_here).
    change ((get ≫= ?f) ng) with (f ng ng). cbn beta.
    rewrite (bind_run _ _ ng true (with_published [m] ng)); [reflexivity|].
    assert (∃ x y z, GetAsCerts (ng_NodeAds ng) = [Some x; Some a; Some y; Some z] ∧ Act_Expired (700 * 10 ^ 9) x = false ∧
      Act_Expired (700 * 10 ^ 9) y = false ∧ Act_Expired (700 * 10 ^ 9) z = false) as (x & y & z & -> & Hx & Hy & Hz)
      by (eexists _, _, _; split_and!; reflexivity).
    rewrite publish_fresh by exact Hx. rewrite (publish_old _ _ a _ m) by (reflexivity || exact Em).
    rewrite publish_fresh by exact Hy. rewrite publish_fresh by exact Hz. reflexivity. }
  exists late. split; [exact E|]. split; [exact Hl|].
  destruct (gossip_useless (700 * 10 ^ 9) [λ _, 700 * 10 ^ 9] ng (with_published late ng)) as (late' & El & HF).
  - apply Forall_forall. intros v Hv.
    destruct (generated_ok 10 20 (λ i, arr_of 8 [z2b (Z.of_nat i)]) ToyGossip.local x19 v ToyGossip.local_ads Hv)
      as (b & -> & Hok & _). exists b. split; [reflexivity|exact Hok].
  - constructor; [|constructor]. intros i. apply Z.le_refl.
  - exact E.
  - cbn in El. subst late'. exact HF.
Defined.

Lemma decoded_type_witness : ∃ a e sp, recognise_decode (string_bytes SessionMagic) = Ret (inl (a, e), sp) ∧
  (∃ m, (m, type_of a) ∈ magic_types ∧ take 4 (string_bytes SessionMagic) = string_bytes m) ∧
  ¬ ∃ x, a = CAct x.
Proof.
  eexists _, _, _. split; [reflexivity|].
  destruct (decoded_type (string_bytes SessionMagic) _ _ _ eq_refl) as [HT HA]. split; [exact HT|].
  rewrite HA. intros H. apply (bool_decide_eq_true_2 _) in H. by vm_compute in H.
Defined.

Lemma HandleAd_panics_witness : HandleAd 0 ToyGossip.other (string_bytes Load.Magic_) ToyGossip.B = Panic PSlice ∧
  HandleAd 0 ToyGossip.other (string_bytes Load.Magic_ ++ arr_list (arr_zero 8) ++ replicate 33 x00 ++ replicate 73 x00)
    ToyGossip.B = Panic PNil.
Proof.
  destruct (HandleAd_panics 0 ToyGossip.other ToyGossip.B) as [H1 H2].
  - intros E. apply (f_equal arr_list) in E. by vm_compute in E.
  - split.
    + rewrite <- (app_nil_r (string_bytes Load.Magic_)). apply (H1 Load.Magic_ (CAct (ALoad Load.Gen)) []); [by left|done].
    + apply (H2 (arr_zero 8)); reflexivity.
Defined.
