(* ===== verification/EngineNew.v ===== *)
(** * A new engine *)

From S2P Require Export GossipProps Lifecycle.

Section New.
Context {cr : Crypto} {crl : CryptoLaws} {ma : Multiaddrs} {mal : MultiaddrLaws} {pe : Peers} {tp : Transports} {env : Env}.
Context {ds : Datastore} {gn : GossipNet} {User IntroHook Any : Type} {gob : Gob Any}.
#[local] Abbreviation Ng := (Ng (User := User) (IntroHook := IntroHook)).

(** No protocol is ever available: the set that is intersected starts empty. *)
Lemma ProtocolsAvailable_none l : ProtocolsAvailable (Some l) = 0.
Proof.
  unfold ProtocolsAvailable. induction l as [|v l IH] using rev_ind; [done|]. rewrite foldl_app. cbn [foldl].
  rewrite IH. by destruct (has_protocol v P_IP4).
Qed.

Lemma new_manager_wf pr h l nn : Forall (λ x, is_Some (h !! x)) (l :: nn) →
  let m := with_nodes (l :: l :: nn) (NewSessionManager pr h l) in
  AddNodes (l :: nn) (NewSessionManager pr h l) = Ret (tt, m) ∧ wf m.
Proof.
  intros HF m. split; [done|]. pose proof HF as [Hl HN]%Forall_cons.
  constructor; cbn; first
    [ done | by constructor | by intros x ?%not_elem_of_nil | by intros id c h' x; rewrite lookup_empty
    | by intros id c; rewrite lookup_empty | by intros x d n ?%not_elem_of_nil ].
Qed.

(** The sessions of a new engine: for replies, at the local node, with no balance. *)
Definition reply_session (node : loc) (m : Manager) (x : loc) : Prop :=
  ∃ d, dataAt m !! x = Some d ∧ d_Node d = node ∧ d_Hop d = 5 ∧ d_Remaining d = 0.

Lemma return_sessions_run st l n k i (ng : Ng) : let m := e_Mgr (ng_Engine ng) in
  wf m → nodeAt m !! l = Some n → Forall (reply_session l m) (Sessions m) →
  NoDup ((λ j, Keys_Bytes (st_Session st j).1.2) <$> seq i k) →
  (∀ j, j ∈ seq i k → Some (Keys_Bytes (st_Session st j).1.2) ∉ header_of m <$> Sessions m) →
  ∃ m', return_sessions st l i k ng = Ret (tt, with_Engine (with_Mgr m' (ng_Engine ng)) ng) ∧ wf m' ∧
    nodes m' = nodes m ∧ nodeAt m' = nodeAt m ∧ Protocols m' = Protocols m ∧ length (Sessions m') = (length (Sessions m) + k)%nat ∧
    Forall (reply_session l m') (Sessions m').
Proof.
  revert i ng; induction k as [|k IH]; intros i ng m W Hn HF ND Hf.
  { exists m. split; [|split_and!; try done; lia]. unfold m. by destruct ng as [[]]. }
  cbn [return_sessions seq] in *. rewrite fmap_cons in ND. apply NoDup_cons in ND as [Hi ND].
  destruct (st_Session st i) as [[id hdr] pld] eqn:ES.
  set (d := NewSessionData id l 0 hdr pld 5). set (x := fresh (dom (dataAt m))).
  assert (Some (Keys_Bytes (d_Header d)) ∉ header_of m <$> Sessions m) as Hd.
  { specialize (Hf i (list_elem_of_here _ _)). by rewrite ES in Hf. }
  destruct (enrol m d n W Hn) as [EA WE]; [done|done|].
  pose proof (enrolled_facts d n m) as HE. cbv zeta in HE. destruct HE as (E1 & E2 & _ & E4 & E5).
  assert (dataAt m !! x = None) as Hx by (apply not_elem_of_dom, is_fresh).
  set (ng1 := with_Engine (with_Mgr (enrolled d n m) (ng_Engine ng)) ng).
  rewrite (bind_run _ _ ng tt ng1).
  2: { apply on_Mgr_run. rewrite (bind_run _ _ m x (with_dataAt (<[x := d]> (dataAt m)) m)) by done. exact EA. }
  destruct (IH (S i) ng1) as (m' & E & W' & F1 & F2 & F5 & F3 & F4); try done.
  - change (Forall (reply_session l (enrolled d n m)) (Sessions (enrolled d n m))). rewrite E1. apply Forall_app. split.
    + eapply Forall_impl; [exact HF|]. intros y (dy & Hy & ?). exists dy. rewrite E2. split; [|done].
      rewrite lookup_insert_ne; [done|]. intros <-. fold x in Hy. congruence.
    + apply Forall_singleton. exists d. rewrite E2. split; [by rewrite lookup_insert_eq|done].
  - intros j Hj.
    change (Some (Keys_Bytes (st_Session st j).1.2) ∉ header_of (enrolled d n m) <$> Sessions (enrolled d n m)).
    rewrite E1, fmap_app. rewrite not_elem_of_app. split.
    + assert (header_of (enrolled d n m) <$> Sessions m = header_of m <$> Sessions m) as ->; [|apply Hf; by right].
      rewrite <- (headers_extended x d m); [|by apply fresh_not_session|done].
      apply list_fmap_ext. intros ? y _. unfold header_of. by rewrite E2.
    + cbn. rewrite list_elem_of_singleton. unfold header_of. rewrite E2, lookup_insert_eq. cbn. intros [= Ej].
      apply Hi. apply list_elem_of_fmap. by exists j.
  - exists m'. split; [rewrite E; unfold ng1; by destruct ng as [[]]|]. split; [done|].
    change (e_Mgr (ng_Engine ng1)) with (enrolled d n m) in *. rewrite E4 in F1. rewrite E5 in F2.
    rewrite E1, length_app in F3. cbn in F3.
    assert (Protocols (enrolled d n m) = Protocols m) as E6 by (unfold enrolled, added; by case_bool_decide).
    rewrite E6 in F5.
    split_and!; try done. lia.
Qed.

(** A node that the new engine can be built around: it has its own key, and its ads fit. *)
Record bootable (prv : Prv) (p : Gossip.Params) (st : Start) (h : gmap loc Node) (n0 n : Node) : Prop := {
  bt_local : h !! p_Node p = Some n0;
  bt_node : n = with_Addresses (Node.Addresses n0 ++ p_HostAddrs p) (with_Identity (p_Keys p) (with_Transport (p_Transport p) n0));
  bt_peers : Forall (λ x, is_Some (h !! x)) (p_Nodes p);
  bt_keys : id_Prv (p_Keys p) = Some prv ∧ id_Pub (p_Keys p) = PubKey prv;
  bt_ads : advertisable (st_now st) (st_now' st) n;
}.

(** Its ads, signed and sent. *)
Lemma new_ads prv now now' id n ld (ng : Ng) : signs prv → self prv ng → id_Pub (Identity n) = PubKey prv →
  advertisable now now' n → (∀ sent b, Publish_error sent b = None) →
  let na0 := GenerateAds now now' id n ld in
  ∃ na msgs, sign_ads (with_NodeAds na0 ng) = Ret (tt, with_NodeAds na ng) ∧ signed_ads prv now now' id n ld na ∧
    SendAds (with_NodeAds na ng) = Ret (None, with_published (ng_published ng ++ msgs) (with_NodeAds na ng)) ∧
    length msgs = 4%nat.
Proof.
  intros HS HF HPub Hads HPb na0.
  assert (∀ a, Some a ∈ GetAsCerts na0 → act_ok a) as Hok.
  { intros a Ha. by destruct (generated_ok _ _ _ _ _ _ Hads Ha) as (? & [= <-] & ? & _). }
  destruct (sign_ads_total prv _ _ _ _ (with_NodeAds na0 ng) HS HF eq_refl) as [na E];
    [apply Hok; by do 2 right; left|apply Hok; by left|apply Hok; by do 3 right; left|apply Hok; by do 1 right; left|].
  destruct (signing prv now now' id n ld ng (with_NodeAds na ng) HF HPub Hads) as (na' & Ena & Hsig).
  { rewrite (bind_run _ _ ng tt (with_NodeAds na0 ng)) by done. exact E. }
  assert (na' = na) as -> by (by apply (f_equal ng_NodeAds) in Ena).
  pose proof Hsig as [(pa & aa & sa & la & Hna) HSg _ _ _ _].
  assert (∃ msgs, Forall2 (λ v m, ∃ a, v = Some a ∧ act_encoded a = Ret m) (GetAsCerts na) msgs) as [msgs Hmsgs].
  { clear -crl mal HSg. induction (GetAsCerts na) as [|v l IH]; [by eexists|].
    destruct (HSg v (list_elem_of_here _ _)) as (b & -> & a & _ & [Hb _ _ _] & _).
    destruct (act_message b Hb) as (msg & Em & _).
    destruct IH as [msgs IH]; [intros w Hw; apply HSg; by right|]. exists (msg :: msgs). constructor; [by exists b|done]. }
  exists na, msgs. split; [done|]. split; [done|]. split; [exact (send_certs_run _ _ (with_NodeAds na ng) HPb Hmsgs)|].
  by rewrite <- (Forall2_length _ _ _ Hmsgs).
Qed.

(** C22: [New] gives an engine that is ready to run, when its node's ads fit, its key signs
    and the topic takes what is published: the manager is well formed, the local node
    comes twice, before the other nodes, with the host's addresses added; its four ads
    are signed with its key and published; and it has as many sessions for replies as
    it was asked for, at the fifth hop and without balance.  No protocol is enabled. *)
Theorem New_ready prv p st ks h d n0 n :
  bootable prv p st h n0 n → signs prv → (∀ sent b, Publish_error sent b = None) →
  st_KeySet st = inl ks → st_Gossip st = None → 0 ≤ p_NReturnSessions p →
  NoDup ((λ j, Keys_Bytes (st_Session st j).1.2) <$> seq 0 (Z.to_nat (p_NReturnSessions p))) →
  ∃ ng : Ng, New_ p st h d = Ret (Some ng, None) ∧
    let m := e_Mgr (ng_Engine ng) in
    wf m ∧ nodes m = p_Node p :: p_Node p :: p_Nodes p ∧ nodeAt m !! p_Node p = Some n ∧ Protocols m = 0 ∧
    zlen (Sessions m) = p_NReturnSessions p ∧ Forall (reply_session (p_Node p) m) (Sessions m) ∧
    signed_ads prv (st_now st) (st_now' st) (st_ID st) n (z2b 25) (ng_NodeAds ng) ∧ length (ng_published ng) = 4%nat.
Proof.
  intros [Hl En Hp [HK HPub] Hads] HS HPb EK EG HN ND. set (l := p_Node p) in *. set (h' := <[l := n]> h).
  destruct (new_manager_wf (ProtocolsAvailable (Some (p_HostAddrs p))) h' l (p_Nodes p)) as [EA W].
  { constructor; [exists n; apply lookup_insert_eq|]. eapply Forall_impl; [exact Hp|]. intros x [y Hx].
    destruct (decide (x = l)) as [->|]; [exists n; apply lookup_insert_eq|exists y; unfold h'; by rewrite lookup_insert_ne]. }
  set (m := with_nodes _ _) in *.
  set (ng m := MkNg (MkEngine m (MkPending false []) NewHiddenRouting 0 ks 0) (p_HostID p) (MkNodeAds None None None None) [] d : Ng).
  assert (nodeAt m !! l = Some n) as Hn by apply lookup_insert_eq.
  destruct (new_ads prv (st_now st) (st_now' st) (st_ID st) n (z2b 25) (ng m)) as (na & msgs & ES & Hsig & EP & H4);
    [done|split; [done|]; exists l, n; split_and!; [done|done|by rewrite En]|by rewrite En|done|done|].
  set (ng1 := with_published msgs (with_NodeAds na (ng m))).
  destruct (return_sessions_run st l n (Z.to_nat (p_NReturnSessions p)) 0 ng1) as (m' & ER & W' & F1 & F2 & F5 & F3 & F4);
    try done; [by intros j _ ?%not_elem_of_nil|].
  exists (with_Engine (with_Mgr m' (ng_Engine ng1)) ng1). split.
  - unfold New_. fold l. rewrite Hl, EK. cbv zeta.
    change (Addresses (with_Identity (p_Keys p) (with_Transport (p_Transport p) n0))) with (Addresses n0).
    rewrite <- En. fold h'.
    change (MkNg _ _ _ _ _) with (ng (NewSessionManager (ProtocolsAvailable (Some (p_HostAddrs p))) h' l)).
    assert (New_start p st n (ng (NewSessionManager (ProtocolsAvailable (Some (p_HostAddrs p))) h' l))
      = Ret (None, with_Engine (with_Mgr m' (ng_Engine ng1)) ng1)) as ->; [|done].
    unfold New_start. fold l. rewrite (bind_run _ _ _ tt (ng m)) by (by apply on_Mgr_run).
    rewrite EG. rewrite (bind_run _ _ _ tt (ng m)) by (apply LogEntry_run; by exists l, n).
    rewrite (bind_run _ _ _ tt (with_NodeAds (GenerateAds (st_now st) (st_now' st) (st_ID st) n (z2b 25)) (ng m))) by done.
    rewrite (bind_run _ _ _ _ _ ES), (bind_run _ _ _ _ _ EP). cbn match. fold ng1. by rewrite (bind_run _ _ _ _ _ ER).
  - cbn zeta. change (e_Mgr (ng_Engine (with_Engine (with_Mgr m' (ng_Engine ng1)) ng1))) with m'. split_and!; try done.
    + by rewrite F2.
    + rewrite F5. apply ProtocolsAvailable_none.
    + unfold zlen. rewrite F3. cbn. lia.
Qed.
End New.

#[local] Existing Instances Toy.crypto Toy.laws ToyNet.transports ToyGossip.multiaddrs ToyGossip.multiaddr_laws ToyGossip.peers
  ToyGossip.env ToyGossip.datastore ToyGob.gob ToyGossip.net.

Module ToyStart.
Definition params : Gossip.Params :=
  MkParams None (Identity ToyGossip.local) 1%positive [] 2 ToyGossip.pid [].
Definition start : Start := MkStart (inl (MkKeySet ToyGossip.prv ToyGossip.prv)) None 10 20
  (λ i, arr_of 8 [z2b (Z.of_nat i)])
  (λ i, (arr_of 8 [z2b (Z.of_nat i)], MakeKeys (arr_of 32 [z2b (Z.of_nat i)] : Prv), MakeKeys (arr_of 32 [x09] : Prv))).
Definition heap : gmap loc Node := {[ 1%positive := ToyGossip.local ]}.

Definition empty : DS := (∅ : gmap (list bytes) bytes).

Lemma boots : bootable ToyGossip.prv params start heap ToyGossip.local ToyGossip.local.
Proof.
  split; [reflexivity|reflexivity|constructor|by split|]. exact ToyGossip.local_ads.
Qed.
End ToyStart.

Lemma New_ready_witness : ∃ ng : Ng (User := unit) (IntroHook := unit),
  New_ ToyStart.params ToyStart.start ToyStart.heap ToyStart.empty = Ret (Some ng, None) ∧
  zlen (Sessions (e_Mgr (ng_Engine ng))) = 2 ∧ nodes (e_Mgr (ng_Engine ng)) = [1%positive; 1%positive] ∧
  length (ng_published ng) = 4%nat.
Proof.
  destruct (New_ready (User := unit) (IntroHook := unit) ToyGossip.prv ToyStart.params ToyStart.start
    (MkKeySet ToyGossip.prv ToyGossip.prv) ToyStart.heap ToyStart.empty ToyGossip.local ToyGossip.local
    ToyStart.boots ToyGossip.signing_key) as (ng & E & _ & HN & _ & _ & HS & _ & _ & HP); try reflexivity.
  - done.
  - apply (bool_decide_eq_true_1 _). by vm_compute.
  - exists ng. split; [exact E|]. split; [exact HS|]. split; [exact HN|exact HP].
Defined.
