(* ===== verification/Dispatcher.v ===== *)
(** * The dispatcher

    Models [pkg/engine/dispatcher/dispatcher.go] and the fields of a [transport.Conn]
    it uses: one dispatcher per connection splits outgoing messages into packets,
    collects incoming ones until a message can be joined, changes keys by volume,
    adapts the parity to what acknowledgements say, and collects garbage.  The moving
    averages are the ewma library's; float64 is [SpecFloat] at 53 bits.  Channels are
    the lists of what was sent on them; the readings of the clock and what the random
    generators deliver are arguments. *)

From Stdlib Require Import SpecFloat.
From S2P Require Export EngineProps.

(** ** Floating point *)

Abbreviation float := spec_float.
Definition fl (z : Z) : float := binary_normalize 53 1024 z 0 false.
Definition fmul : float → float → float := SFmul 53 1024.
Definition fdiv : float → float → float := SFdiv 53 1024.
Definition fadd : float → float → float := SFadd 53 1024.
(** Truncation towards zero; infinities and NaN convert to the least integer, whose
    low bits are zero. *)
Definition ftrunc (f : float) : Z :=
  match f with
  | S754_finite s m e =>
      let a := if bool_decide (0 ≤ e) then Z.pos m * 2 ^ e else Z.pos m / 2 ^ (- e) in
      if s then - a else a
  | S754_zero _ => 0
  | S754_infinity _ | S754_nan => - 2 ^ 63
  end.

(** [ewma.MovingAverage] *)
Class Ewma := {
  MA : Type;
  NewMovingAverage : MA;
  ma_Add : MA → float → MA;
  ma_Value : MA → float;
  ma_Set : MA → float → MA;
}.

(** [DefaultStartingParity], [DefaultDispatcherRekey], [TimeoutPingCount] *)
Definition DefaultStartingParity : Z := 64.
Definition DefaultDispatcherRekey : Z := 2 ^ 20.
Definition TimeoutPingCount : Z := 10.

Record Completion := MkCompletion { c_ID : ID; c_Time : Z }.

(** [TxRecord] *)
Record TxRecord := MkTxRecord {
  tx_ID : ID; tx_Hash : Hash; tx_First : Z; tx_Last : Z; tx_Size : Z; tx_Ping : Z }.

Section Dispatcher.
Context {cr : Crypto} {ma : Multiaddrs} {rs : ReedSolomon} {ew : Ewma}.

Abbreviation slots := (list (option Packet)).

(** [transport.Conn]: what was sent through it, in order. *)
Record Conn := MkConn { MTU : Z; RemoteKey : option Pub; c_Sent : list bytes }.

Record Dispatcher := MkDispatcher {
  d_Parity : Z;
  DataSent : Z; DataReceived : Z; TotalSent : Z; TotalReceived : Z;
  ErrorEWMA : MA; d_Ping : MA; PingDivergence : MA;
  Delivered : list bytes;   (* Duplex.Receiver *)
  Requested : list bytes;   (* Duplex.Sender *)
  Done : list Completion;
  PendingInbound : list RxRecord;
  PendingOutbound : list TxRecord;
  Partials : gmap ID slots;
  d_Prv : list Prv;
  KeyLock : bool;
  lastRekey : Z;
  d_ks : KeySet;
  d_Conn : Conn;
  d_Mutex : bool;
  rekeying : bool;
}.

Definition set_traffic ds dr ts tr (d : Dispatcher) := MkDispatcher (d_Parity d) ds dr ts tr
  (ErrorEWMA d) (d_Ping d) (PingDivergence d) (Delivered d) (Requested d) (Done d) (PendingInbound d)
  (PendingOutbound d) (Partials d) (d_Prv d) (KeyLock d) (lastRekey d) (d_ks d) (d_Conn d) (d_Mutex d) (rekeying d).
Definition set_quality par er pg pd (d : Dispatcher) := MkDispatcher par (DataSent d) (DataReceived d)
  (TotalSent d) (TotalReceived d) er pg pd (Delivered d) (Requested d) (Done d) (PendingInbound d)
  (PendingOutbound d) (Partials d) (d_Prv d) (KeyLock d) (lastRekey d) (d_ks d) (d_Conn d) (d_Mutex d) (rekeying d).
Definition set_queues dl rq (d : Dispatcher) := MkDispatcher (d_Parity d) (DataSent d) (DataReceived d)
  (TotalSent d) (TotalReceived d) (ErrorEWMA d) (d_Ping d) (PingDivergence d) dl rq (Done d) (PendingInbound d)
  (PendingOutbound d) (Partials d) (d_Prv d) (KeyLock d) (lastRekey d) (d_ks d) (d_Conn d) (d_Mutex d) (rekeying d).
Definition set_records dn pin pout pa (d : Dispatcher) := MkDispatcher (d_Parity d) (DataSent d) (DataReceived d)
  (TotalSent d) (TotalReceived d) (ErrorEWMA d) (d_Ping d) (PingDivergence d) (Delivered d) (Requested d) dn pin
  pout pa (d_Prv d) (KeyLock d) (lastRekey d) (d_ks d) (d_Conn d) (d_Mutex d) (rekeying d).
Definition set_keys pr lr ks (d : Dispatcher) := MkDispatcher (d_Parity d) (DataSent d) (DataReceived d)
  (TotalSent d) (TotalReceived d) (ErrorEWMA d) (d_Ping d) (PingDivergence d) (Delivered d) (Requested d) (Done d)
  (PendingInbound d) (PendingOutbound d) (Partials d) pr (KeyLock d) lr ks (d_Conn d) (d_Mutex d) (rekeying d).
Definition set_conn c (d : Dispatcher) := MkDispatcher (d_Parity d) (DataSent d) (DataReceived d)
  (TotalSent d) (TotalReceived d) (ErrorEWMA d) (d_Ping d) (PingDivergence d) (Delivered d) (Requested d) (Done d)
  (PendingInbound d) (PendingOutbound d) (Partials d) (d_Prv d) (KeyLock d) (lastRekey d) (d_ks d) c (d_Mutex d)
  (rekeying d).
Definition set_locks kl mx rk (d : Dispatcher) := MkDispatcher (d_Parity d) (DataSent d) (DataReceived d)
  (TotalSent d) (TotalReceived d) (ErrorEWMA d) (d_Ping d) (PingDivergence d) (Delivered d) (Requested d) (Done d)
  (PendingInbound d) (PendingOutbound d) (Partials d) (d_Prv d) kl (lastRekey d) (d_ks d) (d_Conn d) mx rk.

Definition upd_d (f : Dispatcher → Dispatcher) : GoM Dispatcher unit := λ d, Ret (tt, f d).

Definition add_traffic ds dr ts tr (d : Dispatcher) : Dispatcher :=
  set_traffic (DataSent d + ds) (DataReceived d + dr) (TotalSent d + ts) (TotalReceived d + tr) d.
Definition set_Pending pin pa (d : Dispatcher) : Dispatcher :=
  set_records (Done d) pin (PendingOutbound d) pa d.
Definition set_Outbound pout (d : Dispatcher) : Dispatcher :=
  set_records (Done d) (PendingInbound d) pout (Partials d) d.

(** [d.Mutex.Lock()], [Unlock()], [Mx] *)
Definition D_Lock : GoM Dispatcher unit := λ d,
  if d_Mutex d then Panic PBlock else Ret (tt, set_locks (KeyLock d) true (rekeying d) d).
Definition D_Unlock : GoM Dispatcher unit := λ d,
  if d_Mutex d then Ret (tt, set_locks (KeyLock d) false (rekeying d) d) else Panic PLock.
Definition Mx {A} (fn : GoM Dispatcher A) : GoM Dispatcher A := D_Lock ;; a ← fn; D_Unlock ;; mret a.

(** [d.Duplex.Send]: a request to the dispatcher itself. *)
Definition Duplex_Send (b : bytes) : GoM Dispatcher unit :=
  upd_d (λ d, set_queues (Delivered d) (Requested d ++ [b]) d).

(** [GetRxRecordAndPartials]: the record by its position. *)
Definition GetRxRecordAndPartials (id : ID) (d : Dispatcher) : option nat * slots :=
  (fst <$> list_find (λ v, rx_ID v = id) (PendingInbound d), default [] (Partials d !! id)).

(** ** Acknowledgements *)

(** A matching acknowledgement: the averages, and the parity they give. *)
Definition acknowledge (r : RxRecord) (p : TxRecord) : GoM Dispatcher unit :=
  upd_d (λ d,
    let d := if decide (rx_Hash r = tx_Hash p) then add_traffic (tx_Size p) 0 0 0 d else d in
    let er := if bool_decide (MTU (d_Conn d) - Overhead ≤ tx_Size p)
              then ma_Add (ErrorEWMA d) (fdiv (fl (tx_Size p)) (fl (rx_Received r))) else ErrorEWMA d in
    let tot := wraps 64 (tx_Last p - tx_First p) in
    let pd := ma_Add (PingDivergence d) (fdiv (fl (rx_Ping r)) (fl tot)) in
    let pv := fmul (fmul (fl (d_Parity d)) (ma_Value pd)) (fadd (fl 1) (ma_Value er)) in
    set_quality (wrapu 8 (ftrunc pv)) er (d_Ping d) pd d).

(** The loop leaves with the records before the match; the ones behind it are not
    looked at. *)
Fixpoint ack_loop (r : RxRecord) (pending tmp : list TxRecord) : GoM Dispatcher (list TxRecord) :=
  match pending with
  | [] => mret tmp
  | p :: pending =>
      if decide (tx_ID p = rx_ID r) then acknowledge r p ;; mret tmp
      else ack_loop r pending (tmp ++ [p])
  end.

(** [Handle] of a message with its record, given by position. *)
Definition rx_with_Hash (h : Hash) (r : RxRecord) : RxRecord :=
  MkRxRecord (rx_ID r) h (rx_First r) (rx_Last r) (rx_Size r) (rx_Received r) (rx_Ping r).

(** What the message says is done. *)
Definition handle_codec (c : Codec) : GoM Dispatcher unit :=
  match c with
  | CNewKey None => panicM PNil
  | CNewKey (Some k) =>
      d ← get;
      match RemoteKey (d_Conn d) with
      | None => panicM PNil
      | Some k' =>
          if Pub_Equals k' k then mret tt
          else upd_d (λ d, set_conn (MkConn (MTU (d_Conn d)) (Some k) (c_Sent (d_Conn d))) d)
      end
  | CAcknowledge r =>
      d ← get;
      tmp ← ack_loop r (PendingOutbound d) [];
      upd_d (set_Outbound tmp)
  | COnionMsg b => upd_d (λ d, set_queues (Delivered d ++ [b]) (Requested d) d)
  | _ => mret tt
  end.

Definition handle_message (m : bytes) : GoM Dispatcher unit :=
  r ← lift (Recognise the_registry (NewFrom m)); let '(c, s) := r in
  match c with
  | None => mret tt
  | Some c =>
      _ ← lift (Codec_Magic c);
      r ← lift (Codec_Decode c s); let '((c, e), _) := r in
      match e with Some _ => mret tt | None => handle_codec c end
  end.

Definition Handle (m : bytes) (i : nat) : GoM Dispatcher unit :=
  d ← get;
  rxr ← lift (goindex (PendingInbound d) (Z.of_nat i));
  if bool_decide (Exists (λ c, c_ID c = rx_ID rxr) (Done d)) then mret tt
  else
    upd_d (λ d, set_Pending (<[i := rx_with_Hash (Single m) rxr]> (PendingInbound d)) (Partials d) d) ;;
    handle_message m.

Definition HandlePing (rtt : Z) : GoM Dispatcher unit :=
  Mx (upd_d (λ d, set_quality (d_Parity d) (ErrorEWMA d) (ma_Add (d_Ping d) (fl rtt)) (PingDivergence d) d)).

(** ** Sending *)

(** What a call draws: a key, an identifier, the padding, the nonces, the order the
    packets are shuffled into, and the clock when it starts and when it is done. *)
Record Draws := MkDraws {
  dr_Prv : option Prv; dr_ID : ID; dr_seed : arr 32; dr_rnd : Z → IV * Blinder;
  dr_shuffle : list bytes → list bytes; dr_start : Z; dr_end : Z }.

(** [packet.SplitToPackets] on the dispatcher's key set; a segmentation that does not
    end does not return. *)
Definition split (dr : Draws) (m : bytes) : GoM Dispatcher (Z * list bytes * option error) := λ d,
  let pp := MkPacketParams (dr_ID dr) (RemoteKey (d_Conn d)) None (d_Parity d) 0 (zlen m) m in
  match SplitToPackets (dr_seed dr) (dr_rnd dr) pp (MTU (d_Conn d)) (d_ks d) with
  | None => Panic PFuel
  | Some (Panic p) => Panic p
  | Some (Ret (r, _, ks)) => Ret (r, set_keys (d_Prv d) (lastRekey d) ks d)
  end.

Definition send_packets (l : list bytes) : GoM Dispatcher unit :=
  upd_d (λ d, set_conn (MkConn (MTU (d_Conn d)) (RemoteKey (d_Conn d)) (c_Sent (d_Conn d) ++ l)) d).

(** The record of what was sent, and the traffic it was. *)
Definition record_sent (dr : Draws) (m : bytes) (l : list bytes) : GoM Dispatcher unit :=
  upd_d (λ d,
    let txr := MkTxRecord (dr_ID dr) (Single m) (dr_start dr) (dr_end dr) (zlen m)
                 (wraps 64 (ftrunc (ma_Value (d_Ping d)))) in
    set_Outbound (PendingOutbound d ++ [txr]) (add_traffic 0 0 (SumLen l) 0 d)).

Definition mark_rekey : GoM Dispatcher unit :=
  upd_d (λ d, set_keys (d_Prv d) (Z.abs (TotalReceived d)) (d_ks d) d).
Definition toggle_rekeying : GoM Dispatcher unit :=
  upd_d (λ d, set_locks (KeyLock d) (d_Mutex d) (negb (rekeying d)) d).

(** A new key is sent under the old one; the oldest thirty-two keys are kept. *)
Definition send_key (dr : Draws) : GoM Dispatcher unit :=
  match dr_Prv dr with
  | None => mret tt
  | Some prv =>
      r ← lift (NewKey_Encode (Some (PubKey prv)) (New (Z.to_nat NewKey_Len))); let '(e, keyMsg) := r in
      match e with
      | Some _ => mret tt
      | None =>
          let m := GetAll keyMsg in
          r ← split dr m; let '(_, packets, e) := r in
          match e with
          | Some _ => mret tt
          | None =>
              let packets := dr_shuffle dr packets in
              send_packets packets ;; mark_rekey ;; record_sent dr m packets ;;
              upd_d (λ d, set_keys (take 32 (d_Prv d ++ [prv])) (lastRekey d) (d_ks d) d)
          end
      end
  end.

Definition ReKey (dr : Draws) : GoM Dispatcher unit :=
  mark_rekey ;;
  d ← get;
  if rekeying d then mret tt else toggle_rekeying ;; send_key dr ;; toggle_rekeying.

Definition SendToConn (dr : Draws) (m : bytes) : GoM Dispatcher Z :=
  r ← split dr m; let '(pieces, packets, e) := r in
  match e with
  | Some _ => mret pieces
  | None =>
      let packets := dr_shuffle dr packets in
      send_packets packets ;;
      D_Lock ;; record_sent dr m packets ;; D_Unlock ;;
      mret pieces
  end.

(** ** Receiving *)

(** The search runs from the newest key to the oldest and keeps the last match. *)
Definition find_key (to : CloakedPubKey) (prvs : list Prv) : option Prv :=
  foldl (λ found k, if Match to (Pub_ToBytes (PubKey k)) then Some k else found) None (rev prvs).
Definition search_key (to : CloakedPubKey) : GoM Dispatcher (option Prv) := λ d,
  if KeyLock d then Panic PBlock else Ret (find_key to (d_Prv d), d).

(** The bytes are counted, and the key changed when enough came in. *)
Definition count_received (dr : Draws) (m : bytes) : GoM Dispatcher unit :=
  Mx (upd_d (add_traffic 0 0 0 (zlen m)) ;;
      d ← get;
      if bool_decide (DefaultDispatcherRekey < wrapu 64 (Z.abs (TotalReceived d - lastRekey d)))
      then mark_rekey ;; ReKey dr else mret tt).

(** How many packets of the connection's size the message would fill. *)
Definition segCount (p : Packet) (d : Dispatcher) : Out Z :=
  let mtu := MTU (d_Conn d) in
  if bool_decide (mtu = 0) then Panic (PMsg "integer divide by zero")
  else Ret (Z.quot (pk_Length p) mtu + if bool_decide (0 < Z.rem (pk_Length p) mtu) then 1 else 0).

(** A packet of a message that is done ends the call when the message is complete. *)
Fixpoint is_done (p : Packet) (l : list Completion) : GoM Dispatcher bool :=
  match l with
  | [] => mret false
  | c :: l =>
      if decide (pk_ID p = c_ID c) then
        d ← get;
        n ← lift (segCount p d);
        if bool_decide (n ≤ zlen (default [] (Partials d !! pk_ID p))) then mret true else is_done p l
      else is_done p l
  end.

Definition rx_more (n now : Z) (r : RxRecord) : RxRecord :=
  MkRxRecord (rx_ID r) (rx_Hash r) (rx_First r) now (rx_Size r) (wrapu 64 (rx_Received r + n)) (rx_Ping r).

(** A packet goes to those of its message; the first makes a record. *)
Definition file_packet (now : Z) (m : bytes) (p : Packet) : GoM Dispatcher (nat * bool) :=
  Mx (d ← get;
      let '(rxr, packets) := GetRxRecordAndPartials (pk_ID p) d in
      i ← match rxr with
          | Some i =>
              r ← lift (goindex (PendingInbound d) (Z.of_nat i));
              upd_d (set_Pending (<[i := rx_more (zlen m) now r]> (PendingInbound d))
                       (<[pk_ID p := packets ++ [Some p]]> (Partials d))) ;; mret i
          | None =>
              let r := MkRxRecord (pk_ID p) (arr_zero 32) now now (pk_Length p) (zlen m)
                         (wraps 64 (ftrunc (ma_Value (d_Ping d)))) in
              upd_d (set_Pending (PendingInbound d ++ [r]) (<[pk_ID p := [Some p]]> (Partials d))) ;;
              mret (length (PendingInbound d))
          end;
      stop ← is_done p (Done d); mret (i, stop)).

(** The join; its packets replace the collected ones also when it fails. *)
Definition join (p : Packet) : GoM Dispatcher bytes :=
  Mx (d ← get;
      r ← lift (JoinPackets (default [] (Partials d !! pk_ID p))); let '(packets, msg, e) := r in
      upd_d (set_Pending (PendingInbound d) (<[pk_ID p := packets]> (Partials d))) ;;
      match e with
      | Some _ => mret msg
      | None =>
          let n := foldr (λ v a, zlen (pk_Data v) + Packet_GetOverhead + a) 0 (omap id packets) in
          upd_d (add_traffic 0 (zlen msg) 0 n) ;; mret msg
      end).

(** Nothing stops the call when no key was found, nor when the join failed. *)
Definition RecvFromConn (dr : Draws) (now : Z) (m : bytes) : GoM Dispatcher unit :=
  r ← lift (GetKeysFromPacket m); let '(from, to, iv, e) := r in
  match e with
  | Some _ => mret tt
  | None =>
      prv ← search_key to;
      r ← lift (DecodePacket now m from prv iv); let '((p, e), _) := r in
      match p, e with
      | Some p, None =>
          count_received dr m ;;
          r ← file_packet now m p; let '(i, stop) := r in
          if stop : bool then mret tt
          else
            d ← get;
            n ← lift (segCount p d);
            if bool_decide (n < zlen (default [] (Partials d !! pk_ID p)))
            then msg ← join p; Handle msg i
            else mret tt
      | _, _ => mret tt
      end
  end.

(** ** Garbage collection *)

(** [Done] is filtered by what stands at the same index of [PendingInbound]. *)
Fixpoint keep_done (pin : list RxRecord) (i : nat) (l : list Completion) : Out (list Completion) :=
  match l with
  | [] => Ret []
  | c :: l =>
      r ← goindex pin (Z.of_nat i);
      k ← keep_done pin (S i) l;
      Ret (if decide (rx_ID r = c_ID c) then k else c :: k)
  end.

(** One message's packets, with the test for a time-out. *)
Definition gc_one (now : Z) (dpi : ID) : GoM Dispatcher (list RxRecord) :=
  d ← get;
  match Partials d !! dpi with
  | None | Some [] => mret []
  | Some dp =>
      let tmp := omap id dp in
      p0 ← lift (goindex tmp 0);
      let newest := foldl (λ t p, if bool_decide (t < TimeStamp p) then TimeStamp p else t) (TimeStamp p0) tmp in
      if bool_decide (wraps 64 (wraps 64 (ftrunc (ma_Value (d_Ping d))) * TimeoutPingCount) < newest - now) then
        let stale r := bool_decide (rx_ID r = pk_ID p0) in
        let tmpR := filter (λ r, stale r = false) (PendingInbound d) in
        done ← lift (keep_done tmpR 0 (Done d));
        upd_d (set_records done tmpR (PendingOutbound d) (delete dpi (Partials d))) ;;
        mret (filter (λ r, stale r = true) (PendingInbound d))
      else mret []
  end.

Fixpoint gc_scan (now : Z) (order : list ID) : GoM Dispatcher (list RxRecord) :=
  match order with
  | [] => mret []
  | k :: order => a ← gc_one now k; b ← gc_scan now order; mret (a ++ b)
  end.

Definition ack_bytes (r : RxRecord) : Out (option error * bytes) :=
  x ← Acknowledge_Encode r (New (Z.to_nat Acknowledge_Len)); Ret (x.1, GetAll x.2).

Fixpoint send_acks (l : list RxRecord) : GoM Dispatcher unit :=
  match l with
  | [] => mret tt
  | r :: l =>
      x ← lift (ack_bytes r);
      (match x.1 with Some _ => mret tt | None => Duplex_Send x.2 end) ;; send_acks l
  end.

(** [RunGC], with the order the map is ranged over. *)
Definition RunGC (now : Z) (order : list ID) : GoM Dispatcher unit :=
  rxr ← gc_scan now order; send_acks rxr.

(** [SendAck]: [Mx] under the mutex. *)
Fixpoint ack_pending (rxr : RxRecord) (l : list RxRecord) : GoM Dispatcher (list RxRecord) :=
  match l with
  | [] => mret []
  | v :: l =>
      (if decide (rx_ID rxr ≠ rx_ID v) then mret tt
       else x ← lift (ack_bytes rxr); Duplex_Send x.2) ;;
      tmp ← ack_pending rxr l;
      mret (if decide (rx_ID rxr ≠ rx_ID v) then v :: tmp else tmp)
  end.
Definition SendAck (rxr : RxRecord) : GoM Dispatcher unit :=
  D_Lock ;;
  Mx (d ← get; tmp ← ack_pending rxr (PendingInbound d); upd_d (λ d, set_Pending tmp (Partials d) d)) ;;
  D_Unlock.

(** ** The life of a dispatcher *)

(** [NewDispatcher]: the two raw keys come from the connection's identities; when one
    cannot be had the dispatcher is returned as far as it was made. *)
Definition NewDispatcher (conn : Conn) (ks : KeySet) (local remote : option bytes) (dr : Draws)
    : Out Dispatcher :=
  let d := MkDispatcher 0 0 0 0 0 NewMovingAverage NewMovingAverage NewMovingAverage [] [] [] [] [] ∅ []
             false 0 ks conn false false in
  match local with
  | None => Ret d
  | Some rprk =>
      let d := set_keys [PrivKeyFromBytes rprk] 0 ks d in
      match remote with
      | None => Ret d
      | Some rpk =>
          match PubFromBytes rpk with
          | (_, Some _) => Ret d
          | (pk, None) =>
              let d := set_conn (MkConn (MTU conn) pk (c_Sent conn)) d in
              let d := set_quality DefaultStartingParity (ma_Set (ErrorEWMA d) (fl 0)) (d_Ping d)
                         (ma_Set (PingDivergence d) (fl 1)) d in
              r ← Mx (ReKey dr) d; Ret r.2
          end
      end
  end.

(** What the dispatcher's goroutine reacts to. *)
Inductive event :=
| EGarbage (now : Z) (order : list ID)
| EPing (rtt : Z)
| ERecv (dr : Draws) (now : Z) (m : bytes)
| ESend (dr : Draws) (m : bytes).

Definition react (ev : event) : GoM Dispatcher unit :=
  match ev with
  | EGarbage now order => RunGC now order
  | EPing rtt => HandlePing rtt
  | ERecv dr now m => RecvFromConn dr now m
  | ESend dr m => SendToConn dr m ;; mret tt
  end.

Inductive reach (d : Dispatcher) : Dispatcher → Prop :=
| reach_refl : reach d d
| reach_step d1 d2 ev : reach d d1 → react ev d1 = Ret (tt, d2) → reach d d2.
End Dispatcher.
