(* ===== verification/DispatcherInv.v ===== *)
(** * What every state of a dispatcher satisfies

    A dispatcher's records and the packets it collects belong together, its keys
    and its parity stay within bounds, and no call that returns leaves a lock taken:
    an invariant of every run, by a weakest precondition for computations that may
    panic, [after]. *)

From S2P Require Export Dispatcher.

(** ** Running the dispatcher *)

Section Recv.
Context {cr : Crypto} {crl : CryptoLaws} {ma : Multiaddrs} {rs : ReedSolomon} {ew : Ewma}.

(** No lock is held, and no message counts as done. *)
Record idle (d : Dispatcher) : Prop := {
  idle_mutex : d_Mutex d = false;
  idle_keys : KeyLock d = false;
  idle_done : Done d = [];
}.

Lemma set_locks_id b (d : Dispatcher) : d_Mutex d = false →
  set_locks (KeyLock d) false (rekeying d) (set_locks (KeyLock d) b (rekeying d) d) = d.
Proof. destruct d; cbn. by intros ->. Qed.

(** [Mx] of something that leaves the locks as they are. *)
Lemma Mx_run {A} (m : GoM Dispatcher A) (d : Dispatcher) a d' :
  d_Mutex d = false → m (set_locks (KeyLock d) true (rekeying d) d) = Ret (a, d') → d_Mutex d' = true →
  Mx m d = Ret (a, set_locks (KeyLock d') false (rekeying d') d').
Proof.
  intros Hm E Hm'. unfold Mx. rewrite (bind_run D_Lock _ d tt (set_locks (KeyLock d) true (rekeying d) d)).
  - rewrite (bind_run _ _ _ _ _ E). rewrite (bind_run D_Unlock _ d' tt (set_locks (KeyLock d') false (rekeying d') d')); [done|].
    unfold D_Unlock. by rewrite Hm'.
  - unfold D_Lock. by rewrite Hm.
Qed.

Lemma Mx_panic {A} (m : GoM Dispatcher A) (d : Dispatcher) p :
  d_Mutex d = false → m (set_locks (KeyLock d) true (rekeying d) d) = Panic p → Mx m d = Panic p.
Proof.
  intros Hm E. unfold Mx. rewrite (bind_run D_Lock _ d tt (set_locks (KeyLock d) true (rekeying d) d)).
  - by apply bind_panic.
  - unfold D_Lock. by rewrite Hm.
Qed.

(** A packet this dispatcher has the key for. *)
Definition opens (now : Z) (d : Dispatcher) (w : bytes) (p : Packet) : Prop :=
  ∃ pub to iv prv w', GetKeysFromPacket w = Ret (Some pub, to, iv, None) ∧
    find_key to (d_Prv d) = Some prv ∧
    DecodePacket now w (Some pub) (Some prv) iv = Ret ((Some p, None), w').

(** Not yet enough was received to change the key. *)
Definition quiet (n : Z) (d : Dispatcher) : Prop :=
  wrapu 64 (Z.abs (TotalReceived d + n - lastRekey d)) ≤ DefaultDispatcherRekey.

(** The dispatcher with a packet counted and filed, and where its record is. *)
Definition filed (now : Z) (w : bytes) (p : Packet) (d : Dispatcher) : nat * Dispatcher :=
  let d := add_traffic 0 0 0 (zlen w) d in
  match list_find (λ v, rx_ID v = pk_ID p) (PendingInbound d) with
  | Some (i, r) =>
      (i, set_Pending (<[i := rx_more (zlen w) now r]> (PendingInbound d))
            (<[pk_ID p := default [] (Partials d !! pk_ID p) ++ [Some p]]> (Partials d)) d)
  | None =>
      (length (PendingInbound d),
       set_Pending (PendingInbound d ++ [MkRxRecord (pk_ID p) (arr_zero 32) now now (pk_Length p) (zlen w)
                      (wraps 64 (ftrunc (ma_Value (d_Ping d))))])
         (<[pk_ID p := [Some p]]> (Partials d)) d)
  end.

Lemma count_received_quiet dr w (d : Dispatcher) : d_Mutex d = false → quiet (zlen w) d →
  count_received dr w d = Ret (tt, add_traffic 0 0 0 (zlen w) d).
Proof.
  intros Hm HQ. unfold count_received.
  set (d1 := add_traffic 0 0 0 (zlen w) (set_locks (KeyLock d) true (rekeying d) d)).
  rewrite (Mx_run _ d tt d1 Hm); [| |done].
  - do 2 f_equal. unfold d1. destruct d; cbn in *. by subst.
  - rewrite (bind_run _ _ _ tt d1) by done. change ((get ≫= ?f) d1) with (f d1 d1). cbn beta.
    rewrite bool_decide_false; [done|]. unfold quiet in HQ.
    change (TotalReceived d1) with (TotalReceived d + zlen w). change (lastRekey d1) with (lastRekey d). lia.
Qed.

Lemma file_packet_run now w p (d : Dispatcher) : d_Mutex d = false → Done d = [] →
  file_packet now w p (add_traffic 0 0 0 (zlen w) d)
  = Ret (((filed now w p d).1, false), (filed now w p d).2).
Proof.
  intros Hm HD. unfold file_packet. set (e := add_traffic 0 0 0 (zlen w) d).
  set (e1 := set_locks (KeyLock e) true (rekeying e) e).
  unfold filed. fold e.
  destruct (list_find (λ v, rx_ID v = pk_ID p) (PendingInbound e)) as [[i r]|] eqn:E.
  - pose proof E as (Hi & _ & _)%list_find_Some.
    set (e2 := set_Pending (<[i := rx_more (zlen w) now r]> (PendingInbound e1))
            (<[pk_ID p := default [] (Partials e1 !! pk_ID p) ++ [Some p]]> (Partials e1)) e1).
    rewrite (Mx_run _ e (i, false) e2); [|done| |done].
    + do 2 f_equal. unfold e2, e1, e. destruct d; cbn in *. by subst.
    + fold e1. change ((get ≫= ?f) e1) with (f e1 e1). cbn beta. unfold GetRxRecordAndPartials.
      change (PendingInbound e1) with (PendingInbound e). rewrite E. cbn [fmap option_fmap option_map fst].
      erewrite bind_run; cycle 1.
      { rewrite (bind_run _ _ _ _ _ (lift_run _ _ e1 (goindex_lookup _ _ _ Hi))).
        by rewrite (bind_run _ _ e1 tt e2). }
      change (Done e1) with (Done d). by rewrite HD.
  - set (e2 := set_Pending (PendingInbound e1 ++ [MkRxRecord (pk_ID p) (arr_zero 32) now now (pk_Length p) (zlen w)
                      (wraps 64 (ftrunc (ma_Value (d_Ping e1))))]) (<[pk_ID p := [Some p]]> (Partials e1)) e1).
    rewrite (Mx_run _ e (length (PendingInbound e), false) e2); [|done| |done].
    + do 2 f_equal. unfold e2, e1, e. destruct d; cbn in *. by subst.
    + fold e1. change ((get ≫= ?f) e1) with (f e1 e1). cbn beta. unfold GetRxRecordAndPartials.
      change (PendingInbound e1) with (PendingInbound e). rewrite E. cbn [fmap option_fmap option_map].
      erewrite bind_run by (by rewrite (bind_run _ _ e1 tt e2)).
      change (Done e1) with (Done d). by rewrite HD.
Qed.

(** Receiving a packet: it is filed, and when the message has more packets than its
    length would fill, they are joined and the result is handled. *)
Lemma RecvFromConn_run dr now w p (d : Dispatcher) :
  idle d → quiet (zlen w) d → opens now d w p → MTU (d_Conn d) ≠ 0 →
  let '(i, d1) := filed now w p d in
  ∃ n, segCount p d = Ret n ∧
  RecvFromConn dr now w d
  = if decide (n < zlen (default [] (Partials d1 !! pk_ID p)))
    then (msg ← join p; Handle msg i) d1 else Ret (tt, d1).
Proof.
  intros I HQ (pub & to & iv & prv & w' & EG & EK & ED) HM.
  destruct (filed now w p d) as [i d1] eqn:EF.
  assert (d_Conn d1 = d_Conn d) as EC.
  { unfold filed in EF. destruct (list_find _ _) as [[]|] in EF; by injection EF as _ <-. }
  assert (∃ n, segCount p d = Ret n) as [n En] by (unfold segCount; rewrite bool_decide_false by done; eauto).
  exists n. split; [done|]. unfold RecvFromConn.
  rewrite (bind_run _ _ _ _ _ (lift_run _ _ d EG)).
  rewrite (bind_run (search_key to) _ d (Some prv) d) by (unfold search_key; by rewrite (idle_keys d I), EK).
  rewrite (bind_run _ _ _ _ _ (lift_run _ _ d ED)). cbn match.
  rewrite (bind_run _ _ _ _ _ (count_received_quiet dr w d (idle_mutex d I) HQ)).
  rewrite (bind_run _ _ _ _ _ (file_packet_run now w p d (idle_mutex d I) (idle_done d I))).
  rewrite EF. cbn [fst snd]. change ((get ≫= ?f) d1) with (f d1 d1). cbn beta.
  assert (segCount p d1 = Ret n) as En1 by (unfold segCount in *; by rewrite EC).
  rewrite (bind_run _ _ _ _ _ (lift_run _ _ d1 En1)).
  by destruct (decide _); [rewrite bool_decide_true|rewrite bool_decide_false].
Qed.

(** An empty message is no message: looking for its magic panics. *)
Lemma Handle_empty i r (d : Dispatcher) : Done d = [] → PendingInbound d !! i = Some r →
  Handle [] i d = Panic PSlice.
Proof.
  intros HD Hi. unfold Handle. change ((get ≫= ?f) d) with (f d d). cbn beta.
  rewrite (bind_run _ _ _ _ _ (lift_run _ _ d (goindex_lookup _ _ _ Hi))), HD.
  rewrite bool_decide_false by (by intros ?%Exists_nil).
  rewrite (bind_run _ _ d tt (set_Pending (<[i := rx_with_Hash (Single []) r]> (PendingInbound d)) (Partials d) d)) by done.
  apply bind_panic. reflexivity.
Qed.
End Recv.

(** ** The packets that come back from a join *)

Section JoinSlots.
Context {cr : Crypto} {rs : ReedSolomon}.

Lemma goslice_sub {A} (l l' : list A) lo hi : goslice l lo hi = Ret l' → l' ⊆ l.
Proof.
  unfold goslice. intros E. case_bool_decide; [|done]. injection E as <-.
  intros x [k (Hk & _)%lookup_take_Some]%list_elem_of_lookup_1. rewrite lookup_drop in Hk.
  by eapply list_elem_of_lookup_2.
Qed.

Lemma RemovePacket_sub {A} (l l' : list A) i : RemovePacket l i = Ret l' → l' ⊆ l.
Proof.
  unfold RemovePacket. intros E. destruct (goslice l 0 i) as [a|] eqn:Ea; [|done]. cbn [mbind Out_bind] in E.
  destruct (goslice l (i + 1) _) as [b|] eqn:Eb; [|done]. injection E as <-.
  apply goslice_sub in Ea, Eb. set_solver.
Qed.

Lemma insert_elem {A} (l : list A) i x y : y ∈ <[i := x]> l → y = x ∨ y ∈ l.
Proof.
  intros [k Hk]%list_elem_of_lookup_1. apply list_lookup_insert_Some in Hk as [(_ & -> & _)|[_ Hk]]; [by left|].
  right. by eapply list_elem_of_lookup_2.
Qed.

Lemma remove_all_sub (l l' : list Packet) i ds : remove_all l i ds = Ret l' → l' ⊆ l.
Proof.
  revert l i; induction ds as [|d ds IH]; intros l i E; [by injection E as <-|]. cbn [remove_all] in E.
  destruct (RemovePacket l (d - i)) as [l1|] eqn:E1; [|done]. cbn [mbind Out_bind] in E.
  etrans; [by eapply IH|]. by eapply RemovePacket_sub.
Qed.

Lemma collate_sub (l : list Packet) (pkts pkts' : list (option Packet)) p :
  collate l pkts = Ret pkts' → Some p ∈ pkts' → Some p ∈ pkts ∨ p ∈ l.
Proof.
  revert pkts; induction l as [|q l IH]; intros pkts E Hp; [injection E as <-; by left|]. cbn [collate] in E.
  unfold goset in E. case_bool_decide; [|done]. cbn [mbind Out_bind] in E.
  destruct (IH _ E Hp) as [Hin|]; [|right; by right].
  apply insert_elem in Hin as [|]; [|by left]. simplify_eq. right. by left.
Qed.

Lemma JoinPackets_sub ps r m e p : JoinPackets ps = Ret (r, m, e) → Some p ∈ r → Some p ∈ ps.
Proof.
  unfold JoinPackets. intros E Hp. case_bool_decide; [simplify_eq; by apply not_elem_of_nil in Hp|].
  set (l := merge_sort Less (omap id ps)) in *. cbv zeta in E.
  destruct (goindex l 0) as [p0|]; [|done]. cbn [mbind Out_bind] in E.
  destruct (NewSegments _ _ _ _) as [sm|]; [|done]. cbn [mbind Out_bind] in E.
  destruct (goindex sm _) as [g|]; [|done]. cbn [mbind Out_bind] in E.
  destruct (check_common _ _ _ _ _ _ _ _) as [[ds|]|]; [| |done]; cbn [mbind Out_bind] in E;
    [|simplify_eq; by apply not_elem_of_nil in Hp].
  destruct (remove_all l 0 ds) as [l'|] eqn:ER; [|done]. cbn [mbind Out_bind] in E.
  case_bool_decide; [simplify_eq; by apply not_elem_of_nil in Hp|].
  case_bool_decide.
  { destruct (join_all _ _ _) as [m'|]; [|done]. injection E as <- _ _. by apply not_elem_of_nil in Hp. }
  destruct (collate l' _) as [pk|] eqn:EC; [|done]. cbn [mbind Out_bind] in E.
  destruct (join_lossy _ _ _ _) as [[m' e']|]; [|done]. injection E as <- _ _.
  destruct (collate_sub _ _ _ _ EC Hp) as [[? _]%elem_of_replicate|Hin]; [done|].
  apply (remove_all_sub _ _ _ _ ER) in Hin. unfold l in Hin. rewrite merge_sort_Permutation in Hin.
  apply list_elem_of_omap in Hin as (o & Ho & Eo). unfold id in Eo. by subst.
Qed.
End JoinSlots.

(** ** The invariant *)

Section Invariant.
Context {cr : Crypto} {ma : Multiaddrs} {rs : ReedSolomon} {ew : Ewma}.

Record sound (d : Dispatcher) : Prop := {
  so_done : Done d = [];
  so_keylock : KeyLock d = false;
  so_keys : (length (d_Prv d) ≤ 32)%nat;
  so_parity : 0 ≤ d_Parity d < 256;
  so_volume : 0 ≤ lastRekey d ≤ TotalReceived d;
  (** one record for each message, and packets are kept for those messages *)
  so_ids : NoDup (rx_ID <$> PendingInbound d);
  so_files id : is_Some (Partials d !! id) ↔ id ∈ rx_ID <$> PendingInbound d;
  (** packets are kept under their own identifier *)
  so_own id ps p : Partials d !! id = Some ps → Some p ∈ ps → pk_ID p = id;
}.

(** Sound, with the mutex and the rekeying flag at given values. *)
Definition sound_at (b r : bool) (d : Dispatcher) : Prop := sound d ∧ d_Mutex d = b ∧ rekeying d = r.

Lemma after_upd f (d : Dispatcher) Q : Q tt (f d) → after (upd_d f) d Q.
Proof. by intros HQ ? ? [= <- <-]. Qed.

Lemma keeps_upd P f : (∀ d, P d → P (f d)) → keeps P (upd_d f).
Proof. intros Hf d HP. apply after_upd. by apply Hf. Qed.

(** The parts of the state an update leaves alone. *)
Ltac same := let d := fresh in
  intros d [[] [? ?]]; split_and!; [constructor|..]; cbn in *; auto; try lia.

(** The mutex taken and given back. *)
Definition with_mutex (b : bool) (d : Dispatcher) : Dispatcher := set_locks (KeyLock d) b (rekeying d) d.

Lemma with_mutex_sound b' b r d : sound_at b r d → sound_at b' r (with_mutex b' d).
Proof. intros HS. revert d HS. same. Qed.

Lemma after_locked {A B} (m : GoM Dispatcher A) (k : A → GoM Dispatcher B) d Q :
  after m (with_mutex true d) (λ a d', after (k a) (with_mutex false d') Q) →
  after (D_Lock ;; a ← m; D_Unlock ;; k a) d Q.
Proof.
  intros Hm. apply after_bind. intros [] d1 E. unfold D_Lock in E. destruct (d_Mutex d); [done|]. injection E as <-.
  apply after_bind. eapply after_weaken; [exact Hm|]. intros a d2 Hk. apply after_bind. intros [] d3 E.
  unfold D_Unlock in E. destruct (d_Mutex d2); [|done]. by injection E as <-.
Qed.

Lemma keeps_locked {A B} r (m : GoM Dispatcher A) (k : A → GoM Dispatcher B) :
  keeps (sound_at true r) m → (∀ a, keeps (sound_at false r) (k a)) →
  keeps (sound_at false r) (D_Lock ;; a ← m; D_Unlock ;; k a).
Proof.
  intros Hm Hk d HS. apply after_locked. eapply after_weaken.
  { exact (Hm _ (with_mutex_sound _ _ _ _ HS)). }
  intros a d2 HS2. exact (Hk a _ (with_mutex_sound _ _ _ _ HS2)).
Qed.

Lemma keeps_Mx {A} r (m : GoM Dispatcher A) : keeps (sound_at true r) m → keeps (sound_at false r) (Mx m).
Proof. intros Hm. apply keeps_locked; [done|]. intros. apply keeps_mret. Qed.

Lemma keeps_quality b r par er pg pd : (∀ d, 0 ≤ par d < 256) →
  keeps (sound_at b r) (upd_d (λ d, set_quality (par d) (er d) (pg d) (pd d) d)).
Proof. intros Hp. apply keeps_upd. same. Qed.

Lemma acknowledge_keeps b r a p : keeps (sound_at b r) (acknowledge a p).
Proof.
  apply keeps_upd. intros d [[] [? ?]]. case_decide; split_and!; try constructor; cbn in *; auto; try lia;
    apply wrapu_range; lia.
Qed.

Lemma ack_loop_keeps b r a l tmp : keeps (sound_at b r) (ack_loop a l tmp).
Proof.
  revert tmp; induction l as [|p l IH]; intros tmp; cbn [ack_loop]; [apply keeps_mret|].
  case_decide; [|apply IH]. apply keeps_bind; [apply acknowledge_keeps|]. intros. apply keeps_mret.
Qed.

Lemma Duplex_Send_keeps b r m : keeps (sound_at b r) (Duplex_Send m).
Proof. apply keeps_upd. same. Qed.

Lemma outbound_keeps b r l : keeps (sound_at b r) (upd_d (set_Outbound l)).
Proof. apply keeps_upd. same. Qed.

Lemma conn_keeps b r c : keeps (sound_at b r) (upd_d (set_conn c)).
Proof. apply keeps_upd. same. Qed.

Lemma deliver_keeps b r f g : keeps (sound_at b r) (upd_d (λ d, set_queues (f d) (g d) d)).
Proof. apply keeps_upd. same. Qed.

Lemma split_keeps b r dr m : keeps (sound_at b r) (split dr m).
Proof.
  intros d HS x d' E. unfold split in E. destruct (SplitToPackets _ _ _ _ _) as [[[[? ?] ?]|]|]; [|done..].
  injection E as _ <-. revert d HS. same.
Qed.

Lemma send_packets_keeps b r l : keeps (sound_at b r) (send_packets l).
Proof. apply keeps_upd. same. Qed.

Lemma record_sent_keeps b r dr m l : keeps (sound_at b r) (record_sent dr m l).
Proof. apply keeps_upd. same. Qed.

Lemma mark_rekey_keeps b r : keeps (sound_at b r) mark_rekey.
Proof. apply keeps_upd. same. Qed.

Lemma add_key_keeps b r prv :
  keeps (sound_at b r) (upd_d (λ d, set_keys (take 32 (d_Prv d ++ [prv])) (lastRekey d) (d_ks d) d)).
Proof. apply keeps_upd. same. rewrite length_take. lia. Qed.

Lemma count_keeps b r n : 0 ≤ n → keeps (sound_at b r) (upd_d (add_traffic 0 0 0 n)).
Proof. intros Hn. apply keeps_upd. same. Qed.

Lemma search_key_keeps b r to : keeps (sound_at b r) (search_key to).
Proof. intros d HS x d' E. unfold search_key in E. destruct (KeyLock d); [done|]. by injection E as _ <-. Qed.
#[local] Hint Resolve acknowledge_keeps ack_loop_keeps Duplex_Send_keeps outbound_keeps conn_keeps deliver_keeps
  split_keeps send_packets_keeps record_sent_keeps mark_rekey_keeps add_key_keeps search_key_keeps : keeps.

Lemma HandlePing_keeps r rtt : keeps (sound_at false r) (HandlePing rtt).
Proof. apply keeps_Mx, keeps_upd. same. Qed.

Lemma SendToConn_keeps r dr m : keeps (sound_at false r) (SendToConn dr m).
Proof.
  unfold SendToConn. apply keeps_bind; [apply split_keeps|]. intros [[n l] e]. case_match; [apply keeps_mret|].
  apply keeps_bind; [apply send_packets_keeps|]. intros _.
  apply (keeps_locked r (record_sent _ _ _)); [apply record_sent_keeps|]. keeping.
Qed.

Lemma send_key_keeps b r dr : keeps (sound_at b r) (send_key dr).
Proof. unfold send_key. keeping. Qed.

Lemma toggle_after b r d : sound_at b r d → after toggle_rekeying d (λ _, sound_at b (negb r)).
Proof. intros HS. apply after_upd. revert d HS. same. by f_equal. Qed.

(** The flag is set while a new key is sent, and only then. *)
Lemma ReKey_keeps b dr : keeps (sound_at b false) (ReKey dr).
Proof.
  intros d HS. unfold ReKey. apply after_bind. eapply after_weaken; [by apply mark_rekey_keeps|].
  intros ? d1 HS1. cbn beta. apply after_bind, after_get. pose proof HS1 as (_ & _ & HR). rewrite HR.
  apply after_bind. eapply after_weaken; [exact (toggle_after b false d1 HS1)|]. intros ? d2 HS2. cbn beta.
  apply after_bind. eapply after_weaken; [exact (send_key_keeps b true dr d2 HS2)|]. intros ? d3 HS3.
  exact (toggle_after b true d3 HS3).
Qed.

Lemma count_received_keeps dr m : keeps (sound_at false false) (count_received dr m).
Proof.
  apply keeps_Mx. apply keeps_bind; [apply count_keeps, zlen_nonneg|]. keeping. apply ReKey_keeps.
Qed.

Lemma is_done_keeps b r p l : keeps (sound_at b r) (is_done p l).
Proof. induction l; cbn [is_done]; keeping. Qed.
#[local] Hint Resolve is_done_keeps : keeps.

Lemma goindex_inv {A} (l : list A) i a : goindex l (Z.of_nat i) = Ret a → l !! i = Some a.
Proof.
  unfold goindex. case_bool_decide; [|done]. rewrite Nat2Z.id. by destruct (l !! i) as [x|]; intros [= ->].
Qed.

(** Records may change in anything but their identifiers. *)
Lemma same_ids (l : list RxRecord) i r r' : l !! i = Some r → rx_ID r' = rx_ID r →
  rx_ID <$> <[i := r']> l = rx_ID <$> l.
Proof.
  intros Hi Hr. rewrite list_fmap_insert, Hr. apply list_insert_id. by rewrite list_lookup_fmap, Hi.
Qed.

Lemma handle_message_keeps b r m : keeps (sound_at b r) (handle_message m).
Proof. unfold handle_message, handle_codec. keeping. apply keeps_upd. same. Qed.

Lemma Handle_keeps b r m i : keeps (sound_at b r) (Handle m i).
Proof.
  intros d HS. unfold Handle. apply after_bind, after_get. apply after_bind, after_lift.
  intros rx Hi%goindex_inv. case_bool_decide; [by apply after_mret|]. apply after_bind, after_upd.
  apply handle_message_keeps. destruct HS as [[] [? ?]].
  split_and!; [constructor|..]; cbn in *; auto; intros; rewrite (same_ids _ _ rx); auto.
Qed.

(** Filing a packet with a record that is there already, and with a new one. *)
Lemma file_old b r i rx n now p ps d : sound_at b r d → PendingInbound d !! i = Some rx → rx_ID rx = pk_ID p →
  ps = default [] (Partials d !! pk_ID p) →
  sound_at b r (set_Pending (<[i := rx_more n now rx]> (PendingInbound d))
                 (<[pk_ID p := ps ++ [Some p]]> (Partials d)) d).
Proof.
  intros [[] [? ?]] Hi Hr ->. split_and!; [constructor|..]; cbn in *; auto.
  - by rewrite (same_ids _ _ rx).
  - intros id. rewrite (same_ids _ _ rx) by done. rewrite <- so_files0.
    destruct (decide (id = pk_ID p)) as [->|]; [rewrite lookup_insert_eq|by rewrite lookup_insert_ne].
    split; [intros _|by eauto]. apply so_files0. rewrite <- Hr. apply list_elem_of_fmap. exists rx.
    split; [done|]. by eapply list_elem_of_lookup_2.
  - intros id qs q [[<- <-]|[_ Hq]]%lookup_insert_Some Hin; [|by eauto].
    apply elem_of_app in Hin as [Hin|Hin%list_elem_of_singleton]; [|by simplify_eq].
    destruct (Partials d !! pk_ID p) eqn:E; cbn in Hin; [by eauto|by apply not_elem_of_nil in Hin].
Qed.

Lemma file_new b r rx p d : sound_at b r d → rx_ID rx = pk_ID p → pk_ID p ∉ rx_ID <$> PendingInbound d →
  sound_at b r (set_Pending (PendingInbound d ++ [rx]) (<[pk_ID p := [Some p]]> (Partials d)) d).
Proof.
  intros [[] [? ?]] Hr Hn. split_and!; [constructor|..]; cbn in *; auto.
  - rewrite fmap_app. cbn [fmap list_fmap]. rewrite Hr. apply NoDup_app. split; [done|]. split; [|apply NoDup_singleton].
    intros x Hx [= ->]%list_elem_of_singleton. done.
  - intros id. rewrite fmap_app, elem_of_app, <- so_files0. cbn [fmap list_fmap]. rewrite list_elem_of_singleton, Hr.
    destruct (decide (id = pk_ID p)) as [->|]; [rewrite lookup_insert_eq|rewrite lookup_insert_ne by done].
    + split; [by right|by eauto].
    + split; [by left|by intros [|]].
  - intros id qs q [[<- <-]|[_ Hq]]%lookup_insert_Some Hin; [|by eauto].
    apply list_elem_of_singleton in Hin. by simplify_eq.
Qed.

Lemma foldr_sum_nonneg {A} (f : A → Z) l : (∀ a, 0 ≤ f a) → 0 ≤ foldr (λ v a, f v + a) 0 l.
Proof. intros Hf. induction l as [|v l IH]; [done|]. cbn [foldr]. pose proof (Hf v). lia. Qed.

(** Sound, with packets of a message there. *)
Definition has_file b r (id : ID) (d : Dispatcher) : Prop := sound_at b r d ∧ is_Some (Partials d !! id).

Lemma is_done_reads p l (d : Dispatcher) : after (is_done p l) d (λ _ d', d' = d).
Proof.
  induction l as [|c l IH]; cbn [is_done]; [by apply after_mret|]. case_decide; [|done].
  apply after_bind, after_get. apply after_bind, after_lift. intros n _. case_bool_decide; [by apply after_mret|done].
Qed.

Lemma file_packet_after r now m p d : sound_at false r d →
  after (file_packet now m p) d (λ _, has_file false r (pk_ID p)).
Proof.
  intros HS%(with_mutex_sound true). apply after_locked. revert HS. generalize (with_mutex true d). clear d.
  intros d HS. apply after_bind, after_get. unfold GetRxRecordAndPartials.
  assert (∀ l i d, has_file true r (pk_ID p) d → after (stop ← is_done p l; mret (i, stop)) d
    (λ a d', after (mret a) (with_mutex false d') (λ _ : nat * bool, has_file false r (pk_ID p)))) as Hend.
  { intros l i d' [HS' HP]. apply after_bind. eapply after_weaken; [apply is_done_reads|].
    intros ? ? ->. apply after_mret, after_mret. split; [exact (with_mutex_sound _ _ _ _ HS')|done]. }
  destruct (list_find _ _) as [[i rx]|] eqn:EF; cbn [fmap option_fmap option_map fst].
  - apply list_find_Some in EF as (Hi & Hr & _). apply after_bind, after_bind, after_lift.
    intros rx' Hi'%goindex_inv. assert (rx' = rx) as -> by congruence.
    apply after_bind, after_upd, after_mret, Hend. split; [by eapply file_old|].
    cbn. rewrite lookup_insert_eq. by eexists.
  - apply list_find_None in EF. apply after_bind, after_bind, after_upd, after_mret, Hend. split.
    + apply file_new; [done|done|]. intros (rx & E & Hin)%list_elem_of_fmap.
      rewrite Forall_forall in EF. by apply (EF rx).
    + cbn. rewrite lookup_insert_eq. by eexists.
Qed.

Lemma join_after r p d : has_file false r (pk_ID p) d → after (Dispatcher.join p) d (λ _, sound_at false r).
Proof.
  intros [HS [ps HP]]. apply after_locked. apply (with_mutex_sound true) in HS.
  change (Partials d) with (Partials (with_mutex true d)) in HP. revert HS HP.
  generalize (with_mutex true d). clear d. intros d HS HP. apply after_bind, after_get.
  rewrite HP. apply after_bind, after_lift. intros [[pkts msg] e] EJ. apply after_bind, after_upd.
  assert (sound_at true r (set_Pending (PendingInbound d) (<[pk_ID p := pkts]> (Partials d)) d)) as HS'.
  { destruct HS as [[] [? ?]]. split_and!; [constructor|..]; cbn in *; auto.
    - intros id. rewrite <- so_files0. destruct (decide (id = pk_ID p)) as [->|];
        [rewrite lookup_insert_eq, HP|by rewrite lookup_insert_ne]. split; by eauto.
    - intros id qs q [[<- <-]|[_ Hq]]%lookup_insert_Some Hin; [|by eauto]. eapply so_own0; [done|].
      by eapply JoinPackets_sub. }
  destruct e; [apply after_mret, after_mret; exact (with_mutex_sound _ _ _ _ HS')|]. apply after_bind, after_upd, after_mret, after_mret.
  apply (with_mutex_sound _ true). revert HS'. generalize (set_Pending (PendingInbound d) (<[pk_ID p := pkts]> (Partials d)) d).
  intros d' HS'. assert (0 ≤ foldr (λ v a, zlen (pk_Data v) + Packet_GetOverhead + a) 0 (omap id pkts)).
  { apply (foldr_sum_nonneg (λ v, zlen (pk_Data v) + Packet_GetOverhead)). intros v.
    pose proof (zlen_nonneg (pk_Data v)). change Packet_GetOverhead with 61. lia. }
  revert d' HS'. same.
Qed.
Lemma RecvFromConn_keeps dr now m : keeps (sound_at false false) (RecvFromConn dr now m).
Proof.
  unfold RecvFromConn. apply keeps_bind; [apply keeps_lift|]. intros [[[from to] iv] [e|]]; [apply keeps_mret|].
  apply keeps_bind; [apply search_key_keeps|]. intros prv. apply keeps_bind; [apply keeps_lift|].
  intros [[[p|] [e|]] w]; [apply keeps_mret| |apply keeps_mret..].
  apply keeps_bind; [apply count_received_keeps|]. intros _ d HS.
  apply after_bind. eapply after_weaken; [by apply file_packet_after|]. intros [i stop] d1 HF. cbn beta.
  destruct stop; [apply after_mret, HF|]. apply after_bind, after_get. apply after_bind, after_lift. intros n _.
  case_bool_decide; [|apply after_mret, HF]. apply after_bind. eapply after_weaken; [by apply join_after|].
  intros msg d2 HS2. by apply Handle_keeps.
Qed.

Lemma gc_one_keeps r now dpi : keeps (sound_at false r) (gc_one now dpi).
Proof.
  intros d HS. apply after_bind, after_get. destruct (Partials d !! dpi) as [[|o dp]|] eqn:EP; [by apply after_mret| |by apply after_mret].
  apply after_bind, after_lift. intros p0 E0. case_bool_decide as Htime; [clear Htime|by apply after_mret].
  apply after_bind, after_lift. intros done. destruct HS as [[] [? ?]]. rewrite so_done0. intros [= <-].
  apply (goindex_inv _ 0), list_elem_of_lookup_2, list_elem_of_omap in E0 as (o' & Ho & Eo). unfold id in Eo. subst o'.
  assert (pk_ID p0 = dpi) as -> by by eapply so_own0.
  apply after_bind, after_upd, after_mret. split_and!; [constructor|..]; cbn in *; auto.
  - eapply sublist_NoDup; [exact so_ids0|]. apply fmap_sublist, sublist_filter.
  - intros i. destruct (decide (i = dpi)) as [->|Hi].
    + rewrite lookup_delete_eq, list_elem_of_fmap. split; [intros [? ?]; done|].
      intros (rx & -> & [Hrx _]%list_elem_of_filter). by apply bool_decide_eq_false in Hrx.
    + rewrite lookup_delete_ne, so_files0 by done. rewrite !list_elem_of_fmap.
      setoid_rewrite list_elem_of_filter. split; intros (rx & -> & Hx); exists rx; [|naive_solver].
      split; [done|]. split; [|done]. by apply bool_decide_eq_false.
  - intros i ps p [_ Hq]%lookup_delete_Some. by eapply so_own0.
Qed.

Lemma RunGC_keeps r now order : keeps (sound_at false r) (RunGC now order).
Proof.
  apply keeps_bind.
  - induction order as [|k order IH]; cbn [gc_scan]; [apply keeps_mret|].
    apply keeps_bind; [apply gc_one_keeps|]. intros. apply keeps_bind; [done|]. intros. apply keeps_mret.
  - intros l. induction l as [|x l IH]; cbn [send_acks]; [apply keeps_mret|].
    apply keeps_bind; [apply keeps_lift|]. intros y. apply keeps_bind; [|done].
    case_match; [apply keeps_mret|apply Duplex_Send_keeps].
Qed.

Lemma react_keeps ev : keeps (sound_at false false) (react ev).
Proof.
  destruct ev; cbn [react].
  - apply RunGC_keeps.
  - apply HandlePing_keeps.
  - apply RecvFromConn_keeps.
  - apply keeps_bind; [apply SendToConn_keeps|]. intros. apply keeps_mret.
Qed.

Lemma NewDispatcher_sound conn ks local remote dr d :
  NewDispatcher conn ks local remote dr = Ret d → sound_at false false d.
Proof.
  assert (∀ pr par er pd c, (length pr ≤ 32)%nat → 0 ≤ par < 256 → sound_at false false
    (MkDispatcher par 0 0 0 0 er NewMovingAverage pd [] [] [] [] [] ∅ pr false 0 ks c false false)) as HI.
  { intros. split_and!; [constructor|..]; cbn; auto; try lia.
    - constructor.
    - intros id. rewrite lookup_empty. split; [by intros [? ?]|by intros ?%not_elem_of_nil].
    - intros id ps p H'. by rewrite lookup_empty in H'. }
  unfold NewDispatcher. destruct local as [rprk|]; [|intros [= <-]; by apply HI; cbn; lia].
  destruct remote as [rpk|]; [|intros [= <-]; by apply HI; cbn; lia].
  destruct (PubFromBytes rpk) as [pk [e|]]; [intros [= <-]; by apply HI; cbn; lia|].
  cbn zeta. intros E. destruct (Mx (ReKey dr) _) as [[? d']|] eqn:EM; [|done]. injection E as <-.
  eapply (keeps_Mx false (ReKey dr) (ReKey_keeps true dr)); [|exact EM].
  apply HI; [cbn; lia|done].
Qed.
End Invariant.
