(* ===== verification/Delivery.v ===== *)
(** * Messages through a pair of dispatchers

    What a dispatcher does with the packets of one message: it collects them, joins
    them when there is one more than the message's length would fill, and hands the
    message on; and what comes out when the packets are those another dispatcher
    made of a message. *)

From S2P Require Export DispatcherInv.

(** ** Messages for the dispatcher *)

(** The messages that carry the bytes of an onion, a new key, and the record of what
    was received. *)
Definition onion_bytes (b : bytes) : bytes := string_bytes OnionMagic ++ sized_bytes b.

Lemma zlen_onion b : zlen (onion_bytes b) = 8 + zlen b.
Proof. unfold onion_bytes. rewrite zlen_app, zlen_sized. change (zlen (string_bytes OnionMagic)) with 4. lia. Qed.

Section Wrapped.
Context {cr : Crypto} {ma : Multiaddrs} {rs : ReedSolomon} {ew : Ewma}.

Definition newkey_bytes (k : Pub) : bytes := string_bytes NewKeyMagic ++ arr_list (SerializeCompressed k).

Definition ack_fields (r : RxRecord) : bytes :=
  arr_list (rx_ID r) ++ arr_list (rx_Hash r) ++ le_put 8 (Unix (rx_First r)) ++ le_put 8 (Unix (rx_Last r)) ++
  le_put 8 (rx_Size r) ++ le_put 8 (rx_Received r) ++ le_put 8 (rx_Ping r).
(** What the other side reads: times are to the second. *)
Definition acked (r : RxRecord) : RxRecord :=
  MkRxRecord (rx_ID r) (rx_Hash r) (UnixTime (wraps 64 (Unix (rx_First r)))) (UnixTime (wraps 64 (Unix (rx_Last r))))
    (wrapu 64 (rx_Size r)) (wrapu 64 (rx_Received r)) (wraps 64 (rx_Ping r)).

(** An encoder on a splice of the size it fills. *)
Lemma encode_new m bs n : Writes m bs → zlen bs = Z.of_nat n →
  ∃ s, (m ;; mret None) (New n) = Ret (None : option error, s) ∧ GetAll s = bs.
Proof.
  intros HW Hn. destruct (HW (New n)) as (s & E & B & _); [done|unfold Len, New; cbn; unfold zlen in *; rewrite length_replicate; lia|].
  exists s. rewrite (bind_run _ _ _ _ _ E). split; [done|]. unfold GetAll. rewrite B. cbn [New s_b s_c].
  apply overlay_full. rewrite length_replicate. unfold zlen in Hn. lia.
Qed.

Lemma NewKey_Encode_run k :
  ∃ s, NewKey_Encode (Some k) (New (Z.to_nat NewKey_Len)) = Ret (None, s) ∧ GetAll s = newkey_bytes k.
Proof.
  unfold NewKey_Encode. change (Z.to_nat NewKey_Len) with 37%nat.
  assert (Writes (Magic NewKeyMagic ;; Pubkey (Some k)) (newkey_bytes k)) as HW by (unfold newkey_bytes; apply _).
  destruct (encode_new _ _ 37 HW) as (s & E & B); [unfold newkey_bytes; by rewrite zlen_app, zlen_arr|].
  exists s. split; [|done]. rewrite <- E. unfold mbind, GoM_bind. destruct (Magic NewKeyMagic (New 37)) as [[[] s1]|]; [|done].
  done.
Qed.

Lemma Acknowledge_Encode_run r :
  ∃ s, Acknowledge_Encode r (New (Z.to_nat Acknowledge_Len)) = Ret (None, s) ∧
    GetAll s = string_bytes AcknowledgeMagic ++ ack_fields r.
Proof.
  change (Z.to_nat Acknowledge_Len) with 84%nat.
  assert (Writes (Magic AcknowledgeMagic ;; ID_ (rx_ID r) ;; Hash_ (rx_Hash r) ;; Time (rx_First r) ;;
    Time (rx_Last r) ;; Uint64 (rx_Size r) ;; Uint64 (rx_Received r) ;; Duration (rx_Ping r))
    (string_bytes AcknowledgeMagic ++ ack_fields r)) as HW by (unfold ack_fields; apply _).
  destruct (encode_new _ _ 84 HW) as (s & E & B); [unfold ack_fields; by rewrite !zlen_app, !zlen_arr, !zlen_le_put|].
  exists s. split; [|done]. rewrite <- E. unfold Acknowledge_Encode. unfold mbind, GoM_bind.
  repeat match goal with |- context [match ?m ?x with Ret _ => _ | Panic _ => _ end] => destruct (m x) as [[[] ?]|]; [|done] end.
  done.
Qed.

(** A message of a registered kind is decoded and acted on. *)
Lemma handle_decoded mg c bs c' d :
  (mg, c) ∈ registered → length (string_bytes mg) = 4%nat → Codec_Magic c = Ret mg →
  (∀ s, at_cursor s bs → s_E s = None → Len s = 4 + zlen bs → ∃ s', Codec_Decode c s = Ret ((c', None), s')) →
  handle_message (string_bytes mg ++ bs) d = handle_codec c' d.
Proof.
  intros Hr Hl Hm HD. unfold handle_message.
  assert (zlen (string_bytes mg) = 4) as Hz by (unfold zlen; lia).
  destruct (reads_Recognise mg c Hr Hl (NewFrom (string_bytes mg ++ bs))) as (s1 & E1 & B1 & C1 & N1); [|done|].
  { by apply (at_cursor_front (NewFrom (string_bytes mg ++ bs)) _ bs). }
  rewrite (bind_run _ _ _ _ _ (lift_run _ _ d E1)). cbn match.
  rewrite (bind_run _ _ _ _ _ (lift_run _ _ d Hm)).
  change (s_c (NewFrom _)) with 0 in C1. change (s_b (NewFrom ?m)) with m in B1.
  assert (Len s1 = 4 + zlen bs) as L1 by (unfold Len; by rewrite B1, zlen_app, Hz).
  destruct (HD s1) as (s2 & ED); [|done|done|by rewrite (bind_run _ _ _ _ _ (lift_run _ _ d ED))].
  unfold at_cursor. rewrite L1, B1, C1, Hz. split_and!; [done|lia|].
  replace (Z.to_nat (0 + 4)) with (length (string_bytes mg)) by lia. by rewrite drop_app_length, firstn_all.
Qed.

Lemma handle_onion b (d : Dispatcher) : Small32 b →
  handle_message (onion_bytes b) d = Ret (tt, set_queues (Delivered d ++ [b]) (Requested d) d).
Proof.
  intros Hb. unfold onion_bytes. rewrite (handle_decoded OnionMagic (COnionMsg []) _ (COnionMsg b)); [done| |done|done|].
  { unfold registered. set_solver. }
  intros s A N HL. assert (Reads ReadBytes (sized_bytes b) b) as HR by (unfold sized_bytes; apply _).
  destruct (HR s A N) as (s2 & E2 & _). exists s2. cbn [Codec_Decode].
  unfold OnionMsg_Decode, long_enough, get, mbind, GoM_bind. rewrite bool_decide_false; [by rewrite E2|].
  rewrite HL, zlen_sized. change (OnionMsg_Len []) with 8. pose proof (zlen_nonneg b). lia.
Qed.

Lemma handle_newkey `{!CryptoLaws} k k' (d : Dispatcher) : RemoteKey (d_Conn d) = Some k' → k' ≠ k →
  handle_message (newkey_bytes k) d
  = Ret (tt, set_conn (MkConn (MTU (d_Conn d)) (Some k) (c_Sent (d_Conn d))) d).
Proof.
  intros HR Hne. unfold newkey_bytes. rewrite (handle_decoded NewKeyMagic (CNewKey None) _ (CNewKey (Some k))); [|by unfold registered; set_solver|done|done|].
  - cbn [handle_codec]. change ((get ≫= ?f) d) with (f d d). cbn beta. rewrite HR.
    by rewrite Pub_Equals_spec, bool_decide_false.
  - intros s A N HL. destruct (reads_Pubkey None k s A N) as (s2 & E2 & _). exists s2. cbn [Codec_Decode].
    unfold NewKey_Decode, long_enough, get, mbind, GoM_bind. rewrite bool_decide_false; [by rewrite E2|].
    rewrite HL, zlen_arr. done.
Qed.

Lemma handle_ack r (d : Dispatcher) :
  handle_message (string_bytes AcknowledgeMagic ++ ack_fields r) d = handle_codec (CAcknowledge (acked r)) d.
Proof.
  apply (handle_decoded AcknowledgeMagic (CAcknowledge RxRecord_zero)); [by unfold registered; set_solver|done|done|].
  intros s A N HL. cbn [Codec_Decode].
  assert (Reads (id ← ReadID; h ← ReadHash; f ← ReadTime; l ← ReadTime; sz ← ReadUint64;
     rc ← ReadUint64; p ← ReadDuration; mret (MkRxRecord id h f l sz rc p, None : option error)) (ack_fields r) (acked r, None)) as HR.
  { unfold ack_fields. rewrite <- (app_nil_r (le_put 8 (rx_Ping r))). apply _. }
  destruct (HR s A N) as (s2 & E2 & _). exists s2.
  unfold Acknowledge_Decode, long_enough. unfold mbind at 1, GoM_bind at 1. change ((get ≫= ?f) s) with (f s s). cbn beta.
  rewrite bool_decide_false; [by rewrite E2|]. rewrite HL. unfold ack_fields. rewrite !zlen_app, !zlen_arr, !zlen_le_put. done.
Qed.
End Wrapped.

(** ** Collecting *)

Section Collect.
Context {cr : Crypto} {ma : Multiaddrs} {rs : ReedSolomon} {ew : Ewma}.

(** The packets that come in, with the time they come at. *)
Fixpoint recv_all (dr : Draws) (l : list (Z * bytes)) : GoM Dispatcher unit :=
  match l with
  | [] => mret tt
  | (now, w) :: l => RecvFromConn dr now w ;; recv_all dr l
  end.

Definition volume (l : list (Z * bytes)) : Z := foldr (λ g a, zlen g.2 + a) 0 l.

(** The state of [d0] with the packets [ps] of a message collected since, in [v] bytes. *)
Record collecting (d0 : Dispatcher) (id : ID) (ps : list Packet) (v : Z) (d : Dispatcher) : Prop := {
  co_idle : idle d;
  co_prv : d_Prv d = d_Prv d0;
  co_conn : d_Conn d = d_Conn d0;
  co_rekey : lastRekey d = lastRekey d0;
  co_total : TotalReceived d = TotalReceived d0 + v;
  co_delivered : Delivered d = Delivered d0;
  co_filed : match ps with
             | [] => PendingInbound d = PendingInbound d0
             | _ => (∃ r, rx_ID r = id ∧ PendingInbound d = PendingInbound d0 ++ [r]) ∧
                    Partials d !! id = Some (Some <$> ps)
             end;
}.

Lemma list_find_last {A} (P : A → Prop) `{!∀ x, Decision (P x)} l x :
  list_find P l = None → P x → list_find P (l ++ [x]) = Some (length l, x).
Proof.
  induction l as [|y l IH]; cbn; intros HN HP; [by rewrite decide_True|].
  destruct (decide (P y)); [done|]. destruct (list_find P l) as [[]|] eqn:E; [done|]. by rewrite IH.
Qed.

(** Filing a packet of the message. *)
Lemma filed_collects d0 id ps v d now w p :
  collecting d0 id ps v d → id ∉ rx_ID <$> PendingInbound d0 → pk_ID p = id →
  (filed now w p d).1 = length (PendingInbound d0) ∧
  collecting d0 id (ps ++ [p]) (v + zlen w) (filed now w p d).2.
Proof.
  intros [[] ? ? ? ? ? HF] Hid <-.
  assert (list_find (λ r, rx_ID r = pk_ID p) (PendingInbound d0) = None) as HN.
  { apply list_find_None, Forall_forall. intros r Hr E. apply Hid, list_elem_of_fmap. by exists r. }
  unfold filed. change (PendingInbound (add_traffic _ _ _ _ d)) with (PendingInbound d).
  destruct ps as [|q ps].
  - rewrite HF, HN. cbn [fst snd]. split; [done|]. constructor; cbn; try done; [lia|].
    split; [|by rewrite lookup_insert_eq]. by eexists (MkRxRecord _ _ _ _ _ _ _).
  - destruct HF as [(r & Hr & EP) HP]. rewrite EP, (list_find_last _ _ r HN Hr). cbn [fst snd]. split; [done|].
    constructor; cbn; try done; [lia|]. rewrite HP, lookup_insert_eq. cbn. split; [|by rewrite fmap_app].
    exists (rx_more (zlen w) now r). split; [done|].
    by rewrite insert_app_r_alt, Nat.sub_diag by done.
Qed.

(** A received packet of the message; whether it is the one that makes the join
    happen is decided by how many there are. *)
Lemma RecvFromConn_collects dr now w p d0 id ps v d n :
  collecting d0 id ps v d → id ∉ rx_ID <$> PendingInbound d0 → pk_ID p = id →
  opens now d0 w p → MTU (d_Conn d0) ≠ 0 → segCount p d0 = Ret n →
  0 ≤ TotalReceived d0 - lastRekey d0 + v → TotalReceived d0 - lastRekey d0 + v + zlen w ≤ DefaultDispatcherRekey →
  ∃ d1, collecting d0 id (ps ++ [p]) (v + zlen w) d1 ∧
    RecvFromConn dr now w d = if decide (n < zlen ps + 1)
      then (msg ← Dispatcher.join p; Handle msg (length (PendingInbound d0))) d1 else Ret (tt, d1).
Proof.
  intros HC Hid Hp HO HM Hn H0 Hv. destruct (filed_collects d0 id ps v d now w p HC Hid Hp) as [Hi HC1].
  destruct HC as [HI EK EC ER ET _ _]. pose proof (zlen_nonneg w).
  pose proof (RecvFromConn_run dr now w p d HI) as HR. destruct (filed now w p d) as [i d1]. cbn [fst snd] in *. subst i.
  exists d1. split; [done|]. destruct HR as (n' & En' & ->).
  - unfold quiet. rewrite ET, ER, wrapu_small; [unfold DefaultDispatcherRekey in *; lia|].
    unfold DefaultDispatcherRekey in *. lia.
  - destruct HO as (pub & to & iv & prv & w' & ? & ? & ?). exists pub, to, iv, prv, w'. by rewrite EK.
  - by rewrite EC.
  - assert (n' = n) as -> by (unfold segCount in *; rewrite EC in En'; congruence).
    destruct HC1 as [_ _ _ _ _ _ HF]. destruct (ps ++ [p]) as [|q l] eqn:E; [by destruct ps|].
    rewrite Hp, (proj2 HF), <- E. change (default [] (Some ?x)) with x. unfold zlen. rewrite length_fmap, length_app. cbn [length].
    by replace (Z.of_nat (length ps + 1)) with (Z.of_nat (length ps) + 1) by lia.
Qed.

(** Up to the number of packets the length would fill, nothing but collecting happens. *)
Lemma recv_collects dr d0 id n got ps ps' v d :
  Forall2 (λ g p, opens g.1 d0 g.2 p ∧ pk_ID p = id ∧ segCount p d0 = Ret n) got ps' →
  collecting d0 id ps v d → id ∉ rx_ID <$> PendingInbound d0 → MTU (d_Conn d0) ≠ 0 →
  zlen ps + zlen ps' ≤ n → 0 ≤ TotalReceived d0 - lastRekey d0 + v →
  TotalReceived d0 - lastRekey d0 + v + volume got ≤ DefaultDispatcherRekey →
  ∃ d', recv_all dr got d = Ret (tt, d') ∧ collecting d0 id (ps ++ ps') (v + volume got) d'.
Proof.
  intros HF. revert ps v d. induction HF as [|[now w] p got ps' (HO & Hp & Hn) HF IH];
    intros ps v d HC Hid HM Hl H0 Hv.
  { exists d. rewrite app_nil_r, Z.add_0_r. done. }
  cbn [volume foldr] in *. change (foldr _ 0 got) with (volume got) in *. cbn [fst snd] in *.
  pose proof (zlen_nonneg w). pose proof (zlen_nonneg ps').
  assert (0 ≤ volume got) as Hg by apply foldr_sum_nonneg, (λ g : Z * bytes, zlen_nonneg g.2).
  assert (zlen (p :: ps') = 1 + zlen ps') as E1 by (unfold zlen; cbn; lia). rewrite E1 in Hl.
  destruct (RecvFromConn_collects dr now w p d0 id ps v d n) as (d1 & HC1 & E); try done; [lia|].
  rewrite decide_False in E by lia.
  destruct (IH (ps ++ [p]) (v + zlen w) d1) as (d' & E' & HC'); try done.
  { rewrite zlen_app. change (zlen [p]) with 1. lia. } { lia. } { lia. }
  exists d'. cbn [recv_all]. rewrite (bind_run _ _ _ _ _ E). split; [done|].
  by rewrite <- app_assoc, <- Z.add_assoc in HC'.
Qed.

(** The join leaves a dispatcher that has delivered nothing yet. *)
Lemma join_records p d0 ps v d r msg e :
  collecting d0 (pk_ID p) ps v d → ps ≠ [] → JoinPackets (Some <$> ps) = Ret (r, msg, e) →
  ∃ d' x, Dispatcher.join p d = Ret (msg, d') ∧ Done d' = [] ∧ Delivered d' = Delivered d0 ∧
    d_Conn d' = d_Conn d0 ∧ PendingInbound d' !! length (PendingInbound d0) = Some x.
Proof.
  intros [[] ? ? ? ? HD HF] Hne EJ. destruct ps as [|q l] eqn:Eq; [done|]. rewrite <- Eq in *.
  assert ((∃ r, rx_ID r = pk_ID p ∧ PendingInbound d = PendingInbound d0 ++ [r]) ∧
    Partials d !! pk_ID p = Some (Some <$> ps)) as [(x & _ & EP) EF] by (by rewrite Eq in *).
  set (d1 := set_locks (KeyLock d) true (rekeying d) d).
  set (d2 := set_Pending (PendingInbound d1) (<[pk_ID p := r]> (Partials d1)) d1).
  set (n := foldr (λ v a, zlen (pk_Data v) + Packet_GetOverhead + a) 0 (omap id r)).
  set (d3 := if e is Some _ then d2 else add_traffic 0 (zlen msg) 0 n d2).
  assert (Dispatcher.join p d = Ret (msg, set_locks (KeyLock d3) false (rekeying d3) d3)) as E.
  { apply Mx_run; [done| |by unfold d3; destruct e]. fold d1. change ((get ≫= ?f) d1) with (f d1 d1). cbn beta.
    change (Partials d1) with (Partials d). rewrite EF. cbn [default].
    rewrite (bind_run _ _ _ _ _ (lift_run _ _ d1 EJ)). cbn match.
    rewrite (bind_run _ _ d1 tt d2) by done. unfold d3. by destruct e. }
  eexists _, x. split; [exact E|]. unfold d3. split; [by destruct e|]. split; [by destruct e; cbn|].
  split; [by destruct e; cbn|].
  assert (PendingInbound d !! length (PendingInbound d0) = Some x) as Hx by (rewrite EP; by apply list_lookup_middle).
  by destruct e.
Qed.
End Collect.

(** ** One section *)

(** A message of no more data segments than a section has is one section. *)
Lemma segments_single len size parity :
  0 < size → 0 ≤ parity ≤ 255 → 0 ≤ len → len / size + 1 ≤ 256 - parity →
  ∃ g, segments_spec len size parity = [g] ∧ DStart g = 0 ∧ dLen g = len / size + 1 ∧
    0 < PEnd g ≤ 256 ∧ seg_ok parity size g ∧ chain 0 [g] (PEnd g).
Proof.
  intros Hs Hp Hl Hn. destruct (segments_spec_layout len size parity Hs Hp Hl) as (_ & Hch & HD & Hok).
  assert (∃ g, segments_spec len size parity = [g]) as [g E].
  { destruct (sections_bounds len size parity Hs Hp Hl) as (Hq & Hr & E). unfold segments_spec.
    unfold n_segs in E. unfold data_per_section in E, Hr. pose proof (Z.div_pos len size Hl Hs).
    destruct (decide (0 < last_section len size parity)) as [H0|H0].
    - assert (n_sections len size parity = 0) as -> by nia. by eexists.
    - assert (n_sections len size parity = 1) as -> by nia. by eexists. }
  rewrite E in *. exists g. destruct Hch as [HS Hch]. cbn in HD. apply Forall_cons in Hok as [Hg _].
  pose proof Hg as (_ & ? & ? & ? & ?). unfold dLen, pLen in *. split_and!; done || (destruct (decide (parity = 0)); lia).
Qed.

Section Few.
Context {cr : Crypto} {rs : ReedSolomon}.

(** What [census] finds is there. *)
Lemma census_present n (pkts : list (option Packet)) i start : 0 ≤ i → i + Z.of_nat n ≤ zlen pkts →
  ∃ lost have, census n pkts i start = Ret (lost, have) ∧ NoDup have ∧
    ∀ x, x ∈ have → i ≤ x + start < i + Z.of_nat n ∧ present pkts (x + start).
Proof.
  intros Hi Hn.
  set (shards := (λ o, from_option pk_Data [] o) <$> take n (drop (Z.to_nat i) pkts)).
  assert (length shards = n) as Hl.
  { unfold shards. rewrite length_fmap, length_take, length_drop. unfold zlen in Hn. lia. }
  destruct (census_run pkts i start shards) as (lost & have & E & ND & _ & Hh & _); [done| |].
  - intros k d Hk. unfold shards in Hk. rewrite list_lookup_fmap in Hk.
    destruct (take n (drop (Z.to_nat i) pkts) !! k) as [o|] eqn:Eo; [|done]. injection Hk as <-.
    apply lookup_take_Some in Eo as [Eo _]. rewrite lookup_drop in Eo. exists o. split; [done|]. by destruct o.
  - rewrite Hl in E. exists lost, have. split; [done|]. split; [done|]. intros x Hx%Hh. unfold zlen in Hx. by rewrite Hl in Hx.
Qed.

(** Fewer packets than data segments cannot be joined: nothing is returned but the error. *)
Lemma JoinPackets_few ps len size parity g :
  let got := omap id ps in
  got ≠ [] → NoDup (Seq <$> got) →
  (∀ p, p ∈ got → 0 ≤ Seq p < PEnd g ∧ zlen (pk_Data p) = size ∧ pk_Length p = len ∧ pk_Parity p = parity) →
  NewSegments len (size + Packet_GetOverhead) Packet_GetOverhead parity = Ret [g] →
  DStart g = 0 → seg_ok parity size g → 0 ≤ parity → zlen got < dLen g →
  ∃ pkts e, JoinPackets ps = Ret (pkts, [], Some e).
Proof.
  intros got Hne ND Hd HN HD Hok Hpar Hlt. set (packets := merge_sort Less got).
  assert (packets ≡ₚ got) as HP by apply merge_sort_Permutation.
  assert (zlen packets = zlen got) as HL by (unfold zlen; by rewrite HP). rewrite <- HL in Hlt. clear HL.
  assert (NoDup (Seq <$> packets)) as ND' by (by rewrite HP).
  assert (∀ p, p ∈ packets → 0 ≤ Seq p < PEnd g ∧ zlen (pk_Data p) = size ∧ pk_Length p = len ∧ pk_Parity p = parity)
    as Hd' by (intros p; rewrite HP; apply Hd).
  pose proof Hok as (_ & HDL & _ & HP0 & HP1). unfold pLen, dLen in *.
  assert (DEnd g ≤ PEnd g) by (destruct (decide (parity = 0)); lia).
  unfold JoinPackets. fold got packets. rewrite bool_decide_false; cycle 1.
  { intros E. apply Hne. unfold got. destruct ps; [done|unfold zlen in E; cbn in E; lia]. }
  destruct packets as [|p0 rest] eqn:EP; [apply Permutation_nil_l in HP; congruence|]. rewrite <- EP in *.
  assert (goindex packets 0 = Ret p0) as -> by (apply goindex_some; [done|by rewrite EP]). cbn [mbind Out_bind].
  destruct (Hd' p0) as (_ & -> & -> & ->); [rewrite EP; by left|]. rewrite HN. cbn [mbind Out_bind].
  change (goindex [g] (zlen [g] - 1)) with (Ret g). cbn [mbind Out_bind].
  rewrite check_common_ok; cycle 1.
  { rewrite EP in ND'. by rewrite EP. }
  { apply Forall_forall. intros p Hp. rewrite EP in Hp. destruct (Hd' p) as (_ & _ & ? & ?); [rewrite EP; by right|done]. }
  cbn [mbind Out_bind remove_all]. change (zlen packets - zlen []) with (zlen packets - 0). rewrite Z.sub_0_r.
  case_bool_decide as Hred; [by eexists _, _|]. rewrite bool_decide_false by lia.
  destruct (collate_run packets (replicate (Z.to_nat (PEnd g)) None)) as (pkts & -> & Lp & H1 & H2); [done| |].
  { apply Forall_forall. intros p Hp. destruct (Hd' p Hp) as (? & _). unfold zlen. rewrite length_replicate. lia. }
  rewrite length_replicate in Lp. cbn [mbind Out_bind join_lossy]. unfold dLen, pLen. rewrite HD, Z.sub_0_r in *.
  assert (∀ x, present pkts x → 0 ≤ x → x ∈ Seq <$> packets) as Hpr.
  { intros x [p Ep] Hx. destruct (decide (Exists (λ p, Z.to_nat (Seq p) = Z.to_nat x) packets)) as [He|He].
    - apply Exists_exists in He as (q & Hq & E). apply list_elem_of_fmap. exists q. split; [|done].
      destruct (Hd' q Hq) as (? & _). lia.
    - rewrite H2 in Ep; [by apply lookup_replicate in Ep as [? _]|]. intros q Hq E. apply He, Exists_exists. by exists q. }
  destruct (census_present (Z.to_nat (DEnd g)) pkts 0 0) as (lD & hD & -> & NDD & HhD); [done|unfold zlen; lia|].
  destruct (census_present (Z.to_nat (PEnd g - DEnd g)) pkts (DEnd g) 0) as (lP & hP & -> & NDP & HhP); [lia|unfold zlen; lia|].
  cbn [mbind Out_bind]. rewrite bool_decide_true; [by eexists _, _|].
  assert (zlen (hD ++ hP) ≤ zlen packets) as Hle.
  { assert (zlen packets = zlen (Seq <$> packets)) as -> by (unfold zlen; by rewrite length_fmap).
    unfold zlen. apply inj_le, submseteq_length, NoDup_submseteq.
    - apply NoDup_app. split; [done|]. split; [|done]. intros x [? _]%HhD [? _]%HhP. lia.
    - intros x [[? Hx]%HhD|[? Hx]%HhP]%elem_of_app; rewrite Z.add_0_r in *; apply Hpr; (done || lia). }
  rewrite zlen_app in Hle. lia.
Qed.
End Few.

(** ** What was sent *)

Section Sent.
Context {cr : Crypto} {crl : CryptoLaws} {ma : Multiaddrs} {rs : ReedSolomon} {ew : Ewma}.

(** The dispatcher finds this key for every packet that is sealed to it. *)
Definition keyed (prv : Prv) (d : Dispatcher) : Prop :=
  ∀ bl, find_key (GetCloak bl (PubKey prv)) (d_Prv d) = Some prv.

Lemma keyed_single prv d : d_Prv d = [prv] → keyed prv d.
Proof. intros E bl. unfold find_key. rewrite E. cbn [rev app foldl]. unfold Pub_ToBytes, GetCloak. by rewrite Match_Cloak. Qed.

Lemma carries_opens now id prv parity len seq w x d :
  carries id (PubKey prv) parity len seq w x → keyed prv d →
  0 ≤ parity < 2 ^ 8 → 0 ≤ len < 2 ^ 32 → 0 ≤ seq < 2 ^ 16 →
  opens now d w (MkPacket id seq len parity x now).
Proof.
  intros (nonc & bl & from & ->) HK Hp Hl Hs.
  destruct (DecodePacket_image now nonc bl from prv
    (MkPacketParams id (Some (PubKey prv)) (Some from) parity seq len x) (arr_zero 16)) as (w' & E).
  cbn [pp_ID pp_Seq pp_Length pp_Parity pp_Data] in E. rewrite !wrapu_small in E by done.
  exists (PubKey from), (GetCloak bl (PubKey prv)), (arr_zero 16), prv, w'. split; [apply GetKeysFromPacket_image|].
  split; [apply HK|exact E].
Qed.

(** A packet of a message with these shards. *)
Definition of_message (id : ID) (len parity : Z) (shards : list bytes) (p : Packet) : Prop :=
  pk_ID p = id ∧ pk_Length p = len ∧ pk_Parity p = parity ∧ 0 ≤ Seq p ∧
  shards !! Z.to_nat (Seq p) = Some (pk_Data p).

(** Received packets that carry shards, as packets. *)
Lemma opened id prv parity len shards got ks d :
  keyed prv d → 0 ≤ parity < 2 ^ 8 → 0 ≤ len < 2 ^ 32 → zlen shards ≤ 2 ^ 16 →
  Forall2 (λ w (kx : nat * bytes), shards !! kx.1 = Some kx.2 ∧
    carries id (PubKey prv) parity len (Z.of_nat kx.1) w kx.2) got.*2 ks →
  ∃ ps, Forall2 (λ g p, opens g.1 d g.2 p) got ps ∧ Forall (of_message id len parity shards) ps ∧
    Seq <$> ps = Z.of_nat <$> ks.*1.
Proof.
  intros HK Hp Hl Hs. revert ks. induction got as [|[now w] got IH]; intros ks HF.
  { apply Forall2_nil_inv_l in HF as ->. exists []. split_and!; done || constructor. }
  cbn [fmap list_fmap snd] in HF. apply Forall2_cons_inv_l in HF as ([k x] & ks' & [Hx Hc] & HF & ->).
  destruct (IH ks' HF) as (ps & H1 & H2 & H3). cbn [fst snd] in Hx, Hc.
  exists (MkPacket id (Z.of_nat k) len parity x now :: ps). split_and!.
  - constructor; [|done]. eapply carries_opens; try done. apply lookup_lt_Some in Hx. unfold zlen in Hs. lia.
  - constructor; [|done]. unfold of_message. cbn. rewrite Nat2Z.id. split_and!; (done || lia).
  - cbn. by f_equal.
Qed.

(** Some of the packets of a message, each at most once, in any order. *)
Lemma arrivals id prv parity len shards wires got d :
  keyed prv d → 0 ≤ parity < 2 ^ 8 → 0 ≤ len < 2 ^ 32 → zlen shards ≤ 2 ^ 16 →
  length wires = length shards →
  (∀ k x, shards !! k = Some x → ∃ w, wires !! k = Some w ∧ carries id (PubKey prv) parity len (Z.of_nat k) w x) →
  got.*2 ⊆+ wires →
  ∃ ps, Forall2 (λ g p, opens g.1 d g.2 p) got ps ∧ Forall (of_message id len parity shards) ps ∧ NoDup (Seq <$> ps).
Proof.
  intros HK Hp Hl Hs Lw Hw [rest Hg]%submseteq_Permutation.
  set (R := λ (w : bytes) (kx : nat * bytes), shards !! kx.1 = Some kx.2 ∧
    carries id (PubKey prv) parity len (Z.of_nat kx.1) w kx.2).
  assert (Forall2 R wires (imap pair shards)) as HF.
  { apply Forall2_same_length_lookup_2; [by rewrite length_imap|]. intros k w [k' x] Ew Ek.
    rewrite list_lookup_imap in Ek. destruct (shards !! k) as [y|] eqn:Ey; [|done]. injection Ek as <- <-.
    split; [done|]. destruct (Hw k y Ey) as (w' & Ew' & Hc). cbn. congruence. }
  destruct (Permutation_Forall2 Hg HF) as (l & Hl' & HF'). apply Forall2_app_inv_l in HF' as (ks & ys & HF' & _ & ->).
  destruct (opened id prv parity len shards got ks d) as (ps & H1 & H2 & H3); try done.
  exists ps. split; [done|]. split; [done|]. rewrite H3. apply NoDup_fmap_2; [intros ? ? ?; lia|].
  assert (NoDup (imap pair shards).*1) as ND.
  { rewrite fmap_imap. replace (imap _ _) with (seq 0 (length shards)); [apply NoDup_ListNoDup, seq_NoDup|].
    apply list_eq. intros i. rewrite list_lookup_imap. destruct (shards !! i) eqn:E; cbn.
    - apply lookup_seq. apply lookup_lt_Some in E. lia.
    - apply lookup_seq_ge. by apply lookup_ge_None. }
  rewrite Hl', fmap_app in ND. by apply NoDup_app in ND as (? & _).
Qed.

(** One packet more than the length would fill: the join is tried, and what it gives
    is handled. *)
Lemma recv_message dr d id n got ps r msg e :
  idle d → id ∉ rx_ID <$> PendingInbound d → MTU (d_Conn d) ≠ 0 →
  Forall2 (λ g p, opens g.1 d g.2 p ∧ pk_ID p = id ∧ segCount p d = Ret n) got ps →
  0 ≤ n → zlen got = n + 1 → 0 ≤ TotalReceived d - lastRekey d →
  TotalReceived d - lastRekey d + volume got ≤ DefaultDispatcherRekey →
  JoinPackets (Some <$> ps) = Ret (r, msg, e) →
  ∃ d' i x, Done d' = [] ∧ Delivered d' = Delivered d ∧ d_Conn d' = d_Conn d ∧ PendingInbound d' !! i = Some x ∧
    recv_all dr got d = Handle msg i d'.
Proof.
  intros HI Hid HM HF Hn HL H0 Hv EJ.
  destruct (decide (got = [])) as [->|Hne]; [unfold zlen in HL; cbn in HL; lia|].
  apply exists_last in Hne as (init & [now w] & ->).
  apply Forall2_app_inv_l in HF as (ps0 & l & HF & HF1 & ->). apply Forall2_cons_inv_l in HF1 as (p & l' & (HO & Hp & Hs) & HF1 & ->).
  apply Forall2_nil_inv_l in HF1 as ->. cbn [fst snd] in *.
  assert (volume (init ++ [(now, w)]) = volume init + zlen w) as EV.
  { clear. unfold volume. induction init as [|g init IH]; cbn [app foldr snd]; lia. }
  rewrite EV in Hv. rewrite zlen_app in HL. change (zlen [(now, w)]) with 1 in HL.
  pose proof (Forall2_length _ _ _ HF) as HL0. pose proof (zlen_nonneg w).
  assert (0 ≤ volume init) by apply foldr_sum_nonneg, (λ g : Z * bytes, zlen_nonneg g.2).
  assert (collecting d id [] 0 d) as HC0 by (constructor; (done || lia)).
  destruct (recv_collects dr d id n init [] ps0 0 d) as (d1 & E1 & HC1); try done.
  { change (zlen []) with 0. unfold zlen in *. lia. } { lia. } { lia. }
  cbn [app] in HC1. destruct (RecvFromConn_collects dr now w p d id ps0 (0 + volume init) d1 n) as (d2 & HC2 & E2); try done; [lia..|].
  rewrite decide_True in E2 by (unfold zlen in *; lia).
  rewrite <- Hp in HC2. destruct (join_records p d _ _ d2 r msg e HC2) as (d' & x & EJ' & HD & HDel & HCo & Hx);
    [by destruct ps0|exact EJ|].
  exists d', (length (PendingInbound d)), x. split_and!; try done.
  rewrite (bind_run _ _ _ _ _ EJ') in E2. rewrite <- E2. clear -E1.
  assert (∀ l m (d : Dispatcher), recv_all dr (l ++ m) d = (recv_all dr l ;; recv_all dr m) d) as Happ.
  { induction l as [|[t v] l IH]; intros m d'; [done|]. cbn [app recv_all].
    unfold mbind, GoM_bind in *. destruct (RecvFromConn dr t v d') as [[[] d2]|]; [apply IH|done]. }
  rewrite Happ, (bind_run _ _ _ _ _ E1). cbn [recv_all]. unfold mbind, GoM_bind.
  by destruct (RecvFromConn dr now w d1) as [[[] ?]|].
Qed.
End Sent.
