(* ===== verification/DispatcherProps.v ===== *)
(** * Properties of the dispatcher *)

From S2P Require Export Delivery.

Lemma filter_all {A} (P : A → Prop) `{!∀ x, Decision (P x)} (l : list A) : (∀ x, x ∈ l → P x) → filter P l = l.
Proof.
  induction l as [|x l IH]; intros HP; [done|]. rewrite filter_cons_True by (apply HP; by left).
  f_equal. apply IH. intros y Hy. apply HP. by right.
Qed.

Section Channel.
Context {cr : Crypto} {crl : CryptoLaws} {ma : Multiaddrs} {rs : ReedSolomon} {ew : Ewma}.
Context (par : Z → Z → list bytes → list bytes).

(** [a] sends to [d] under a key that [d] has, and neither is in the middle of anything. *)
Record linked (prv : Prv) (a d : Dispatcher) : Prop := {
  ln_remote : RemoteKey (d_Conn a) = Some (PubKey prv);
  ln_parity : 0 ≤ d_Parity a ≤ 255;
  ln_mtu : MTU (d_Conn d) = MTU (d_Conn a);
  ln_idle : idle d;
  ln_key : keyed prv d;
  ln_volume : 0 ≤ TotalReceived d - lastRekey d;
}.

(** The packets a message of a length would fill if they had no overhead. *)
Definition fills (len mtu : Z) : Z := len / mtu + if bool_decide (0 < len `mod` mtu) then 1 else 0.

Lemma segCount_run p (d : Dispatcher) : 0 < MTU (d_Conn d) → 0 ≤ pk_Length p →
  segCount p d = Ret (fills (pk_Length p) (MTU (d_Conn d))).
Proof.
  intros HM HL. unfold segCount, fills. rewrite bool_decide_false by lia.
  by rewrite Z.quot_div_nonneg, Z.rem_mod_nonneg by lia.
Qed.

(** Sending puts the packets on the connection, in the order they were shuffled to. *)
Lemma SendToConn_run dr m pieces wires ks' (a : Dispatcher) :
  split dr m a = Ret ((pieces, wires, None), set_keys (d_Prv a) (lastRekey a) ks' a) → d_Mutex a = false →
  ∃ a', SendToConn dr m a = Ret (pieces, a') ∧
    c_Sent (d_Conn a') = c_Sent (d_Conn a) ++ dr_shuffle dr wires.
Proof.
  intros ES HM. unfold SendToConn. rewrite (bind_run _ _ _ _ _ ES).
  cbn match zeta. rewrite (bind_run _ _ _ tt _ eq_refl).
  unfold D_Lock, D_Unlock, record_sent, upd_d, mbind, GoM_bind. cbn. rewrite HM. cbn. eexists. split; [done|]. done.
Qed.

(** So does a change of key, which keeps the new key behind the old ones. *)
Lemma ReKey_run dr prv pieces wires ks' (a : Dispatcher) :
  let a1 := set_locks (KeyLock a) (d_Mutex a) true (set_keys (d_Prv a) (Z.abs (TotalReceived a)) (d_ks a) a) in
  dr_Prv dr = Some prv → rekeying a = false →
  split dr (newkey_bytes (PubKey prv)) a1 = Ret ((pieces, wires, None), set_keys (d_Prv a1) (lastRekey a1) ks' a1) →
  ∃ a', ReKey dr a = Ret (tt, a') ∧ rekeying a' = false ∧
    c_Sent (d_Conn a') = c_Sent (d_Conn a) ++ dr_shuffle dr wires ∧
    d_Prv a' = take 32 (d_Prv a ++ [prv]).
Proof.
  intros a1 HP HR ES. destruct (NewKey_Encode_run (PubKey prv)) as (s & EE & EG). unfold ReKey.
  rewrite (bind_run _ _ a tt (set_keys (d_Prv a) (Z.abs (TotalReceived a)) (d_ks a) a)) by done.
  change ((get ≫= ?f) ?x) with (f x x). cbn beta. cbn [rekeying set_keys]. rewrite HR.
  rewrite (bind_run _ _ _ tt a1) by (unfold toggle_rekeying, upd_d, a1; cbn; by rewrite HR).
  unfold send_key. rewrite HP.
  erewrite (bind_run _ _ a1); cycle 1.
  { rewrite (bind_run _ _ _ _ _ (lift_run _ _ a1 EE)). cbn match zeta. rewrite EG, (bind_run _ _ _ _ _ ES).
    cbn match zeta. unfold send_packets, mark_rekey, record_sent, upd_d, mbind, GoM_bind. reflexivity. }
  eexists. split; [reflexivity|]. by cbn.
Qed.

(** Packets of a message of one section, joined: the message, or nothing. *)
Lemma join_outcome m size parity id g segs ps :
  let L := zlen m in
  let n := L / size + 1 in
  0 < size → 0 ≤ parity ≤ 255 → L `mod` size ≠ 0 → n ≤ 256 - parity →
  segments_spec L size parity = [g] → coders par [g] → segments_of m size segs →
  ps ≠ [] → NoDup (Seq <$> ps) → Forall (of_message id L parity (shards_of par [g] segs)) ps →
  ∃ r e, JoinPackets (Some <$> ps) = Ret (r, if decide (n ≤ zlen ps) then m else [], e).
Proof.
  intros L n Hs Hp Hmod Hn ES HC Hseg Hne ND HM. assert (0 ≤ L) as H0 by apply zlen_nonneg.
  assert (0 ≤ L / size) by (apply Z.div_pos; lia).
  destruct (segments_single L size parity) as (g' & ES' & HS & HD & HE & Hok & Hch); try done.
  rewrite ES in ES'. injection ES' as <-.
  destruct (joined_payload m size parity segs) as (Ln & EJ); try done.
  { destruct (decide (n = 256 - parity)); [by right|left]. fold L n. rewrite Z.mod_small; lia. }
  fold L in EJ, Ln. rewrite ES in EJ.
  assert (zlen segs = data_count [g]) as Hdc by (cbn; rewrite Ln, HD; lia).
  destruct (shards_sized par parity size Hs ltac:(lia) [g] segs 0 (PEnd g)) as [Ls Ss]; try done.
  { by constructor. } { apply Hseg. }
  rewrite Forall_forall in HM. rewrite Forall_forall in Ss.
  assert (∀ p, p ∈ ps → 0 ≤ Seq p < PEnd g ∧ zlen (pk_Data p) = size) as Hin.
  { intros p Hp'. destruct (HM p Hp') as (_ & _ & _ & ? & Es). split; [|eapply Ss; by eapply list_elem_of_lookup_2].
    apply lookup_lt_Some in Es. unfold zlen in Ls. lia. }
  assert (NewSegments L (size + Packet_GetOverhead) Packet_GetOverhead parity = Ret [g]) as EN
    by (rewrite NewSegments_run by done; by rewrite ES).
  assert (omap Datatypes.id (Some <$> ps) = ps) as Eom by (clear; induction ps as [|p ps IH]; [done|]; cbn; by f_equal).
  destruct (decide (n ≤ zlen ps)) as [Hle|Hlt].
  - destruct (JoinPackets_arrived par [g] segs L parity size (PEnd g)) with (ps := Some <$> ps) as (r & EP); try done.
    { lia. } { apply Hseg. } { by constructor. }
    { rewrite Eom. split_and!; [done|done| |].
      - intros p Hp'. by destruct (HM p Hp') as (_ & ? & ? & ? & ?).
      - intros g' ->%list_elem_of_singleton. rewrite filter_all; [lia|]. intros p Hp'. rewrite HS. by apply Hin. }
    rewrite EJ in EP. by exists r, None.
  - destruct (JoinPackets_few (Some <$> ps) L size parity g) as (r & e & EP); rewrite ?Eom; try done; [|lia|lia|].
    + intros p Hp'. destruct (HM p Hp') as (_ & ? & ? & _). by destruct (Hin p Hp').
    + by exists r, (Some e).
Qed.

(** What the receiver makes of one packet more than the length would fill: the whole
    message when that is enough, and the empty message when it is not. *)
Lemma split_outcome prv a d dr m :
  let L := zlen m in
  let size := MTU (d_Conn a) - PacketParams_GetOverhead in
  let n := L / size + 1 in
  linked prv a d → dr_ID dr ∉ rx_ID <$> PendingInbound d →
  0 < size → L < 2 ^ 32 → L `mod` size ≠ 0 → n ≤ 256 - d_Parity a →
  coders par (segments_spec L size (d_Parity a)) →
  ∃ pieces wires ks', split dr m a = Ret ((pieces, wires, None), set_keys (d_Prv a) (lastRekey a) ks' a) ∧
    ∀ dr' got, got.*2 ⊆+ wires → zlen got = fills L (MTU (d_Conn a)) + 1 →
      TotalReceived d - lastRekey d + volume got ≤ DefaultDispatcherRekey →
      ∃ d' i x, Done d' = [] ∧ Delivered d' = Delivered d ∧ d_Conn d' = d_Conn d ∧
        PendingInbound d' !! i = Some x ∧
        recv_all dr' got d = Handle (if decide (n ≤ zlen got) then m else []) i d'.
Proof.
  intros L size n [HR HP HU HI HK HV] Hid Hs HL Hmod Hn HC. assert (0 ≤ L) as H0 by apply zlen_nonneg.
  destruct (segments_single L size (d_Parity a)) as (g & ES & _ & HD & HE & Hok & Hch); try done.
  set (pp := MkPacketParams (dr_ID dr) (RemoteKey (d_Conn a)) None (d_Parity a) 0 L m).
  destruct (SplitToPackets_run par (dr_seed dr) (dr_rnd dr) pp (MTU (d_Conn a)) (d_ks a) (PubKey prv))
    as (segs & wires & pieces & pp' & ks' & Hseg & Ln & EW & Lw & Hw); try done.
  cbn [pp_Data pp_Parity pp_ID pp] in Hseg, Ln, Lw, Hw. fold L size in Hseg, Ln, Lw, Hw. rewrite ES in *.
  destruct (shards_sized par (d_Parity a) size Hs ltac:(lia) [g] segs 0 (PEnd g)) as [Ls _]; try done.
  { by constructor. } { apply Hseg. } { cbn. rewrite Ln, HD. lia. }
  exists pieces, wires, ks'. split; [unfold split; fold L pp; by rewrite EW|]. intros dr' got Hgot Hlen Hvol.
  destruct (arrivals (dr_ID dr) prv (d_Parity a) L (shards_of par [g] segs) wires got d) as (ps & HF & HM' & ND);
    try done; [lia|lia|].
  assert (0 < MTU (d_Conn a)) as Hmtu by (unfold size in Hs; change PacketParams_GetOverhead with 76 in Hs; lia).
  assert (0 ≤ fills L (MTU (d_Conn a))) as Hfill.
  { unfold fills. pose proof (Z.div_pos L (MTU (d_Conn a)) H0 Hmtu). case_bool_decide; lia. }
  assert (zlen ps = zlen got) as Hps by (unfold zlen; by rewrite (Forall2_length _ _ _ HF)).
  destruct (join_outcome m size (d_Parity a) (dr_ID dr) g segs ps) as (r & e & EJ); try done.
  { intros ->. unfold zlen in *. cbn in Hps. lia. }
  fold L n in EJ. rewrite Hps in EJ. assert (MTU (d_Conn d) ≠ 0) as HU0 by lia.
  apply (recv_message dr' d (dr_ID dr) (fills L (MTU (d_Conn a))) got ps r _ e); try done.
  rewrite Forall_forall in HM'. apply Forall2_same_length_lookup. split; [by eapply Forall2_length|].
  intros i [now w] p Eg Ep. pose proof (Forall2_lookup_lr _ _ _ _ _ _ HF Eg Ep). apply list_elem_of_lookup_2 in Ep.
  destruct (HM' p Ep) as (? & EL & _). split_and!; [done|done|]. rewrite <- EL, <- HU. apply segCount_run; lia.
Qed.

(** A message that was joined goes to [handle_message], with the record it belongs to
    given its hash. *)
Lemma Handle_run m i x (d : Dispatcher) : Done d = [] → PendingInbound d !! i = Some x →
  Handle m i d
  = handle_message m (set_Pending (<[i := rx_with_Hash (Single m) x]> (PendingInbound d)) (Partials d) d).
Proof.
  intros HD Hx. unfold Handle. change ((get ≫= ?f) d) with (f d d). cbn beta.
  rewrite (bind_run _ _ _ _ _ (lift_run _ _ d (goindex_lookup _ _ _ Hx))), HD.
  rewrite bool_decide_false by (by intros ?%Exists_nil). done.
Qed.

(** C3: a message gets through a pair of dispatchers under loss and reordering: when
    the sender holds a key the receiver has, the bytes of an onion that make one
    section of packets are sent in packets of which any selection of the joining
    count, in any order and each at most once, makes the receiver deliver exactly
    those bytes, provided that count reaches the message's data segments; nothing is
    delivered before. *)
Theorem message_delivered prv a d dr b :
  let m := onion_bytes b in
  let size := MTU (d_Conn a) - PacketParams_GetOverhead in
  let mtu := MTU (d_Conn a) in
  linked prv a d → d_Mutex a = false →
  dr_ID dr ∉ rx_ID <$> PendingInbound d → (∀ l, dr_shuffle dr l ≡ₚ l) →
  0 < size → zlen m < 2 ^ 32 → zlen m `mod` size ≠ 0 → zlen m / size + 1 ≤ 256 - d_Parity a →
  zlen m / size ≤ fills (zlen m) mtu →
  coders par (segments_spec (zlen m) size (d_Parity a)) →
  ∃ pieces a' sent, SendToConn dr m a = Ret (pieces, a') ∧
    c_Sent (d_Conn a') = c_Sent (d_Conn a) ++ sent ∧
    ∀ dr' got, got.*2 ⊆+ sent → zlen got = fills (zlen m) mtu + 1 →
      TotalReceived d - lastRekey d + volume got ≤ DefaultDispatcherRekey →
      ∃ d', recv_all dr' got d = Ret (tt, d') ∧ Delivered d' = Delivered d ++ [b].
Proof.
  intros m size mtu HL HM Hid Hsh Hs Hm Hmod Hn Hle HC.
  destruct (split_outcome prv a d dr m) as (pieces & wires & ks' & ES & HO); try done.
  destruct (SendToConn_run dr m pieces wires ks' a ES HM) as (a' & E1 & E2).
  exists pieces, a', (dr_shuffle dr wires). split; [done|]. split; [done|]. intros dr' got Hgot Hlen Hvol.
  rewrite (Hsh wires) in Hgot. destruct (HO dr' got Hgot Hlen Hvol) as (d' & i & x & HD & HDel & _ & Hx & ->).
  rewrite decide_True by (unfold mtu, size in *; lia). rewrite (Handle_run _ _ x) by done.
  eexists. split; [apply handle_onion|cbn; by rewrite HDel].
  unfold m in Hm. rewrite zlen_onion in Hm. unfold Small32. pose proof (zlen_nonneg b). lia.
Qed.

(** The join is tried one packet after the message's length would fill the
    connection's packets, although a packet holds less than that: a message with more
    data segments than the joining count makes the receiver panic, whichever packets
    of it arrive, because the failed join's empty message is handled all the same. *)
Theorem early_join_panics prv a d dr m :
  let size := MTU (d_Conn a) - PacketParams_GetOverhead in
  let mtu := MTU (d_Conn a) in
  linked prv a d → d_Mutex a = false →
  dr_ID dr ∉ rx_ID <$> PendingInbound d → (∀ l, dr_shuffle dr l ≡ₚ l) →
  0 < size → zlen m < 2 ^ 32 → zlen m `mod` size ≠ 0 → zlen m / size + 1 ≤ 256 - d_Parity a →
  fills (zlen m) mtu < zlen m / size →
  coders par (segments_spec (zlen m) size (d_Parity a)) →
  ∃ pieces a' sent, SendToConn dr m a = Ret (pieces, a') ∧
    c_Sent (d_Conn a') = c_Sent (d_Conn a) ++ sent ∧
    ∀ dr' got, got.*2 ⊆+ sent → zlen got = fills (zlen m) mtu + 1 →
      TotalReceived d - lastRekey d + volume got ≤ DefaultDispatcherRekey →
      recv_all dr' got d = Panic PSlice.
Proof.
  intros size mtu HL HM Hid Hsh Hs Hm Hmod Hn Hlt HC.
  destruct (split_outcome prv a d dr m) as (pieces & wires & ks' & ES & HO); try done.
  destruct (SendToConn_run dr m pieces wires ks' a ES HM) as (a' & E1 & E2).
  exists pieces, a', (dr_shuffle dr wires). split; [done|]. split; [done|]. intros dr' got Hgot Hlen Hvol.
  rewrite (Hsh wires) in Hgot. destruct (HO dr' got Hgot Hlen Hvol) as (d' & i & x & HD & HDel & _ & Hx & ->).
  rewrite decide_False by (unfold mtu, size in *; lia). by eapply Handle_empty.
Qed.
(** C24: a change of key is agreed on: the dispatcher that changes its key announces it
    in packets under the old one, keeps it as the last of its thirty-two oldest keys,
    and ends with no change under way; the other side, once enough of the packets
    arrived, seals what it sends from then on to the new key. *)
Theorem rekey_exchanged prv a d dr new old :
  let m := newkey_bytes (PubKey new) in
  let size := MTU (d_Conn a) - PacketParams_GetOverhead in
  let mtu := MTU (d_Conn a) in
  linked prv a d → rekeying a = false → dr_Prv dr = Some new →
  dr_ID dr ∉ rx_ID <$> PendingInbound d → (∀ l, dr_shuffle dr l ≡ₚ l) →
  0 < size → 37 `mod` size ≠ 0 → 37 / size + 1 ≤ 256 - d_Parity a → 37 / size ≤ fills 37 mtu →
  coders par (segments_spec 37 size (d_Parity a)) →
  RemoteKey (d_Conn d) = Some old → old ≠ PubKey new →
  ∃ a' sent, ReKey dr a = Ret (tt, a') ∧ rekeying a' = false ∧
    c_Sent (d_Conn a') = c_Sent (d_Conn a) ++ sent ∧ d_Prv a' = take 32 (d_Prv a ++ [new]) ∧
    ∀ dr' got, got.*2 ⊆+ sent → zlen got = fills 37 mtu + 1 →
      TotalReceived d - lastRekey d + volume got ≤ DefaultDispatcherRekey →
      ∃ d', recv_all dr' got d = Ret (tt, d') ∧ RemoteKey (d_Conn d') = Some (PubKey new).
Proof.
  intros m size mtu HL HR HP Hid Hsh Hs Hmod Hn Hle HC HO Hne.
  assert (zlen m = 37) as Lm by (unfold m, newkey_bytes; by rewrite zlen_app, zlen_arr).
  set (a1 := set_locks (KeyLock a) (d_Mutex a) true (set_keys (d_Prv a) (Z.abs (TotalReceived a)) (d_ks a) a)).
  assert (linked prv a1 d) as HL1 by (destruct HL; by constructor).
  destruct (split_outcome prv a1 d dr m) as (pieces & wires & ks' & ES & HOut); try done; rewrite ?Lm; try done.
  destruct (ReKey_run dr new pieces wires ks' a HP HR ES) as (a' & E1 & E2 & E3 & E4).
  exists a', (dr_shuffle dr wires). split_and!; try done. intros dr' got Hgot Hlen Hvol. rewrite (Hsh wires) in Hgot.
  rewrite Lm in HOut. destruct (HOut dr' got Hgot Hlen Hvol) as (d' & i & x & HD & _ & HCo & Hx & ->).
  change (MTU (d_Conn a1)) with (MTU (d_Conn a)). rewrite decide_True by (unfold mtu, size in *; lia).
  rewrite (Handle_run _ _ x) by done.
  unfold m. rewrite (handle_newkey _ old) by (cbn; by rewrite ?HCo). by eexists.
Qed.
End Channel.

Section Peer.
Context {cr : Crypto} {crl : CryptoLaws} {ma : Multiaddrs} {rs : ReedSolomon} {ew : Ewma}.

(** A packet sealed to a key the dispatcher does not have, which anyone who can
    reach it may send, is not discarded: decoding goes on without a key and panics. *)
Theorem unknown_key_panics dr now nonc bl from to ep (d : Dispatcher) :
  KeyLock d = false → find_key (GetCloak bl to) (d_Prv d) = None →
  RecvFromConn dr now (packet_image nonc bl from to ep) d = Panic PNil.
Proof.
  intros HK HF. pose proof (zlen_packet_image nonc bl from to ep) as HZ. pose proof (zlen_nonneg (pp_Data ep)).
  unfold RecvFromConn. rewrite GetKeysFromPacket_image.
  rewrite (bind_run _ _ d _ _ (lift_run _ _ d eq_refl)). cbn match.
  rewrite (bind_run (search_key _) _ d None d) by (unfold search_key; by rewrite HK, HF).
  apply bind_panic. unfold lift, DecodePacket. change Overhead with 61.
  rewrite bool_decide_false by lia. by rewrite goslice_in by lia.
Qed.

(** An acknowledgement is decoded as the receiver encoded it and settles the first
    pending record of its message: the data counts as sent when the hash agrees, and
    the parity is adapted, staying a byte.  The loop that looks for the record ends at
    it, and the records of all messages sent after it are forgotten unacknowledged. *)
Theorem ack_settles r pre p post (d : Dispatcher) :
  PendingOutbound d = pre ++ p :: post → Forall (λ q, tx_ID q ≠ rx_ID r) pre → tx_ID p = rx_ID r →
  ∃ m d', ack_bytes r = Ret (None, m) ∧ handle_message m d = Ret (tt, d') ∧
    PendingOutbound d' = pre ∧
    DataSent d' = DataSent d + (if decide (rx_Hash r = tx_Hash p) then tx_Size p else 0) ∧
    0 ≤ d_Parity d' < 256 ∧ PendingInbound d' = PendingInbound d ∧ d_Conn d' = d_Conn d.
Proof.
  intros HO Hpre Hp. exists (string_bytes AcknowledgeMagic ++ ack_fields r).
  destruct (Acknowledge_Encode_run r) as (s & Es & Eg).
  assert (∀ tmp, ack_loop (acked r) (pre ++ p :: post) tmp d = (acknowledge (acked r) p ;; mret (tmp ++ pre)) d) as HLoop.
  { clear HO. induction Hpre as [|q pre Hq Hpre IH]; intros tmp; cbn [app ack_loop].
    - by rewrite decide_True, app_nil_r.
    - rewrite decide_False by done. rewrite IH. by rewrite <- app_assoc. }
  eexists. split; [unfold ack_bytes; rewrite Es; cbn; by rewrite Eg|].
  rewrite handle_ack. cbn [handle_codec]. change ((get ≫= ?f) d) with (f d d). cbn beta. rewrite HO.
  unfold mbind at 1, GoM_bind at 1. rewrite HLoop.
  split; [reflexivity|]. cbn. split; [done|]. change (rx_Hash (acked r)) with (rx_Hash r).
  split; [|split; [apply wrapu_range; lia|split]]; case_decide; cbn; lia || done.
Qed.

(** The garbage collector collects nothing: it subtracts the present from the time
    of the newest packet, which never exceeds it, so no message times out; stale
    packets, records and keys stay for good. *)
Theorem RunGC_collects_nothing now order (d : Dispatcher) :
  0 ≤ wraps 64 (wraps 64 (ftrunc (ma_Value (d_Ping d))) * TimeoutPingCount) →
  (∀ id ps, Partials d !! id = Some ps → ps ≠ [] →
     omap Datatypes.id ps ≠ [] ∧ Forall (λ p, TimeStamp p ≤ now) (omap Datatypes.id ps)) →
  RunGC now order d = Ret (tt, d).
Proof.
  intros HP HT. unfold RunGC. assert (gc_scan now order d = Ret ([], d)) as E; [|by rewrite (bind_run _ _ _ _ _ E)].
  induction order as [|k order IH]; [done|]. cbn [gc_scan].
  assert (gc_one now k d = Ret ([], d)) as E; [|by rewrite (bind_run _ _ _ _ _ E), (bind_run _ _ _ _ _ IH)].
  unfold gc_one. change ((get ≫= ?f) d) with (f d d). cbn beta.
  destruct (Partials d !! k) as [[|o ps]|] eqn:EP; [done| |done].
  destruct (HT k (o :: ps) EP) as [Hne HF]; [done|]. destruct (omap Datatypes.id (o :: ps)) as [|p0 tmp] eqn:Et; [done|].
  rewrite (bind_run _ _ d p0 d) by done. cbv zeta. rewrite bool_decide_false; [done|].
  assert (∀ l t, t ≤ now → Forall (λ p, TimeStamp p ≤ now) l →
    foldl (λ t p, if bool_decide (t < TimeStamp p) then TimeStamp p else t) t l ≤ now) as Hmax.
  { induction l as [|q l IHl]; intros t Ht Hl; [done|]. apply Forall_cons in Hl as [Hq Hl]. cbn [foldl].
    case_bool_decide; by apply IHl. }
  pose proof HF as [H0 _]%Forall_cons. specialize (Hmax _ (TimeStamp p0) H0 HF). lia.
Qed.
End Peer.

Section Life.
Context {cr : Crypto} {ma : Multiaddrs} {rs : ReedSolomon} {ew : Ewma}.

(** C9: what holds in every state a dispatcher can come to, whatever it is told and
    whatever it receives: there is one record per message and packets are kept exactly
    for the messages with a record, each packet under its own identifier; no lock is
    held and no key change is under way between two events; at most thirty-two keys
    are kept, the parity is a byte, and the volume at the last key change is not more
    than was received since.  Nothing is ever recorded as done. *)
Theorem dispatcher_sound conn ks local remote dr d d' :
  NewDispatcher conn ks local remote dr = Ret d → reach d d' → sound_at false false d'.
Proof. intros HN HR. induction HR as [|d1 d2 ev HR IH E]; [by eapply NewDispatcher_sound|by eapply react_keeps]. Qed.
End Life.

(** A pair of dispatchers with one key each, linked both ways. *)
Module ToyPair.
#[local] Existing Instances Toy.crypto Toy.laws Toy.multiaddrs ToyRS.coder.
#[export] Instance ewma : Ewma := {|
  MA := float; NewMovingAverage := fl 0; ma_Add := λ _ x, x; ma_Value := λ x, x; ma_Set := λ _ x, x |}.

Definition ka : Prv := arr_of 32 [x03].
Definition kd : Prv := arr_of 32 [x05].
Definition new : Prv := arr_of 32 [x09].
Definition disp (parity mtu : Z) (own : Prv) (other : Pub) : Dispatcher :=
  MkDispatcher parity 0 0 0 0 (fl 0) (fl 0) (fl 1) [] [] [] [] [] ∅ [own] false 0 (MkKeySet ka kd)
    (MkConn mtu (Some other) []) false false.
Definition draws : Draws :=
  MkDraws (Some new) (arr_of 8 [x07]) (arr_zero 32) (λ _, (arr_zero 16, arr_zero _)) (@rev bytes) 5 6.

Lemma link parity mtu : 0 ≤ parity ≤ 255 →
  linked kd (disp parity mtu ka (PubKey kd)) (disp parity mtu kd (PubKey ka)).
Proof. intros Hp. constructor; [done|done|done|by constructor|by apply keyed_single|done]. Qed.

Lemma one_section size len : segments_spec len size 1 = [MkSegment 0 1 2 size len] →
  coders ToyRS.par (segments_spec len size 1).
Proof. intros ->. constructor; [|constructor]. intros _. by apply ToyRS.law. Qed.
End ToyPair.
#[local] Existing Instances Toy.crypto Toy.laws Toy.multiaddrs ToyRS.coder ToyPair.ewma.

Lemma message_delivered_witness :
  let a := ToyPair.disp 1 200 ToyPair.ka (PubKey ToyPair.kd) in
  let d := ToyPair.disp 1 200 ToyPair.kd (PubKey ToyPair.ka) in
  ∃ pieces a' sent, SendToConn ToyPair.draws (onion_bytes [x2a]) a = Ret (pieces, a') ∧
    c_Sent (d_Conn a') = c_Sent (d_Conn a) ++ sent ∧
    ∀ dr' got, got.*2 ⊆+ sent → zlen got = 2 →
      TotalReceived d - lastRekey d + volume got ≤ DefaultDispatcherRekey →
      ∃ d', recv_all dr' got d = Ret (tt, d') ∧ Delivered d' = [[x2a]].
Proof.
  intros a d. apply (message_delivered ToyRS.par ToyPair.kd a d ToyPair.draws [x2a]).
  - by apply ToyPair.link.
  - reflexivity.
  - by intros ?%not_elem_of_nil.
  - intros l. symmetry. apply Permutation_rev.
  - by vm_compute.
  - by vm_compute.
  - by vm_compute.
  - by vm_compute.
  - by vm_compute.
  - apply (ToyPair.one_section 124 9). reflexivity.
Defined.

Lemma early_join_panics_witness :
  let a := ToyPair.disp 0 100 ToyPair.ka (PubKey ToyPair.kd) in
  let d := ToyPair.disp 0 100 ToyPair.kd (PubKey ToyPair.ka) in
  ∃ pieces a' sent, SendToConn ToyPair.draws (replicate 100 x00) a = Ret (pieces, a') ∧
    c_Sent (d_Conn a') = c_Sent (d_Conn a) ++ sent ∧
    ∀ dr' got, got.*2 ⊆+ sent → zlen got = 2 →
      TotalReceived d - lastRekey d + volume got ≤ DefaultDispatcherRekey →
      recv_all dr' got d = Panic PSlice.
Proof.
  intros a d. apply (early_join_panics ToyRS.par ToyPair.kd a d ToyPair.draws (replicate 100 x00)).
  - by apply ToyPair.link.
  - reflexivity.
  - by intros ?%not_elem_of_nil.
  - intros l. symmetry. apply Permutation_rev.
  - by vm_compute.
  - by vm_compute.
  - by vm_compute.
  - by vm_compute.
  - by vm_compute.
  - assert (segments_spec 100 24 0 = [MkSegment 0 5 5 24 4]) as E by reflexivity.
    change (coders ToyRS.par (segments_spec 100 24 0)). rewrite E. constructor; [|constructor].
    intros N. exfalso. by vm_compute in N.
Defined.

Lemma rekey_exchanged_witness :
  let a := ToyPair.disp 1 200 ToyPair.ka (PubKey ToyPair.kd) in
  let d := ToyPair.disp 1 200 ToyPair.kd (PubKey ToyPair.ka) in
  ∃ a' sent, ReKey ToyPair.draws a = Ret (tt, a') ∧ rekeying a' = false ∧
    c_Sent (d_Conn a') = c_Sent (d_Conn a) ++ sent ∧ d_Prv a' = [ToyPair.ka; ToyPair.new] ∧
    ∀ dr' got, got.*2 ⊆+ sent → zlen got = 2 →
      TotalReceived d - lastRekey d + volume got ≤ DefaultDispatcherRekey →
      ∃ d', recv_all dr' got d = Ret (tt, d') ∧ RemoteKey (d_Conn d') = Some (PubKey ToyPair.new).
Proof.
  intros a d. apply (rekey_exchanged ToyRS.par ToyPair.kd a d ToyPair.draws ToyPair.new (PubKey ToyPair.ka)).
  - by apply ToyPair.link.
  - reflexivity.
  - reflexivity.
  - by intros ?%not_elem_of_nil.
  - intros l. symmetry. apply Permutation_rev.
  - by vm_compute.
  - by vm_compute.
  - by vm_compute.
  - by vm_compute.
  - apply (ToyPair.one_section 124 37). reflexivity.
  - reflexivity.
  - intros E. apply (f_equal arr_list) in E. by vm_compute in E.
Defined.

Lemma unknown_key_panics_witness :
  let d := ToyPair.disp 1 200 ToyPair.kd (PubKey ToyPair.ka) in
  RecvFromConn ToyPair.draws 9 (packet_image (arr_zero 16) (arr_zero _) ToyPair.ka (PubKey ToyPair.new)
    (MkPacketParams (arr_zero 8) None None 0 0 0 [])) d = Panic PNil.
Proof.
  intros d. apply (unknown_key_panics ToyPair.draws 9 (arr_zero 16) (arr_zero _) ToyPair.ka (PubKey ToyPair.new)
    (MkPacketParams (arr_zero 8) None None 0 0 0 []) d).
  - reflexivity.
  - by vm_compute.
Defined.

Lemma ack_settles_witness :
  let r := MkRxRecord (arr_of 8 [x07]) (arr_zero 32) 1 2 3 4 5 in
  let tx b := MkTxRecord (arr_of 8 [b]) (arr_zero 32) 1 2 30 5 in
  let d := set_Outbound [tx x06; tx x07; tx x08] (ToyPair.disp 1 200 ToyPair.kd (PubKey ToyPair.ka)) in
  ∃ m d', ack_bytes r = Ret (None, m) ∧ handle_message m d = Ret (tt, d') ∧
    PendingOutbound d' = [tx x06] ∧ DataSent d' = 30 ∧ 0 ≤ d_Parity d' < 256.
Proof.
  intros r tx d. destruct (ack_settles r [tx x06] (tx x07) [tx x08] d) as (m & d' & H1 & H2 & H3 & H4 & H5 & _).
  - reflexivity.
  - constructor; [|constructor]. intros E. apply (f_equal arr_list) in E. by vm_compute in E.
  - reflexivity.
  - exists m, d'. split; [exact H1|]. split; [exact H2|]. split; [exact H3|]. split; [|exact H5].
    rewrite H4. by vm_compute.
Defined.

Lemma RunGC_collects_nothing_witness :
  let p := MkPacket (arr_of 8 [x07]) 0 9 1 [x2a] 1 in
  let d := set_Pending [] {[ pk_ID p := [Some p] ]} (ToyPair.disp 1 200 ToyPair.kd (PubKey ToyPair.ka)) in
  RunGC (10 ^ 18) [pk_ID p] d = Ret (tt, d).
Proof.
  intros p d. apply (RunGC_collects_nothing (10 ^ 18) [pk_ID p] d).
  - by vm_compute.
  - intros id ps E _. change (({[ pk_ID p := [Some p] ]} : gmap ID (list (option Packet))) !! id = Some ps) in E.
    apply lookup_singleton_Some in E as [_ <-]. split; [done|]. constructor; [by vm_compute|constructor].
Defined.

Lemma dispatcher_sound_witness :
  ∃ d, NewDispatcher (MkConn 200 None []) (MkKeySet ToyPair.ka ToyPair.kd) (Some [x03])
      (Some (arr_list (SerializeCompressed (PubKey ToyPair.kd)))) ToyPair.draws = Ret d ∧
    length (d_Prv d) = 2%nat ∧ sound_at false false d.
Proof.
  assert (match NewDispatcher (MkConn 200 None []) (MkKeySet ToyPair.ka ToyPair.kd) (Some [x03])
      (Some (arr_list (SerializeCompressed (PubKey ToyPair.kd)))) ToyPair.draws with
    | Ret d => length (d_Prv d) | Panic _ => 0%nat end = 2%nat) as H by by vm_compute.
  destruct (NewDispatcher (MkConn 200 None []) (MkKeySet ToyPair.ka ToyPair.kd) (Some [x03])
    (Some (arr_list (SerializeCompressed (PubKey ToyPair.kd)))) ToyPair.draws) as [d|] eqn:E; [|done].
  exists d. split; [done|]. split; [done|]. apply (dispatcher_sound _ _ _ _ _ d d E), reach_refl.
Defined.
