(* ===== verification/PeerMem.v ===== *)
(** * The in-memory peer store

    Models [pkg/engine/transport/pstoremem]: the address book with its shards,
    expiries and subscriptions, the key, protocol and metadata books, and the peer
    store they make up.  Peer identifiers, keys, signed envelopes and the splitting of
    addresses are libp2p's.  Every method is one critical section of the lock it takes,
    and none calls out of it; the clock is an argument, and so are the orders that Go
    leaves open. *)

From stdpp Require Export functions.
From S2P Require Export Node.

Abbreviation PeerID := bytes.

(** [peer.PeerRecord] *)
Record PeerRecord {A : Type} := MkPeerRecord { pr_PeerID : PeerID; pr_Seq : Z; pr_Addrs : list (option A) }.
Arguments PeerRecord A : clear implicits.
Arguments MkPeerRecord {A}.

Class Libp2p {ma : Multiaddrs} := {
  PublicKey : Type;
  PrivateKey : Type;
  (** [peer.SplitAddr]: the address without its peer part, and that peer. *)
  SplitAddr : option Multiaddr → option Multiaddr * PeerID;
  (** [manet.IsIPLoopback], [mafmt.TCP.Matches] *)
  IsIPLoopback : Multiaddr → bool;
  TCP_Matches : Multiaddr → bool;
  (** [record.Envelope]: its record, when it is one of a peer, and its key *)
  Envelope : Type;
  env_Record : Envelope → option (PeerRecord Multiaddr) + error;
  env_PublicKey : Envelope → PublicKey;
  MatchesPublicKey : PeerID → PublicKey → bool;
  MatchesPrivateKey : PeerID → PrivateKey → bool;
  ExtractPublicKey : PeerID → option PublicKey;
  (** [pstore.Metrics] *)
  Metrics : Type;
  NewMetrics : Metrics;
  Metrics_RemovePeer : PeerID → Metrics → Metrics;
}.

Section AddrBook.
Context {ma : Multiaddrs} {lp : Libp2p}.

(** ** Addresses *)

Record expiringAddr := MkExpiring { x_Addr : Multiaddr; x_TTL : Z; x_Expires : Z }.

(** [!t.Before(e.Expires)] *)
Definition ExpiredBy (t : Z) (e : expiringAddr) : Prop := ¬ t < x_Expires e.
#[export] Instance ExpiredBy_dec t e : Decision (ExpiredBy t e).
Proof. unfold ExpiredBy. apply _. Defined.

Record peerRecordState := MkRecordState { rs_Envelope : Envelope; rs_Seq : Z }.

Abbreviation addrMap := (gmap bytes expiringAddr).

Record addrSegment := MkAddrSegment {
  addrs : gmap PeerID addrMap;
  signedPeerRecords : gmap PeerID peerRecordState;
}.

(** The array of 256 segments. *)
Definition addrSegments : Type := byte → addrSegment.

(** [segments.get]: by the last byte of the identifier. *)
Definition segment_of (p : PeerID) : byte := default x00 (last p).

(** ** Subscriptions *)

(** A subscription's goroutine: what it has seen, the address it offers, those behind
    it, and those the reader took; its context may be done, and it may have left. *)
Record Stream := MkStream {
  st_Peer : PeerID;
  st_sent : gset bytes;
  st_next : option Multiaddr;
  st_buffer : list Multiaddr;
  st_out : list Multiaddr;
  st_Done : bool;
  st_Closed : bool;
}.

Record AddrSubManager := MkSubManager {
  subs : gmap PeerID (list positive);
  streams : gmap positive Stream;
}.

Definition pop (buffer : list Multiaddr) : option Multiaddr * list Multiaddr :=
  match buffer with [] => (None, []) | a :: buffer => (Some a, buffer) end.

(** [case outch <- next] *)
Definition take_next (st : Stream) : Stream :=
  match st_next st with
  | None => st
  | Some a =>
      let '(next, buffer) := pop (st_buffer st) in
      MkStream (st_Peer st) (st_sent st) next buffer (st_out st ++ [a]) (st_Done st) (st_Closed st)
  end.

(** [case naddr := <-sub.pubch] *)
Definition recv_addr (a : Multiaddr) (st : Stream) : Stream :=
  if decide (MarshalBinary a ∈ st_sent st) then st
  else
    let sent := {[ MarshalBinary a ]} ∪ st_sent st in
    match st_next st with
    | None => MkStream (st_Peer st) sent (Some a) (st_buffer st) (st_out st) (st_Done st) (st_Closed st)
    | Some n => MkStream (st_Peer st) sent (Some n) (st_buffer st ++ [a]) (st_out st) (st_Done st) (st_Closed st)
    end.

(** [pubAddr]: when the context is done, the goroutine takes the address or not. *)
Definition pubAddr (late : positive → bool) (a : Multiaddr) (m : gmap positive Stream) (s : positive)
    : gmap positive Stream :=
  match m !! s with
  | None => m
  | Some st =>
      if st_Closed st || (st_Done st && negb (late s)) then m else <[s := recv_addr a st]> m
  end.

Definition BroadcastAddr (late : positive → bool) (p : PeerID) (a : Multiaddr) (mgr : AddrSubManager)
    : AddrSubManager :=
  MkSubManager (subs mgr) (foldl (pubAddr late a) (streams mgr) (default [] (subs mgr !! p))).

(** [removeSub]: the last subscription takes the place of the one removed. *)
Definition removeSub (p : PeerID) (s : positive) (mgr : AddrSubManager) : AddrSubManager :=
  let l := default [] (subs mgr !! p) in
  match l with
  | [x] => if decide (x = s) then MkSubManager (delete p (subs mgr)) (streams mgr) else mgr
  | _ =>
      match list_find (λ x, x = s) l with
      | None => mgr
      | Some (i, _) =>
          let l := <[i := default s (last l)]> l in
          MkSubManager (<[p := take (length l - 1) l]> (subs mgr)) (streams mgr)
      end
  end.

(** [case <-ctx.Done()] of the goroutine *)
Definition leave (s : positive) (mgr : AddrSubManager) : AddrSubManager :=
  match streams mgr !! s with
  | Some st =>
      let mgr := removeSub (st_Peer st) s mgr in
      MkSubManager (subs mgr) (<[s := MkStream (st_Peer st) (st_sent st) (st_next st) (st_buffer st)
                                        (st_out st) true true]> (streams mgr))
  | None => mgr
  end.

(** [bytes.Compare] *)
Fixpoint bytes_Compare (a b : bytes) : Z :=
  match a, b with
  | [], [] => 0
  | [], _ => -1
  | _, [] => 1
  | x :: a, y :: b => if bool_decide (b2z x < b2z y) then -1 else if bool_decide (b2z y < b2z x) then 1 else bytes_Compare a b
  end.

(** [addrList.Less] *)
Definition addr_Less (a b : Multiaddr) : bool :=
  if IsIPLoopback a && negb (IsIPLoopback b) then true
  else if negb (TCP_Matches a) then TCP_Matches b
  else if negb (TCP_Matches b) then false
  else if IsIPLoopback b then false
  else bool_decide (0 < bytes_Compare (MarshalBinary a) (MarshalBinary b)).

(** [AddrStream]: the initial addresses in the order the sort left them in; the new
    goroutine offers the first. *)
Definition SubManager_AddrStream (p : PeerID) (initial : list Multiaddr) (mgr : AddrSubManager)
    : positive * AddrSubManager :=
  let s := fresh (dom (streams mgr)) in
  let '(next, buffer) := pop initial in
  (s, MkSubManager (<[p := default [] (subs mgr !! p) ++ [s]]> (subs mgr))
        (<[s := MkStream p (list_to_set (MarshalBinary <$> initial)) next buffer [] false false]> (streams mgr))).

(** ** The book *)

Record memoryAddrBook := MkAddrBook { segments : addrSegments; subManager : AddrSubManager }.

Definition NewAddrBook : memoryAddrBook := MkAddrBook (λ _, MkAddrSegment ∅ ∅) (MkSubManager ∅ ∅).

Definition seg_get (p : PeerID) (b : memoryAddrBook) : addrSegment := segments b (segment_of p).
Definition set_segment (p : PeerID) (s : addrSegment) (b : memoryAddrBook) : memoryAddrBook :=
  MkAddrBook (<[segment_of p := s]> (segments b)) (subManager b).
Definition set_amap (p : PeerID) (am : addrMap) (b : memoryAddrBook) : memoryAddrBook :=
  let s := seg_get p b in set_segment p (MkAddrSegment (<[p := am]> (addrs s)) (signedPeerRecords s)) b.
Definition broadcast (late : positive → bool) (p : PeerID) (a : Multiaddr) (b : memoryAddrBook) : memoryAddrBook :=
  MkAddrBook (segments b) (BroadcastAddr late p a (subManager b)).

(** The addresses of a peer, made if need be. *)
Definition ensure_amap (p : PeerID) (b : memoryAddrBook) : memoryAddrBook :=
  match addrs (seg_get p b) !! p with Some _ => b | None => set_amap p ∅ b end.
Definition amap_of (p : PeerID) (b : memoryAddrBook) : addrMap := default ∅ (addrs (seg_get p b) !! p).

(** The address to be kept of one that was passed: not nil, and not of another peer. *)
Definition proper (p : PeerID) (a : option Multiaddr) : option Multiaddr :=
  let '(a, pid) := SplitAddr a in
  match a with
  | None => None
  | Some a => if decide (pid ≠ [] ∧ pid ≠ p) then None else Some a
  end.

(** The highest TTL and the latest expiry of an entry and a new one. *)
Definition extend (ttl exp : Z) (e : expiringAddr) : expiringAddr :=
  MkExpiring (x_Addr e) (if bool_decide (x_TTL e < ttl) then ttl else x_TTL e)
    (if bool_decide (x_Expires e < exp) then exp else x_Expires e).

Section Ops.
Context (late : positive → bool).

Definition add_one (p : PeerID) (ttl exp : Z) (b : memoryAddrBook) (addr : option Multiaddr) : memoryAddrBook :=
  match proper p addr with
  | None => b
  | Some a =>
      let am := amap_of p b in
      match am !! MarshalBinary a with
      | None => broadcast late p a (set_amap p (<[MarshalBinary a := MkExpiring a ttl exp]> am) b)
      | Some e => set_amap p (<[MarshalBinary a := extend ttl exp e]> am) b
      end
  end.

Definition addAddrsUnlocked (now : Z) (p : PeerID) (l : list (option Multiaddr)) (ttl : Z) (b : memoryAddrBook)
    : memoryAddrBook :=
  if bool_decide (ttl ≤ 0) then b else foldl (add_one p ttl (now + ttl)) (ensure_amap p b) l.

Definition AddAddrs (now : Z) (p : PeerID) (l : list (option Multiaddr)) (ttl : Z) (b : memoryAddrBook)
    : memoryAddrBook := addAddrsUnlocked now p l ttl b.
Definition AddAddr now p a ttl b := AddAddrs now p [a] ttl b.

Definition ConsumePeerRecord (now : Z) (env : Envelope) (ttl : Z) (b : memoryAddrBook)
    : bool * option error * memoryAddrBook :=
  match env_Record env with
  | inr e => (false, Some e, b)
  | inl None => (false, Some (Errorf "unable to process envelope: not a PeerRecord" []), b)
  | inl (Some rec) =>
      if negb (MatchesPublicKey (pr_PeerID rec) (env_PublicKey env)) then
        (false, Some (Errorf "signing key does not match PeerID in PeerRecord" []), b)
      else
        let p := pr_PeerID rec in
        let s := seg_get p b in
        if (if signedPeerRecords s !! p is Some st then bool_decide (pr_Seq rec < rs_Seq st) else false) then (false, None, b)
        else
          let b := set_segment p (MkAddrSegment (addrs s)
                     (<[p := MkRecordState env (pr_Seq rec)]> (signedPeerRecords s))) b in
          (true, None, addAddrsUnlocked now p (pr_Addrs rec) ttl b)
  end.

Definition set_one (p : PeerID) (ttl exp : Z) (b : memoryAddrBook) (addr : option Multiaddr) : memoryAddrBook :=
  match proper p addr with
  | None => b
  | Some a =>
      let am := amap_of p b in
      if bool_decide (0 < ttl)
      then broadcast late p a (set_amap p (<[MarshalBinary a := MkExpiring a ttl exp]> am) b)
      else set_amap p (delete (MarshalBinary a) am) b
  end.

Definition SetAddrs (now : Z) (p : PeerID) (l : list (option Multiaddr)) (ttl : Z) (b : memoryAddrBook)
    : memoryAddrBook := foldl (set_one p ttl (now + ttl)) (ensure_amap p b) l.
Definition SetAddr now p a ttl b := SetAddrs now p [a] ttl b.
End Ops.

Definition update_entry (oldTTL newTTL exp : Z) (e : expiringAddr) : option expiringAddr :=
  if decide (oldTTL = x_TTL e) then
    if decide (newTTL = 0) then None else Some (MkExpiring (x_Addr e) newTTL exp)
  else Some e.

Definition UpdateAddrs (now : Z) (p : PeerID) (oldTTL newTTL : Z) (b : memoryAddrBook) : memoryAddrBook :=
  match addrs (seg_get p b) !! p with
  | None => b
  | Some am => set_amap p (omap (update_entry oldTTL newTTL (now + newTTL)) am) b
  end.

(** [validAddrs], in one of the orders the map can be ranged over in. *)
Definition unexpired (now : Z) (am : addrMap) : addrMap := filter (λ ke, ¬ ExpiredBy now ke.2) am.
Definition validAddrs (now : Z) (am : option addrMap) : list Multiaddr :=
  match am with
  | None => []
  | Some am => (λ ke, x_Addr ke.2) <$> map_to_list (unexpired now am)
  end.

Definition Addrs (now : Z) (p : PeerID) (b : memoryAddrBook) : list Multiaddr :=
  validAddrs now (addrs (seg_get p b) !! p).

Definition GetPeerRecord (now : Z) (p : PeerID) (b : memoryAddrBook) : option Envelope :=
  if bool_decide (zlen (Addrs now p b) = 0) then None
  else rs_Envelope <$> signedPeerRecords (seg_get p b) !! p.

Definition ClearAddrs (p : PeerID) (b : memoryAddrBook) : memoryAddrBook :=
  let s := seg_get p b in
  set_segment p (MkAddrSegment (delete p (addrs s)) (delete p (signedPeerRecords s))) b.

(** [gc]: expired addresses go, and peers with none left. *)
Definition kept (now : Z) (am : addrMap) : option addrMap :=
  let am := unexpired now am in if decide (am = ∅) then None else Some am.
Definition gc_segment (now : Z) (s : addrSegment) : addrSegment :=
  let addrs' := omap (kept now) (addrs s) in
  MkAddrSegment addrs'
    (filter (λ kv, ¬ (is_Some (addrs s !! kv.1) ∧ addrs' !! kv.1 = None)) (signedPeerRecords s)).
Definition gc (now : Z) (b : memoryAddrBook) : memoryAddrBook :=
  MkAddrBook (λ i, gc_segment now (segments b i)) (subManager b).

Definition all_bytes : list byte := z2b <$> seqZ 0 256.
Definition PeersWithAddrs (b : memoryAddrBook) : gset PeerID :=
  ⋃ ((λ i, dom (filter (λ kv, kv.2 ≠ ∅) (addrs (segments b i)))) <$> all_bytes).

(** [AddrStream]: [order] is what [sort.Sort] makes of the addresses on file, in the
    order the map was ranged over. *)
Definition AddrStream (order : list Multiaddr → list Multiaddr) (p : PeerID) (b : memoryAddrBook)
    : positive * memoryAddrBook :=
  let initial := match addrs (seg_get p b) !! p with
                 | None => []
                 | Some am => x_Addr <$> (map_to_list am).*2
                 end in
  let '(s, mgr) := SubManager_AddrStream p (order initial) (subManager b) in
  (s, MkAddrBook (segments b) mgr).
End AddrBook.

(** ** The other books *)

Section KeyBook.
Context {ma : Multiaddrs} {lp : Libp2p}.

Record memoryKeyBook := MkKeyBook { pks : gmap PeerID PublicKey; sks : gmap PeerID PrivateKey }.

Definition NewKeyBook : memoryKeyBook := MkKeyBook ∅ ∅.

Definition PeersWithKeys (kb : memoryKeyBook) : gset PeerID := dom (pks kb) ∪ dom (sks kb).

(** A key that is in the identifier itself is remembered. *)
Definition KeyBook_PubKey (p : PeerID) (kb : memoryKeyBook) : option PublicKey * memoryKeyBook :=
  match pks kb !! p with
  | Some pk => (Some pk, kb)
  | None =>
      match ExtractPublicKey p with
      | Some pk => (Some pk, MkKeyBook (<[p := pk]> (pks kb)) (sks kb))
      | None => (None, kb)
      end
  end.

Definition AddPubKey (p : PeerID) (pk : PublicKey) (kb : memoryKeyBook) : option error * memoryKeyBook :=
  if MatchesPublicKey p pk then (None, MkKeyBook (<[p := pk]> (pks kb)) (sks kb))
  else (Some (Errorf "ID does not match PublicKey" []), kb).

Definition KeyBook_PrivKey (p : PeerID) (kb : memoryKeyBook) : option PrivateKey := sks kb !! p.

Definition AddPrivKey (p : PeerID) (sk : option PrivateKey) (kb : memoryKeyBook) : option error * memoryKeyBook :=
  match sk with
  | None => (Some (Errorf "sk is nil (PrivKey)" []), kb)
  | Some sk =>
      if MatchesPrivateKey p sk then (None, MkKeyBook (pks kb) (<[p := sk]> (sks kb)))
      else (Some (Errorf "ID does not match PrivateKey" []), kb)
  end.

Definition KeyBook_RemovePeer (p : PeerID) (kb : memoryKeyBook) : memoryKeyBook :=
  MkKeyBook (delete p (pks kb)) (delete p (sks kb)).
End KeyBook.

(** [memoryProtoBook]: unlike the address book's, its shards cannot be asked for the
    empty identifier. *)
Abbreviation ProtoID := string.
Definition protoSegments : Type := byte → gmap PeerID (gset ProtoID).

Record memoryProtoBook := MkProtoBook { protocols : protoSegments; maxProtos : Z; interned : gmap ProtoID ProtoID }.

Definition proto_get (p : PeerID) : Out byte := goindex p (zlen p - 1).

Definition errTooManyProtocols : error := Errorf "too many protocols" [].

Definition set_protocols (i : byte) (m : gmap PeerID (gset ProtoID)) (pb : memoryProtoBook) : memoryProtoBook :=
  MkProtoBook (<[i := m]> (protocols pb)) (maxProtos pb) (interned pb).

Definition internProtocol (proto : ProtoID) : GoM memoryProtoBook ProtoID := λ pb,
  match interned pb !! proto with
  | Some q => Ret (q, pb)
  | None => Ret (proto, MkProtoBook (protocols pb) (maxProtos pb) (<[proto := proto]> (interned pb)))
  end.

Fixpoint intern_all (protos : list ProtoID) : GoM memoryProtoBook (list ProtoID) :=
  match protos with
  | [] => mret []
  | proto :: protos => q ← internProtocol proto; l ← intern_all protos; mret (q :: l)
  end.

Definition upd_pb (f : memoryProtoBook → memoryProtoBook) : GoM memoryProtoBook unit := λ pb, Ret (tt, f pb).

Definition SetProtocols (p : PeerID) (protos : list ProtoID) : GoM memoryProtoBook (option error) :=
  pb ← get;
  if bool_decide (maxProtos pb < zlen protos) then mret (Some errTooManyProtocols)
  else
    l ← intern_all protos;
    i ← lift (proto_get p);
    upd_pb (λ pb, set_protocols i (<[p := list_to_set l]> (protocols pb i)) pb) ;;
    mret None.

Definition AddProtocols (p : PeerID) (protos : list ProtoID) : GoM memoryProtoBook (option error) :=
  i ← lift (proto_get p);
  pb ← get;
  let protomap := default ∅ (protocols pb i !! p) in
  upd_pb (λ pb, set_protocols i (<[p := protomap]> (protocols pb i)) pb) ;;
  if bool_decide (maxProtos pb < Z.of_nat (size protomap) + zlen protos) then mret (Some errTooManyProtocols)
  else
    l ← intern_all protos;
    upd_pb (λ pb, set_protocols i (<[p := list_to_set l ∪ protomap]> (protocols pb i)) pb) ;;
    mret None.

Definition GetProtocols (p : PeerID) (pb : memoryProtoBook) : Out (gset ProtoID) :=
  i ← proto_get p; Ret (default ∅ (protocols pb i !! p)).

Definition RemoveProtocols (p : PeerID) (protos : list ProtoID) : GoM memoryProtoBook unit :=
  i ← lift (proto_get p);
  pb ← get;
  match protocols pb i !! p with
  | None => mret tt
  | Some protomap =>
      l ← intern_all protos;
      upd_pb (λ pb, set_protocols i (<[p := protomap ∖ list_to_set l]> (protocols pb i)) pb)
  end.

Definition SupportsProtocols (p : PeerID) (protos : list ProtoID) (pb : memoryProtoBook) : Out (list ProtoID) :=
  i ← proto_get p; Ret (filter (λ q, q ∈ (default ∅ (protocols pb i !! p) : gset ProtoID)) protos).

Definition FirstSupportedProtocol (p : PeerID) (protos : list ProtoID) (pb : memoryProtoBook) : Out ProtoID :=
  i ← proto_get p;
  Ret (default EmptyString (snd <$> list_find (λ q, q ∈ (default ∅ (protocols pb i !! p) : gset ProtoID)) protos)).

Definition ProtoBook_RemovePeer (p : PeerID) : GoM memoryProtoBook unit :=
  i ← lift (proto_get p); upd_pb (λ pb, set_protocols i (delete p (protocols pb i)) pb).

Definition WithMaxProtocols (num : Z) (pb : memoryProtoBook) : memoryProtoBook :=
  MkProtoBook (protocols pb) num (interned pb).

Definition NewProtoBook (opts : list Z) : memoryProtoBook :=
  foldl (λ pb num, WithMaxProtocols num pb) (MkProtoBook (λ _, ∅) 1024 ∅) opts.

(** [memoryPeerMetadata] *)
Section Metadata.
Context {V : Type}.
Definition memoryPeerMetadata : Type := gmap PeerID (gmap string V).
Definition ErrNotFound : error := Errorf "item not found" [].

Definition NewPeerMetadata : memoryPeerMetadata := (∅ : gmap PeerID (gmap string V)).
Definition Metadata_Put (p : PeerID) (key : string) (val : V) (ps : memoryPeerMetadata) : memoryPeerMetadata :=
  <[p := <[key := val]> (default ∅ ((ps : gmap PeerID (gmap string V)) !! p))]> (ps : gmap PeerID (gmap string V)).
Definition Metadata_Get (p : PeerID) (key : string) (ps : memoryPeerMetadata) : V + error :=
  match (ps : gmap PeerID (gmap string V)) !! p with
  | None => inr ErrNotFound
  | Some m => match m !! key with None => inr ErrNotFound | Some v => inl v end
  end.
Definition Metadata_RemovePeer (p : PeerID) (ps : memoryPeerMetadata) : memoryPeerMetadata :=
  delete p (ps : gmap PeerID (gmap string V)).
End Metadata.
Arguments memoryPeerMetadata : clear implicits.

(** ** The peer store *)

Section Peerstore.
Context {ma : Multiaddrs} {lp : Libp2p} {V : Type}.

Record pstoremem := MkPstore {
  ps_Metrics : Metrics; ps_Keys : memoryKeyBook; ps_Addrs : memoryAddrBook; ps_Protos : memoryProtoBook;
  ps_Meta : memoryPeerMetadata V }.

(** The options a peer store is made with: those of the protocol book, those of the
    address book, of which the one there is sets the clock, and anything else. *)
Inductive Option_ := OMaxProtocols (num : Z) | OClock | OOther.

Fixpoint proto_options (opts : list Option_) : list Z + error :=
  match opts with
  | [] => inl []
  | OOther :: _ => inr (Errorf "unexpected peer store option: %v" [])
  | OClock :: opts => proto_options opts
  | OMaxProtocols n :: opts => match proto_options opts with inl l => inl (n :: l) | inr e => inr e end
  end.

Definition NewPeerstore (opts : list Option_) : pstoremem + error :=
  match proto_options opts with
  | inr e => inr e
  | inl l => inl (MkPstore NewMetrics NewKeyBook NewAddrBook (NewProtoBook l) NewPeerMetadata)
  end.

Definition Peers (ps : pstoremem) : gset PeerID := PeersWithKeys (ps_Keys ps) ∪ PeersWithAddrs (ps_Addrs ps).

Definition PeerInfo (now : Z) (p : PeerID) (ps : pstoremem) : PeerID * list Multiaddr := (p, Addrs now p (ps_Addrs ps)).

Definition Peerstore_RemovePeer (p : PeerID) (ps : pstoremem) : Out pstoremem :=
  r ← ProtoBook_RemovePeer p (ps_Protos ps);
  Ret (MkPstore (Metrics_RemovePeer p (ps_Metrics ps)) (KeyBook_RemovePeer p (ps_Keys ps)) (ps_Addrs ps)
         r.2 (Metadata_RemovePeer p (ps_Meta ps))).
End Peerstore.
