(* ===== verification/PeerMemFacts.v ===== *)
(** * What the in-memory peer store promises

    The address book is an abstract table from peers and addresses to a lifetime and an
    expiry ([view]), whatever its shards, its clean-up and the order of its maps; its
    subscriptions deliver every address once. *)

From S2P Require Export PeerMem.

Section Shards.
Context {ma : Multiaddrs} {lp : Libp2p}.
Implicit Types b : memoryAddrBook.

Lemma seg_get_set p q s b :
  seg_get q (set_segment p s b) = if decide (segment_of q = segment_of p) then s else seg_get q b.
Proof.
  unfold seg_get, set_segment. cbn [segments]. case_decide as E; [rewrite E; apply fn_lookup_insert|].
  apply fn_lookup_insert_ne. congruence.
Qed.

(** The addresses of a peer, wherever they are kept. *)
Definition table b (p : PeerID) : option (gmap bytes expiringAddr) := addrs (seg_get p b) !! p.

Lemma table_set_amap p q am b : table (set_amap p am b) q = if decide (q = p) then Some am else table b q.
Proof.
  unfold table, set_amap. rewrite seg_get_set. destruct (decide (q = p)) as [->|Hne].
  - rewrite decide_True by done. cbn. by rewrite lookup_insert_eq.
  - case_decide as E; [|done]. cbn. rewrite lookup_insert_ne by done. unfold seg_get. by rewrite E.
Qed.

Lemma table_broadcast late p a b q : table (broadcast late p a b) q = table b q.
Proof. done. Qed.

Lemma table_ensure p q b :
  table (ensure_amap p b) q = if decide (q = p) then Some (default ∅ (table b p)) else table b q.
Proof.
  unfold ensure_amap. change (addrs (seg_get p b) !! p) with (table b p). destruct (table b p) eqn:E.
  - case_decide; [by subst|done].
  - rewrite table_set_amap. done.
Qed.

Lemma amap_table p b : amap_of p b = default ∅ (table b p).
Proof. done. Qed.
End Shards.

(** ** The abstract table *)

Section Spec.
Context {ma : Multiaddrs} {lp : Libp2p}.

(** Lifetime and expiry of an address of a peer. *)
Definition Table : Type := PeerID → bytes → option (Z * Z).

Definition view (b : memoryAddrBook) : Table := λ p k, (λ e, (x_TTL e, x_Expires e)) <$> (amap_of p b !! k).

(** The addresses a call is about. *)
Definition said (p : PeerID) (l : list (option Multiaddr)) : list bytes := MarshalBinary <$> omap (proper p) l.

Inductive op :=
| OpAdd (p : PeerID) (l : list (option Multiaddr)) (ttl : Z)
| OpSet (p : PeerID) (l : list (option Multiaddr)) (ttl : Z)
| OpUpdate (p : PeerID) (oldTTL newTTL : Z)
| OpClear (p : PeerID)
| OpGC.

Definition spec_step (now : Z) (o : op) (t : Table) : Table := λ q k,
  match o with
  | OpAdd p l ttl =>
      if decide (q = p ∧ 0 < ttl ∧ k ∈ said p l) then
        Some (match t p k with
              | None => (ttl, now + ttl)
              | Some (ttl0, exp0) => (Z.max ttl0 ttl, Z.max exp0 (now + ttl))
              end)
      else t q k
  | OpSet p l ttl =>
      if decide (q = p ∧ k ∈ said p l) then if decide (0 < ttl) then Some (ttl, now + ttl) else None else t q k
  | OpUpdate p oldTTL newTTL =>
      match t q k with
      | Some (ttl, _) =>
          if decide (q = p ∧ ttl = oldTTL) then if decide (newTTL = 0) then None else Some (newTTL, now + newTTL)
          else t q k
      | None => None
      end
  | OpClear p => if decide (q = p) then None else t q k
  | OpGC => match t q k with Some (_, exp) => if decide (now < exp) then t q k else None | None => None end
  end.

Definition book_step (late : positive → bool) (now : Z) (o : op) (b : memoryAddrBook) : memoryAddrBook :=
  match o with
  | OpAdd p l ttl => AddAddrs late now p l ttl b
  | OpSet p l ttl => SetAddrs late now p l ttl b
  | OpUpdate p oldTTL newTTL => UpdateAddrs now p oldTTL newTTL b
  | OpClear p => ClearAddrs p b
  | OpGC => gc now b
  end.

Lemma view_table b q k : view b q k = (λ e, (x_TTL e, x_Expires e)) <$> (table b q ≫= lookup k).
Proof. unfold view. rewrite amap_table. destruct (table b q); cbn; [done|]. by rewrite lookup_empty. Qed.

Lemma view_set_amap p am b q k :
  view (set_amap p am b) q k = if decide (q = p) then (λ e, (x_TTL e, x_Expires e)) <$> am !! k else view b q k.
Proof. rewrite !view_table, table_set_amap. by case_decide. Qed.

Lemma view_ensure p b q k : view (ensure_amap p b) q k = view b q k.
Proof. rewrite !view_table, table_ensure. case_decide; [subst|done]. destruct (table b p); [done|]. cbn. by rewrite lookup_empty. Qed.

Lemma view_amap p b k : (λ e, (x_TTL e, x_Expires e)) <$> amap_of p b !! k = view b p k.
Proof. done. Qed.

(** One address of a call: [f] is what happens to its entry. *)
Definition on_addr (p : PeerID) (f : option (Z * Z) → option (Z * Z)) (step : memoryAddrBook → option Multiaddr → memoryAddrBook)
    : Prop := ∀ b addr q k, view (step b addr) q k =
  if decide (q = p ∧ Some k = MarshalBinary <$> proper p addr) then f (view b q k) else view b q k.

Lemma add_one_on late p ttl exp : on_addr p (λ o, Some (match o with
    | None => (ttl, exp) | Some (t, e) => (Z.max t ttl, Z.max e exp) end)) (add_one late p ttl exp).
Proof.
  intros b addr q k. unfold add_one. destruct (proper p addr) as [a|]; cbn; [|by case_decide; naive_solver].
  assert (∀ x, view (broadcast late p a x) q k = view x q k) as HB by done.
  pose proof (view_amap p b (MarshalBinary a)) as HV.
  destruct (amap_of p b !! MarshalBinary a) as [e|] eqn:E; [|rewrite HB]; rewrite view_set_amap;
    (destruct (decide (q = p)) as [->|Hq]; [|by rewrite decide_False by tauto]);
    (destruct (decide (k = MarshalBinary a)) as [->|Hk];
       [rewrite lookup_insert_eq, decide_True by done; rewrite <- HV; cbn
       |by rewrite lookup_insert_ne, decide_False by naive_solver]); [|done].
  do 2 f_equal; unfold extend; cbn; case_bool_decide; lia.
Qed.

Lemma set_one_on late p ttl exp : on_addr p (λ _, if decide (0 < ttl) then Some (ttl, exp) else None) (set_one late p ttl exp).
Proof.
  intros b addr q k. unfold set_one. destruct (proper p addr) as [a|]; cbn; [|by case_decide; naive_solver].
  assert (∀ x, view (broadcast late p a x) q k = view x q k) as HB by done.
  case_bool_decide as Ht; [rewrite HB, (decide_True (P := 0 < ttl)) by done|rewrite (decide_False (P := 0 < ttl)) by done];
    rewrite view_set_amap;
    (destruct (decide (q = p)) as [->|Hq]; [|by rewrite decide_False by tauto]);
    (destruct (decide (k = MarshalBinary a)) as [->|Hk]; [rewrite decide_True by done|rewrite decide_False by naive_solver]).
  - by rewrite lookup_insert_eq.
  - by rewrite lookup_insert_ne by done.
  - by rewrite lookup_delete_eq.
  - by rewrite lookup_delete_ne by done.
Qed.

(** All of them: said twice is said once. *)
Lemma on_addrs p f step l b q k : on_addr p f step → (∀ o, f (f o) = f o) →
  view (foldl step b l) q k = if decide (q = p ∧ k ∈ said p l) then f (view b q k) else view b q k.
Proof.
  intros Hs Hf. revert b; induction l as [|addr l IH]; intros b; cbn [foldl].
  { rewrite decide_False; [done|]. intros [_ ?%not_elem_of_nil]. done. }
  rewrite IH, Hs. unfold said. cbn [omap list_omap]. destruct (proper p addr) as [a|]; cbn [fmap option_fmap option_map list_fmap].
  - destruct (decide (q = p)) as [->|Hq]; [|by rewrite !(decide_False (P := _ ∧ _)) by tauto].
    destruct (decide (k = MarshalBinary a)) as [->|Hk].
    + rewrite (decide_True (P := _ ∧ Some _ = _)) by done.
      rewrite (decide_True (P := _ ∧ _ ∈ _ :: _)) by (split; [done|by left]). clear IH. case_decide; [apply Hf|done].
    + rewrite (decide_False (P := _ ∧ Some _ = _)) by naive_solver.
      apply decide_ext. rewrite elem_of_cons. naive_solver.
  - rewrite (decide_False (P := _ ∧ Some _ = _)) by naive_solver. done.
Qed.

(** A step of the book is a step of the table. *)
Lemma book_step_view late now o b q k : view (book_step late now o b) q k = spec_step now o (view b) q k.
Proof.
  destruct o as [p l ttl|p l ttl|p oldTTL newTTL|p|]; cbn [book_step spec_step].
  - unfold AddAddrs, addAddrsUnlocked. case_bool_decide as Ht; [by rewrite decide_False by lia|].
    rewrite (on_addrs p _ _ _ _ _ _ (add_one_on late p ttl (now + ttl))), view_ensure.
    + destruct (decide (q = p)) as [->|]; [|by rewrite !decide_False by tauto].
      apply decide_ext. assert (0 < ttl) by lia. tauto.
    + intros [[t e]|]; do 2 f_equal; lia.
  - unfold SetAddrs. rewrite (on_addrs p _ _ _ _ _ _ (set_one_on late p ttl (now + ttl))), view_ensure; done.
  - unfold UpdateAddrs. change (addrs (seg_get p b) !! p) with (table b p).
    destruct (table b p) as [am|] eqn:E.
    + rewrite view_set_amap. rewrite !view_table. destruct (decide (q = p)) as [->|Hq].
      * rewrite E. cbn. rewrite lookup_omap. destruct (am !! k) as [e|]; cbn; [|done].
        unfold update_entry. destruct (decide (oldTTL = x_TTL e)) as [->|Hne].
        -- rewrite (decide_True (P := _ ∧ _)) by done. by case_decide.
        -- by rewrite decide_False by (intros [_ ?]; congruence).
      * destruct (table b q ≫= lookup k); cbn; [|done]. by rewrite decide_False by tauto.
    + destruct (view b q k) as [[t e]|] eqn:EV; [|done]. rewrite decide_False; [done|]. intros [-> _].
      rewrite view_table, E in EV. done.
  - rewrite !view_table. unfold ClearAddrs, table. rewrite seg_get_set. destruct (decide (q = p)) as [->|Hq].
    + rewrite decide_True by done. cbn. by rewrite lookup_delete_eq.
    + case_decide as ES; [|done]. cbn. rewrite lookup_delete_ne by done. unfold seg_get. by rewrite ES.
  - rewrite !view_table. unfold table at 1, gc, seg_get, gc_segment. cbn. rewrite lookup_omap.
    change (addrs (segments b (segment_of q)) !! q) with (table b q). destruct (table b q) as [am|]; cbn; [|done].
    assert ((kept now am ≫= lookup k) = unexpired now am !! k) as ->.
    { unfold kept. case_decide as Ek; [|done]. by rewrite Ek, lookup_empty. }
    unfold unexpired. rewrite map_lookup_filter. destruct (am !! k) as [e|]; cbn; [|done].
    unfold ExpiredBy. destruct (decide (now < x_Expires e)); [by rewrite option_guard_True by tauto|].
    by rewrite option_guard_False by tauto.
Qed.
End Spec.

(** ** Well-formed books *)

Section Wf.
Context {ma : Multiaddrs} {lp : Libp2p}.
Implicit Types b : memoryAddrBook.

Definition keyed_map (am : gmap bytes expiringAddr) : Prop := map_Forall (λ k e, k = MarshalBinary (x_Addr e)) am.

(** Addresses are kept under their bytes, and peers in the segment of their identifier. *)
Record book_wf b : Prop := {
  bw_keyed i p am : addrs (segments b i) !! p = Some am → keyed_map am;
  bw_placed i p : is_Some (addrs (segments b i) !! p) → i = segment_of p;
}.

Lemma new_wf : book_wf NewAddrBook.
Proof. split; intros i p; cbn; [intros am; by rewrite lookup_empty|rewrite lookup_empty; by intros [? ?]]. Qed.

Lemma set_segment_wf p s b : book_wf b → (∀ q, q ≠ p → addrs s !! q = addrs (seg_get p b) !! q) →
  (∀ am, addrs s !! p = Some am → keyed_map am) → book_wf (set_segment p s b).
Proof.
  intros [HK HP] Hs Hp. split; intros i q; cbn [set_segment segments];
    (destruct (decide (i = segment_of p)) as [->|Hi];
      [|rewrite (fn_lookup_insert_ne (segments b)) by congruence; first [exact (HK i q)|exact (HP i q)]]);
    rewrite (fn_lookup_insert (segments b)); destruct (decide (q = p)) as [->|Hq]; try done.
  - intros am. rewrite Hs by done. apply HK.
  - rewrite Hs by done. apply HP.
Qed.

Lemma set_amap_wf p am b : book_wf b → keyed_map am → book_wf (set_amap p am b).
Proof.
  intros HW Ha. apply set_segment_wf; [done|intros q Hq; cbn; by rewrite lookup_insert_ne|].
  intros am'. cbn. rewrite lookup_insert_eq. by intros [= <-].
Qed.

Lemma broadcast_wf late p a b : book_wf b → book_wf (broadcast late p a b).
Proof. intros []. by split. Qed.

Lemma amap_keyed p b : book_wf b → keyed_map (amap_of p b).
Proof.
  intros [HK _]. unfold amap_of. destruct (addrs (seg_get p b) !! p) eqn:E; [by eapply HK|apply map_Forall_empty].
Qed.

Lemma insert_keyed k e am : keyed_map am → k = MarshalBinary (x_Addr e) → keyed_map (<[k := e]> am).
Proof. intros Ha Hk. by apply map_Forall_insert_2. Qed.

Lemma ensure_wf p b : book_wf b → book_wf (ensure_amap p b).
Proof. intros HW. unfold ensure_amap. case_match; [done|]. apply set_amap_wf; [done|apply map_Forall_empty]. Qed.

Lemma add_one_wf late p ttl exp b addr : book_wf b → book_wf (add_one late p ttl exp b addr).
Proof.
  intros HW. unfold add_one. destruct (proper p addr) as [a|]; [|done]. pose proof (amap_keyed p b HW) as HA.
  destruct (amap_of p b !! MarshalBinary a) as [e|] eqn:E.
  - apply set_amap_wf; [done|]. apply insert_keyed; [done|]. by apply HA in E.
  - apply broadcast_wf, set_amap_wf; [done|]. by apply insert_keyed.
Qed.

Lemma set_one_wf late p ttl exp b addr : book_wf b → book_wf (set_one late p ttl exp b addr).
Proof.
  intros HW. unfold set_one. destruct (proper p addr) as [a|]; [|done]. pose proof (amap_keyed p b HW) as HA.
  case_bool_decide; [apply broadcast_wf, set_amap_wf; [done|]; by apply insert_keyed|].
  apply set_amap_wf; [done|]. by apply map_Forall_delete.
Qed.

Lemma foldl_wf {A} (f : memoryAddrBook → A → memoryAddrBook) l b :
  (∀ b a, book_wf b → book_wf (f b a)) → book_wf b → book_wf (foldl f b l).
Proof. intros Hf. revert b; induction l as [|a l IH]; intros b HW; [done|]. by apply IH, Hf. Qed.

Lemma book_step_wf late now o b : book_wf b → book_wf (book_step late now o b).
Proof.
  intros HW. destruct o as [p l ttl|p l ttl|p oldTTL newTTL|p|]; cbn [book_step].
  - unfold AddAddrs, addAddrsUnlocked. case_bool_decide; [done|].
    apply foldl_wf; [intros; by apply add_one_wf|by apply ensure_wf].
  - apply foldl_wf; [intros; by apply set_one_wf|by apply ensure_wf].
  - unfold UpdateAddrs. destruct (addrs (seg_get p b) !! p) as [am|] eqn:E; [|done].
    apply set_amap_wf; [done|]. intros k e Hk. rewrite lookup_omap in Hk. destruct (am !! k) as [x|] eqn:Ex; [|done].
    cbn in Hk. pose proof (bw_keyed b HW _ _ _ E k x Ex) as Hx. unfold update_entry in Hk.
    repeat case_decide; simplify_eq; done.
  - unfold ClearAddrs. apply set_segment_wf; [done|intros q Hq; cbn; by rewrite lookup_delete_ne|].
    intros am. cbn. by rewrite lookup_delete_eq.
  - destruct HW as [HK HP]. split; intros i p; cbn; rewrite lookup_omap.
    + intros am. destruct (addrs (segments b i) !! p) as [am0|] eqn:E; [|done]. cbn. unfold kept.
      case_decide; [done|]. intros [= <-]. intros k e [Hk _]%map_lookup_filter_Some. by eapply HK.
    + intros [am Ha]. apply HP. destruct (addrs (segments b i) !! p); [by eexists|done].
Qed.

(** ** What can be observed *)

(** The valid addresses are those the table has with an expiry in the future. *)
Lemma Addrs_view `{!MultiaddrLaws} now p a b : book_wf b →
  a ∈ Addrs now p b ↔ ∃ t e, view b p (MarshalBinary a) = Some (t, e) ∧ now < e.
Proof.
  intros HW. unfold Addrs, validAddrs. change (addrs (seg_get p b) !! p) with (table b p).
  rewrite view_table. destruct (table b p) as [am|] eqn:E; cbn; [|split; [by intros ?%not_elem_of_nil|by intros (? & ? & ? & _)]].
  pose proof (bw_keyed b HW _ _ _ E) as HK. rewrite list_elem_of_fmap. split.
  - intros ([k e] & -> & Hk%elem_of_map_to_list). apply map_lookup_filter_Some in Hk as [Hk Hx]. cbn in Hx |- *.
    rewrite (HK k e Hk) in Hk. rewrite Hk. eexists _, _. split; [done|]. unfold ExpiredBy in Hx. lia.
  - intros (t & x & Hv & Hx). destruct (am !! MarshalBinary a) as [e|] eqn:Ee; [|done]. cbn in Hv. simplify_eq.
    exists (MarshalBinary a, e). split.
    + cbn. apply HK in Ee as Ek. apply (f_equal NewMultiaddrBytes) in Ek. rewrite !multiaddr_bytes in Ek. by injection Ek.
    + apply elem_of_map_to_list, map_lookup_filter_Some. split; [done|]. cbn. unfold ExpiredBy. lia.
Qed.

Lemma all_bytes_elem i : i ∈ all_bytes.
Proof.
  unfold all_bytes. apply list_elem_of_fmap. exists (b2z i). split; [|apply elem_of_seqZ; pose proof (b2z_range i); lia].
  apply b2z_inj. rewrite b2z_z2b. pose proof (b2z_range i). by rewrite Z.mod_small.
Qed.

(** The peers with addresses are those the table has an entry for, expired or not. *)
Lemma PeersWithAddrs_view p b : book_wf b → p ∈ PeersWithAddrs b ↔ ∃ k, is_Some (view b p k).
Proof.
  intros HW. unfold PeersWithAddrs. rewrite elem_of_union_list. split.
  - intros (X & (i & -> & _)%list_elem_of_fmap & Hp). apply elem_of_dom in Hp as [am [Ha Hne]%map_lookup_filter_Some].
    cbn in Hne. apply map_choose in Hne as (k & e & Hk). exists k. rewrite view_table. unfold table, seg_get.
    rewrite <- (bw_placed b HW i p) by by eexists. rewrite Ha. cbn. by rewrite Hk.
  - intros [k [v Hv]]. rewrite view_table in Hv. destruct (table b p) as [am|] eqn:E; [|done]. cbn in Hv.
    destruct (am !! k) as [e|] eqn:Ee; [|done]. eexists. split; [apply list_elem_of_fmap_2, (all_bytes_elem (segment_of p))|].
    apply elem_of_dom. exists am. apply map_lookup_filter_Some. split; [exact E|]. cbn. intros ->. by rewrite lookup_empty in Ee.
Qed.
End Wf.

(** ** Subscriptions *)

Section Streams.
Context {ma : Multiaddrs} {lp : Libp2p}.
Implicit Types (b : memoryAddrBook) (st : Stream).

(** What a subscription has handed out or will. *)
Definition all_of st : list Multiaddr := st_out st ++ option_list (st_next st) ++ st_buffer st.

Record stream_ok st : Prop := {
  so_nodup : NoDup (MarshalBinary <$> all_of st);
  so_sent : st_sent st = list_to_set (MarshalBinary <$> all_of st);
  so_next : st_next st = None → st_buffer st = [];
}.

Definition live st : Prop := st_Done st = false ∧ st_Closed st = false.

Lemma take_next_ok st : stream_ok st → all_of (take_next st) = all_of st ∧ stream_ok (take_next st).
Proof.
  intros [HN HS HB].
  assert (all_of (take_next st) = all_of st ∧ st_sent (take_next st) = st_sent st ∧
    (st_next (take_next st) = None → st_buffer (take_next st) = [])) as (EA & ES & EB).
  { unfold take_next, all_of. destruct (st_next st) as [a|] eqn:E; [|by rewrite E].
    destruct (st_buffer st) as [|x l]; cbn; by rewrite <- ?app_assoc. }
  split; [done|]. split; by rewrite ?EA, ?ES.
Qed.

Lemma recv_addr_ok a st : stream_ok st →
  stream_ok (recv_addr a st) ∧ st_sent st ⊆ st_sent (recv_addr a st) ∧ MarshalBinary a ∈ st_sent (recv_addr a st).
Proof.
  intros [HN HS HB]. unfold recv_addr. case_decide as Hin; [by split_and!|].
  assert (∀ st', all_of st' = all_of st ++ [a] → st_sent st' = {[ MarshalBinary a ]} ∪ st_sent st →
    (st_next st' = None → st_buffer st' = []) →
    stream_ok st' ∧ st_sent st ⊆ st_sent st' ∧ MarshalBinary a ∈ st_sent st') as Hok.
  { intros st' EA ES EB. split_and!; [split; [| |done]|rewrite ES; set_solver|rewrite ES; set_solver].
    - rewrite EA, fmap_app. apply NoDup_app. split; [done|]. split; [|apply NoDup_singleton].
      intros k Hk ->%list_elem_of_singleton. apply Hin. rewrite HS. by apply elem_of_list_to_set.
    - rewrite ES, EA, fmap_app, list_to_set_app_L, HS. cbn. set_solver. }
  destruct (st_next st) as [n|] eqn:E; apply Hok; unfold all_of; cbn; rewrite ?E; cbn; try done.
  - by rewrite <- app_assoc.
  - rewrite HB by done. by rewrite app_nil_r.
Qed.

Lemma recv_addr_live a st : st_Peer (recv_addr a st) = st_Peer st ∧ (live st → live (recv_addr a st)).
Proof. unfold recv_addr, live. case_decide; [done|]. by destruct (st_next st). Qed.

(** Publishing leaves every subscription in order, and reaches those it is for. *)
Lemma publish_stream late a l (m : gmap positive Stream) s st :
  m !! s = Some st → live st → stream_ok st →
  ∃ st', foldl (pubAddr late a) m l !! s = Some st' ∧ live st' ∧ stream_ok st' ∧ st_Peer st' = st_Peer st ∧
    st_sent st ⊆ st_sent st' ∧ (s ∈ l → MarshalBinary a ∈ st_sent st').
Proof.
  revert m st; induction l as [|x l IH]; intros m st Hs HL HO; cbn [foldl].
  { exists st. split_and!; try done. by intros ?%not_elem_of_nil. }
  unfold pubAddr at 2. destruct (decide (x = s)) as [->|Hx].
  - rewrite Hs. pose proof HL as [HD HC]. rewrite HD, HC. cbn [orb andb].
    destruct (recv_addr_ok a st HO) as (HO' & Hsub & Hin). destruct (recv_addr_live a st) as [HP HL'].
    destruct (IH (<[s := recv_addr a st]> m) (recv_addr a st)) as (st' & E & H1 & H2 & H3 & H4 & H5);
      [by rewrite lookup_insert_eq|by apply HL'|done|].
    exists st'. split_and!; try done; [congruence|set_solver|set_solver].
  - assert (∀ m', m' !! s = m !! s → ∃ st', foldl (pubAddr late a) m' l !! s = Some st' ∧ live st' ∧ stream_ok st' ∧
      st_Peer st' = st_Peer st ∧ st_sent st ⊆ st_sent st' ∧ (s ∈ x :: l → MarshalBinary a ∈ st_sent st')) as Hm.
    { intros m' Em. destruct (IH m' st) as (st' & E & H1 & H2 & H3 & H4 & H5); [congruence|done|done|].
      exists st'. split_and!; try done. intros [->|Hin]%elem_of_cons; [done|by apply H5]. }
    apply Hm. destruct (m !! x) as [sx|]; [|done]. case_match; [done|]. by rewrite lookup_insert_ne.
Qed.

(** The subscription [s] is to [p], in order, and knows of every address on file. *)
Definition serving (s : positive) (p : PeerID) b : Prop :=
  ∃ st, streams (subManager b) !! s = Some st ∧ live st ∧ stream_ok st ∧ st_Peer st = p ∧
    s ∈ default [] (subs (subManager b) !! p) ∧ ∀ k, is_Some (view b p k) → k ∈ st_sent st.

Lemma serving_less s p b b' : serving s p b → subManager b' = subManager b →
  (∀ k, is_Some (view b' p k) → is_Some (view b p k)) → serving s p b'.
Proof.
  intros (st & ? & ? & ? & ? & ? & HV) E Hv. exists st. rewrite E. split_and!; try done.
  intros k Hk. by apply HV, Hv.
Qed.

Lemma serving_broadcast s p late q a b : serving s p b →
  serving s p (broadcast late q a b) ∧
  (q = p → ∀ st, streams (subManager (broadcast late q a b)) !! s = Some st → MarshalBinary a ∈ st_sent st).
Proof.
  intros (st & Hs & HL & HO & HP & Hin & HV).
  destruct (publish_stream late a (default [] (subs (subManager b) !! q)) _ s st Hs HL HO)
    as (st' & E & HL' & HO' & HP' & Hsub & Hsent).
  split.
  - exists st'. split_and!; try done; [by rewrite HP'|]. intros k Hk. by apply Hsub, HV.
  - intros -> st2 E2. cbn in E2. rewrite E in E2. injection E2 as <-. by apply Hsent.
Qed.

(** An address that is announced may be put on file. *)
Lemma serving_announce s p late q a am b : serving s p b →
  (∀ k, is_Some (am !! k) → k = MarshalBinary a ∨ is_Some (amap_of q b !! k)) →
  serving s p (broadcast late q a (set_amap q am b)).
Proof.
  intros HS Hk. destruct (serving_broadcast s p late q a b HS) as [(st & E & HL & HO & HP & Hin & HV) Ha].
  exists st. split_and!; try done. intros k Hv.
  change (view (broadcast late q a (set_amap q am b)) p k) with (view (set_amap q am b) p k) in Hv.
  rewrite view_set_amap in Hv. case_decide as Hq; [|by apply HV].
  subst q. apply fmap_is_Some in Hv. destruct (Hk k Hv) as [->|Hv']; [by apply (Ha eq_refl)|].
  apply HV. change (is_Some ((λ e, (x_TTL e, x_Expires e)) <$> amap_of p b !! k)). by apply fmap_is_Some.
Qed.

Lemma serving_add_one s p late q ttl exp b addr : serving s p b → serving s p (add_one late q ttl exp b addr).
Proof.
  intros HS. unfold add_one. destruct (proper q addr) as [a|]; [|done].
  destruct (amap_of q b !! MarshalBinary a) as [e|] eqn:E.
  - eapply serving_less; [done|done|]. intros k. rewrite view_set_amap. case_decide as Hq; [|done]. subst q.
    rewrite fmap_is_Some. intros Hk. apply (fmap_is_Some (λ e, (x_TTL e, x_Expires e)) (amap_of p b !! k)).
    destruct (decide (k = MarshalBinary a)) as [->|]; [rewrite E; by eexists|by rewrite lookup_insert_ne in Hk].
  - apply serving_announce; [done|]. intros k Hk. destruct (decide (k = MarshalBinary a)) as [->|]; [by left|right].
    by rewrite lookup_insert_ne in Hk.
Qed.

Lemma serving_set_one s p late q ttl exp b addr : serving s p b → serving s p (set_one late q ttl exp b addr).
Proof.
  intros HS. unfold set_one. destruct (proper q addr) as [a|]; [|done]. case_bool_decide.
  - apply serving_announce; [done|]. intros k Hk. destruct (decide (k = MarshalBinary a)) as [->|]; [by left|right].
    by rewrite lookup_insert_ne in Hk.
  - eapply serving_less; [done|done|]. intros k. rewrite view_set_amap. case_decide as Hq; [|done]. subst q.
    rewrite fmap_is_Some. intros Hk. apply (fmap_is_Some (λ e, (x_TTL e, x_Expires e)) (amap_of p b !! k)).
    destruct Hk as [e [_ He]%lookup_delete_Some]. by exists e.
Qed.

Lemma serving_foldl {A} s p (f : memoryAddrBook → A → memoryAddrBook) l b :
  (∀ b a, serving s p b → serving s p (f b a)) → serving s p b → serving s p (foldl f b l).
Proof. intros Hf. revert b; induction l as [|a l IH]; intros b HS; [done|]. by apply IH, Hf. Qed.

Lemma serving_ensure s p q b : serving s p b → serving s p (ensure_amap q b).
Proof.
  intros HS. eapply serving_less; [done| |intros k; by rewrite view_ensure].
  unfold ensure_amap. by case_match.
Qed.

Lemma serving_add s p late now q l ttl b : serving s p b → serving s p (addAddrsUnlocked late now q l ttl b).
Proof.
  intros HS. unfold addAddrsUnlocked. case_bool_decide; [done|].
  apply serving_foldl; [intros; by apply serving_add_one|by apply serving_ensure].
Qed.

Lemma serving_step s p late now o b : serving s p b → serving s p (book_step late now o b).
Proof.
  intros HS. destruct o as [q l ttl|q l ttl|q oldTTL newTTL|q|]; cbn [book_step].
  - by apply serving_add.
  - apply serving_foldl; [intros; by apply serving_set_one|by apply serving_ensure].
  - eapply serving_less; [done|unfold UpdateAddrs; by case_match|].
    intros k. change (UpdateAddrs now q oldTTL newTTL b) with (book_step late now (OpUpdate q oldTTL newTTL) b).
    rewrite book_step_view. cbn. destruct (view b p k) as [[]|]; [by eexists|done].
  - eapply serving_less; [done|done|]. intros k.
    change (ClearAddrs q b) with (book_step late now (OpClear q) b). rewrite book_step_view. cbn.
    case_decide; [by intros [? ?]|done].
  - eapply serving_less; [done|done|]. intros k.
    change (gc now b) with (book_step late now OpGC b). rewrite book_step_view. cbn.
    destruct (view b p k) as [[]|]; [by eexists|done].
Qed.
End Streams.

(** ** Everything that happens to a book *)

Section Acts.
Context {ma : Multiaddrs} {lp : Libp2p}.
Implicit Types b : memoryAddrBook.

Inductive act :=
| ABook (late : positive → bool) (now : Z) (o : op)
| AConsume (late : positive → bool) (now : Z) (env : Envelope) (ttl : Z)
| AStream (order : list Multiaddr → list Multiaddr) (p : PeerID)
| ATake (s : positive)     (* a reader takes the address a subscription offers *)
| ALeave (s : positive).   (* a subscription's context is done *)

Definition on_manager (f : AddrSubManager → AddrSubManager) b : memoryAddrBook :=
  MkAddrBook (segments b) (f (subManager b)).

Definition act_step b (a : act) : memoryAddrBook :=
  match a with
  | ABook late now o => book_step late now o b
  | AConsume late now env ttl => (ConsumePeerRecord late now env ttl b).2
  | AStream order p => (AddrStream order p b).2
  | ATake s => on_manager (λ m, MkSubManager (subs m) (alter take_next s (streams m))) b
  | ALeave s => on_manager (leave s) b
  end.

(** Removing one subscription keeps the others. *)
Lemma swap_remove_elem (l : list positive) i s x :
  l !! i = Some s → x ∈ l → x ≠ s →
  x ∈ take (length (<[i := default s (last l)]> l) - 1) (<[i := default s (last l)]> l).
Proof.
  intros Hi Hx Hne. destruct l as [|z l _] using rev_ind; [done|]. rewrite last_snoc, length_insert, length_app.
  cbn [default from_option length]. replace (length l + 1 - 1)%nat with (length l) by lia.
  apply elem_of_app in Hx. destruct (decide (i < length l)%nat) as [Hlt|Hge].
  - rewrite insert_app_l by done. rewrite take_app_length' by (by rewrite length_insert).
    destruct Hx as [[j Hj]%list_elem_of_lookup_1| ->%list_elem_of_singleton]; [|by apply list_elem_of_insert].
    apply (list_elem_of_lookup_2 _ j). rewrite list_lookup_insert_ne; [done|]. intros ->.
    rewrite lookup_app_l in Hi by done. congruence.
  - destruct Hx as [Hx| ->%list_elem_of_singleton].
    + rewrite insert_app_r_alt by lia. by rewrite take_app_length.
    + apply lookup_lt_Some in Hi as Hl. rewrite length_app in Hl. cbn in Hl.
      replace i with (length l) in Hi by lia. rewrite lookup_app_r, Nat.sub_diag in Hi by done. cbn in Hi. congruence.
Qed.

Lemma removeSub_other p q s x mgr :
  x ∈ default [] (subs mgr !! p) → x ≠ s → x ∈ default [] (subs (removeSub q s mgr) !! p).
Proof.
  intros Hx Hne. destruct (decide (q = p)) as [->|Hq].
  - unfold removeSub. destruct (subs mgr !! p) as [l|] eqn:E; cbn [default from_option id] in *; [|by apply not_elem_of_nil in Hx].
    destruct l as [|y [|z l]]; [by apply not_elem_of_nil in Hx| |].
    + apply list_elem_of_singleton in Hx as ->. rewrite decide_False by done. rewrite E. by left.
    + destruct (list_find (λ v, v = s) (y :: z :: l)) as [[i v]|] eqn:EF; [|by rewrite E].
      apply list_find_Some in EF as (Hi & -> & _). cbn [subs]. rewrite lookup_insert_eq.
      by apply swap_remove_elem.
  - assert (subs (removeSub q s mgr) !! p = subs mgr !! p) as ->; [|done]. unfold removeSub.
    repeat case_match; cbn [subs]; rewrite ?lookup_delete_ne, ?lookup_insert_ne by done; done.
Qed.

Lemma removeSub_streams q s mgr : streams (removeSub q s mgr) = streams mgr.
Proof. unfold removeSub. by repeat case_match. Qed.

Lemma consume_book late now env ttl b : ∃ b1, (∀ q, table b1 q = table b q) ∧ subManager b1 = subManager b ∧
  (book_wf b → book_wf b1) ∧
  ((ConsumePeerRecord late now env ttl b).2 = b1 ∨ ∃ p l, (ConsumePeerRecord late now env ttl b).2 = addAddrsUnlocked late now p l ttl b1).
Proof.
  unfold ConsumePeerRecord. destruct (env_Record env) as [[rec|]|e]; [|exists b; split_and!; try done; by left..].
  destruct (MatchesPublicKey _ _); [|exists b; split_and!; try done; by left]. cbn [negb].
  match goal with |- context [if ?c then (false, None, b) else _] => destruct c end; [exists b; split_and!; try done; by left|]. cbn [snd].
  set (s := seg_get (pr_PeerID rec) b).
  exists (set_segment (pr_PeerID rec) (MkAddrSegment (addrs s)
    (<[pr_PeerID rec := MkRecordState env (pr_Seq rec)]> (signedPeerRecords s))) b).
  split; [|split; [done|split; [|right; by eexists _, _]]].
  - intros q. unfold table. rewrite seg_get_set. case_decide as E; [|done]. cbn. unfold s, seg_get. by rewrite E.
  - intros HW. apply set_segment_wf; [done|done|]. intros am Ha. by eapply (bw_keyed b HW).
Qed.

Lemma act_step_wf b a : book_wf b → book_wf (act_step b a).
Proof.
  intros HW. destruct a as [late now o|late now env ttl|order p|s|s]; cbn [act_step].
  - by apply book_step_wf.
  - destruct (consume_book late now env ttl b) as (b1 & _ & _ & Hw & [->|(p & l & ->)]); [by apply Hw|].
    by apply (book_step_wf late now (OpAdd p l ttl)), Hw.
  - destruct HW. split; cbn; unfold AddrStream, SubManager_AddrStream; by destruct (pop _).
  - by destruct HW.
  - by destruct HW.
Qed.

Lemma act_step_serving s p b a : a ≠ ALeave s → serving s p b → serving s p (act_step b a).
Proof.
  intros Ha HS. destruct a as [late now o|late now env ttl|order q|x|x]; cbn [act_step].
  - by apply serving_step.
  - destruct (consume_book late now env ttl b) as (b1 & HT & HM & _ & HC).
    assert (serving s p b1) as HS1.
    { eapply serving_less; [done|done|]. intros k. by rewrite !view_table, HT. }
    destruct HC as [->|(q & l & ->)]; [done|by apply serving_add].
  - destruct HS as (st & Hs & HL & HO & HP & Hin & HV). unfold AddrStream, SubManager_AddrStream.
    destruct (pop _) as [next buffer]. cbn [snd]. exists st. cbn [subManager streams subs].
    assert (fresh (dom (streams (subManager b))) ≠ s) as Hf.
    { intros E. apply (is_fresh (dom (streams (subManager b)))). rewrite E. apply elem_of_dom. by eexists. }
    rewrite lookup_insert_ne by done. split_and!; try done.
    destruct (decide (q = p)) as [->|]; [rewrite lookup_insert_eq; cbn; apply elem_of_app; by left|by rewrite lookup_insert_ne].
  - destruct HS as (st & Hs & HL & HO & HP & Hin & HV). destruct (decide (x = s)) as [->|Hx].
    + destruct (take_next_ok st HO) as [EA HO'].
      assert (live (take_next st) ∧ st_Peer (take_next st) = st_Peer st) as [HL' HP'].
      { unfold take_next, live in *. destruct (st_next st); [by destruct (pop _)|done]. }
      exists (take_next st). cbn. rewrite lookup_alter_eq, Hs. split_and!; try done; [congruence|].
      intros k Hk. apply HV in Hk. destruct HO as [_ E _], HO' as [_ E' _]. by rewrite E', EA, <- E.
    + exists st. cbn. rewrite lookup_alter_ne by done. by split_and!.
  - assert (x ≠ s) as Hx by congruence. destruct HS as (st & Hs & HL & HO & HP & Hin & HV). exists st.
    cbn. unfold leave. destruct (streams (subManager b) !! x) as [sx|] eqn:E; [|by split_and!].
    cbn [streams subs]. rewrite lookup_insert_ne, removeSub_streams by done. split_and!; try done.
    by apply removeSub_other.
Qed.

(** A new subscription starts with the addresses on file, each once. *)
Lemma AddrStream_serving order p b : book_wf b → (∀ l, order l ≡ₚ l) →
  serving (AddrStream order p b).1 p (AddrStream order p b).2.
Proof.
  intros HW Ho. unfold AddrStream, SubManager_AddrStream. change (addrs (seg_get p b) !! p) with (table b p).
  set (initial := match table b p with None => [] | Some am => x_Addr <$> (map_to_list am).*2 end).
  assert (MarshalBinary <$> initial = match table b p with None => [] | Some am => (map_to_list am).*1 end) as EI.
  { unfold initial. destruct (table b p) as [am|] eqn:E; [|done]. pose proof (bw_keyed b HW _ _ _ E) as HK.
    rewrite <- !list_fmap_compose. apply list_fmap_ext. intros i [k e] Hi. cbn. symmetry. apply HK.
    apply elem_of_map_to_list. by eapply list_elem_of_lookup_2. }
  destruct (pop (order initial)) as [next buffer] eqn:EP. cbn [fst snd].
  assert (option_list next ++ buffer = order initial) as EO by (destruct (order initial); cbn in EP; by simplify_eq).
  eexists. cbn. rewrite lookup_insert_eq. split; [done|]. split_and!; try done.
  - split; unfold all_of; cbn; [| |intros ->; by destruct (order initial); simplify_eq]; rewrite EO; [|done].
    rewrite (Ho initial), EI. destruct (table b p); [apply NoDup_fst_map_to_list|constructor].
  - rewrite lookup_insert_eq. cbn. apply elem_of_app. right. by left.
  - intros k Hk. cbn. rewrite elem_of_list_to_set, (Ho initial), EI.
    assert (is_Some (view b p k)) as Hv by done. rewrite view_table in Hv. destruct (table b p) as [am|]; [|by destruct Hv].
    cbn in Hv. apply fmap_is_Some in Hv as [e He]. apply list_elem_of_fmap. exists (k, e). split; [done|].
    by apply elem_of_map_to_list.
Qed.
End Acts.
