(* ===== verification/PeerMemProps.v ===== *)
(** * Properties of the in-memory peer store *)

From S2P Require Export PeerMemFacts.

Section Properties.
Context {ma : Multiaddrs} {lp : Libp2p}.

Lemma spec_step_ext now o (t1 t2 : Table) : (∀ q k, t1 q k = t2 q k) →
  ∀ q k, spec_step now o t1 q k = spec_step now o t2 q k.
Proof. intros E q k. destruct o; cbn; by rewrite ?E. Qed.

Lemma run_view ops b (t : Table) : (∀ q k, view b q k = t q k) → ∀ q k,
  view (foldl (λ b '(late, now, o), book_step late now o b) b ops) q k
  = foldl (λ t '(_, now, o), spec_step now o t) t ops q k.
Proof.
  revert b t; induction ops as [|[[late now] o] ops IH]; intros b t E; [done|]. cbn [foldl]. apply IH.
  intros q k. rewrite book_step_view. by apply spec_step_ext.
Qed.

(** C10: the in-memory address book, with its 256 shards, its maps that appear and
    disappear and its garbage collection, implements a plain table from peers and
    addresses to a lifetime and an expiry: adding raises both to the greater of old
    and new, setting replaces them or, with no lifetime left, removes the address,
    updating changes those with the old lifetime, clearing and collecting remove;
    addresses that are nil or name another peer are passed over.  After any history
    the valid addresses of a peer are those whose expiry is to come, and the peers
    with addresses are those with an entry. *)
Theorem address_book_refines `{!MultiaddrLaws} (ops : list ((positive → bool) * Z * op)) :
  let b := foldl (λ b '(late, now, o), book_step late now o b) NewAddrBook ops in
  let t := foldl (λ t '(_, now, o), spec_step now o t) (λ _ _, None) ops in
  (∀ q k, view b q k = t q k) ∧
  (∀ now p a, a ∈ Addrs now p b ↔ ∃ ttl exp, t p (MarshalBinary a) = Some (ttl, exp) ∧ now < exp) ∧
  (∀ p, p ∈ PeersWithAddrs b ↔ ∃ k, is_Some (t p k)).
Proof.
  intros b t. assert (∀ q k, view b q k = t q k) as HV by by apply run_view.
  assert (book_wf b) as HW.
  { unfold b. clear. apply foldl_wf; [|apply new_wf]. intros b [[late now] o]. apply book_step_wf. }
  split; [done|]. split; intros.
  - rewrite Addrs_view by done. by rewrite HV.
  - rewrite PeersWithAddrs_view by done. by setoid_rewrite HV.
Qed.

(** C15: a subscription hands out every address of its peer exactly once: from the time
    it is made until its context is done, whatever is added, consumed, removed or
    collected, however its reader is interleaved with the writers and whichever other
    subscriptions come and go, what it has handed out and what it still holds has no
    duplicates, and contains every address on file for the peer. *)
Theorem AddrStream_once order p b acts :
  book_wf b → (∀ l, order l ≡ₚ l) → let '(s, b1) := AddrStream order p b in
  Forall (λ a, a ≠ ALeave s) acts →
  let b' := foldl act_step b1 acts in
  ∃ st, streams (subManager b') !! s = Some st ∧ NoDup (MarshalBinary <$> all_of st) ∧
    ∀ k, is_Some (view b' p k) → k ∈ MarshalBinary <$> all_of st.
Proof.
  intros HW Ho. pose proof (AddrStream_serving order p b HW Ho) as HS.
  destruct (AddrStream order p b) as [s b1]. cbn [fst snd] in HS. intros HA b'.
  assert (serving s p b') as (st & E & _ & [HN HE _] & _ & _ & HV).
  { subst b'. revert b1 HS. induction HA as [|a acts Ha HA IH]; intros b1 HS; [done|].
    by apply IH, act_step_serving. }
  exists st. split; [done|]. split; [done|]. intros k Hk. apply HV in Hk. rewrite HE in Hk.
  by apply elem_of_list_to_set in Hk.
Qed.

(** Collecting garbage cannot be observed: neither the addresses of a peer nor its
    signed record, asked for at the time of the collection or later, are any others
    than they would have been without it. *)
Theorem gc_unobservable now later p b : now ≤ later →
  Addrs later p (gc now b) = Addrs later p b ∧ GetPeerRecord later p (gc now b) = GetPeerRecord later p b.
Proof.
  intros Hle. assert (∀ am, unexpired later (unexpired now am) = unexpired later am) as Hu.
  { intros am. apply map_eq. intros k. unfold unexpired. apply option_eq. intros e.
    rewrite !map_lookup_filter_Some. unfold ExpiredBy. cbn. split; [tauto|]. intros [? ?]. split_and!; (done || lia). }
  assert (Addrs later p (gc now b) = Addrs later p b) as EA.
  { unfold Addrs, gc, gc_segment, seg_get. cbn. rewrite lookup_omap.
    destruct (addrs (segments b (segment_of p)) !! p) as [am|]; cbn; [|done]. unfold kept.
    case_decide as Ek; cbn; [|by rewrite Hu]. by rewrite <- Hu, Ek. }
  split; [done|]. unfold GetPeerRecord. rewrite EA. case_bool_decide as Hz; [done|].
  unfold gc, gc_segment, seg_get. cbn. set (s := segments b (segment_of p)). f_equal.
  destruct (signedPeerRecords s !! p) as [r|] eqn:E; [|by rewrite map_lookup_filter_None_2; [|left]].
  apply map_lookup_filter_Some. split; [done|]. cbn. intros [Hs Hk]. apply Hz. rewrite <- EA.
  unfold Addrs, gc, gc_segment, seg_get. cbn. fold s. by rewrite Hk.
Qed.

(** The protocols of a peer. *)
Definition protos_of (p : PeerID) (pb : memoryProtoBook) : gset ProtoID :=
  default ∅ (protocols pb (segment_of p) !! p).
Definition interns (pb : memoryProtoBook) : Prop := map_Forall (λ k v, v = k) (interned pb).

Lemma intern_all_run protos pb : interns pb → ∃ pb', intern_all protos pb = Ret (protos, pb') ∧
  protocols pb' = protocols pb ∧ maxProtos pb' = maxProtos pb ∧ interns pb'.
Proof.
  revert pb; induction protos as [|q protos IH]; intros pb Hi; [by exists pb|]. cbn [intern_all].
  assert (∃ pb1, internProtocol q pb = Ret (q, pb1) ∧ protocols pb1 = protocols pb ∧ maxProtos pb1 = maxProtos pb ∧ interns pb1)
    as (pb1 & E1 & H1 & H2 & H3).
  { unfold internProtocol. destruct (interned pb !! q) eqn:E; [apply Hi in E; subst; by eexists|].
    eexists. split; [done|]. split_and!; try done. by apply map_Forall_insert_2. }
  destruct (IH pb1 H3) as (pb2 & E2 & ? & ? & ?). exists pb2.
  rewrite (bind_run _ _ _ _ _ E1), (bind_run _ _ _ _ _ E2). split_and!; (done || congruence).
Qed.

Lemma size_union_list (l : list ProtoID) (X : gset ProtoID) : (size (list_to_set l ∪ X) ≤ length l + size X)%nat.
Proof.
  induction l as [|x l IH]; cbn [list_to_set length].
  - rewrite (left_id_L ∅ (∪)). lia.
  - rewrite <- (assoc_L (∪)), size_union_alt, size_singleton.
    pose proof (subseteq_size ((list_to_set l ∪ X) ∖ {[ x ]}) (list_to_set l ∪ X) ltac:(set_solver)). lia.
Qed.

Lemma proto_get_run p : p ≠ [] → proto_get p = Ret (segment_of p).
Proof.
  intros Hp. apply exists_last in Hp as (l & x & ->). unfold proto_get, segment_of. rewrite last_snoc.
  apply goindex_some; [unfold zlen; rewrite length_app; cbn; lia|].
  rewrite lookup_app_r by (unfold zlen; rewrite length_app; cbn; lia).
  replace (Z.to_nat _ - length l)%nat with 0%nat by (unfold zlen; rewrite length_app; cbn; lia). done.
Qed.

(** Shards of other peers stay. *)
Lemma shard_set (f : gmap PeerID (gset ProtoID) → gmap PeerID (gset ProtoID)) x pb p q :
  (∀ m, f m !! q = if decide (q = p) then x else m !! q) →
  protos_of q (set_protocols (segment_of p) (f (protocols pb (segment_of p))) pb)
  = if decide (q = p) then default ∅ x else protos_of q pb.
Proof.
  intros Hf. unfold protos_of, set_protocols. cbn [protocols]. destruct (decide (segment_of q = segment_of p)) as [Eq|Eq].
  - rewrite Eq, (fn_lookup_insert (protocols pb)), Hf. by case_decide.
  - rewrite (fn_lookup_insert_ne (protocols pb)) by congruence. rewrite decide_False; [done|]. by intros ->.
Qed.

Lemma protos_set pb p q X :
  protos_of q (set_protocols (segment_of p) (<[p := X]> (protocols pb (segment_of p))) pb)
  = if decide (q = p) then X else protos_of q pb.
Proof.
  apply (shard_set (insert p X) (Some X)). intros m. case_decide as E; [subst; by rewrite lookup_insert_eq|by rewrite lookup_insert_ne].
Qed.
Lemma protos_delete pb p q :
  protos_of q (set_protocols (segment_of p) (delete p (protocols pb (segment_of p))) pb)
  = if decide (q = p) then ∅ else protos_of q pb.
Proof.
  apply (shard_set (delete p) None). intros m. case_decide as E; [subst; by rewrite lookup_delete_eq|by rewrite lookup_delete_ne].
Qed.

(** Adding protocols gives the peer the union of the old and the new, or the error
    and the old ones, never more than the book's limit; every other peer keeps its
    own.  The limit is held against the sum of the counts, so the error also comes for
    protocols that are known already; and unlike in the address book an empty
    identifier has no shard and panics. *)
Theorem AddProtocols_bounded p protos pb :
  interns pb → (∀ q, Z.of_nat (size (protos_of q pb)) ≤ maxProtos pb) →
  AddProtocols [] protos pb = Panic PIndex ∧
  (p ≠ [] → ∃ e pb', AddProtocols p protos pb = Ret (e, pb') ∧ maxProtos pb' = maxProtos pb ∧
    (∀ q, Z.of_nat (size (protos_of q pb')) ≤ maxProtos pb') ∧ (∀ q, q ≠ p → protos_of q pb' = protos_of q pb) ∧
    if decide (Z.of_nat (size (protos_of p pb)) + zlen protos ≤ maxProtos pb)
    then e = None ∧ protos_of p pb' = list_to_set protos ∪ protos_of p pb
    else e = Some errTooManyProtocols ∧ protos_of p pb' = protos_of p pb).
Proof.
  intros Hi HB. split; [done|]. intros Hp. unfold AddProtocols.
  rewrite (bind_run _ _ _ _ _ (lift_run _ _ pb (proto_get_run p Hp))). change ((get ≫= ?f) pb) with (f pb pb). cbn beta.
  fold (protos_of p pb). set (old := protos_of p pb).
  set (pb1 := set_protocols (segment_of p) (<[p := old]> (protocols pb (segment_of p))) pb).
  assert (∀ q, protos_of q pb1 = protos_of q pb) as H1.
  { intros q. unfold pb1. rewrite protos_set by done. case_decide; [by subst|done]. }
  rewrite (bind_run _ _ _ tt pb1) by done. case_bool_decide as Hlim.
  - exists (Some errTooManyProtocols), pb1. rewrite decide_False by lia.
    split; [done|]. split; [done|]. split; [intros q; rewrite H1; apply HB|]. split; [intros q _; apply H1|]. by rewrite H1.
  - destruct (intern_all_run protos pb1 Hi) as (pb2 & E2 & HP & HM & _). rewrite (bind_run _ _ _ _ _ E2).
    eexists None, _. split; [done|]. cbn [set_protocols maxProtos]. rewrite HM. split; [done|].
    assert (∀ q, protos_of q (set_protocols (segment_of p)
      (<[p := list_to_set protos ∪ old]> (protocols pb2 (segment_of p))) pb2)
      = if decide (q = p) then list_to_set protos ∪ old else protos_of q pb) as Hq.
    { intros q. rewrite protos_set by done. case_decide; [done|]. rewrite <- H1. unfold protos_of. by rewrite HP. }
    rewrite (decide_True (P := _ ≤ _)) by lia. split.
    { intros q. rewrite Hq. case_decide; [|apply HB].
      change (maxProtos pb1) with (maxProtos pb).
      pose proof (size_union_list protos old). unfold zlen in Hlim. lia. }
    split; [intros q Hne; by rewrite Hq, decide_False|]. split; [done|]. by rewrite Hq, decide_True.
Qed.
End Properties.

(** ** Witnesses *)

Module ToyBook.
(** Addresses name no peer, and no envelope holds a record. *)
#[export] Instance libp2p : @Libp2p Toy.multiaddrs := {|
  PublicKey := unit; PrivateKey := unit;
  SplitAddr := λ a : option (@Multiaddr Toy.multiaddrs), (a, []);
  IsIPLoopback := λ _, false; TCP_Matches := λ _, true;
  Envelope := unit; env_Record := λ _, inl None; env_PublicKey := λ _, tt;
  MatchesPublicKey := λ _ _, true; MatchesPrivateKey := λ _ _, true; ExtractPublicKey := λ _, None;
  Metrics := unit; NewMetrics := tt; Metrics_RemovePeer := λ _ m, m;
|}.
#[local] Existing Instances Toy.multiaddrs Toy.multiaddr_laws.
Definition p : PeerID := [x01].
Definition a : Multiaddr := [x0a].
Definition c : Multiaddr := [x0c].
Definition ops : list ((positive → bool) * Z * op) :=
  [(λ _, true, 0, OpAdd p [Some a; None; Some c] 10); (λ _, true, 5, OpUpdate p 10 20); (λ _, true, 6, OpSet p [Some c] 1);
   (λ _, true, 7, OpGC)].
Definition acts : list act :=
  [ABook (λ _, true) 0 (OpAdd p [Some a; Some c] 10); ATake 1%positive; ABook (λ _, true) 1 (OpAdd p [Some c] 20)].
Definition pb : memoryProtoBook := MkProtoBook (λ _, ∅) 2 ∅.
End ToyBook.
#[local] Existing Instances Toy.multiaddrs Toy.multiaddr_laws ToyBook.libp2p.

Lemma address_book_refines_witness :
  let b := foldl (λ b '(late, now, o), book_step late now o b) NewAddrBook ToyBook.ops in
  let t := foldl (λ t '(_, now, o), spec_step now o t) (λ _ _, None) ToyBook.ops in
  (∀ q k, view b q k = t q k) ∧ t ToyBook.p ToyBook.a = Some (20, 25) ∧ t ToyBook.p ToyBook.c = None.
Proof.
  intros b t. destruct (address_book_refines ToyBook.ops) as (H & _). split; [exact H|].
  split; vm_compute; reflexivity.
Defined.

Lemma AddrStream_once_witness :
  let '(s, b1) := AddrStream (λ l, l) ToyBook.p NewAddrBook in
  let b' := foldl act_step b1 ToyBook.acts in
  ∃ st, streams (subManager b') !! s = Some st ∧ NoDup (MarshalBinary <$> all_of st) ∧
    ∀ k, is_Some (view b' ToyBook.p k) → k ∈ MarshalBinary <$> all_of st.
Proof.
  pose proof (AddrStream_once (λ l, l) ToyBook.p NewAddrBook ToyBook.acts new_wf (λ l, Permutation_refl l)) as H.
  destruct (AddrStream (λ l, l) ToyBook.p NewAddrBook) as [s b1]. apply H.
  unfold ToyBook.acts. repeat (constructor; [discriminate|]). constructor.
Defined.

Lemma gc_unobservable_witness :
  Addrs 7 ToyBook.p (gc 5 NewAddrBook) = Addrs 7 ToyBook.p NewAddrBook ∧
  GetPeerRecord 7 ToyBook.p (gc 5 NewAddrBook) = GetPeerRecord 7 ToyBook.p NewAddrBook.
Proof. apply (gc_unobservable 5 7 ToyBook.p NewAddrBook). lia. Defined.

Lemma AddProtocols_bounded_witness :
  AddProtocols [] [] ToyBook.pb = Panic PIndex ∧
  (∃ e pb', AddProtocols [x01] ["a"%string; "b"%string; "c"%string] ToyBook.pb = Ret (e, pb') ∧
     e = Some errTooManyProtocols) ∧
  ∃ e pb', AddProtocols [x01] ["a"%string; "b"%string] ToyBook.pb = Ret (e, pb') ∧ protos_of [x01] pb' = {["a"%string; "b"%string]}.
Proof.
  assert (∀ q, Z.of_nat (size (protos_of q ToyBook.pb)) ≤ maxProtos ToyBook.pb) as HB by (intros q; vm_compute; discriminate).
  destruct (AddProtocols_bounded [x01] ["a"%string; "b"%string; "c"%string] ToyBook.pb (map_Forall_empty _) HB) as [_ H3].
  destruct (AddProtocols_bounded [x01] ["a"%string; "b"%string] ToyBook.pb (map_Forall_empty _) HB) as [_ H2].
  destruct H3 as (e & pb' & E & _ & _ & _ & H3); [done|]. destruct H2 as (e2 & pb2 & E2 & _ & _ & _ & H2); [done|].
  split; [reflexivity|]. split.
  - exists e, pb'. split; [exact E|]. by destruct H3.
  - exists e2, pb2. split; [exact E2|]. destruct H2 as [_ H2]. rewrite H2. vm_compute. reflexivity.
Defined.
