(* ===== verification/PeerDs.v ===== *)
(** * The address book over a datastore

    Models [pkg/engine/transport/pstoreds]: [addr_book.go], [cache.go],
    [cyclic_batch.go] and [addr_book_gc.go].  Records are shared: the cache holds
    pointers to them, and an operation changes a record in place and then writes it
    to the datastore, so records live in a heap.  The datastore with its keys, the
    cache library, protobuf and base32 are parameters.  Every call reads the clock
    several times: [clk] tells the time at each reading, in order; the locks of the
    records are taken and released within each call. *)

From Stdlib Require DecimalString DecimalZ.
From Stdlib Require Import Ascii.
From S2P Require Export Datastore PeerMem.

(** ** What the sources rely on *)

(** An operation of [ds.Write]. *)
Inductive Write {K : Type} := WPut (k : K) (v : bytes) | WDelete (k : K).
Arguments Write : clear implicits.

(** [ds.Batching], [query] and the methods of [ds.Key]; a batch is the list of the
    operations that wait in it. *)
Class Batching {ds : Datastore} := {
  Key_Name : DsKey → bytes;
  Key_Parent : DsKey → DsKey;
  Key_Child : DsKey → DsKey → DsKey;
  ds_QueryEntries : DsKey → DS → list (DsKey * bytes) + error;
  ds_QueryOrdered : (DsKey → DsKey → Z) → DsKey → DS → list DsKey + error;
  ds_Batch : DS → option error;
  batch_Error : Write DsKey → list (Write DsKey) → option error;
  ds_Commit : list (Write DsKey) → DS → DS * option error;
}.

(** [pb.AddrBookRecord] *)
Record AddrEntry := MkEntry { ae_Addr : bytes; Expiry : Z; Ttl : Z }.
Record CertifiedRecord := MkCertified { cr_Seq : Z; cr_Raw : bytes }.
Record AddrBookRecord := MkRecord {
  Id : bytes; r_Addrs : option (list AddrEntry); r_CertifiedRecord : option CertifiedRecord }.

Class DsFormats {ma : Multiaddrs} {lp : Libp2p} := {
  proto_Marshal : AddrBookRecord → bytes + error;
  proto_Unmarshal : bytes → AddrBookRecord + error;
  env_Marshal : Envelope → bytes + error;
  ConsumeEnvelope : bytes → Envelope + error;
  b32_Encode : bytes → bytes;
  b32_Decode : bytes → bytes + error;
  IDFromBytes : bytes → PeerID + error;
}.

(** The interface [cache]; looking at an entry may change what is kept. *)
Class Cache (K V : Type) := {
  CacheT : Type;
  cache_Get : K → CacheT → option V * CacheT;
  cache_Add : K → V → CacheT → CacheT;
  cache_Remove : K → CacheT → CacheT;
  cache_Contains : K → CacheT → bool;
  cache_Peek : K → CacheT → option V;
  cache_Keys : CacheT → list K;
}.

(** [noopCache] *)
Definition noopCache {K V} : Cache K V := {|
  CacheT := unit; cache_Get := λ _ c, (None, c); cache_Add := λ _ _ c, c; cache_Remove := λ _ c, c;
  cache_Contains := λ _ _, false; cache_Peek := λ _ _, None; cache_Keys := λ _, [];
|}.

(** [Time.Unix] of a time in nanoseconds. *)
Definition Unix (t : Z) : Z := t / 10 ^ 9.

(** [fmt.Sprintf("%d", z)] and [strconv.ParseInt(s, 10, 64)] *)
Definition Sprintd (z : Z) : bytes := String.list_byte_of_string (DecimalString.NilZero.string_of_int (Z.to_int z)).
Definition ParseInt (s : bytes) : option Z :=
  let z := match String.string_of_list_byte s with
           | String "+"%char s => Z.of_uint <$> DecimalString.NilZero.uint_of_string s
           | s => Z.of_int <$> DecimalString.NilZero.int_of_string s
           end in
  z ← z; if bool_decide (- 2 ^ 63 ≤ z < 2 ^ 63) then Some z else None.

(** [defaultOpsPerCyclicBatch] *)
Definition defaultOpsPerCyclicBatch : Z := 20.

Section Batch.
Context {ds : Datastore} {bt : Batching}.

(** [ds.Write] of the store itself *)
Definition write_ds (o : Write DsKey) (d : DS) : DS * option error :=
  match o with WPut k v => ds_Put k v d | WDelete k => ds_Delete k d end.

(** ** [cyclic_batch.go] *)

Record cyclicBatch := MkCyclic { threshold : Z; cb_Batch : option (list (Write DsKey)); pending : Z }.

(** The threshold that is passed is not kept. *)
Definition newCyclicBatch (_ : Z) (d : DS) : cyclicBatch + error :=
  match ds_Batch d with Some e => inr e | None => inl (MkCyclic 0 (Some []) 0) end.

Definition ErrBatchClosed : error := Errorf "cyclic batch is closed" [].

Definition cycle (w : cyclicBatch * DS) : cyclicBatch * DS * option error :=
  let '(cb, d) := w in
  match cb_Batch cb with
  | None => (cb, d, Some ErrBatchClosed)
  | Some l =>
      if bool_decide (pending cb < threshold cb) then (cb, d, None)
      else
        let '(d, e) := ds_Commit l d in
        match e with
        | Some _ => (cb, d, Some (Errorf "failed while committing cyclic batch: %w" []))
        | None =>
            match ds_Batch d with
            | Some _ => (MkCyclic (threshold cb) None (pending cb), d, Some (Errorf "failed while renewing cyclic batch: %w" []))
            | None => (MkCyclic (threshold cb) (Some []) (pending cb), d, None)
            end
        end
  end.

(** [Put] and [Delete] *)
Definition cb_write (o : Write DsKey) (w : cyclicBatch * DS) : cyclicBatch * DS * option error :=
  let '(cb, d, e) := cycle w in
  match e with
  | Some _ => (cb, d, e)
  | None =>
      let l := default [] (cb_Batch cb) in
      match batch_Error o l with
      | Some e => (MkCyclic (threshold cb) (Some l) (pending cb + 1), d, Some e)
      | None => (MkCyclic (threshold cb) (Some (l ++ [o])) (pending cb + 1), d, None)
      end
  end.

Definition cb_Commit (w : cyclicBatch * DS) : cyclicBatch * DS * option error :=
  let '(cb, d) := w in
  match cb_Batch cb with
  | None => (cb, d, Some ErrBatchClosed)
  | Some l =>
      let '(d, e) := ds_Commit l d in
      match e with Some _ => (cb, d, e) | None => (MkCyclic (threshold cb) None 0, d, None) end
  end.
End Batch.

(** ** Records *)

Section Records.
Context {ds : Datastore} {ma : Multiaddrs} {lp : Libp2p} {ft : DsFormats}.
(** What [sort.Slice] by expiry makes of a slice. *)
Context (sort_Slice : list AddrEntry → list AddrEntry).

Record addrsRecord := MkAddrs { pb : AddrBookRecord; dirty : bool }.

Definition Addrs_of (r : addrsRecord) : list AddrEntry := default [] (r_Addrs (pb r)).
Definition with_Addrs (l : list AddrEntry) (r : addrsRecord) : addrsRecord :=
  MkAddrs (MkRecord (Id (pb r)) (Some l) (r_CertifiedRecord (pb r))) (dirty r).
Definition with_dirty (b : bool) (r : addrsRecord) : addrsRecord := MkAddrs (pb r) b.
Definition with_CertifiedRecord (c : CertifiedRecord) (r : addrsRecord) : addrsRecord :=
  MkAddrs (MkRecord (Id (pb r)) (r_Addrs (pb r)) (Some c)) (dirty r).

Definition addrBookBase : DsKey := NewKey (string_bytes "/peers/addrs").
Definition addr_key (id : bytes) : DsKey := ChildString addrBookBase (b32_Encode id).

(** [flush] through a writer *)
Definition flush {W} (write : Write DsKey → W → W * option error) (r : addrsRecord) (w : W)
    : addrsRecord * W * option error :=
  let key := addr_key (Id (pb r)) in
  if bool_decide (zlen (Addrs_of r) = 0) then
    let '(w, e) := write (WDelete key) w in
    (match e with None => with_dirty false r | Some _ => r end, w, e)
  else
    match proto_Marshal (pb r) with
    | inr e => (r, w, Some e)
    | inl data =>
        let '(w, e) := write (WPut key data) w in
        (match e with None => with_dirty false r | Some _ => r end, w, e)
    end.

Definition hasExpiredAddrs (r : addrsRecord) (now : Z) : bool :=
  match Addrs_of r with a :: _ => bool_decide (Expiry a ≤ now) | [] => false end.

(** The index of the last entry before the first survivor. *)
Fixpoint pivot_loop (now i pivot : Z) (entries : list AddrEntry) : Z :=
  match entries with
  | [] => pivot
  | addr :: entries => if bool_decide (now < Expiry addr) then pivot else pivot_loop now (i + 1) i entries
  end.
Definition removeExpired (entries : list AddrEntry) (now : Z) : list AddrEntry :=
  drop (Z.to_nat (pivot_loop now 0 (-1) entries + 1)) entries.

Definition clean (now : Z) (r : addrsRecord) : bool * addrsRecord :=
  let nowUnix := Unix now in
  let addrsLen := zlen (Addrs_of r) in
  if negb (dirty r) && negb (hasExpiredAddrs r nowUnix) then (false, r)
  else if bool_decide (addrsLen = 0) then (true, r)
  else
    let r := if dirty r && bool_decide (1 < addrsLen) then with_Addrs (sort_Slice (Addrs_of r)) r else r in
    let r := with_Addrs (removeExpired (Addrs_of r) nowUnix) r in
    (dirty r || bool_decide (zlen (Addrs_of r) ≠ addrsLen), r).

(** ** Entries *)

Inductive ttlWriteMode := ttlOverride | ttlExtend.

(** [addrsMap]: where the last entry of an address is. *)
Fixpoint index_addrs (i : nat) (l : list AddrEntry) (m : gmap bytes nat) : gmap bytes nat :=
  match l with [] => m | a :: l => index_addrs (S i) l (<[ae_Addr a := i]> m) end.
Definition addrsMap (l : list AddrEntry) : gmap bytes nat := index_addrs 0 l ∅.

Definition update_existing (mode : ttlWriteMode) (ttl newExp : Z) (e : AddrEntry) : AddrEntry :=
  match mode with
  | ttlOverride => MkEntry (ae_Addr e) newExp ttl
  | ttlExtend =>
      MkEntry (ae_Addr e) (if bool_decide (Expiry e < newExp) then newExp else Expiry e)
        (if bool_decide (Ttl e < ttl) then ttl else Ttl e)
  end.

(** The loop of [setAddrs]: [old] are the entries of the record, which [m] points
    into, [entries] the new ones. *)
Fixpoint set_loop (late : positive → bool) (p : PeerID) (mode : ttlWriteMode) (ttl newExp : Z) (m : gmap bytes nat)
    (incoming : list Multiaddr) (old entries : list AddrEntry) (mgr : AddrSubManager)
    : list AddrEntry * list AddrEntry * AddrSubManager :=
  match incoming with
  | [] => (old, entries, mgr)
  | a :: incoming =>
      match m !! MarshalBinary a with
      | Some i => set_loop late p mode ttl newExp m incoming (alter (update_existing mode ttl newExp) i old) entries mgr
      | None => set_loop late p mode ttl newExp m incoming old (entries ++ [MkEntry (MarshalBinary a) newExp ttl])
                  (BroadcastAddr late p a mgr)
      end
  end.

(** [deleteInPlace]: [s] is overwritten while it is ranged over. *)
Fixpoint delete_loop (n i survived : nat) (dels : list bytes) (s : list AddrEntry) : list AddrEntry * nat :=
  match n with
  | O => (s, survived)
  | S n =>
      match s !! i with
      | Some addr =>
          if bool_decide (ae_Addr addr ∈ dels) then
            let survived := (survived - 1)%nat in
            if bool_decide (survived = 0)%nat then (s, survived)
            else delete_loop n (S i) survived dels (match s !! survived with Some x => <[i := x]> s | None => s end)
          else delete_loop n (S i) survived dels s
      | None => (s, survived)
      end
  end.
Definition deleteInPlace (s : list AddrEntry) (addrs : list Multiaddr) : list AddrEntry :=
  if bool_decide (zlen addrs = 0) then s
  else let '(s, survived) := delete_loop (length s) 0 (length s) (MarshalBinary <$> addrs) s in take survived s.

(** The loop of [UpdateAddrs] *)
Definition update_ttl (oldTTL newTTL newExp : Z) (e : AddrEntry) : AddrEntry :=
  if bool_decide (Ttl e ≠ oldTTL) then e else MkEntry (ae_Addr e) newExp newTTL.

Definition cleanAddrs (addrs : list (option Multiaddr)) (pid : PeerID) : list Multiaddr := omap (proper pid) addrs.
End Records.

(** ** The book *)

Section Book.
Context {ds : Datastore} {bt : Batching} {ma : Multiaddrs} {lp : Libp2p} {ft : DsFormats} {ca : Cache PeerID positive}.
Context (sort_Slice : list AddrEntry → list AddrEntry).
Context (late : positive → bool).

(** The datastore, the cache of pointers to records, the records, the subscriptions;
    the end of the collector's window and whether it is running. *)
Record dsAddrBook := MkDsBook {
  db_ds : DS; db_cache : CacheT; db_heap : gmap positive addrsRecord; db_subs : AddrSubManager;
  currWindowEnd : Z; running : bool }.

Abbreviation B := (GoM dsAddrBook).

Definition with_ds d b := MkDsBook d (db_cache b) (db_heap b) (db_subs b) (currWindowEnd b) (running b).
Definition with_cache c b := MkDsBook (db_ds b) c (db_heap b) (db_subs b) (currWindowEnd b) (running b).
Definition with_heap h b := MkDsBook (db_ds b) (db_cache b) h (db_subs b) (currWindowEnd b) (running b).
Definition with_subs s b := MkDsBook (db_ds b) (db_cache b) (db_heap b) s (currWindowEnd b) (running b).
Definition with_window w b := MkDsBook (db_ds b) (db_cache b) (db_heap b) (db_subs b) w (running b).
Definition with_running r b := MkDsBook (db_ds b) (db_cache b) (db_heap b) (db_subs b) (currWindowEnd b) r.

Definition updB (f : dsAddrBook → dsAddrBook) : B unit := λ b, Ret (tt, f b).

Definition record_at (l : positive) : B addrsRecord := λ b,
  match db_heap b !! l with Some r => Ret (r, b) | None => Panic PNil end.
Definition store_record (l : positive) (r : addrsRecord) : B unit := updB (λ b, with_heap (<[l := r]> (db_heap b)) b).
Definition new_record (r : addrsRecord) : B positive := λ b,
  let l := fresh (dom (db_heap b)) in Ret (l, with_heap (<[l := r]> (db_heap b)) b).

Definition Cache_Get (id : PeerID) : B (option positive) := λ b,
  let '(hit, c) := cache_Get id (db_cache b) in Ret (hit, with_cache c b).

(** [pr.clean(now)], and [pr.flush(ab.ds)] *)
Definition clean_at (now : Z) (l : positive) : B bool :=
  r ← record_at l; let '(chgd, r) := clean sort_Slice now r in store_record l r ;; mret chgd.
Definition flush_at (l : positive) : B (option error) :=
  r ← record_at l; b ← get;
  let '(r, d, e) := flush write_ds r (db_ds b) in
  updB (with_ds d) ;; store_record l r ;; mret e.

(** [if pr.clean(now) && update { err = pr.flush(ab.ds) }] *)
Definition tidy (update : bool) (now : Z) (l : positive) : B (option error) :=
  chgd ← clean_at now l; if chgd && update then flush_at l else mret None.

Definition loaded (l : positive) (e : option error) : positive + error :=
  match e with Some e => inr e | None => inl l end.

(** [loadRecord]: the record, or the error; all callers give up on an error. *)
Definition loadRecord (now : Z) (id : PeerID) (cache update : bool) : B (positive + error) :=
  hit ← Cache_Get id;
  match hit with
  | Some l =>
      e ← tidy update now l; mret (loaded l e)
  | None =>
      let add l := if cache then updB (λ b, with_cache (cache_Add id l (db_cache b)) b) else mret tt in
      b ← get;
      match ds_Get (addr_key id) (db_ds b) with
      | inr e =>
          if decide (e = ds_ErrNotFound) then
            l ← new_record (MkAddrs (MkRecord id None None) false); add l ;; mret (inl l)
          else mret (inr e)
      | inl data =>
          match proto_Unmarshal data with
          | inr e => mret (inr e)
          | inl r =>
              l ← new_record (MkAddrs r false);
              e ← tidy update now l; add l ;; mret (loaded l e)
          end
      end
  end.

Definition set_error : error := Errorf "failed to load peerstore entry for peer %v while setting addrs, err: %v" [].

(** The clock is read when the record is loaded, for the new expiry and to clean. *)
Definition setAddrs (clk : nat → Z) (p : PeerID) (addrs : list Multiaddr) (ttl : Z) (mode : ttlWriteMode) (signed : bool)
    : B (option error) :=
  if bool_decide (zlen addrs = 0) then mret None
  else
    pr ← loadRecord (clk 0%nat) p true false;
    match pr with
    | inr _ => mret (Some set_error)
    | inl l =>
        r ← record_at l; b ← get;
        let newExp := Unix (clk 1%nat + ttl) in
        let '(old, entries, mgr) :=
          set_loop late p mode ttl newExp (addrsMap (Addrs_of r)) addrs (Addrs_of r) [] (db_subs b) in
        updB (with_subs mgr) ;;
        store_record l (with_dirty true (with_Addrs (old ++ entries) r)) ;;
        _ ← clean_at (clk 2%nat) l;
        flush_at l
    end.

Definition AddAddrs (clk : nat → Z) (p : PeerID) (addrs : list (option Multiaddr)) (ttl : Z) : B unit :=
  if bool_decide (ttl ≤ 0) then mret tt
  else _ ← setAddrs clk p (cleanAddrs addrs p) ttl ttlExtend false; mret tt.
Definition AddAddr (clk : nat → Z) (p : PeerID) (addr : option Multiaddr) (ttl : Z) : B unit := AddAddrs clk p [addr] ttl.

Definition deleteAddrs (clk : nat → Z) (p : PeerID) (addrs : list Multiaddr) : B (option error) :=
  pr ← loadRecord (clk 0%nat) p false false;
  match pr with
  | inr _ => mret (Some (Errorf "failed to load peerstore entry for peer %v while deleting addrs, err: %v" []))
  | inl l =>
      r ← record_at l;
      match r_Addrs (pb r) with
      | None => mret None
      | Some s =>
          store_record l (with_dirty true (with_Addrs (deleteInPlace s addrs) r)) ;;
          _ ← clean_at (clk 1%nat) l;
          flush_at l
      end
  end.

Definition SetAddrs (clk : nat → Z) (p : PeerID) (addrs : list (option Multiaddr)) (ttl : Z) : B unit :=
  let addrs := cleanAddrs addrs p in
  if bool_decide (ttl ≤ 0) then _ ← deleteAddrs clk p addrs; mret tt
  else _ ← setAddrs clk p addrs ttl ttlOverride false; mret tt.
Definition SetAddr (clk : nat → Z) (p : PeerID) (addr : option Multiaddr) (ttl : Z) : B unit := SetAddrs clk p [addr] ttl.

Definition UpdateAddrs (clk : nat → Z) (p : PeerID) (oldTTL newTTL : Z) : B unit :=
  pr ← loadRecord (clk 0%nat) p true false;
  match pr with
  | inr _ => mret tt
  | inl l =>
      r ← record_at l;
      let newExp := Unix (clk 1%nat + newTTL) in
      store_record l (MkAddrs (MkRecord (Id (pb r)) ((λ s : list AddrEntry, update_ttl oldTTL newTTL newExp <$> s) <$> r_Addrs (pb r)) (r_CertifiedRecord (pb r)))
        (dirty r || existsb (λ e, bool_decide (Ttl e = oldTTL)) (Addrs_of r))) ;;
      _ ← tidy true (clk 2%nat) l; mret tt
  end.

(** One unparseable address, and none is returned. *)
Definition Addrs (now : Z) (p : PeerID) : B (list Multiaddr) :=
  pr ← loadRecord now p true true;
  match pr with
  | inr _ => mret []
  | inl l => r ← record_at l; mret (default [] (mapM (λ a, NewMultiaddrBytes (ae_Addr a)) (Addrs_of r)))
  end.

Definition ClearAddrs (p : PeerID) : B unit :=
  updB (λ b, with_cache (cache_Remove p (db_cache b)) b) ;;
  updB (λ b, with_ds (ds_Delete (addr_key p) (db_ds b)).1 b).

Definition latestPeerRecordSeq (now : Z) (p : PeerID) : B Z :=
  pr ← loadRecord now p true false;
  match pr with
  | inr _ => mret 0
  | inl l =>
      r ← record_at l;
      mret (match r_CertifiedRecord (pb r) with
            | Some c => if bool_decide (zlen (Addrs_of r) = 0) || bool_decide (zlen (cr_Raw c) = 0) then 0 else cr_Seq c
            | None => 0
            end)
  end.

Definition storeSignedPeerRecord (now : Z) (p : PeerID) (envelope : Envelope) (rec : PeerRecord Multiaddr) : B (option error) :=
  match env_Marshal envelope with
  | inr e => mret (Some e)
  | inl raw =>
      pr ← loadRecord now p true false;
      match pr with
      | inr e => mret (Some e)
      | inl l =>
          r ← record_at l;
          store_record l (with_dirty true (with_CertifiedRecord (MkCertified (pr_Seq rec) raw) r)) ;;
          flush_at l
      end
  end.

Definition ConsumePeerRecord (clk : nat → Z) (env : Envelope) (ttl : Z) : B (bool * option error) :=
  match env_Record env with
  | inr e => mret (false, Some e)
  | inl None => mret (false, Some (Errorf "envelope did not contain PeerRecord" []))
  | inl (Some rec) =>
      if negb (MatchesPublicKey (pr_PeerID rec) (env_PublicKey env)) then
        mret (false, Some (Errorf "signing key does not match PeerID in PeerRecord" []))
      else
        seq ← latestPeerRecordSeq (clk 0%nat) (pr_PeerID rec);
        if bool_decide (pr_Seq rec < seq) then mret (false, None)
        else
          e ← setAddrs (λ i, clk (1 + i)%nat) (pr_PeerID rec) (cleanAddrs (pr_Addrs rec) (pr_PeerID rec)) ttl ttlExtend true;
          match e with
          | Some e => mret (false, Some e)
          | None =>
              e ← storeSignedPeerRecord (clk 4%nat) (pr_PeerID rec) env rec;
              match e with Some e => mret (false, Some e) | None => mret (true, None) end
          end
  end.

Definition GetPeerRecord (now : Z) (p : PeerID) : B (option Envelope) :=
  pr ← loadRecord now p true false;
  match pr with
  | inr _ => mret None
  | inl l =>
      r ← record_at l;
      mret (match r_CertifiedRecord (pb r) with
            | Some c =>
                if bool_decide (zlen (cr_Raw c) = 0) || bool_decide (zlen (Addrs_of r) = 0) then None
                else match ConsumeEnvelope (cr_Raw c) with inl env => Some env | inr _ => None end
            | None => None
            end)
  end.

(** [uniquePeerIds]: one identifier for each name, empty if the name is none. *)
Definition peer_of_name (name : bytes) : PeerID :=
  match IDFromBytes (match b32_Decode name with inl b => b | inr _ => [] end) with inl id => id | inr _ => [] end.
Definition uniquePeerIds (prefix : DsKey) (extractor : DsKey → bytes) (d : DS) : list PeerID + error :=
  match ds_Query prefix d with
  | inr e => inr e
  | inl keys => inl (peer_of_name <$> elements (list_to_set (extractor <$> keys) : gset bytes))
  end.

Definition PeersWithAddrs : B (list PeerID) :=
  b ← get; mret (match uniquePeerIds addrBookBase Key_Name (db_ds b) with inl ids => ids | inr _ => [] end).

Definition AddrStream (order : list Multiaddr → list Multiaddr) (now : Z) (p : PeerID) : B positive :=
  initial ← Addrs now p; b ← get;
  let '(s, mgr) := SubManager_AddrStream p (order initial) (db_subs b) in
  updB (with_subs mgr) ;; mret s.

(** [Options] of the book, and the checks of [newAddressBookGc]. *)
Record Options := MkOptions {
  CacheSize : Z; MaxProtocols : Z; GCPurgeInterval : Z; GCLookaheadInterval : Z; GCInitialDelay : Z }.

Definition DefaultOpts : Options := MkOptions 1024 1024 (2 * 3600 * 10 ^ 9) 0 (60 * 10 ^ 9).

Definition newAddressBookGc (opts : Options) : option error :=
  if bool_decide (GCPurgeInterval opts < 0) then Some (Errorf "negative GC purge interval provided: %s" [GCPurgeInterval opts])
  else if bool_decide (GCLookaheadInterval opts < 0)
    then Some (Errorf "negative GC lookahead interval provided: %s" [GCLookaheadInterval opts])
  else if bool_decide (GCInitialDelay opts < 0) then Some (Errorf "negative GC initial delay provided: %s" [GCInitialDelay opts])
  else if bool_decide (0 < GCLookaheadInterval opts ∧ GCLookaheadInterval opts < GCPurgeInterval opts)
    then Some (Errorf "lookahead interval must be larger than purge interval, respectively: %s, %s"
                 [GCLookaheadInterval opts; GCPurgeInterval opts])
  else None.

(** [c] is the empty cache of the size the options ask for, or why there is none. *)
Definition NewAddrBook (d : DS) (opts : Options) (c : CacheT + error) : dsAddrBook + error :=
  match c with
  | inr e => inr e
  | inl c =>
      match newAddressBookGc opts with
      | Some e => inr e
      | None => inl (MkDsBook d c ∅ (MkSubManager ∅ ∅) 0 false)
      end
  end.
End Book.

(** ** Collecting garbage ([addr_book_gc.go])

    A collection is a loop over the results of a query, with a batch for its writes;
    a batch that could not be had is nil. *)

Section GC.
Context {ds : Datastore} {bt : Batching} {ma : Multiaddrs} {lp : Libp2p} {ft : DsFormats} {ca : Cache PeerID positive}.
Context (sort_Slice : list AddrEntry → list AddrEntry).

Record Sweep := MkSweep { sw_book : dsAddrBook; sw_batch : option cyclicBatch }.
Abbreviation S := (GoM Sweep).

Definition on_book {A} (m : GoM dsAddrBook A) : S A := λ s,
  match m (sw_book s) with Ret (a, b) => Ret (a, MkSweep b (sw_batch s)) | Panic p => Panic p end.

Definition gcLookaheadBase : DsKey := NewKey (string_bytes "/peers/gc/addrs").

(** [gcLookaheadBase.ChildString(fmt.Sprintf("%d/%s", expiry, name))] *)
Definition gc_key (expiry : Z) (name : bytes) : DsKey :=
  ChildString gcLookaheadBase (Sprintd expiry ++ string_bytes "/" ++ name).

(** [orderByTimestampInKey] *)
Definition orderByTimestampInKey (a b : DsKey) : Z :=
  match ParseInt (Key_Name (Key_Parent a)), ParseInt (Key_Name (Key_Parent b)) with
  | Some aInt, Some bInt => if bool_decide (aInt < bInt) then -1 else if bool_decide (aInt = bInt) then 0 else 1
  | _, _ => -1
  end.

Definition new_batch : S unit := λ s,
  Ret (tt, MkSweep (sw_book s)
             (match newCyclicBatch defaultOpsPerCyclicBatch (db_ds (sw_book s)) with inl cb => Some cb | inr _ => None end)).

(** [batch.Put] and [batch.Delete], whose errors are logged. *)
Definition batch_write (o : Write DsKey) : S unit := λ s,
  match sw_batch s with
  | None => Panic PNil
  | Some cb =>
      let '(cb, d, e) := cb_write o (cb, db_ds (sw_book s)) in
      Ret (tt, MkSweep (with_ds d (sw_book s)) (Some cb))
  end.
Definition batch_commit : S unit := λ s,
  match sw_batch s with
  | None => Panic PNil
  | Some cb =>
      let '(cb, d, e) := cb_Commit (cb, db_ds (sw_book s)) in
      Ret (tt, MkSweep (with_ds d (sw_book s)) (Some cb))
  end.

(** [record.flush(batch)] *)
Definition flush_batch (r : addrsRecord) : S addrsRecord := λ s,
  match sw_batch s with
  | None => match flush (λ o (w : unit), (w, None)) r tt with
            | (_, _, Some _) => Ret (r, s)
            | (_, _, None) => Panic PNil
            end
  | Some cb =>
      let '(r, (cb, d), e) := flush cb_write r (cb, db_ds (sw_book s)) in
      Ret (r, MkSweep (with_ds d (sw_book s)) (Some cb))
  end.

(** A collection runs when none is running. *)
Definition exclusively (m : S unit) : S unit :=
  s ← get;
  if running (sw_book s) then mret tt
  else on_book (updB (with_running true)) ;; m ;; on_book (updB (with_running false)).

(** *** [purgeStore] *)

Definition purge_entry (now : Z) (data : bytes) : S unit :=
  match proto_Unmarshal data with
  | inr _ => mret tt
  | inl r =>
      let '(chgd, r) := clean sort_Slice now (MkAddrs r false) in
      if chgd : bool then
        r ← flush_batch r;
        on_book (updB (λ b, with_cache (cache_Remove (Id (pb r)) (db_cache b)) b))
      else mret tt
  end.
Fixpoint purge_entries (clk : nat → Z) (i : nat) (results : list (DsKey * bytes)) : S unit :=
  match results with
  | [] => mret tt
  | (_, data) :: results => purge_entry (clk i) data ;; purge_entries clk (Datatypes.S i) results
  end.
(** The visit of the entries, before the last batch is committed. *)
Definition purge_visit (clk : nat → Z) : S (option error) :=
  new_batch ;;
  s ← get;
  match ds_QueryEntries addrBookBase (db_ds (sw_book s)) with
  | inr e => mret (Some e)
  | inl results => purge_entries clk 0 results ;; mret None
  end.
Definition purgeStore (clk : nat → Z) : S unit :=
  exclusively (e ← purge_visit clk; match e with Some _ => mret tt | None => batch_commit end).

(** *** [purgeLookahead] *)

Definition dropInError (key : DsKey) : S unit := batch_write (WDelete key).

Definition dropOrReschedule (key : DsKey) (ar : addrsRecord) : S unit :=
  batch_write (WDelete key) ;;
  s ← get;
  match Addrs_of ar with
  | a :: _ =>
      if bool_decide (Expiry a ≤ currWindowEnd (sw_book s))
      then batch_write (WPut (gc_key (Expiry a) (Key_Name key)) []) else mret tt
  | [] => mret tt
  end.

(** A cached record is cleaned in place, others are fetched. *)
Definition purge_peer (now : Z) (gcKey : DsKey) (id : PeerID) : S unit :=
  s ← get;
  match cache_Peek id (db_cache (sw_book s)) with
  | Some l =>
      chgd ← on_book (clean_at sort_Slice now l);
      r ← on_book (record_at l);
      r ← (if chgd : bool then r ← flush_batch r; on_book (store_record l r) ;; mret r else mret r);
      dropOrReschedule gcKey r
  | None =>
      match ds_Get (ChildString addrBookBase (Key_Name gcKey)) (db_ds (sw_book s)) with
      | inr _ => dropInError gcKey
      | inl val =>
          match proto_Unmarshal val with
          | inr _ => dropInError gcKey
          | inl r =>
              let '(chgd, r) := clean sort_Slice now (MkAddrs r false) in
              r ← (if chgd : bool then flush_batch r else mret r);
              dropOrReschedule gcKey r
          end
      end
  end.

(** The results come in the order of their times: the first beyond [now] is the last. *)
Fixpoint purge_keys (clk : nat → Z) (now : Z) (i : nat) (results : list DsKey) : S unit :=
  match results with
  | [] => mret tt
  | gcKey :: results =>
      match ParseInt (Key_Name (Key_Parent gcKey)) with
      | None => dropInError gcKey ;; purge_keys clk now i results
      | Some ts =>
          if bool_decide (now < ts) then mret tt
          else
            match b32_Decode (Key_Name gcKey) with
            | inr _ => dropInError gcKey
            | inl idb =>
                match IDFromBytes idb with
                | inr _ => dropInError gcKey
                | inl id => purge_peer (clk i) gcKey id
                end
            end ;; purge_keys clk now (Datatypes.S i) results
      end
  end.

Definition purgeLookahead (clk : nat → Z) : S unit :=
  exclusively
    (new_batch ;;
     s ← get;
     match ds_QueryOrdered orderByTimestampInKey gcLookaheadBase (db_ds (sw_book s)) with
     | inr _ => mret tt
     | inl results => purge_keys clk (Unix (clk 0%nat)) 1 results ;; batch_commit
     end).

(** *** [populateLookahead] *)

(** The expiry to schedule a visit for. *)
Definition next_visit (until : Z) (r : addrsRecord) : option Z :=
  match Addrs_of r with
  | a :: _ => if bool_decide (Expiry a ≤ until) then Some (Expiry a) else None
  | [] => None
  end.
Definition schedule (until : Z) (name : bytes) (r : addrsRecord) : S unit :=
  match next_visit until r with Some expiry => batch_write (WPut (gc_key expiry name) []) | None => mret tt end.

(** An identifier that does not parse is empty from then on. *)
Definition populate_key (until : Z) (key : DsKey) : S unit :=
  let idb32 := Key_Name key in
  match b32_Decode idb32 with
  | inr _ => mret tt
  | inl k =>
      let id := match IDFromBytes k with inl id => id | inr _ => [] end in
      s ← get;
      match cache_Peek id (db_cache (sw_book s)) with
      | Some l => r ← on_book (record_at l); schedule until idb32 r
      | None =>
          match ds_Get key (db_ds (sw_book s)) with
          | inr _ => mret tt
          | inl val =>
              match proto_Unmarshal val with
              | inr _ => mret tt
              | inl r => schedule until idb32 (MkAddrs r false)
              end
          end
      end
  end.
Fixpoint populate_keys (until : Z) (keys : list DsKey) : S unit :=
  match keys with [] => mret tt | key :: keys => populate_key until key ;; populate_keys until keys end.

(** Without a batch it gives up before the window is moved. *)
Definition populateLookahead (opts : Options) (now : Z) : S unit :=
  if bool_decide (GCLookaheadInterval opts = 0) then mret tt
  else
    exclusively
      (let until := Unix (now + GCLookaheadInterval opts) in
       s ← get;
       match ds_Query addrBookBase (db_ds (sw_book s)) with
       | inr _ => mret tt
       | inl keys =>
           new_batch ;;
           s ← get;
           match sw_batch s with
           | None => mret tt
           | Some _ => populate_keys until keys ;; batch_commit ;; on_book (updB (with_window until))
           end
       end).

(** [purgeFunc] *)
Definition purgeFunc (opts : Options) (clk : nat → Z) : S unit :=
  if bool_decide (0 < GCLookaheadInterval opts) then purgeLookahead clk else purgeStore clk.

(** What [background] does at each tick of its timers. *)
Inductive Tick := TPurge (clk : nat → Z) | TLookahead (now : Z).
Definition background_tick (opts : Options) (t : Tick) : S unit :=
  match t with
  | TPurge clk => purgeFunc opts clk
  | TLookahead now => if bool_decide (0 < GCLookaheadInterval opts) then populateLookahead opts now else mret tt
  end.
End GC.
