(* ===== verification/PeerDsFacts.v ===== *)
(** * Records of the datastore's address book: what their operations amount to

    Facts of [PeerDs] that need no store: what cleaning leaves of a record, which
    entries [setAddrs] changes and adds, and what [deleteInPlace] deletes. *)

From S2P Require Export PeerDs.

(** ** Sorted and live entries *)

Definition by_expiry (a b : AddrEntry) : Prop := Expiry a ≤ Expiry b.
Abbreviation sorted := (StronglySorted by_expiry).
Definition live (now : Z) (l : list AddrEntry) : list AddrEntry := filter (λ e, Unix now < Expiry e) l.

(** What [sort.Slice] promises. *)
Class SortLaw (sort_Slice : list AddrEntry → list AddrEntry) : Prop := {
  sort_perm l : sort_Slice l ≡ₚ l;
  sort_sorted l : sorted (sort_Slice l);
}.

Lemma Unix_mono t t' : t ≤ t' → Unix t ≤ Unix t'.
Proof. intros. unfold Unix. by apply Z.div_le_mono. Qed.

Lemma elem_of_live now l e : e ∈ live now l ↔ Unix now < Expiry e ∧ e ∈ l.
Proof. unfold live. by rewrite list_elem_of_filter. Qed.

Lemma live_live now now' l : now ≤ now' → live now' (live now l) = live now' l.
Proof.
  intros Hle%Unix_mono. unfold live. induction l as [|e l IH]; [done|]. rewrite !filter_cons.
  case_decide; [rewrite filter_cons; by rewrite IH|]. rewrite decide_False by lia. done.
Qed.

Lemma sorted_live now l : sorted l → sorted (live now l).
Proof.
  induction 1 as [|e l HS IH HF]; [constructor|]. unfold live. rewrite filter_cons. case_decide; [|done].
  constructor; [done|]. apply Forall_forall. intros x Hx. apply elem_of_live in Hx as [_ Hx].
  by eapply Forall_forall in HF.
Qed.

Lemma live_all now l : Forall (λ e, Unix now < Expiry e) l → live now l = l.
Proof. induction 1; [done|]. unfold live in *. rewrite filter_cons, decide_True by done. by f_equal. Qed.

Lemma live_perm now l l' : l ≡ₚ l' → live now l ≡ₚ live now l'.
Proof. intros E. unfold live. by rewrite E. Qed.

Lemma live_length now l : (length (live now l) = length l)%nat → live now l = l.
Proof.
  unfold live. induction l as [|e l IH]; [done|]. rewrite filter_cons. case_decide; cbn; [intros; f_equal; apply IH; lia|].
  pose proof (length_filter (λ e, Unix now < Expiry e) l). lia.
Qed.

(** ** Removing what has expired *)

Lemma pivot_sorted now i l : sorted l → 0 ≤ i →
  ∃ n : nat, pivot_loop (Unix now) i (i - 1) l = i - 1 + Z.of_nat n ∧ drop n l = live now l.
Proof.
  intros HS. revert i. induction HS as [|e l HS IH HF]; intros i Hi; cbn [pivot_loop].
  - exists 0%nat. split; [lia|done].
  - case_bool_decide as He.
    + exists 0%nat. split; [lia|]. rewrite live_all; [done|]. constructor; [done|].
      eapply Forall_impl; [exact HF|]. unfold by_expiry. cbn. lia.
    + destruct (IH (i + 1) ltac:(lia)) as (n & E & D). replace (i + 1 - 1) with i in E by lia.
      exists (S n). split; [lia|]. cbn [drop]. rewrite D. unfold live. by rewrite filter_cons, decide_False.
Qed.

Lemma removeExpired_live now l : sorted l → removeExpired l (Unix now) = live now l.
Proof.
  intros HS. destruct (pivot_sorted now 0 l HS ltac:(lia)) as (n & E & D). unfold removeExpired.
  change (0 - 1) with (-1) in E. rewrite E, <- D. f_equal. lia.
Qed.

Lemma hasExpired_sorted now r : sorted (Addrs_of r) → hasExpiredAddrs r (Unix now) = false → live now (Addrs_of r) = Addrs_of r.
Proof.
  unfold hasExpiredAddrs. intros HS. inversion HS as [|e l HS' HF]; intros HX; [done|].
  apply bool_decide_eq_false in HX. apply live_all. constructor; [lia|].
  eapply Forall_impl; [exact HF|]. unfold by_expiry. cbn. lia.
Qed.

Section Clean.
Context {sort_Slice : list AddrEntry → list AddrEntry} {SL : SortLaw sort_Slice}.

Lemma sort_short l : (length l ≤ 1)%nat → sort_Slice l = l.
Proof.
  intros Hl. pose proof (sort_perm l) as HP. destruct l as [|e [|]]; cbn in Hl; [|by apply Permutation_singleton_r in HP|lia].
  by apply Permutation_nil_r in HP.
Qed.

(** The entries that [clean] works on. *)
Definition ordered (r : addrsRecord) : list AddrEntry := if dirty r then sort_Slice (Addrs_of r) else Addrs_of r.

Lemma sorted_ordered r : (dirty r = false → sorted (Addrs_of r)) → sorted (ordered r).
Proof. unfold ordered. destruct (dirty r); [intros _; apply sort_sorted|auto]. Qed.

Lemma clean_spec now r chgd r' :
  (dirty r = false → sorted (Addrs_of r)) → clean sort_Slice now r = (chgd, r') →
  Addrs_of r' = live now (ordered r) ∧ Id (pb r') = Id (pb r) ∧ dirty r' = dirty r ∧
  r_CertifiedRecord (pb r') = r_CertifiedRecord (pb r) ∧
  (chgd = false → r' = r ∧ dirty r = false) ∧ (dirty r = true → chgd = true).
Proof.
  intros HS. unfold clean. destruct (negb (dirty r) && negb (hasExpiredAddrs r (Unix now))) eqn:E1.
  { intros [= <- <-]. apply andb_true_iff in E1 as [Hd%negb_true_iff He%negb_true_iff].
    unfold ordered. rewrite Hd. rewrite hasExpired_sorted by auto. by split_and!. }
  case_bool_decide as Hz.
  { intros [= <- <-]. assert (Addrs_of r = []) as E by (destruct (Addrs_of r); [done|by unfold zlen in Hz]).
    unfold ordered. rewrite E, sort_short by (cbn; lia). by destruct (dirty r). }
  assert ((if dirty r && bool_decide (1 < zlen (Addrs_of r)) then with_Addrs (sort_Slice (Addrs_of r)) r else r)
    = (if dirty r && bool_decide (1 < zlen (Addrs_of r)) then with_Addrs (ordered r) r else r)) as ->.
  { unfold ordered. by destruct (dirty r). }
  set (r1 := if dirty r && bool_decide (1 < zlen (Addrs_of r)) then with_Addrs (ordered r) r else r).
  assert (Addrs_of r1 = ordered r) as Ea.
  { unfold r1, ordered. destruct (dirty r); [|done]. case_bool_decide as Hl; [done|]. cbn. rewrite sort_short; [done|]. unfold zlen in Hl. lia. }
  assert (Id (pb r1) = Id (pb r) ∧ dirty r1 = dirty r ∧ r_CertifiedRecord (pb r1) = r_CertifiedRecord (pb r)) as (EI & ED & EC)
    by (unfold r1; by case_match).
  assert (length (ordered r) = length (Addrs_of r)) as Elen.
  { unfold ordered. destruct (dirty r); [|done]. by rewrite (sort_perm (Addrs_of r)). }
  rewrite Ea. rewrite removeExpired_live by by apply sorted_ordered.
  intros [= <- <-]. split; [done|]. cbn [pb dirty with_Addrs Id r_CertifiedRecord]. split; [done|]. split; [done|]. split; [done|].
  rewrite ED. split; [|by intros ->].
  intros [Hd Hn]%orb_false_iff. apply bool_decide_eq_false in Hn. exfalso.
  rewrite Hd in E1. cbn in E1. apply negb_false_iff in E1. unfold hasExpiredAddrs in E1.
  assert (live now (Addrs_of r) = Addrs_of r) as El.
  { unfold ordered in Hn. rewrite Hd in Hn. apply live_length. unfold zlen in Hn. cbn in Hn. apply dec_stable in Hn. lia. }
  destruct (Addrs_of r) as [|e l] eqn:Er; [done|]. apply bool_decide_eq_true in E1.
  assert (e ∈ live now (e :: l)) as Hin by (rewrite El; by left). apply elem_of_live in Hin. lia.
Qed.
End Clean.
#[export] Hint Resolve sorted_live : core.

(** ** The entries of a call of [setAddrs] *)

Section Entries.
Context {ma : Multiaddrs} {lp : Libp2p}.
Abbreviation addrs_of l := (ae_Addr <$> l).
Implicit Types (late : positive → bool) (p : PeerID) (mode : ttlWriteMode) (ttl newExp : Z) (inc addrs : list Multiaddr) (l s old : list AddrEntry).

Lemma set_loop_lists late late' p mode ttl newExp m inc old entries mgr mgr' :
  (set_loop late p mode ttl newExp m inc old entries mgr).1 = (set_loop late' p mode ttl newExp m inc old entries mgr').1.
Proof.
  revert old entries mgr mgr'; induction inc as [|a inc IH]; intros; cbn [set_loop]; [done|]. destruct (m !! MarshalBinary a); apply IH.
Qed.

(** The entries of the record afterwards. *)
Definition set_entries (p : PeerID) (mode : ttlWriteMode) (ttl newExp : Z) (inc : list Multiaddr) (l : list AddrEntry) : list AddrEntry :=
  let r := (set_loop (λ _, true) p mode ttl newExp (addrsMap l) inc l [] (MkSubManager ∅ ∅)).1 in r.1 ++ r.2.

Lemma index_addrs_lookup n l m k i : NoDup (addrs_of l) →
  index_addrs n l m !! k = Some i ↔
  (∃ j, i = (n + j)%nat ∧ (addrs_of l) !! j = Some k) ∨ (m !! k = Some i ∧ k ∉ addrs_of l).
Proof.
  revert n m; induction l as [|e l IH]; intros n m HN; cbn [index_addrs].
  - cbn. split; [intros; right; split; [done|by apply not_elem_of_nil]|]. intros [(j & _ & [=])|[? _]]; done.
  - cbn [fmap list_fmap] in HN. apply NoDup_cons in HN as [Hni HN]. rewrite IH by done. rewrite lookup_insert_Some. cbn [fmap list_fmap].
    split.
    + intros [(j & -> & Hj)|[[[<- <-]|[Hne Hm]] Hk]].
      * left. exists (S j). split; [lia|done].
      * left. exists 0%nat. split; [lia|done].
      * right. split; [done|]. by apply not_elem_of_cons.
    + intros [(j & -> & Hj)|[Hm [Hne Hk]%not_elem_of_cons]].
      * destruct j as [|j]; cbn in Hj; [injection Hj as <-; right; split; [left; split; [done|lia]|done]|].
        left. exists j. split; [lia|done].
      * right. split; [right; by split|done].
Qed.

Lemma addrsMap_lookup l k i : NoDup (addrs_of l) → addrsMap l !! k = Some i ↔ (addrs_of l) !! i = Some k.
Proof.
  intros HN. unfold addrsMap. rewrite index_addrs_lookup by done. rewrite lookup_empty. split.
  - intros [(j & -> & ?)|[[=] _]]. done.
  - intros. left. by exists i.
Qed.

Lemma update_existing_addr mode ttl newExp e : ae_Addr (update_existing mode ttl newExp e) = ae_Addr e.
Proof. by destruct mode. Qed.

Definition touch (mode : ttlWriteMode) (ttl newExp : Z) (ks : list bytes) (e : AddrEntry) : AddrEntry :=
  if decide (ae_Addr e ∈ ks) then update_existing mode ttl newExp e else e.

Lemma set_loop_form late p (mode : ttlWriteMode) (ttl newExp : Z) (m : gmap bytes nat) (inc : list Multiaddr) (old entries : list AddrEntry) (mgr : AddrSubManager) :
  (∀ k i, m !! k = Some i ↔ (addrs_of old) !! i = Some k) → NoDup (MarshalBinary <$> inc) →
  (set_loop late p mode ttl newExp m inc old entries mgr).1 =
  (touch mode ttl newExp (MarshalBinary <$> inc) <$> old,
   entries ++ ((λ a, MkEntry (MarshalBinary a) newExp ttl) <$> filter (λ a, MarshalBinary a ∉ addrs_of old) inc)).
Proof.
  revert old entries mgr; induction inc as [|a inc IH]; intros old entries mgr Hm HN; cbn [set_loop].
  - cbn. rewrite app_nil_r. f_equal. rewrite <- (list_fmap_id old) at 1. apply list_fmap_ext. intros _ e _. unfold touch.
    by rewrite decide_False by apply not_elem_of_nil.
  - cbn [fmap list_fmap] in HN. apply NoDup_cons in HN as [Hni HN]. rewrite filter_cons.
    destruct (m !! MarshalBinary a) as [i|] eqn:E.
    + apply Hm in E as E'. rewrite decide_False by (intros Hn; apply Hn; by eapply list_elem_of_lookup_2).
      assert (addrs_of (alter (update_existing mode ttl newExp) i old) = addrs_of old) as Ea.
      { apply list_eq. intros j. rewrite !list_lookup_fmap. destruct (decide (i = j)) as [->|Hj].
        - rewrite list_lookup_alter_eq. destruct (old !! j); cbn; by rewrite ?update_existing_addr.
        - by rewrite list_lookup_alter_ne. }
      rewrite IH by (rewrite ?Ea; done). rewrite Ea. f_equal.
      apply list_eq. intros j. rewrite !list_lookup_fmap.
      rewrite list_lookup_fmap in E'. destruct (decide (i = j)) as [->|Hj].
      * rewrite list_lookup_alter_eq. destruct (old !! j) as [e|]; cbn; [|done]. injection E' as E'.
        unfold touch. rewrite update_existing_addr, E'. by rewrite decide_False, decide_True by (done || by left).
      * rewrite list_lookup_alter_ne by done. destruct (old !! j) as [e|] eqn:Ej; cbn; [|done]. f_equal. unfold touch.
        assert (ae_Addr e ≠ MarshalBinary a) as Hne.
        { intros Hae. apply Hj. assert (m !! MarshalBinary a = Some j) as E2 by (apply Hm; by rewrite list_lookup_fmap, Ej; cbn; rewrite Hae).
          rewrite E in E2. by injection E2. }
        destruct (decide (ae_Addr e ∈ MarshalBinary <$> inc)); [by rewrite decide_True by by right|].
        rewrite decide_False; [done|]. cbn. by apply not_elem_of_cons.
    + assert (MarshalBinary a ∉ addrs_of old) as Hno.
      { intros [i Hi]%list_elem_of_lookup_1. apply Hm in Hi. by rewrite E in Hi. }
      rewrite decide_True by done. rewrite IH by done. f_equal.
      * apply list_fmap_ext. intros j e Hj. unfold touch.
        assert (ae_Addr e ≠ MarshalBinary a).
        { intros Hae. apply Hno. rewrite <- Hae. apply list_elem_of_fmap_2. by eapply list_elem_of_lookup_2. }
        destruct (decide (ae_Addr e ∈ MarshalBinary <$> inc)); [by rewrite decide_True by by right|].
        rewrite decide_False; [done|]. cbn. by apply not_elem_of_cons.
      * cbn [fmap list_fmap]. by rewrite <- app_assoc.
Qed.

Lemma touch_addr mode ttl newExp ks e : ae_Addr (touch mode ttl newExp ks e) = ae_Addr e.
Proof. unfold touch. case_decide; [apply update_existing_addr|done]. Qed.

Lemma set_entries_form p mode ttl newExp inc l : NoDup (addrs_of l) → NoDup (MarshalBinary <$> inc) →
  set_entries p mode ttl newExp inc l =
  (touch mode ttl newExp (MarshalBinary <$> inc) <$> l) ++
  ((λ a, MkEntry (MarshalBinary a) newExp ttl) <$> filter (λ a, MarshalBinary a ∉ addrs_of l) inc).
Proof. intros HL HI. unfold set_entries. rewrite set_loop_form by (try done; intros; by apply addrsMap_lookup). done. Qed.

Lemma set_entries_NoDup p mode ttl newExp inc l : NoDup (addrs_of l) → NoDup (MarshalBinary <$> inc) →
  NoDup (addrs_of (set_entries p mode ttl newExp inc l)).
Proof.
  intros HL HI. rewrite set_entries_form by done. rewrite fmap_app, <- !list_fmap_compose.
  rewrite (list_fmap_ext (ae_Addr ∘ touch mode ttl newExp (MarshalBinary <$> inc)) ae_Addr l) by (intros; apply touch_addr).
  apply NoDup_app. split; [done|]. split.
  - intros k Hk Hk2. apply list_elem_of_fmap_1 in Hk2 as (a & -> & [Ha _]%list_elem_of_filter). by apply Ha.
  - change (ae_Addr ∘ λ a, MkEntry (MarshalBinary a) newExp ttl) with (MarshalBinary (Multiaddrs := ma)). clear HL.
    induction inc as [|a inc IH]; [constructor|]. cbn [fmap list_fmap] in HI. apply NoDup_cons in HI as [Hni HI].
    rewrite filter_cons. case_decide; [|by apply IH]. cbn. constructor; [|by apply IH].
    intros (b & E & [_ Hb]%list_elem_of_filter)%list_elem_of_fmap_1. apply Hni. rewrite E. by apply list_elem_of_fmap_2.
Qed.

(** Each address of the call has one entry: the old one brought up to date, or a new one. *)
Lemma set_entries_elem p mode ttl newExp inc l e : NoDup (addrs_of l) → NoDup (MarshalBinary <$> inc) →
  e ∈ set_entries p mode ttl newExp inc l ↔
  if decide (ae_Addr e ∈ MarshalBinary <$> inc)
  then (∃ e0, e0 ∈ l ∧ e = update_existing mode ttl newExp e0) ∨ (ae_Addr e ∉ addrs_of l ∧ e = MkEntry (ae_Addr e) newExp ttl)
  else e ∈ l.
Proof.
  intros HL HI. rewrite set_entries_form by done. rewrite elem_of_app, !list_elem_of_fmap. setoid_rewrite list_elem_of_filter. split.
  - intros [(e0 & -> & H0)|(a & -> & Ha & Hin)].
    + rewrite touch_addr. unfold touch. case_decide; [left; by eexists|done].
    + cbn. rewrite decide_True by by apply list_elem_of_fmap_2. by right.
  - case_decide as Hk.
    + intros [(e0 & H0 & ->)|[Hno He]].
      * left. exists e0. rewrite update_existing_addr in Hk. unfold touch. by rewrite decide_True.
      * right. apply list_elem_of_fmap_1 in Hk as (a & Ea & Ha). rewrite Ea in He. exists a. split; [done|]. split; [by rewrite <- Ea|done].
    + intros He. left. exists e. split; [unfold touch; by rewrite decide_False|done].
Qed.

(** ** Deleting in place *)

Lemma delete_skip m n i sv dels s :
  (∀ j e, (i ≤ j < i + m)%nat → s !! j = Some e → ae_Addr e ∉ dels) → (i + m ≤ length s)%nat →
  delete_loop (m + n) i sv dels s = delete_loop n (i + m) sv dels s.
Proof.
  revert i; induction m as [|m IH]; intros i HN Hl; [by rewrite Nat.add_0_r|]. cbn [delete_loop Nat.add].
  destruct (s !! i) as [e|] eqn:E; [|apply lookup_ge_None in E; lia].
  rewrite bool_decide_eq_false_2 by (eapply HN; [|done]; lia). rewrite IH; [f_equal; lia| |lia].
  intros j x Hj Hx. apply (HN j); [lia|done].
Qed.

Lemma delete_none n i sv dels s :
  (∀ e, e ∈ drop i s → ae_Addr e ∉ dels) → (i + n = length s)%nat → delete_loop n i sv dels s = (s, sv).
Proof.
  intros HN Hl. rewrite <- (Nat.add_0_r n) at 1. rewrite delete_skip; [done| |lia].
  intros j e Hj He. apply HN, list_elem_of_lookup. exists (j - i)%nat. rewrite lookup_drop, <- He. f_equal. lia.
Qed.

Lemma delete_nowhere s addrs : (∀ e, e ∈ s → ae_Addr e ∉ MarshalBinary <$> addrs) → deleteInPlace s addrs = s.
Proof.
  intros HN. unfold deleteInPlace. case_bool_decide; [done|]. rewrite delete_none by done. apply take_ge. lia.
Qed.

(** One entry is deleted: the last one takes its place. *)
Lemma delete_one l1 e l2 addrs :
  ae_Addr e ∈ MarshalBinary <$> addrs → (∀ x, x ∈ l1 ++ l2 → ae_Addr x ∉ MarshalBinary <$> addrs) →
  deleteInPlace (l1 ++ e :: l2) addrs ≡ₚ l1 ++ l2.
Proof.
  intros He HN. unfold deleteInPlace. set (dels := MarshalBinary <$> addrs) in *. rewrite bool_decide_eq_false_2.
  2: { destruct addrs; [by apply not_elem_of_nil in He|unfold zlen; cbn; lia]. }
  assert (length (l1 ++ e :: l2) = length l1 + S (length l2))%nat as El by (rewrite length_app; cbn; lia).
  rewrite El at 1. rewrite delete_skip; [|intros j x Hj Hx; apply HN, elem_of_app; left; rewrite lookup_app_l in Hx by lia; by eapply list_elem_of_lookup_2|lia].
  cbn [Nat.add delete_loop]. rewrite list_lookup_middle by done. rewrite bool_decide_eq_true_2 by done. rewrite El.
  replace (length l1 + S (length l2) - 1)%nat with (length l1 + length l2)%nat by lia. case_bool_decide as Hz.
  { destruct l1, l2; cbn in Hz; try lia. done. }
  destruct (decide (l2 = [])) as [->|Hl2].
  { cbn [length]. rewrite Nat.add_0_r. rewrite list_lookup_middle by done. cbn [delete_loop].
    rewrite list_insert_id by by apply list_lookup_middle. rewrite take_app_length. by rewrite app_nil_r. }
  apply exists_last in Hl2 as (l & x & ->). rewrite length_app. cbn [length].
  replace ((l1 ++ e :: l ++ [x]) !! (length l1 + (length l + 1)))%nat with (Some x).
  2: { symmetry. rewrite lookup_app_r by lia. replace (length l1 + (length l + 1) - length l1)%nat with (S (length l)) by lia.
       change ((e :: l ++ [x]) !! S (length l)) with ((l ++ [x]) !! length l). by apply list_lookup_middle. }
  rewrite insert_app_r_alt by lia. cbn [Nat.add]. rewrite Nat.sub_diag.
  change (<[0%nat:=x]> (e :: l ++ [x])) with (x :: l ++ [x]). rewrite delete_none.
  2: { intros y Hy. apply HN. rewrite drop_app_ge in Hy by lia.
       replace (S (length l1) - length l1)%nat with 1%nat in Hy by lia. change (drop 1 (x :: l ++ [x])) with (l ++ [x]) in Hy.
       rewrite elem_of_app. by right. }
  2: { rewrite length_app. cbn. rewrite length_app. cbn. lia. }
  replace (l1 ++ x :: l ++ [x]) with ((l1 ++ x :: l) ++ [x]) by (by rewrite <- app_assoc).
  rewrite take_app_length' by (rewrite length_app; cbn; lia). f_equiv. rewrite Permutation_app_comm. done.
Qed.

(** The first and the last of several are to go: the last one stays, and the one before
    it is lost. *)
Lemma delete_ends a l b c addrs :
  ae_Addr a ∈ MarshalBinary <$> addrs → ae_Addr c ∈ MarshalBinary <$> addrs →
  (∀ x, x ∈ l ++ [b] → ae_Addr x ∉ MarshalBinary <$> addrs) →
  deleteInPlace (a :: l ++ [b; c]) addrs = c :: l.
Proof.
  intros Ha Hc HN. unfold deleteInPlace. set (dels := MarshalBinary <$> addrs) in *. rewrite bool_decide_eq_false_2.
  2: { destruct addrs; [by apply not_elem_of_nil in Ha|unfold zlen; cbn; lia]. }
  assert (∀ z, (z :: l ++ [b; c]) !! S (S (length l)) = Some c) as Ec.
  { intros z. change ((l ++ [b; c]) !! S (length l) = Some c). rewrite lookup_app_r by lia.
    by replace (S (length l) - length l)%nat with 1%nat by lia. }
  assert (∀ z, (z :: l ++ [b; c]) !! S (length l) = Some b) as Eb.
  { intros z. change ((l ++ [b; c]) !! length l = Some b). by apply list_lookup_middle. }
  assert (length (a :: l ++ [b; c]) = S (length l + 1 + 1))%nat as El by (cbn; rewrite length_app; cbn; lia).
  rewrite El. cbn [delete_loop]. change ((a :: l ++ [b; c]) !! 0%nat) with (Some a). cbv iota beta.
  rewrite bool_decide_eq_true_2 by done.
  replace (S (length l + 1 + 1) - 1)%nat with (S (S (length l))) by lia. rewrite bool_decide_eq_false_2 by lia.
  rewrite Ec. change (<[0%nat:=c]> (a :: l ++ [b; c])) with (c :: l ++ [b; c]). rewrite delete_skip.
  2: { intros j x Hj Hx. apply HN. destruct j as [|j]; [lia|]. change ((l ++ [b; c]) !! j = Some x) in Hx.
       replace (l ++ [b; c]) with ((l ++ [b]) ++ [c]) in Hx by by rewrite <- app_assoc.
       rewrite lookup_app_l in Hx by (rewrite length_app; cbn; lia). by eapply list_elem_of_lookup_2. }
  2: { cbn. rewrite length_app. cbn. lia. }
  cbn [delete_loop]. replace (1 + (length l + 1))%nat with (S (S (length l))) by lia.
  rewrite Ec, bool_decide_eq_true_2 by done.
  replace (S (S (length l)) - 1)%nat with (S (length l)) by lia. rewrite bool_decide_eq_false_2 by lia. rewrite Eb.
  change (<[S (S (length l)):=b]> (c :: l ++ [b; c])) with (c :: <[S (length l):=b]> (l ++ [b; c])).
  cbn [take]. f_equal. rewrite insert_app_r_alt by lia. rewrite take_app_le by lia. apply take_ge. lia.
Qed.
End Entries.
