(* ===== verification/PeerDsInv.v ===== *)
(** * The invariant of the datastore's address book

    Every cached record agrees with what the datastore has for its peer, up to the
    addresses that have expired, and is kept sorted; the region of the addresses holds
    nothing but such records under their own keys.  Under a datastore that does not
    fail each operation is then a function of the entries on file. *)

From S2P Require Export PeerDsFacts.

(** ** What is promised of the datastore, the cache and the formats *)

(** No write fails, and what is committed is what the batch says. *)
Class ReliableStore {ds : Datastore} {bt : Batching} : Prop := {
  put_ok k v d : (ds_Put k v d).2 = None;
  put_get k v d k' : ds_Get k' (ds_Put k v d).1 = if decide (k' = k) then inl v else ds_Get k' d;
  delete_ok k d : (ds_Delete k d).2 = None;
  delete_get k d k' : ds_Get k' (ds_Delete k d).1 = if decide (k' = k) then inr ds_ErrNotFound else ds_Get k' d;
  batch_ok d : ds_Batch d = None;
  add_ok o l : batch_Error o l = None;
  commit_ok l d : (ds_Commit l d).2 = None;
  commit_get l d k : ds_Get k (ds_Commit l d).1 = ds_Get k (foldl (λ d o, (write_ds o d).1) d l);
}.

(** A name between the slashes of a key. *)
Definition plain (s : bytes) : Prop := s ≠ [] ∧ x2f ∉ s ∧ s ≠ [x2e] ∧ s ≠ [x2e; x2e].
Definition slashed (l : list bytes) : bytes := concat ((λ s, x2f :: s) <$> l).

(** The names a key is made of. *)
Class KeyLaws {ds : Datastore} {bt : Batching} := {
  Key_names : DsKey → list bytes;
  key_names_inj k k' : Key_names k = Key_names k' → k = k';
  key_names_plain k : Forall plain (Key_names k);
  key_names_new l : Forall plain l → Key_names (NewKey (slashed l)) = l;
  key_names_child k s l : Forall plain l → slashed l = x2f :: s → Key_names (ChildString k s) = Key_names k ++ l;
  key_names_self k : Key_names (ChildString k []) = Key_names k;
  key_name_last k : Key_Name k = default [] (last (Key_names k));
}.

Class FormatLaws {ma : Multiaddrs} {lp : Libp2p} {ft : DsFormats} : Prop := {
  proto_roundtrip r l : r_Addrs r = Some l → l ≠ [] → ∃ w, proto_Marshal r = inl w ∧ proto_Unmarshal w = inl r;
  b32_roundtrip b : b32_Decode (b32_Encode b) = inl b;
  b32_plain b : b ≠ [] → plain (b32_Encode b);
  b32_empty : b32_Encode [] = [];
}.

(** What a cache keeps: it may drop anything at any time, but never makes anything up. *)
Class CacheLaws {K V : Type} `{Countable K} {ca : Cache K V} := {
  contents : CacheT → gmap K V;
  cache_get k c : (cache_Get k c).1 = contents c !! k ∧ contents (cache_Get k c).2 ⊆ contents c;
  cache_add k v c : contents (cache_Add k v c) ⊆ <[k := v]> (contents c);
  cache_remove k c : contents (cache_Remove k c) ⊆ delete k (contents c);
  cache_peek k c : cache_Peek k c = contents c !! k;
}.

#[export] Instance noop_laws {K V} `{Countable K} : CacheLaws (ca := noopCache (K := K) (V := V)).
Proof.
  refine {| contents := λ _ : @CacheT K V noopCache, (∅ : gmap K V) |}; intros; cbn; rewrite ?lookup_empty; try done;
    try split; try done; apply map_empty_subseteq.
Defined.

Section Inv.
Context {ds : Datastore} {bt : Batching} {rs : ReliableStore} {kl : KeyLaws}.
Context {ma : Multiaddrs} {lp : Libp2p} {ft : DsFormats} {fl : FormatLaws}.
Context {ca : Cache PeerID positive} {cl : CacheLaws}.
Context {sort_Slice : list AddrEntry → list AddrEntry} {SL : SortLaw sort_Slice}.
Implicit Types (b : dsAddrBook) (d : DS) (p q : PeerID) (l : positive) (r : addrsRecord).

(** ** Keys *)

Definition base_names : list bytes := [string_bytes "peers"; string_bytes "addrs"].

Lemma base_plain : Forall plain base_names.
Proof. repeat constructor; try (vm_compute; discriminate); vm_compute; intros H; repeat (apply elem_of_cons in H as [H|H]; [discriminate|]); by apply not_elem_of_nil in H. Qed.

Lemma base_key : Key_names addrBookBase = base_names.
Proof. apply (key_names_new base_names base_plain). Qed.

Lemma addr_key_names p : Key_names (addr_key p) = base_names ++ (if decide (p = []) then [] else [b32_Encode p]).
Proof.
  unfold addr_key. case_decide as Hp.
  - subst. by rewrite b32_empty, key_names_self, base_key, app_nil_r.
  - rewrite (key_names_child _ _ [b32_Encode p]); [by rewrite base_key| |cbn; by rewrite app_nil_r].
    constructor; [by apply b32_plain|constructor].
Qed.

Lemma addr_key_inj p q : addr_key p = addr_key q → p = q.
Proof.
  intros E. assert (Key_names (addr_key p) = Key_names (addr_key q)) as E2 by by rewrite E.
  rewrite !addr_key_names in E2. apply app_inv_head in E2.
  destruct (decide (p = [])) as [->|Hp], (decide (q = [])) as [->|Hq]; try done. injection E2 as E2.
  pose proof (b32_roundtrip p) as Rp. rewrite E2, b32_roundtrip in Rp. by injection Rp.
Qed.

(** The keys of the addresses. *)
Definition region (k : DsKey) : Prop := base_names `prefix_of` Key_names k.
Lemma region_addr p : region (addr_key p).
Proof. unfold region. rewrite addr_key_names. by eexists. Qed.

(** ** The entries on file *)

Definition entries_of (w : bytes) : list AddrEntry :=
  match proto_Unmarshal w with inl r => default [] (r_Addrs r) | inr _ => [] end.
Definition stored d p : list AddrEntry := match ds_Get (addr_key p) d with inl w => entries_of w | inr _ => [] end.

(** Those that are to be served at a time. *)
Definition served (T : Z) b p : list AddrEntry := live T (stored (db_ds b) p).

Definition store_ok d : Prop := ∀ k, region k → ds_Get k d = inr ds_ErrNotFound ∨
  ∃ w x, ds_Get k d = inl w ∧ proto_Unmarshal w = inl x ∧ k = addr_key (Id x) ∧ sorted (default [] (r_Addrs x)).

(** A record that agrees with its peer's entries. *)
Record coherent (T : Z) d p r : Prop := {
  co_Id : Id (pb r) = p;
  co_clean : dirty r = false;
  co_sorted : sorted (Addrs_of r);
  co_live : live T (Addrs_of r) = live T (stored d p);
}.

Record Inv (T : Z) b : Prop := {
  inv_store : store_ok (db_ds b);
  inv_cache p l : contents (db_cache b) !! p = Some l → ∃ r, db_heap b !! l = Some r ∧ coherent T (db_ds b) p r;
}.

(** The pointer is the only one to the peer's record, and to no other's. *)
Definition owns p l b : Prop := ∀ q l', contents (db_cache b) !! q = Some l' → (q = p ↔ l' = l).

(** What operations on records leave alone. *)
Definition framed b b' : Prop :=
  db_subs b' = db_subs b ∧ currWindowEnd b' = currWindowEnd b ∧ running b' = running b.

Lemma coherent_later T T' d p r : T ≤ T' → coherent T d p r → coherent T' d p r.
Proof. intros Hle [HI HD HS HL]. constructor; try done. by rewrite <- (live_live T T'), HL, live_live. Qed.

Lemma Inv_later T T' b : T ≤ T' → Inv T b → Inv T' b.
Proof.
  intros Hle [HS HC]. constructor; [done|]. intros p l Hl. destruct (HC p l Hl) as (r & E & Hr).
  exists r. split; [done|]. by eapply coherent_later.
Qed.

Lemma served_later T T' b p : T ≤ T' → live T' (served T b p) = served T' b p.
Proof. intros. by apply live_live. Qed.

Lemma Inv_held T b p q l : Inv T b → contents (db_cache b) !! p = Some l → contents (db_cache b) !! q = Some l → p = q.
Proof.
  intros [_ HC] Hp Hq. destruct (HC p l Hp) as (r & E & Hr), (HC q l Hq) as (r' & E' & Hr').
  rewrite E in E'. injection E' as <-. by rewrite <- (co_Id _ _ _ _ Hr), <- (co_Id _ _ _ _ Hr').
Qed.

Lemma stored_sorted d p : store_ok d → sorted (stored d p).
Proof.
  intros HS. unfold stored. destruct (HS (addr_key p) (region_addr p)) as [->|(w & r & -> & EU & _ & HR)]; [constructor|].
  unfold entries_of. by rewrite EU.
Qed.

(** Changing the record of one peer, in memory and on file. *)
Lemma Inv_update T b l r p d :
  Inv T b → owns p l b → store_ok d → (∀ q, q ≠ p → stored d q = stored (db_ds b) q) → coherent T d p r →
  Inv T (with_ds d (with_heap (<[l := r]> (db_heap b)) b)).
Proof.
  intros [HS HC] HO Hd Hq Hr. constructor; [done|]. cbn. intros q l' Hl'.
  destruct (decide (q = p)) as [->|Hne].
  - assert (l' = l) as -> by by apply (HO p l'). exists r. by rewrite lookup_insert_eq.
  - destruct (HC q l' Hl') as (r' & E & Hr'). exists r'. rewrite lookup_insert_ne by (intros <-; apply Hne; by apply (HO q l)).
    split; [done|]. destruct Hr' as [? ? ? HL]. constructor; try done. by rewrite HL, Hq.
Qed.

Lemma Inv_cache_less T b c : Inv T b → contents c ⊆ contents (db_cache b) → Inv T (with_cache c b).
Proof. intros [HS HC] Hc. constructor; [done|]. cbn. intros p l Hl. apply HC. by eapply lookup_weaken. Qed.

(** ** Writing a record *)

Lemma flush_spec r d :
  store_ok d → sorted (Addrs_of r) →
  ∃ d', flush write_ds r d = (with_dirty false r, d', None) ∧ store_ok d' ∧
    ∀ q, stored d' q = if decide (q = Id (pb r)) then Addrs_of r else stored d q.
Proof.
  intros HS Hr. unfold flush. set (k := addr_key (Id (pb r))).
  assert (∀ d' (v : option bytes), (∀ k', ds_Get k' d' = if decide (k' = k) then match v with Some w => inl w | None => inr ds_ErrNotFound end else ds_Get k' d) →
    (match v with Some w => proto_Unmarshal w = inl (pb r) | None => Addrs_of r = [] end) →
    store_ok d' ∧ ∀ q, stored d' q = if decide (q = Id (pb r)) then Addrs_of r else stored d q) as HW.
  { intros d' v HG Hv. split.
    - intros k' Hk'. rewrite HG. case_decide as Hkk; [|by apply HS]. destruct v as [w|]; [|by left].
      right. exists w, (pb r). by rewrite Hkk.
    - intros q. unfold stored. rewrite HG. destruct (decide (q = Id (pb r))) as [->|Hq].
      + rewrite decide_True by done. destruct v as [w|]; [|done]. unfold entries_of. by rewrite Hv.
      + rewrite decide_False; [done|]. intros E. by apply Hq, addr_key_inj. }
  case_bool_decide as Hz; cbn [write_ds].
  - assert (Addrs_of r = []) as E by (destruct (Addrs_of r); [done|by unfold zlen in Hz]).
    pose proof (delete_ok k d) as HE. pose proof (delete_get k d) as HG. destruct (ds_Delete k d) as [d' e]. cbn in HE, HG. subst e.
    exists d'. split; [done|]. by apply (HW d' None).
  - unfold Addrs_of in Hz. destruct (r_Addrs (pb r)) as [s|] eqn:Es; [|done].
    destruct (proto_roundtrip (pb r) s Es) as (w & EM & EU); [by intros ->|]. rewrite EM.
    pose proof (put_ok k w d) as HE. pose proof (put_get k w d) as HG. destruct (ds_Put k w d) as [d' e]. cbn in HE, HG. subst e.
    exists d'. split; [done|]. by apply (HW d' (Some w)).
Qed.

Lemma clean_at_run now l b r chgd r' :
  db_heap b !! l = Some r → clean sort_Slice now r = (chgd, r') →
  clean_at sort_Slice now l b = Ret (chgd, with_heap (<[l := r']> (db_heap b)) b).
Proof.
  intros E EC. unfold clean_at. rewrite (bind_run _ _ b r b) by (unfold record_at; by rewrite E). cbn beta. by rewrite EC.
Qed.

Lemma flush_at_run l b r d' :
  db_heap b !! l = Some r → flush write_ds r (db_ds b) = (with_dirty false r, d', None) →
  flush_at l b = Ret (None, with_ds d' (with_heap (<[l := with_dirty false r]> (db_heap b)) b)).
Proof.
  intros E EF. unfold flush_at. rewrite (bind_run _ _ b r b) by (unfold record_at; by rewrite E). cbn beta.
  change ((get ≫= ?f) b) with (f b b). cbn beta. by rewrite EF.
Qed.

(** A changed record is sorted, rid of what has expired, and written. *)
Lemma settle_spec T now b l r p :
  Inv T b → T ≤ now → owns p l b → Id (pb r) = p → dirty r = true →
  ∃ b', (store_record l r ;; _ ← clean_at sort_Slice now l; flush_at l) b = Ret (None, b') ∧ Inv now b' ∧ framed b b' ∧
    ∀ q, served now b' q = if decide (q = p) then live now (sort_Slice (Addrs_of r)) else served now b q.
Proof.
  intros HI Hle HO Ep HD. pose proof (Inv_later _ _ _ Hle HI) as HI'.
  unfold store_record. rewrite (bind_run _ _ b tt (with_heap (<[l := r]> (db_heap b)) b)) by done.
  destruct (clean sort_Slice now r) as [chgd r'] eqn:EC.
  destruct (clean_spec now r chgd r' ltac:(by rewrite HD) EC) as (EA & EI & ED & _ & _ & _).
  rewrite (bind_run _ _ _ _ _ (clean_at_run now l _ r chgd r' (lookup_insert_eq _ _ _) EC)). cbn [db_heap with_heap].
  rewrite insert_insert_eq. assert (ordered (sort_Slice := sort_Slice) r = sort_Slice (Addrs_of r)) as EO by (unfold ordered; by rewrite HD).
  rewrite EO in EA. assert (sorted (Addrs_of r')) as HSr by (rewrite EA; apply sorted_live, sort_sorted).
  destruct (flush_spec r' (db_ds b) (inv_store _ _ HI') HSr) as (d' & EF & Hd' & Hst).
  set (b1 := with_heap (<[l := r']> (db_heap b)) b).
  match goal with |- ∃ b', flush_at l ?s = _ ∧ _ => change s with b1 end.
  rewrite (flush_at_run l b1 r' d'); [|apply lookup_insert_eq|done]. eexists. split; [done|].
  unfold b1. cbn [with_ds with_heap db_heap db_ds db_cache db_subs currWindowEnd running]. rewrite insert_insert_eq.
  assert (∀ q, stored d' q = if decide (q = p) then live now (sort_Slice (Addrs_of r)) else stored (db_ds b) q) as Hst'.
  { intros q. rewrite Hst, EI, Ep, EA. done. }
  split; [|split; [done|]].
  - apply (Inv_update now b l (with_dirty false r') p d'); try done; [intros q Hq; by rewrite Hst', decide_False|].
    constructor; [cbn; congruence|done|done|]. change (Addrs_of (with_dirty false r')) with (Addrs_of r').
    by rewrite Hst', decide_True, EA.
  - intros q. unfold served. cbn. rewrite Hst'. case_decide; [|done]. by rewrite live_live.
Qed.

(** ** Reading a record *)

(** The pointer to a record with the entries to be served, which are what they were. *)
Record loads (now : Z) p l b b' : Prop := {
  ld_Inv : Inv now b';
  ld_owns : owns p l b';
  ld_framed : framed b b';
  ld_served q : served now b' q = served now b q;
  ld_record : ∃ r, db_heap b' !! l = Some r ∧ coherent now (db_ds b') p r ∧ Addrs_of r = served now b p;
}.

Lemma framed_trans b1 b2 b3 : framed b1 b2 → framed b2 b3 → framed b1 b3.
Proof. intros (? & ? & ?) (? & ? & ?). split_and!; congruence. Qed.

Lemma tidy_spec u T now b l r p :
  Inv T b → T ≤ now → owns p l b → db_heap b !! l = Some r → coherent T (db_ds b) p r →
  ∃ b', tidy sort_Slice u now l b = Ret (None, b') ∧ loads now p l b b' ∧ db_cache b' = db_cache b.
Proof.
  intros HI Hle HO E HR. pose proof (Inv_later _ _ _ Hle HI) as HI'. pose proof (coherent_later _ _ _ _ _ Hle HR) as HR'.
  destruct (clean sort_Slice now r) as [chgd r'] eqn:EC.
  destruct (clean_spec now r chgd r' ltac:(by intros; apply HR) EC) as (EA & EI & ED & _ & _ & _).
  unfold ordered in EA. rewrite (co_clean _ _ _ _ HR) in EA, ED.
  assert (Addrs_of r' = served now b p) as EA'. { rewrite EA. apply HR'. }
  assert (sorted (Addrs_of r')) as HSr by (rewrite EA; apply sorted_live, HR).
  unfold tidy. rewrite (bind_run _ _ _ _ _ (clean_at_run now l b r chgd r' E EC)). set (b1 := with_heap _ b).
  assert (db_heap b1 !! l = Some r') as E1 by apply lookup_insert_eq.
  assert (coherent now (db_ds b) p r') as HR1.
  { constructor; [rewrite EI; apply HR|done|done|]. rewrite EA'. unfold served. by rewrite live_live. }
  destruct (chgd && u).
  - destruct (flush_spec r' (db_ds b1) (inv_store _ _ HI') HSr) as (d' & EF & Hd' & Hst).
    rewrite (flush_at_run l b1 r' d' E1 EF). eexists. split; [done|]. cbn [with_ds with_heap db_heap db_ds db_cache].
    unfold b1. cbn [with_ds with_heap db_heap db_ds db_cache db_subs currWindowEnd running]. rewrite insert_insert_eq.
    assert (∀ q, stored d' q = if decide (q = p) then Addrs_of r' else stored (db_ds b) q) as Hst'.
    { intros q. rewrite Hst, EI, (co_Id _ _ _ _ HR). done. }
    assert (coherent now d' p (with_dirty false r')) as HR2.
    { constructor; [cbn; rewrite EI; apply HR|done|done|]. rewrite Hst', decide_True by done. done. }
    split; [|done]. constructor; try done.
    + apply (Inv_update now b l (with_dirty false r') p d'); try done. intros q Hq. by rewrite Hst', decide_False.
    + intros q. unfold served. cbn. rewrite Hst'. case_decide as Hq; [|done]. subst q. rewrite EA'. unfold served. by rewrite live_live.
    + exists (with_dirty false r'). split; [apply lookup_insert_eq|]. by split.
  - exists b1. split; [done|]. split; [|done]. constructor; try done.
    + apply (Inv_update now b l r' p (db_ds b)); try done. apply HI.
    + exists r'. by split_and!.
Qed.

Lemma add_loads p l b b0 now :
  (∀ q l', contents (db_cache b0) !! q = Some l' → l' ≠ l) → contents (db_cache b0) !! p = None → db_cache b = db_cache b0 →
  loads now p l b0 b → loads now p l b0 (with_cache (cache_Add p l (db_cache b)) b).
Proof.
  intros Hl Hp Ec [HI HO HF HS (r & E & HR & HA)]. rewrite Ec.
  assert (∀ q l', contents (cache_Add p l (db_cache b0)) !! q = Some l' →
    q = p ∧ l' = l ∨ q ≠ p ∧ contents (db_cache b0) !! q = Some l') as Hadd.
  { intros q l' Hq. pose proof (lookup_weaken _ _ _ _ Hq (cache_add p l (db_cache b0))) as Hq'.
    apply lookup_insert_Some in Hq' as [[<- <-]|[? ?]]; [by left|right; by split]. }
  constructor; try done.
  - constructor; [apply HI|]. cbn. intros q l' [[-> ->]|[Hq Hl']]%Hadd; [by exists r|]. apply HI. by rewrite Ec.
  - intros q l' [[-> ->]|[Hq Hl']]%Hadd; [done|]. split; [done|]. intros ->. by eapply Hl in Hl'.
  - by exists r.
Qed.

Lemma loadRecord_spec T now p cached update b : Inv T b → T ≤ now →
  ∃ l b', loadRecord sort_Slice now p cached update b = Ret (inl l, b') ∧ loads now p l b b'.
Proof.
  intros HI Hle. unfold loadRecord. destruct (cache_get p (db_cache b)) as [Eg Hg].
  destruct (cache_Get p (db_cache b)) as [hit c] eqn:EG. cbn [fst snd] in Eg, Hg.
  rewrite (bind_run _ _ b hit (with_cache c b)) by (unfold Cache_Get; by rewrite EG).
  pose proof (Inv_cache_less _ _ _ HI Hg) as HI1. set (b1 := with_cache c b) in *.
  assert (∀ q l', contents c !! q = Some l' → contents (db_cache b) !! q = Some l') as Hw.
  { intros q l' Hq. by eapply lookup_weaken. }
  destruct hit as [l|].
  - symmetry in Eg. destruct (inv_cache _ _ HI p l Eg) as (r & E & HR).
    assert (owns p l b1) as HO.
    { intros q l' Hq%Hw. split; [intros ->; rewrite Eg in Hq; by injection Hq|]. intros ->. by apply (Inv_held T b q p l). }
    destruct (tidy_spec update T now b1 l r p HI1 Hle HO E HR) as (b' & ET & HL & _). exists l, b'.
    rewrite (bind_run _ _ _ _ _ ET). split; [done|]. destruct HL. by constructor.
  - symmetry in Eg. change ((get ≫= ?f) b1) with (f b1 b1). cbn beta. set (l := fresh (dom (db_heap b))).
    assert (∀ q l', contents c !! q = Some l' → l' ≠ l) as Hfresh.
    { intros q l' Hq%Hw ->. destruct (inv_cache _ _ HI q l Hq) as (r & E & _).
      apply (is_fresh (dom (db_heap b))). apply elem_of_dom. by exists r. }
    assert (contents c !! p = None) as Ep.
    { destruct (contents c !! p) as [l'|] eqn:E; [|done]. apply Hw in E. congruence. }
    assert (∀ r, coherent T (db_ds b) p r → ∃ b', tidy sort_Slice update now l (with_heap (<[l := r]> (db_heap b1)) b1) = Ret (None, b') ∧
      loads now p l b1 b' ∧ db_cache b' = c) as Htidy.
    { intros r HR. assert (owns p l b1) as HO by (intros q l' Hq; split; intros Heq; [rewrite Heq in Hq; cbn in Hq; congruence|by apply Hfresh in Hq]).
      destruct (tidy_spec update T now (with_heap (<[l := r]> (db_heap b1)) b1) l r p) as (b' & ET & [] & EC'); try done.
      - by apply (Inv_update T b1 l r p (db_ds b1)); [| |apply HI1|..].
      - apply lookup_insert_eq.
      - exists b'. split; [done|]. split; [by constructor|done]. }
    assert (∀ b', loads now p l b1 b' ∧ db_cache b' = c →
      ∃ l' b2, ((if cached then updB (λ b, with_cache (cache_Add p l (db_cache b)) b) else mret tt) ;;
                mret (inl l : positive + error)) b' = Ret (inl l', b2) ∧ loads now p l' b b2) as Hadd.
    { intros b' [HL Ec]. destruct cached.
      - eexists l, _. split; [done|]. assert (loads now p l b1 (with_cache (cache_Add p l (db_cache b')) b')) as HL2 by by apply add_loads.
        destruct HL2; by constructor.
      - exists l, b'. split; [done|]. destruct HL; by constructor. }
    change (db_ds b1) with (db_ds b).
    destruct (inv_store _ _ HI (addr_key p) (region_addr p)) as [Ed|(w & x & Ed & EU & Ek & HSx)]; rewrite Ed.
    + rewrite decide_True by done. set (r := MkAddrs (MkRecord p None None) false).
      assert (coherent T (db_ds b) p r) as HR by (constructor; try done; [constructor|cbn; unfold stored; by rewrite Ed]).
      rewrite (bind_run _ _ b1 l (with_heap (<[l := r]> (db_heap b1)) b1)) by done. cbn beta.
      apply Hadd. split; [|done]. assert (owns p l b1) as HO by (intros q l' Hq; split; intros Heq; [rewrite Heq in Hq; cbn in Hq; congruence|by apply Hfresh in Hq]).
      pose proof (Inv_later _ _ _ Hle HI1) as HI2. pose proof (coherent_later _ _ _ _ _ Hle HR) as HR2.
      constructor; try done; [by apply (Inv_update now b1 l r p (db_ds b1)); [| |apply HI2|..]|].
      exists r. split; [apply lookup_insert_eq|]. split; [done|]. unfold served, stored. change (db_ds b1) with (db_ds b). by rewrite Ed.
    + rewrite EU. apply addr_key_inj in Ek. set (r := MkAddrs x false).
      assert (coherent T (db_ds b) p r) as HR by (constructor; try done; cbn; unfold stored, entries_of; by rewrite Ed, EU).
      destruct (Htidy r HR) as (b' & ET & HL).
      rewrite (bind_run _ _ b1 l (with_heap (<[l := r]> (db_heap b1)) b1)) by done. cbn beta.
      rewrite (bind_run _ _ _ _ _ ET). cbn [loaded]. by apply Hadd.
Qed.
End Inv.
