(* ===== verification/PeerDsSteps.v ===== *)
(** * The operations of the datastore's address book, as functions of the entries on file

    Each call returns, keeps the invariant, and changes the entries that are served as
    [plain_step] says, which knows neither of a cache nor of records. *)

From S2P Require Export PeerDsInv.

Section Steps.
Context {ds : Datastore} {bt : Batching} {rs : ReliableStore} {kl : KeyLaws}.
Context {ma : Multiaddrs} {lp : Libp2p} {ft : DsFormats} {fl : FormatLaws}.
Context {ca : Cache PeerID positive} {cl : CacheLaws}.
Context (sort_Slice : list AddrEntry → list AddrEntry) {SL : SortLaw sort_Slice} (late : positive → bool).
Implicit Types (b : dsAddrBook) (d : DS) (p q : PeerID) (l : positive) (r : addrsRecord) (clk : nat → Z).

(** The entries on file, by peer. *)
Abbreviation Plain := (PeerID → list AddrEntry).

Definition at_peer p (f : list AddrEntry → list AddrEntry) (L : Plain) : Plain := λ q, if decide (q = p) then f (L q) else L q.

Definition plain_set clk p (mode : ttlWriteMode) (ttl : Z) (addrs : list Multiaddr) (l : list AddrEntry) : list AddrEntry :=
  if bool_decide (addrs = []) then l
  else sort_Slice (set_entries p mode ttl (Unix (clk 1%nat + ttl)) addrs (live (clk 0%nat) l)).
Definition plain_delete clk (addrs : list Multiaddr) (l : list AddrEntry) : list AddrEntry :=
  sort_Slice (deleteInPlace (live (clk 0%nat) l) addrs).
Definition plain_update clk (oldTTL newTTL : Z) (l : list AddrEntry) : list AddrEntry :=
  let l := live (clk 0%nat) l in
  if existsb (λ e, bool_decide (Ttl e = oldTTL)) l
  then sort_Slice (update_ttl oldTTL newTTL (Unix (clk 1%nat + newTTL)) <$> l) else l.

(** What a call makes of the entries: they are those at [T], and what they become is
    served at [T']. *)
Definition becomes (T T' : Z) b b' (f : Plain → Plain) : Prop :=
  Inv T' b' ∧ ∀ q, served T' b' q = live T' (f (served T b) q).

Lemma becomes_weaken T T1 T2 b b' f : T1 ≤ T2 → becomes T T1 b b' f → becomes T T2 b b' f.
Proof.
  intros Hle [HI HS]. split; [by eapply Inv_later|]. intros q. rewrite <- (served_later T1 T2) by done. by rewrite HS, live_live.
Qed.

Lemma becomes_same T T' b b' : T ≤ T' → Inv T' b' → (∀ q, served T' b' q = served T' b q) → becomes T T' b b' (λ L, L).
Proof. intros Hle HI HS. split; [done|]. intros q. rewrite HS. unfold served. by rewrite live_live. Qed.

Lemma served_live T now b p : T ≤ now → served now b p = live now (served T b p).
Proof. intros. unfold served. by rewrite live_live. Qed.

(** The end of a change: the record as it was changed is settled. *)
Lemma change_spec T now now' b b1 b2 l r p f :
  T ≤ now → now ≤ now' → loads now p l b b1 → (∃ mgr, b2 = with_subs mgr b1) → Id (pb r) = p → dirty r = true →
  sort_Slice (Addrs_of r) = f (served T b p) →
  ∃ b', (store_record l r ;; _ ← clean_at sort_Slice now' l; flush_at l) b2 = Ret (None, b') ∧ becomes T now' b b' (at_peer p f).
Proof.
  intros HT Hle [HI HO HF HS _] [mgr ->] Ep HD EA.
  assert (Inv now (with_subs mgr b1)) as HI2 by (destruct HI; by constructor).
  destruct (settle_spec now now' (with_subs mgr b1) l r p HI2 Hle HO Ep HD) as (b' & E & HI' & _ & HS').
  exists b'. split; [exact E|]. split; [done|]. intros q. rewrite HS'. unfold at_peer. case_decide as Hq.
  - subst q. by rewrite EA.
  - change (served now' (with_subs mgr b1) q) with (served now' b1 q). rewrite (served_live now now') by done. rewrite HS.
    unfold served. by rewrite !live_live by lia.
Qed.

Lemma setAddrs_spec T clk p addrs ttl mode signed b :
  Inv T b → T ≤ clk 0%nat → clk 0%nat ≤ clk 2%nat →
  ∃ b', setAddrs sort_Slice late clk p addrs ttl mode signed b = Ret (None, b') ∧
    becomes T (clk 2%nat) b b' (at_peer p (plain_set clk p mode ttl addrs)).
Proof.
  intros HI HT Hle. unfold setAddrs. destruct addrs as [|a addrs].
  { exists b. split; [done|]. split; [eapply Inv_later, HI; lia|]. intros q. unfold at_peer, plain_set. cbn [bool_decide decide_rel].
    rewrite (served_live T) by lia. by case_decide; rewrite ?bool_decide_eq_true_2 by done. }
  set (inc := a :: addrs). rewrite bool_decide_eq_false_2 by (unfold zlen; cbn; lia).
  destruct (loadRecord_spec (sort_Slice := sort_Slice) T (clk 0%nat) p true false b HI HT) as (l & b1 & E1 & HL).
  rewrite (bind_run _ _ _ _ _ E1). cbn beta iota. destruct (ld_record _ _ _ _ _ HL) as (r & E & HR & EA).
  rewrite (bind_run _ _ b1 r b1) by (unfold record_at; by rewrite E). cbn beta.
  change ((get ≫= ?f) b1) with (f b1 b1). cbn beta zeta.
  destruct (set_loop late p mode ttl (Unix (clk 1%nat + ttl)) (addrsMap (Addrs_of r)) inc (Addrs_of r) [] (db_subs b1))
    as [[old entries] mgr] eqn:ES.
  rewrite (bind_run _ _ b1 tt (with_subs mgr b1)) by done.
  eapply (change_spec T (clk 0%nat) (clk 2%nat) b b1); try done; [by eexists|apply HR|].
  unfold plain_set. rewrite bool_decide_eq_false_2 by done. f_equal. change (old ++ entries = set_entries p mode ttl (Unix (clk 1%nat + ttl)) inc (live (clk 0%nat) (served T b p))).
  rewrite <- (served_live T) by done. rewrite <- EA. unfold set_entries.
  rewrite (set_loop_lists (λ _, true) late p mode ttl _ _ inc _ _ (MkSubManager ∅ ∅) (db_subs b1)). by rewrite ES.
Qed.

Lemma deleteAddrs_spec T clk p addrs b :
  Inv T b → T ≤ clk 0%nat → clk 0%nat ≤ clk 1%nat →
  ∃ b', deleteAddrs sort_Slice clk p addrs b = Ret (None, b') ∧
    becomes T (clk 1%nat) b b' (at_peer p (plain_delete clk addrs)).
Proof.
  intros HI HT Hle. unfold deleteAddrs.
  destruct (loadRecord_spec (sort_Slice := sort_Slice) T (clk 0%nat) p false false b HI HT) as (l & b1 & E1 & HL).
  rewrite (bind_run _ _ _ _ _ E1). cbn beta iota. destruct (ld_record _ _ _ _ _ HL) as (r & E & HR & EA).
  rewrite (bind_run _ _ b1 r b1) by (unfold record_at; by rewrite E). cbn beta.
  destruct (r_Addrs (pb r)) as [s|] eqn:Es.
  - eapply (change_spec T (clk 0%nat) (clk 1%nat) b b1); try done; [by exists (db_subs b1); destruct b1|apply HR|].
    unfold plain_delete. rewrite <- (served_live T) by done. rewrite <- EA. unfold Addrs_of at 2. by rewrite Es.
  - exists b1. split; [done|]. assert (served (clk 0%nat) b p = []) as E0 by (rewrite <- EA; unfold Addrs_of; by rewrite Es).
    split; [eapply Inv_later, HL; done|]. intros q. rewrite (served_live (clk 0%nat)) by done. rewrite (ld_served _ _ _ _ _ HL).
    unfold at_peer. case_decide as Hq.
    + subst q. unfold plain_delete. rewrite <- (served_live T) by done. rewrite E0.
      assert (deleteInPlace [] addrs = []) as -> by (unfold deleteInPlace; by case_bool_decide).
      by rewrite (sort_short (SL := SL)) by (cbn; lia).
    + unfold served. by rewrite !live_live by lia.
Qed.

Lemma update_none oldTTL newTTL newExp (l : list AddrEntry) :
  existsb (λ e, bool_decide (Ttl e = oldTTL)) l = false → update_ttl oldTTL newTTL newExp <$> l = l.
Proof.
  induction l as [|e l IH]; cbn; [done|]. intros [He Hl]%orb_false_iff. apply bool_decide_eq_false in He.
  rewrite IH by done. unfold update_ttl. by rewrite bool_decide_eq_true_2.
Qed.

Lemma UpdateAddrs_spec T clk p oldTTL newTTL b :
  Inv T b → T ≤ clk 0%nat → clk 0%nat ≤ clk 2%nat →
  ∃ b', UpdateAddrs sort_Slice clk p oldTTL newTTL b = Ret (tt, b') ∧
    becomes T (clk 2%nat) b b' (at_peer p (plain_update clk oldTTL newTTL)).
Proof.
  intros HI HT Hle. unfold UpdateAddrs.
  destruct (loadRecord_spec (sort_Slice := sort_Slice) T (clk 0%nat) p true false b HI HT) as (l & b1 & E1 & HL).
  rewrite (bind_run _ _ _ _ _ E1). cbn beta iota. destruct (ld_record _ _ _ _ _ HL) as (r & E & HR & EA).
  rewrite (bind_run _ _ b1 r b1) by (unfold record_at; by rewrite E). cbn beta zeta.
  rewrite (co_clean _ _ _ _ HR). cbn [orb]. set (newExp := Unix (clk 1%nat + newTTL)).
  set (s' := (λ s : list AddrEntry, update_ttl oldTTL newTTL newExp <$> s) <$> r_Addrs (pb r)).
  assert (default [] s' = update_ttl oldTTL newTTL newExp <$> Addrs_of r) as Es' by (unfold s', Addrs_of; by destruct (r_Addrs (pb r))).
  destruct (existsb (λ e, bool_decide (Ttl e = oldTTL)) (Addrs_of r)) eqn:Ex.
  - set (r' := MkAddrs _ true).
    destruct (change_spec T (clk 0%nat) (clk 2%nat) b b1 b1 l r' p (plain_update clk oldTTL newTTL)) as (b' & E2 & HB); try done;
      [by exists (db_subs b1); destruct b1|apply HR|..].
    { unfold plain_update. rewrite <- (served_live T) by done. rewrite <- EA, Ex. f_equal. exact Es'. }
    exists b'. split; [|done]. unfold store_record in *.
    set (b2 := with_heap (<[l := r']> (db_heap b1)) b1).
    rewrite (bind_run _ _ b1 tt b2) by done. rewrite (bind_run _ _ b1 tt b2) in E2 by done.
    unfold tidy. destruct (clean sort_Slice (clk 2%nat) r') as [chgd r2] eqn:EC.
    assert (chgd = true) as -> by by apply (clean_spec (clk 2%nat) r' chgd r2 ltac:(done) EC).
    pose proof (clean_at_run (sort_Slice := sort_Slice) (clk 2%nat) l b2 r' true r2 (lookup_insert_eq _ _ _) EC) as E3.
    rewrite (bind_run _ _ _ _ _ E3) in E2. rewrite <- bind_assoc, (bind_run _ _ _ _ _ E3). cbn [andb].
    by rewrite (bind_run _ _ _ _ _ E2).
  - set (r' := MkAddrs _ false).
    assert (Addrs_of r' = Addrs_of r) as Er by (unfold r', Addrs_of at 1; cbn [pb r_Addrs]; rewrite Es'; by apply update_none).
    assert (coherent (clk 0%nat) (db_ds b1) p r') as HR'.
    { destruct HR as [? ? ? ?]. constructor; try done; by rewrite Er. }
    unfold store_record. set (b2 := with_heap (<[l := r']> (db_heap b1)) b1). rewrite (bind_run _ _ b1 tt b2) by done.
    assert (Inv (clk 0%nat) b2) as HI2.
    { apply (Inv_update (clk 0%nat) b1 l r' p (db_ds b1)); try done; apply HL. }
    destruct (tidy_spec (sort_Slice := sort_Slice) true (clk 0%nat) (clk 2%nat) b2 l r' p HI2 Hle) as (b' & E3 & HL' & _);
      [apply HL|apply lookup_insert_eq|done|].
    exists b'. rewrite (bind_run _ _ _ _ _ E3). split; [done|]. split; [apply HL'|]. intros q. rewrite (ld_served _ _ _ _ _ HL').
    change (served (clk 2%nat) b2 q) with (served (clk 2%nat) b1 q). rewrite (served_live (clk 0%nat)) by done.
    rewrite (ld_served _ _ _ _ _ HL). unfold at_peer. case_decide as Hq.
    + subst q. unfold plain_update. rewrite <- (served_live T) by done. by rewrite <- EA, Ex.
    + unfold served. by rewrite !live_live by lia.
Qed.

Lemma ClearAddrs_spec T p b : Inv T b →
  ∃ b', ClearAddrs p b = Ret (tt, b') ∧ becomes T T b b' (at_peer p (λ _, [])).
Proof.
  intros HI. eexists. split; [done|]. cbn [db_ds with_cache]. set (d' := (ds_Delete (addr_key p) (db_ds b)).1).
  assert (∀ q, stored d' q = if decide (q = p) then [] else stored (db_ds b) q) as Hst.
  { intros q. unfold stored, d'. rewrite delete_get. destruct (decide (q = p)) as [->|Hq]; [by rewrite decide_True by done|].
    rewrite decide_False; [done|]. intros Hk. by apply addr_key_inj in Hk. }
  split.
  - constructor; cbn.
    + intros k Hk. unfold d'. rewrite delete_get. case_decide; [by left|]. by apply HI.
    + intros q l Hl. pose proof (lookup_weaken _ _ _ _ Hl (cache_remove p (db_cache b))) as [Hq Hl']%lookup_delete_Some.
      destruct (inv_cache _ _ HI q l Hl') as (r & E & [? ? ? HLv]). exists r. split; [done|]. constructor; try done.
      by rewrite HLv, Hst, decide_False by done.
  - intros q. unfold served, at_peer. cbn. rewrite Hst. case_decide; [done|]. by rewrite live_live by done.
Qed.

Lemma Addrs_spec T now p b : Inv T b → T ≤ now →
  ∃ b', Addrs sort_Slice now p b
    = Ret (default [] (mapM (λ a, NewMultiaddrBytes (ae_Addr a)) (live now (served T b p))), b') ∧ becomes T now b b' (λ L, L).
Proof.
  intros HI HT. unfold Addrs.
  destruct (loadRecord_spec (sort_Slice := sort_Slice) T now p true true b HI HT) as (l & b1 & E1 & HL).
  rewrite (bind_run _ _ _ _ _ E1). cbn beta iota. destruct (ld_record _ _ _ _ _ HL) as (r & E & HR & EA).
  rewrite (bind_run _ _ b1 r b1) by (unfold record_at; by rewrite E). exists b1. rewrite EA, (served_live T) by done.
  split; [done|]. by apply becomes_same; [|apply HL..].
Qed.
End Steps.
