(* ===== verification/PeerDsGc.v ===== *)
(** * Collecting garbage in the datastore's address book

    A collection changes nothing that is served: whatever waits in its batch writes a
    peer's own entries, less some that have expired, or is outside the region of the
    addresses. *)

From S2P Require Export PeerDsInv.

(** Queries find what is below their prefix. *)
Class QueryLaws {ds : Datastore} {bt : Batching} {kl : KeyLaws} : Prop := {
  query_below prefix d l k : ds_Query prefix d = inl l → k ∈ l → Key_names prefix `prefix_of` Key_names k;
  query_ordered cmp prefix d l k : ds_QueryOrdered cmp prefix d = inl l → k ∈ l → Key_names prefix `prefix_of` Key_names k;
  query_entries prefix d l k v : ds_QueryEntries prefix d = inl l → (k, v) ∈ l →
    Key_names prefix `prefix_of` Key_names k ∧ ds_Get k d = inl v;
}.

Section Keys.
Context {ds : Datastore} {bt : Batching} {kl : KeyLaws}.

(** Numbers are names. *)
Definition numeral (b : byte) : Prop := b ≠ x2f ∧ b ≠ x2e.

Lemma uint_numeral d : Forall numeral (String.list_byte_of_string (DecimalString.NilEmpty.string_of_uint d)).
Proof. unfold numeral. induction d; cbn; constructor; (done || by split). Qed.

Lemma Sprintd_plain z : plain (Sprintd z).
Proof.
  assert (Forall numeral (Sprintd z) ∧ Sprintd z ≠ []) as [HF Hne].
  { unfold Sprintd. destruct (Z.to_int z) as [d|d]; destruct d; cbn; (split; [|done]);
      repeat first [apply uint_numeral|apply Forall_cons_2; [by split|]|apply Forall_nil_2]. }
  assert (∀ b, b ∈ Sprintd z → numeral b) as HN by (by apply Forall_forall).
  split; [done|]. split; [intros [H _]%HN; done|]. split; intros E; rewrite E in HN; destruct (HN x2e (list_elem_of_here _ _)) as [_ H]; by apply H.
Qed.

Definition gc_names : list bytes := [string_bytes "peers"; string_bytes "gc"; string_bytes "addrs"].

Lemma gc_base_names : Key_names gcLookaheadBase = gc_names.
Proof.
  apply (key_names_new gc_names).
  repeat constructor; try (vm_compute; discriminate); vm_compute; intros H;
    repeat (apply elem_of_cons in H as [H|H]; [discriminate|]); by apply not_elem_of_nil in H.
Qed.

Lemma gc_region k : gc_names `prefix_of` Key_names k → ¬ region k.
Proof. intros [l1 E] [l2 E2]. rewrite E in E2. discriminate E2. Qed.

Lemma name_plain (k : DsKey) l x : (x :: l) `prefix_of` Key_names k → plain (Key_Name k).
Proof.
  intros [l2 E]. rewrite key_name_last. pose proof (key_names_plain k) as HP. rewrite E in *.
  destruct (last ((x :: l) ++ l2)) as [y|] eqn:EL; [|by apply last_None in EL].
  apply last_Some in EL as [l' EL]. rewrite EL in HP. apply Forall_app in HP as [_ HP]. apply Forall_cons in HP as [HP _]. exact HP.
Qed.

Lemma gc_key_names expiry name : plain name → Key_names (gc_key expiry name) = gc_names ++ [Sprintd expiry; name].
Proof.
  intros HN. unfold gc_key. rewrite (key_names_child _ _ [Sprintd expiry; name]).
  - by rewrite gc_base_names.
  - repeat constructor; try apply HN; apply Sprintd_plain.
  - unfold slashed. cbn. by rewrite app_nil_r.
Qed.

Lemma gc_key_outside expiry name : plain name → ¬ region (gc_key expiry name).
Proof. intros HN. apply gc_region. rewrite gc_key_names by done. by eexists. Qed.

Lemma entry_key_region name : plain name → region (ChildString addrBookBase name).
Proof.
  intros HN. unfold region. rewrite (key_names_child _ _ [name]); [rewrite base_key; by eexists|by repeat constructor; apply HN|].
  unfold slashed. cbn. by rewrite app_nil_r.
Qed.
End Keys.

Section Gc.
Context {ds : Datastore} {bt : Batching} {rs : ReliableStore} {kl : KeyLaws} {ql : QueryLaws}.
Context {ma : Multiaddrs} {lp : Libp2p} {ft : DsFormats} {fl : FormatLaws}.
Context {ca : Cache PeerID positive} {cl : CacheLaws}.
Context {sort_Slice : list AddrEntry → list AddrEntry} {SL : SortLaw sort_Slice}.
Context (T : Z) (C : PeerID → list AddrEntry).
Implicit Types (b : dsAddrBook) (d : DS) (p q : PeerID) (l : positive) (r : addrsRecord) (s : Sweep).

(** At [T] the entries [C] are served. *)
Definition store_serves d : Prop := store_ok d ∧ ∀ q, live T (stored d q) = C q.
Definition serves b : Prop := Inv T b ∧ ∀ q, served T b q = C q.

Definition of_peer (x : AddrBookRecord) : Prop := sorted (default [] (r_Addrs x)) ∧ live T (default [] (r_Addrs x)) = C (Id x).

(** A write that changes nothing that is served. *)
Definition harmless (o : Write DsKey) : Prop :=
  match o with
  | WPut k v => ¬ region k ∨ ∃ x, k = addr_key (Id x) ∧ proto_Unmarshal v = inl x ∧ of_peer x
  | WDelete k => ¬ region k ∨ ∃ p, k = addr_key p ∧ C p = []
  end.

Lemma store_serves_ext d d' : (∀ k, ds_Get k d' = ds_Get k d) → store_serves d → store_serves d'.
Proof.
  intros E [HS HC]. split; [intros k Hk; rewrite E; by apply HS|]. intros q. rewrite <- HC. unfold stored. by rewrite E.
Qed.

Lemma write_harmless o d : store_serves d → harmless o → store_serves (write_ds o d).1.
Proof.
  intros [HS HC] HO. destruct o as [k v|k]; cbn [write_ds].
  - split.
    + intros k' Hk'. rewrite put_get. case_decide as Hk; [|by apply HS]. subst k'.
      destruct HO as [Hn|(x & Ek & EU & HX & _)]; [by destruct Hn|]. right. by exists v, x.
    + intros q. rewrite <- HC. unfold stored. rewrite put_get. case_decide as Hk; [|done].
      destruct HO as [Hn|(x & Ek & EU & HX & HL)]; [destruct Hn; rewrite <- Hk; apply region_addr|].
      rewrite Ek in Hk. apply addr_key_inj in Hk. subst q. unfold entries_of at 1. rewrite EU, HL. by rewrite <- HC.
  - split.
    + intros k' Hk'. rewrite delete_get. case_decide; [by left|by apply HS].
    + intros q. rewrite <- HC. unfold stored. rewrite delete_get. case_decide as Hk; [|done].
      destruct HO as [Hn|(p & Ek & EC)]; [destruct Hn; rewrite <- Hk; apply region_addr|].
      rewrite Ek in Hk. apply addr_key_inj in Hk. subst q. change (live T (stored d p)) with (live T (stored d p)).
      specialize (HC p). unfold stored in HC. rewrite HC, EC. done.
Qed.

Lemma commit_harmless os d : store_serves d → Forall harmless os → store_serves (ds_Commit os d).1.
Proof.
  intros HS HO. eapply store_serves_ext; [apply commit_get|]. revert d HS; induction HO as [|o os Ho HO IH]; intros d HS; [done|].
  cbn. apply IH. by apply write_harmless.
Qed.

Lemma serves_store b d : serves b → store_serves d → serves (with_ds d b).
Proof.
  intros [[HS HC] HE] [HS' HC']. split; [|done]. constructor; [done|]. intros p l Hl.
  destruct (HC p l Hl) as (r & E & [? ? ? HL]). exists r. split; [done|]. constructor; try done. cbn.
  change (live T (stored (db_ds b) p)) with (served T b p) in HL. by rewrite HL, HE, HC'.
Qed.

Lemma serves_of b : serves b → store_serves (db_ds b).
Proof. intros [[HS _] HE]. by split. Qed.

(** ** The batch *)

Record sweeping s : Prop := {
  sw_serves : serves (sw_book s);
  sw_pending : ∃ th os n, sw_batch s = Some (MkCyclic th (Some os) n) ∧ Forall harmless os;
}.

(** The book but for what is on file. *)
Definition on_file_only b b' : Prop := ∃ d, b' = with_ds d b.

Lemma new_batch_spec s : serves (sw_book s) → ∃ s', new_batch s = Ret (tt, s') ∧ sweeping s' ∧ sw_book s' = sw_book s.
Proof.
  intros HS. eexists. split; [done|]. unfold newCyclicBatch. rewrite batch_ok. split; [|done]. constructor; [done|].
  eexists _, [], _. split; [done|constructor].
Qed.

Lemma cb_write_spec s o : sweeping s → harmless o → ∃ cb cb' d',
  sw_batch s = Some cb ∧ cb_write o (cb, db_ds (sw_book s)) = (cb', d', None) ∧
  sweeping (MkSweep (with_ds d' (sw_book s)) (Some cb')).
Proof.
  intros [HS (th & os & n & EB & HO)] Ho. exists (MkCyclic th (Some os) n).
  set (d := db_ds (sw_book s)).
  assert (∃ os' d', cycle (MkCyclic th (Some os) n, d) = (MkCyclic th (Some os') n, d', None) ∧ Forall harmless os' ∧ store_serves d')
    as (os' & d' & EC & HO' & HD').
  { unfold cycle. cbn. case_bool_decide; [exists os, d; by pose proof (serves_of _ HS)|].
    pose proof (commit_ok os d) as HE. pose proof (commit_harmless os d (serves_of _ HS) HO) as HD.
    destruct (ds_Commit os d) as [d' e]. cbn in HE, HD. subst e. rewrite batch_ok. exists [], d'. split_and!; [done|constructor|done]. }
  eexists _, d'. split; [done|]. unfold cb_write. rewrite EC. cbn. rewrite add_ok. split; [done|]. constructor; cbn.
  - by apply serves_store.
  - eexists _, _, _. split; [done|]. apply Forall_app. by repeat constructor.
Qed.

Lemma batch_write_spec s o : sweeping s → harmless o →
  ∃ s', batch_write o s = Ret (tt, s') ∧ sweeping s' ∧ on_file_only (sw_book s) (sw_book s').
Proof.
  intros HS Ho. destruct (cb_write_spec s o HS Ho) as (cb & cb' & d' & EB & EW & HS'). unfold batch_write. rewrite EB, EW.
  eexists. split; [done|]. split; [done|]. by exists d'.
Qed.

Lemma batch_commit_spec s : sweeping s →
  ∃ s', batch_commit s = Ret (tt, s') ∧ serves (sw_book s') ∧ on_file_only (sw_book s) (sw_book s').
Proof.
  intros [HS (th & os & n & EB & HO)]. unfold batch_commit, cb_Commit. rewrite EB. cbn.
  pose proof (commit_ok os (db_ds (sw_book s))) as HE. pose proof (commit_harmless os _ (serves_of _ HS) HO) as HD.
  destruct (ds_Commit os (db_ds (sw_book s))) as [d' e]. cbn in HE, HD. subst e. eexists. split; [done|]. cbn.
  split; [by apply serves_store|by exists d'].
Qed.

Lemma flush_batch_spec s r : sweeping s → sorted (Addrs_of r) → live T (Addrs_of r) = C (Id (pb r)) →
  ∃ s', flush_batch r s = Ret (with_dirty false r, s') ∧ sweeping s' ∧ on_file_only (sw_book s) (sw_book s').
Proof.
  intros HS Hr HL. assert (∃ o, harmless o ∧ ∀ cb d, flush cb_write r (cb, d) =
    (let '(w, e) := cb_write o (cb, d) in (match e with None => with_dirty false r | Some _ => r end, w, e))) as (o & Ho & EF).
  { unfold flush. case_bool_decide as Hz.
    - assert (Addrs_of r = []) as E by (destruct (Addrs_of r); [done|by unfold zlen in Hz]).
      exists (WDelete (addr_key (Id (pb r)))). split; [|done]. right. eexists. split; [done|]. by rewrite <- HL, E.
    - unfold Addrs_of in Hz. destruct (r_Addrs (pb r)) as [s0|] eqn:Es; [|done].
      destruct (proto_roundtrip (pb r) s0 Es) as (w & EM & EU); [by intros ->|]. rewrite EM.
      exists (WPut (addr_key (Id (pb r))) w). split; [|done]. right. by exists (pb r). }
  destruct (cb_write_spec s o HS Ho) as (cb & cb' & d' & EB & EW & HS'). unfold flush_batch. rewrite EB, EF, EW.
  eexists. split; [done|]. split; [done|]. by exists d'.
Qed.

Lemma sweeping_book s b : sweeping s → serves b → sweeping (MkSweep b (sw_batch s)).
Proof. intros [_ HP] Hb. by constructor. Qed.

(** ** Visits *)

Lemma clean_of_peer now x chgd r' : now ≤ T → of_peer x → clean sort_Slice now (MkAddrs x false) = (chgd, r') →
  sorted (Addrs_of r') ∧ live T (Addrs_of r') = C (Id (pb r')) ∧ Id (pb r') = Id x ∧ dirty r' = false.
Proof.
  intros Hle [HX HL] EC. destruct (clean_spec now (MkAddrs x false) chgd r' ltac:(done) EC) as (EA & EI & ED & _).
  change (Addrs_of r' = live now (default [] (r_Addrs x))) in EA. rewrite EA, EI. split; [by apply sorted_live|].
  rewrite live_live by done. by split.
Qed.

Lemma purge_entry_spec now data s : now ≤ T → sweeping s → (∀ x, proto_Unmarshal data = inl x → of_peer x) →
  ∃ s', purge_entry sort_Slice now data s = Ret (tt, s') ∧ sweeping s'.
Proof.
  intros Hle HS HX. unfold purge_entry. destruct (proto_Unmarshal data) as [x|e]; [|by exists s].
  destruct (clean sort_Slice now (MkAddrs x false)) as [chgd r] eqn:EC.
  destruct (clean_of_peer now x chgd r Hle (HX x eq_refl) EC) as (HSr & HL & _ & _). destruct chgd; [|by exists s].
  destruct (flush_batch_spec s r HS HSr HL) as (s1 & E1 & HS1 & _). rewrite (bind_run _ _ _ _ _ E1). cbn beta.
  eexists. split; [done|]. apply (sweeping_book s1); [done|]. destruct HS1 as [[HI HE] _]. split; [|done].
  apply Inv_cache_less; [done|]. etransitivity; [apply cache_remove|apply delete_subseteq].
Qed.

Lemma purge_entries_spec clk i results s : (∀ i, clk i ≤ T) → sweeping s →
  Forall (λ kv, ∀ x, proto_Unmarshal kv.2 = inl x → of_peer x) results →
  ∃ s', purge_entries sort_Slice clk i results s = Ret (tt, s') ∧ sweeping s'.
Proof.
  intros Hclk HS HF. revert i s HS; induction HF as [|[k data] results Hx HF IH]; intros i s HS; cbn [purge_entries]; [by exists s|].
  destruct (purge_entry_spec (clk i) data s (Hclk i) HS Hx) as (s1 & E1 & HS1). rewrite (bind_run _ _ _ _ _ E1). by apply IH.
Qed.

(** What is on file is the peer's own. *)
Lemma file_of_peer d k v x : store_serves d → region k → ds_Get k d = inl v → proto_Unmarshal v = inl x → of_peer x.
Proof.
  intros [HS HC] Hk Eg EU. destruct (HS k Hk) as [E|(w & x' & E & EU' & Ek & HX)]; [congruence|].
  rewrite Eg in E. injection E as <-. rewrite EU in EU'. injection EU' as <-. split; [done|].
  rewrite <- HC. unfold stored. rewrite <- Ek, Eg. unfold entries_of. by rewrite EU.
Qed.

Lemma exclusively_spec m s : serves (sw_book s) →
  (∀ s, serves (sw_book s) → ∃ s', m s = Ret (tt, s') ∧ serves (sw_book s')) →
  ∃ s', exclusively m s = Ret (tt, s') ∧ serves (sw_book s').
Proof.
  assert (∀ b v, serves b → serves (with_running v b)) as HR by (intros b v [[? ?] ?]; split; [by constructor|done]).
  intros HS Hm. unfold exclusively. change ((get ≫= ?f) s) with (f s s). cbn beta. destruct (running (sw_book s)); [by exists s|].
  rewrite (bind_run _ _ s tt (MkSweep (with_running true (sw_book s)) (sw_batch s))) by done.
  destruct (Hm (MkSweep (with_running true (sw_book s)) (sw_batch s))) as (s1 & E1 & HS1); [by apply HR|].
  rewrite (bind_run _ _ _ _ _ E1). eexists. split; [done|]. by apply HR.
Qed.

Lemma purgeStore_spec clk s : (∀ i, clk i ≤ T) → serves (sw_book s) →
  ∃ s', purgeStore sort_Slice clk s = Ret (tt, s') ∧ serves (sw_book s').
Proof.
  intros Hclk HS. apply exclusively_spec; [done|]. clear s HS. intros s HS. unfold purge_visit.
  destruct (new_batch_spec s HS) as (s1 & E1 & HS1 & EB). rewrite <- bind_assoc, (bind_run _ _ _ _ _ E1).
  rewrite <- bind_assoc. change ((get ≫= ?f) s1) with (f s1 s1). cbn beta.
  destruct (ds_QueryEntries addrBookBase (db_ds (sw_book s1))) as [results|e] eqn:EQ.
  - destruct (purge_entries_spec clk 0 results s1 Hclk HS1) as (s2 & E2 & HS2).
    { apply Forall_forall. intros [k v] Hkv x EU. destruct (query_entries _ _ _ _ _ EQ Hkv) as [Hk Eg]. rewrite base_key in Hk.
      by apply (file_of_peer (db_ds (sw_book s1)) k v x (serves_of _ (sw_serves _ HS1))). }
    rewrite <- bind_assoc, (bind_run _ _ _ _ _ E2). rewrite (bind_run _ _ s2 None s2) by done.
    destruct (batch_commit_spec s2 HS2) as (s3 & E3 & HS3 & _). by exists s3.
  - exists s1. split; [done|]. apply HS1.
Qed.

(** ** The window of the times to come *)

Lemma drop_spec key s : sweeping s → gc_names `prefix_of` Key_names key →
  ∃ s', dropInError key s = Ret (tt, s') ∧ sweeping s'.
Proof.
  intros HS Hk. destruct (batch_write_spec s (WDelete key) HS) as (s' & E & HS' & _); [left; by apply gc_region|]. by exists s'.
Qed.

Lemma dropOrReschedule_spec key r s : sweeping s → gc_names `prefix_of` Key_names key →
  ∃ s', dropOrReschedule key r s = Ret (tt, s') ∧ sweeping s'.
Proof.
  intros HS Hk. unfold dropOrReschedule. destruct (drop_spec key s HS Hk) as (s1 & E1 & HS1).
  unfold dropInError in E1. rewrite (bind_run _ _ _ _ _ E1). change ((get ≫= ?f) s1) with (f s1 s1). cbn beta.
  destruct (Addrs_of r) as [|a l]; [by exists s1|]. case_bool_decide; [|by exists s1].
  destruct (batch_write_spec s1 (WPut (gc_key (Expiry a) (Key_Name key)) []) HS1) as (s2 & E2 & HS2 & _); [|by exists s2].
  left. apply gc_key_outside. by eapply name_plain.
Qed.

Lemma on_book_run {A} (m : GoM dsAddrBook A) s a b : m (sw_book s) = Ret (a, b) → on_book m s = Ret (a, MkSweep b (sw_batch s)).
Proof. intros E. unfold on_book. by rewrite E. Qed.

Lemma serves_record b p l r r' : serves b → contents (db_cache b) !! p = Some l → db_heap b !! l = Some r →
  Id (pb r') = p → dirty r' = false → sorted (Addrs_of r') → live T (Addrs_of r') = C p →
  serves (with_heap (<[l := r']> (db_heap b)) b).
Proof.
  intros [HI HE] Hl E EI ED HSr HL. split; [|done].
  apply (Inv_update T b l r' p (db_ds b)); try done; [|apply HI|].
  - intros q l' Hq. split; [intros ->; congruence|]. intros ->. by apply (Inv_held T b q p l).
  - constructor; try done. by rewrite HL, <- HE.
Qed.

Lemma purge_peer_spec now key p s : now ≤ T → sweeping s → gc_names `prefix_of` Key_names key →
  ∃ s', purge_peer sort_Slice now key p s = Ret (tt, s') ∧ sweeping s'.
Proof.
  intros Hle HS Hk. unfold purge_peer. change ((get ≫= ?f) s) with (f s s). cbn beta. rewrite cache_peek.
  destruct (contents (db_cache (sw_book s)) !! p) as [l|] eqn:El.
  - destruct (inv_cache _ _ (proj1 (sw_serves _ HS)) p l El) as (r & E & HR).
    assert (live T (Addrs_of r) = C p) as HC by (rewrite (co_live _ _ _ _ HR); apply (sw_serves _ HS)).
    destruct (clean sort_Slice now r) as [chgd r'] eqn:EC.
    destruct (clean_spec now r chgd r' ltac:(by intros; apply HR) EC) as (EA & EI & ED & _).
    unfold ordered in EA. rewrite (co_clean _ _ _ _ HR) in EA, ED.
    assert (sorted (Addrs_of r') ∧ live T (Addrs_of r') = C p) as [HSr HL].
    { rewrite EA. split; [apply sorted_live, HR|]. by rewrite live_live. }
    rewrite (co_Id _ _ _ _ HR) in EI. set (b1 := with_heap (<[l := r']> (db_heap (sw_book s))) (sw_book s)).
    assert (serves b1) as HB1 by (apply (serves_record _ p l r r'); try done; apply HS).
    assert (db_heap b1 !! l = Some r') as E1 by apply lookup_insert_eq.
    rewrite (bind_run _ _ _ _ _ (on_book_run _ s _ _ (clean_at_run (sort_Slice := sort_Slice) now l (sw_book s) r chgd r' E EC))).
    fold b1. set (s1 := MkSweep b1 (sw_batch s)). assert (sweeping s1) as HS1 by by apply sweeping_book.
    rewrite (bind_run _ _ s1 r' s1) by (apply (on_book_run _ s1 r' b1); change (record_at l b1 = Ret (r', b1)); unfold record_at; by rewrite E1). cbn beta.
    destruct chgd; [|rewrite (bind_run _ _ s1 r' s1) by done; by apply dropOrReschedule_spec].
    destruct (flush_batch_spec s1 r' HS1 HSr) as (s2 & E2 & HS2 & d2 & EB2); [by rewrite EI|].
    rewrite <- bind_assoc, (bind_run _ _ _ _ _ E2). cbn beta.
    rewrite <- bind_assoc.
    set (b2 := with_heap (<[l := with_dirty false r']> (db_heap (sw_book s2))) (sw_book s2)).
    rewrite (bind_run _ _ s2 tt (MkSweep b2 (sw_batch s2))) by done.
    rewrite (bind_run _ _ _ (with_dirty false r') (MkSweep b2 (sw_batch s2))) by done.
    apply dropOrReschedule_spec; [|done]. apply sweeping_book; [done|].
    apply (serves_record _ p l r'); try done; [apply HS2|by rewrite EB2|by rewrite EB2].
  - pose proof (name_plain key _ _ Hk) as HN.
    destruct (ds_Get (ChildString addrBookBase (Key_Name key)) (db_ds (sw_book s))) as [val|e] eqn:Eg; [|by apply drop_spec].
    destruct (proto_Unmarshal val) as [x|e] eqn:EU; [|by apply drop_spec].
    assert (of_peer x) as HX.
    { apply (file_of_peer (db_ds (sw_book s)) _ val x (serves_of _ (sw_serves _ HS)) (entry_key_region _ HN) Eg EU). }
    destruct (clean sort_Slice now (MkAddrs x false)) as [chgd r] eqn:EC.
    destruct (clean_of_peer now x chgd r Hle HX EC) as (HSr & HL & _ & _).
    destruct chgd; [|rewrite (bind_run _ _ s r s) by done; by apply dropOrReschedule_spec].
    destruct (flush_batch_spec s r HS HSr HL) as (s2 & E2 & HS2 & _). rewrite (bind_run _ _ _ _ _ E2). by apply dropOrReschedule_spec.
Qed.

Lemma purge_keys_spec clk now i results s : (∀ i, clk i ≤ T) → sweeping s →
  Forall (λ k, gc_names `prefix_of` Key_names k) results →
  ∃ s', purge_keys sort_Slice clk now i results s = Ret (tt, s') ∧ sweeping s'.
Proof.
  intros Hclk HS HF. revert i s HS; induction HF as [|key results Hk HF IH]; intros i s HS; cbn [purge_keys]; [by exists s|].
  destruct (ParseInt (Key_Name (Key_Parent key))) as [ts|].
  - case_bool_decide; [by exists s|].
    assert (∃ s1, (match b32_Decode (Key_Name key) with
                   | inl idb => match IDFromBytes idb with inl id => purge_peer sort_Slice (clk i) key id | inr _ => dropInError key end
                   | inr _ => dropInError key end) s = Ret (tt, s1) ∧ sweeping s1) as (s1 & E1 & HS1).
    { destruct (b32_Decode (Key_Name key)) as [idb|]; [|by apply drop_spec].
      destruct (IDFromBytes idb); [by apply purge_peer_spec|by apply drop_spec]. }
    rewrite (bind_run _ _ _ _ _ E1). by apply IH.
  - destruct (drop_spec key s HS Hk) as (s1 & E1 & HS1). rewrite (bind_run _ _ _ _ _ E1). by apply IH.
Qed.

Lemma purgeLookahead_spec clk s : (∀ i, clk i ≤ T) → serves (sw_book s) →
  ∃ s', purgeLookahead sort_Slice clk s = Ret (tt, s') ∧ serves (sw_book s').
Proof.
  intros Hclk HS. apply exclusively_spec; [done|]. clear s HS. intros s HS.
  destruct (new_batch_spec s HS) as (s1 & E1 & HS1 & EB). rewrite (bind_run _ _ _ _ _ E1).
  change ((get ≫= ?f) s1) with (f s1 s1). cbn beta.
  destruct (ds_QueryOrdered orderByTimestampInKey gcLookaheadBase (db_ds (sw_book s1))) as [results|e] eqn:EQ.
  - destruct (purge_keys_spec clk (Unix (clk 0%nat)) 1 results s1 Hclk HS1) as (s2 & E2 & HS2).
    { apply Forall_forall. intros k Hk. rewrite <- gc_base_names. by eapply query_ordered. }
    rewrite (bind_run _ _ _ _ _ E2). destruct (batch_commit_spec s2 HS2) as (s3 & E3 & HS3 & _). by exists s3.
  - exists s1. split; [done|]. apply HS1.
Qed.

Lemma schedule_spec until name r s : plain name → sweeping s →
  ∃ s', schedule until name r s = Ret (tt, s') ∧ sweeping s'.
Proof.
  intros HN HS. unfold schedule. destruct (next_visit until r) as [e|]; [|by exists s].
  destruct (batch_write_spec s (WPut (gc_key e name) []) HS) as (s2 & E2 & HS2 & _); [|by exists s2].
  left. by apply gc_key_outside.
Qed.

Lemma populate_keys_spec until keys s : sweeping s → Forall region keys →
  ∃ s', populate_keys until keys s = Ret (tt, s') ∧ sweeping s'.
Proof.
  intros HS HF. revert s HS; induction HF as [|key keys Hk HF IH]; intros s HS; cbn [populate_keys]; [by exists s|].
  pose proof (name_plain key _ _ Hk) as HN.
  assert (∃ s1, populate_key until key s = Ret (tt, s1) ∧ sweeping s1) as (s1 & E1 & HS1).
  { unfold populate_key. destruct (b32_Decode (Key_Name key)) as [k|]; [|by exists s].
    change ((get ≫= ?f) s) with (f s s). cbn beta. rewrite cache_peek.
    destruct (contents (db_cache (sw_book s)) !! _) as [l|] eqn:El.
    - destruct (inv_cache _ _ (proj1 (sw_serves _ HS)) _ l El) as (r & E & _).
      rewrite (bind_run _ _ s r s); [by apply schedule_spec|].
      unfold on_book, record_at. rewrite E. by destruct s.
    - destruct (ds_Get key (db_ds (sw_book s))) as [val|]; [|by exists s].
      destruct (proto_Unmarshal val); [by apply schedule_spec|by exists s]. }
  rewrite (bind_run _ _ _ _ _ E1). by apply IH.
Qed.

Lemma populateLookahead_spec opts now s : serves (sw_book s) →
  ∃ s', populateLookahead opts now s = Ret (tt, s') ∧ serves (sw_book s').
Proof.
  intros HS. unfold populateLookahead. case_bool_decide; [by exists s|]. apply exclusively_spec; [done|]. clear s HS. intros s HS.
  change ((get ≫= ?f) s) with (f s s). cbn beta zeta.
  destruct (ds_Query addrBookBase (db_ds (sw_book s))) as [keys|e] eqn:EQ; [|by exists s].
  destruct (new_batch_spec s HS) as (s1 & E1 & HS1 & EB). rewrite (bind_run _ _ _ _ _ E1).
  change ((get ≫= ?f) s1) with (f s1 s1). cbn beta. destruct (sw_pending _ HS1) as (th & os & n & -> & _).
  destruct (populate_keys_spec (Unix (now + GCLookaheadInterval opts)) keys s1 HS1) as (s2 & E2 & HS2).
  { apply Forall_forall. intros k Hk. unfold region. rewrite <- base_key. by eapply query_below. }
  rewrite (bind_run _ _ _ _ _ E2). destruct (batch_commit_spec s2 HS2) as (s3 & E3 & [[? ?] ?] & _).
  rewrite (bind_run _ _ _ _ _ E3). eexists. split; [done|]. split; [by constructor|done].
Qed.

(** A tick of either timer. *)
Lemma tick_spec opts t s : match t with TPurge clk => ∀ i, clk i ≤ T | TLookahead _ => True end → serves (sw_book s) →
  ∃ s', background_tick sort_Slice opts t s = Ret (tt, s') ∧ serves (sw_book s').
Proof.
  intros Ht HS. destruct t as [clk|now]; cbn [background_tick].
  - unfold purgeFunc. case_bool_decide; [by apply purgeLookahead_spec|by apply purgeStore_spec].
  - case_bool_decide; [by apply populateLookahead_spec|by exists s].
Qed.
End Gc.
