(* ===== verification/PeerDsToy.v ===== *)
(** * A concrete datastore, with a cache that keeps everything

    Keys are lists of names, the store is a finite map, base32 is a spelling in
    letters, protobuf the enumeration of records that [Countable] gives; it satisfies
    every law the address book is proved against. *)

From S2P Require Import PeerMemProps.
From S2P Require Export PeerDsGc.

Module ToyStore.
#[local] Existing Instances Toy.multiaddrs Toy.multiaddr_laws ToyBook.libp2p.

(** ** Keys *)

#[export] Instance plain_dec s : Decision (plain s).
Proof. unfold plain. apply _. Defined.

Fixpoint split (cur s : bytes) : list bytes :=
  match s with [] => [cur] | c :: s => if decide (c = x2f) then cur :: split [] s else split (cur ++ [c]) s end.

Lemma split_here cur s t : x2f ∉ s → split cur (s ++ x2f :: t) = (cur ++ s) :: split [] t.
Proof.
  revert cur; induction s as [|c s IH]; intros cur Hs; cbn [app split]; [by rewrite decide_True, app_nil_r by done|].
  apply not_elem_of_cons in Hs as [Hc Hs]. rewrite decide_False by done. by rewrite IH, <- app_assoc by done.
Qed.

Lemma split_end cur s : x2f ∉ s → split cur s = [cur ++ s].
Proof.
  revert cur; induction s as [|c s IH]; intros cur Hs; cbn [split]; [by rewrite app_nil_r|].
  apply not_elem_of_cons in Hs as [Hc Hs]. rewrite decide_False by done. by rewrite IH, <- app_assoc by done.
Qed.

Lemma split_slashed x l : Forall plain (x :: l) → split [] (x ++ slashed l) = x :: l.
Proof.
  revert x; induction l as [|y l IH]; intros x [Hx Hl]%Forall_cons.
  - unfold slashed. cbn. rewrite app_nil_r. apply split_end, Hx.
  - change (slashed (y :: l)) with (x2f :: y ++ slashed l). rewrite split_here by apply Hx. by rewrite IH.
Qed.

Definition key : Type := dsig (Forall plain).
#[export] Instance key_eq_dec : EqDecision key := _.
#[export] Instance key_countable : Countable key := _.
Definition store : Type := gmap key bytes.
Lemma filter_plain (l : list bytes) : Forall plain (filter plain l).
Proof. apply Forall_forall. by intros x [? _]%list_elem_of_filter. Qed.
Definition mk (l : list bytes) : key := dexist (filter plain l) (filter_plain l).

Lemma plain_filter l : Forall plain l → filter plain l = l.
Proof. induction 1 as [|x l Hx HF IH]; [done|]. by rewrite filter_cons, decide_True, IH. Qed.

#[export] Instance datastore : Datastore := {|
  DsKey := key; NewKey := λ s, mk (split [] s); ChildString := λ k s, mk (`k ++ split [] s);
  DS := store; ds_ErrNotFound := Errorf "datastore: key not found" [];
  ds_Get := λ k (d : store), match (d : gmap key bytes) !! k with Some v => inl v | None => inr (Errorf "datastore: key not found" []) end;
  ds_Put := λ k v (d : store), (<[k := v]> (d : gmap key bytes), None);
  ds_Delete := λ k (d : store), (delete k (d : gmap key bytes), None);
  ds_Query := λ p (d : store), inl (filter (λ k : key, `p `prefix_of` `k) (map_to_list (d : gmap key bytes)).*1);
|}.
#[export] Instance batching : @Batching datastore := Build_Batching datastore
  (λ k : key, default [] (last (`k)))
  (λ k : key, mk (removelast (`k)))
  (λ k k2 : key, mk (`k ++ `k2))
  (λ (p : key) (d : store), inl (filter (λ kv : key * bytes, `p `prefix_of` `kv.1) (map_to_list (d : gmap key bytes))))
  (λ _ (p : key) (d : store), inl (filter (λ k : key, `p `prefix_of` `k) (map_to_list (d : gmap key bytes)).*1))
  (λ _, None)
  (λ _ _, None)
  (λ l d, (foldl (λ d o, (write_ds o d).1) d l, None)).

#[export] Instance reliable : ReliableStore.
Proof.
  constructor; try done; intros; cbn.
  - case_decide as E; [subst; by rewrite lookup_insert_eq|by rewrite lookup_insert_ne].
  - case_decide as E; [subst; by rewrite lookup_delete_eq|by rewrite lookup_delete_ne].
Qed.

#[export] Instance key_laws : KeyLaws.
Proof.
  refine (Build_KeyLaws datastore batching (λ k : key, `k) _ _ _ _ _ _).
  - intros k k' E. by apply dsig_eq.
  - intros k. exact (proj2_dsig k).
  - intros l HF. change (filter plain (split [] (slashed l)) = l). destruct l as [|x l]; [done|]. change (slashed (x :: l)) with (x2f :: x ++ slashed l). cbn [split].
    rewrite decide_True by done. rewrite split_slashed by done. rewrite filter_cons, decide_False by (intros [H _]; by apply H). by apply plain_filter.
  - intros k s l HF E. change (filter plain (`k ++ split [] s) = `k ++ l). destruct l as [|x l]; [done|].
    assert (s = x ++ slashed l) as -> by (by injection E as <-). rewrite split_slashed by done.
    apply plain_filter. apply Forall_app. split; [exact (proj2_dsig k)|done].
  - intros k. change (filter plain (`k ++ [[]]) = `k). rewrite filter_app. change (filter plain [[]]) with (@nil bytes). rewrite app_nil_r. apply plain_filter. exact (proj2_dsig k).
  - done.
Defined.

#[export] Instance query_laws : QueryLaws.
Proof.
  constructor.
  - intros prefix d l k [= <-] [H _]%list_elem_of_filter. exact H.
  - intros cmp prefix d l k [= <-] [H _]%list_elem_of_filter. exact H.
  - intros prefix d l k v [= <-] [H Hk]%list_elem_of_filter. split; [exact H|]. apply elem_of_map_to_list in Hk.
    change ((d : gmap key bytes) !! (k : key) = Some v) in Hk. unfold ds_Get, datastore. by rewrite Hk.
Qed.

(** ** Formats *)

#[export] Instance entry_dec : EqDecision AddrEntry.
Proof. solve_decision. Defined.
#[export] Instance entry_countable : Countable AddrEntry :=
  inj_countable' (λ e, (ae_Addr e, Expiry e, Ttl e)) (λ '(a, x, t), MkEntry a x t) ltac:(by intros []).
#[export] Instance certified_dec : EqDecision CertifiedRecord.
Proof. solve_decision. Defined.
#[export] Instance certified_countable : Countable CertifiedRecord :=
  inj_countable' (λ c, (cr_Seq c, cr_Raw c)) (λ '(s, r), MkCertified s r) ltac:(by intros []).
#[export] Instance record_dec : EqDecision AddrBookRecord.
Proof. solve_decision. Defined.
#[export] Instance record_countable : Countable AddrBookRecord :=
  inj_countable' (λ r, (Id r, r_Addrs r, r_CertifiedRecord r)) (λ '(i, a, c), MkRecord i a c) ltac:(by intros []).

Definition letters (x : byte) : bytes := [z2b (97 + b2z x / 16); z2b (97 + b2z x mod 16)].
Fixpoint spell (b : bytes) : bytes := match b with [] => [] | x :: b => letters x ++ spell b end.
Fixpoint unspell (b : bytes) : bytes :=
  match b with x :: y :: b => z2b ((b2z x - 97) * 16 + (b2z y - 97)) :: unspell b | _ => [] end.

Lemma unspell_spell b : unspell (spell b) = b.
Proof. induction b as [|x b IH]; [done|]. cbn. f_equal; [|exact IH]. by destruct x. Qed.

Lemma spell_numeral b : Forall numeral (spell b).
Proof. induction b as [|x b IH]; [constructor|]. cbn. unfold numeral. constructor; [by destruct x|]. constructor; [by destruct x|done]. Qed.

Lemma spell_plain b : b ≠ [] → plain (spell b).
Proof.
  intros Hb. pose proof (proj1 (Forall_forall _ _) (spell_numeral b)) as HN.
  split; [by destruct b|]. split; [intros [H _]%HN; by apply H|].
  split; intros E; rewrite E in HN; destruct (HN x2e (list_elem_of_here _ _)) as [_ H]; by apply H.
Qed.

#[export] Instance formats : DsFormats := {|
  proto_Marshal := λ r, inl (Toy.of_pos (encode r));
  proto_Unmarshal := λ b, match decode (Toy.to_pos b) with Some r => inl r | None => inr (Errorf "proto" []) end;
  env_Marshal := λ _, inr (Errorf "no envelopes" []); ConsumeEnvelope := λ _, inr (Errorf "no envelopes" []);
  b32_Encode := spell; b32_Decode := λ b, inl (unspell b); IDFromBytes := inl;
|}.
#[export] Instance format_laws : FormatLaws.
Proof.
  constructor; cbn.
  - intros r l _ _. eexists. split; [done|]. by rewrite Toy.to_of_pos, decode_encode.
  - intros b. by rewrite unspell_spell.
  - apply spell_plain.
  - done.
Qed.

(** ** A cache and a sort *)

#[export] Instance cache : Cache PeerID positive := {|
  CacheT := gmap PeerID positive; cache_Get := λ k c, ((c : gmap PeerID positive) !! k, c);
  cache_Add := λ k v (c : gmap PeerID positive), <[k := v]> c; cache_Remove := λ k (c : gmap PeerID positive), delete k c;
  cache_Contains := λ k (c : gmap PeerID positive), bool_decide (is_Some (c !! k));
  cache_Peek := λ k (c : gmap PeerID positive), c !! k; cache_Keys := λ c : gmap PeerID positive, (map_to_list c).*1;
|}.
#[export] Instance cache_laws : CacheLaws (ca := cache).
Proof. refine {| contents := λ c : @CacheT _ _ cache, (c : gmap PeerID positive) |}; done. Defined.

#[export] Instance by_expiry_dec : RelDecision by_expiry.
Proof. unfold by_expiry. intros ??. apply _. Defined.
#[export] Instance by_expiry_total : Total by_expiry.
Proof. intros ??. unfold by_expiry. lia. Qed.
#[export] Instance by_expiry_trans : Transitive by_expiry.
Proof. intros ???. unfold by_expiry. lia. Qed.
Definition sort_Slice : list AddrEntry → list AddrEntry := merge_sort by_expiry.
#[export] Instance sort_law : SortLaw sort_Slice.
Proof. constructor; intros l; [apply merge_sort_Permutation|apply StronglySorted_merge_sort; apply _]. Qed.

(** A book over a datastore with one record. *)
Definition p : PeerID := [x01].
Definition book (l : list AddrEntry) : dsAddrBook (ca := cache) :=
  MkDsBook ({[ addr_key p := Toy.of_pos (encode (MkRecord p (Some l) None)) ]} : gmap key bytes) (∅ : gmap PeerID positive) ∅
    (MkSubManager ∅ ∅) 0 false.
Definition empty : dsAddrBook (ca := cache) :=
  MkDsBook ((∅ : gmap key bytes) : store) (∅ : gmap PeerID positive) ∅ (MkSubManager ∅ ∅) 0 false.

Lemma toy_get (k : key) (d : gmap key bytes) :
  ds_Get (k : DsKey) (d : DS) = match d !! k with Some v => inl v | None => inr ds_ErrNotFound end.
Proof. reflexivity. Qed.

Definition image (l : list AddrEntry) : bytes := Toy.of_pos (encode (MkRecord p (Some l) None)).
Lemma image_read l : proto_Unmarshal (image l) = inl (MkRecord p (Some l) None).
Proof. unfold proto_Unmarshal, formats, image. by rewrite Toy.to_of_pos, decode_encode. Qed.

Lemma book_Get l : ds_Get (addr_key p) (db_ds (book l)) = inl (image l).
Proof. unfold book. cbn [db_ds]. rewrite (toy_get (addr_key (ds := datastore) p)). by rewrite lookup_singleton_eq. Qed.

Lemma book_stored l : stored (db_ds (book l)) p = l.
Proof. unfold stored. rewrite book_Get. unfold entries_of. by rewrite image_read. Qed.

Lemma book_Inv T l : sorted l → Inv T (book l).
Proof.
  intros Hl. constructor; [|intros q x Hx; change ((∅ : gmap PeerID positive) !! q = Some x) in Hx; by rewrite lookup_empty in Hx]. intros k _.
  destruct (decide (k = addr_key p)) as [->|Hk].
  - right. exists (image l), (MkRecord p (Some l) None). split; [apply book_Get|]. split; [apply image_read|done].
  - left. unfold book. cbn [db_ds]. rewrite (toy_get k). by rewrite lookup_singleton_ne.
Qed.

Lemma empty_Get k : ds_Get k (db_ds empty) = inr ds_ErrNotFound.
Proof. unfold empty. cbn [db_ds]. rewrite (toy_get k). by rewrite lookup_empty. Qed.

Lemma empty_Inv T : Inv T empty.
Proof.
  constructor; [intros k _; left; apply empty_Get|].
  intros q x Hx; change ((∅ : gmap PeerID positive) !! q = Some x) in Hx; by rewrite lookup_empty in Hx.
Qed.

Lemma book_Query l : ds_QueryEntries addrBookBase (db_ds (book l)) = inl [(addr_key p, image l)].
Proof.
  assert (Key_names addrBookBase `prefix_of` Key_names (addr_key p)) as HP by (rewrite base_key; apply region_addr).
  unfold ds_QueryEntries, batching, book. cbn [db_ds]. rewrite map_to_list_singleton. rewrite filter_cons. by rewrite decide_True.
Qed.
End ToyStore.
