(* ===== verification/PeerDsProps.v ===== *)
(** * Properties of the datastore's address book *)

From S2P Require Export PeerMemFacts PeerDsSteps PeerDsGc.
From S2P Require PeerDsToy.

(** ** Histories *)

Section Histories.
Context {ds : Datastore} {bt : Batching} {ma : Multiaddrs} {lp : Libp2p} {ft : DsFormats}.
Context (sort_Slice : list AddrEntry → list AddrEntry) (late : positive → bool).

(** The calls of a book and the ticks of its collector. *)
Inductive call :=
| CAdd (p : PeerID) (l : list (option Multiaddr)) (ttl : Z)
| CSet (p : PeerID) (l : list (option Multiaddr)) (ttl : Z)
| CUpdate (p : PeerID) (oldTTL newTTL : Z)
| CClear (p : PeerID)
| CLook (p : PeerID)
| CCollect (opts : Options) (lookahead : bool).

(** A call with the readings of the clock during it and the time it is over. *)
Record event := MkEvent { ev_clk : nat → Z; ev_end : Z; ev_call : call }.

Definition step {ca : Cache PeerID positive} (e : event) : GoM dsAddrBook (list (list Multiaddr)) :=
  let clk := ev_clk e in
  match ev_call e with
  | CAdd p l ttl => AddAddrs sort_Slice late clk p l ttl ;; mret []
  | CSet p l ttl => SetAddrs sort_Slice late clk p l ttl ;; mret []
  | CUpdate p oldTTL newTTL => UpdateAddrs sort_Slice clk p oldTTL newTTL ;; mret []
  | CClear p => ClearAddrs p ;; mret []
  | CLook p => a ← Addrs sort_Slice (clk 0%nat) p; mret [a]
  | CCollect opts lookahead => λ b,
      match background_tick sort_Slice opts (if lookahead then TLookahead (clk 0%nat) else TPurge clk) (MkSweep b None) with
      | Ret (_, s) => Ret ([], sw_book s)
      | Panic p => Panic p
      end
  end.

(** The answers to the lookups. *)
Fixpoint run {ca : Cache PeerID positive} (h : list event) : GoM dsAddrBook (list (list Multiaddr)) :=
  match h with [] => mret [] | e :: h => a ← step e; as_ ← run h; mret (a ++ as_) end.

Fixpoint timely (T : Z) (h : list event) : Prop :=
  match h with
  | [] => True
  | e :: h => T ≤ ev_clk e 0%nat ∧ (∀ i, ev_clk e i ≤ ev_clk e (S i)) ∧ (∀ i, ev_clk e i ≤ ev_end e) ∧ timely (ev_end e) h
  end.

Definition plain_step (clk : nat → Z) (c : call) (L : PeerID → list AddrEntry) : PeerID → list AddrEntry :=
  match c with
  | CAdd p l ttl => if bool_decide (ttl ≤ 0) then L else at_peer p (plain_set sort_Slice clk p ttlExtend ttl (cleanAddrs l p)) L
  | CSet p l ttl =>
      if bool_decide (ttl ≤ 0) then at_peer p (plain_delete sort_Slice clk (cleanAddrs l p)) L
      else at_peer p (plain_set sort_Slice clk p ttlOverride ttl (cleanAddrs l p)) L
  | CUpdate p oldTTL newTTL => at_peer p (plain_update sort_Slice clk oldTTL newTTL) L
  | CClear p => at_peer p (λ _, []) L
  | CLook _ | CCollect _ _ => L
  end.
Definition parsed (l : list AddrEntry) : list Multiaddr := default [] (mapM (λ a, NewMultiaddrBytes (ae_Addr a)) l).
Definition plain_answer (clk : nat → Z) (c : call) (L : PeerID → list AddrEntry) : list (list Multiaddr) :=
  match c with CLook p => [parsed (live (clk 0%nat) (L p))] | _ => [] end.
Fixpoint plain_run (h : list event) (L : PeerID → list AddrEntry) : list (list Multiaddr) :=
  match h with
  | [] => []
  | e :: h => plain_answer (ev_clk e) (ev_call e) L
                ++ plain_run h (λ q, live (ev_end e) (plain_step (ev_clk e) (ev_call e) L q))
  end.

Lemma plain_step_ext clk c L1 L2 : (∀ q, L1 q = L2 q) → ∀ q, plain_step clk c L1 q = plain_step clk c L2 q.
Proof. intros E q. unfold plain_step, at_peer. repeat case_match; by rewrite ?E. Qed.

Lemma plain_run_ext h L1 L2 : (∀ q, L1 q = L2 q) → plain_run h L1 = plain_run h L2.
Proof.
  revert L1 L2; induction h as [|e h IH]; intros L1 L2 E; cbn; [done|]. f_equal.
  - unfold plain_answer. case_match; by rewrite ?E.
  - apply IH. intros q. by rewrite (plain_step_ext _ _ L1 L2).
Qed.

(** The time a history is over, and the entries then. *)
Fixpoint over (T : Z) (h : list event) : Z := match h with [] => T | e :: h => over (ev_end e) h end.
Fixpoint plain_end (h : list event) (L : PeerID → list AddrEntry) : PeerID → list AddrEntry :=
  match h with
  | [] => L
  | e :: h => plain_end h (λ q, live (ev_end e) (plain_step (ev_clk e) (ev_call e) L q))
  end.

Lemma plain_end_ext h L1 L2 : (∀ q, L1 q = L2 q) → ∀ q, plain_end h L1 q = plain_end h L2 q.
Proof.
  revert L1 L2; induction h as [|e h IH]; intros L1 L2 E; [done|]. cbn [plain_end]. apply IH. intros q. by rewrite (plain_step_ext _ _ L1 L2).
Qed.

Definition collects (e : event) : bool := if ev_call e is CCollect _ _ then true else false.

Context {rs : ReliableStore} {kl : KeyLaws} {ql : QueryLaws} {fl : FormatLaws} {SL : SortLaw sort_Slice}.

Lemma step_spec {ca : Cache PeerID positive} {cl : CacheLaws} T e b :
  Inv T b → timely T [e] →
  ∃ b', step e b = Ret (plain_answer (ev_clk e) (ev_call e) (served T b), b') ∧
    becomes T (ev_end e) b b' (plain_step (ev_clk e) (ev_call e)).
Proof.
  intros HI (H0 & Hm & He & _). destruct e as [clk T' c]. cbn [ev_clk ev_end ev_call] in *.
  assert (T ≤ T') as HT by (specialize (He 0%nat); lia).
  pose proof (Hm 0%nat) as H1. pose proof (Hm 1%nat) as H2.
  assert (becomes T T' b b (λ L, L)) as Hsame by (apply becomes_same; [done|by eapply Inv_later|done]).
  destruct c as [p l ttl|p l ttl|p o n|p|p|opts la]; unfold step, plain_step, plain_answer; cbn [ev_clk ev_call].
  - unfold AddAddrs. case_bool_decide; [by exists b|].
    destruct (setAddrs_spec sort_Slice late T clk p (cleanAddrs l p) ttl ttlExtend false b HI H0 ltac:(lia)) as (b' & E & HB).
    exists b'. rewrite <- bind_assoc, (bind_run _ _ _ _ _ E). split; [done|]. by eapply becomes_weaken, HB.
  - unfold SetAddrs. case_bool_decide.
    + destruct (deleteAddrs_spec sort_Slice T clk p (cleanAddrs l p) b HI H0 ltac:(lia)) as (b' & E & HB).
      exists b'. rewrite <- bind_assoc, (bind_run _ _ _ _ _ E). split; [done|]. by eapply becomes_weaken, HB.
    + destruct (setAddrs_spec sort_Slice late T clk p (cleanAddrs l p) ttl ttlOverride false b HI H0 ltac:(lia)) as (b' & E & HB).
      exists b'. rewrite <- bind_assoc, (bind_run _ _ _ _ _ E). split; [done|]. by eapply becomes_weaken, HB.
  - destruct (UpdateAddrs_spec sort_Slice T clk p o n b HI H0 ltac:(lia)) as (b' & E & HB).
    exists b'. rewrite (bind_run _ _ _ _ _ E). split; [done|]. by eapply becomes_weaken, HB.
  - destruct (ClearAddrs_spec T p b HI) as (b' & E & HB).
    exists b'. rewrite (bind_run _ _ _ _ _ E). split; [done|]. by eapply becomes_weaken, HB.
  - destruct (Addrs_spec sort_Slice T (clk 0%nat) p b HI H0) as (b' & E & HB).
    exists b'. rewrite (bind_run _ _ _ _ _ E). split; [done|]. eapply becomes_weaken, HB. apply He.
  - destruct (tick_spec (SL := SL) T' (served T' b) opts (if la then TLookahead (clk 0%nat) else TPurge clk) (MkSweep b None))
      as (s' & E & HI' & HS'); [by destruct la|by split; [eapply Inv_later|]|].
    rewrite E. exists (sw_book s'). split; [done|]. by apply becomes_same.
Qed.

Lemma run_plain {ca : Cache PeerID positive} {cl : CacheLaws} T h b :
  Inv T b → timely T h → ∃ b', run h b = Ret (plain_run h (served T b), b') ∧
    Inv (over T h) b' ∧ ∀ q, served (over T h) b' q = plain_end h (served T b) q.
Proof.
  revert T b; induction h as [|e h IH]; intros T b HI Ht; [by exists b|].
  destruct Ht as (H0 & Hm & He & Ht). destruct (step_spec T e b HI) as (b1 & E1 & HI1 & HS1); [by split_and!|].
  destruct (IH (ev_end e) b1 HI1 Ht) as (b2 & E2 & HI2 & HS2). exists b2. cbn [run].
  rewrite (bind_run _ _ _ _ _ E1), (bind_run _ _ _ _ _ E2). split.
  - cbn [plain_run]. unfold mret, GoM_ret. do 3 f_equal. by apply plain_run_ext.
  - split; [done|]. intros q. cbn [over plain_end]. rewrite HS2. by apply plain_end_ext.
Qed.

Lemma timely_filter T h : timely T h → timely T (filter (λ e, collects e = false) h).
Proof.
  assert (∀ T T' h, T ≤ T' → timely T' h → timely T h) as Hw.
  { intros t t' [|e l]; [done|]. intros ? (? & ? & ? & ?). split_and!; (done || lia). }
  revert T; induction h as [|e h IH]; intros T Ht; [done|]. destruct Ht as (H0 & Hm & He & Ht). rewrite filter_cons. case_decide.
  - split_and!; try done. by apply IH.
  - apply (Hw T (ev_end e)); [specialize (He 0%nat); lia|]. by apply IH.
Qed.

Lemma plain_step_live clk c T T' L q : T ≤ clk 0%nat → clk 0%nat ≤ T' →
  live T' (plain_step clk c (λ q, live T (L q)) q) = live T' (plain_step clk c L q).
Proof.
  intros H0 H1. assert (∀ l, live T' (live T l) = live T' l) as E by (intros; apply live_live; lia).
  unfold plain_step, at_peer, plain_set, plain_delete, plain_update.
  destruct c; rewrite ?live_live by done; repeat (case_bool_decide || case_decide); rewrite ?E, ?live_live by done; try done.
Qed.

Lemma plain_run_live T h L : timely T h → plain_run h (λ q, live T (L q)) = plain_run h L.
Proof.
  revert L; destruct h as [|[clk T' c] h]; intros L; [done|]. intros (H0 & Hm & He & Ht). cbn [ev_clk ev_end ev_call plain_run] in *.
  f_equal; [unfold plain_answer; case_match; by rewrite ?live_live|].
  apply plain_run_ext. intros q. by apply plain_step_live.
Qed.

Lemma plain_run_uncollected T h L : timely T h → plain_run (filter (λ e, collects e = false) h) L = plain_run h L.
Proof.
  revert T L; induction h as [|e h IH]; intros T L; [done|]. intros (H0 & Hm & He & Ht). rewrite filter_cons. case_decide as Hc.
  - cbn [plain_run]. f_equal. by eapply IH.
  - cbn [plain_run]. destruct e as [clk T' c]. destruct c; try done. cbn [plain_answer plain_step ev_clk ev_call ev_end app].
    rewrite (plain_run_live T') by done. by eapply IH.
Qed.

(** C12: Neither the cache nor the collection of garbage can be observed.  Whatever a
    cache keeps or drops, and however the ticks of the collector, full or with a window,
    come between the calls, the addresses that a book over a datastore answers in a
    history of additions, settings, updates, clearings and lookups are those of a book
    on the same datastore with no cache and no collector. *)
Theorem cache_unobservable {ca : Cache PeerID positive} {cl : CacheLaws} T h
    (b : dsAddrBook (ca := ca)) (b0 : dsAddrBook (ca := noopCache)) :
  timely T h → Inv T b → db_ds b0 = db_ds b →
  ∃ answers b' b0', run h b = Ret (answers, b') ∧ run (filter (λ e, collects e = false) h) b0 = Ret (answers, b0').
Proof.
  intros Ht HI Ed. assert (Inv (ca := noopCache) T b0) as HI0.
  { constructor; [rewrite Ed; apply HI|]. intros p l Hl.
    change ((∅ : gmap PeerID positive) !! p = Some l) in Hl. by rewrite lookup_empty in Hl. }
  destruct (run_plain T h b HI Ht) as (b' & E & _).
  destruct (run_plain T _ b0 HI0 (timely_filter T h Ht)) as (b0' & E0 & _).
  exists (plain_run h (served T b)), b', b0'. split; [exact E|]. rewrite E0. rewrite (plain_run_uncollected T) by done.
  do 2 f_equal. apply plain_run_ext. intros q. unfold served. by rewrite Ed.
Qed.
End Histories.

(** ** The table of addresses *)

Section Table.
Context {ds : Datastore} {bt : Batching} {ma : Multiaddrs} {lp : Libp2p} {ft : DsFormats}.
Context (sort_Slice : list AddrEntry → list AddrEntry) (late : positive → bool).
Context {rs : ReliableStore} {kl : KeyLaws} {ql : QueryLaws} {fl : FormatLaws} {SL : SortLaw sort_Slice} {ml : MultiaddrLaws}.
Abbreviation addrs_of l := (ae_Addr <$> l).

(** The addresses of a call are distinct, and those to delete at most one. *)
Definition proper_call (c : call) : Prop :=
  match c with
  | CAdd p l _ => NoDup (said p l)
  | CSet p l ttl => if decide (ttl ≤ 0) then (length (said p l) ≤ 1)%nat else NoDup (said p l)
  | _ => True
  end.

(** What is left of an entry at a time. *)
Definition alive (now : Z) (o : option (Z * Z)) : option (Z * Z) :=
  match o with Some (ttl, exp) => if decide (Unix now < exp) then Some (ttl, exp) else None | None => None end.

(** The calls on a table of lifetimes and expiries, in seconds. *)
Definition ds_spec (clk : nat → Z) (c : call) (t : Table) : Table := λ q k,
  match c with
  | CAdd p l ttl =>
      if decide (q = p ∧ 0 < ttl ∧ k ∈ said p l) then
        Some (match alive (clk 0%nat) (t p k) with
              | None => (ttl, Unix (clk 1%nat + ttl))
              | Some (ttl0, exp0) => (Z.max ttl0 ttl, Z.max exp0 (Unix (clk 1%nat + ttl)))
              end)
      else t q k
  | CSet p l ttl =>
      if decide (q = p ∧ k ∈ said p l) then if decide (0 < ttl) then Some (ttl, Unix (clk 1%nat + ttl)) else None else t q k
  | CUpdate p oldTTL newTTL =>
      match alive (clk 0%nat) (t q k) with
      | Some (ttl, _) => if decide (q = p ∧ ttl = oldTTL) then Some (newTTL, Unix (clk 1%nat + newTTL)) else t q k
      | None => t q k
      end
  | CClear p => if decide (q = p) then None else t q k
  | CLook _ | CCollect _ _ => t q k
  end.

(** The entries of each peer are those of the table that are alive. *)
Record tabled (T : Z) (L : PeerID → list AddrEntry) (t : Table) : Prop := {
  tb_NoDup q : NoDup (addrs_of (L q));
  tb_addr q e : e ∈ L q → ∃ a, ae_Addr e = MarshalBinary a;
  tb_table q e : e ∈ L q ↔ Unix T < Expiry e ∧ t q (ae_Addr e) = Some (Ttl e, Expiry e);
}.

Lemma alive_Some now o ttl exp : alive now o = Some (ttl, exp) ↔ o = Some (ttl, exp) ∧ Unix now < exp.
Proof. unfold alive. destruct o as [[ttl0 exp0]|]; [|naive_solver]. case_decide; naive_solver. Qed.

Lemma NoDup_live now (l : list AddrEntry) : NoDup (addrs_of l) → NoDup (addrs_of (live now l)).
Proof.
  unfold live. induction l as [|e l IH]; [done|]. intros [Hni HN]%NoDup_cons. rewrite filter_cons. case_decide; [|by apply IH].
  apply NoDup_cons. split; [|by apply IH]. intros (x & E & [_ Hx]%list_elem_of_filter)%list_elem_of_fmap_1.
  apply Hni. rewrite E. by apply list_elem_of_fmap_2.
Qed.

(** One entry of a list has a given address. *)
Lemma same_entry (l : list AddrEntry) e e' : NoDup (addrs_of l) → e ∈ l → e' ∈ l → ae_Addr e = ae_Addr e' → e = e'.
Proof.
  intros HN [i Hi]%list_elem_of_lookup_1 [j Hj]%list_elem_of_lookup_1 E.
  assert (i = j) as ->; [|congruence].
  eapply NoDup_lookup; [exact HN|..]; rewrite list_lookup_fmap, ?Hi, ?Hj; cbn; [done|by rewrite E].
Qed.

(** Deleting at most one address. *)
Lemma deleteInPlace_elem l addrs : NoDup (addrs_of l) → (length addrs ≤ 1)%nat →
  NoDup (addrs_of (deleteInPlace l addrs)) ∧
  ∀ e, e ∈ deleteInPlace l addrs ↔ e ∈ l ∧ ae_Addr e ∉ MarshalBinary <$> addrs.
Proof.
  intros HN Hlen. destruct (decide (Exists (λ e, ae_Addr e ∈ MarshalBinary <$> addrs) l)) as [HE|HE].
  - apply Exists_exists in HE as (e & Hin & He). apply list_elem_of_split in Hin as (l1 & l2 & ->).
    rewrite fmap_app in HN. cbn in HN. pose proof HN as HN'.
    assert (∀ x, x ∈ l1 ++ l2 → ae_Addr x ∉ MarshalBinary <$> addrs) as Hx.
    { intros x Hx Hd. assert (ae_Addr x = ae_Addr e) as E.
      { destruct addrs as [|a [|]]; cbn in Hlen, He, Hd; [by apply not_elem_of_nil in He| |lia].
        apply elem_of_cons in He as [->|He]; [|by apply not_elem_of_nil in He].
        by apply elem_of_cons in Hd as [->|Hd]; [|apply not_elem_of_nil in Hd]. }
      rewrite <- Permutation_middle in HN. apply NoDup_cons in HN as [HN _]. apply HN. rewrite <- fmap_app, <- E.
      by apply list_elem_of_fmap_2. }
    pose proof (delete_one l1 e l2 addrs He Hx) as HP. split.
    + rewrite HP. rewrite <- Permutation_middle in HN. apply NoDup_cons in HN as [_ HN]. by rewrite fmap_app.
    + intros x. rewrite HP. split; [intros H; split; [|by apply Hx]; rewrite <- Permutation_middle; by right|].
      intros [H Hd]. rewrite <- Permutation_middle in H. by apply elem_of_cons in H as [->|H].
  - rewrite delete_nowhere; [split; [done|]|].
    + intros e. split; [|by intros [? _]]. intros He. split; [done|]. intros Hd. apply HE, Exists_exists. by exists e.
    + intros e He Hd. apply HE, Exists_exists. by exists e.
Qed.

(** A change of one peer's entries. *)
Lemma tabled_peer T T' clk p f L t t' : T ≤ clk 0%nat → clk 0%nat ≤ T' → tabled T L t →
  (∀ q k, q ≠ p → t' q k = t q k) →
  (∀ l, l = live (clk 0%nat) (L p) → NoDup (addrs_of l) → (∀ e, e ∈ l ↔ alive (clk 0%nat) (t p (ae_Addr e)) = Some (Ttl e, Expiry e)) →
     NoDup (addrs_of (f (L p))) ∧ (∀ e, e ∈ f (L p) → ∃ a, ae_Addr e = MarshalBinary a) ∧
     ∀ e, Unix T' < Expiry e → e ∈ f (L p) ↔ t' p (ae_Addr e) = Some (Ttl e, Expiry e)) →
  tabled T' (λ q, live T' (at_peer p f L q)) t'.
Proof.
  intros H0 H1 [HN HA HT] Hq Hf. apply Unix_mono in H0 as H0', H1 as H1'.
  destruct (Hf (live (clk 0%nat) (L p)) eq_refl) as (HN' & HA' & HT').
  { by apply NoDup_live. }
  { intros e. rewrite elem_of_live, HT, alive_Some. naive_solver lia. }
  constructor; intros q; unfold at_peer; destruct (decide (q = p)) as [->|Hne].
  - by apply NoDup_live.
  - by apply NoDup_live.
  - intros e [_ He]%elem_of_live. by apply HA'.
  - intros e [_ He]%elem_of_live. by eapply HA.
  - intros e. rewrite elem_of_live. split; intros [Hl He]; (split; [done|]); by apply HT'.
  - intros e. rewrite elem_of_live, HT, Hq by done. naive_solver lia.
Qed.

Lemma perm_elem (l l' : list AddrEntry) : l ≡ₚ l' → ∀ e, e ∈ l ↔ e ∈ l'.
Proof. intros E e. by rewrite E. Qed.

(** [setAddrs] on the table *)
Lemma plain_set_tabled T' clk p mode ttl inc l0 (t0 t' : bytes → option (Z * Z)) :
  inc ≠ [] → NoDup (MarshalBinary <$> inc) →
  let l := live (clk 0%nat) l0 in
  NoDup (addrs_of l) → (∀ e, e ∈ l → ∃ a, ae_Addr e = MarshalBinary a) →
  (∀ e, e ∈ l ↔ alive (clk 0%nat) (t0 (ae_Addr e)) = Some (Ttl e, Expiry e)) →
  (∀ k, t' k = if decide (k ∈ MarshalBinary <$> inc)
               then Some (match alive (clk 0%nat) (t0 k) with
                          | Some (ttl0, exp0) => let e := update_existing mode ttl (Unix (clk 1%nat + ttl)) (MkEntry k exp0 ttl0) in (Ttl e, Expiry e)
                          | None => (ttl, Unix (clk 1%nat + ttl))
                          end) else t0 k) → clk 0%nat ≤ T' →
  let l' := plain_set sort_Slice clk p mode ttl inc l0 in
  NoDup (addrs_of l') ∧ (∀ e, e ∈ l' → ∃ a, ae_Addr e = MarshalBinary a) ∧
  ∀ e, Unix T' < Expiry e → e ∈ l' ↔ t' (ae_Addr e) = Some (Ttl e, Expiry e).
Proof.
  intros Hne HI l HN HA HL Ht Hle l'. set (newExp := Unix (clk 1%nat + ttl)) in *.
  assert (l' ≡ₚ set_entries p mode ttl newExp inc l) as HP.
  { unfold l', plain_set. rewrite bool_decide_eq_false_2 by done. apply sort_perm. }
  split; [rewrite HP; by apply set_entries_NoDup|]. split.
  - intros e He%(perm_elem _ _ HP). apply set_entries_elem in He; [|done..]. case_decide as Hk; [|by apply HA].
    apply list_elem_of_fmap_1 in Hk as (a & -> & _). by exists a.
  - intros e He. rewrite (perm_elem _ _ HP e), set_entries_elem, Ht by done. case_decide as Hk.
    + destruct (alive (clk 0%nat) (t0 (ae_Addr e))) as [[ttl0 exp0]|] eqn:Ea.
      * assert (MkEntry (ae_Addr e) exp0 ttl0 ∈ l) as Hin by by apply HL.
        split.
        -- intros [(e0 & H0 & ->)|[Hno _]]; [|destruct Hno; by apply (list_elem_of_fmap_2 ae_Addr) in Hin].
           rewrite update_existing_addr in Hin, Ea |- *. by rewrite (same_entry l _ e0 HN Hin H0 eq_refl).
        -- intros [= E1 E2]. left. eexists. split; [exact Hin|]. destruct e as [k exp ttl1]. cbn in *. subst. by destruct mode.
      * split.
        -- intros [(e0 & H0 & ->)|[_ ->]]; [|done]. rewrite update_existing_addr in Ea. apply HL in H0. congruence.
        -- intros [= E1 E2]. right. split; [|destruct e; cbn in *; congruence].
           intros (e0 & Ek & H0)%list_elem_of_fmap_1. apply HL in H0. rewrite <- Ek in H0. congruence.
    + rewrite HL, alive_Some. apply Unix_mono in Hle. split; [by intros [? _]|]. intros Ht0. split; [done|lia].
Qed.

Lemma tabled_same T T' L t : T ≤ T' → tabled T L t → tabled T' (λ q, live T' (L q)) t.
Proof.
  intros Hle%Unix_mono [HN HA HT]. constructor; intros q.
  - by apply NoDup_live.
  - intros e [_ He]%elem_of_live. by eapply HA.
  - intros e. rewrite elem_of_live, HT. naive_solver lia.
Qed.

Lemma said_clean p l : said p l = MarshalBinary <$> cleanAddrs l p.
Proof. done. Qed.

Lemma set_case clk T T' p mode ttl l L t t' :
  T ≤ clk 0%nat → clk 0%nat ≤ T' → tabled T L t → NoDup (said p l) →
  (∀ q k, q ≠ p → t' q k = t q k) →
  (∀ k, t' p k = if decide (k ∈ said p l)
               then Some (match alive (clk 0%nat) (t p k) with
                          | Some (ttl0, exp0) => let e := update_existing mode ttl (Unix (clk 1%nat + ttl)) (MkEntry k exp0 ttl0) in (Ttl e, Expiry e)
                          | None => (ttl, Unix (clk 1%nat + ttl))
                          end) else t p k) →
  tabled T' (λ q, live T' (at_peer p (plain_set sort_Slice clk p mode ttl (cleanAddrs l p)) L q)) t'.
Proof.
  intros H0 H1 HT HN Hq Hp. apply (tabled_peer T T' clk p _ L t t'); try done. intros l1 -> HN1 HL1.
  rewrite said_clean in *. destruct (decide (cleanAddrs l p = [])) as [E|Hne].
  - unfold plain_set. rewrite E, bool_decide_eq_true_2 by done. split; [apply HT|]. split; [intros e; apply (tb_addr _ _ _ HT)|].
    intros e He. rewrite (tb_table _ _ _ HT), Hp. rewrite E. rewrite decide_False by apply not_elem_of_nil.
    apply Unix_mono in H0, H1. split; [by intros [_ ?]|]. intros; split; [lia|done].
  - eapply (plain_set_tabled T' clk p mode ttl (cleanAddrs l p) (L p) (t p) (t' p)); try done.
    intros e [_ He]%elem_of_live. by eapply (tb_addr _ _ _ HT).
Qed.

Lemma tabled_step T e L t : timely T [e] → proper_call (ev_call e) → tabled T L t →
  tabled (ev_end e) (λ q, live (ev_end e) (plain_step sort_Slice (ev_clk e) (ev_call e) L q)) (ds_spec (ev_clk e) (ev_call e) t).
Proof.
  destruct e as [clk T' c]. cbn [ev_clk ev_end ev_call]. intros (H0 & _ & He & _) HP HT. cbn in H0, He. pose proof (He 0%nat) as H1.
  assert (T ≤ T') as HTT by lia. pose proof (tabled_same T T' L t HTT HT) as Hsame.
  destruct c as [p l ttl|p l ttl|p o n|p|p|opts la]; unfold plain_step, ds_spec; try exact Hsame.
  - case_bool_decide as Ht.
    + destruct Hsame as [SN SA SP]. constructor; [done|done|]. intros q e. rewrite SP.
      by rewrite decide_False by (intros (_ & ? & _); lia).
    + apply (set_case clk T T' p ttlExtend ttl l L t); try done.
      * intros q k Hq. by rewrite decide_False by naive_solver.
      * intros k. destruct (decide (k ∈ said p l)); [rewrite decide_True by (split_and!; [done|lia|done])|by rewrite decide_False by naive_solver].
        destruct (alive (clk 0%nat) (t p k)) as [[ttl0 exp0]|]; [|done]. cbn. do 2 f_equal; case_bool_decide; lia.
  - cbn in HP. case_bool_decide as Ht.
    + rewrite decide_True in HP by done.
      apply (tabled_peer T T' clk p _ L t); try done.
      { intros q k Hq. by rewrite decide_False by naive_solver. }
      intros l1 E1 HN1 HL1. rewrite said_clean, length_fmap in HP.
      destruct (deleteInPlace_elem l1 (cleanAddrs l p) HN1 HP) as [HN2 HE2].
      assert (plain_delete sort_Slice clk (cleanAddrs l p) (L p) ≡ₚ deleteInPlace l1 (cleanAddrs l p)) as HPm by (rewrite E1; unfold plain_delete; apply sort_perm).
      split; [by rewrite HPm|]. split.
      * intros e [He' _]%(perm_elem _ _ HPm)%HE2. rewrite E1 in He'. apply elem_of_live in He' as [_ He']. by eapply (tb_addr _ _ _ HT).
      * intros e Hexp. rewrite (perm_elem _ _ HPm e), HE2, HL1, alive_Some, said_clean. apply Unix_mono in H1.
        rewrite (decide_False (P := 0 < ttl)) by lia.
        destruct (decide (ae_Addr e ∈ MarshalBinary <$> cleanAddrs l p)); [rewrite decide_True by done|rewrite decide_False by naive_solver];
          naive_solver lia.
    + rewrite decide_False in HP by done. apply (set_case clk T T' p ttlOverride ttl l L t); try done.
      * intros q k Hq. by rewrite decide_False by naive_solver.
      * intros k. rewrite (decide_True (P := 0 < ttl)) by lia.
        destruct (decide (k ∈ said p l)); [rewrite decide_True by done|by rewrite decide_False by naive_solver].
        by destruct (alive (clk 0%nat) (t p k)) as [[ttl0 exp0]|].
  - apply (tabled_peer T T' clk p _ L t); try done.
    { intros q k Hq. destruct (alive (clk 0%nat) (t q k)) as [[]|]; [|done]. by rewrite decide_False by naive_solver. }
    intros l1 E1 HN1 HL1. set (newExp := Unix (clk 1%nat + n)).
    assert (plain_update sort_Slice clk o n (L p) ≡ₚ update_ttl o n newExp <$> l1) as HPm.
    { unfold plain_update. rewrite <- E1. destruct (existsb _ l1) eqn:Ex; [apply sort_perm|]. by rewrite update_none. }
    assert (∀ e, ae_Addr (update_ttl o n newExp e) = ae_Addr e) as Ea by (intros e; unfold update_ttl; by case_bool_decide).
    split; [|split].
    + rewrite HPm, <- list_fmap_compose, (list_fmap_ext (ae_Addr ∘ update_ttl o n newExp) ae_Addr l1); [done|]. intros; apply Ea.
    + intros e (e0 & -> & He0)%(perm_elem _ _ HPm)%list_elem_of_fmap_1. rewrite Ea. rewrite E1 in He0.
      apply elem_of_live in He0 as [_ He0]. by eapply (tb_addr _ _ _ HT).
    + intros e Hexp. rewrite (perm_elem _ _ HPm e). apply Unix_mono in H1. split.
      * intros (e0 & -> & He0)%list_elem_of_fmap_1. apply HL1 in He0 as Ht0. rewrite Ea, Ht0.
        apply alive_Some in Ht0 as [Ht0 _]. unfold update_ttl. case_bool_decide as Ho; [by rewrite decide_False by naive_solver|].
        by rewrite decide_True.
      * intros Ht'. destruct (alive (clk 0%nat) (t p (ae_Addr e))) as [[ttl0 exp0]|] eqn:Eal.
        -- assert (MkEntry (ae_Addr e) exp0 ttl0 ∈ l1) as Hin by by apply HL1.
           apply (list_elem_of_fmap_2 (update_ttl o n newExp)) in Hin.
           assert (update_ttl o n newExp (MkEntry (ae_Addr e) exp0 ttl0) = e) as Eu; [|by rewrite Eu in Hin].
           unfold update_ttl. cbn. destruct e as [k exp ttl1]; cbn in *. destruct (decide (ttl0 = o)) as [Ho|Ho].
           ++ rewrite decide_True in Ht' by done. rewrite bool_decide_eq_false_2 by (intros Hn; by apply Hn). by injection Ht' as <- <-.
           ++ rewrite decide_False in Ht' by naive_solver. apply alive_Some in Eal as [Eal _]. rewrite Eal in Ht'.
              rewrite bool_decide_eq_true_2 by done. by injection Ht' as <- <-.
        -- exfalso. assert (alive (clk 0%nat) (t p (ae_Addr e)) = Some (Ttl e, Expiry e)) as Hs by (apply alive_Some; split; [done|lia]). congruence.
  - apply (tabled_peer T T' clk p _ L t); try done.
    { intros q k Hq. by rewrite decide_False. }
    intros l1 _ _ _. split; [constructor|]. split; [intros e He'; by apply not_elem_of_nil in He'|].
    intros e _. rewrite decide_True by done. split; [intros He'; by apply not_elem_of_nil in He'|done].
Qed.

Fixpoint spec_run (h : list event) (t : Table) : Table :=
  match h with [] => t | e :: h => spec_run h (ds_spec (ev_clk e) (ev_call e) t) end.

Lemma tabled_end T h L t : timely T h → Forall (λ e, proper_call (ev_call e)) h → tabled T L t →
  tabled (over T h) (plain_end sort_Slice h L) (spec_run h t).
Proof.
  revert T L t; induction h as [|e h IH]; intros T L t Ht HP HT; [done|]. destruct Ht as (H0 & Hm & He & Ht).
  apply Forall_cons in HP as [Hp HP]. cbn [over plain_end spec_run]. apply IH; try done. eapply tabled_step; [by split_and!|done|exact HT].
Qed.

Lemma parsed_addrs l : (∀ e, e ∈ l → ∃ a, ae_Addr e = MarshalBinary a) → MarshalBinary <$> parsed l = addrs_of l.
Proof.
  intros HA. unfold parsed. assert (∃ k, mapM (λ a, NewMultiaddrBytes (ae_Addr a)) l = Some k ∧ MarshalBinary <$> k = addrs_of l) as (k & -> & Hk).
  { induction l as [|e l IH]; [by exists []|]. destruct IH as (k & E & Hk); [intros x Hx; apply HA; by right|].
    destruct (HA e (list_elem_of_here _ _)) as [a Ea]. exists (a :: k). cbn. rewrite Ea, multiaddr_bytes. cbn. rewrite E. cbn. by rewrite Hk. }
  done.
Qed.

(** A lookup answers the table. *)
Lemma Addrs_table {ca : Cache PeerID positive} {cl : CacheLaws} T now p (b : dsAddrBook) t :
  Inv T b → tabled T (served T b) t → T ≤ now →
  ∃ l b2, Addrs sort_Slice now p b = Ret (l, b2) ∧ NoDup l ∧
    ∀ a, a ∈ l ↔ ∃ ttl exp, t p (MarshalBinary a) = Some (ttl, exp) ∧ Unix now < exp.
Proof.
  intros HI HT Hnow. destruct (Addrs_spec sort_Slice T now p b HI Hnow) as (b2 & E2 & _).
  eexists _, b2. split; [exact E2|]. set (l := live now _). fold (parsed l).
  assert (MarshalBinary <$> parsed l = addrs_of l) as EP.
  { apply parsed_addrs. intros e [_ He]%elem_of_live. by eapply (tb_addr _ _ _ HT). }
  split.
  - apply (NoDup_fmap_1 MarshalBinary). rewrite EP. apply NoDup_live. apply HT.
  - intros a. assert (a ∈ parsed l ↔ MarshalBinary a ∈ addrs_of l) as ->.
    { rewrite <- EP. split; [apply list_elem_of_fmap_2|]. intros (x & Ex & Hx)%list_elem_of_fmap_1.
      assert (Some a = Some x) as [= ->]; [|done]. by rewrite <- (multiaddr_bytes a), Ex, multiaddr_bytes. }
    split.
    + intros (e & Ea & [He1 He2]%elem_of_live)%list_elem_of_fmap_1. apply (tb_table _ _ _ HT) in He2 as [_ He2].
      rewrite Ea. by eexists _, _.
    + intros (ttl & exp & Et & He). change (MarshalBinary a) with (ae_Addr (MkEntry (MarshalBinary a) exp ttl)).
      apply list_elem_of_fmap_2, elem_of_live. split; [done|]. apply (tb_table _ _ _ HT). split; [|done].
      apply Unix_mono in Hnow. cbn. lia.
Qed.

Lemma tabled_ext T L1 L2 t : (∀ q, L1 q = L2 q) → tabled T L1 t → tabled T L2 t.
Proof.
  intros E [HN HA HT]. constructor; intros q; [rewrite <- E; apply HN|intros e; rewrite <- E; apply HA|intros e; rewrite <- E; apply HT].
Qed.

(** A book on an empty datastore. *)
Record new_book {ca : Cache PeerID positive} {cl : CacheLaws} (b : dsAddrBook) : Prop := {
  nb_store k : region k → ds_Get k (db_ds b) = inr ds_ErrNotFound;
  nb_made : ∃ opts c, contents c = ∅ ∧ NewAddrBook (db_ds b) opts (inl c) = inl b;
}.

Lemma run_table {ca : Cache PeerID positive} {cl : CacheLaws} T h (b : dsAddrBook) :
  new_book b → timely T h → Forall (λ e, proper_call (ev_call e)) h →
  ∃ answers b', run sort_Slice late h b = Ret (answers, b') ∧ Inv (over T h) b' ∧
    tabled (over T h) (served (over T h) b') (spec_run h (λ _ _, None)).
Proof.
  intros [Hd (opts & c & Hc & EB)] Ht HP. unfold NewAddrBook in EB. destruct (newAddressBookGc opts); [done|]. injection EB as EB.
  assert (Inv T b) as HI.
  { constructor; [intros k Hk; left; by apply Hd|]. intros p l. rewrite <- EB. cbn. by rewrite Hc, lookup_empty. }
  destruct (run_plain sort_Slice late T h b HI Ht) as (b' & E & HI' & HS').
  eexists _, b'. split; [exact E|]. split; [done|].
  eapply tabled_ext; [intros q; symmetry; apply HS'|]. apply tabled_end; try done.
  eapply (tabled_ext _ (λ _, [])).
  { intros q. unfold served, stored. by rewrite Hd by apply region_addr. }
  constructor; intros q; [constructor|intros e He; by apply not_elem_of_nil in He|].
  intros e. split; [intros He; by apply not_elem_of_nil in He|by intros [_ ?]].
Qed.

(** C11: The address book over a datastore, with its records, its cache and its
    collector, implements a table from peers and addresses to a lifetime and an expiry
    in whole seconds: an addition to an address that is alive raises both to the
    greater of old and new, and an address whose time is over is new again; after any
    history of calls in the order of time, on an empty datastore that does not fail,
    the addresses answered for a peer are, each once, those whose expiry is to come.
    The calls name each address once, and at most one when they delete. *)
Theorem ds_book_refines {ca : Cache PeerID positive} {cl : CacheLaws} T h (b : dsAddrBook) :
  new_book b → timely T h → Forall (λ e, proper_call (ev_call e)) h →
  ∃ answers b', run sort_Slice late h b = Ret (answers, b') ∧
    ∀ now p, over T h ≤ now → ∃ l b2, Addrs sort_Slice now p b' = Ret (l, b2) ∧ NoDup l ∧
      ∀ a, a ∈ l ↔ ∃ ttl exp, spec_run h (λ _ _, None) p (MarshalBinary a) = Some (ttl, exp) ∧ Unix now < exp.
Proof.
  intros Hb Ht HP. destruct (run_table T h b Hb Ht HP) as (answers & b' & E & HI & HT).
  exists answers, b'. split; [done|]. intros now p Hnow. by apply (Addrs_table (over T h)).
Qed.

(** ** In place of the book in memory *)

(** The same call on the book in memory. *)
Definition mem_op (c : call) : option op :=
  match c with
  | CAdd p l ttl => Some (OpAdd p l ttl)
  | CSet p l ttl => Some (OpSet p l ttl)
  | CUpdate p oldTTL newTTL => Some (OpUpdate p oldTTL newTTL)
  | CClear p => Some (OpClear p)
  | CLook _ => None
  | CCollect _ _ => Some OpGC
  end.
Definition mem_step (b : memoryAddrBook) (e : event) : memoryAddrBook :=
  match mem_op (ev_call e) with Some o => book_step late (ev_clk e 0%nat) o b | None => b end.

(** The clock stands still during a call, times and lifetimes are whole seconds, and
    no lifetimes are updated. *)
Definition whole (z : Z) : Prop := ∃ s, z = 10 ^ 9 * s.
Definition in_seconds (e : event) : Prop :=
  (∀ i, ev_clk e i = ev_clk e 0%nat) ∧ whole (ev_clk e 0%nat) ∧
  match ev_call e with CAdd _ _ ttl | CSet _ _ ttl => whole ttl | CUpdate _ _ _ => False | _ => True end.

(** The same addresses are alive in both tables, with the same expiry. *)
Definition same_time (T : Z) (tm td : Table) : Prop := ∀ q k s,
  T < 10 ^ 9 * s → (∃ ttl, tm q k = Some (ttl, 10 ^ 9 * s)) ↔ (∃ ttl, td q k = Some (ttl, s)).
Definition whole_table (tm : Table) : Prop := ∀ q k ttl exp, tm q k = Some (ttl, exp) → whole exp.

Lemma Unix_lt T s : Unix T < s ↔ T < 10 ^ 9 * s.
Proof. unfold Unix. pose proof (Z.div_mod T (10 ^ 9) ltac:(lia)). pose proof (Z.mod_pos_bound T (10 ^ 9) ltac:(lia)). lia. Qed.

Lemma Unix_whole s : Unix (10 ^ 9 * s) = s.
Proof. unfold Unix. rewrite Z.mul_comm. by apply Z.div_mul. Qed.

Lemma same_alive T tm td n q k : same_time T tm td → whole_table tm → T ≤ 10 ^ 9 * n →
  match alive (10 ^ 9 * n) (td q k) with
  | Some (_, s) => (∃ ttl, tm q k = Some (ttl, 10 ^ 9 * s)) ∧ n < s
  | None => ∀ ttl e, tm q k = Some (ttl, e) → e ≤ 10 ^ 9 * n
  end.
Proof.
  intros HT HW Hle. destruct (alive (10 ^ 9 * n) (td q k)) as [[ttl s]|] eqn:E.
  - apply alive_Some in E as [E Hs]. rewrite Unix_whole in Hs. split; [|done]. apply HT; [lia|by eexists].
  - intros ttl e Ee. destruct (HW q k ttl e Ee) as [s ->]. destruct (decide (n < s)) as [Hs|Hs]; [|lia]. exfalso.
    destruct (proj1 (HT q k s ltac:(lia))) as [ttl' Ed]; [by eexists|].
    assert (alive (10 ^ 9 * n) (td q k) = Some (ttl', s)) by (apply alive_Some; by rewrite Unix_whole). congruence.
Qed.

Lemma same_time_step T e tm td o : timely T [e] → in_seconds e → mem_op (ev_call e) = Some o →
  same_time T tm td → whole_table tm →
  same_time (ev_end e) (spec_step (ev_clk e 0%nat) o tm) (ds_spec (ev_clk e) (ev_call e) td) ∧
  whole_table (spec_step (ev_clk e 0%nat) o tm).
Proof.
  destruct e as [clk T' c]. cbn [ev_clk ev_end ev_call]. intros (H0 & _ & He & _) (Hc & [n En] & Httl) Ho HT HW.
  cbn in H0, He, Hc, En, Httl. pose proof (He 0%nat) as H1. pose proof (Hc 1%nat) as H2. rewrite En in *.
  assert (∀ q k s, T' < 10 ^ 9 * s → (∃ ttl, tm q k = Some (ttl, 10 ^ 9 * s)) ↔ (∃ ttl, td q k = Some (ttl, s))) as Hold.
  { intros q k s Hs. apply HT. lia. }
  destruct c as [p l ttl|p l ttl|p oT nT|p|p|opts la]; cbn in Ho; injection Ho as <- || done; try done.
  - destruct Httl as [m ->]. unfold spec_step, ds_spec. rewrite H2, En.
    assert (∀ k, 0 < m → ∃ ttlm ttld E, (match tm p k with None => (10 ^ 9 * m, 10 ^ 9 * n + 10 ^ 9 * m)
         | Some (ttl0, exp0) => (Z.max ttl0 (10 ^ 9 * m), Z.max exp0 (10 ^ 9 * n + 10 ^ 9 * m)) end) = (ttlm, 10 ^ 9 * E) ∧
      (match alive (10 ^ 9 * n) (td p k) with None => (10 ^ 9 * m, Unix (10 ^ 9 * n + 10 ^ 9 * m))
         | Some (ttl0, exp0) => (Z.max ttl0 (10 ^ 9 * m), Z.max exp0 (Unix (10 ^ 9 * n + 10 ^ 9 * m))) end) = (ttld, E)) as Hnew.
    { intros k Hm. rewrite <- Z.mul_add_distr_l, Unix_whole. pose proof (same_alive T tm td n p k HT HW ltac:(lia)) as HA.
      destruct (alive (10 ^ 9 * n) (td p k)) as [[ttl0 s]|].
      - destruct HA as [[ttl1 ->] Hs]. eexists _, _, _. split; [|done]. f_equal. lia.
      - destruct (tm p k) as [[ttl1 e]|]; [|by eexists _, _, _].
        specialize (HA ttl1 e eq_refl). eexists _, _, (n + m). split; [|done]. f_equal. lia. }
    split.
    + intros q k s Hs. case_decide as Hd; [|by apply Hold]. destruct Hd as (-> & Hm & _).
      destruct (Hnew k ltac:(lia)) as (ttlm & ttld & E & -> & ->). split; intros [x [= _ HE]]; eexists; do 2 f_equal; [lia|by rewrite HE].
    + intros q k ttl e. case_decide as Hd; [|apply HW]. destruct Hd as (-> & Hm & _).
      destruct (Hnew k ltac:(lia)) as (ttlm & ttld & E & -> & _). intros [= _ <-]. by eexists.
  - destruct Httl as [m ->]. unfold spec_step, ds_spec. rewrite H2. rewrite <- Z.mul_add_distr_l, Unix_whole. split.
    + intros q k s Hs. case_decide as Hd; [|by apply Hold]. case_decide; [|naive_solver].
      split; intros [x [= _ HE]]; eexists; do 2 f_equal; [lia|by rewrite HE].
    + intros q k ttl e. case_decide; [|apply HW]. case_decide; [|done]. intros [= _ <-]. by eexists.
  - unfold spec_step, ds_spec. split.
    + intros q k s Hs. case_decide; [naive_solver|by apply Hold].
    + intros q k ttl e. case_decide; [done|apply HW].
  - unfold spec_step, ds_spec. split.
    + intros q k s Hs. rewrite <- Hold by done. destruct (tm q k) as [[ttl e]|]; [|done]. case_decide; [done|].
      split; [by intros [? ?]|]. intros [x [= _ ->]]. lia.
    + intros q k ttl e. destruct (tm q k) as [[ttl0 e0]|] eqn:E; [|done]. case_decide; [|done]. intros HX. rewrite <- E in HX. by eapply HW.
Qed.

Lemma same_time_run T h tm td : timely T h → Forall in_seconds h → same_time T tm td → whole_table tm →
  let tm' := foldl (λ t e, match mem_op (ev_call e) with Some o => spec_step (ev_clk e 0%nat) o t | None => t end) tm h in
  same_time (over T h) tm' (spec_run h td) ∧ whole_table tm'.
Proof.
  revert T tm td; induction h as [|e h IH]; intros T tm td Ht HF HT HW; [done|]. apply Forall_cons in HF as [He HF].
  pose proof Ht as (H0 & Hm & Hend & Ht'). cbn [over foldl spec_run].
  destruct (mem_op (ev_call e)) as [o|] eqn:Eo.
  - destruct (same_time_step T e tm td o) as [HT' HW']; [by split_and!|done..|]. by apply IH.
  - destruct e as [clk T' c]. destruct c; try done. cbn in *. apply IH; try done.
    intros q k s Hs. apply HT. specialize (Hend 0%nat). lia.
Qed.

Lemma mem_run_view h b (t : Table) : book_wf b → (∀ q k, view b q k = t q k) →
  book_wf (foldl mem_step b h) ∧ ∀ q k, view (foldl mem_step b h) q k
  = foldl (λ t e, match mem_op (ev_call e) with Some o => spec_step (ev_clk e 0%nat) o t | None => t end) t h q k.
Proof.
  revert b t; induction h as [|e h IH]; intros b t HW E; [done|]. cbn [foldl]. apply IH.
  - unfold mem_step. destruct (mem_op _); [by apply book_step_wf|done].
  - intros q k. unfold mem_step. destruct (mem_op _) as [o|]; [|done]. rewrite book_step_view. destruct o; cbn; by rewrite ?E.
Qed.

(** C13: The book over a datastore stands in for the book in memory.  The history
    may add, set, clear, look and collect in any order, for any peers, nil addresses
    included, with these restrictions: lifetimes are not updated ([update_revives]
    shows a difference); the addresses of one addition or setting are distinct; a
    setting that deletes, its lifetime not positive, names one address at most
    ([deleteAddrs_wrong] shows what more lose); times and lifetimes are whole seconds
    and the clock stands still during a call, since the datastore counts in seconds.
    Then the two books answer the same addresses for every peer at any later time. *)
Theorem drop_in_replacement {ca : Cache PeerID positive} {cl : CacheLaws} T h (b : dsAddrBook) :
  new_book b → timely T h → Forall (λ e, proper_call (ev_call e)) h → Forall in_seconds h →
  ∃ answers b', run sort_Slice late h b = Ret (answers, b') ∧
    ∀ now p, over T h ≤ now → ∃ l b2, Addrs sort_Slice now p b' = Ret (l, b2) ∧
      ∀ a, a ∈ l ↔ a ∈ PeerMem.Addrs now p (foldl mem_step PeerMem.NewAddrBook h).
Proof.
  intros Hb Ht HP HS. destruct (run_table T h b Hb Ht HP) as (answers & b' & E & HI & HT).
  exists answers, b'. split; [done|]. intros now p Hnow.
  destruct (Addrs_table (over T h) now p b' _ HI HT Hnow) as (l & b2 & EL & _ & HL). exists l, b2. split; [done|].
  destruct (mem_run_view h PeerMem.NewAddrBook (λ _ _, None) new_wf) as [HW HV].
  { intros q k. unfold view, amap_of, seg_get, PeerMem.NewAddrBook. cbn [segments addrs]. rewrite lookup_empty. cbn [default]. by rewrite lookup_empty. }
  destruct (same_time_run T h (λ _ _, None) (λ _ _, None) Ht HS) as [HR HWt];
    [by intros q k s _; split; intros [x [=]]|by intros q k ttl exp [=]|].
  intros a. rewrite HL, Addrs_view by done. setoid_rewrite Unix_lt. split.
  - intros (ttl & s & Es & Hs). rewrite HV. destruct (proj2 (HR p (MarshalBinary a) s ltac:(lia))) as [x Ex]; [by eexists|].
    by exists x, (10 ^ 9 * s).
  - intros (ttl & exp & Ee & Hexp). rewrite HV in Ee. destruct (HWt _ _ _ _ Ee) as [s ->].
    destruct (proj1 (HR p (MarshalBinary a) s ltac:(lia))) as [x Ex]; [by eexists|]. by exists x, s.
Qed.
End Table.

(** ** What goes wrong *)

Section Wrong.
Context {ds : Datastore} {bt : Batching} {ma : Multiaddrs} {lp : Libp2p} {ft : DsFormats}.
Context (sort_Slice : list AddrEntry → list AddrEntry) (late : positive → bool).
Context {rs : ReliableStore} {kl : KeyLaws} {ql : QueryLaws} {fl : FormatLaws} {SL : SortLaw sort_Slice} {ml : MultiaddrLaws}.
Abbreviation addrs_of l := (ae_Addr <$> l).

(** The visit of a store with one record, some of whose addresses have expired: the
    cleaned record waits in the batch. *)
Lemma visit_one {ca : Cache PeerID positive} {cl : CacheLaws} clk p data (b : dsAddrBook) :
  Inv (clk 0%nat) b → ds_QueryEntries addrBookBase (db_ds b) = inl [(addr_key p, data)] → ds_Get (addr_key p) (db_ds b) = inl data →
  served (clk 0%nat) b p ≠ [] → served (clk 0%nat) b p ≠ stored (db_ds b) p →
  ∃ s1 w x, purge_visit sort_Slice clk (MkSweep b None) = Ret (None, s1) ∧ Inv (clk 0%nat) (sw_book s1) ∧
    (∀ q, served (clk 0%nat) (sw_book s1) q = served (clk 0%nat) b q) ∧
    sw_batch s1 = Some (MkCyclic 0 (Some [WPut (addr_key p) w]) 1) ∧ proto_Unmarshal w = inl x ∧
    default [] (r_Addrs x) = served (clk 0%nat) b p.
Proof.
  intros HI EQ Eg Hne Hexp. set (T := clk 0%nat) in *. set (C := served T b).
  assert (serves T C b) as HS by by split.
  destruct (inv_store _ _ HI (addr_key p) (region_addr p)) as [E|(w0 & x & E & EU & Ek & HX)]; [congruence|].
  rewrite Eg in E. injection E as <-. apply addr_key_inj in Ek.
  assert (stored (db_ds b) p = default [] (r_Addrs x)) as Est by (unfold stored; rewrite Eg; unfold entries_of; by rewrite EU).
  assert (of_peer T C x) as Hof by (split; [done|]; rewrite <- Est, <- Ek; done).
  set (s0 := MkSweep b (Some (MkCyclic 0 (Some []) 0))).
  assert (sweeping T C s0) as HS0 by (constructor; [done|]; by eexists _, [], _).
  destruct (clean sort_Slice T (MkAddrs x false)) as [chgd r] eqn:EC.
  destruct (clean_spec T (MkAddrs x false) chgd r ltac:(done) EC) as (EA & EI & ED & _ & Hch & _).
  change (Addrs_of r = live T (default [] (r_Addrs x))) in EA. rewrite <- Est in EA. change (Addrs_of r = C p) in EA.
  assert (chgd = true) as ->.
  { destruct chgd; [done|]. destruct (Hch eq_refl) as [Er _]. exfalso. apply Hexp. fold (C p). rewrite <- EA, Est, Er. done. }
  assert (r_Addrs (pb r) = Some (C p)) as Er.
  { unfold Addrs_of in EA. destruct (r_Addrs (pb r)) as [l|]; cbn in EA; [by rewrite EA|by symmetry in EA]. }
  destruct (proto_roundtrip (pb r) (C p) Er Hne) as (w & EM & EUw).
  pose proof (commit_ok [] (db_ds b)) as Hc. destruct (ds_Commit [] (db_ds b)) as [d1 e1] eqn:Ecm. cbn in Hc. subst e1.
  assert (flush_batch r s0 = Ret (with_dirty false r, MkSweep (with_ds d1 b) (Some (MkCyclic 0 (Some [WPut (addr_key p) w]) 1)))) as EF.
  { unfold flush_batch, s0. cbn [sw_batch sw_book]. unfold flush. rewrite EA.
    assert (zlen (C p) ≠ 0) as Hz by (intros Hz; apply Hne; change (C p = []); destruct (C p); [done|by unfold zlen in Hz]).
    rewrite bool_decide_eq_false_2 by done.
    rewrite EM. unfold cb_write, cycle. cbn [cb_Batch pending threshold]. rewrite bool_decide_eq_false_2 by lia. rewrite Ecm, batch_ok.
    cbn [cb_Batch default pending threshold app]. rewrite add_ok, EI. cbn [pb Id]. by rewrite <- Ek. }
  set (s1 := MkSweep (with_cache (cache_Remove p (db_cache b)) (with_ds d1 b)) (Some (MkCyclic 0 (Some [WPut (addr_key p) w]) 1))).
  assert (purge_entry sort_Slice T data s0 = Ret (tt, s1)) as EP.
  { unfold purge_entry. rewrite EU, EC, (bind_run _ _ _ _ _ EF). unfold on_book, updB. cbn [with_dirty pb sw_book sw_batch].
    rewrite EI. cbn [pb]. by rewrite <- Ek. }
  destruct (purge_entry_spec T C T data s0) as (s1' & EP' & [[HI1 HC1] _]); [lia|done|intros y Ey; rewrite EU in Ey; by injection Ey as <-|].
  rewrite EP in EP'. injection EP' as <-. exists s1, w, (pb r). split; [|split_and!; try done; by rewrite Er].
  unfold purge_visit. rewrite (bind_run _ _ (MkSweep b None) tt s0) by (unfold new_batch, newCyclicBatch; cbn; by rewrite batch_ok).
  change ((get ≫= ?f) s0) with (f s0 s0). cbn beta. change (db_ds (sw_book s0)) with (db_ds b). rewrite EQ. cbn [purge_entries].
  rewrite (bind_run _ _ s0 tt s1); [done|]. by rewrite (bind_run _ _ _ _ _ EP).
Qed.

(** The full collector can undo an addition.  It reads the records without their
    locks and writes what it made of them later, with its batch; an address that is
    added between the visit and the commit is on file before the commit and is not
    after it, and the peer has again what was alive at the visit. *)
Theorem purge_loses_update {ca : Cache PeerID positive} {cl : CacheLaws} clk clk' p data a ttl (b : dsAddrBook) :
  Inv (clk 0%nat) b → ds_QueryEntries addrBookBase (db_ds b) = inl [(addr_key p, data)] → ds_Get (addr_key p) (db_ds b) = inl data →
  served (clk 0%nat) b p ≠ [] → served (clk 0%nat) b p ≠ stored (db_ds b) p →
  NoDup (addrs_of (stored (db_ds b) p)) → proper p (Some a) = Some a → MarshalBinary a ∉ addrs_of (stored (db_ds b) p) →
  clk 0%nat ≤ clk' 0%nat → clk' 0%nat ≤ clk' 2%nat → 0 < ttl → Unix (clk' 2%nat) < Unix (clk' 1%nat + ttl) →
  ∃ s1 s2 s3, purge_visit sort_Slice clk (MkSweep b None) = Ret (None, s1) ∧
    on_book (AddAddrs sort_Slice late clk' p [Some a] ttl) s1 = Ret (tt, s2) ∧ batch_commit s2 = Ret (tt, s3) ∧
    MarshalBinary a ∈ addrs_of (stored (db_ds (sw_book s2)) p) ∧
    stored (db_ds (sw_book s3)) p = served (clk 0%nat) b p ∧ MarshalBinary a ∉ addrs_of (stored (db_ds (sw_book s3)) p).
Proof.
  intros HI EQ Eg Hne Hexp HN Ha Hno H0 H2 Httl Hnew.
  destruct (visit_one clk p data b HI EQ Eg Hne Hexp) as (s1 & w & x & E1 & HI1 & HS1 & EB & EU & Ex).
  destruct (setAddrs_spec sort_Slice late (clk 0%nat) clk' p [a] ttl ttlExtend false (sw_book s1) HI1 H0 H2) as (b2 & E2 & HI2 & HS2).
  set (s2 := MkSweep b2 (sw_batch s1)).
  assert (on_book (AddAddrs sort_Slice late clk' p [Some a] ttl) s1 = Ret (tt, s2)) as EA.
  { apply on_book_run. unfold AddAddrs. rewrite bool_decide_eq_false_2 by lia. unfold cleanAddrs. cbn [omap list_omap]. rewrite Ha.
    by rewrite (bind_run _ _ _ _ _ E2). }
  pose proof (commit_ok [WPut (addr_key p) w] (db_ds b2)) as Hc. pose proof (commit_get [WPut (addr_key p) w] (db_ds b2) (addr_key p)) as Hg.
  destruct (ds_Commit [WPut (addr_key p) w] (db_ds b2)) as [d3 e3] eqn:Ecm. cbn [fst snd] in Hc, Hg. subst e3.
  cbn [foldl write_ds] in Hg. rewrite put_get, decide_True in Hg by done.
  exists s1, s2, (MkSweep (with_ds d3 b2) (Some (MkCyclic 0 None 0))). split; [done|]. split; [done|]. split.
  { unfold batch_commit, s2. cbn [sw_batch sw_book]. rewrite EB. unfold cb_Commit. cbn [cb_Batch]. by rewrite Ecm. }
  assert (stored d3 p = served (clk 0%nat) b p) as E3 by (unfold stored; rewrite Hg; unfold entries_of; by rewrite EU).
  split; [|split; [exact E3|]].
  - assert (MkEntry (MarshalBinary a) (Unix (clk' 1%nat + ttl)) ttl ∈ served (clk' 2%nat) b2 p) as Hin.
    { rewrite HS2. apply elem_of_live. split; [done|]. unfold at_peer. rewrite decide_True by done. unfold plain_set. cbn [bool_decide decide_rel].
      rewrite HS1. case_bool_decide; [done|]. rewrite (perm_elem _ _ (sort_perm _)).
      apply set_entries_elem; [do 2 apply NoDup_live; done|by apply NoDup_singleton|]. cbn [ae_Addr]. rewrite decide_True by by apply list_elem_of_singleton.
      right. split; [|done]. intros (e & Ee & [_ [_ He]%elem_of_live]%elem_of_live)%list_elem_of_fmap_1. apply Hno. rewrite Ee. by apply list_elem_of_fmap_2. }
    apply elem_of_live in Hin as [_ Hin]. by apply (list_elem_of_fmap_2 ae_Addr) in Hin.
  - cbn. rewrite E3. intros (e & Ee & [_ He]%elem_of_live)%list_elem_of_fmap_1. apply Hno. rewrite Ee. by apply list_elem_of_fmap_2.
Qed.

(** Deleting several addresses at once is wrong.  With the first and the last of a
    record's entries to go, the last one is moved to the place of the first before it is
    looked at: it is still served, and the entry before it is lost. *)
Theorem deleteAddrs_wrong {ca : Cache PeerID positive} {cl : CacheLaws} T clk p (a b c : Multiaddr) ea eb ec l (bk : dsAddrBook) :
  Inv T bk → T ≤ clk 0%nat → clk 0%nat ≤ clk 1%nat →
  ae_Addr ea = MarshalBinary a → ae_Addr eb = MarshalBinary b → ae_Addr ec = MarshalBinary c →
  NoDup (addrs_of (ea :: l ++ [eb; ec])) → served (clk 0%nat) bk p = ea :: l ++ [eb; ec] →
  Unix (clk 1%nat) < Expiry ec →
  ∃ bk', deleteAddrs sort_Slice clk p [a; c] bk = Ret (None, bk') ∧
    ec ∈ served (clk 1%nat) bk' p ∧ MarshalBinary b ∉ addrs_of (served (clk 1%nat) bk' p).
Proof.
  intros HI H0 H1 Ea Eb Ec HN ES Hc. destruct (deleteAddrs_spec sort_Slice T clk p [a; c] bk HI H0 H1) as (bk' & E & HI' & HS').
  exists bk'. split; [done|].
  assert (served (clk 1%nat) bk' p ≡ₚ live (clk 1%nat) (ec :: l)) as HP.
  { rewrite HS'. unfold at_peer. rewrite decide_True by done. unfold plain_delete. rewrite <- served_live by done. rewrite ES.
    apply live_perm. rewrite (sort_perm _). rewrite delete_ends; [done|by rewrite Ea; left|rewrite Ec; right; by left|].
    cbn in HN. rewrite fmap_app in HN. cbn in HN. intros x Hx Hd.
    assert (ae_Addr x ∈ addrs_of (l ++ [eb])) as Hx' by by apply list_elem_of_fmap_2.
    apply NoDup_cons in HN as [HN1 HN]. cbn in Hd. rewrite <- Ea, <- Ec in Hd. rewrite fmap_app in Hx'. cbn in Hx'.
    apply elem_of_cons in Hd as [Hd|Hd]; [|apply elem_of_cons in Hd as [Hd|Hd]; [|by apply not_elem_of_nil in Hd]].
    - apply HN1. rewrite <- Hd. apply elem_of_app in Hx' as [?|Hx']; apply elem_of_app; [by left|right].
      apply elem_of_cons in Hx' as [->|Hx']; [by left|by apply not_elem_of_nil in Hx'].
    - replace (addrs_of l ++ [ae_Addr eb; ae_Addr ec]) with ((addrs_of l ++ [ae_Addr eb]) ++ [ae_Addr ec]) in HN by by rewrite <- app_assoc.
      apply NoDup_app in HN as (_ & HN & _). apply (HN _ Hx'). rewrite Hd. by left. }
  split.
  - rewrite (perm_elem _ _ HP). apply elem_of_live. split; [done|by left].
  - rewrite HP. intros (e & Ee & [_ He]%elem_of_live)%list_elem_of_fmap_1.
    cbn in HN. rewrite fmap_app in HN. cbn in HN. apply NoDup_cons in HN as [_ HN].
    replace (addrs_of l ++ [ae_Addr eb; ae_Addr ec]) with ((addrs_of l ++ [ae_Addr eb]) ++ [ae_Addr ec]) in HN by by rewrite <- app_assoc.
    apply NoDup_app in HN as (HN & HN2 & _). apply NoDup_app in HN as (_ & HN3 & _).
    apply elem_of_cons in He as [->|He].
    + apply (HN2 (ae_Addr eb)); [apply elem_of_app; right; by left|]. rewrite Eb, Ee. by left.
    + apply (HN3 (ae_Addr e)); [by apply list_elem_of_fmap_2|]. rewrite <- Ee, Eb. by left.
Qed.
End Wrong.

(** ** Witnesses *)

Module ToyHistory.
Import PeerDsToy.
#[local] Existing Instances Toy.multiaddrs Toy.multiaddr_laws PeerMemProps.ToyBook.libp2p.
#[local] Existing Instances ToyStore.datastore ToyStore.batching ToyStore.reliable ToyStore.key_laws ToyStore.query_laws
  ToyStore.formats ToyStore.format_laws ToyStore.cache ToyStore.cache_laws ToyStore.sort_law.

Definition a : Multiaddr := [x0a].
Definition b : Multiaddr := [x0b].
Definition c : Multiaddr := [x0c].
Definition sec (n : Z) : Z := 10 ^ 9 * n.
Definition at_ (n : Z) (cl : call) : event := MkEvent (λ _, sec n) (sec n) cl.
Definition opts : Options := MkOptions 0 0 0 0 0.

(** Two addresses, one of which expires, is collected and set anew. *)
Definition h : list event :=
  [at_ 0 (CAdd ToyStore.p [Some a; None; Some b] (sec 10)); at_ 1 (CSet ToyStore.p [Some a] (sec 100));
   at_ 2 (CLook ToyStore.p); at_ 11 (CCollect opts false); at_ 12 (CAdd ToyStore.p [Some b] (sec 5)); at_ 13 (CSet ToyStore.p [Some a] 0);
   at_ 14 (CLook ToyStore.p)].

Lemma h_timely : timely 0 h.
Proof. unfold h, at_, sec. cbn [timely ev_clk ev_end ev_call]. split_and!; intros; lia. Qed.

Lemma h_proper : Forall (λ e, proper_call (ev_call e)) h.
Proof. repeat apply Forall_cons_2; try apply Forall_nil_2; cbn; try exact I; try lia; repeat constructor; intros H; inversion H as [|? ? ? H2]; inversion H2. Qed.

Lemma h_seconds : Forall in_seconds h.
Proof.
  assert (∀ n, whole (sec n)) as Hw by (intros n; by exists n).
  repeat apply Forall_cons_2; try apply Forall_nil_2; (split; [done|]; split; [apply Hw|]); try exact I; try apply Hw. exists 0. lia.
Qed.

Lemma empty_new : new_book ToyStore.empty.
Proof. split; [intros k _; apply ToyStore.empty_Get|]. by exists opts, (∅ : gmap PeerID positive). Qed.

Definition uncached : dsAddrBook (ca := noopCache) := MkDsBook (ca := noopCache) (db_ds ToyStore.empty) tt ∅ (MkSubManager ∅ ∅) 0 false.

(** One address has expired when the collector comes, at twenty seconds. *)
Definition old : list AddrEntry := [MkEntry b 10 1; MkEntry c 100 1].
Definition three : list AddrEntry := [MkEntry a 10 1; MkEntry b 11 1; MkEntry c 12 1].
Lemma old_sorted : sorted old.
Proof. repeat constructor; unfold by_expiry; cbn; lia. Qed.
Lemma three_sorted : sorted three.
Proof. repeat constructor; unfold by_expiry; cbn; lia. Qed.
End ToyHistory.
Import PeerDsToy ToyHistory.
#[local] Existing Instances Toy.multiaddrs Toy.multiaddr_laws PeerMemProps.ToyBook.libp2p.
#[local] Existing Instances ToyStore.datastore ToyStore.batching ToyStore.reliable ToyStore.key_laws ToyStore.query_laws
  ToyStore.formats ToyStore.format_laws ToyStore.cache ToyStore.cache_laws ToyStore.sort_law.

(** An update brings an address that has expired back to life in memory, if the
    collector has not been there, but not in the datastore. *)
Example update_revives : let h := [at_ 0 (CAdd ToyStore.p [Some a] (sec 10)); at_ 11 (CUpdate ToyStore.p (sec 10) (sec 20))] in
  a ∈ PeerMem.Addrs (sec 12) ToyStore.p (foldl (mem_step (λ _, true)) PeerMem.NewAddrBook h) ∧
  ∃ answers b', run ToyStore.sort_Slice (λ _, true) h ToyStore.empty = Ret (answers, b') ∧
  ∃ l b2, Addrs ToyStore.sort_Slice (sec 12) ToyStore.p b' = Ret (l, b2) ∧ a ∉ l.
Proof.
  intros hu. split; [apply (bool_decide_unpack _); by vm_compute|].
  assert (timely 0 hu) as Ht by (unfold hu, at_, sec; cbn [timely ev_clk ev_end ev_call]; split_and!; intros; lia).
  destruct (run_table ToyStore.sort_Slice (λ _, true) 0 hu ToyStore.empty empty_new Ht) as (answers & b' & E & HI & HT).
  { repeat constructor. intros H; inversion H. }
  exists answers, b'. split; [exact E|].
  destruct (Addrs_table ToyStore.sort_Slice (over 0 hu) (sec 12) ToyStore.p b' _ HI HT ltac:(by vm_compute)) as (l & b2 & EL & _ & HL).
  exists l, b2. split; [exact EL|]. intros (ttl & exp & Et & Hexp)%HL. vm_compute in Et. injection Et as _ <-. by vm_compute in Hexp.
Qed.

Lemma cache_unobservable_witness : ∃ answers b' b0',
  run ToyStore.sort_Slice (λ _, true) h ToyStore.empty = Ret (answers, b') ∧
  run (ca := noopCache) ToyStore.sort_Slice (λ _, true) (filter (λ e, collects e = false) h) uncached = Ret (answers, b0').
Proof. exact (cache_unobservable ToyStore.sort_Slice (λ _, true) 0 h ToyStore.empty uncached h_timely (ToyStore.empty_Inv 0) eq_refl). Defined.

Lemma ds_book_refines_witness : ∃ answers b', run ToyStore.sort_Slice (λ _, true) h ToyStore.empty = Ret (answers, b') ∧
  ∃ l b2, Addrs ToyStore.sort_Slice (sec 14) ToyStore.p b' = Ret (l, b2) ∧ b ∈ l ∧ a ∉ l.
Proof.
  destruct (ds_book_refines ToyStore.sort_Slice (λ _, true) 0 h ToyStore.empty empty_new h_timely h_proper) as (answers & b' & E & H).
  exists answers, b'. split; [exact E|]. destruct (H (sec 14) ToyStore.p) as (l & b2 & E2 & _ & HL); [by vm_compute|].
  exists l, b2. split; [exact E2|]. split.
  - apply HL. exists (sec 5), 17. split; vm_compute; reflexivity.
  - intros (ttl & exp & Et & _)%HL. vm_compute in Et. discriminate.
Defined.

Lemma drop_in_replacement_witness : ∃ answers b', run ToyStore.sort_Slice (λ _, true) h ToyStore.empty = Ret (answers, b') ∧
  ∃ l b2, Addrs ToyStore.sort_Slice (sec 14) ToyStore.p b' = Ret (l, b2) ∧
    ∀ x, x ∈ l ↔ x ∈ PeerMem.Addrs (sec 14) ToyStore.p (foldl (mem_step (λ _, true)) PeerMem.NewAddrBook h).
Proof.
  destruct (drop_in_replacement ToyStore.sort_Slice (λ _, true) 0 h ToyStore.empty empty_new h_timely h_proper h_seconds) as (answers & b' & E & H).
  exists answers, b'. split; [exact E|]. apply H. by vm_compute.
Defined.

Lemma purge_loses_update_witness : ∃ s1 s2 s3,
  purge_visit ToyStore.sort_Slice (λ _, sec 20) (MkSweep (ToyStore.book old) None) = Ret (None, s1) ∧
  on_book (AddAddrs ToyStore.sort_Slice (λ _, true) (λ _, sec 21) ToyStore.p [Some a] (sec 60)) s1 = Ret (tt, s2) ∧
  batch_commit s2 = Ret (tt, s3) ∧ a ∈ ae_Addr <$> stored (db_ds (sw_book s2)) ToyStore.p ∧
  stored (db_ds (sw_book s3)) ToyStore.p = [MkEntry c 100 1] ∧ a ∉ ae_Addr <$> stored (db_ds (sw_book s3)) ToyStore.p.
Proof.
  assert (served (sec 20) (ToyStore.book old) ToyStore.p = [MkEntry c 100 1]) as ES.
  { unfold served. rewrite ToyStore.book_stored. vm_compute. reflexivity. }
  rewrite <- ES. apply (purge_loses_update ToyStore.sort_Slice (λ _, true) (λ _, sec 20) (λ _, sec 21) ToyStore.p (ToyStore.image old) a (sec 60)).
  - apply ToyStore.book_Inv, old_sorted.
  - apply ToyStore.book_Query.
  - apply ToyStore.book_Get.
  - by rewrite ES.
  - rewrite ES, ToyStore.book_stored. discriminate.
  - rewrite ToyStore.book_stored. repeat constructor; intros H; inversion H as [|? ? ? H2]; inversion H2.
  - reflexivity.
  - rewrite ToyStore.book_stored. intros H; inversion H as [|? ? ? H2]; inversion H2 as [|? ? ? HX]; inversion HX.
  - by vm_compute.
  - by vm_compute.
  - by vm_compute.
  - by vm_compute.
Defined.

Lemma deleteAddrs_wrong_witness : ∃ bk',
  deleteAddrs ToyStore.sort_Slice (λ _, sec 1) ToyStore.p [a; c] (ToyStore.book three) = Ret (None, bk') ∧
  MkEntry c 12 1 ∈ served (sec 1) bk' ToyStore.p ∧ b ∉ ae_Addr <$> served (sec 1) bk' ToyStore.p.
Proof.
  apply (deleteAddrs_wrong ToyStore.sort_Slice 0 (λ _, sec 1) ToyStore.p a b c (MkEntry a 10 1) (MkEntry b 11 1) (MkEntry c 12 1) []).
  - apply ToyStore.book_Inv, three_sorted.
  - by vm_compute.
  - by vm_compute.
  - reflexivity.
  - reflexivity.
  - reflexivity.
  - repeat constructor; intros H; inversion H as [|? ? ? H2]; try (inversion H2 as [|? ? ? HX]; inversion HX).
  - unfold served. rewrite ToyStore.book_stored. vm_compute. reflexivity.
  - by vm_compute.
Defined.
