(* ===== verification/PeerDsBooks.v ===== *)
(** * The other books over a datastore, and the store of them all

    Models [keybook.go], [protobook.go] and [peerstore.go] of
    [pkg/engine/transport/pstoreds].  The books share the datastore of the address book;
    the protocols of a peer are an entry of the metadata book.  Marshalled keys are a
    parameter ([KeyFormats]). *)

From S2P Require Export PeerDs.

(** [ic.MarshalPublicKey] and its like. *)
Class KeyFormats {ma : Multiaddrs} {lp : Libp2p} := {
  MarshalPublicKey : PublicKey → bytes + error;
  UnmarshalPublicKey : bytes → PublicKey + error;
  MarshalPrivateKey : PrivateKey → bytes + error;
  UnmarshalPrivateKey : bytes → PrivateKey + error;
}.

Module DsKeys.
Section Keys.
Context {ds : Datastore} {bt : Batching} {ma : Multiaddrs} {lp : Libp2p} {ft : DsFormats} {kf : KeyFormats}.

Definition kbBase : DsKey := NewKey (string_bytes "/peers/keys").
Definition pubSuffix : DsKey := NewKey (string_bytes "/pub").
Definition privSuffix : DsKey := NewKey (string_bytes "/priv").
Definition peerToKey (p : PeerID) (suffix : DsKey) : DsKey := Key_Child (ChildString kbBase (b32_Encode p)) suffix.

(** A key that is in the identifier itself is put on file. *)
Definition PubKey (p : PeerID) : GoM DS (option PublicKey) := λ d,
  let key := peerToKey p pubSuffix in
  match ds_Get key d with
  | inl value => Ret (match UnmarshalPublicKey value with inl pk => Some pk | inr _ => None end, d)
  | inr e =>
      if decide (e = ds_ErrNotFound) then
        match ExtractPublicKey p with
        | None => Ret (None, d)
        | Some pk =>
            match MarshalPublicKey pk with
            | inr _ => Ret (None, d)
            | inl pkb => match ds_Put key pkb d with (d, Some _) => Ret (None, d) | (d, None) => Ret (Some pk, d) end
            end
        end
      else Ret (None, d)
  end.

Definition AddPubKey (p : PeerID) (pk : PublicKey) : GoM DS (option error) := λ d,
  if MatchesPublicKey p pk then
    match MarshalPublicKey pk with
    | inr e => Ret (Some e, d)
    | inl val => let '(d, e) := ds_Put (peerToKey p pubSuffix) val d in Ret (e, d)
    end
  else Ret (Some (Errorf "peer ID does not match public key" []), d).

Definition PrivKey (p : PeerID) (d : DS) : option PrivateKey :=
  match ds_Get (peerToKey p privSuffix) d with
  | inr _ => None
  | inl value => match UnmarshalPrivateKey value with inl sk => Some sk | inr _ => None end
  end.

Definition AddPrivKey (p : PeerID) (sk : option PrivateKey) : GoM DS (option error) := λ d,
  match sk with
  | None => Ret (Some (Errorf "private key is nil" []), d)
  | Some sk =>
      if MatchesPrivateKey p sk then
        match MarshalPrivateKey sk with
        | inr e => Ret (Some e, d)
        | inl val => let '(d, e) := ds_Put (peerToKey p privSuffix) val d in Ret (e, d)
        end
      else Ret (Some (Errorf "peer ID does not match private key" []), d)
  end.

Definition PeersWithKeys (d : DS) : list PeerID :=
  match uniquePeerIds kbBase (λ k, Key_Name (Key_Parent k)) d with inl ids => ids | inr _ => [] end.

Definition RemovePeer (p : PeerID) (d : DS) : DS :=
  (ds_Delete (peerToKey p pubSuffix) (ds_Delete (peerToKey p privSuffix) d).1).1.
End Keys.
End DsKeys.

Module DsProtos.
Section Protos.
Context {ds : Datastore} {ma : Multiaddrs} {lp : Libp2p} {ft : DsFormats} {Any : Type} {gob : Gob Any}.

Definition errTooManyProtocols : error := Errorf "too many protocols" [].

(** The shard of a peer, for its lock; the empty identifier has none. *)
Definition segment (p : PeerID) : Out byte := goindex p (zlen p - 1).

Definition protocols_key : bytes := string_bytes "protocols".

Definition getProtocolMap (p : PeerID) (d : DS) : gset ProtoID + error :=
  match dsPeerMetadata_Get (Any := Any) b32_Encode p protocols_key d with
  | inr e => if decide (e = Datastore.ErrNotFound) then inl ∅ else inr e
  | inl (VProtocols m) => inl m
  | inl _ => inr (Errorf "stored protocol set was not a map" [])
  end.

Definition put_protocols (p : PeerID) (m : gset ProtoID) : GoM DS (option error) := λ d,
  let '(d, e) := dsPeerMetadata_Put (Any := Any) b32_Encode p protocols_key (VProtocols m) d in Ret (e, d).

Section Book.
Context (maxProtos : Z).

Definition SetProtocols (p : PeerID) (protos : list ProtoID) : GoM DS (option error) :=
  if bool_decide (maxProtos < zlen protos) then mret (Some errTooManyProtocols)
  else _ ← lift (segment p); put_protocols p (list_to_set protos).

Definition AddProtocols (p : PeerID) (protos : list ProtoID) : GoM DS (option error) :=
  _ ← lift (segment p);
  d ← get;
  match getProtocolMap p d with
  | inr e => mret (Some e)
  | inl pmap =>
      if bool_decide (maxProtos < Z.of_nat (size pmap) + zlen protos) then mret (Some errTooManyProtocols)
      else put_protocols p (list_to_set protos ∪ pmap)
  end.
End Book.

Definition GetProtocols (p : PeerID) (d : DS) : Out (gset ProtoID + error) :=
  _ ← segment p; Ret (getProtocolMap p d).

Definition SupportsProtocols (p : PeerID) (protos : list ProtoID) (d : DS) : Out (list ProtoID + error) :=
  _ ← segment p;
  Ret (match getProtocolMap p d with inr e => inr e | inl pmap => inl (filter (λ q, q ∈ pmap) protos) end).

Definition FirstSupportedProtocol (p : PeerID) (protos : list ProtoID) (d : DS) : Out (ProtoID + error) :=
  _ ← segment p;
  Ret (match getProtocolMap p d with
       | inr e => inr e
       | inl pmap => inl (default EmptyString (snd <$> list_find (λ q, q ∈ pmap) protos))
       end).

Definition RemoveProtocols (p : PeerID) (protos : list ProtoID) : GoM DS (option error) :=
  _ ← lift (segment p);
  d ← get;
  match getProtocolMap p d with
  | inr e => mret (Some e)
  | inl pmap => if bool_decide (size pmap = 0%nat) then mret None else put_protocols p (pmap ∖ list_to_set protos)
  end.

(** It goes with all other metadata of the peer, and takes no lock. *)
Definition RemovePeer (p : PeerID) (d : DS) : DS := dsPeerMetadata_RemovePeer b32_Encode p d.

(** [WithMaxProtocols] and [NewProtoBook]: the limit of the book. *)
Definition NewProtoBook (opts : list Z) : Z := foldl (λ _ num, num) 1024 opts.
End Protos.
End DsProtos.

(** ** The store *)

Module DsStore.
Section Store.
Context {ds : Datastore} {bt : Batching} {ma : Multiaddrs} {lp : Libp2p} {ft : DsFormats} {kf : KeyFormats} {ca : Cache PeerID positive}.
Context (sort_Slice : list AddrEntry → list AddrEntry).

(** The datastore of all books is that of the address book. *)
Record pstoreds := MkPstoreDs { ps_Metrics : Metrics; ps_Book : dsAddrBook; ps_MaxProtos : Z }.

Definition NewPeerstore (d : DS) (opts : Options) (c : CacheT + error) : pstoreds + error :=
  match NewAddrBook d opts c with
  | inr e => inr e
  | inl b => inl (MkPstoreDs NewMetrics b (DsProtos.NewProtoBook [MaxProtocols opts]))
  end.

Definition Peers (s : pstoreds) : Out (gset PeerID) :=
  '(addrs, _) ← PeersWithAddrs (ps_Book s);
  Ret (list_to_set (DsKeys.PeersWithKeys (db_ds (ps_Book s))) ∪ list_to_set addrs).

Definition PeerInfo (now : Z) (p : PeerID) (s : pstoreds) : Out (PeerID * list Multiaddr * pstoreds) :=
  '(addrs, b) ← Addrs sort_Slice now p (ps_Book s);
  Ret (p, addrs, MkPstoreDs (ps_Metrics s) b (ps_MaxProtos s)).

(** The metadata are removed twice. *)
Definition RemovePeer (p : PeerID) (s : pstoreds) : pstoreds :=
  let d := DsKeys.RemovePeer p (db_ds (ps_Book s)) in
  let d := dsPeerMetadata_RemovePeer b32_Encode p (DsProtos.RemovePeer p d) in
  MkPstoreDs (Metrics_RemovePeer p (ps_Metrics s)) (with_ds d (ps_Book s)) (ps_MaxProtos s).
End Store.
End DsStore.
