(* ===== verification/PeerDsBooksProps.v ===== *)
(** * Properties of the books over a datastore *)

From S2P Require Export PeerDsBooks PeerMemProps PeerDsGc.
From S2P Require PeerDsToy.

(** ** What is promised *)

(** Keys as lists of names, further. *)
Class KeyTreeLaws {ds : Datastore} {bt : Batching} {kl : KeyLaws} : Prop := {
  key_names_join k k2 : Key_names (Key_Child k k2) = Key_names k ++ Key_names k2;
  key_names_parent k : Key_names (Key_Parent k) = removelast (Key_names k);
}.

(** A query does not fail and finds every key strictly below its prefix, and only keys
    that are there. *)
Class ScanLaws {ds : Datastore} {bt : Batching} {kl : KeyLaws} : Prop := {
  query_ok prefix d : ∃ l, ds_Query prefix d = inl l;
  query_all prefix d l k x names v : ds_Query prefix d = inl l →
    Key_names k = Key_names prefix ++ x :: names → ds_Get k d = inl v → k ∈ l;
  query_there prefix d l k : ds_Query prefix d = inl l → k ∈ l → ∃ v, ds_Get k d = inl v;
}.

Class KeyFormatLaws {ma : Multiaddrs} {lp : Libp2p} {kf : KeyFormats} : Prop := {
  public_roundtrip pk : ∃ w, MarshalPublicKey pk = inl w ∧ UnmarshalPublicKey w = inl pk;
  private_roundtrip sk : ∃ w, MarshalPrivateKey sk = inl w ∧ UnmarshalPrivateKey w = inl sk;
}.

Section Regions.
Context {ds : Datastore} {bt : Batching} {kl : KeyLaws} {kt : KeyTreeLaws}.
Context {ma : Multiaddrs} {lp : Libp2p} {ft : DsFormats} {fl : FormatLaws}.

Ltac plain_names :=
  repeat constructor; try (vm_compute; discriminate); vm_compute; intros H;
  repeat (apply elem_of_cons in H as [H|H]; [discriminate|]); by apply not_elem_of_nil in H.

Definition key_base : list bytes := [string_bytes "peers"; string_bytes "keys"].
Definition meta_base : list bytes := [string_bytes "peers"; string_bytes "metadata"].
Definition names_of (p : PeerID) : list bytes := if decide (p = []) then [] else [b32_Encode p].

Lemma kbBase_names : Key_names DsKeys.kbBase = key_base.
Proof. apply (key_names_new key_base). plain_names. Qed.
Lemma pmBase_names : Key_names pmBase = meta_base.
Proof. apply (key_names_new meta_base). plain_names. Qed.
Lemma pub_names : Key_names DsKeys.pubSuffix = [string_bytes "pub"].
Proof. apply (key_names_new [string_bytes "pub"]). plain_names. Qed.
Lemma priv_names : Key_names DsKeys.privSuffix = [string_bytes "priv"].
Proof. apply (key_names_new [string_bytes "priv"]). plain_names. Qed.
Lemma protocols_plain : plain DsProtos.protocols_key.
Proof. assert (Forall plain [DsProtos.protocols_key]) as H by plain_names. by apply Forall_cons in H as [H _]. Qed.

Lemma peer_child k p : Key_names (ChildString k (b32_Encode p)) = Key_names k ++ names_of p.
Proof.
  unfold names_of. case_decide as Hp.
  - subst. by rewrite b32_empty, key_names_self, app_nil_r.
  - apply key_names_child; [by repeat constructor; apply b32_plain|]. unfold slashed. cbn. by rewrite app_nil_r.
Qed.

Lemma b32_inj p q : b32_Encode p = b32_Encode q → p = q.
Proof. intros E. pose proof (b32_roundtrip p) as R. rewrite E, b32_roundtrip in R. by injection R. Qed.

Lemma names_of_inj p q l l' : length l = length l' → names_of p ++ l = names_of q ++ l' → p = q ∧ l = l'.
Proof.
  intros HL E. unfold names_of in E. destruct (decide (p = [])) as [->|Hp], (decide (q = [])) as [->|Hq]; cbn in E.
  - done.
  - apply (f_equal length) in E. cbn in E. lia.
  - apply (f_equal length) in E. cbn in E. lia.
  - injection E as E ->. by apply b32_inj in E.
Qed.

Lemma peerToKey_names p k : Key_names (DsKeys.peerToKey p k) = key_base ++ names_of p ++ Key_names k.
Proof. unfold DsKeys.peerToKey. by rewrite key_names_join, peer_child, kbBase_names, <- app_assoc. Qed.

Lemma pub_key_inj p q : DsKeys.peerToKey p DsKeys.pubSuffix = DsKeys.peerToKey q DsKeys.pubSuffix ↔ p = q.
Proof.
  split; [|by intros ->]. intros E%(f_equal Key_names). rewrite !peerToKey_names in E. by apply app_inv_head, names_of_inj in E as [??].
Qed.
Lemma priv_key_inj p q : DsKeys.peerToKey p DsKeys.privSuffix = DsKeys.peerToKey q DsKeys.privSuffix ↔ p = q.
Proof.
  split; [|by intros ->]. intros E%(f_equal Key_names). rewrite !peerToKey_names in E. by apply app_inv_head, names_of_inj in E as [??].
Qed.
Lemma pub_not_priv p q : DsKeys.peerToKey p DsKeys.pubSuffix ≠ DsKeys.peerToKey q DsKeys.privSuffix.
Proof.
  intros E%(f_equal Key_names). rewrite !peerToKey_names, pub_names, priv_names in E.
  apply app_inv_head, names_of_inj in E as [_ E]; [discriminate E|done].
Qed.

Lemma meta_prefix_names p : Key_names (ChildString pmBase (b32_Encode p)) = meta_base ++ names_of p.
Proof. by rewrite peer_child, pmBase_names. Qed.
Lemma meta_key_names p key : plain key → Key_names (pm_key b32_Encode p key) = meta_base ++ names_of p ++ [key].
Proof.
  intros HK. unfold pm_key. rewrite (key_names_child _ _ [key]); [|by repeat constructor; apply HK|unfold slashed; cbn; by rewrite app_nil_r].
  by rewrite meta_prefix_names, <- app_assoc.
Qed.
Lemma meta_key_inj p q key : plain key → pm_key b32_Encode p key = pm_key b32_Encode q key ↔ p = q.
Proof.
  intros HK. split; [|by intros ->]. intros E%(f_equal Key_names). rewrite !meta_key_names in E by done.
  by apply app_inv_head, names_of_inj in E as [??].
Qed.
Lemma meta_not_key p key q s : plain key → pm_key b32_Encode p key ≠ DsKeys.peerToKey q s.
Proof. intros HK E%(f_equal Key_names). rewrite meta_key_names, peerToKey_names in E by done. discriminate E. Qed.

(** What begins with another word is no address. *)
Lemma outside_region k x y l : Key_names k = x :: y :: l → y ≠ string_bytes "addrs" → ¬ region k.
Proof. intros E Hy [l2 E2]. rewrite E in E2. injection E2 as _ E2. done. Qed.
End Regions.

(** ** In place of the books in memory *)

Section Books.
Context {ds : Datastore} {bt : Batching} {rs : ReliableStore} {kl : KeyLaws} {kt : KeyTreeLaws} {ql : QueryLaws} {sl : ScanLaws}.
Context {ma : Multiaddrs} {lp : Libp2p} {ft : DsFormats} {fl : FormatLaws} {kf : KeyFormats} {kfl : KeyFormatLaws}.
Context {Any : Type} {gob : Gob Any} {gobl : GobLaws Any}.
Implicit Types (d : DS) (p q : PeerID) (kb : memoryKeyBook) (pb : memoryProtoBook).
#[local] Abbreviation getProtocolMap := (DsProtos.getProtocolMap (Any := Any)).
#[local] Abbreviation pub_key p := (DsKeys.peerToKey p DsKeys.pubSuffix).
#[local] Abbreviation priv_key p := (DsKeys.peerToKey p DsKeys.privSuffix).
#[local] Abbreviation protocols_of p := (pm_key b32_Encode p DsProtos.protocols_key).

(** The calls of both stores on keys and protocols. *)
Inductive books_op :=
| OPubKey (p : PeerID) | OAddPubKey (p : PeerID) (pk : PublicKey)
| OPrivKey (p : PeerID) | OAddPrivKey (p : PeerID) (sk : option PrivateKey)
| OGet (p : PeerID) | OSet (p : PeerID) (l : list ProtoID) | OAdd (p : PeerID) (l : list ProtoID)
| ORemove (p : PeerID) (l : list ProtoID) | OSupports (p : PeerID) (l : list ProtoID) | OFirst (p : PeerID) (l : list ProtoID)
| ORemovePeer (p : PeerID).

Definition op_peer (o : books_op) : PeerID :=
  match o with
  | OPubKey p | OAddPubKey p _ | OPrivKey p | OAddPrivKey p _ | OGet p | OSet p _ | OAdd p _ | ORemove p _
  | OSupports p _ | OFirst p _ | ORemovePeer p => p
  end.

(** What a call answers; of an error, that there is one. *)
Inductive answer :=
| APub (k : option PublicKey) | APriv (k : option PrivateKey) | ADone (ok : bool)
| AProtocols (m : gset ProtoID) | AList (l : list ProtoID) | AProtocol (q : ProtoID) | AError.

Definition outcome (e : option error) : answer := ADone (bool_decide (e = None)).
Definition or_error {A} (f : A → answer) (r : A + error) : answer := match r with inl a => f a | inr _ => AError end.

Definition ds_op (max : Z) (o : books_op) : GoM DS answer :=
  match o with
  | OPubKey p => k ← DsKeys.PubKey p; mret (APub k)
  | OAddPubKey p pk => e ← DsKeys.AddPubKey p pk; mret (outcome e)
  | OPrivKey p => d ← get; mret (APriv (DsKeys.PrivKey p d))
  | OAddPrivKey p sk => e ← DsKeys.AddPrivKey p sk; mret (outcome e)
  | OGet p => d ← get; m ← lift (DsProtos.GetProtocols (Any := Any) p d); mret (or_error AProtocols m)
  | OSet p l => e ← DsProtos.SetProtocols (Any := Any) max p l; mret (outcome e)
  | OAdd p l => e ← DsProtos.AddProtocols (Any := Any) max p l; mret (outcome e)
  | ORemove p l => e ← DsProtos.RemoveProtocols (Any := Any) p l; mret (outcome e)
  | OSupports p l => d ← get; r ← lift (DsProtos.SupportsProtocols (Any := Any) p l d); mret (or_error AList r)
  | OFirst p l => d ← get; r ← lift (DsProtos.FirstSupportedProtocol (Any := Any) p l d); mret (or_error AProtocol r)
  | ORemovePeer p => λ d, Ret (ADone true, DsProtos.RemovePeer p (DsKeys.RemovePeer p d))
  end.

#[local] Abbreviation MemBooks := (memoryKeyBook * memoryProtoBook)%type.
Definition on_protos {A} (m : GoM memoryProtoBook A) : GoM MemBooks A := λ s,
  match m s.2 with Ret (a, pb) => Ret (a, (s.1, pb)) | Panic e => Panic e end.
Definition on_keys {A} (f : memoryKeyBook → A * memoryKeyBook) : GoM MemBooks A := λ s,
  let '(a, kb) := f s.1 in Ret (a, (kb, s.2)).

Definition mem_books_op (o : books_op) : GoM MemBooks answer :=
  match o with
  | OPubKey p => k ← on_keys (KeyBook_PubKey p); mret (APub k)
  | OAddPubKey p pk => e ← on_keys (PeerMem.AddPubKey p pk); mret (outcome e)
  | OPrivKey p => s ← get; mret (APriv (KeyBook_PrivKey p s.1))
  | OAddPrivKey p sk => e ← on_keys (PeerMem.AddPrivKey p sk); mret (outcome e)
  | OGet p => s ← get; m ← lift (PeerMem.GetProtocols p s.2); mret (AProtocols m)
  | OSet p l => e ← on_protos (PeerMem.SetProtocols p l); mret (outcome e)
  | OAdd p l => e ← on_protos (PeerMem.AddProtocols p l); mret (outcome e)
  | ORemove p l => on_protos (PeerMem.RemoveProtocols p l) ;; mret (ADone true)
  | OSupports p l => s ← get; r ← lift (PeerMem.SupportsProtocols p l s.2); mret (AList r)
  | OFirst p l => s ← get; r ← lift (PeerMem.FirstSupportedProtocol p l s.2); mret (AProtocol r)
  | ORemovePeer p => on_keys (λ kb, (tt, KeyBook_RemovePeer p kb)) ;; on_protos (ProtoBook_RemovePeer p) ;; mret (ADone true)
  end.

(** What the datastore has is what the books in memory have. *)
Record agree (max : Z) d (s : memoryKeyBook * memoryProtoBook) : Prop := {
  ag_max : maxProtos s.2 = max;
  ag_interns : interns s.2;
  ag_pub p : ds_Get (pub_key p) d = match pks s.1 !! p with Some pk => MarshalPublicKey pk | None => inr ds_ErrNotFound end;
  ag_priv p : ds_Get (priv_key p) d = match sks s.1 !! p with Some sk => MarshalPrivateKey sk | None => inr ds_ErrNotFound end;
  ag_protos p : p ≠ [] → getProtocolMap p d = inl (protos_of p s.2);
}.

(** *** Lookups *)

Lemma segment_run p : p ≠ [] → DsProtos.segment p = Ret (segment_of p).
Proof. apply proto_get_run. Qed.

(** A set of protocols is put and got. *)
Lemma put_protocols_run p m d : ∃ d', DsProtos.put_protocols (Any := Any) p m d = Ret (None, d') ∧
  (∀ k, k ≠ protocols_of p → ds_Get k d' = ds_Get k d) ∧
  (∀ q, getProtocolMap q d' = if decide (q = p) then inl m else getProtocolMap q d).
Proof.
  unfold DsProtos.put_protocols, dsPeerMetadata_Put. destruct (gob_protocols m) as (w & -> & Ew).
  destruct (ds_Put (protocols_of p) w d) as [d' e] eqn:E.
  assert (e = None) as -> by by rewrite <- (put_ok (protocols_of p) w d), E.
  assert (∀ k, ds_Get k d' = if decide (k = protocols_of p) then inl w else ds_Get k d) as EG
    by (intros k; by rewrite <- put_get, E).
  exists d'. split; [done|]. split; [intros k Hk; by rewrite EG, decide_False|].
  intros q. unfold DsProtos.getProtocolMap, dsPeerMetadata_Get. rewrite EG. destruct (decide (q = p)) as [->|Hq].
  - by rewrite decide_True, Ew by done.
  - rewrite decide_False; [done|]. rewrite meta_key_inj by apply protocols_plain. done.
Qed.

(** *** What keeps the agreement *)

Lemma getProtocolMap_ext d d' p : ds_Get (protocols_of p) d' = ds_Get (protocols_of p) d → getProtocolMap p d' = getProtocolMap p d.
Proof. intros E. unfold DsProtos.getProtocolMap, dsPeerMetadata_Get. by rewrite E. Qed.

Lemma agree_put_pub max d kb pb p pk w : agree max d (kb, pb) → MarshalPublicKey pk = inl w →
  agree max (ds_Put (pub_key p) w d).1 (MkKeyBook (<[p := pk]> (pks kb)) (sks kb), pb).
Proof.
  intros [HM HI HP HS HR] Ew. constructor; try done; cbn [fst snd pks sks] in *; intros q.
  - rewrite put_get. destruct (decide (q = p)) as [->|Hq]; [by rewrite decide_True, lookup_insert_eq|].
    rewrite decide_False by by rewrite pub_key_inj. by rewrite lookup_insert_ne.
  - rewrite put_get, decide_False by (intros E; symmetry in E; by apply pub_not_priv in E). done.
  - intros Hq. rewrite <- HR by done. apply getProtocolMap_ext. rewrite put_get, decide_False; [done|]. apply meta_not_key, protocols_plain.
Qed.

Lemma agree_put_priv max d kb pb p sk w : agree max d (kb, pb) → MarshalPrivateKey sk = inl w →
  agree max (ds_Put (priv_key p) w d).1 (MkKeyBook (pks kb) (<[p := sk]> (sks kb)), pb).
Proof.
  intros [HM HI HP HS HR] Ew. constructor; try done; cbn [fst snd pks sks] in *; intros q.
  - rewrite put_get, decide_False by apply pub_not_priv. done.
  - rewrite put_get. destruct (decide (q = p)) as [->|Hq]; [by rewrite decide_True, lookup_insert_eq|].
    rewrite decide_False by by rewrite priv_key_inj. by rewrite lookup_insert_ne.
  - intros Hq. rewrite <- HR by done. apply getProtocolMap_ext. rewrite put_get, decide_False; [done|]. apply meta_not_key, protocols_plain.
Qed.

Lemma agree_put_protocols max d d' kb pb pb' p m : agree max d (kb, pb) →
  (∀ k, k ≠ protocols_of p → ds_Get k d' = ds_Get k d) → (∀ q, getProtocolMap q d' = if decide (q = p) then inl m else getProtocolMap q d) →
  maxProtos pb' = maxProtos pb → interns pb' → (∀ q, protos_of q pb' = if decide (q = p) then m else protos_of q pb) →
  agree max d' (kb, pb').
Proof.
  intros [HM HI HP HS HR] Hk Hq HM' HI' Hp. constructor; cbn [fst snd] in *; try done; [by rewrite HM'|..]; intros q.
  - rewrite Hk; [apply HP|]. intros E; symmetry in E. by eapply meta_not_key in E; [|apply protocols_plain].
  - rewrite Hk; [apply HS|]. intros E; symmetry in E. by eapply meta_not_key in E; [|apply protocols_plain].
  - intros Hne. rewrite Hq, Hp. case_decide; [done|]. by apply HR.
Qed.

Lemma agree_same_protos max d kb pb pb' : agree max d (kb, pb) →
  maxProtos pb' = maxProtos pb → interns pb' → (∀ q, protos_of q pb' = protos_of q pb) → agree max d (kb, pb').
Proof.
  intros [HM HI HP HS HR] HM' HI' Hp. constructor; cbn [fst snd] in *; try done; [by rewrite HM'|].
  intros q Hq. rewrite Hp. by apply HR.
Qed.

(** The metadata of a peer go, those of others and all else stay. *)
Lemma delete_keys_get l d k :
  ds_Get k (foldl (λ d k, (ds_Delete k d).1) d l) = if decide (k ∈ l) then inr ds_ErrNotFound else ds_Get k d.
Proof.
  revert d; induction l as [|x l IH]; intros d; cbn [foldl]; [by rewrite decide_False by apply not_elem_of_nil|].
  rewrite IH, delete_get. destruct (decide (k = x)) as [->|Hx].
  - rewrite (decide_True (P := x ∈ x :: l)) by by left. by case_decide.
  - apply decide_ext. rewrite elem_of_cons. naive_solver.
Qed.

Lemma RemovePeer_meta p d k : p ≠ [] →
  ds_Get k (DsProtos.RemovePeer p d) = inr ds_ErrNotFound ∨ ds_Get k (DsProtos.RemovePeer p d) = ds_Get k d.
Proof.
  intros Hp. unfold DsProtos.RemovePeer, dsPeerMetadata_RemovePeer. destruct (query_ok (ChildString pmBase (b32_Encode p)) d) as [l ->].
  rewrite delete_keys_get. case_decide; [by left|by right].
Qed.

Lemma RemovePeer_meta_other p d k : ¬ Key_names (ChildString pmBase (b32_Encode p)) `prefix_of` Key_names k →
  ds_Get k (DsProtos.RemovePeer p d) = ds_Get k d.
Proof.
  intros Hk. unfold DsProtos.RemovePeer, dsPeerMetadata_RemovePeer.
  destruct (query_ok (ChildString pmBase (b32_Encode p)) d) as [l E]. rewrite E, delete_keys_get.
  rewrite decide_False; [done|]. intros Hin. by apply Hk, (query_below _ _ _ _ E).
Qed.

Lemma RemovePeer_meta_own p d key w : plain key → ds_Get (pm_key b32_Encode p key) d = inl w →
  ds_Get (pm_key b32_Encode p key) (DsProtos.RemovePeer p d) = inr ds_ErrNotFound.
Proof.
  intros HK E0. unfold DsProtos.RemovePeer, dsPeerMetadata_RemovePeer.
  destruct (query_ok (ChildString pmBase (b32_Encode p)) d) as [l E]. rewrite E, delete_keys_get.
  rewrite decide_True; [done|]. apply (query_all _ _ _ _ key [] w E); [|done]. by rewrite meta_key_names, meta_prefix_names, <- app_assoc.
Qed.

Lemma meta_prefix_other p q key : p ≠ q → p ≠ [] → q ≠ [] → plain key →
  ¬ Key_names (ChildString pmBase (b32_Encode p)) `prefix_of` Key_names (pm_key b32_Encode q key).
Proof.
  intros Hne Hp Hq HK. rewrite meta_prefix_names, meta_key_names by done. intros [l E]. apply Hne.
  unfold names_of in E. rewrite !decide_False in E by done. injection E as E _. symmetry. by apply b32_inj.
Qed.
Lemma meta_prefix_key p q s : ¬ Key_names (ChildString pmBase (b32_Encode p)) `prefix_of` Key_names (DsKeys.peerToKey q s).
Proof. rewrite meta_prefix_names, peerToKey_names. intros [l E]. discriminate E. Qed.

Lemma keys_RemovePeer_get p d k :
  ds_Get k (DsKeys.RemovePeer p d) = if decide (k = pub_key p ∨ k = priv_key p) then inr ds_ErrNotFound else ds_Get k d.
Proof.
  unfold DsKeys.RemovePeer. rewrite !delete_get. destruct (decide (k = pub_key p)) as [->|H1].
  - rewrite (decide_True (P := _ ∨ _)) by by left. done.
  - apply decide_ext. naive_solver.
Qed.

Lemma agree_remove max d kb pb pb' p : p ≠ [] → agree max d (kb, pb) →
  maxProtos pb' = maxProtos pb → interns pb' → (∀ q, protos_of q pb' = if decide (q = p) then ∅ else protos_of q pb) →
  agree max (DsProtos.RemovePeer p (DsKeys.RemovePeer p d)) (KeyBook_RemovePeer p kb, pb').
Proof.
  intros Hp0 [HM HI HP HS HR] HM' HI' Hp. constructor; cbn [fst snd KeyBook_RemovePeer pks sks] in *; [by rewrite HM'|done|..]; intros q.
  - rewrite RemovePeer_meta_other by apply meta_prefix_key. rewrite keys_RemovePeer_get. destruct (decide (q = p)) as [->|Hq].
    + by rewrite decide_True, lookup_delete_eq by by left.
    + rewrite decide_False, lookup_delete_ne; [apply HP|done|]. intros [E|E]; [by apply Hq, pub_key_inj|by apply pub_not_priv in E].
  - rewrite RemovePeer_meta_other by apply meta_prefix_key. rewrite keys_RemovePeer_get. destruct (decide (q = p)) as [->|Hq].
    + by rewrite decide_True, lookup_delete_eq by by right.
    + rewrite decide_False, lookup_delete_ne; [apply HS|done|]. intros [E|E]; [by symmetry in E; apply pub_not_priv in E|by apply Hq, priv_key_inj].
  - intros Hq. pose proof protocols_plain as HK.
    assert (ds_Get (protocols_of q) (DsKeys.RemovePeer p d) = ds_Get (protocols_of q) d) as EK.
    { rewrite keys_RemovePeer_get, decide_False; [done|]. intros [E|E]; by apply meta_not_key in E. }
    rewrite Hp. destruct (decide (q = p)) as [->|Hne].
    + specialize (HR p Hp0). unfold DsProtos.getProtocolMap, dsPeerMetadata_Get in *.
      destruct (ds_Get (protocols_of p) d) as [w|e] eqn:Eg.
      * rewrite (RemovePeer_meta_own _ _ _ w HK) by done.
        destruct (decide (ds_ErrNotFound = ds_ErrNotFound)); [|done]. by destruct (decide (Datastore.ErrNotFound = Datastore.ErrNotFound)).
      * destruct (RemovePeer_meta p (DsKeys.RemovePeer p d) (protocols_of p) Hp0) as [E1|E1]; rewrite E1; clear E1; cycle 1.
        { rewrite EK. revert HR. repeat case_decide; (done || by intros [= <-]). }
        destruct (decide (ds_ErrNotFound = ds_ErrNotFound)); [|done]. by destruct (decide (Datastore.ErrNotFound = Datastore.ErrNotFound)).
    + rewrite <- HR by done. apply getProtocolMap_ext. rewrite RemovePeer_meta_other; [done|]. by apply meta_prefix_other.
Qed.

(** *** Each call *)

Lemma put_run k w d : ds_Put k w d = ((ds_Put k w d).1, None).
Proof. rewrite <- (put_ok k w d). by destruct (ds_Put k w d). Qed.

#[local] Abbreviation same max o d s := (∃ a d' s', ds_op max o d = Ret (a, d') ∧ mem_books_op o s = Ret (a, s') ∧ agree max d' s').

Lemma PubKey_same max p d s : agree max d s → same max (OPubKey p) d s.
Proof.
  destruct s as [kb pb]. intros HA. cbn [ds_op mem_books_op]. unfold DsKeys.PubKey, on_keys, KeyBook_PubKey, mbind, GoM_bind. cbn [fst snd].
  pose proof (ag_pub _ _ _ HA p) as HP. cbn [fst] in HP. destruct (pks kb !! p) as [pk|] eqn:Ep.
  - destruct (public_roundtrip pk) as (w & Ew & Eu). rewrite Ew in HP. rewrite HP, Eu. by exists (APub (Some pk)), d, (kb, pb).
  - rewrite HP, decide_True by done. destruct (ExtractPublicKey p) as [pk|]; [|by exists (APub None), d, (kb, pb)].
    destruct (public_roundtrip pk) as (w & Ew & _). rewrite Ew, put_run. eexists _, _, _. split; [done|]. split; [done|]. by apply agree_put_pub.
Qed.

Lemma AddPubKey_same max p pk d s : agree max d s → same max (OAddPubKey p pk) d s.
Proof.
  destruct s as [kb pb]. intros HA. cbn [ds_op mem_books_op]. unfold DsKeys.AddPubKey, on_keys, PeerMem.AddPubKey, mbind, GoM_bind. cbn [fst snd].
  destruct (MatchesPublicKey p pk); [|by exists (ADone false), d, (kb, pb)].
  destruct (public_roundtrip pk) as (w & Ew & _). rewrite Ew, put_run. eexists _, _, _. split; [done|]. split; [done|]. by apply agree_put_pub.
Qed.

Lemma PrivKey_same max p d s : agree max d s → same max (OPrivKey p) d s.
Proof.
  destruct s as [kb pb]. intros HA. exists (APriv (KeyBook_PrivKey p kb)), d, (kb, pb). split; [|done].
  cbn [ds_op]. unfold DsKeys.PrivKey, KeyBook_PrivKey, mbind, GoM_bind. cbn. pose proof (ag_priv _ _ _ HA p) as HP. cbn [fst] in HP.
  rewrite HP. destruct (sks kb !! p) as [sk|]; [|done]. destruct (private_roundtrip sk) as (w & -> & Eu). by rewrite Eu.
Qed.

Lemma AddPrivKey_same max p sk d s : agree max d s → same max (OAddPrivKey p sk) d s.
Proof.
  destruct s as [kb pb]. intros HA. cbn [ds_op mem_books_op]. unfold DsKeys.AddPrivKey, on_keys, PeerMem.AddPrivKey, mbind, GoM_bind. cbn [fst snd].
  destruct sk as [sk|]; [|by exists (ADone false), d, (kb, pb)].
  destruct (MatchesPrivateKey p sk); [|by exists (ADone false), d, (kb, pb)].
  destruct (private_roundtrip sk) as (w & Ew & _). rewrite Ew, put_run. eexists _, _, _. split; [done|]. split; [done|]. by apply agree_put_priv.
Qed.

(** The three lookups of protocols. *)
Lemma lookup_same {A} max (f : A → answer) (g : gset ProtoID → A) p d s : p ≠ [] → agree max d s →
  (d ← get; r ← lift (_ ← DsProtos.segment p; Ret (match getProtocolMap p d with inr e => inr e | inl m => inl (g m) end)); mret (or_error f r)) d
  = Ret (f (g (protos_of p s.2)), d) ∧
  (s ← get; r ← lift (i ← proto_get p; Ret (g (default ∅ (protocols s.2 i !! p)))); mret (f r)) s
  = Ret (f (g (protos_of p s.2)), s).
Proof.
  intros Hp HA. change ((get ≫= ?h) ?t) with (h t t). cbn beta. rewrite segment_run, proto_get_run, (ag_protos _ _ _ HA p) by done. done.
Qed.

Lemma put_same max p m l pb' d (s : memoryKeyBook * memoryProtoBook) :
  agree max d s → maxProtos pb' = maxProtos s.2 → interns pb' → (∀ q, protos_of q pb' = if decide (q = p) then m else protos_of q s.2) →
  m = l → ∃ d', (e ← DsProtos.put_protocols (Any := Any) p l; mret (outcome e)) d = Ret (ADone true, d') ∧ agree max d' (s.1, pb').
Proof.
  intros HA HM HI HP ->. destruct s as [kb pb]. destruct (put_protocols_run p l d) as (d' & E & H1 & H2).
  exists d'. rewrite (bind_run _ _ _ _ _ E). split; [done|]. by apply (agree_put_protocols max d d' kb pb pb' p l).
Qed.

Lemma protos_of_ext pb pb' q : protocols pb' = protocols pb → protos_of q pb' = protos_of q pb.
Proof. intros E. unfold protos_of. by rewrite E. Qed.

(** The protocol book in memory, call by call. *)
Lemma mem_set_run p l pb : p ≠ [] → interns pb → ∃ pb',
  PeerMem.SetProtocols p l pb = Ret (if bool_decide (maxProtos pb < zlen l) then Some errTooManyProtocols else None, pb') ∧
  maxProtos pb' = maxProtos pb ∧ interns pb' ∧
  ∀ q, protos_of q pb' = if bool_decide (maxProtos pb < zlen l) then protos_of q pb else if decide (q = p) then list_to_set l else protos_of q pb.
Proof.
  intros Hp HI. unfold PeerMem.SetProtocols. change ((get ≫= ?h) pb) with (h pb pb). cbn beta. case_bool_decide; [by exists pb|].
  destruct (intern_all_run l pb HI) as (pb2 & E2 & EP & EM & EI).
  exists (set_protocols (segment_of p) (<[p := list_to_set l]> (protocols pb2 (segment_of p))) pb2).
  rewrite (bind_run _ _ _ _ _ E2), proto_get_run by done. split_and!; try done.
  intros q. rewrite protos_set. case_decide; [done|]. by apply protos_of_ext.
Qed.

Lemma mem_add_run p l pb : p ≠ [] → interns pb →
  let full := bool_decide (maxProtos pb < Z.of_nat (size (protos_of p pb)) + zlen l) in
  ∃ pb', PeerMem.AddProtocols p l pb = Ret (if full then Some errTooManyProtocols else None, pb') ∧
  maxProtos pb' = maxProtos pb ∧ interns pb' ∧
  ∀ q, protos_of q pb' = if full then protos_of q pb else if decide (q = p) then list_to_set l ∪ protos_of p pb else protos_of q pb.
Proof.
  intros Hp HI full. unfold PeerMem.AddProtocols.
  rewrite (bind_run _ _ _ _ _ (lift_run _ _ pb (proto_get_run p Hp))). change ((get ≫= ?f) pb) with (f pb pb). cbn beta.
  fold (protos_of p pb). set (old := protos_of p pb).
  set (pb1 := set_protocols (segment_of p) (<[p := old]> (protocols pb (segment_of p))) pb).
  assert (∀ q, protos_of q pb1 = protos_of q pb) as H1 by (intros q; unfold pb1; rewrite protos_set; case_decide; [by subst|done]).
  rewrite (bind_run _ _ _ tt pb1) by done. fold old in full. subst full. case_bool_decide as Hlim; [by exists pb1|].
  destruct (intern_all_run l pb1 HI) as (pb2 & E2 & EP & EM & EI).
  exists (set_protocols (segment_of p) (<[p := list_to_set l ∪ old]> (protocols pb2 (segment_of p))) pb2).
  rewrite (bind_run _ _ _ _ _ E2). split_and!; try done.
  intros q. rewrite protos_set. case_decide; [done|]. rewrite <- H1. by apply protos_of_ext.
Qed.

Lemma mem_remove_run p l pb : p ≠ [] → interns pb → ∃ pb', PeerMem.RemoveProtocols p l pb = Ret (tt, pb') ∧
  maxProtos pb' = maxProtos pb ∧ interns pb' ∧
  ∀ q, protos_of q pb' = if decide (q = p) then protos_of p pb ∖ list_to_set l else protos_of q pb.
Proof.
  intros Hp HI. unfold PeerMem.RemoveProtocols.
  rewrite (bind_run _ _ _ _ _ (lift_run _ _ pb (proto_get_run p Hp))). change ((get ≫= ?f) pb) with (f pb pb). cbn beta.
  destruct (protocols pb (segment_of p) !! p) as [m|] eqn:Em.
  - destruct (intern_all_run l pb HI) as (pb2 & E2 & EP & EM & EI).
    exists (set_protocols (segment_of p) (<[p := m ∖ list_to_set l]> (protocols pb2 (segment_of p))) pb2).
    rewrite (bind_run _ _ _ _ _ E2). split_and!; try done. intros q. rewrite protos_set. unfold protos_of. rewrite Em, EP. done.
  - exists pb. split_and!; try done. intros q. case_decide; [subst|done]. unfold protos_of. rewrite Em. cbn. set_solver.
Qed.

Lemma on_protos_run {A} (m : GoM memoryProtoBook A) (s : memoryKeyBook * memoryProtoBook) a pb' : m s.2 = Ret (a, pb') → on_protos m s = Ret (a, (s.1, pb')).
Proof. intros E. unfold on_protos. by rewrite E. Qed.

Lemma Set_same max p l d s : p ≠ [] → agree max d s → same max (OSet p l) d s.
Proof.
  intros Hp HA. destruct (mem_set_run p l s.2 Hp (ag_interns _ _ _ HA)) as (pb' & E & HM & HI & HP).
  cbn [ds_op mem_books_op]. rewrite (bind_run _ _ _ _ _ (on_protos_run _ s _ _ E)). unfold DsProtos.SetProtocols.
  pose proof (ag_max _ _ _ HA) as EM. rewrite EM in HP |- *. case_bool_decide.
  - exists (ADone false), d, (s.1, pb'). split; [done|]. split; [done|]. destruct s. by eapply agree_same_protos.
  - destruct (put_same max p (list_to_set l) (list_to_set l) pb' d s) as (d' & E' & HA'); try done.
    exists (ADone true), d', (s.1, pb'). split; [|done]. rewrite <- bind_assoc, segment_run by done. exact E'.
Qed.

Lemma Add_same max p l d s : p ≠ [] → agree max d s → same max (OAdd p l) d s.
Proof.
  intros Hp HA. destruct (mem_add_run p l s.2 Hp (ag_interns _ _ _ HA)) as (pb' & E & HM & HI & HP).
  cbn [ds_op mem_books_op]. rewrite (bind_run _ _ _ _ _ (on_protos_run _ s _ _ E)). unfold DsProtos.AddProtocols.
  rewrite <- bind_assoc, segment_run by done. change ((lift (Ret ?x) ≫= ?f) d) with (f x d). cbn beta.
  rewrite <- bind_assoc. change ((get ≫= ?f) d) with (f d d). cbn beta. rewrite (ag_protos _ _ _ HA p Hp) by done. pose proof (ag_max _ _ _ HA) as EM. rewrite EM in HP |- *. case_bool_decide.
  - exists (ADone false), d, (s.1, pb'). split; [done|]. split; [done|]. destruct s. by eapply agree_same_protos.
  - destruct (put_same max p (list_to_set l ∪ protos_of p s.2) (list_to_set l ∪ protos_of p s.2) pb' d s) as (d' & E' & HA'); try done.
    by exists (ADone true), d', (s.1, pb').
Qed.

Lemma Remove_same max p l d s : p ≠ [] → agree max d s → same max (ORemove p l) d s.
Proof.
  intros Hp HA. destruct (mem_remove_run p l s.2 Hp (ag_interns _ _ _ HA)) as (pb' & E & HM & HI & HP).
  cbn [ds_op mem_books_op]. rewrite (bind_run _ _ _ _ _ (on_protos_run _ s _ _ E)). unfold DsProtos.RemoveProtocols.
  rewrite <- bind_assoc, segment_run by done. change ((lift (Ret ?x) ≫= ?f) d) with (f x d). cbn beta.
  rewrite <- bind_assoc. change ((get ≫= ?f) d) with (f d d). cbn beta. rewrite (ag_protos _ _ _ HA p Hp) by done. case_bool_decide as H0.
  - exists (ADone true), d, (s.1, pb'). split; [done|]. split; [done|]. destruct s as [kb pb]. eapply agree_same_protos; try done.
    intros q. rewrite HP. case_decide; [subst|done]. apply size_empty_inv in H0. set_solver.
  - destruct (put_same max p (protos_of p s.2 ∖ list_to_set l) (protos_of p s.2 ∖ list_to_set l) pb' d s) as (d' & E' & HA'); try done.
    by exists (ADone true), d', (s.1, pb').
Qed.

Lemma RemovePeer_same max p d s : p ≠ [] → agree max d s → same max (ORemovePeer p) d s.
Proof.
  destruct s as [kb pb]. intros Hp HA. cbn [ds_op mem_books_op].
  set (pb' := set_protocols (segment_of p) (delete p (protocols pb (segment_of p))) pb).
  exists (ADone true), (DsProtos.RemovePeer p (DsKeys.RemovePeer p d)), (KeyBook_RemovePeer p kb, pb'). split; [done|]. split.
  - rewrite (bind_run _ _ _ tt (KeyBook_RemovePeer p kb, pb)) by done.
    rewrite (bind_run _ _ _ tt (KeyBook_RemovePeer p kb, pb')); [done|]. apply on_protos_run. unfold ProtoBook_RemovePeer. by rewrite proto_get_run.
  - apply (agree_remove max d kb pb); try done; [apply HA|]. intros q. apply protos_delete.
Qed.

Lemma op_same max o d s : op_peer o ≠ [] → agree max d s → same max o d s.
Proof.
  intros Hp HA. destruct o; cbn [op_peer] in Hp.
  - by apply PubKey_same.
  - by apply AddPubKey_same.
  - by apply PrivKey_same.
  - by apply AddPrivKey_same.
  - destruct (lookup_same max AProtocols id p d s Hp HA) as [E1 E2]. exists (AProtocols (protos_of p s.2)), d, s. split; [|by split; [exact E2|]].
    refine (eq_trans _ E1). cbn [ds_op]. unfold DsProtos.GetProtocols. change ((get ≫= ?h) d) with (h d d). cbn beta. rewrite segment_run by done.
    cbn. by destruct (getProtocolMap p d).
  - by apply Set_same.
  - by apply Add_same.
  - by apply Remove_same.
  - destruct (lookup_same max AList (λ m, filter (λ q : ProtoID, q ∈ m) l) p d s Hp HA) as [E1 E2]. by eexists _, d, s.
  - destruct (lookup_same max AProtocol (λ m, default EmptyString (snd <$> list_find (λ q : ProtoID, q ∈ m) l)) p d s Hp HA) as [E1 E2]. by eexists _, d, s.
  - by apply RemovePeer_same.
Qed.

(** *** Removing a peer from the store *)

Context {ca : Cache PeerID positive} {cl : CacheLaws}.

Lemma with_ds_Inv T d (b : dsAddrBook) : Inv T b → (∀ k, region k → ds_Get k d = ds_Get k (db_ds b)) → Inv T (with_ds d b).
Proof.
  intros [HS HC] Hk. constructor.
  - intros k Hr. cbn [db_ds with_ds]. rewrite Hk by done. by apply HS.
  - intros p l Hl. destruct (HC p l Hl) as (r & Er & [H1 H2 H3 H4]). exists r. split; [done|]. constructor; try done.
    rewrite H4. f_equal. unfold stored. cbn [db_ds with_ds]. by rewrite Hk by apply region_addr.
Qed.

Lemma removed_get p d k :
  let d' := dsPeerMetadata_RemovePeer b32_Encode p (DsProtos.RemovePeer p (DsKeys.RemovePeer p d)) in
  (¬ Key_names (ChildString pmBase (b32_Encode p)) `prefix_of` Key_names k → k ≠ pub_key p → k ≠ priv_key p → ds_Get k d' = ds_Get k d) ∧
  (∀ key w, k = pm_key b32_Encode p key → plain key → ds_Get k d' ≠ inl w).
Proof.
  intros d'. split.
  - intros H1 H2 H3. unfold d'. change (dsPeerMetadata_RemovePeer b32_Encode p) with (DsProtos.RemovePeer p).
    rewrite !RemovePeer_meta_other by done. rewrite keys_RemovePeer_get, decide_False; [done|]. by intros [?|?].
  - intros key w -> HK E. unfold d' in E. change (dsPeerMetadata_RemovePeer b32_Encode p) with (DsProtos.RemovePeer p) in E.
    set (d1 := DsProtos.RemovePeer p (DsKeys.RemovePeer p d)) in E.
    destruct (ds_Get (pm_key b32_Encode p key) d1) as [v|e] eqn:E1; [by rewrite (RemovePeer_meta_own _ _ _ v HK) in E|].
    unfold DsProtos.RemovePeer, dsPeerMetadata_RemovePeer in E. destruct (query_ok (ChildString pmBase (b32_Encode p)) d1) as [l El].
    rewrite El, delete_keys_get in E. case_decide; [done|]. by rewrite E1 in E.
Qed.

Lemma not_meta_read p key d : (∀ w, ds_Get (pm_key b32_Encode p key) d ≠ inl w) → ∀ v : Value Any, dsPeerMetadata_Get b32_Encode p key d ≠ inl v.
Proof. intros H v. unfold dsPeerMetadata_Get. destruct (ds_Get _ _) as [w|e] eqn:E; [by destruct (H w)|done]. Qed.

(** [RemovePeer] takes a peer out of the key, protocol and metadata books and leaves
    its addresses and all other peers alone: of the named peer neither a key, unless it
    is in the identifier, nor an entry of the metadata is left, the protocols among
    them; the address book keeps its invariant and what it serves; the keys and the
    metadata of every other peer are what they were. *)
Theorem RemovePeer_exact T p (s : DsStore.pstoreds) :
  p ≠ [] → Inv T (DsStore.ps_Book s) →
  let b := DsStore.ps_Book s in let b' := DsStore.ps_Book (DsStore.RemovePeer p s) in let d' := db_ds b' in
  Inv T b' ∧ (∀ q, served T b' q = served T b q) ∧
  DsKeys.PrivKey p d' = None ∧ (ExtractPublicKey p = None → DsKeys.PubKey p d' = Ret (None, d')) ∧
  (∀ key v, plain key → dsPeerMetadata_Get b32_Encode p key d' ≠ inl (v : Value Any)) ∧
  (∀ q, q ≠ p → DsKeys.PrivKey q d' = DsKeys.PrivKey q (db_ds b) ∧ ds_Get (pub_key q) d' = ds_Get (pub_key q) (db_ds b)) ∧
  (∀ q key, q ≠ p → q ≠ [] → plain key →
     dsPeerMetadata_Get (Any := Any) b32_Encode q key d' = dsPeerMetadata_Get b32_Encode q key (db_ds b)).
Proof.
  intros Hp HI b b' d'. set (d := db_ds b). pose proof (removed_get p d) as HG.
  assert (∀ k, region k → ds_Get k d' = ds_Get k d) as HR.
  { intros k Hk. apply HG.
    - rewrite meta_prefix_names. intros [l E]. eapply outside_region, Hk; [exact E|]. by vm_compute.
    - intros ->. eapply outside_region, Hk; [by rewrite peerToKey_names|]. by vm_compute.
    - intros ->. eapply outside_region, Hk; [by rewrite peerToKey_names|]. by vm_compute. }
  assert (∀ k, k = pub_key p ∨ k = priv_key p → ds_Get k d' = inr ds_ErrNotFound) as HN.
  { intros k Hk. unfold d', b'. cbn [DsStore.RemovePeer DsStore.ps_Book db_ds with_ds].
    change (dsPeerMetadata_RemovePeer b32_Encode p) with (DsProtos.RemovePeer p).
    rewrite !RemovePeer_meta_other by (destruct Hk as [->| ->]; apply meta_prefix_key).
    by rewrite keys_RemovePeer_get, decide_True. }
  split; [by apply with_ds_Inv|]. split.
  { intros q. unfold served, stored. f_equal. change (db_ds (DsStore.ps_Book (DsStore.RemovePeer p s))) with d'. by rewrite HR by apply region_addr. }
  split; [unfold DsKeys.PrivKey; by rewrite HN by by right|].
  split; [intros Hx; unfold DsKeys.PubKey; rewrite HN by (by left); by rewrite decide_True, Hx by done|].
  split; [intros key v HK; apply not_meta_read; intros w; by eapply HG|]. split.
  - intros q Hq. unfold DsKeys.PrivKey. rewrite (proj1 (HG (priv_key q))), (proj1 (HG (pub_key q))); [done|..];
      try apply meta_prefix_key; try (intros E; by apply pub_not_priv in E); try (intros E; symmetry in E; by apply pub_not_priv in E);
      [by rewrite pub_key_inj|by rewrite priv_key_inj].
  - intros q key Hq Hq0 HK. unfold dsPeerMetadata_Get. rewrite (proj1 (HG (pm_key b32_Encode q key))); [done|..];
      [by apply meta_prefix_other; [congruence|..]|by apply meta_not_key|by apply meta_not_key].
Qed.

(** The empty identifier is the prefix of all metadata, which go with it. *)
Theorem RemovePeer_empty q key d : q ≠ [] → plain key →
  ∀ v : Value Any, dsPeerMetadata_Get b32_Encode q key (DsProtos.RemovePeer [] d) ≠ inl v.
Proof.
  intros Hq HK. apply not_meta_read. intros w E. unfold DsProtos.RemovePeer, dsPeerMetadata_RemovePeer in E.
  destruct (query_ok (ChildString pmBase (b32_Encode [])) d) as [l El]. rewrite El, delete_keys_get in E.
  case_decide as Hin; [done|]. apply Hin. apply (query_all _ _ _ _ (b32_Encode q) [key] w El); [|done].
  rewrite meta_key_names, meta_prefix_names by done. unfold names_of. rewrite decide_False by done. by rewrite decide_True by done.
Qed.

(** C14: The key and protocol books over a datastore stand in for those in memory: on an
    empty datastore that does not fail, any history of calls on keys and protocols of
    named peers, removals of peers among them, is answered alike, error for error. *)
Theorem books_drop_in (ops : list books_op) d (opts : list Z) :
  Forall (λ o, op_peer o ≠ []) ops →
  (∀ p, ds_Get (pub_key p) d = inr ds_ErrNotFound ∧ ds_Get (priv_key p) d = inr ds_ErrNotFound ∧ ds_Get (protocols_of p) d = inr ds_ErrNotFound) →
  ∃ answers d' s', mapM (ds_op (DsProtos.NewProtoBook opts)) ops d = Ret (answers, d') ∧
    mapM mem_books_op ops (NewKeyBook, PeerMem.NewProtoBook opts) = Ret (answers, s').
Proof.
  intros HF Hd. set (max := DsProtos.NewProtoBook opts).
  assert (agree max d (NewKeyBook, PeerMem.NewProtoBook opts)) as HA.
  { assert (∀ n, let pb := foldl (λ pb num, WithMaxProtocols num pb) (MkProtoBook (λ _, ∅) n ∅) opts in
      maxProtos pb = foldl (λ _ num, num) n opts ∧ interned pb = ∅ ∧ protocols pb = λ _, ∅) as HN
      by (clear; induction opts as [|x l IH]; intros n; [done|apply (IH x)]).
    destruct (HN 1024) as (H1 & H2 & H3). constructor; cbn [fst snd NewKeyBook pks sks]; try done.
    - unfold interns, PeerMem.NewProtoBook. rewrite H2. apply map_Forall_empty.
    - intros p. rewrite lookup_empty. apply Hd.
    - intros p. rewrite lookup_empty. apply Hd.
    - intros p _. unfold DsProtos.getProtocolMap, dsPeerMetadata_Get, protos_of, PeerMem.NewProtoBook.
      rewrite (proj2 (proj2 (Hd p))), H3, lookup_empty. cbn. by repeat case_decide. }
  revert HA. generalize (NewKeyBook, PeerMem.NewProtoBook opts). clear Hd. revert d.
  induction HF as [|o ops Ho HF IH]; intros d s HA; [by exists [], d, s|].
  destruct (op_same max o d s Ho HA) as (a & d1 & s1 & E1 & E2 & HA1). destruct (IH d1 s1 HA1) as (as_ & d2 & s2 & E3 & E4).
  exists (a :: as_), d2, s2. cbn [mapM].
  rewrite (bind_run _ _ _ _ _ E1), (bind_run _ _ _ _ _ E2), (bind_run _ _ _ _ _ E3), (bind_run _ _ _ _ _ E4). done.
Qed.
End Books.

(** ** Witnesses *)

Module ToyBooks.
Import PeerDsToy.
#[local] Existing Instances Toy.multiaddrs Toy.multiaddr_laws ToyBook.libp2p ToyStore.datastore ToyStore.batching ToyStore.key_laws.

#[export] Instance key_tree : KeyTreeLaws.
Proof.
  constructor; intros k; [intros k2|].
  - change (filter plain (`k ++ `k2) = `k ++ `k2). apply ToyStore.plain_filter, Forall_app. split; exact (proj2_dsig _).
  - change (filter plain (removelast (`k)) = removelast (`k)). apply ToyStore.plain_filter.
    pose proof (proj2_dsig k) as HF. destruct (decide (`k = [])) as [->|Hne]; [constructor|].
    rewrite (app_removelast_last [] Hne) in HF. by apply Forall_app in HF as [HF _].
Qed.
#[export] Instance scan : ScanLaws.
Proof.
  constructor.
  - intros prefix d. by eexists.
  - intros prefix d l k x names v [= <-] E Ek. apply list_elem_of_filter.
    split; [change (`k = `prefix ++ x :: names) in E; by eexists|].
    rewrite (ToyStore.toy_get k) in Ek. destruct ((d : gmap ToyStore.key bytes) !! (k : ToyStore.key)) as [w|] eqn:Ew; [|done].
    apply (list_elem_of_fmap_2' _ _ (k, w)); [by apply elem_of_map_to_list|done].
  - intros prefix d l k [= <-] [_ ([k' w] & -> & Hk)%list_elem_of_fmap_1]%list_elem_of_filter. exists w.
    rewrite (ToyStore.toy_get k'). apply elem_of_map_to_list in Hk. by rewrite Hk.
Qed.
#[export] Instance key_formats : KeyFormats := {|
  MarshalPublicKey := λ _, inl []; UnmarshalPublicKey := λ _, inl tt;
  MarshalPrivateKey := λ _, inl []; UnmarshalPrivateKey := λ _, inl tt |}.
#[export] Instance key_format_laws : KeyFormatLaws.
Proof. by constructor; intros []; exists []. Qed.

Definition p : PeerID := [x01].
Definition ops : list books_op :=
  [OAddPubKey p tt; OAddPrivKey p (Some tt); OSet p ["a"; "b"]%string; OAdd p ["c"]%string; ORemove p ["a"]%string; OGet p;
   OFirst p ["a"; "c"]%string; OPubKey p; ORemovePeer p; OGet p; OPubKey p; OPrivKey p].
End ToyBooks.
Import PeerDsToy ToyBooks.
#[local] Existing Instances Toy.multiaddrs Toy.multiaddr_laws ToyBook.libp2p ToyStore.datastore ToyStore.batching ToyStore.reliable
  ToyStore.key_laws ToyStore.query_laws ToyStore.formats ToyStore.format_laws ToyStore.cache ToyStore.cache_laws ToyGob.gob ToyGob.gob_laws.

Lemma books_drop_in_witness : ∃ answers d' s',
  mapM (ds_op (Any := unit) 3) ToyBooks.ops (db_ds ToyStore.empty) = Ret (answers, d') ∧
  mapM mem_books_op ToyBooks.ops (NewKeyBook, PeerMem.NewProtoBook [3]) = Ret (answers, s').
Proof.
  apply (books_drop_in (Any := unit) ToyBooks.ops (db_ds ToyStore.empty) [3]).
  - repeat (apply Forall_cons_2; [discriminate|]). apply Forall_nil_2.
  - intros q. split_and!; apply ToyStore.empty_Get.
Defined.

Lemma RemovePeer_exact_witness :
  let s := DsStore.MkPstoreDs tt (ToyStore.book [MkEntry [x0a] 10 1]) 1024 in
  let b' := DsStore.ps_Book (DsStore.RemovePeer ToyBooks.p s) in
  served 0 b' ToyBooks.p = [MkEntry [x0a] 10 1] ∧ DsKeys.PrivKey ToyBooks.p (db_ds b') = None.
Proof.
  intros s b'. destruct (RemovePeer_exact (Any := unit) 0 ToyBooks.p s) as (_ & H & HP & _).
  - discriminate.
  - apply ToyStore.book_Inv. repeat constructor.
  - split; [|exact HP]. rewrite H. unfold served. change (DsStore.ps_Book s) with (ToyStore.book [MkEntry [x0a] 10 1]).
    change ToyBooks.p with ToyStore.p. rewrite ToyStore.book_stored. vm_compute. reflexivity.
Defined.
