(* ===== verification/Chan.v ===== *)
(** * Go channels

    The runtime's channel: a buffer of fixed capacity, the goroutines parked in
    a send with the value each wants to pass, the number of goroutines parked in
    a receive, and whether it was closed. *)

From S2P Require Export Prelude.

Section Chan.
Context {A : Type}.

Record chan := MkChan { ch_cap : nat; ch_buf : list A; ch_senders : list A; ch_receivers : nat; ch_closed : bool }.

(** [make(chan A, n)] *)
Definition make (n : nat) : chan := MkChan n [] [] 0 false.

(** Whether the goroutine goes on or is parked. *)
Inductive outcome := Goes | Parks.

Definition SendOnClosed : panic := PMsg "send on closed channel".
Definition CloseOfClosed : panic := PMsg "close of closed channel".

(** [c <- a]: to a parked receiver, into the buffer, or the sender parks. *)
Definition send (a : A) (c : chan) : Out (outcome * chan) :=
  if ch_closed c then Panic SendOnClosed
  else match ch_receivers c with
       | S r => Ret (Goes, MkChan (ch_cap c) (ch_buf c) (ch_senders c) r false)
       | O =>
           if bool_decide (length (ch_buf c) < ch_cap c)%nat
           then Ret (Goes, MkChan (ch_cap c) (ch_buf c ++ [a]) (ch_senders c) 0 false)
           else Ret (Parks, MkChan (ch_cap c) (ch_buf c) (ch_senders c ++ [a]) 0 false)
       end.

(** What a receive that need not wait gets, [None] when the zero value of a
    closed channel; a parked sender's value takes the place it frees. *)
Definition try_recv (c : chan) : option (option A * chan) :=
  match ch_buf c, ch_senders c with
  | a :: buf, [] => Some (Some a, MkChan (ch_cap c) buf [] (ch_receivers c) (ch_closed c))
  | a :: buf, x :: ss => Some (Some a, MkChan (ch_cap c) (buf ++ [x]) ss (ch_receivers c) (ch_closed c))
  | [], a :: ss => Some (Some a, MkChan (ch_cap c) [] ss (ch_receivers c) (ch_closed c))
  | [], [] => if ch_closed c then Some (None, c) else None
  end.

(** [<-c]: a receive that cannot go on parks. *)
Definition recv (c : chan) : option A * outcome * chan :=
  match try_recv c with
  | Some (a, c') => (a, Goes, c')
  | None => (None, Parks, MkChan (ch_cap c) (ch_buf c) (ch_senders c) (S (ch_receivers c)) (ch_closed c))
  end.

(** [close(c)]: parked receivers are woken; a parked sender panics, and with it
    the program. *)
Definition close (c : chan) : Out chan :=
  if ch_closed c then Panic CloseOfClosed
  else match ch_senders c with
       | [] => Ret (MkChan (ch_cap c) (ch_buf c) [] 0 true)
       | _ :: _ => Panic SendOnClosed
       end.

(** The values on their way, oldest first. *)
Definition pending (c : chan) : list A := ch_buf c ++ ch_senders c.

(** The states a channel can get into. *)
Definition chan_ok (c : chan) : Prop :=
  (length (ch_buf c) ≤ ch_cap c)%nat ∧
  (ch_senders c ≠ [] → length (ch_buf c) = ch_cap c ∧ ch_receivers c = 0%nat ∧ ch_closed c = false) ∧
  (ch_receivers c ≠ 0%nat → ch_buf c = [] ∧ ch_closed c = false).

Lemma make_ok n : chan_ok (make n).
Proof. unfold chan_ok; cbn. split; [lia|]. split; [done|done]. Qed.

Lemma send_ok a c r c' : chan_ok c → send a c = Ret (r, c') → chan_ok c'.
Proof.
  intros (H1 & H2 & H3). unfold send. destruct c as [k buf ss rs cl]; cbn in *. destruct cl; [done|].
  destruct rs as [|rs]; go_cases; intros [= <- <-]; unfold chan_ok; cbn.
  - rewrite length_app; cbn. split; [lia|]. split; [|done]. intros Hs. destruct (H2 Hs). lia.
  - split; [done|]. split; [|done]. intros _. split; [lia|done].
  - split; [done|]. split; [intros Hs; by destruct (H2 Hs) as (_ & ? & _)|intros _; split; [by apply H3|done]].
Qed.

Lemma try_recv_ok c a c' : chan_ok c → try_recv c = Some (a, c') → chan_ok c'.
Proof.
  intros (H1 & H2 & H3). unfold try_recv. destruct c as [k buf ss rs cl]; cbn in *.
  destruct buf as [|b buf], ss as [|x ss].
  - destruct cl; [|done]. by intros [= <- <-].
  - intros [= <- <-]. destruct H2 as (E & E2 & E3); [done|]. by unfold chan_ok; cbn in *.
  - intros [= <- <-]. unfold chan_ok; cbn in *. split; [lia|]. split; [done|]. intros Hr. by destruct (H3 Hr).
  - intros [= <- <-]. destruct H2 as (E & E2 & E3); [done|]. unfold chan_ok; cbn in *.
    rewrite length_app; cbn. split; [lia|]. split; [|by rewrite E2]. intros _. split; [lia|done].
Qed.

Lemma close_ok c c' : chan_ok c → close c = Ret c' → chan_ok c'.
Proof.
  intros (H1 & H2 & H3). unfold close. destruct c as [k buf ss rs cl]; cbn in *. destruct cl; [done|].
  destruct ss; [|done]. intros [= <-]. by unfold chan_ok; cbn.
Qed.

(** First in, first out. *)
Lemma send_pending a c r c' : send a c = Ret (r, c') → ch_receivers c = 0%nat → chan_ok c →
  pending c' = pending c ++ [a].
Proof.
  intros E Hr (H1 & H2 & _). unfold send in E. destruct (ch_closed c); [done|]. rewrite Hr in E.
  unfold pending. case_bool_decide as Hb; injection E as <- <-; cbn.
  - destruct (ch_senders c) eqn:Es; [by rewrite !app_nil_r|]. destruct H2 as (? & _); [done|lia].
  - by rewrite app_assoc.
Qed.

Lemma try_recv_pending c a c' : try_recv c = Some (Some a, c') → pending c = a :: pending c'.
Proof.
  unfold try_recv, pending. destruct (ch_buf c) as [|b buf], (ch_senders c) as [|x ss].
  - by destruct (ch_closed c).
  - by intros [= <- <-].
  - by intros [= <- <-].
  - intros [= <- <-]. cbn. by rewrite <- app_assoc.
Qed.

Lemma try_recv_None c : try_recv c = None ↔ pending c = [] ∧ ch_closed c = false.
Proof.
  unfold try_recv, pending. destruct (ch_buf c) as [|b buf], (ch_senders c) as [|x ss]; cbn; try (by split; [|intros [? _]]).
  destruct (ch_closed c); naive_solver.
Qed.

Lemma try_recv_closed c c' : try_recv c = Some (None, c') → pending c = [] ∧ ch_closed c = true ∧ c' = c.
Proof.
  unfold try_recv, pending. destruct (ch_buf c) as [|b buf], (ch_senders c) as [|x ss]; try done.
  destruct (ch_closed c); naive_solver.
Qed.

(** A closed channel stays as it is while nothing is pending. *)
Lemma pending_close c c' : close c = Ret c' → pending c' = pending c ∧ ch_closed c' = true.
Proof.
  unfold close, pending. destruct (ch_closed c); [done|]. destruct (ch_senders c); [|done].
  by intros [= <-].
Qed.
End Chan.

Arguments chan : clear implicits.
