(* ===== verification/Quit.v ===== *)
(** * Observable quit and trigger channels

    Models [pkg/util/qu].  Channel values are locations of [chans], [None] for
    nil; [at_] is the source line [runtime.Caller] reports.  The registry is the
    pair of package lists, guarded by [mx].  [Signal] says whether the calling
    goroutine goes on or is parked in the send. *)

From S2P Require Export Chan.

Definition C : Type := option nat.

Record St := MkSt {
  createdList : list string;
  createdChannels : list C;
  mx : bool;
  logEnabled : bool;
  printed : list (list string);
  chans : list (chan unit);
}.

Definition with_created (ll : list string) (c : list C) (s : St) : St :=
  MkSt ll c (mx s) (logEnabled s) (printed s) (chans s).
Definition with_mx (b : bool) (s : St) : St :=
  MkSt (createdList s) (createdChannels s) b (logEnabled s) (printed s) (chans s).
Definition with_logEnabled (b : bool) (s : St) : St :=
  MkSt (createdList s) (createdChannels s) (mx s) b (printed s) (chans s).
Definition with_printed (p : list (list string)) (s : St) : St :=
  MkSt (createdList s) (createdChannels s) (mx s) (logEnabled s) p (chans s).
Definition with_chans (cs : list (chan unit)) (s : St) : St :=
  MkSt (createdList s) (createdChannels s) (mx s) (logEnabled s) (printed s) cs.

Abbreviation QM := (GoM St).
Definition upd (f : St → St) : QM unit := λ s, Ret (tt, f s).
Definition lock : QM unit := λ s, if mx s then Panic PBlock else Ret (tt, with_mx true s).
Definition unlock : QM unit := λ s, if mx s then Ret (tt, with_mx false s) else Panic PLock.

(** A line for the debug log. *)
Definition Ln (a : list string) : QM unit := upd (λ s, with_printed (printed s ++ [a]) s).

(** The function [l]. *)
Definition l (a : list string) : QM unit := s ← get; if logEnabled s then Ln a else mret tt.

Definition Caller (comment at_ : string) : string := comment +:+ ": " +:+ at_.

(** The channel behind a value that is not nil. *)
Definition deref (c : C) : QM (nat * chan unit) := λ s,
  match c ≫= λ k, pair k <$> chans s !! k with Some r => Ret (r, s) | None => Panic PNil end.
Definition put_chan (k : nat) (ch : chan unit) : QM unit := upd (λ s, with_chans (<[k := ch]> (chans s)) s).

(** [select { case <-ch: o = true; default: }] *)
Definition testChanIsClosed (c : C) : QM bool :=
  match c with
  | None => mret true
  | Some _ =>
      '(k, ch) ← deref c;
      match try_recv ch with
      | Some (_, ch') => put_chan k ch' ;; mret true
      | None => mret false
      end
  end.

(** The last entry of the registry for the channel. *)
Definition locate (c : C) (ll : list string) (cs : list C) : string :=
  foldl (λ s e, if bool_decide (e.2 = c) then e.1 else s) "not found" (zip ll cs).

Definition getLocForChan (c : C) : QM string :=
  lock ;;
  s ← get;
  unlock ;;
  mret (locate c (createdList s) (createdChannels s)).

Definition new_chan (n : nat) : QM C := λ s, Ret (Some (length (chans s)), with_chans (chans s ++ [Chan.make (A := unit) n]) s).

Definition create (comment : string) (n : nat) (at_ : string) : QM C :=
  lock ;;
  let msg := Caller comment at_ in
  l ["created"; msg] ;;
  upd (λ s, with_created (createdList s ++ [msg]) (createdChannels s) s) ;;
  o ← new_chan n;
  upd (λ s, with_created (createdList s) (createdChannels s ++ [o]) s) ;;
  unlock ;;
  mret o.

Definition T (at_ : string) : QM C := create "chan from" 0 at_.
Definition Ts (n : nat) (at_ : string) : QM C := create "buffered chan from" n at_.

Definition spaces48 : string := "                                                ".
Definition newline : string := String (Ascii.ascii_of_nat 10) EmptyString.

Definition Q (c : C) (at_ : string) : QM unit :=
  loc ← getLocForChan c;
  lock ;;
  closed ← testChanIsClosed c;
  o ← (if negb closed then
         '(k, ch) ← deref c;
         ch' ← lift (close ch);
         put_chan k ch' ;;
         mret ("closing chan from " +:+ loc +:+ Caller (newline +:+ spaces48 +:+ "from") at_)
       else mret ("from" +:+ Caller "" at_ +:+ newline +:+ spaces48 +:+ "channel " +:+ loc +:+ " was already closed"));
  unlock ;;
  l [o].

Definition SetLogging (on : bool) : QM unit := upd (with_logEnabled on).

(** A send on a nil channel waits forever. *)
Definition Signal (c : C) : QM outcome :=
  loc ← getLocForChan c;
  l ["signalling " +:+ loc] ;;
  match c with
  | None => panicM PBlock
  | Some _ =>
      '(k, ch) ← deref c;
      '(r, ch') ← lift (send tt ch);
      put_chan k ch' ;;
      mret r
  end.

Definition Wait (c : C) (at_ : string) : QM C :=
  loc ← getLocForChan c;
  l ["waiting on " +:+ loc +:+ Caller "at" at_] ;;
  mret c.

Fixpoint count_open (cs : list C) (o : Z) : QM Z :=
  match cs with
  | [] => mret o
  | c :: cs => closed ← testChanIsClosed c; count_open cs (if closed : bool then o else o + 1)
  end.

Definition GetOpenChanCount : QM Z :=
  lock ;;
  s ← get;
  o ← count_open (createdChannels s) 0;
  unlock ;;
  mret o.

(** Entries beyond the shorter list are not looked at. *)
Fixpoint print_states (es : list (string * C)) : QM unit :=
  match es with
  | [] => mret tt
  | (msg, c) :: es =>
      closed ← testChanIsClosed c;
      (if closed : bool then Ln [">>> closed"; msg] else Ln ["<<< open"; msg]) ;;
      print_states es
  end.

Definition PrintChanState : QM unit :=
  lock ;;
  s ← get;
  print_states (zip (createdList s) (createdChannels s)) ;;
  unlock.

Fixpoint keep_open (es : list (string * C)) (kept : list (string * C)) : QM (list (string * C)) :=
  match es with
  | [] => mret kept
  | (msg, c) :: es =>
      closed ← testChanIsClosed c;
      keep_open es (if closed : bool then kept else kept ++ [(msg, c)])
  end.

(** What the package's goroutine does every minute. *)
Definition clean_up : QM unit :=
  Ln ["cleaning up closed channels"] ;;
  lock ;;
  s ← get;
  kept ← keep_open (zip (createdList s) (createdChannels s)) [];
  upd (with_created (fst <$> kept) (snd <$> kept)) ;;
  unlock.

(** The package when its variables are set up. *)
Definition empty : St := MkSt [] [] false false [] [].
Definition init (at_ : string) : Out (C * St) := T at_ empty.
