(* ===== verification/QuitProps.v ===== *)
(** * What the quit channels promise

    [Q] never panics and closes a channel unless a signal is pending on it, in
    which case it takes the signal and leaves the channel open.  Looking at the
    state of the channels takes their signals, too. *)

From S2P Require Export Quit.

(** What testing a channel leaves of it. *)
Definition tested (ch : chan unit) : chan unit := match try_recv ch with Some (_, ch') => ch' | None => ch end.

(** A test reports a closed channel or a pending signal. *)
Definition seems_closed (ch : chan unit) : bool := match try_recv ch with Some _ => true | None => false end.

Lemma seems_closed_spec ch : seems_closed ch = false ↔ pending ch = [] ∧ ch_closed ch = false.
Proof. unfold seems_closed. rewrite <- try_recv_None. destruct (try_recv ch); naive_solver. Qed.

(** What [Q] makes of a channel. *)
Definition quit (ch : chan unit) : chan unit :=
  match pending ch with
  | [] => MkChan (ch_cap ch) [] [] 0 true
  | _ :: _ => tested ch
  end.

Record Inv (s : St) : Prop := {
  inv_mx : mx s = false;
  inv_lists : length (createdList s) = length (createdChannels s);
  inv_made : ∀ c, c ∈ createdChannels s → ∃ k, c = Some k ∧ (k < length (chans s))%nat;
  inv_once : NoDup (createdChannels s);
  inv_chans : Forall chan_ok (chans s);
}.

(** Everything but the log. *)
Definition silent (s s' : St) : Prop :=
  createdList s' = createdList s ∧ createdChannels s' = createdChannels s ∧ mx s' = mx s ∧
  logEnabled s' = logEnabled s ∧ chans s' = chans s.

Lemma l_run a s : ∃ p, l a s = Ret (tt, with_printed p s).
Proof. unfold l. unfold mbind, GoM_bind, get. destruct (logEnabled s); [by eexists|]. exists (printed s). by destruct s. Qed.

Lemma getLoc_run c s : mx s = false → getLocForChan c s = Ret (locate c (createdList s) (createdChannels s), s).
Proof. intros E. unfold getLocForChan, lock, unlock, mbind, GoM_bind, get. rewrite E. cbn. destruct s; cbn in *. by rewrite E. Qed.

Lemma lock_run s : mx s = false → lock s = Ret (tt, with_mx true s).
Proof. intros E. unfold lock. by rewrite E. Qed.

Lemma test_run s k ch : chans s !! k = Some ch →
  testChanIsClosed (Some k) s = Ret (seems_closed ch, with_chans (<[k := tested ch]> (chans s)) s).
Proof.
  intros E. unfold testChanIsClosed. rewrite (bind_run _ _ s (k, ch) s) by (unfold deref; cbn; by rewrite E).
  unfold seems_closed, tested. destruct (try_recv ch) as [[a ch']|]; [done|].
  rewrite list_insert_id by done. by destruct s.
Qed.

Lemma seems_closed_pending ch : pending ch ≠ [] → seems_closed ch = true.
Proof. intros Hp. destruct (seems_closed ch) eqn:E; [done|]. by apply seems_closed_spec in E as [? _]. Qed.

Lemma quit_closed ch : chan_ok ch → seems_closed ch = true → quit ch = tested ch.
Proof.
  intros (_ & _ & Hr) Hs. unfold quit, seems_closed, tested in *. destruct (try_recv ch) as [[[a|] ch']|] eqn:Et; [| |done].
  - apply try_recv_pending in Et. by rewrite Et.
  - apply try_recv_closed in Et as (Ep & Ec & ->). rewrite Ep. unfold pending in Ep. apply app_nil in Ep as [Eb Es].
    destruct ch as [cap buf ss [|rs] cl]; cbn in *; [by subst|]. destruct Hr as [_ ?]; congruence.
Qed.

Lemma quit_open ch : seems_closed ch = false → close (tested ch) = Ret (quit ch).
Proof.
  intros Hs. apply seems_closed_spec in Hs as Hp. destruct Hp as [Hp Hc]. unfold seems_closed, tested, quit in *.
  destruct (try_recv ch) as [[? ?]|]; [done|]. rewrite Hp. unfold close. rewrite Hc.
  unfold pending in Hp. apply app_nil in Hp as [-> ->]. done.
Qed.

(** What [quit] does: it closes a channel nothing is pending on, and takes the
    first signal of any other. *)
Lemma quit_spec ch :
  (pending ch = [] → ch_closed (quit ch) = true ∧ ch_receivers (quit ch) = 0%nat) ∧
  (∀ a rest, pending ch = a :: rest → pending (quit ch) = rest ∧ ch_closed (quit ch) = ch_closed ch).
Proof.
  unfold quit. split; [by intros ->|]. intros a rest Hp. rewrite Hp. unfold tested.
  destruct (try_recv ch) as [[[b|] ch']|] eqn:Et.
  - apply try_recv_pending in Et as Ep. rewrite Hp in Ep. injection Ep as -> ->. split; [done|].
    unfold try_recv in Et. destruct (ch_buf ch), (ch_senders ch); try (by injection Et as _ <-). by destruct (ch_closed ch).
  - apply try_recv_closed in Et as (? & _). congruence.
  - apply try_recv_None in Et as [? _]. congruence.
Qed.

Lemma Q_run s k ch at_ : Inv s → chans s !! k = Some ch →
  ∃ p, Q (Some k) at_ s = Ret (tt, with_printed p (with_chans (<[k := quit ch]> (chans s)) s)).
Proof.
  intros [Hmx Hl Hm Hn Hc] Hk. assert (chan_ok ch) as Hok by exact (Forall_lookup_1 _ _ _ _ Hc Hk).
  unfold Q. rewrite (bind_run _ _ _ _ _ (getLoc_run _ s Hmx)), (bind_run _ _ _ _ _ (lock_run s Hmx)).
  rewrite (bind_run _ _ _ _ _ (test_run (with_mx true s) k ch Hk)).
  set (s1 := with_chans _ _). assert (chans s1 !! k = Some (tested ch)) as Hk1.
  { cbn. apply list_lookup_insert_eq. by eapply lookup_lt_Some. }
  assert (∀ o, ∃ p, (unlock ;; l [o]) (with_chans (<[k := quit ch]> (chans s)) s1)
            = Ret (tt, with_printed p (with_chans (<[k := quit ch]> (chans s)) s))) as Hend.
  { intros o. rewrite (bind_run unlock _ _ tt (with_mx false (with_chans (<[k := quit ch]> (chans s)) s1))) by done.
    destruct (l_run [o] (with_mx false (with_chans (<[k := quit ch]> (chans s)) s1))) as [p Ep].
    exists p. rewrite Ep. destruct s; cbn in *. by rewrite Hmx. }
  destruct (seems_closed ch) eqn:Es; cbn [negb].
  - assert (with_chans (<[k := quit ch]> (chans s)) s1 = s1) as E1 by (by rewrite (quit_closed ch Hok Es)).
    rewrite <- E1. apply Hend.
  - assert (deref (Some k) s1 = Ret ((k, tested ch), s1)) as Ed by (unfold deref; cbn -[s1]; by rewrite Hk1).
    rewrite <- bind_assoc, (bind_run _ _ _ _ _ Ed), <- bind_assoc, (bind_run _ _ _ _ _ (lift_run _ _ s1 (quit_open ch Es))).
    rewrite <- bind_assoc. rewrite (bind_run (put_chan k (quit ch)) _ s1 tt (with_chans (<[k := quit ch]> (chans s)) s1)).
    + apply Hend.
    + unfold put_chan, upd. cbn. by rewrite list_insert_insert_eq.
Qed.

(** [Q] on any channel: it is closed, unless a signal is pending, which is taken
    in its place; a channel closed before stays as it is. *)
Theorem Q_closes s k ch at_ : Inv s → chans s !! k = Some ch →
  ∃ p, Q (Some k) at_ s = Ret (tt, with_printed p (with_chans (<[k := quit ch]> (chans s)) s)) ∧
       (pending ch = [] → ch_closed (quit ch) = true ∧ ch_receivers (quit ch) = 0%nat) ∧
       (∀ a rest, pending ch = a :: rest → pending (quit ch) = rest ∧ ch_closed (quit ch) = ch_closed ch).
Proof. intros HI Hk. destruct (Q_run s k ch at_ HI Hk) as [p E]. exists p. split; [done|]. apply quit_spec. Qed.

(** ** Looking at many channels *)

Definition is_open (m : list (chan unit)) (c : C) : bool :=
  match c ≫= λ k, m !! k with Some ch => negb (seems_closed ch) | None => false end.

(** The channels after each one in a list was tested. *)
Definition tests (cs : list C) (m : list (chan unit)) : list (chan unit) :=
  foldl (λ m c, match c with Some k => alter tested k m | None => m end) m cs.

(** A value that is nil or made by the package. *)
Definition made (m : list (chan unit)) (c : C) : Prop := ∃ k, c = Some k ∧ (k < length m)%nat.

Lemma length_tests cs m : length (tests cs m) = length m.
Proof.
  revert m; induction cs as [|[k|] cs IH]; intros m; [done| |apply IH].
  change (tests (Some k :: cs) m) with (tests cs (alter tested k m)). by rewrite IH, length_alter.
Qed.

Lemma alter_insert_eq {A} (f : A → A) (l : list A) k x : l !! k = Some x → alter f k l = <[k := f x]> l.
Proof.
  intros Hx. apply list_eq. intros i. destruct (decide (i = k)) as [->|Hi].
  - rewrite list_lookup_alter_eq, Hx, list_lookup_insert_eq; [done|by eapply lookup_lt_Some].
  - by rewrite list_lookup_alter_ne, list_lookup_insert_ne by done.
Qed.

Lemma test_any c s : made (chans s) c →
  testChanIsClosed c s = Ret (negb (is_open (chans s) c), with_chans (tests [c] (chans s)) s).
Proof.
  intros (k & -> & Hk). apply lookup_lt_is_Some_2 in Hk as [ch Hk]. rewrite (test_run s k ch Hk). unfold is_open. cbn.
  by rewrite Hk, negb_involutive, (alter_insert_eq _ _ _ _ Hk).
Qed.

Lemma is_open_tests c c' m : c' ≠ c → is_open (tests [c] m) c' = is_open m c'.
Proof.
  intros Hc. unfold is_open. destruct c' as [k'|]; [|done]. destruct c as [k|]; [|done]. cbn.
  by rewrite list_lookup_alter_ne by congruence.
Qed.

Lemma filter_open_tests {E} (key : E → C) c (es : list E) m : c ∉ key <$> es →
  filter (λ e, is_open (tests [c] m) (key e) = true) es = filter (λ e, is_open m (key e) = true) es.
Proof.
  induction es as [|e es IH]; intros Hc; [done|]. rewrite fmap_cons, not_elem_of_cons in Hc. destruct Hc as [Hne Hc].
  rewrite !filter_cons, IH by done. by rewrite (is_open_tests c (key e) m) by done.
Qed.

Lemma made_tests c c' m : made m c → made (tests [c'] m) c.
Proof. intros (k & -> & Hk). exists k. by rewrite length_tests. Qed.

Lemma count_open_run cs o s : NoDup cs → Forall (made (chans s)) cs →
  count_open cs o s
  = Ret (o + zlen (filter (λ c, is_open (chans s) c = true) cs), with_chans (tests cs (chans s)) s).
Proof.
  intros Hn Hm. revert o s Hn Hm. induction cs as [|c cs IH]; intros o s Hn Hm.
  { cbn. rewrite Z.add_0_r. by destruct s. }
  apply Forall_cons in Hm as [Hc Hm]. apply NoDup_cons in Hn as [Hnc Hn]. cbn [count_open].
  rewrite (bind_run _ _ _ _ _ (test_any c s Hc)), IH; [|done|eapply Forall_impl; [exact Hm|intros; by apply made_tests]].
  cbn [chans with_chans]. pose proof (filter_open_tests id c cs (chans s)) as Hf. rewrite list_fmap_id in Hf.
  unfold id in Hf. rewrite Hf by done. rewrite filter_cons. f_equal. f_equal.
  destruct (is_open (chans s) c); cbn; [rewrite decide_True by done|rewrite decide_False by done]; unfold zlen; cbn [length]; lia.
Qed.

Lemma keep_open_run es kept s : NoDup (snd <$> es) → Forall (made (chans s)) (snd <$> es) →
  keep_open es kept s
  = Ret (kept ++ filter (λ e, is_open (chans s) e.2 = true) es, with_chans (tests (snd <$> es) (chans s)) s).
Proof.
  revert kept s. induction es as [|[msg c] es IH]; intros kept s Hn Hm.
  { cbn. rewrite app_nil_r. by destruct s. }
  rewrite fmap_cons in *. apply Forall_cons in Hm as [Hc Hm]. apply NoDup_cons in Hn as [Hnc Hn]. cbn [keep_open snd] in *.
  rewrite (bind_run _ _ _ _ _ (test_any c s Hc)), IH; [|done|eapply Forall_impl; [exact Hm|intros; by apply made_tests]].
  cbn [chans with_chans]. rewrite (filter_open_tests snd c es (chans s)) by done. rewrite filter_cons. cbn [snd].
  f_equal. f_equal.
  destruct (is_open (chans s) c); cbn; [rewrite decide_True by done|by rewrite decide_False by done]. by rewrite <- app_assoc.
Qed.

Lemma tests_lookup cs m k : NoDup cs →
  tests cs m !! k = (if decide (Some k ∈ cs) then tested <$> m !! k else m !! k).
Proof.
  revert m; induction cs as [|c cs IH]; intros m Hn; [done|]. apply NoDup_cons in Hn as [Hc Hn].
  destruct c as [j|].
  - change (tests (Some j :: cs) m) with (tests cs (alter tested j m)). rewrite IH by done.
    destruct (decide (j = k)) as [->|Hj].
    + rewrite decide_False by done. rewrite decide_True by left. by rewrite list_lookup_alter_eq.
    + rewrite list_lookup_alter_ne by done. repeat case_decide; set_solver.
  - change (tests (None :: cs) m) with (tests cs m). rewrite IH by done. repeat case_decide; set_solver.
Qed.

(** The number of open channels is that of the registered ones neither closed
    nor signalled, and finding it takes a signal from each channel that has one. *)
Theorem GetOpenChanCount_counts s : Inv s →
  ∃ m', GetOpenChanCount s
        = Ret (zlen (filter (λ c, is_open (chans s) c = true) (createdChannels s)), with_chans m' s) ∧
        ∀ k, m' !! k = (if decide (Some k ∈ createdChannels s) then tested <$> chans s !! k else chans s !! k).
Proof.
  intros [Hmx Hl Hm Hn Hc]. exists (tests (createdChannels s) (chans s)). split; [|intros k; by apply tests_lookup].
  unfold GetOpenChanCount. rewrite (bind_run _ _ _ _ _ (lock_run s Hmx)).
  rewrite (bind_run get _ _ (with_mx true s) (with_mx true s)) by done.
  rewrite (bind_run _ _ _ _ _ (count_open_run (createdChannels s) 0 (with_mx true s) Hn ltac:(by apply Forall_forall))).
  destruct s; cbn in *. by rewrite Hmx.
Qed.

Lemma tested_ok ch : chan_ok ch → chan_ok (tested ch).
Proof. intros Hok. unfold tested. destruct (try_recv ch) as [[a ch']|] eqn:E; [by eapply try_recv_ok|done]. Qed.

Lemma tests_ok cs m : Forall chan_ok m → Forall chan_ok (tests cs m).
Proof.
  revert m; induction cs as [|[k|] cs IH]; intros m Hm; [done| |by apply IH].
  apply IH, Forall_alter; [done|]. intros ch _ Hok. by apply tested_ok.
Qed.

(** Once a minute the registry loses the channels that are closed, and those with
    a signal pending as well: the open ones keep their place. *)
Theorem clean_up_keeps_open s : Inv s →
  ∃ s', clean_up s = Ret (tt, s') ∧
        zip (createdList s') (createdChannels s')
        = filter (λ e, is_open (chans s) e.2 = true) (zip (createdList s) (createdChannels s)) ∧ Inv s'.
Proof.
  intros [Hmx Hl Hm Hn Hc]. set (es := zip (createdList s) (createdChannels s)).
  assert (snd <$> es = createdChannels s) as Hes by (unfold es; apply snd_zip; lia).
  unfold clean_up.
  rewrite (bind_run (Ln _) _ s tt _ eq_refl). set (s0 := with_printed _ s).
  rewrite (bind_run _ _ _ _ _ (lock_run s0 Hmx)).
  rewrite (bind_run get _ _ (with_mx true s0) (with_mx true s0)) by done.
  change (zip (createdList (with_mx true s0)) (createdChannels (with_mx true s0))) with es.
  assert (NoDup (snd <$> es)) as Hn' by (by rewrite Hes).
  assert (Forall (made (chans s)) (snd <$> es)) as Hm' by (rewrite Hes; by apply Forall_forall).
  rewrite (bind_run _ _ _ _ _ (keep_open_run es [] (with_mx true s0) Hn' Hm')). cbn [app].
  set (kept := filter _ es). eexists. split; [reflexivity|]. cbn. split; [apply zip_fst_snd|].
  assert (sublist kept es) as Hsub by apply sublist_filter.
  split; cbn.
  - done.
  - by rewrite !length_fmap.
  - intros c Hin. rewrite length_tests. apply Hm. rewrite <- Hes. by eapply elem_of_sublist, fmap_sublist.
  - eapply sublist_NoDup; [exact Hn'|]. by apply fmap_sublist.
  - by apply tests_ok.
Qed.

(** ** Every use of the package *)

(** One call of the package, or a receive by somebody who waits on a channel. *)
Inductive step (s : St) : St → Prop :=
| step_T at_ c s' : T at_ s = Ret (c, s') → step s s'
| step_Ts n at_ c s' : Ts n at_ s = Ret (c, s') → step s s'
| step_Q c at_ s' : Q c at_ s = Ret (tt, s') → step s s'
| step_Signal c r s' : Signal c s = Ret (r, s') → step s s'
| step_Wait c at_ c' s' : Wait c at_ s = Ret (c', s') → step s s'
| step_SetLogging on s' : SetLogging on s = Ret (tt, s') → step s s'
| step_count o s' : GetOpenChanCount s = Ret (o, s') → step s s'
| step_print s' : PrintChanState s = Ret (tt, s') → step s s'
| step_clean s' : clean_up s = Ret (tt, s') → step s s'
| step_recv k ch a r ch' : chans s !! k = Some ch → recv ch = (a, r, ch') → step s (with_chans (<[k := ch']> (chans s)) s).

Lemma Inv_log p s : Inv s → Inv (with_printed p s).
Proof. by intros []. Qed.

Lemma Inv_put k ch s : Inv s → chan_ok ch → Inv (with_chans (<[k := ch]> (chans s)) s).
Proof.
  intros [Hmx Hl Hm Hn Hc] Hok. split; cbn; try done.
  - intros c Hin. rewrite length_insert. by apply Hm.
  - by apply Forall_insert.
Qed.

Lemma Inv_create comment n at_ s : Inv s → ∃ c s', create comment n at_ s = Ret (c, s') ∧ Inv s' ∧
  c = Some (length (chans s)) ∧ createdList s' = createdList s ++ [Caller comment at_].
Proof.
  intros [Hmx Hl Hm Hn Hc]. unfold create. rewrite (bind_run _ _ _ _ _ (lock_run s Hmx)).
  destruct (l_run ["created"; Caller comment at_] (with_mx true s)) as [p Ep]. rewrite (bind_run _ _ _ _ _ Ep).
  eexists _, _. split; [reflexivity|]. split; [|done]. split; cbn; [done| | | |].
  - rewrite !length_app, Hl. done.
  - intros c Hin. rewrite length_app. apply elem_of_app in Hin as [Hin|Hin%list_elem_of_singleton].
    + destruct (Hm c Hin) as (k & -> & Hk). exists k. cbn. split; [done|lia].
    + subst. eexists. split; [done|]. cbn. lia.
  - apply NoDup_app. split; [done|]. split; [|by apply NoDup_singleton]. intros c Hin ->%list_elem_of_singleton.
    destruct (Hm _ Hin) as (k & [= <-] & Hk). lia.
  - apply Forall_app. split; [done|]. apply Forall_singleton, make_ok.
Qed.

(** A signal sent on a closed channel panics; otherwise it waits its turn. *)
Theorem Signal_on_closed s k ch : Inv s → chans s !! k = Some ch →
  if ch_closed ch then Signal (Some k) s = Panic SendOnClosed
  else ∃ r p ch', Signal (Some k) s = Ret (r, with_printed p (with_chans (<[k := ch']> (chans s)) s)) ∧
       (ch_receivers ch = 0%nat → pending ch' = pending ch ++ [tt]).
Proof.
  intros [Hmx Hl Hm Hn Hc] Hk. assert (chan_ok ch) as Hok by exact (Forall_lookup_1 _ _ _ _ Hc Hk).
  unfold Signal. rewrite (bind_run _ _ _ _ _ (getLoc_run (Some k) s Hmx)).
  match goal with |- context [l ?x] => destruct (l_run x s) as [p Ep] end. rewrite (bind_run _ _ _ _ _ Ep).
  assert (deref (Some k) (with_printed p s) = Ret ((k, ch), with_printed p s)) as Ed by (unfold deref; cbn; by rewrite Hk).
  rewrite (bind_run _ _ _ _ _ Ed). destruct (ch_closed ch) eqn:Ec.
  - apply bind_panic. unfold lift, send. by rewrite Ec.
  - destruct (send tt ch) as [[r ch']|] eqn:Es.
    + exists r, p, ch'. by split; [|intros; by eapply send_pending].
    + unfold send in Es. rewrite Ec in Es. destruct (ch_receivers ch); [by case_bool_decide|done].
Qed.

Lemma quit_ok ch : chan_ok ch → chan_ok (quit ch).
Proof.
  intros Hok. destruct (seems_closed ch) eqn:E; [rewrite (quit_closed ch Hok E); by apply tested_ok|].
  eapply close_ok; [|by apply quit_open]. by apply tested_ok.
Qed.

Lemma recv_ok {A} (ch : chan A) a r ch' : chan_ok ch → recv ch = (a, r, ch') → chan_ok ch'.
Proof.
  intros Hok. unfold recv. destruct (try_recv ch) as [[b c]|] eqn:E; intros [= <- <- <-]; [by eapply try_recv_ok|].
  apply try_recv_None in E as [Ep Ec]. unfold pending in Ep. apply app_nil in Ep as [Eb Es].
  destruct Hok as (H1 & H2 & H3). unfold chan_ok; cbn. rewrite Eb, Es, Ec in *. by split.
Qed.

Lemma print_states_run es s : NoDup (snd <$> es) → Forall (made (chans s)) (snd <$> es) →
  ∃ p, print_states es s = Ret (tt, with_printed p (with_chans (tests (snd <$> es) (chans s)) s)).
Proof.
  revert s. induction es as [|[msg c] es IH]; intros s Hn Hm; [exists (printed s); by destruct s|].
  rewrite fmap_cons in *. apply Forall_cons in Hm as [Hc Hm]. apply NoDup_cons in Hn as [Hnc Hn]. cbn [print_states snd] in *.
  rewrite (bind_run _ _ _ _ _ (test_any c s Hc)).
  set (s1 := with_chans _ s).
  assert (∃ p, (if negb (is_open (chans s) c) then Ln [">>> closed"; msg] else Ln ["<<< open"; msg]) s1 = Ret (tt, with_printed p s1))
    as [p Ep] by (destruct (negb _); by eexists).
  rewrite (bind_run _ _ _ _ _ Ep). destruct (IH (with_printed p s1) Hn) as [p' Ep'].
  { eapply Forall_impl; [exact Hm|]. intros. by apply made_tests. }
  exists p'. rewrite Ep'. by destruct s.
Qed.

Lemma Inv_tests cs s : Inv s → Inv (with_chans (tests cs (chans s)) s).
Proof.
  intros [Hmx Hl Hm Hn Hc]. split; cbn; try done; [|by apply tests_ok].
  intros c Hin. rewrite length_tests. by apply Hm.
Qed.

Lemma Inv_Q c at_ s s' : Inv s → Q c at_ s = Ret (tt, s') → Inv s'.
Proof.
  intros HI H. pose proof HI as [Hmx Hl Hm Hn Hc]. destruct c as [k|].
  - destruct (chans s !! k) as [ch|] eqn:Hk.
    + destruct (Q_run s k ch at_ HI Hk) as (p & E). rewrite E in H. injection H as <-.
      apply Inv_log, Inv_put, quit_ok; [done|]. exact (Forall_lookup_1 _ _ _ _ Hc Hk).
    + unfold Q in H. rewrite (bind_run _ _ _ _ _ (getLoc_run _ s Hmx)), (bind_run _ _ _ _ _ (lock_run s Hmx)) in H.
      rewrite (bind_panic _ _ _ PNil) in H; [done|]. unfold testChanIsClosed. apply bind_panic. unfold deref. cbn. by rewrite Hk.
  - unfold Q in H. rewrite (bind_run _ _ _ _ _ (getLoc_run _ s Hmx)), (bind_run _ _ _ _ _ (lock_run s Hmx)) in H.
    match type of H with context [l ?x] => idtac | _ => idtac end. unfold testChanIsClosed in H.
    rewrite (bind_run (mret true) _ (with_mx true s) true (with_mx true s)) in H by done. cbn [negb] in H.
    apply bind_inv in H as (o & s1 & E1 & H). injection E1 as <- <-.
    apply bind_inv in H as ([] & s2 & E2 & H). injection E2 as <-.
    match type of H with l ?x _ = _ => destruct (l_run x (with_mx false (with_mx true s))) as [p Ep] end.
    rewrite Ep in H. injection H as <-. apply Inv_log. destruct s; cbn in *. by subst.
Qed.

Lemma Inv_Signal c r s s' : Inv s → Signal c s = Ret (r, s') → Inv s'.
Proof.
  intros HI H. pose proof HI as [Hmx Hl Hm Hn Hc]. unfold Signal in H.
  rewrite (bind_run _ _ _ _ _ (getLoc_run c s Hmx)) in H.
  match type of H with context [l ?x] => destruct (l_run x s) as [p Ep] end. rewrite (bind_run _ _ _ _ _ Ep) in H.
  destruct c as [k|]; [|done]. apply bind_inv in H as ([k' ch] & s1 & Ed & H). unfold deref in Ed. cbn in Ed.
  destruct (chans s !! k) as [ch0|] eqn:Hk; [|done]. injection Ed as <- <- <-.
  destruct (send tt ch0) as [[r' ch']|] eqn:Es; [|done]. injection H as <- <-.
  apply (Inv_put k ch' (with_printed p s)); [by apply Inv_log|].
  eapply send_ok; [|exact Es]. exact (Forall_lookup_1 _ _ _ _ Hc Hk).
Qed.

(** The invariant holds whatever is done with the channels. *)
Theorem step_Inv s s' : Inv s → step s s' → Inv s'.
Proof.
  intros HI Hs. pose proof HI as [Hmx Hl Hm Hn Hc]. destruct Hs as [at_ c s' H|n at_ c s' H|c at_ s' H|c r s' H|c at_ c' s' H|on s' H|o s' H|s' H|s' H|k ch a r ch' Hk H].
  - destruct (Inv_create "chan from" 0 at_ s HI) as (? & ? & E & HI' & _). unfold T in H. rewrite E in H. by injection H as _ <-.
  - destruct (Inv_create "buffered chan from" n at_ s HI) as (? & ? & E & HI' & _). unfold Ts in H. rewrite E in H. by injection H as _ <-.
  - by eapply Inv_Q.
  - by eapply Inv_Signal.
  - unfold Wait in H. rewrite (bind_run _ _ _ _ _ (getLoc_run c s Hmx)) in H.
    match type of H with context [l ?x] => destruct (l_run x s) as [p Ep] end. rewrite (bind_run _ _ _ _ _ Ep) in H.
    injection H as _ <-. by apply Inv_log.
  - injection H as <-. by split.
  - unfold GetOpenChanCount in H. rewrite (bind_run _ _ _ _ _ (lock_run s Hmx)) in H.
    rewrite (bind_run get _ _ (with_mx true s) (with_mx true s)) in H by done.
    rewrite (bind_run _ _ _ _ _ (count_open_run (createdChannels s) 0 (with_mx true s) Hn ltac:(by apply Forall_forall))) in H.
    injection H as _ <-. apply (Inv_tests (createdChannels s)) in HI. destruct s; cbn in *. by subst.
  - unfold PrintChanState in H. rewrite (bind_run _ _ _ _ _ (lock_run s Hmx)) in H.
    rewrite (bind_run get _ _ (with_mx true s) (with_mx true s)) in H by done.
    destruct (print_states_run (zip (createdList s) (createdChannels s)) (with_mx true s)) as [p Ep].
    { rewrite snd_zip by lia. done. } { rewrite snd_zip by lia. by apply Forall_forall. }
    rewrite (bind_run _ _ _ _ _ Ep) in H. injection H as <-. apply (Inv_log p) in HI.
    eapply (Inv_tests (snd <$> zip (createdList s) (createdChannels s))) in HI. destruct s; cbn in *. by subst.
  - destruct (clean_up_keeps_open s HI) as (s1 & E & _ & HI'). rewrite E in H. by injection H as <-.
  - apply Inv_put; [done|]. eapply recv_ok; [|exact H]. exact (Forall_lookup_1 _ _ _ _ Hc Hk).
Qed.

Lemma Inv_empty : Inv empty.
Proof. split; cbn; try done; [|constructor]. intros c Hc. by apply elem_of_nil in Hc. Qed.

(** Every state the package gets into. *)
Theorem reachable_Inv s : rtc step empty s → Inv s.
Proof.
  intros Hr. remember empty as s0 eqn:E. assert (Inv s0) as HI by (subst; apply Inv_empty). clear E.
  induction Hr; [done|]. by eauto using step_Inv.
Qed.

(** ** A concrete run *)

Module Demo.

Definition run {A} (m : Out (A * St)) : St := match m with Ret (_, s) => s | Panic _ => empty end.

(** The package with [KillAll], and a buffered channel that was signalled. *)
Definition s1 : St := run (init "quit.go:18").
Definition s2 : St := run (Ts 1 "engine.go:86" s1).
Definition s3 : St := run (Signal (Some 1%nat) s2).

Lemma s3_reachable : rtc step empty s3.
Proof.
  eapply rtc_l; [eapply (step_T _ "quit.go:18" _ s1); vm_compute; reflexivity|].
  eapply rtc_l; [eapply (step_Ts _ 1 "engine.go:86" _ s2); vm_compute; reflexivity|].
  eapply rtc_l; [eapply (step_Signal _ (Some 1%nat) _ s3); vm_compute; reflexivity|]. apply rtc_refl.
Qed.

Definition s3_Inv : Inv s3 := reachable_Inv s3 s3_reachable.

(** The first [Q] on the signalled channel takes the signal, the second closes it. *)
Example quit_twice :
  (ch_closed <$> chans (run (Q (Some 1%nat) "a.go:1" s3)) !! 1%nat,
   ch_closed <$> chans (run (Q (Some 1%nat) "a.go:2" (run (Q (Some 1%nat) "a.go:1" s3)))) !! 1%nat)
  = (Some false, Some true).
Proof. vm_compute. reflexivity. Qed.

End Demo.

Lemma Q_closes_witness : ∃ p, Q (Some 0%nat) "a.go:1" Demo.s3
  = Ret (tt, with_printed p (with_chans (<[0%nat := MkChan 0 [] [] 0 true]> (chans Demo.s3)) Demo.s3)).
Proof.
  destruct (Q_closes Demo.s3 0 (Chan.make 0) "a.go:1" Demo.s3_Inv eq_refl) as (p & E & _). by exists p.
Defined.

Lemma GetOpenChanCount_counts_witness : ∃ m', GetOpenChanCount Demo.s3 = Ret (1, with_chans m' Demo.s3).
Proof.
  destruct (GetOpenChanCount_counts Demo.s3 Demo.s3_Inv) as (m' & E & _). exists m'.
  etransitivity; [exact E|]. vm_compute. reflexivity.
Defined.

Lemma clean_up_keeps_open_witness : ∃ s', clean_up Demo.s3 = Ret (tt, s') ∧
  zip (createdList s') (createdChannels s') = [("chan from: quit.go:18", Some 0%nat)].
Proof.
  destruct (clean_up_keeps_open Demo.s3 Demo.s3_Inv) as (s' & E & Ez & _). exists s'. split; [exact E|].
  rewrite Ez. vm_compute. reflexivity.
Defined.

Lemma Signal_on_closed_witness : Signal (Some 0%nat) (Demo.run (Q (Some 0%nat) "a.go:1" Demo.s3)) = Panic SendOnClosed.
Proof.
  assert (Inv (Demo.run (Q (Some 0%nat) "a.go:1" Demo.s3))) as HI.
  { eapply step_Inv; [exact Demo.s3_Inv|]. apply (step_Q _ (Some 0%nat) "a.go:1"). vm_compute. reflexivity. }
  apply (Signal_on_closed _ 0 (MkChan 0 [] [] 0 true) HI). vm_compute. reflexivity.
Defined.

Lemma step_Inv_witness : Inv Demo.s2.
Proof.
  apply (step_Inv Demo.s1); [apply reachable_Inv; eapply rtc_l; [eapply (step_T _ "quit.go:18" _ Demo.s1); vm_compute; reflexivity|apply rtc_refl]|].
  eapply (step_Ts _ 1 "engine.go:86"). vm_compute. reflexivity.
Defined.
