(* ===== verification/Interrupt.v ===== *)
(** * Shutdown requests and their handlers

    Models [pkg/interrupt]: the callers of [AddHandler], [Request] and
    [RequestRestart] and the [Listener] goroutines as threads over the package
    variables.  A thread's state is the place in its code where it can be
    interrupted; an [event] says which thread moves, or what the outside does.
    A handler is known by its number: what it does is not modelled. *)

From S2P Require Export Chan.

(** ** Package variables *)

Record Vars := MkVars {
  Restart : bool;
  requested : bool;
  ch : bool;                             (* whether the signal channel was made *)
  ShutdownRequestChan : chan unit;
  HandlersDone : chan unit;
  interruptCallbackSources : list string;
  interruptCallbacks : list nat;
  ran : list nat;                        (* the handlers called so far, in order *)
}.

Definition vars0 : Vars := MkVars false false false (make 0) (make 0) [] [] [].

Definition with_Restart (b : bool) (g : Vars) : Vars :=
  MkVars b (requested g) (ch g) (ShutdownRequestChan g) (HandlersDone g) (interruptCallbackSources g) (interruptCallbacks g) (ran g).
Definition with_requested (b : bool) (g : Vars) : Vars :=
  MkVars (Restart g) b (ch g) (ShutdownRequestChan g) (HandlersDone g) (interruptCallbackSources g) (interruptCallbacks g) (ran g).
Definition with_ch (b : bool) (g : Vars) : Vars :=
  MkVars (Restart g) (requested g) b (ShutdownRequestChan g) (HandlersDone g) (interruptCallbackSources g) (interruptCallbacks g) (ran g).
Definition with_shutdown (c : chan unit) (g : Vars) : Vars :=
  MkVars (Restart g) (requested g) (ch g) c (HandlersDone g) (interruptCallbackSources g) (interruptCallbacks g) (ran g).
Definition with_done (c : chan unit) (g : Vars) : Vars :=
  MkVars (Restart g) (requested g) (ch g) (ShutdownRequestChan g) c (interruptCallbackSources g) (interruptCallbacks g) (ran g).
Definition with_ran (r : list nat) (g : Vars) : Vars :=
  MkVars (Restart g) (requested g) (ch g) (ShutdownRequestChan g) (HandlersDone g) (interruptCallbackSources g) (interruptCallbacks g) r.
Definition add_callback (src : string) (fn : nat) (g : Vars) : Vars :=
  MkVars (Restart g) (requested g) (ch g) (ShutdownRequestChan g) (HandlersDone g)
    (interruptCallbackSources g ++ [src]) (interruptCallbacks g ++ [fn]) (ran g).

(** ** Threads *)

Inductive thread :=
(** [AddHandler]: before the test of [ch], having found it nil, in the send *)
| AddHandler (src : string) (fn : nat)
| AddStarts (src : string) (fn : nat)
| AddSends (src : string) (fn : nat)
(** [Listener]: in the select, told to stop, having run [i] of [n] callbacks,
    about to restart the program *)
| Listener
| Stopping
| Invoking (n i : nat)
| Restarting
(** [RequestRestart] and [Request]: before the flag is read, set, the channel closed *)
| RequestRestart
| Request
| RequestStores
| RequestCloses
| Returned.

Inductive Config :=
| Running (g : Vars) (ts : list thread)
| Replaced (g : Vars)                    (* another program was executed in its place *)
| Crashed (p : panic).

(** The state of a thread that moves by itself, and what it starts; [None] when
    it has to wait. *)
Inductive effect :=
| Next (g : Vars) (t : thread) (started : list thread)
| Crash (p : panic).

Definition Request_close (g : Vars) : effect :=
  match close (ShutdownRequestChan g) with
  | Panic p => Crash p
  | Ret c =>
      let ok := match try_recv c with Some (Some _, _) => true | _ => false end in
      if ok then match close c with Ret c' => Next (with_shutdown c' g) Returned [] | Panic p => Crash p end
      else Next (with_shutdown c g) Returned []
  end.

(** One turn of [invokeCallbacks], last in, first out; then [HandlersDone]. *)
Definition invoke (g : Vars) (n i : nat) : effect :=
  if bool_decide (i < n)%nat then
    match goindex (interruptCallbacks g) (zlen (interruptCallbacks g) - 1 - Z.of_nat i) with
    | Ret fn => Next (with_ran (ran g ++ [fn]) g) (Invoking n (S i)) []
    | Panic p => Crash p
    end
  else
    match close (HandlersDone g) with
    | Ret c => Next (with_done c g) (if Restart g then Restarting else Returned) []
    | Panic p => Crash p
    end.

Definition move (g : Vars) (t : thread) : option effect :=
  match t with
  | AddHandler src fn => Some (Next g (if ch g then AddSends src fn else AddStarts src fn) [])
  | AddStarts src fn => Some (Next (with_ch true g) (AddSends src fn) [Listener])
  | AddSends _ _ => None
  | Listener => None
  | Stopping => Some (Next (with_requested true g) (Invoking (length (interruptCallbacks g)) 0) [])
  | Invoking n i => Some (invoke g n i)
  | Restarting => Some (Next g Returned [])   (* the program could not be executed *)
  | RequestRestart => Some (Next (with_Restart true g) Request [])
  | Request => Some (Next g (if requested g then Returned else RequestStores) [])
  | RequestStores => Some (Next (with_requested true g) RequestCloses [])
  | RequestCloses => Some (Request_close g)
  | Returned => None
  end.

(** ** Events *)

Inductive event :=
| Moves (i : nat)                (* thread [i] goes on by itself *)
| Registers (i j : nat)          (* listener [j] receives what thread [i] sends *)
| Signalled (j : nat)            (* listener [j] receives a signal *)
| SeesShutdown (j : nat)         (* listener [j] finds [ShutdownRequestChan] closed *)
| SeesDone (j : nat)             (* listener [j] finds [HandlersDone] closed *)
| Execs (i : nat)                (* thread [i] replaces the program *)
| Calls (t : thread).            (* somebody calls a function of the package *)

Definition is_call (t : thread) : bool :=
  match t with AddHandler _ _ | RequestRestart | Request => true | _ => false end.

Definition step (e : event) (c : Config) : option Config :=
  match c with
  | Running g ts =>
      match e with
      | Moves i =>
          t ← ts !! i;
          r ← move g t;
          Some (match r with Next g' t' new => Running g' (<[i := t']> ts ++ new) | Crash p => Crashed p end)
      | Registers i j =>
          match ts !! i, ts !! j with
          | Some (AddSends src fn), Some Listener => Some (Running (add_callback src fn g) (<[i := Returned]> ts))
          | _, _ => None
          end
      | Signalled j =>
          match ts !! j with
          | Some Listener => if ch g then Some (Running g (<[j := Stopping]> ts)) else None
          | _ => None
          end
      | SeesShutdown j =>
          match ts !! j, try_recv (ShutdownRequestChan g) with
          | Some Listener, Some (_, c') => Some (Running (with_shutdown c' g) (<[j := Stopping]> ts))
          | _, _ => None
          end
      | SeesDone j =>
          match ts !! j, try_recv (HandlersDone g) with
          | Some Listener, Some (_, c') => Some (Running (with_done c' g) (<[j := Returned]> ts))
          | _, _ => None
          end
      | Execs i => match ts !! i with Some Restarting => Some (Replaced g) | _ => None end
      | Calls t => if is_call t then Some (Running g (ts ++ [t])) else None
      end
  | _ => None
  end.

Definition steps (c c' : Config) : Prop := ∃ e, step e c = Some c'.

Fixpoint run (es : list event) (c : Config) : option Config :=
  match es with
  | [] => Some c
  | e :: es => step e c ≫= run es
  end.

Definition Requested (g : Vars) : bool := requested g.

(** Nothing was called yet; the first call of [AddHandler] started the listener. *)
Definition start : Config := Running vars0 [].
Definition armed (src : string) (fn : nat) : Config := Running (with_ch true vars0) [AddSends src fn; Listener].
