(* ===== verification/InterruptProps.v ===== *)
(** * What shutdown requests and handlers promise

    From the start of the program on, unless two callers of [AddHandler] race to
    start the listener, every handler it took is called once, the last first, before
    [HandlersDone] is closed; requests that come one after the other never bring the
    program down, racing ones can; a handler that comes too late is never called and
    its caller never returns. *)

From S2P Require Export Interrupt.

Example armed_first src fn : run [Calls (AddHandler src fn); Moves 0; Moves 0] start = Some (armed src fn).
Proof. reflexivity. Qed.

(** ** The one listener *)

(** The threads other than the listener. *)
Definition bystander (t : thread) : bool :=
  match t with
  | AddStarts _ _ | Listener | Stopping | Invoking _ _ | Restarting => false
  | _ => true
  end.

Definition finished (g : Vars) : Prop := ran g = reverse (interruptCallbacks g) ∧ ch_closed (HandlersDone g) = true.

Definition phase (g : Vars) (t : thread) : Prop :=
  match t with
  | Listener | Stopping => ran g = [] ∧ HandlersDone g = make 0
  | Invoking n i => n = length (interruptCallbacks g) ∧ (i ≤ n)%nat ∧
                    ran g = take i (reverse (interruptCallbacks g)) ∧ HandlersDone g = make 0
  | Restarting | Returned => finished g
  | _ => False
  end.

(** A channel that is only ever closed. *)
Definition shut : chan unit := MkChan 0 [] [] 0 true.
Definition idle (c : chan unit) : Prop := c = make 0 ∨ c = shut.

Definition Inv (l : nat) (c : Config) : Prop :=
  match c with
  | Running g ts => ch g = true ∧ idle (ShutdownRequestChan g) ∧ (∃ t, ts !! l = Some t ∧ phase g t) ∧
                    (∀ j t, j ≠ l → ts !! j = Some t → bystander t = true)
  | Replaced g => finished g
  | Crashed p => p = CloseOfClosed
  end.

Section Listener.
Context {l : nat}.

Lemma Request_close_run g : idle (ShutdownRequestChan g) →
  Request_close g = if ch_closed (ShutdownRequestChan g) then Crash CloseOfClosed else Next (with_shutdown shut g) Returned [].
Proof. intros [E|E]; unfold Request_close; by rewrite E. Qed.

(** A bystander changes nothing that concerns the listener. *)
Lemma bystander_move g t r : ch g = true → idle (ShutdownRequestChan g) → bystander t = true → move g t = Some r →
  match r with
  | Next g' t' new => new = [] ∧ bystander t' = true ∧ ch g' = true ∧ HandlersDone g' = HandlersDone g ∧
                      interruptCallbacks g' = interruptCallbacks g ∧ ran g' = ran g ∧ idle (ShutdownRequestChan g')
  | Crash p => p = CloseOfClosed
  end.
Proof.
  intros Hc Hi Hb E. destruct t; try discriminate Hb; cbn in E; try (injection E as <-); try discriminate E.
  - by rewrite Hc.
  - done.
  - by destruct (requested g).
  - done.
  - rewrite Request_close_run by done. destruct (ch_closed _); [done|]. cbn. repeat split; try done. by right.
Qed.

Lemma phase_ext g g' t : ran g' = ran g → interruptCallbacks g' = interruptCallbacks g →
  HandlersDone g' = HandlersDone g → phase g t → phase g' t.
Proof. intros E1 E2 E3. unfold phase, finished. destruct t; by rewrite ?E1, ?E2, ?E3. Qed.

Lemma invoke_next g i n : n = length (interruptCallbacks g) → (i < n)%nat → ran g = take i (reverse (interruptCallbacks g)) →
  ∃ fn, invoke g n i = Next (with_ran (ran g ++ [fn]) g) (Invoking n (S i)) [] ∧
        ran g ++ [fn] = take (S i) (reverse (interruptCallbacks g)).
Proof.
  intros -> Hi Hr. unfold invoke. rewrite bool_decide_true by done. unfold goindex, zlen.
  rewrite bool_decide_true by lia.
  destruct (lookup_lt_is_Some_2 (interruptCallbacks g) (length (interruptCallbacks g) - 1 - i)) as [fn Hfn]; [lia|].
  replace (Z.to_nat _) with (length (interruptCallbacks g) - 1 - i)%nat by lia. rewrite Hfn.
  exists fn. split; [done|]. rewrite Hr. symmetry. apply take_S_r.
  rewrite reverse_lookup by lia. rewrite <- Hfn. f_equal. lia.
Qed.

Lemma invoke_last g : HandlersDone g = make 0 →
  invoke g (length (interruptCallbacks g)) (length (interruptCallbacks g))
  = Next (with_done shut g) (if Restart g then Restarting else Returned) [].
Proof. intros E. unfold invoke. rewrite bool_decide_false by lia. by rewrite E. Qed.

(** The others after one of them, or the listener, moved. *)
Lemma others_insert (ts : list thread) i t' : (∀ j t, j ≠ l → ts !! j = Some t → bystander t = true) →
  (i ≠ l → bystander t' = true) → ∀ j t, j ≠ l → <[i := t']> ts !! j = Some t → bystander t = true.
Proof.
  intros H Ht j t Hj E. destruct (decide (i = j)) as [->|Hij].
  - apply list_lookup_insert_Some in E as [(_ & <- & _)|(? & _)]; [by apply Ht|done].
  - rewrite list_lookup_insert_ne in E by done. by eapply H.
Qed.

Lemma listener_insert (ts : list thread) t t' : ts !! l = Some t → <[l := t']> ts !! l = Some t'.
Proof. intros E. apply list_lookup_insert_eq. by eapply lookup_lt_Some. Qed.

Lemma Inv_listener_move g t ts r : Inv l (Running g ts) → ts !! l = Some t → move g t = Some r →
  Inv l (match r with Next g' t' new => Running g' (<[l := t']> ts ++ new) | Crash p => Crashed p end).
Proof.
  intros (Hc & Hi & (t1 & E1 & Hp) & Ho) Ht E. rewrite E1 in Ht. injection Ht as ->.
  assert (∀ g' t', ch g' = true → idle (ShutdownRequestChan g') → phase g' t' → Inv l (Running g' (<[l := t']> ts ++ []))) as Hgo.
  { intros g' t' H1 H2 H3. rewrite app_nil_r. split; [done|]. split; [done|]. split.
    - exists t'. split; [by eapply listener_insert|done].
    - intros j u Hj. eapply others_insert; [exact Ho|done|done]. }
  destruct t; cbn in E, Hp; try done.
  - injection E as <-. apply Hgo; try done. destruct Hp as [Hr Hd]. cbn. repeat split; try done; lia.
  - injection E as <-. destruct Hp as (-> & Hle & Hr & Hd). destruct (decide (i = length (interruptCallbacks g))) as [->|Hne].
    + rewrite invoke_last by done. apply Hgo; try done. rewrite <- length_reverse, firstn_all in Hr.
      by destruct (Restart g).
    + destruct (invoke_next g i _ eq_refl ltac:(lia) Hr) as (fn & -> & Hr'). apply Hgo; try done.
      cbn [phase interruptCallbacks with_ran ran HandlersDone]. repeat split; try done; lia.
  - injection E as <-. apply Hgo; done.
Qed.

Lemma others_app (ts : list thread) u : (∀ j t, j ≠ l → ts !! j = Some t → bystander t = true) →
  bystander u = true → ∀ j t, j ≠ l → (ts ++ [u]) !! j = Some t → bystander t = true.
Proof.
  intros H Hu j t Hj E. apply lookup_app_Some in E as [E|[_ E]]; [by eapply H|].
  by apply list_lookup_singleton_Some in E as [_ <-].
Qed.

(** The listener alone moves to a new state. *)
Lemma Inv_listener g t ts g' t' : Inv l (Running g ts) → ts !! l = Some t →
  ch g' = true → idle (ShutdownRequestChan g') → phase g' t' → Inv l (Running g' (<[l := t']> ts)).
Proof.
  intros (_ & _ & _ & Ho) Ht H1 H2 H3. split; [done|]. split; [done|]. split.
  - exists t'. split; [by eapply listener_insert|done].
  - intros j u Hj. by eapply others_insert.
Qed.

Lemma Inv_step e c c' : Inv l c → step e c = Some c' → Inv l c'.
Proof.
  intros HI E. destruct c as [g ts| |]; cbn in E; try discriminate E. pose proof HI as (Hc & Hi & (t1 & E1 & Hp) & Ho).
  assert (∀ j u, ts !! j = Some u → bystander u = false → j = l) as Hone.
  { intros j u Hj Hb. destruct (decide (j = l)); [done|]. by rewrite (Ho j u) in Hb. }
  destruct e as [i|i j|j|j|j|i|t]; cbn in E.
  - destruct (ts !! i) as [t|] eqn:Et; [|done]. cbn in E. destruct (move g t) as [r|] eqn:Er; [|done]. injection E as <-.
    destruct (decide (i = l)) as [->|Hne]; [exact (Inv_listener_move _ _ _ _ HI Et Er)|].
    pose proof (bystander_move g t r Hc Hi (Ho _ _ Hne Et) Er) as Hb. destruct r as [g' t' new|p]; [|exact Hb].
    destruct Hb as (-> & Hb & Hc' & Hd & Hcb & Hr & Hi'). rewrite app_nil_r. split; [done|]. split; [done|]. split.
    + exists t1. rewrite list_lookup_insert_ne by done. split; [done|]. by eapply phase_ext.
    + intros j u Hj. by eapply others_insert.
  - destruct (ts !! i) as [[]|] eqn:Et; try done. destruct (ts !! j) as [[]|] eqn:Ej; try done. injection E as <-.
    pose proof (Hone _ _ Ej eq_refl) as ->. rewrite Ej in E1. injection E1 as <-.
    assert (i ≠ l) as Hne by congruence. split; [done|]. split; [done|]. split.
    + exists Listener. by rewrite list_lookup_insert_ne by done.
    + intros j u Hj. by eapply others_insert.
  - destruct (ts !! j) as [[]|] eqn:Ej; try done. pose proof (Hone _ _ Ej eq_refl) as ->. rewrite Hc in E. injection E as <-.
    rewrite Ej in E1. injection E1 as <-. by eapply Inv_listener.
  - destruct (ts !! j) as [[]|] eqn:Ej; try done. pose proof (Hone _ _ Ej eq_refl) as ->. rewrite Ej in E1. injection E1 as <-.
    destruct (try_recv _) as [[a c]|] eqn:Er; [|done]. injection E as <-.
    assert (c = ShutdownRequestChan g) as -> by (destruct Hi as [Hi|Hi]; rewrite Hi in Er |- *; cbn in Er; congruence).
    by eapply Inv_listener.
  - destruct (ts !! j) as [[]|] eqn:Ej; try done. pose proof (Hone _ _ Ej eq_refl) as ->. rewrite Ej in E1. injection E1 as <-.
    destruct Hp as [_ Hd]. by rewrite Hd in E.
  - destruct (ts !! i) as [[]|] eqn:Ei; try done. injection E as <-. pose proof (Hone _ _ Ei eq_refl) as ->.
    rewrite Ei in E1. by injection E1 as <-.
  - destruct (is_call t) eqn:Et; [|done]. injection E as <-. split; [done|]. split; [done|]. split.
    + exists t1. split; [by apply lookup_app_l_Some|done].
    + apply others_app; [done|]. by destruct t.
Qed.

End Listener.

Lemma Inv_armed src fn : Inv 1 (armed src fn).
Proof.
  split; [done|]. split; [by left|]. split; [by exists Listener|].
  intros [|[|j]] t Hj E; cbn in E; [by injection E as <-|done|done].
Qed.

Lemma reached_Inv src fn c : rtc steps (armed src fn) c → Inv 1 c.
Proof.
  intros H. remember (armed src fn) as c0 eqn:E. assert (Inv 1 c0) as HI by (subst; apply Inv_armed). clear E.
  induction H as [|c1 c2 c3 [e He]]; [done|]. by eauto using Inv_step.
Qed.

(** *** Before there is a listener *)

(** A caller of [AddHandler] that has found no listener and will start one. *)
Definition starts (t : thread) : bool := match t with AddStarts _ _ => true | _ => false end.

(** At most one caller does, and none when there is a listener. *)
Definition no_race (c : Config) : Prop :=
  match c with
  | Running g ts => (length (filter (λ t, starts t = true) ts) ≤ if ch g then 0 else 1)%nat
  | _ => True
  end.

(** Steps from configurations without a race. *)
Definition race_free (c c' : Config) : Prop := no_race c ∧ steps c c'.

Definition unarmed (g : Vars) (ts : list thread) : Prop :=
  ch g = false ∧ idle (ShutdownRequestChan g) ∧ ran g = [] ∧ HandlersDone g = make 0 ∧
  ∀ j t, ts !! j = Some t → bystander t = true ∨ starts t = true.

Definition Inv0 (c : Config) : Prop :=
  (∃ l, Inv l c) ∨ match c with Running g ts => unarmed g ts | _ => False end.

Lemma one_starts (ts : list thread) i t j u : (length (filter (λ t, starts t = true) ts) ≤ 1)%nat →
  ts !! i = Some t → starts t = true → ts !! j = Some u → starts u = true → j = i.
Proof.
  intros Hl Hi Ht Hj Hu. rewrite <- (take_drop_middle ts i t Hi) in Hl, Hj. pose proof (lookup_lt_Some _ _ _ Hi).
  rewrite filter_app, filter_cons_True, length_app in Hl by done. cbn in Hl.
  assert (∀ l : list thread, length (filter (λ t, starts t = true) l) = 0%nat → u ∈ l → False) as Hno.
  { intros l H0 Hin. apply nil_length_inv in H0. assert (u ∈ filter (λ t, starts t = true) l) as Hf by by apply list_elem_of_filter.
    rewrite H0 in Hf. by apply not_elem_of_nil in Hf. }
  apply lookup_app_Some in Hj as [Hj|[Hle Hj]]; [exfalso; eapply Hno; [|by eapply list_elem_of_lookup_2]; lia|].
  rewrite length_take in *. destruct (j - i `min` length ts)%nat as [|k] eqn:Ek; [lia|]. exfalso. cbn in Hj.
  eapply Hno; [|by eapply list_elem_of_lookup_2]. lia.
Qed.

(** A caller goes on while there is no listener. *)
Lemma unarmed_move g ts i t r : unarmed g ts → ts !! i = Some t → bystander t = true → move g t = Some r →
  Inv0 (match r with Next g' t' new => Running g' (<[i := t']> ts ++ new) | Crash p => Crashed p end).
Proof.
  intros (Hc & Hi & Hr & Hd & Ho) Et Hb E.
  assert (∀ g' t', ch g' = false → idle (ShutdownRequestChan g') → ran g' = [] → HandlersDone g' = make 0 →
    bystander t' = true ∨ starts t' = true → Inv0 (Running g' (<[i := t']> ts ++ []))) as Hgo.
  { intros g' t' H1 H2 H3 H4 H5. right. rewrite app_nil_r. split_and!; try done.
    intros j u Hj. destruct (decide (i = j)) as [->|Hne].
    - apply list_lookup_insert_Some in Hj as [(_ & <- & _)|(? & _)]; done.
    - rewrite list_lookup_insert_ne in Hj by done. by eapply Ho. }
  destruct t; try discriminate Hb; cbn in E; try (injection E as <-); try discriminate E.
  - rewrite Hc. apply Hgo; auto.
  - apply Hgo; auto.
  - apply Hgo; auto. destruct (requested g); auto.
  - apply Hgo; auto.
  - rewrite Request_close_run by done. destruct (ch_closed _); [left; by exists 0%nat|]. apply Hgo; auto. by right.
Qed.

(** The one that starts the listener. *)
Lemma unarmed_starts g ts i src fn : unarmed g ts → no_race (Running g ts) → ts !! i = Some (AddStarts src fn) →
  Inv (length ts) (Running (with_ch true g) (<[i := AddSends src fn]> ts ++ [Listener])).
Proof.
  intros (Hc & Hi & Hr & Hd & Ho) Hn Et. cbn in Hn. rewrite Hc in Hn. pose proof (lookup_lt_Some _ _ _ Et).
  split; [done|]. split; [done|]. split.
  - exists Listener. split; [|done]. rewrite lookup_app_r by (rewrite length_insert; lia). by rewrite length_insert, Nat.sub_diag.
  - intros j u Hj E. apply lookup_app_Some in E as [E|[Hle E]].
    + destruct (decide (i = j)) as [->|Hne].
      * apply list_lookup_insert_Some in E as [(_ & <- & _)|(? & _)]; done.
      * rewrite list_lookup_insert_ne in E by done. destruct (Ho j u E) as [?|Hu]; [done|].
        by destruct Hne; rewrite (one_starts ts i _ j u Hn Et eq_refl E Hu).
    + rewrite length_insert in *. apply list_lookup_singleton_Some in E as [E _]. lia.
Qed.

Lemma Inv0_step e c c' : no_race c → Inv0 c → step e c = Some c' → Inv0 c'.
Proof.
  intros Hn [[l HI]|Hu] E; [left; exists l; by eapply Inv_step|]. destruct c as [g ts| |]; try done.
  pose proof Hu as (Hc & Hi & Hr & Hd & Ho).
  assert (∀ j t, ts !! j = Some t → bystander t = false → starts t = false → False) as Hno.
  { intros j t Hj H1 H2. destruct (Ho j t Hj); congruence. }
  destruct e as [i|i j|j|j|j|i|t]; cbn in E.
  - destruct (ts !! i) as [t|] eqn:Et; [|done]. cbn in E. destruct (move g t) as [r|] eqn:Er; [|done]. injection E as <-.
    destruct (bystander t) eqn:Hb; [by eapply unarmed_move|]. destruct (Ho i t Et) as [?|Hs]; [congruence|].
    destruct t; try discriminate Hs. injection Er as <-. left. exists (length ts). by apply unarmed_starts.
  - destruct (ts !! i) as [[]|]; try done. destruct (ts !! j) as [[]|] eqn:Ej; try done. by destruct (Hno j _ Ej).
  - destruct (ts !! j) as [[]|] eqn:Ej; try done. by destruct (Hno j _ Ej).
  - destruct (ts !! j) as [[]|] eqn:Ej; try done. by destruct (Hno j _ Ej).
  - destruct (ts !! j) as [[]|] eqn:Ej; try done. by destruct (Hno j _ Ej).
  - destruct (ts !! i) as [[]|] eqn:Ei; try done. by destruct (Hno i _ Ei).
  - destruct (is_call t) eqn:Et; [|done]. injection E as <-. right. split_and!; try done.
    intros j u Hj. apply lookup_app_Some in Hj as [Hj|[_ Hj]]; [by eapply Ho|].
    apply list_lookup_singleton_Some in Hj as [_ <-]. left. by destruct t.
Qed.

Lemma race_free_Inv0 c : rtc race_free start c → Inv0 c.
Proof.
  intros H. remember start as c0 eqn:E0. assert (Inv0 c0) as HI.
  { subst. right. split_and!; try done. by left. }
  clear E0. induction H as [|c1 c2 c3 [Hn [e He]] _ IH]; [done|]. by eauto using Inv0_step.
Qed.

(** Only a request that closes the closed channel brings the program down. *)
Lemma crash_cause e g ts p : Inv0 (Running g ts) → step e (Running g ts) = Some (Crashed p) →
  p = CloseOfClosed ∧ ∃ i, e = Moves i ∧ ts !! i = Some RequestCloses ∧ ch_closed (ShutdownRequestChan g) = true.
Proof.
  intros HI E. destruct e as [i|i j|j|j|j|i|t]; cbn in E; try (by repeat case_match).
  destruct (ts !! i) as [t|] eqn:Et; [|done]. cbn in E. destruct (move g t) as [[g' t' new|q]|] eqn:Er; [done| |done]. injection E as ->.
  assert (t = RequestCloses ∨ ∃ n k, t = Invoking n k) as [->|(n & k & ->)].
  { destruct t; cbn in Er; try discriminate Er; [|by left]. right. by eexists _, _. }
  - cbn in Er. assert (idle (ShutdownRequestChan g)) as Hi by (by destruct HI as [(l & _ & Hi & _)|(_ & Hi & _)]).
    rewrite Request_close_run in Er by done. destruct (ch_closed _); [|done]. injection Er as <-. split; [done|]. by exists i.
  - exfalso. destruct HI as [(l & _ & _ & (t & E1 & Hp) & Ho)|(_ & _ & _ & _ & Ho)]; [|by destruct (Ho _ _ Et)].
    destruct (decide (i = l)) as [->|Hne]; [|by discriminate (Ho _ _ Hne Et)]. rewrite Et in E1. injection E1 as <-.
    destruct Hp as (-> & Hle & Hr & Hd). cbn in Er. destruct (decide (k = length (interruptCallbacks g))) as [->|Hk].
    + by rewrite invoke_last in Er.
    + destruct (invoke_next g k _ eq_refl ltac:(lia) Hr) as (fn & Ei & _). by rewrite Ei in Er.
Qed.

Lemma phase_ran l g ts : Inv l (Running g ts) → (∃ i, ran g = take i (reverse (interruptCallbacks g))) ∧
  (ch_closed (HandlersDone g) = true → ran g = reverse (interruptCallbacks g)).
Proof.
  intros (_ & _ & (t & _ & Hp) & _). destruct t; cbn in Hp; try done.
  - destruct Hp as [-> ->]. split; [by exists 0%nat|done].
  - destruct Hp as [-> ->]. split; [by exists 0%nat|done].
  - destruct Hp as (_ & _ & -> & ->). split; [by exists i|done].
  - destruct Hp as [-> _]. split; [|done]. eexists. symmetry. by apply firstn_all.
  - destruct Hp as [-> _]. split; [|done]. eexists. symmetry. by apply firstn_all.
Qed.

(** C19: Whatever is called from the start of the program on and in whatever order the
    threads take turns, as long as no two callers of [AddHandler] find at the same time
    that there is no listener yet ([racing_AddHandlers_crash] shows what becomes of
    those): the handlers called so far are the last ones registered, each once and the
    last first; when [HandlersDone] is closed, or another program takes over, that is
    all of them; and the next step brings the program down only if it is that of a
    request which closes the channel that another request has closed. *)
Theorem handlers_called_once c : rtc race_free start c →
  match c with
  | Running g ts => (∃ i, ran g = take i (reverse (interruptCallbacks g))) ∧
                    (ch_closed (HandlersDone g) = true → ran g = reverse (interruptCallbacks g)) ∧
                    ∀ e p, step e (Running g ts) = Some (Crashed p) → p = CloseOfClosed ∧
                      ∃ i, e = Moves i ∧ ts !! i = Some RequestCloses ∧ ch_closed (ShutdownRequestChan g) = true
  | Replaced g => ran g = reverse (interruptCallbacks g)
  | Crashed p => p = CloseOfClosed
  end.
Proof.
  intros H%race_free_Inv0. destruct c as [g ts|g|p].
  - assert (∀ A B C : Prop, A ∧ B → C → A ∧ B ∧ C) as Hand by tauto. apply Hand; [|intros e p; by apply crash_cause].
    destruct H as [[l H]|(_ & _ & -> & -> & _)]; [by eapply phase_ran|]. split; [by exists 0%nat|done].
  - destruct H as [[l H]|[]]. apply H.
  - by destruct H as [[l H]|[]].
Qed.

(** ** Too late *)

(** Once the listener is through, a caller of [AddHandler] waits for ever and its
    handler is never called. *)
Definition over (c : Config) (i : nat) (t : thread) (cbs : list nat) : Prop :=
  match c with
  | Running g ts => (ts !! 1%nat = Some Returned ∨ ts !! 1%nat = Some Restarting) ∧
                    ts !! i = Some t ∧ interruptCallbacks g = cbs ∧ ran g = reverse cbs
  | Replaced g => ran g = reverse cbs
  | Crashed p => p = CloseOfClosed
  end.

Lemma over_step e c c' i src fn cbs : Inv 1 c → over c i (AddSends src fn) cbs → step e c = Some c' →
  over c' i (AddSends src fn) cbs.
Proof.
  intros HI Hov E. pose proof (Inv_step e c c' HI E) as HI'. destruct c as [g ts| |]; cbn in E; try discriminate E.
  destruct HI as (Hc & Hi & (t1 & E1 & Hp) & Ho). destruct Hov as (Hl & Ht & Hcb & Hr).
  assert (∀ j, ts !! j = Some Listener → False) as Hno.
  { intros j Hj. destruct (decide (j = 1%nat)) as [->|Hne]; [destruct Hl; congruence|discriminate (Ho _ _ Hne Hj)]. }
  destruct e as [k|k j|j|j|j|k|t]; cbn in E.
  - destruct (ts !! k) as [t|] eqn:Et; [|done]. cbn in E. destruct (move g t) as [r|] eqn:Er; [|done]. injection E as <-.
    assert (k ≠ i) as Hki by (intros ->; rewrite Et in Ht; injection Ht as ->; done).
    destruct (decide (k = 1%nat)) as [->|Hne].
    + destruct Hl as [Hl|Hl]; rewrite Hl in Et; injection Et as <-; [done|]. cbn in Er. injection Er as <-. cbn.
      rewrite app_nil_r, (list_lookup_insert_ne _ 1 i) by done. split; [left; eapply listener_insert; exact Hl|done].
    + pose proof (bystander_move g t r Hc Hi (Ho _ _ Hne Et) Er) as Hb. destruct r as [g' t' new|p]; [|exact Hb].
      destruct Hb as (-> & _ & _ & _ & E2 & E3 & _). cbn. rewrite app_nil_r, !list_lookup_insert_ne by done.
      by rewrite E2, E3.
  - destruct (ts !! k) as [[]|]; try done. destruct (ts !! j) as [[]|] eqn:Ej; try done. by destruct (Hno j Ej).
  - destruct (ts !! j) as [[]|] eqn:Ej; try done. by destruct (Hno j Ej).
  - destruct (ts !! j) as [[]|] eqn:Ej; try done. by destruct (Hno j Ej).
  - destruct (ts !! j) as [[]|] eqn:Ej; try done. by destruct (Hno j Ej).
  - destruct (ts !! k) as [[]|] eqn:Ek; try done. injection E as <-. cbn. congruence.
  - destruct (is_call t); [|done]. injection E as <-. cbn. split; [|split; [by apply lookup_app_l_Some|done]].
    destruct Hl; [left|right]; by apply lookup_app_l_Some.
Qed.

Theorem late_handler_waits src0 fn0 g ts c i src fn : rtc steps (armed src0 fn0) (Running g ts) →
  ch_closed (HandlersDone g) = true → ts !! i = Some (AddSends src fn) → rtc steps (Running g ts) c →
  match c with
  | Running g' ts' => ts' !! i = Some (AddSends src fn) ∧ interruptCallbacks g' = interruptCallbacks g
  | _ => True
  end.
Proof.
  intros H%reached_Inv Hd Ht Hr.
  assert (over (Running g ts) i (AddSends src fn) (interruptCallbacks g)) as Hov.
  { destruct H as (_ & _ & (t & E1 & Hp) & _). cbn. rewrite E1. destruct t; cbn in Hp; try done.
    - destruct Hp as [_ Hp]. by rewrite Hp in Hd.
    - destruct Hp as [_ Hp]. by rewrite Hp in Hd.
    - destruct Hp as (_ & _ & _ & Hp). by rewrite Hp in Hd.
    - split; [by right|]. by split; [|split; [|apply Hp]].
    - split; [by left|]. by split; [|split; [|apply Hp]]. }
  enough (over c i (AddSends src fn) (interruptCallbacks g)) as Hc.
  { destruct c; [|done|done]. destruct Hc as (_ & ? & ? & _). by split. }
  remember (Running g ts) as c0 eqn:E0. clear E0. induction Hr as [|c1 c2 c3 [e He] _ IH]; [done|].
  apply IH; [by eapply Inv_step|by eapply over_step].
Qed.

(** ** Requests *)

Definition requesting (t : thread) : bool :=
  match t with RequestRestart | Request | RequestStores | RequestCloses => true | _ => false end.

(** At most one request is under way. *)
Definition calm (c : Config) : Prop :=
  match c with
  | Running g ts => ∀ i j t u, ts !! i = Some t → ts !! j = Some u → requesting t = true → requesting u = true → i = j
  | _ => True
  end.

(** What a request relies on once it has found the flag not set. *)
Definition relies (g : Vars) (t : thread) : Prop :=
  match t with
  | RequestStores => ch_closed (ShutdownRequestChan g) = false
  | RequestCloses => ch_closed (ShutdownRequestChan g) = false ∧ requested g = true
  | _ => True
  end.

Definition fresh_request (c : Config) : Prop :=
  match c with
  | Running g ts => (ch_closed (ShutdownRequestChan g) = true → requested g = true) ∧
                    (∀ i t, ts !! i = Some t → relies g t)
  | Replaced _ => True
  | Crashed _ => False
  end.

Lemma lookup_insert_cases {A} (l : list A) i x j y : <[i := x]> l !! j = Some y → (i = j ∧ y = x) ∨ (i ≠ j ∧ l !! j = Some y).
Proof.
  intros E. destruct (decide (i = j)) as [->|Hne]; [left|right; by rewrite list_lookup_insert_ne in E].
  apply list_lookup_insert_Some in E as [(_ & <- & _)|(? & _)]; done.
Qed.

(** A move that leaves the channel alone. *)
Lemma fresh_same g g' (ts : list thread) i t' : fresh_request (Running g ts) →
  ch_closed (ShutdownRequestChan g') = ch_closed (ShutdownRequestChan g) → (requested g = true → requested g' = true) →
  relies g' t' → fresh_request (Running g' (<[i := t']> ts)).
Proof.
  intros [H1 H2] Es Hr Ht. split; [rewrite Es; auto|].
  intros j u [[<- ->]|[_ Hu]]%lookup_insert_cases; [done|]. specialize (H2 j u Hu).
  destruct u; cbn in *; try done; rewrite Es; [done|]. naive_solver.
Qed.

Lemma fresh_move g ts i t r : Inv 1 (Running g ts) → calm (Running g ts) → fresh_request (Running g ts) →
  ts !! i = Some t → move g t = Some r →
  fresh_request (match r with Next g' t' new => Running g' (<[i := t']> ts ++ new) | Crash p => Crashed p end).
Proof.
  intros (Hc & Hi & (t1 & E1 & Hp) & Ho) Hq Hf Et Er. pose proof Hf as [H1 H2].
  assert (∀ g' t', ch_closed (ShutdownRequestChan g') = ch_closed (ShutdownRequestChan g) →
            (requested g = true → requested g' = true) → relies g' t' → fresh_request (Running g' (<[i := t']> ts ++ []))) as Hgo.
  { intros g' t' ???. rewrite app_nil_r. by eapply fresh_same. }
  assert (t = t1 ∨ bystander t = true) as Hwho.
  { destruct (decide (i = 1%nat)) as [->|Hne]; [left; congruence|right; by eapply Ho]. }
  destruct t; cbn in Er; try discriminate Er; injection Er as <-.
  - apply Hgo; try done. by destruct (ch g).
  - destruct Hwho as [<-|?]; done.
  - by apply Hgo.
  - destruct Hwho as [<-|?]; [|done]. destruct Hp as (-> & Hle & Hr & Hd).
    destruct (decide (i0 = length (interruptCallbacks g))) as [->|Hne].
    + rewrite invoke_last by done. apply Hgo; try done. by destruct (Restart g).
    + destruct (invoke_next g i0 _ eq_refl ltac:(lia) Hr) as (fn & -> & _). by apply Hgo.
  - by apply Hgo.
  - by apply Hgo.
  - apply Hgo; try done. destruct (requested g) eqn:Erq; [done|]. cbn.
    destruct (ch_closed (ShutdownRequestChan g)); [by discriminate H1|done].
  - apply Hgo; try done. cbn. split; [exact (H2 _ _ Et)|done].
  - destruct (H2 _ _ Et) as [Hcl Hrq]. rewrite Request_close_run, Hcl by done. rewrite app_nil_r. split; [done|].
    intros j u [[<- ->]|[Hj Hu]]%lookup_insert_cases; [done|].
    destruct u; try done; exfalso; by apply Hj, (Hq i j _ _ Et Hu).
Qed.

Lemma fresh_step e c c' : Inv 1 c → calm c → fresh_request c → step e c = Some c' → fresh_request c'.
Proof.
  intros HI Hq Hf E. destruct c as [g ts| |]; cbn in E; try discriminate E. pose proof HI as (_ & Hi & _).
  destruct e as [i|i j|j|j|j|i|t]; cbn in E.
  - destruct (ts !! i) as [t|] eqn:Et; [|done]. cbn in E. destruct (move g t) as [r|] eqn:Er; [|done]. injection E as <-.
    exact (fresh_move g ts i t r HI Hq Hf Et Er).
  - destruct (ts !! i) as [[]|]; try done. destruct (ts !! j) as [[]|]; try done. injection E as <-. by eapply fresh_same.
  - destruct (ts !! j) as [[]|]; try done. destruct (ch g); [|done]. injection E as <-. by eapply fresh_same.
  - destruct (ts !! j) as [[]|]; try done. destruct (try_recv _) as [[a c]|] eqn:Er; [|done]. injection E as <-.
    assert (c = ShutdownRequestChan g) as -> by (destruct Hi as [Hi|Hi]; rewrite Hi in Er |- *; cbn in Er; congruence).
    by eapply fresh_same.
  - destruct (ts !! j) as [[]|]; try done. destruct (try_recv _) as [[a c]|]; [|done]. injection E as <-. by eapply fresh_same.
  - destruct (ts !! i) as [[]|]; try done. by injection E as <-.
  - destruct (is_call t) eqn:Et; [|done]. injection E as <-. destruct Hf as [H1 H2]. split; [done|].
    intros j u [Hu|[_ Hu]]%lookup_app_Some; [by eapply H2|]. apply list_lookup_singleton_Some in Hu as [_ <-]. by destruct t.
Qed.

(** Requests that come one after the other never bring the program down, with any
    number of other calls and signals in between. *)
Theorem requests_in_turn_safe src fn c : rtc (λ c c', calm c ∧ steps c c') (armed src fn) c →
  ∀ p, c ≠ Crashed p.
Proof.
  intros Hr. assert (Inv 1 c ∧ fresh_request c) as [_ Hf].
  { remember (armed src fn) as c0 eqn:E.
    assert (Inv 1 c0 ∧ fresh_request c0) as HI.
    { subst. split; [apply Inv_armed|]. split; [done|]. intros [|[|j]] t Ht; cbn in Ht; by try injection Ht as <-. }
    clear E. induction Hr as [|c1 c2 c3 [Hq [e He]] _ IH]; [done|]. destruct HI as [HI Hf].
    apply IH. split; [by eapply Inv_step|by eapply fresh_step]. }
  intros p ->. exact Hf.
Qed.

(** Two requests that both find the flag not set close the channel twice. *)
Example racing_requests_crash :
  run [Calls Request; Calls Request; Moves 2; Moves 3; Moves 2; Moves 2; Moves 3; Moves 3] (armed "main.go:1" 1)
  = Some (Crashed CloseOfClosed).
Proof. reflexivity. Qed.

(** Two calls of [AddHandler] that both find no channel start a listener each;
    each calls the handlers, and the second to finish brings the program down. *)
Example racing_AddHandlers_crash :
  run [Calls (AddHandler "a.go:1" 1); Calls (AddHandler "b.go:1" 2); Moves 0; Moves 1; Moves 0; Moves 1;
       Registers 0 2; Registers 1 2; Calls Request; Moves 4; Moves 4; Moves 4; SeesShutdown 2; SeesShutdown 3;
       Moves 2; Moves 2; Moves 2; Moves 3; Moves 3; Moves 3; Moves 2; Moves 3] start
  = Some (Crashed CloseOfClosed).
Proof. reflexivity. Qed.

(** ** The shutdown goes through *)

Lemma run_app es es' c c1 c2 : run es c = Some c1 → run es' c1 = Some c2 → run (es ++ es') c = Some c2.
Proof.
  revert c. induction es as [|e es IH]; intros c E1 E2; cbn in *; [by injection E1 as ->|].
  destruct (step e c) as [c'|]; [|done]. by apply IH.
Qed.

Lemma invoking_runs g ts k i n : n = length (interruptCallbacks g) → (i + k)%nat = n → HandlersDone g = make 0 →
  ran g = take i (reverse (interruptCallbacks g)) → ts !! 1%nat = Some (Invoking n i) →
  ∃ g' ts', run (replicate (S k) (Moves 1)) (Running g ts) = Some (Running g' ts') ∧
            ran g' = reverse (interruptCallbacks g) ∧ ch_closed (HandlersDone g') = true.
Proof.
  intros Hn. revert g ts i Hn. induction k as [|k IH]; intros g ts i Hn Hk Hd Hr Ht.
  - assert (i = n) as -> by lia. subst n. cbn. rewrite Ht. cbn. rewrite invoke_last by done.
    eexists _, _. split; [done|]. cbn. split; [|done]. rewrite Hr. apply take_ge. rewrite length_reverse. lia.
  - destruct (invoke_next g i n Hn ltac:(lia) Hr) as (fn & E & Hr').
    change (replicate (S (S k)) (Moves 1)) with (Moves 1 :: replicate (S k) (Moves 1)). cbn [run step]. rewrite Ht. cbn [mbind option_bind move].
    rewrite E, app_nil_r. apply (IH (with_ran (ran g ++ [fn]) g) (<[1%nat := Invoking n (S i)]> ts) (S i)); try done; [lia|]. eapply listener_insert. exact Ht.
Qed.

(** When a shutdown was requested the listener needs nobody else: in as many moves
    as there are handlers and three more, all are called and [HandlersDone] is closed. *)
Theorem shutdown_completes src fn g ts : rtc steps (armed src fn) (Running g ts) →
  ts !! 1%nat = Some Listener → ch_closed (ShutdownRequestChan g) = true →
  ∃ g' ts', run (SeesShutdown 1 :: replicate (length (interruptCallbacks g) + 2) (Moves 1)) (Running g ts) = Some (Running g' ts') ∧
            ran g' = reverse (interruptCallbacks g) ∧ ch_closed (HandlersDone g') = true.
Proof.
  intros H%reached_Inv Ht Hs. destruct H as (Hc & Hi & (t & E1 & Hp) & _). rewrite Ht in E1. injection E1 as <-. destruct Hp as [Hr Hd].
  assert (ShutdownRequestChan g = shut) as Esh by (destruct Hi as [Hi|Hi]; [by rewrite Hi in Hs|done]).
  replace (length (interruptCallbacks g) + 2)%nat with (S (S (length (interruptCallbacks g)))) by lia.
  cbn [run step]. rewrite Ht, Esh. cbn [try_recv shut ch_buf ch_senders ch_closed mbind option_bind].
  change (replicate (S (S (length (interruptCallbacks g)))) (Moves 1)) with (Moves 1 :: replicate (S (length (interruptCallbacks g))) (Moves 1)).
  cbn [run step]. rewrite (listener_insert _ _ Stopping Ht). cbn [mbind option_bind move]. rewrite app_nil_r.
  apply (invoking_runs (with_requested true (with_shutdown shut g))
    (<[1%nat := Invoking (length (interruptCallbacks g)) 0]> (<[1%nat := Stopping]> ts)) (length (interruptCallbacks g)) 0 (length (interruptCallbacks g))); try done.
  eapply listener_insert, listener_insert. exact Ht.
Qed.

(** ** Concrete runs *)

Module Demo.

(** Two handlers are registered and a shutdown requested. *)
Definition asked : list event :=
  [Registers 0 1; Calls (AddHandler "store.go:9" 2); Moves 2; Registers 2 1; Calls Request; Moves 3; Moves 3; Moves 3].
Definition stopped : list event := SeesShutdown 1 :: replicate 4 (Moves 1).
Definition late : list event := [Calls (AddHandler "late.go:1" 3); Moves 4].

Definition at_end (es : list event) : Config := default start (run es (armed "main.go:1" 1)).

Lemma events_rtc es c c' : run es c = Some c' → rtc steps c c'.
Proof.
  revert c. induction es as [|e es IH]; intros c E; cbn in E; [injection E as ->; apply rtc_refl|].
  destruct (step e c) as [c1|] eqn:Es; [|done]. eapply rtc_l; [by exists e|by apply IH].
Qed.

Definition vars (c : Config) : Vars := match c with Running g _ => g | Replaced g => g | Crashed _ => vars0 end.
Definition threads (c : Config) : list thread := match c with Running _ ts => ts | _ => [] end.

Lemma reach es : run es (armed "main.go:1" 1) = Some (Running (vars (at_end es)) (threads (at_end es))) →
  rtc steps (armed "main.go:1" 1) (Running (vars (at_end es)) (threads (at_end es))).
Proof. apply events_rtc. Qed.

(** Calm before every event of a run. *)
Fixpoint calm_run (es : list event) (c : Config) : Prop :=
  match es with
  | [] => True
  | e :: es => calm c ∧ match step e c with Some c' => calm_run es c' | None => True end
  end.

Lemma calm_run_rtc es c c' : run es c = Some c' → calm_run es c → rtc (λ c c', calm c ∧ steps c c') c c'.
Proof.
  revert c. induction es as [|e es IH]; intros c E H; cbn in E; [injection E as ->; apply rtc_refl|].
  destruct H as [Hq H]. destruct (step e c) as [c1|] eqn:Es; [|done].
  eapply rtc_l; [split; [exact Hq|by exists e]|by apply IH].
Qed.

(** The same from the start of the program. *)
Definition first : list event := [Calls (AddHandler "main.go:1" 1); Moves 0; Moves 0].
Definition whole : Config := default start (run (first ++ asked ++ stopped) start).

Fixpoint race_free_run (es : list event) (c : Config) : Prop :=
  match es with
  | [] => True
  | e :: es => no_race c ∧ match step e c with Some c' => race_free_run es c' | None => True end
  end.

Lemma race_free_rtc es c c' : run es c = Some c' → race_free_run es c → rtc race_free c c'.
Proof.
  revert c. induction es as [|e es IH]; intros c E H; cbn in E; [injection E as ->; apply rtc_refl|].
  destruct H as [Hq H]. destruct (step e c) as [c1|] eqn:Es; [|done].
  eapply rtc_l; [split; [exact Hq|by exists e]|by apply IH].
Qed.

End Demo.

Lemma handlers_called_once_witness : ran (Demo.vars Demo.whole) = [2; 1]%nat.
Proof.
  destruct (handlers_called_once (Running (Demo.vars Demo.whole) (Demo.threads Demo.whole))) as (_ & E & _).
  - apply (Demo.race_free_rtc (Demo.first ++ Demo.asked ++ Demo.stopped)); [vm_compute; reflexivity|vm_compute; lia].
  - rewrite E by (vm_compute; reflexivity). vm_compute. reflexivity.
Defined.

Lemma late_handler_waits_witness :
  Demo.threads (Demo.at_end (Demo.asked ++ Demo.stopped ++ Demo.late)) !! 4%nat = Some (AddSends "late.go:1" 3).
Proof.
  pose proof (late_handler_waits "main.go:1" 1 _ _ _ 4 "late.go:1" 3 (Demo.reach (Demo.asked ++ Demo.stopped ++ Demo.late) eq_refl)
           eq_refl eq_refl (rtc_refl _ _)) as [E _]. exact E.
Defined.

Lemma requests_in_turn_safe_witness : ∀ p, Demo.at_end Demo.asked ≠ Crashed p.
Proof.
  apply (requests_in_turn_safe "main.go:1" 1), (Demo.calm_run_rtc Demo.asked); [reflexivity|].
  repeat split; intros [|[|[|[|[|i]]]]] [|[|[|[|[|j]]]]] t u Ht Hu Rt Ru; cbn in *; naive_solver.
Defined.

Lemma shutdown_completes_witness : ∃ g ts,
  run (SeesShutdown 1 :: replicate 4 (Moves 1)) (Running (Demo.vars (Demo.at_end Demo.asked)) (Demo.threads (Demo.at_end Demo.asked)))
  = Some (Running g ts) ∧ ran g = [2; 1]%nat.
Proof.
  destruct (shutdown_completes "main.go:1" 1 _ _ (Demo.reach Demo.asked eq_refl) eq_refl eq_refl) as (g & ts & E & Er & _).
  exists g, ts. split; [exact E|exact Er].
Defined.
