(* ===== verification/Transport.v ===== *)
(** * The network listener and its connections

    Models [pkg/engine/transport]: [listener.go], [conn.go], [tpt_sim.go],
    [common.go] and the peer tick of [discovery.go].  libp2p is outside: the
    addresses it parses are the class [Addresses], what its peer store, streams
    and dialling answer are arguments.  The values in a byte channel carry the
    number of the goroutine that sent them, so that a parked sender knows when
    its value was taken. *)

From S2P Require Export Quit Deps.

(** ** Addresses *)

Class Addresses `{Multiaddrs} := {
  (** [multiaddr.NewMultiaddr] *)
  NewMultiaddr : string → Multiaddr + error;
  (** [Multiaddr.String] *)
  MaString : Multiaddr → string;
  (** [peer.AddrInfoFromP2pAddr]: the peer's identifier and addresses *)
  AddrInfoFromP2pAddr : Multiaddr → string * list Multiaddr + error;
}.

Class AddressesLaws `{Addresses} : Prop := {
  (** the text of an address parses back to it *)
  multiaddr_text a : NewMultiaddr (MaString a) = inl a;
}.

Definition ConnBufs : nat := Z.to_nat 8192.
Definition DefaultMTU : Z := 1382.

(** ** Byte channels *)

Abbreviation ByteChan := (chan (nat * bytes)).

Definition NewByteChan (bufs : nat) : ByteChan := make bufs.

Definition ByteChan_Send (g : nat) (b : bytes) (s : ByteChan) : Out (outcome * ByteChan) := send (g, b) s.
Definition ByteChan_Receive (s : ByteChan) : ByteChan := s.

Record DuplexByteChan := MkDuplex { Receiver : ByteChan; Sender : ByteChan }.

Definition NewDuplexByteChan (bufs : nat) : DuplexByteChan := MkDuplex (NewByteChan bufs) (NewByteChan 0).

Definition Duplex_Receive (d : DuplexByteChan) : ByteChan := ByteChan_Receive (Receiver d).
Definition Duplex_Send (g : nat) (b : bytes) (d : DuplexByteChan) : Out (outcome * DuplexByteChan) :=
  '(r, s) ← ByteChan_Send g b (Sender d); mret (r, MkDuplex (Receiver d) s).

(** The goroutine of [NewSimDuplex], number [self]: it waits for a message, has
    taken one and is parked in passing it on, or has returned. *)
Inductive forwarder := Forwards | Holds | Stopped.

(** One turn of it; [None] when it has to wait. *)
Definition forward (self : nat) (done : bool) (f : forwarder) (d : DuplexByteChan) : option (Out (forwarder * DuplexByteChan)) :=
  match f with
  | Stopped => None
  | Forwards =>
      if done then Some (Ret (Stopped, d))
      else match try_recv (Sender d) with
           | Some (Some (_, b), s) =>
               Some ('(r, rc) ← ByteChan_Send self b (Receiver d);
                     mret (match r with Goes => Forwards | Parks => Holds end, MkDuplex rc s))
           | Some (None, _) => None   (* the channels are never closed *)
           | None => None
           end
  | Holds => if bool_decide (self ∈ (ch_senders (Receiver d)).*1) then None else Some (Ret (Forwards, d))
  end.

Section Transport.
Context `{Crypto, Addresses}.

(** ** Hosts and their text *)

Record Host := MkHost { h_ID : string; h_Addrs : list Multiaddr }.

Definition SemVer : string := "v0.1.20".
Definition DefaultUserAgent : string := "/indra:" +:+ SemVer +:+ "/".
Definition SetUserAgent (s : string) : string := "/indra " +:+ SemVer +:+ " [" +:+ s +:+ "]/".

(** [a.Encapsulate(b)] for a [b] that may be nil after an ignored error *)
Definition encapsulate (a : Multiaddr) (b : Multiaddr + error) : Out Multiaddr :=
  match b with inl b => Ret (Encapsulate a b) | inr _ => Panic PNil end.

Definition p2p (id : string) : Multiaddr + error := NewMultiaddr ("/p2p/" +:+ id).

Definition GetHostFirstMultiaddr (ha : Host) : Out string :=
  addr ← goindex (h_Addrs ha) 0;
  a ← encapsulate addr (p2p (h_ID ha));
  mret (MaString a).

Definition GetHostOnlyFirstMultiaddr (ha : Host) : Out string :=
  addr ← goindex (h_Addrs ha) 0; mret (MaString addr).

Fixpoint host_multiaddrs (hostAddr : Multiaddr + error) (addrs : list Multiaddr) : Out (list string) :=
  match addrs with
  | [] => mret []
  | v :: addrs => a ← encapsulate v hostAddr; r ← host_multiaddrs hostAddr addrs; mret (MaString a :: r)
  end.

Definition GetHostMultiaddrs (ha : Host) : Out (list string) := host_multiaddrs (p2p (h_ID ha)) (h_Addrs ha).
Definition GetHostOnlyMultiaddrs (ha : Host) : list string := MaString <$> h_Addrs ha.

(** ** Connections and the listener *)

(** The buffered writer on the stream: once a write failed it takes no more. *)
Record Writer := MkWriter { w_failed : bool; w_out : list bytes }.

Record Conn := MkConn {
  c_MTU : Z;
  c_RemoteKey : option Pub;
  c_MultiAddr : Multiaddr;
  c_rw : Writer;
  c_Transport : DuplexByteChan;
  c_mx : bool;
  c_C : Quit.C;
  c_sending : bool;                      (* whether its sender goroutine still runs *)
}.

Record World := MkWorld {
  l_MTU : Z;
  l_Host : Host;
  l_connections : gmap string nat;
  l_newConns : chan nat;
  l_mx : bool;
  w_conns : list Conn;
  w_qu : Quit.St;
  w_adds : list (string * list Multiaddr);   (* what was added to the host's peer store *)
}.

Abbreviation TM := (GoM World).

Definition updW (f : World → World) : TM unit := λ w, Ret (tt, f w).
Definition with_MTU (m : Z) (w : World) : World :=
  MkWorld m (l_Host w) (l_connections w) (l_newConns w) (l_mx w) (w_conns w) (w_qu w) (w_adds w).
Definition with_connections (m : gmap string nat) (w : World) : World :=
  MkWorld (l_MTU w) (l_Host w) m (l_newConns w) (l_mx w) (w_conns w) (w_qu w) (w_adds w).
Definition with_newConns (c : chan nat) (w : World) : World :=
  MkWorld (l_MTU w) (l_Host w) (l_connections w) c (l_mx w) (w_conns w) (w_qu w) (w_adds w).
Definition with_lmx (b : bool) (w : World) : World :=
  MkWorld (l_MTU w) (l_Host w) (l_connections w) (l_newConns w) b (w_conns w) (w_qu w) (w_adds w).
Definition with_conns (l : list Conn) (w : World) : World :=
  MkWorld (l_MTU w) (l_Host w) (l_connections w) (l_newConns w) (l_mx w) l (w_qu w) (w_adds w).
Definition with_qu (q : Quit.St) (w : World) : World :=
  MkWorld (l_MTU w) (l_Host w) (l_connections w) (l_newConns w) (l_mx w) (w_conns w) q (w_adds w).
Definition with_adds (a : list (string * list Multiaddr)) (w : World) : World :=
  MkWorld (l_MTU w) (l_Host w) (l_connections w) (l_newConns w) (l_mx w) (w_conns w) (w_qu w) a.

Definition Lock : TM unit := λ w, if l_mx w then Panic PBlock else Ret (tt, with_lmx true w).
Definition Unlock : TM unit := λ w, if l_mx w then Ret (tt, with_lmx false w) else Panic PLock.

(** A call of the package [qu]. *)
Definition quM {A} (m : Quit.QM A) : TM A := λ w, '(a, q) ← m (w_qu w); Ret (a, with_qu q w).

Definition conn (d : nat) : TM Conn := λ w, match w_conns w !! d with Some c => Ret (c, w) | None => Panic PNil end.
Definition put_conn (d : nat) (c : Conn) : TM unit := updW (λ w, with_conns (<[d := c]> (w_conns w)) w).

Definition with_Transport (t : DuplexByteChan) (c : Conn) : Conn :=
  MkConn (c_MTU c) (c_RemoteKey c) (c_MultiAddr c) (c_rw c) t (c_mx c) (c_C c) (c_sending c).
Definition with_rw (x : Writer) (c : Conn) : Conn :=
  MkConn (c_MTU c) (c_RemoteKey c) (c_MultiAddr c) x (c_Transport c) (c_mx c) (c_C c) (c_sending c).
Definition with_sending (b : bool) (c : Conn) : Conn :=
  MkConn (c_MTU c) (c_RemoteKey c) (c_MultiAddr c) (c_rw c) (c_Transport c) (c_mx c) (c_C c) b.

(** ** [conn.go] *)

(** The connection's own mutex. *)
Definition with_cmx (b : bool) (c : Conn) : Conn :=
  MkConn (c_MTU c) (c_RemoteKey c) (c_MultiAddr c) (c_rw c) (c_Transport c) b (c_C c) (c_sending c).

Definition locked {A} (d : nat) (f : Conn → A * Conn) : TM A :=
  c ← conn d;
  if c_mx c then panicM PBlock
  else let '(a, c') := f c in put_conn d c' ;; mret a.

Definition Conn_GetMTU (d : nat) : TM Z := locked d (λ c, (c_MTU c, c)).
Definition Conn_SetMTU (d : nat) (mtu : Z) : TM unit :=
  locked d (λ c, (tt, MkConn mtu (c_RemoteKey c) (c_MultiAddr c) (c_rw c) (c_Transport c) (c_mx c) (c_C c) (c_sending c))).
Definition GetRemoteKey (d : nat) : TM (option Pub) := locked d (λ c, (c_RemoteKey c, c)).
Definition SetRemoteKey (d : nat) (remoteKey : option Pub) : TM unit :=
  locked d (λ c, (tt, MkConn (c_MTU c) remoteKey (c_MultiAddr c) (c_rw c) (c_Transport c) (c_mx c) (c_C c) (c_sending c))).
Definition GetRecv (d : nat) : TM ByteChan := c ← conn d; mret (Receiver (c_Transport c)).
Definition GetSend (d : nat) : TM ByteChan := c ← conn d; mret (Sender (c_Transport c)).

(** ** [listener.go] *)

Definition Accept : TM (chan nat) := w ← get; mret (l_newConns w).

(** The second half of [AddConn], after the connection was taken. *)
Definition register (d : nat) : TM unit :=
  Lock ;;
  c ← conn d;
  updW (λ w, with_connections (<[MaString (c_MultiAddr c) := d]> (l_connections w)) w) ;;
  Unlock.

(** A caller parked in the send has yet to [register]. *)
Definition AddConn (d : nat) : TM outcome :=
  w ← get;
  '(r, c) ← lift (send d (l_newConns w));
  updW (with_newConns c) ;;
  match r with
  | Goes => register d ;; mret Goes
  | Parks => mret Parks
  end.

(** The mutex is still held when the connection is not in the map. *)
Definition DelConn (d : nat) (at_ : string) : TM unit :=
  Lock ;;
  c ← conn d;
  w ← get;
  match l_connections w !! MaString (c_MultiAddr c) with
  | None => panicM PNil
  | Some k =>
      ck ← conn k;
      quM (Q (c_C ck) at_) ;;
      updW (λ w, with_connections (delete (MaString (c_MultiAddr c)) (l_connections w)) w) ;;
      Unlock
  end.

Definition new_conn (ma : Multiaddr) (c : Quit.C) : TM nat := λ w,
  Ret (length (w_conns w),
       with_conns (w_conns w ++ [MkConn (l_MTU w) None ma (MkWriter false []) (NewDuplexByteChan ConnBufs) false c true]) w).

(** [st] is what [NewStream] answers. *)
Definition Dial (multiAddr : string) (st : option error) (at_ : string) : TM (option nat) :=
  match NewMultiaddr multiAddr with
  | inr _ => mret None
  | inl ma =>
      match AddrInfoFromP2pAddr ma with
      | inr _ => mret None
      | inl (id, addrs) =>
          updW (λ w, with_adds (w_adds w ++ [(id, addrs)]) w) ;;
          match st with
          | Some _ => mret None
          | None =>
              c ← quM (Quit.T at_);
              d ← new_conn ma c;
              Lock ;;
              updW (λ w, with_connections (<[multiAddr := d]> (l_connections w)) w) ;;
              Unlock ;;
              w ← get;
              _ ← lift (GetHostOnlyFirstMultiaddr (l_Host w));
              mret (Some d)
          end
      end
  end.

Definition FindConn (multiAddr : string) : TM (option nat) :=
  Lock ;; w ← get; Unlock ;; mret (l_connections w !! multiAddr).

Definition found {A} (multiAddr : string) (f : DuplexByteChan → A) : TM (option A) :=
  d ← FindConn multiAddr;
  match d with
  | None => mret None
  | Some d => c ← conn d; mret (Some (f (c_Transport c)))
  end.

Definition GetConnRecv (multiAddr : string) : TM (option ByteChan) := found multiAddr Receiver.
Definition GetConnSend (multiAddr : string) : TM (option ByteChan) := found multiAddr Sender.

Definition SetMTU (mtu : Z) : TM unit := Lock ;; updW (with_MTU mtu) ;; Unlock.

(** [rw.Write(b)] and [rw.Flush()]; [ok] says whether the stream takes the bytes. *)
Definition write_flush (ok : bool) (b : bytes) (x : Writer) : Writer :=
  if w_failed x then x else if ok then MkWriter false (w_out x ++ [b]) else MkWriter true (w_out x).

(** One turn of the goroutine [Dial] starts for the connection: whether it could
    do something.  It picks at random when it was told to stop and has a message. *)
Definition sender_stops (d : nat) : TM bool :=
  c ← conn d;
  w ← get;
  match c_C c ≫= λ k, chans (w_qu w) !! k with
  | Some ch =>
      match try_recv ch with
      | Some (_, ch') =>
          if c_sending c then
            quM (match c_C c with Some k => put_chan k ch' | None => mret tt end) ;;
            put_conn d (with_sending false c) ;; mret true
          else mret false
      | None => mret false
      end
  | None => mret false
  end.

Definition sender_sends (d : nat) (ok : bool) : TM bool :=
  c ← conn d;
  match try_recv (Sender (c_Transport c)) with
  | Some (Some (_, b), s) =>
      if c_sending c then
        put_conn d (with_rw (write_flush ok b (c_rw c)) (with_Transport (MkDuplex (Receiver (c_Transport c)) s) c)) ;;
        mret true
      else mret false
  | _ => mret false
  end.

(** Where the goroutine of a stream is: about to read, parked in the send of
    [AddConn], parked in the send to the receiver, or returned. *)
Inductive handler := Reads | Adds (d : nat) (b : bytes) | Pushes (d : nat) (b : bytes) | Ended.

(** [nc.Transport.Receiver.Send(b[:n])] by the goroutine [g]. *)
Definition deliver (g d : nat) (b : bytes) : TM handler :=
  c ← conn d;
  '(r, s) ← lift (ByteChan_Send g b (Receiver (c_Transport c)));
  put_conn d (with_Transport (MkDuplex s (Sender (c_Transport c))) c) ;;
  mret (match r with Goes => Reads | Parks => Pushes d b end).

(** The connection a chunk belongs to: the one under the first address the peer
    store has for the other side, or a new one. *)
Definition conn_for (id : string) (addrs : list Multiaddr) (st : option error) (at_ : string) : TM (option (nat * bool)) :=
  a0 ← lift (goindex addrs 0);
  ha ← lift (encapsulate a0 (p2p id));
  let as_ := MaString ha in
  nc ← FindConn as_;
  match nc with
  | Some d => mret (Some (d, false))
  | None => nd ← Dial as_ st at_; mret ((λ d, (d, true)) <$> nd)
  end.

(** One turn of the loop of [handle]: [rd] is what the stream gave, [id] and
    [addrs] what the peer store knows of the other side. *)
Definition handle_turn (g : nat) (rd : bytes + error) (id : string) (addrs : list Multiaddr) (st : option error) (at_ : string) : TM handler :=
  match rd with
  | inr _ => mret Ended
  | inl b =>
      w ← get;
      _ ← lift (GetHostFirstMultiaddr (l_Host w));
      nc ← conn_for id addrs st at_;
      match nc with
      | None => mret Reads
      | Some (d, false) => deliver g d b
      | Some (d, true) =>
          r ← AddConn d;
          match r with Goes => deliver g d b | Parks => mret (Adds d b) end
      end
  end.

(** What the goroutine does when what it was parked with was taken; [None] while
    it has to wait. *)
Definition handle_resume (g : nat) (h : handler) : TM (option handler) :=
  match h with
  | Reads | Ended => mret None
  | Adds d b =>
      w ← get;
      if bool_decide (d ∈ ch_senders (l_newConns w)) then mret None
      else register d ;; h' ← deliver g d b; mret (Some h')
  | Pushes d b =>
      c ← conn d;
      if bool_decide (g ∈ (ch_senders (Receiver (c_Transport c))).*1) then mret None else mret (Some Reads)
  end.

(** ** Setting up *)

Section Setup.
Context {Store : Type}.

(** What [NewListener] passes on and starts; [closers] counts the handlers it
    registers for the shutdown. *)
Record Setup := MkSetup {
  listen : list Multiaddr; rdv : list Multiaddr; closers : nat; hosted : option Host; serving : bool }.

Fixpoint parse_all (l : list string) : list Multiaddr + error :=
  match l with
  | [] => inl []
  | s :: l =>
      match NewMultiaddr s with
      | inr e => inr e
      | inl m => match parse_all l with inl ms => inl (m :: ms) | inr e => inr e end
      end
  end.

Definition parse_some (l : list string) : list Multiaddr :=
  omap (λ s, match NewMultiaddr s with inl m => Some m | inr _ => None end) l.

(** [newHost] is what [libp2p.New] answers, [newDHT] what [NewDHT] does. *)
Definition NewListener (rendezvous multiAddr : list string) (newHost : Host + error) (newDHT : list Multiaddr → option error)
  : Setup * option error :=
  match parse_all multiAddr with
  | inr e => (MkSetup [] [] 0 None false, Some e)
  | inl ma =>
      let rdv := parse_some rendezvous in
      match newHost with
      | inr e => (MkSetup ma rdv 1 None false, Some e)
      | inl h =>
          match newDHT rdv with
          | Some e => (MkSetup ma rdv 2 (Some h) false, Some e)
          | None => (MkSetup ma rdv 2 (Some h) true, None)
          end
      end
  end.

Definition NoCipher : panic := PMsg "DANGER: database is being created without encryption".

(** The store, and whether the function returned with it closes it. *)
Definition BadgerStore (dataPath : string) (cipher : option bytes) (NewDatastore : string → bytes → Store + error) : Out (option Store * bool) :=
  match cipher with
  | None => Panic NoCipher
  | Some c =>
      match NewDatastore dataPath c with
      | inr _ => Ret (None, false)
      | inl s => Ret (Some s, true)
      end
  end.

(** ** [discovery.go] *)

(** The peers to connect to, and the error left over from the last address. *)
Fixpoint bootstrap (peers : list Multiaddr) (e : option error) : list (string * list Multiaddr) * option error :=
  match peers with
  | [] => ([], e)
  | p :: peers =>
      match AddrInfoFromP2pAddr p with
      | inr e => bootstrap peers (Some e)
      | inl info => let '(l, e) := bootstrap peers None in (info :: l, e)
      end
  end.

(** [server] is the mode option of a node without bootstrap peers. *)
Record DHT := MkDHT { server : bool; connects : list (string * list Multiaddr) }.

Definition NewDHT (newErr bootErr : option error) (bootstrapPeers : list Multiaddr) : option DHT * option error :=
  let server := bool_decide (bootstrapPeers = []) in
  match newErr with
  | Some e => (None, Some e)
  | None =>
      match bootErr with
      | Some e => (Some (MkDHT server []), Some e)
      | None => let '(l, e) := bootstrap bootstrapPeers None in (Some (MkDHT server l), e)
      end
  end.

(** What the network answers to one tick: the peers found for a rendezvous, the
    outcome of dialling, the keys in identifiers. *)
Record Net := MkNet {
  FindPeers : Multiaddr → list string + error;
  DialPeer : string → option error;
  ExtractPublicKey : string → bytes + error;
  Raw : bytes → bytes + error;
  BadKey : bytes → option error;           (* the error of [PubFromBytes] *)
}.

(** The peers found for the last rendezvous; [None] is the nil channel. *)
Fixpoint find_peers (n : Net) (rendezvous : list Multiaddr) (peers : option (list string)) : option (list string) + error :=
  match rendezvous with
  | [] => inl peers
  | r :: rendezvous =>
      match FindPeers n r with
      | inr e => inr e
      | inl ps => find_peers n rendezvous (Some ps)
      end
  end.

(** The error left when the keys of both sides were looked at. *)
Definition key_errors (n : Net) (p self : string) : option error :=
  match ExtractPublicKey n p with
  | inr e => Some e
  | inl them =>
      match ExtractPublicKey n self with
      | inr e => Some e
      | inl us =>
          match Raw n them, Raw n us with
          | inr e, _ => Some e
          | inl _, inr e => Some e
          | inl themR, inl usR => match BadKey n themR with Some e => Some e | None => BadKey n usR end
          end
      end
  end.

Fixpoint tick_peers (n : Net) (self : string) (peers connected : list string) (e : option error) : list string * option error :=
  match peers with
  | [] => (connected, e)
  | p :: peers =>
      if bool_decide (p = self) then tick_peers n self peers connected e
      else if bool_decide (p ∈ connected) then tick_peers n self peers connected e
      else match DialPeer n p with
           | Some e => tick_peers n self peers connected (Some e)
           | None => tick_peers n self peers (connected ++ [p]) (key_errors n p self)
           end
  end.

(** Ranging over a nil channel waits for ever. *)
Definition Tick (n : Net) (self : string) (rendezvous : list Multiaddr) (connected : list string) : Out (list string * option error) :=
  match find_peers n rendezvous None with
  | inr e => Ret (connected, Some e)
  | inl None => Panic PBlock
  | inl (Some peers) => Ret (tick_peers n self peers connected None)
  end.

(** What wakes the loop of [Discover]. *)
Inductive wake := Done | Ticked (n : Net).

Fixpoint Discover_loop (ws : list wake) (self : string) (rendezvous : list Multiaddr) (connected : list string) : Out (list string) :=
  match ws with
  | [] => Ret connected
  | Done :: _ => Ret connected
  | Ticked n :: ws => '(connected, _) ← Tick n self rendezvous connected; Discover_loop ws self rendezvous connected
  end.

(** The rendezvous advertised, and the peers connected in the end. *)
Definition Discover (n : Net) (ws : list wake) (self : string) (rendezvous : list Multiaddr) (connected : list string) : Out (list string * list string) :=
  '(connected, _) ← Tick n self rendezvous connected;
  connected ← Discover_loop ws self rendezvous connected;
  mret (MaString <$> rendezvous, connected).
End Setup.
End Transport.
