(* ===== verification/TransportProps.v ===== *)
(** * What the listener promises

    Every chunk a stream is read from reaches the connection it was found for, once
    and in order, however the goroutines take turns; what is sent on a connection
    is written in order as long as the stream takes it, and nothing is after the
    first failure; which calls bring the program down; what a tick connects. *)

From S2P Require Import QuitProps.
From S2P Require Export Transport.

Section Props.
Context `{Crypto, Addresses}.

(** ** The receivers of the connections *)

Definition recvs (w : World) : list ByteChan := (λ c, Receiver (c_Transport c)) <$> w_conns w.

Lemma recvs_lookup w d c : w_conns w !! d = Some c → recvs w !! d = Some (Receiver (c_Transport c)).
Proof. intros E. unfold recvs. by rewrite list_lookup_fmap, E. Qed.

Lemma recvs_eq w w' : w_conns w' = w_conns w → recvs w' = recvs w.
Proof. unfold recvs. by intros ->. Qed.

(** What leaves the connections alone. *)
Lemma keeps_updW R f : (∀ w, w_conns (f w) = w_conns w) → keeps (λ w, w_conns w = R) (updW f).
Proof. intros Hf w <- a w' E. injection E as _ <-. apply Hf. Qed.

Lemma keeps_Lock R : keeps (λ w, w_conns w = R) Lock.
Proof. intros w <- a w' E. unfold Lock in E. destruct (l_mx w); [done|]. by injection E as _ <-. Qed.

Lemma keeps_Unlock R : keeps (λ w, w_conns w = R) Unlock.
Proof. intros w <- a w' E. unfold Unlock in E. destruct (l_mx w); [|done]. by injection E as _ <-. Qed.

Lemma keeps_quM {A} R (m : Quit.QM A) : keeps (λ w, w_conns w = R) (quM m).
Proof. intros w <- a w' E. unfold quM, mbind, Out_bind in E. destruct (m (w_qu w)) as [[b q]|]; [|done]. by injection E as _ <-. Qed.

Lemma keeps_conn R d : keeps (λ w, w_conns w = R) (conn d).
Proof. intros w <- a w' E. unfold conn in E. destruct (w_conns w !! d); [|done]. by injection E as _ <-. Qed.

Lemma keeps_register R d : keeps (λ w, w_conns w = R) (register d).
Proof.
  unfold register. apply keeps_bind; [apply keeps_Lock|intros []]. apply keeps_bind; [apply keeps_conn|intros c].
  apply keeps_bind; [by apply keeps_updW|intros []]. apply keeps_Unlock.
Qed.

Lemma keeps_FindConn R s : keeps (λ w, w_conns w = R) (FindConn s).
Proof.
  unfold FindConn. apply keeps_bind; [apply keeps_Lock|intros []]. apply keeps_bind; [apply keeps_get|intros w].
  apply keeps_bind; [apply keeps_Unlock|intros []]. apply keeps_mret.
Qed.

Lemma keeps_AddConn R d : keeps (λ w, w_conns w = R) (AddConn d).
Proof.
  unfold AddConn. apply keeps_bind; [apply keeps_get|intros w]. apply keeps_bind; [apply keeps_lift|intros [r c]].
  apply keeps_bind; [by apply keeps_updW|intros []]. destruct r; [|apply keeps_mret].
  apply keeps_bind; [apply keeps_register|intros []]. apply keeps_mret.
Qed.

Lemma keeps_DelConn R d at_ : keeps (λ w, w_conns w = R) (DelConn d at_).
Proof.
  unfold DelConn. apply keeps_bind; [apply keeps_Lock|intros []]. apply keeps_bind; [apply keeps_conn|intros c].
  apply keeps_bind; [apply keeps_get|intros w]. destruct (l_connections w !! _); [|apply keeps_panic].
  apply keeps_bind; [apply keeps_conn|intros ck]. apply keeps_bind; [apply keeps_quM|intros []].
  apply keeps_bind; [by apply keeps_updW|intros []]. apply keeps_Unlock.
Qed.

Lemma keeps_SetMTU R m : keeps (λ w, w_conns w = R) (SetMTU m).
Proof.
  unfold SetMTU. apply keeps_bind; [apply keeps_Lock|intros []]. apply keeps_bind; [by apply keeps_updW|intros []].
  apply keeps_Unlock.
Qed.

(** A new connection comes last, with nothing in its channels. *)
Definition dialled (w : World) (r : option nat) (w' : World) : Prop :=
  match r with
  | None => w_conns w' = w_conns w
  | Some d => d = length (w_conns w) ∧ ∃ c, w_conns w' = w_conns w ++ [c] ∧
              c_Transport c = NewDuplexByteChan ConnBufs ∧ c_rw c = MkWriter false [] ∧ c_sending c = true
  end.

Lemma Dial_conns s st at_ w : after (Dial s st at_) w (dialled w).
Proof.
  unfold Dial. destruct (NewMultiaddr s) as [ma|]; [|by apply after_mret].
  destruct (AddrInfoFromP2pAddr ma) as [[id addrs]|]; [|by apply after_mret].
  apply after_bind. intros [] w1 E1. injection E1 as <-. destruct st; [by apply after_mret|].
  apply after_bind. eapply after_weaken; [by apply (keeps_quM (w_conns w))|]. intros q w2 E2.
  apply after_bind. intros d w3 E3. injection E3 as <- <-.
  set (c := MkConn _ _ _ _ _ _ _ _).
  apply after_bind. eapply after_weaken; [apply (keeps_Lock (w_conns w ++ [c])); cbn; by rewrite E2|].
  intros [] w4 E4. apply after_bind. eapply after_weaken; [eapply keeps_updW; [done|exact E4]|].
  intros [] w5 E5. apply after_bind. eapply after_weaken; [eapply keeps_Unlock; exact E5|].
  intros [] w6 E6. apply after_bind, after_get. apply after_bind, after_lift. intros _ _. apply after_mret.
  split; [by rewrite E2|]. by exists c.
Qed.

Lemma dialled_recvs w r w' : dialled w r w' →
  match r with None => recvs w' = recvs w | Some d => d = length (recvs w) ∧ recvs w' = recvs w ++ [NewByteChan ConnBufs] end.
Proof.
  destruct r as [d|]; cbn; [|by apply recvs_eq]. intros (-> & c & E & Et & _). unfold recvs.
  rewrite length_fmap, E, fmap_app. cbn. by rewrite Et.
Qed.

Lemma conn_for_recvs id addrs st at_ w :
  after (conn_for id addrs st at_) w (λ r w', match r with
    | Some (d, true) => d = length (recvs w) ∧ recvs w' = recvs w ++ [NewByteChan ConnBufs]
    | _ => recvs w' = recvs w end).
Proof.
  unfold conn_for. apply after_bind, after_lift. intros a0 _. apply after_bind, after_lift. intros ha _.
  apply after_bind. eapply after_weaken; [by apply (keeps_FindConn (w_conns w))|]. intros nc w1 E1%recvs_eq.
  destruct nc as [d|]; [by apply after_mret|].
  apply after_bind. eapply after_weaken; [apply Dial_conns|]. intros [d|] w2 E2%dialled_recvs; apply after_mret; cbn in *; rewrite <- E1.
  - exact E2.
  - exact E2.
Qed.

Lemma deliver_recvs g d b w :
  after (deliver g d b) w (λ h w', ∃ r o r', recvs w !! d = Some r ∧ send (g, b) r = Ret (o, r') ∧
    recvs w' = <[d := r']> (recvs w) ∧ h = (match o with Goes => Reads | Parks => Pushes d b end)).
Proof.
  unfold deliver. apply after_bind. intros c w1 E1. unfold conn in E1. destruct (w_conns w !! d) as [c0|] eqn:Ec; [|done].
  injection E1 as <- <-. apply after_bind, after_lift. intros [o r'] Es. apply after_bind. intros [] w2 E2. injection E2 as <-.
  apply after_mret. exists (Receiver (c_Transport c0)), o, r'. split; [by apply recvs_lookup|]. split; [done|]. split; [|done].
  unfold recvs; cbn. by rewrite list_fmap_insert.
Qed.

(** ** The listener at work *)

(** What the listener keeps, the goroutine of each inbound stream, the chunks read
    with the stream and the connection they were found to belong to, and what the
    application took from the connections. *)
Record Sys := MkSys {
  s_w : World;
  s_hs : list handler;
  s_log : list (nat * nat * bytes);
  s_taken : list (nat * (nat * bytes));
}.

Inductive event :=
| NewStream
| ReadsChunk (g : nat) (rd : bytes + error) (id : string) (addrs : list Multiaddr) (st : option error) (at_ : string)
| Resumes (g : nat)
| AppReceives (d : nat)
| AppAccepts
| AppSends (g d : nat) (b : bytes)
| SenderSends (d : nat) (ok : bool)
| SenderStops (d : nat)
| AppDials (multiAddr : string) (st : option error) (at_ : string)
| AppDeletes (d : nat) (at_ : string)
| AppSetsMTU (mtu : Z).

(** The connection a chunk is found to belong to. *)
Definition routed (w : World) (id : string) (addrs : list Multiaddr) (st : option error) (at_ : string) : option nat :=
  match conn_for id addrs st at_ w with Ret (Some (d, _), _) => Some d | _ => None end.

Definition on {A} (m : GoM World A) (s : Sys) (k : A → World → option Sys) : option Sys :=
  match m (s_w s) with Ret (a, w) => k a w | Panic _ => None end.

Definition with_w (w : World) (s : Sys) : Sys := MkSys w (s_hs s) (s_log s) (s_taken s).

(** One event; a call that panics ends the program, so that no state follows. *)
Definition step (e : event) (s : Sys) : option Sys :=
  match e with
  | NewStream => Some (MkSys (s_w s) (s_hs s ++ [Reads]) (s_log s) (s_taken s))
  | ReadsChunk g rd id addrs st at_ =>
      match s_hs s !! g with
      | Some Reads =>
          on (handle_turn g rd id addrs st at_) s (λ h w, Some (MkSys w (<[g := h]> (s_hs s))
            (s_log s ++ match rd, routed (s_w s) id addrs st at_ with inl b, Some d => [(g, d, b)] | _, _ => [] end) (s_taken s)))
      | _ => None
      end
  | Resumes g =>
      h ← s_hs s !! g;
      on (handle_resume g h) s (λ r w, h' ← r; Some (MkSys w (<[g := h']> (s_hs s)) (s_log s) (s_taken s)))
  | AppReceives d =>
      on (GetRecv d) s (λ r w,
        match try_recv (ByteChan_Receive r), w_conns w !! d with
        | Some (Some x, r'), Some c =>
            Some (MkSys (with_conns (<[d := with_Transport (MkDuplex r' (Sender (c_Transport c))) c]> (w_conns w)) w)
                    (s_hs s) (s_log s) (s_taken s ++ [(d, x)]))
        | _, _ => None
        end)
  | AppAccepts =>
      on Accept s (λ c w, match try_recv c with Some (Some _, c') => Some (with_w (with_newConns c' w) s) | _ => None end)
  | AppSends g d b =>
      on (conn d) s (λ c w,
        match Duplex_Send g b (c_Transport c) with
        | Ret (_, t) => Some (with_w (with_conns (<[d := with_Transport t c]> (w_conns w)) w) s)
        | Panic _ => None
        end)
  | SenderSends d ok => on (sender_sends d ok) s (λ r w, if r : bool then Some (with_w w s) else None)
  | SenderStops d => on (sender_stops d) s (λ r w, if r : bool then Some (with_w w s) else None)
  | AppDials a st at_ => on (Dial a st at_) s (λ _ w, Some (with_w w s))
  | AppDeletes d at_ => on (DelConn d at_) s (λ _ w, Some (with_w w s))
  | AppSetsMTU mtu => on (SetMTU mtu) s (λ _ w, Some (with_w w s))
  end.

Definition steps (s s' : Sys) : Prop := ∃ e, step e s = Some s'.

(** A listener just made. *)
Definition fresh (host : Host) (mtu : Z) : Sys :=
  MkSys (MkWorld mtu host ∅ (make ConnBufs) false [] Quit.empty []) [] [] [].

(** ** In order and once *)

Definition tagged (g : nat) (l : list (nat * bytes)) : list bytes :=
  omap (λ x, if decide (x.1 = g) then Some x.2 else None) l.
Definition routed_to (g d : nat) (l : list (nat * nat * bytes)) : list bytes :=
  omap (λ x, if decide (x.1 = (g, d)) then Some x.2 else None) l.
Definition taken_from (d : nat) (l : list (nat * (nat * bytes))) : list (nat * bytes) :=
  omap (λ x, if decide (x.1 = d) then Some x.2 else None) l.
Definition waiting (w : World) (d : nat) : list (nat * bytes) :=
  match recvs w !! d with Some r => pending r | None => [] end.
(** A chunk held while its new connection waits to be accepted. *)
Definition held_by (h : handler) (d : nat) : list bytes :=
  match h with Adds d' b => if decide (d' = d) then [b] else [] | _ => [] end.
Definition held (hs : list handler) (g d : nat) : list bytes :=
  match hs !! g with Some h => held_by h d | None => [] end.

Record Inv (s : Sys) : Prop := {
  inv_chans : ∀ d r, recvs (s_w s) !! d = Some r → chan_ok r ∧ ch_receivers r = 0%nat;
  inv_order : ∀ g d, routed_to g d (s_log s)
                     = tagged g (taken_from d (s_taken s) ++ waiting (s_w s) d) ++ held (s_hs s) g d;
}.

Lemma tagged_app g a b : tagged g (a ++ b) = tagged g a ++ tagged g b.
Proof. apply omap_app. Qed.

(** Nothing about receivers, streams and the application changed. *)
Lemma Inv_same s w : Inv s → recvs w = recvs (s_w s) → Inv (with_w w s).
Proof. intros [Hc Ho] E. split; cbn; unfold waiting; by rewrite ?E. Qed.

Lemma Inv_new s w : Inv s → recvs w = recvs (s_w s) ++ [NewByteChan ConnBufs] → Inv (with_w w s).
Proof.
  intros [Hc Ho] E. split; cbn [s_w s_hs s_log s_taken with_w].
  - intros d r. rewrite E. intros [Hd|[_ Hd]]%lookup_app_Some; [by eapply Hc|].
    apply list_lookup_singleton_Some in Hd as [_ <-]. split; [apply make_ok|done].
  - intros g d. rewrite Ho. do 3 f_equal. unfold waiting. rewrite E.
    destruct (recvs (s_w s) !! d) as [r|] eqn:Hd; [by rewrite (lookup_app_l_Some _ _ _ _ Hd)|].
    rewrite lookup_app, Hd. destruct (d - length (recvs (s_w s)))%nat; done.
Qed.

Lemma held_insert hs g h0 h g' d : hs !! g = Some h0 →
  held (<[g := h]> hs) g' d = if decide (g' = g) then held_by h d else held hs g' d.
Proof.
  intros E. unfold held. case_decide as Hg.
  - subst. by rewrite list_lookup_insert_eq by (by eapply lookup_lt_Some).
  - by rewrite list_lookup_insert_ne by done.
Qed.

Lemma waiting_insert w w' d r r' d' : recvs w !! d = Some r → recvs w' = <[d := r']> (recvs w) →
  waiting w' d' = if decide (d' = d) then pending r' else waiting w d'.
Proof.
  intros E E'. unfold waiting. rewrite E'. case_decide as Hd.
  - subst. by rewrite list_lookup_insert_eq by (by eapply lookup_lt_Some).
  - by rewrite list_lookup_insert_ne by done.
Qed.

Lemma send_receivers {A} (a : A) c o c' : send a c = Ret (o, c') → ch_receivers c = 0%nat → ch_receivers c' = 0%nat.
Proof.
  intros E Hr. unfold send in E. destruct (ch_closed c); [done|]. rewrite Hr in E. by case_bool_decide; injection E as _ <-.
Qed.

Lemma try_recv_receivers {A} (c : chan A) a c' : try_recv c = Some (a, c') → ch_receivers c' = ch_receivers c.
Proof.
  unfold try_recv. destruct (ch_buf c), (ch_senders c); try (by intros [= _ <-]). destruct (ch_closed c); [by intros [= _ <-]|done].
Qed.

(** Goroutine [g] hands the chunk it is about to deliver to the receiver of [d]. *)
Lemma Inv_push w w' hs log tk g h0 d b h :
  (∀ d r, recvs w !! d = Some r → chan_ok r ∧ ch_receivers r = 0%nat) → hs !! g = Some h0 →
  (∀ g' d', routed_to g' d' log = tagged g' (taken_from d' tk ++ waiting w d')
            ++ if decide (g' = g) then held_by (Adds d b) d' else held hs g' d') →
  deliver g d b w = Ret (h, w') → Inv (MkSys w' (<[g := h]> hs) log tk).
Proof.
  intros Hc Hg Ho E. destruct (deliver_recvs g d b w _ _ E) as (r & o & r' & Hr & Es & Ew & ->).
  destruct (Hc d r Hr) as [Hok Hnr]. split; cbn [s_w s_hs s_log s_taken].
  - intros d' x. rewrite Ew. destruct (decide (d = d')) as [<-|Hd].
    + rewrite list_lookup_insert_eq by (by eapply lookup_lt_Some). intros [= <-].
      split; [by eapply send_ok|by eapply send_receivers].
    + rewrite list_lookup_insert_ne by done. apply Hc.
  - intros g' d'. rewrite Ho, (held_insert _ _ h0) by done. rewrite (waiting_insert w w' d r r') by done.
    assert (held_by (match o with Goes => Reads | Parks => Pushes d b end) d' = []) as -> by (by destruct o).
    destruct (decide (d' = d)) as [->|Hd].
    + rewrite (send_pending _ _ _ _ Es Hnr Hok). unfold waiting. rewrite Hr, app_assoc, (tagged_app g' _ [(g, b)]).
      case_decide as Hgg; cbn [held_by tagged]; cbn.
      * subst. by rewrite !decide_True, app_nil_r by done.
      * rewrite (decide_False (P := g = g')) by congruence. by rewrite app_nil_r.
    + case_decide; [|done]. cbn. by rewrite decide_False by congruence.
Qed.

Lemma routed_to_snoc g d l g' d' b :
  routed_to g d (l ++ [(g', d', b)]) = routed_to g d l ++ if decide (g = g') then (if decide (d' = d) then [b] else []) else [].
Proof.
  unfold routed_to. rewrite omap_app. cbn. f_equal. repeat case_decide; try done; naive_solver.
Qed.

Lemma Inv_read s g rd id addrs st at_ h w : Inv s → s_hs s !! g = Some Reads →
  handle_turn g rd id addrs st at_ (s_w s) = Ret (h, w) →
  Inv (MkSys w (<[g := h]> (s_hs s))
         (s_log s ++ match rd, routed (s_w s) id addrs st at_ with inl b, Some d => [(g, d, b)] | _, _ => [] end) (s_taken s)).
Proof.
  intros [Hc Ho] Hg E. unfold handle_turn in E. destruct rd as [b|e]; cycle 1.
  { injection E as <- <-. rewrite app_nil_r. split; [done|]. intros g' d'. cbn [s_w s_hs s_log s_taken].
    rewrite Ho, (held_insert _ _ Reads) by done. case_decide; [|done]. subst. unfold held. by rewrite Hg. }
  apply bind_inv in E as (w0 & w1 & [= <- <-] & E). apply bind_inv in E as (x & w1 & E1 & E).
  assert (w1 = s_w s) as ->.
  { unfold lift, mbind, Out_bind in E1. destruct (GetHostFirstMultiaddr _); [by injection E1|done]. }
  apply bind_inv in E as (nc & w1 & En & E). pose proof (conn_for_recvs _ _ _ _ _ _ _ En) as Hrc.
  unfold routed. rewrite En. destruct nc as [[d new]|]; cycle 1.
  { injection E as <- <-. rewrite app_nil_r. split; cbn [s_w s_hs s_log s_taken]; [by rewrite Hrc|].
    intros g' d'. rewrite Ho, (held_insert _ _ Reads) by done. unfold waiting. rewrite Hrc.
    case_decide; [|done]. subst. unfold held. by rewrite Hg. }
  assert (Inv (MkSys w1 (s_hs s) (s_log s) (s_taken s))) as [Hc1 Ho1].
  { destruct new; [apply (Inv_new s w1)|apply (Inv_same s w1)]; [by split|apply Hrc|by split|apply Hrc]. }
  cbn [s_w s_hs s_log s_taken] in *.
  assert (∀ g' d', routed_to g' d' (s_log s ++ [(g, d, b)]) = tagged g' (taken_from d' (s_taken s) ++ waiting w1 d')
            ++ if decide (g' = g) then held_by (Adds d b) d' else held (s_hs s) g' d') as Ho2.
  { intros g' d'. rewrite routed_to_snoc, Ho1. case_decide; [|by rewrite app_nil_r].
    subst. unfold held. rewrite Hg. cbn. by rewrite app_nil_r. }
  destruct new; [|by eapply Inv_push].
  apply bind_inv in E as (r & w2 & Ea & E). pose proof (recvs_eq _ _ (keeps_AddConn (w_conns w1) d w1 eq_refl _ _ Ea)) as Hw2.
  destruct r.
  - eapply (Inv_push w2); [by rewrite Hw2|done| |done]. unfold waiting. by rewrite Hw2.
  - injection E as <- <-. split; cbn [s_w s_hs s_log s_taken]; [by rewrite Hw2|].
    intros g' d'. rewrite Ho2, (held_insert _ _ Reads) by done. unfold waiting. by rewrite Hw2.
Qed.

Lemma Inv_resume s g h0 h w : Inv s → s_hs s !! g = Some h0 → handle_resume g h0 (s_w s) = Ret (Some h, w) →
  Inv (MkSys w (<[g := h]> (s_hs s)) (s_log s) (s_taken s)).
Proof.
  intros [Hc Ho] Hg E. destruct h0 as [|d b|d b|]; cbn in E; try done.
  - apply bind_inv in E as (w0 & w1 & [= <- <-] & E). case_bool_decide; [done|].
    apply bind_inv in E as ([] & w1 & Er & E). pose proof (recvs_eq _ _ (keeps_register (w_conns (s_w s)) d _ eq_refl _ _ Er)) as Hw1.
    apply bind_inv in E as (h' & w2 & Ed & [= <- <-]).
    eapply (Inv_push w1); [by rewrite Hw1|done| |done]. intros g' d'. rewrite Ho. unfold waiting. rewrite Hw1. f_equal.
    case_decide; [|done]. subst. unfold held. by rewrite Hg.
  - apply bind_inv in E as (c & w1 & Ec & E). pose proof (recvs_eq _ _ (keeps_conn (w_conns (s_w s)) d _ eq_refl _ _ Ec)) as Hw1.
    case_bool_decide; [done|]. injection E as <- <-. split; cbn [s_w s_hs s_log s_taken]; [by rewrite Hw1|].
    intros g' d'. rewrite Ho, (held_insert _ _ (Pushes d b)) by done. unfold waiting. rewrite Hw1.
    case_decide; [|done]. subst. unfold held. by rewrite Hg.
Qed.

Lemma recvs_put w d c' : recvs w !! d = Some (Receiver (c_Transport c')) →
  recvs (with_conns (<[d := c']> (w_conns w)) w) = recvs w.
Proof. intros E. unfold recvs; cbn. rewrite list_fmap_insert. by apply list_insert_id. Qed.

Lemma sender_stops_recvs d w : after (sender_stops d) w (λ _ w', recvs w' = recvs w).
Proof.
  unfold sender_stops. apply after_bind. intros c w1 E1. unfold conn in E1. destruct (w_conns w !! d) as [c0|] eqn:Ec; [|done].
  injection E1 as <- <-. apply after_bind, after_get. destruct (c_C c0 ≫= _) as [ch|]; [|by apply after_mret].
  destruct (try_recv ch) as [[x ch']|]; [|by apply after_mret]. destruct (c_sending c0); [|by apply after_mret].
  apply after_bind. eapply after_weaken; [by apply (keeps_quM (w_conns w))|]. intros [] w2 E2%recvs_eq.
  apply after_bind. intros [] w3 E3. injection E3 as <-. apply after_mret. rewrite recvs_put; [done|].
  rewrite E2. cbn. by apply recvs_lookup.
Qed.

Lemma sender_sends_recvs d ok w : after (sender_sends d ok) w (λ _ w', recvs w' = recvs w).
Proof.
  unfold sender_sends. apply after_bind. intros c w1 E1. unfold conn in E1. destruct (w_conns w !! d) as [c0|] eqn:Ec; [|done].
  injection E1 as <- <-. destruct (try_recv _) as [[[[g b]|] s]|]; try by apply after_mret.
  destruct (c_sending c0); [|by apply after_mret]. apply after_bind. intros [] w3 E3. injection E3 as <-. apply after_mret.
  apply recvs_put. cbn. by apply recvs_lookup.
Qed.

Lemma Inv_receive s d c x r' : Inv s → w_conns (s_w s) !! d = Some c →
  try_recv (Receiver (c_Transport c)) = Some (Some x, r') →
  Inv (MkSys (with_conns (<[d := with_Transport (MkDuplex r' (Sender (c_Transport c))) c]> (w_conns (s_w s))) (s_w s))
         (s_hs s) (s_log s) (s_taken s ++ [(d, x)])).
Proof.
  intros [Hc Ho] Ec Er. pose proof (recvs_lookup _ _ _ Ec) as Hr.
  set (w' := with_conns _ _). assert (recvs w' = <[d := r']> (recvs (s_w s))) as Ew by (unfold recvs; cbn; by rewrite list_fmap_insert).
  split; cbn [s_w s_hs s_log s_taken].
  - intros d' r. rewrite Ew. destruct (decide (d = d')) as [<-|Hd].
    + rewrite list_lookup_insert_eq by (by eapply lookup_lt_Some). intros [= <-]. destruct (Hc _ _ Hr) as [Hok Hnr].
      split; [by eapply try_recv_ok|]. by rewrite (try_recv_receivers _ _ _ Er).
    + rewrite list_lookup_insert_ne by done. apply Hc.
  - intros g d'. rewrite Ho. f_equal. f_equal. rewrite (waiting_insert _ _ d _ r' d' Hr Ew).
    unfold taken_from. rewrite omap_app. cbn. case_decide as Hd.
    + subst. rewrite decide_True by done. rewrite <- app_assoc. f_equal. unfold waiting. rewrite Hr.
      by rewrite (try_recv_pending _ _ _ Er).
    + rewrite decide_False by congruence. by rewrite app_nil_r.
Qed.

Lemma Sys_step_Inv e s s' : Inv s → step e s = Some s' → Inv s'.
Proof.
  intros HI E. destruct e as [|g rd id addrs st at_|g|d| |g d b|d ok|d|a st at_|d at_|mtu]; cbn [step] in E; unfold on in E.
  - injection E as <-. destruct HI as [Hc Ho]. split; [done|]. intros g d. cbn [s_w s_hs s_log s_taken]. rewrite Ho. f_equal.
    unfold held. destruct (s_hs s !! g) eqn:Eg; [by rewrite (lookup_app_l_Some _ _ _ _ Eg)|].
    rewrite lookup_app, Eg. by destruct (g - length (s_hs s))%nat.
  - destruct (s_hs s !! g) as [[]|] eqn:Eg; try done. destruct (handle_turn _ _ _ _ _ _ _) as [[h w]|] eqn:Eh; [|done].
    injection E as <-. by eapply Inv_read.
  - destruct (s_hs s !! g) as [h|] eqn:Eg; [|done]. cbn in E. destruct (handle_resume g h (s_w s)) as [[[h'|] w]|] eqn:Eh; try done.
    injection E as <-. by eapply Inv_resume.
  - unfold GetRecv in E. destruct ((conn d ≫= _) (s_w s)) as [[r w]|] eqn:Eg; [|done].
    apply bind_inv in Eg as (c & w1 & Ec & [= <- <-]). unfold conn in Ec. destruct (w_conns (s_w s) !! d) as [c0|] eqn:Ecd; [|done].
    injection Ec as <- <-. unfold ByteChan_Receive in E. destruct (try_recv (Receiver (c_Transport c0))) as [[[x|] r']|] eqn:Er; try done.
    rewrite Ecd in E. injection E as <-. by apply Inv_receive.
  - unfold Accept in E. unfold mbind, GoM_bind, get, mret, GoM_ret in E. destruct (try_recv (l_newConns (s_w s))) as [[[x|] c']|]; try done. injection E as <-. by apply Inv_same.
  - unfold conn in E. destruct (w_conns (s_w s) !! d) as [c|] eqn:Ec; [|done].
    destruct (Duplex_Send g b (c_Transport c)) as [[o t]|] eqn:Es; [|done]. injection E as <-. apply Inv_same; [done|].
    apply recvs_put. unfold Duplex_Send in Es. destruct (ByteChan_Send _ _ _) as [[? ?]|]; [|done]. injection Es as <- <-. cbn; by apply recvs_lookup.
  - destruct (sender_sends d ok (s_w s)) as [[[] w]|] eqn:Es; try done. injection E as <-. apply Inv_same; [done|].
    by apply (sender_sends_recvs d ok _ _ _ Es).
  - destruct (sender_stops d (s_w s)) as [[[] w]|] eqn:Es; try done. injection E as <-. apply Inv_same; [done|].
    by apply (sender_stops_recvs d _ _ _ Es).
  - destruct (Dial a st at_ (s_w s)) as [[r w]|] eqn:Ed; [|done]. injection E as <-.
    pose proof (dialled_recvs _ _ _ (Dial_conns _ _ _ _ _ _ Ed)) as Hd. destruct r; [apply Inv_new; [done|apply Hd]|by apply Inv_same].
  - destruct (DelConn d at_ (s_w s)) as [[r w]|] eqn:Ed; [|done]. injection E as <-. apply Inv_same; [done|].
    apply recvs_eq. exact (keeps_DelConn (w_conns (s_w s)) d at_ _ eq_refl _ _ Ed).
  - destruct (SetMTU mtu (s_w s)) as [[r w]|] eqn:Ed; [|done]. injection E as <-. apply Inv_same; [done|].
    apply recvs_eq. exact (keeps_SetMTU (w_conns (s_w s)) mtu _ eq_refl _ _ Ed).
Qed.

Lemma fresh_Inv host mtu : Inv (fresh host mtu).
Proof. split; [done|]. intros g d. by destruct g, d. Qed.

(** C18: However the goroutines take turns, and whatever the application does: the chunks
    of a stream that were found to belong to a connection are those the application
    took from it, then those waiting in its receiver, then one held while the new
    connection waits to be accepted - each once and in the order they were read. *)
Theorem chunks_in_order host mtu s g d : rtc steps (fresh host mtu) s →
  routed_to g d (s_log s) = tagged g (taken_from d (s_taken s) ++ waiting (s_w s) d) ++ held (s_hs s) g d.
Proof.
  intros Hr. assert (Inv s) as [_ Ho]; [|apply Ho].
  remember (fresh host mtu) as s0 eqn:E. assert (Inv s0) as HI by (subst; apply fresh_Inv). clear E.
  induction Hr as [|s1 s2 s3 [e He] _ IH]; [done|]. apply IH. by eapply Sys_step_Inv.
Qed.

(** ** The sending side *)

(** The writer and the sending channel of every connection. *)
Definition outlets (w : World) : list (Writer * ByteChan) := (λ c, (c_rw c, Sender (c_Transport c))) <$> w_conns w.

(** Nothing but new connections, with nothing sent. *)
Definition grown (w w' : World) : Prop := ∃ n, outlets w' = outlets w ++ replicate n (MkWriter false [], NewByteChan 0).

Lemma grown_same w w' : w_conns w' = w_conns w → grown w w'.
Proof. intros E. exists 0%nat. unfold outlets. by rewrite E, app_nil_r. Qed.

Lemma grown_trans w1 w2 w3 : grown w1 w2 → grown w2 w3 → grown w1 w3.
Proof. intros [n E] [m E']. exists (n + m)%nat. by rewrite E', E, <- app_assoc, replicate_add. Qed.

Lemma outlets_put w d c' : outlets w !! d = Some (c_rw c', Sender (c_Transport c')) →
  outlets (with_conns (<[d := c']> (w_conns w)) w) = outlets w.
Proof. intros E. unfold outlets; cbn. rewrite list_fmap_insert. by apply list_insert_id. Qed.

Lemma outlets_lookup w d c : w_conns w !! d = Some c → outlets w !! d = Some (c_rw c, Sender (c_Transport c)).
Proof. intros E. unfold outlets. by rewrite list_lookup_fmap, E. Qed.

Lemma grown_Dial s st at_ w : after (Dial s st at_) w (λ _ w', grown w w').
Proof.
  eapply after_weaken; [apply Dial_conns|]. intros [d|] w' Hd; cbn in Hd; [|by apply grown_same].
  destruct Hd as (-> & c & E & Et & Er & _). exists 1%nat. unfold outlets. rewrite E, fmap_app. cbn. by rewrite Et, Er.
Qed.

Lemma grown_conn_for id addrs st at_ w : after (conn_for id addrs st at_) w (λ _ w', grown w w').
Proof.
  unfold conn_for. apply after_bind, after_lift. intros a0 _. apply after_bind, after_lift. intros ha _.
  apply after_bind. eapply after_weaken; [by apply (keeps_FindConn (w_conns w))|]. intros nc w1 E1%grown_same.
  destruct nc as [d|]; [by apply after_mret|]. apply after_bind. eapply after_weaken; [apply grown_Dial|].
  intros nd w2 E2. apply after_mret. by eapply grown_trans.
Qed.

Lemma grown_deliver g d b w : after (deliver g d b) w (λ _ w', grown w w').
Proof.
  unfold deliver. apply after_bind. intros c w1 E1. unfold conn in E1. destruct (w_conns w !! d) as [c0|] eqn:Ec; [|done].
  injection E1 as <- <-. apply after_bind, after_lift. intros [o r'] Es. apply after_bind. intros [] w2 E2. injection E2 as <-.
  apply after_mret. exists 0%nat. rewrite app_nil_r. apply outlets_put. cbn. by apply outlets_lookup.
Qed.

Lemma grown_handle_turn g rd id addrs st at_ w : after (handle_turn g rd id addrs st at_) w (λ _ w', grown w w').
Proof.
  unfold handle_turn. destruct rd as [b|e]; [|by apply after_mret, grown_same].
  apply after_bind, after_get. apply after_bind, after_lift. intros _ _. apply after_bind.
  eapply after_weaken; [apply grown_conn_for|]. intros [[d new]|] w1 E1; [|by apply after_mret].
  destruct new.
  - apply after_bind. eapply after_weaken; [by apply (keeps_AddConn (w_conns w1))|]. intros r w2 E2%grown_same.
    destruct r; [|by apply after_mret; eapply grown_trans]. eapply after_weaken; [apply grown_deliver|].
    intros h w3 E3. by repeat (eapply grown_trans; [eassumption|]).
  - eapply after_weaken; [apply grown_deliver|]. intros h w3 E3. by eapply grown_trans.
Qed.

Lemma grown_handle_resume g h w : after (handle_resume g h) w (λ _ w', grown w w').
Proof.
  unfold handle_resume. destruct h as [|d b|d b|]; try by apply after_mret, grown_same.
  - apply after_bind, after_get. case_bool_decide; [by apply after_mret, grown_same|].
    apply after_bind. eapply after_weaken; [by apply (keeps_register (w_conns w))|]. intros [] w1 E1%grown_same.
    apply after_bind. eapply after_weaken; [apply grown_deliver|]. intros h w2 E2. apply after_mret. by eapply grown_trans.
  - apply after_bind. eapply after_weaken; [by apply (keeps_conn (w_conns w))|]. intros c w1 E1%grown_same.
    case_bool_decide; by apply after_mret.
Qed.

(** What the stream of connection [d] was given and what waits to be sent on it. *)
Definition outgoing (w : World) (d : nat) : list bytes :=
  match outlets w !! d with Some (x, s) => w_out x ++ (snd <$> pending s) | None => [] end.

(** The stream took everything so far. *)
Definition sound (w : World) (d : nat) : Prop :=
  match outlets w !! d with
  | Some (x, s) => w_failed x = false ∧ chan_ok s ∧ ch_receivers s = 0%nat
  | None => True
  end.

Lemma grown_outgoing w w' d : grown w w' → sound w d → sound w' d ∧ outgoing w' d = outgoing w d.
Proof.
  intros [n E]. unfold sound, outgoing. rewrite E. destruct (outlets w !! d) as [[x s]|] eqn:Ed.
  - by rewrite (lookup_app_l_Some _ _ _ _ Ed).
  - intros _. rewrite lookup_app, Ed. destruct (replicate _ _ !! _) as [[x s]|] eqn:Er; [|done].
    apply lookup_replicate in Er as [[= -> ->] _]. split; [|done]. split; [done|]. split; [apply make_ok|done].
Qed.

(** What an event sends on [d], and whether the stream takes what it is given. *)
Definition sends (d : nat) (e : event) : list bytes :=
  match e with AppSends _ d' b => if decide (d' = d) then [b] else [] | _ => [] end.
Definition takes (d : nat) (e : event) : Prop :=
  match e with SenderSends d' ok => d' = d → ok = true | _ => True end.

Fixpoint run (es : list event) (s : Sys) : option Sys :=
  match es with [] => Some s | e :: es => step e s ≫= run es end.

Lemma outlets_change w d c c' d' : w_conns w !! d = Some c →
  outlets (with_conns (<[d := c']> (w_conns w)) w) !! d'
  = if decide (d' = d) then Some (c_rw c', Sender (c_Transport c')) else outlets w !! d'.
Proof.
  intros Ec. unfold outlets; cbn. rewrite list_fmap_insert. case_decide as Hd.
  - subst. apply list_lookup_insert_eq. rewrite length_fmap. by eapply lookup_lt_Some.
  - by rewrite list_lookup_insert_ne by done.
Qed.

Lemma conn_run d w c w' : conn d w = Ret (c, w') → w_conns w !! d = Some c ∧ w' = w.
Proof. unfold conn. destruct (w_conns w !! d); [|done]. by intros [= -> ->]. Qed.

Lemma outgoing_send w g d d' b c t o : sound w d → w_conns w !! d' = Some c → Duplex_Send g b (c_Transport c) = Ret (o, t) →
  let w' := with_conns (<[d' := with_Transport t c]> (w_conns w)) w in
  sound w' d ∧ outgoing w' d = outgoing w d ++ (if decide (d' = d) then [b] else []).
Proof.
  intros Hs Ec Es. unfold sound, outgoing in *. rewrite (outlets_change _ _ c) by done.
  destruct (decide (d' = d)) as [->|Hd]; [rewrite decide_True by done|rewrite decide_False by done; by rewrite app_nil_r].
  rewrite (outlets_lookup _ _ _ Ec) in *. destruct Hs as (Hf & Hok & Hr).
  unfold Duplex_Send in Es. destruct (ByteChan_Send g b (Sender (c_Transport c))) as [[o' s]|] eqn:E; [|done]. injection Es as <- <-.
  cbn. split; [split; [done|split; [by eapply send_ok|by eapply send_receivers]]|].
  by rewrite (send_pending _ _ _ _ E Hr Hok), fmap_app, app_assoc.
Qed.

Lemma outgoing_sender w d d' ok w' : sound w d → (d' = d → ok = true) → sender_sends d' ok w = Ret (true, w') →
  sound w' d ∧ outgoing w' d = outgoing w d.
Proof.
  intros Hs Hok E. unfold sender_sends in E. apply bind_inv in E as (c & w1 & [Ec ->]%conn_run & E).
  destruct (try_recv _) as [[[[g b]|] s]|] eqn:Er; try done. destruct (c_sending c); [|done].
  apply bind_inv in E as ([] & w2 & [= <-] & [= <-]). unfold sound, outgoing in *. rewrite (outlets_change _ _ c) by done.
  destruct (decide (d = d')) as [->|Hd]; [|done]. rewrite (outlets_lookup _ _ _ Ec) in *. destruct Hs as (Hf & Hc & Hr).
  rewrite Hok by done. cbn. unfold write_flush. rewrite Hf. cbn. rewrite (try_recv_receivers _ _ _ Er).
  split; [by split; [|split; [eapply try_recv_ok|]]|]. rewrite (try_recv_pending _ _ _ Er). cbn. by rewrite <- app_assoc.
Qed.

Lemma outlets_stops d w : after (sender_stops d) w (λ _ w', outlets w' = outlets w).
Proof.
  unfold sender_stops. apply after_bind. intros c w1 [Ec ->]%conn_run. apply after_bind, after_get.
  destruct (c_C c ≫= _) as [ch|]; [|by apply after_mret].
  destruct (try_recv ch) as [[x ch']|]; [|by apply after_mret]. destruct (c_sending c); [|by apply after_mret].
  apply after_bind. eapply after_weaken; [by apply (keeps_quM (w_conns w))|]. intros [] w2 E2.
  assert (outlets w2 = outlets w) as Eo by (unfold outlets; by rewrite E2).
  apply after_bind. intros [] w3 E3. injection E3 as <-. apply after_mret. rewrite outlets_put; [done|].
  rewrite Eo. cbn. by apply outlets_lookup.
Qed.

Lemma outlets_eq_outgoing w w' d : outlets w' = outlets w → sound w d → sound w' d ∧ outgoing w' d = outgoing w d.
Proof. intros E Hs. unfold sound, outgoing in *. by rewrite E. Qed.

Lemma step_outgoing d e s s' : sound (s_w s) d → takes d e → step e s = Some s' →
  sound (s_w s') d ∧ outgoing (s_w s') d = outgoing (s_w s) d ++ sends d e.
Proof.
  intros Hs Ht E.
  assert (∀ w, grown (s_w s) w → sound w d ∧ outgoing w d = outgoing (s_w s) d ++ []) as Hgrow.
  { intros w Hg. rewrite app_nil_r. by apply grown_outgoing. }
  destruct e as [|g rd id addrs st at_|g|d'| |g d' b|d' ok|d'|a st at_|d' at_|mtu]; cbn [step sends takes] in *; unfold on in E.
  - injection E as <-. by apply Hgrow, grown_same.
  - destruct (s_hs s !! g) as [[]|] eqn:Eg; try done. destruct (handle_turn _ _ _ _ _ _ _) as [[h w]|] eqn:Eh; [|done].
    injection E as <-. apply Hgrow. exact (grown_handle_turn _ _ _ _ _ _ _ _ _ Eh).
  - destruct (s_hs s !! g) as [h|] eqn:Eg; [|done]. cbn in E. destruct (handle_resume g h (s_w s)) as [[[h'|] w]|] eqn:Eh; try done.
    injection E as <-. apply Hgrow. exact (grown_handle_resume _ _ _ _ _ Eh).
  - unfold GetRecv in E. destruct ((conn d' ≫= _) (s_w s)) as [[r w]|] eqn:Eg; [|done].
    apply bind_inv in Eg as (c & w1 & [Ec ->]%conn_run & [= <- <-]). rewrite Ec in E.
    destruct (try_recv (ByteChan_Receive _)) as [[[x|] r']|]; try done. injection E as <-.
    apply Hgrow. exists 0%nat. rewrite app_nil_r. apply outlets_put. cbn. by apply outlets_lookup.
  - unfold Accept, mbind, GoM_bind, get, mret, GoM_ret in E. destruct (try_recv (l_newConns (s_w s))) as [[[x|] c']|]; try done.
    injection E as <-. by apply Hgrow, grown_same.
  - destruct (conn d' (s_w s)) as [[c w]|] eqn:Ec; [|done]. apply conn_run in Ec as [Ec ->].
    destruct (Duplex_Send g b (c_Transport c)) as [[o t]|] eqn:Es; [|done]. injection E as <-. by eapply outgoing_send.
  - destruct (sender_sends d' ok (s_w s)) as [[[] w]|] eqn:Es; try done. injection E as <-. rewrite app_nil_r. by eapply outgoing_sender.
  - destruct (sender_stops d' (s_w s)) as [[[] w]|] eqn:Es; try done. injection E as <-. rewrite app_nil_r.
    apply outlets_eq_outgoing; [|done]. exact (outlets_stops d' _ _ _ Es).
  - destruct (Dial a st at_ (s_w s)) as [[r w]|] eqn:Ed; [|done]. injection E as <-. apply Hgrow. exact (grown_Dial _ _ _ _ _ _ Ed).
  - destruct (DelConn d' at_ (s_w s)) as [[r w]|] eqn:Ed; [|done]. injection E as <-. apply Hgrow, grown_same.
    exact (keeps_DelConn (w_conns (s_w s)) d' at_ _ eq_refl _ _ Ed).
  - destruct (SetMTU mtu (s_w s)) as [[r w]|] eqn:Ed; [|done]. injection E as <-. apply Hgrow, grown_same.
    exact (keeps_SetMTU (w_conns (s_w s)) mtu _ eq_refl _ _ Ed).
Qed.

(** C29: What is sent on a connection is written to its stream in the order it was sent,
    the rest waiting, as long as the stream takes what it is given. *)
Theorem sent_in_order host mtu es s d c : run es (fresh host mtu) = Some s → Forall (takes d) es →
  w_conns (s_w s) !! d = Some c →
  es ≫= sends d = w_out (c_rw c) ++ (snd <$> pending (Sender (c_Transport c))).
Proof.
  intros E Ht Ec.
  assert (∀ es s0, sound (s_w s0) d → Forall (takes d) es → run es s0 = Some s →
            outgoing (s_w s) d = outgoing (s_w s0) d ++ (es ≫= sends d)) as Hrun.
  { clear. induction es as [|e es IH]; intros s0 Hs Ht E; cbn in *; [injection E as ->; by rewrite app_nil_r|].
    apply Forall_cons in Ht as [He Ht]. destruct (step e s0) as [s1|] eqn:E1; [|done].
    destruct (step_outgoing d e s0 s1 Hs He E1) as [Hs1 Eo]. rewrite (IH s1 Hs1 Ht E), Eo. by rewrite <- app_assoc. }
  specialize (Hrun es (fresh host mtu) I Ht E). unfold outgoing in Hrun at 1. rewrite (outlets_lookup _ _ _ Ec) in Hrun.
  by rewrite Hrun.
Qed.

(** After one write has failed nothing that is sent gets out any more, though it is
    taken from the channel as before. *)
Theorem nothing_after_failure d ok w c w' : w_conns w !! d = Some c → w_failed (c_rw c) = true →
  sender_sends d ok w = Ret (true, w') →
  ∃ c', w_conns w' !! d = Some c' ∧ c_rw c' = c_rw c ∧
        length (pending (Sender (c_Transport c))) = S (length (pending (Sender (c_Transport c')))).
Proof.
  intros Ec Hf E. unfold sender_sends in E. apply bind_inv in E as (c0 & w1 & [Ec0 ->]%conn_run & E).
  rewrite Ec in Ec0. injection Ec0 as <-.
  destruct (try_recv _) as [[[[g b]|] s]|] eqn:Er; try done. destruct (c_sending c); [|done].
  apply bind_inv in E as ([] & w2 & [= <-] & [= <-]). eexists. cbn. rewrite list_lookup_insert_eq by (by eapply lookup_lt_Some).
  split; [done|]. cbn. split; [unfold write_flush; by rewrite Hf|]. by rewrite (try_recv_pending _ _ _ Er).
Qed.

(** ** The map of connections *)

Lemma Lock_run w w' u : Lock w = Ret (u, w') → l_mx w = false ∧ w' = with_lmx true w.
Proof. unfold Lock. destruct (l_mx w) eqn:E; [done|]. by intros [= _ <-]. Qed.

Lemma register_run d w w' u : register d w = Ret (u, w') →
  ∃ c, w_conns w !! d = Some c ∧ l_mx w = false ∧
       w' = with_lmx false (with_connections (<[MaString (c_MultiAddr c) := d]> (l_connections w)) w).
Proof.
  unfold register. intros E. apply bind_inv in E as ([] & w1 & [Hl ->]%Lock_run & E).
  apply bind_inv in E as (c & w2 & [Ec ->]%conn_run & E). apply bind_inv in E as ([] & w3 & [= <-] & E).
  injection E as _ <-. by exists c.
Qed.

Lemma FindConn_run s w r w' : FindConn s w = Ret (r, w') → l_mx w = false ∧ r = l_connections w !! s ∧ w' = w.
Proof.
  unfold FindConn. intros E. apply bind_inv in E as ([] & w1 & [Hl ->]%Lock_run & E).
  apply bind_inv in E as (x & w2 & [= <- <-] & E). apply bind_inv in E as ([] & w3 & [= <-] & [= <- <-]).
  split; [done|]. split; [done|]. destruct w; cbn in *. by subst.
Qed.

Lemma FindConn_free s w : l_mx w = false → FindConn s w = Ret (l_connections w !! s, w).
Proof. intros E. destruct w; cbn in *. by subst. Qed.

Lemma deliver_map g d b w : after (deliver g d b) w (λ _ w', l_connections w' = l_connections w ∧ l_mx w' = l_mx w).
Proof.
  unfold deliver. apply after_bind. intros c w1 [Ec ->]%conn_run. apply after_bind, after_lift. intros [o r'] Es.
  apply after_bind. intros [] w2 [= <-]. by apply after_mret.
Qed.

Lemma quM_run {A} (m : Quit.QM A) w a w' : quM m w = Ret (a, w') → ∃ q, w' = with_qu q w.
Proof. unfold quM, mbind, Out_bind. destruct (m (w_qu w)) as [[b q]|]; [|done]. intros [= _ <-]. by exists q. Qed.

Lemma Dial_map s st at_ w d w' : Dial s st at_ w = Ret (Some d, w') →
  ∃ ma c, NewMultiaddr s = inl ma ∧ w_conns w' !! d = Some c ∧ c_MultiAddr c = ma ∧
          l_connections w' = <[s := d]> (l_connections w) ∧ l_mx w' = false.
Proof.
  unfold Dial. destruct (NewMultiaddr s) as [ma|]; [|done]. destruct (AddrInfoFromP2pAddr ma) as [[id addrs]|]; [|done].
  intros E. apply bind_inv in E as ([] & w1 & [= <-] & E). destruct st; [done|].
  apply bind_inv in E as (q & w2 & [q' ->]%quM_run & E). apply bind_inv in E as (d' & w3 & [= <- <-] & E).
  apply bind_inv in E as ([] & w4 & [Hl ->]%Lock_run & E). apply bind_inv in E as ([] & w5 & [= <-] & E).
  apply bind_inv in E as ([] & w6 & [= <-] & E). apply bind_inv in E as (x & w7 & [= <- <-] & E).
  apply bind_inv in E as (y & w8 & E8 & [= <- <-]).
  unfold lift, mbind, Out_bind in E8. destruct (GetHostOnlyFirstMultiaddr _); [|done]. injection E8 as _ <-.
  exists ma. eexists. split; [done|]. cbn. rewrite lookup_app_r, Nat.sub_diag by lia. by cbn.
Qed.

(** A stream keeps to its connection: once a chunk was found to belong to a
    connection, the next from the same peer goes there, too. *)
Theorem chunks_stick `{!AddressesLaws} g b id addrs st at_ st' at' w h w' d :
  routed w id addrs st at_ = Some d → handle_turn g (inl b) id addrs st at_ w = Ret (h, w') →
  routed w' id addrs st' at' = Some d.
Proof.
  intros Hr E. unfold handle_turn in E. apply bind_inv in E as (x & w1 & [= <- <-] & E).
  apply bind_inv in E as (y & w1 & Ey & E). assert (w1 = w) as ->.
  { unfold lift, mbind, Out_bind in Ey. destruct (GetHostFirstMultiaddr _); [by injection Ey|done]. }
  apply bind_inv in E as (nc & w1 & En & E). unfold routed in Hr. rewrite En in Hr. destruct nc as [[d0 new]|]; [|done].
  injection Hr as ->. unfold conn_for in En. apply bind_inv in En as (a0 & w2 & E0 & En).
  apply bind_inv in En as (ha & w3 & Eh & En). unfold lift, mbind, Out_bind in E0, Eh.
  destruct (goindex addrs 0) as [a1|] eqn:Ea; [|done]. injection E0 as -> <-.
  destruct (encapsulate a0 (p2p id)) as [ha1|] eqn:Ee; [|done]. injection Eh as -> <-.
  apply bind_inv in En as (nc & w4 & [Hl [-> ->]]%FindConn_run & En).
  assert (∀ w', l_connections w' !! MaString ha = Some d → l_mx w' = false → routed w' id addrs st' at' = Some d) as Hgo.
  { intros w2 Hm Hl2. unfold routed, conn_for. rewrite (bind_run _ _ w2 a0 w2) by (by rewrite Ea).
    rewrite (bind_run _ _ w2 ha w2) by (by rewrite Ee). rewrite (bind_run _ _ _ _ _ (FindConn_free _ _ Hl2)), Hm. done. }
  destruct (l_connections w !! MaString ha) as [d1|] eqn:Em.
  - injection En as <- <- <-. destruct (deliver_map _ _ _ _ _ _ E) as [E1 E2]. apply Hgo; congruence.
  - apply bind_inv in En as (nd & w5 & Ed & [= En <-]). destruct nd as [d1|]; [|done]. injection En as <- <-.
    destruct (Dial_map _ _ _ _ _ _ Ed) as (ma & c & Ep & Ec & Hc & Em5 & Hl5). rewrite multiaddr_text in Ep. injection Ep as <-.
    assert (∀ w6 o, AddConn d1 w5 = Ret (o, w6) → l_connections w6 !! MaString ha = Some d1 ∧ l_mx w6 = false) as Hadd.
    { intros w6 o Eadd. unfold AddConn in Eadd. apply bind_inv in Eadd as (z & w7 & [= <- <-] & Eadd).
      apply bind_inv in Eadd as ([r q] & w7 & Es & Eadd). unfold lift, mbind, Out_bind in Es.
      destruct (send d1 (l_newConns w5)) as [[r' q']|]; [|done]. injection Es as -> -> <-.
      apply bind_inv in Eadd as ([] & w8 & [= <-] & Eadd). destruct r.
      - apply bind_inv in Eadd as ([] & w9 & (c' & Ec' & _ & ->)%register_run & [= _ <-]). cbn in *.
        rewrite Ec in Ec'. injection Ec' as <-. rewrite Hc. split; [by rewrite lookup_insert_eq|done].
      - injection Eadd as _ <-. cbn. rewrite Em5, lookup_insert_eq. done. }
    apply bind_inv in E as (o & w6 & Eadd & E). destruct (Hadd _ _ Eadd) as [H6 H7]. destruct o.
    + destruct (deliver_map _ _ _ _ _ _ E) as [E1 E2]. apply Hgo; congruence.
    + injection E as _ <-. by apply Hgo.
Qed.

(** A connection that was dialled by another text than its address has, cannot be
    deleted: the attempt brings the program down. *)
Theorem alias_cannot_be_deleted text ma st at_ at' w d w' :
  NewMultiaddr text = inl ma → MaString ma ≠ text → l_connections w !! MaString ma = None →
  Dial text st at_ w = Ret (Some d, w') → DelConn d at' w' = Panic PNil.
Proof.
  intros Ep Hne Hm E. destruct (Dial_map _ _ _ _ _ _ E) as (ma' & c & Ep' & Ec & Hc & Em & Hl).
  rewrite Ep in Ep'. injection Ep' as <-. unfold DelConn, Lock. unfold mbind at 1, GoM_bind at 1. rewrite Hl.
  rewrite (bind_run _ _ _ c (with_lmx true w')) by (unfold conn; cbn; by rewrite Ec).
  rewrite (bind_run get _ _ (with_lmx true w') (with_lmx true w')) by done. cbn. rewrite Hc, Em, lookup_insert_ne by done. by rewrite Hm.
Qed.

(** Deleting a connection closes its quit channel, after which its sender stops. *)
Theorem DelConn_stops d at_ w c k ch :
  QuitProps.Inv (w_qu w) → l_mx w = false → w_conns w !! d = Some c →
  l_connections w !! MaString (c_MultiAddr c) = Some d → c_C c = Some k → chans (w_qu w) !! k = Some ch →
  pending ch = [] → c_sending c = true →
  ∃ w1 w2 c', DelConn d at_ w = Ret (tt, w1) ∧ l_connections w1 = delete (MaString (c_MultiAddr c)) (l_connections w) ∧
              sender_stops d w1 = Ret (true, w2) ∧ w_conns w2 !! d = Some c' ∧ c_sending c' = false.
Proof.
  intros Hq Hl Ec Em Ek Hk Hp Hs.
  destruct (Q_run (w_qu w) k ch at_ Hq Hk) as (p & EQ). destruct (proj1 (quit_spec ch) Hp) as [Hcl _].
  set (q' := Quit.with_printed p _) in EQ.
  assert (quM (Q (c_C c) at_) (with_lmx true w) = Ret (tt, with_qu q' (with_lmx true w))) as Eq.
  { unfold quM. cbn. rewrite Ek. unfold mbind, Out_bind. by rewrite EQ. }
  eexists. eexists. exists (with_sending false c). split; [|split; [|split]].
  - unfold DelConn, Lock. unfold mbind at 1, GoM_bind at 1. rewrite Hl.
    rewrite (bind_run _ _ _ c (with_lmx true w)) by (unfold conn; cbn; by rewrite Ec).
    rewrite (bind_run get _ _ (with_lmx true w) (with_lmx true w)) by done. cbn [l_connections with_lmx]. rewrite Em.
    rewrite (bind_run _ _ _ c (with_lmx true w)) by (unfold conn; cbn; by rewrite Ec).
    rewrite (bind_run _ _ _ _ _ Eq). reflexivity.
  - done.
  - unfold sender_stops. rewrite (bind_run _ _ _ c _) by (unfold conn; cbn; by rewrite Ec).
    rewrite (bind_run get _ _ _ _ eq_refl). rewrite Ek. cbn [option_bind mbind w_qu with_qu with_connections with_lmx].
    assert (chans q' !! k = Some (quit ch)) as Hk' by (cbn; apply list_lookup_insert_eq; by eapply lookup_lt_Some).
    match goal with |- context [match ?x with Some _ => _ | None => _ end] => replace x with (Some (quit ch)) by (symmetry; exact Hk') end.
    unfold quit. rewrite Hp. cbn [try_recv ch_buf ch_senders ch_closed]. rewrite Hs. reflexivity.
  - split; [|done]. cbn. apply list_lookup_insert_eq. by eapply lookup_lt_Some.
Qed.

(** A chunk from a peer the peer store has no address of brings the program down. *)
Theorem no_address_panics g b id st at_ w : ∃ p, handle_turn g (inl b) id [] st at_ w = Panic p.
Proof.
  unfold handle_turn. rewrite (bind_run get _ w w w) by done.
  destruct (GetHostFirstMultiaddr (l_Host w)) as [t|p] eqn:E.
  - exists PIndex. by rewrite (bind_run (lift (Ret t)) _ w t w) by done.
  - exists p. by apply bind_panic.
Qed.

(** ** Discovery *)

Lemma tick_peers_spec n self peers connected e c' e' : tick_peers n self peers connected e = (c', e') → NoDup connected →
  NoDup c' ∧ ∀ p, p ∈ c' ↔ p ∈ connected ∨ (p ∈ peers ∧ p ≠ self ∧ DialPeer n p = None).
Proof.
  revert connected e. induction peers as [|q peers IH]; intros connected e E Hn; cbn in E.
  { injection E as <- <-. split; [done|]. set_solver. }
  case_bool_decide as Hself.
  { destruct (IH _ _ E Hn) as [H1' H2']. split; [done|]. intros p. rewrite H2'. set_solver. }
  case_bool_decide as Hin.
  { destruct (IH _ _ E Hn) as [H1' H2']. split; [done|]. intros p. rewrite H2'. set_solver. }
  destruct (DialPeer n q) as [err|] eqn:Ed.
  - destruct (IH _ _ E Hn) as [H1' H2']. split; [done|]. intros p. rewrite H2', elem_of_cons.
    naive_solver.
  - destruct (IH _ _ E) as [H1' H2'].
    { apply NoDup_app. split; [done|]. split; [|apply NoDup_singleton]. intros x Hx ->%list_elem_of_singleton. done. }
    split; [done|]. intros p. rewrite H2', elem_of_app, list_elem_of_singleton, elem_of_cons.
    naive_solver.
Qed.

Lemma find_peers_last n l r ps peers : Forall (λ r, ∃ q, FindPeers n r = inl q) l → FindPeers n r = inl peers →
  find_peers n (l ++ [r]) ps = inl (Some peers).
Proof.
  intros Hl Hr. revert ps. induction l as [|x l IH]; intros ps; cbn; [by rewrite Hr|].
  apply Forall_cons in Hl as [[q Hq] Hl]. rewrite Hq. by apply IH.
Qed.

(** A tick connects to the peers of the last rendezvous that can be dialled, never
    to the node itself and never twice; those of the others are forgotten. *)
Theorem Tick_connects n self l r peers connected :
  Forall (λ r, ∃ q, FindPeers n r = inl q) l → FindPeers n r = inl peers → NoDup connected →
  ∃ c' e, Tick n self (l ++ [r]) connected = Ret (c', e) ∧ NoDup c' ∧
          ∀ p, p ∈ c' ↔ p ∈ connected ∨ (p ∈ peers ∧ p ≠ self ∧ DialPeer n p = None).
Proof.
  intros Hl Hr Hn. unfold Tick. rewrite (find_peers_last _ _ _ _ _ Hl Hr).
  destruct (tick_peers n self peers connected None) as [c' e] eqn:E. exists c', e. split; [done|].
  by eapply tick_peers_spec.
Qed.

(** A node without rendezvous points never gets past the first tick, whatever it is
    told afterwards. *)
Theorem Discover_waits n ws self connected : Discover n ws self [] connected = Panic PBlock.
Proof. done. Qed.

(** ** The simulated connection *)

(** The forwarder with number [self], the duplex, what was sent and what was taken. *)
Inductive sim (self : nat) : forwarder * DuplexByteChan * list bytes * list bytes → forwarder * DuplexByteChan * list bytes * list bytes → Prop :=
| sim_send f d snt tkn g b o d' : Duplex_Send g b d = Ret (o, d') → sim self (f, d, snt, tkn) (f, d', snt ++ [b], tkn)
| sim_take f d snt tkn x r : try_recv (Duplex_Receive d) = Some (Some x, r) →
    sim self (f, d, snt, tkn) (f, MkDuplex r (Sender d), snt, tkn ++ [x.2])
| sim_forward f d snt tkn done f' d' : forward self done f d = Some (Ret (f', d')) → sim self (f, d, snt, tkn) (f', d', snt, tkn).

Definition sim_start (bufs : nat) : forwarder * DuplexByteChan * list bytes * list bytes := (Forwards, NewDuplexByteChan bufs, [], []).

Definition sim_inv (c : forwarder * DuplexByteChan * list bytes * list bytes) : Prop :=
  let '(f, d, snt, tkn) := c in
  chan_ok (Receiver d) ∧ chan_ok (Sender d) ∧ ch_receivers (Receiver d) = 0%nat ∧ ch_receivers (Sender d) = 0%nat ∧
  snt = tkn ++ (snd <$> pending (Receiver d)) ++ (snd <$> pending (Sender d)).

Lemma sim_step self c c' : sim_inv c → sim self c c' → sim_inv c'.
Proof.
  intros HI Hs. destruct Hs as [f d snt tkn g b o d' E|f d snt tkn x r E|f d snt tkn fin f' d' E]; destruct HI as (Ho & Ho' & Hr & Hr' & ->).
  - unfold Duplex_Send in E. destruct (ByteChan_Send g b (Sender d)) as [[o' s]|] eqn:Es; [|done]. injection E as <- <-.
    cbn. split; [done|]. split; [exact (send_ok _ _ _ _ Ho' Es)|]. split; [done|]. split; [exact (send_receivers _ _ _ _ Es Hr')|].
    rewrite (send_pending _ _ _ _ Es Hr' Ho'), fmap_app. by rewrite <- !app_assoc.
  - cbn in *. unfold Duplex_Receive, ByteChan_Receive in E. split; [exact (try_recv_ok _ _ _ Ho E)|]. split; [done|].
    split; [by rewrite (try_recv_receivers _ _ _ E)|]. split; [done|].
    rewrite (try_recv_pending _ _ _ E). cbn. by rewrite <- app_assoc.
  - destruct f; cbn in E; try done.
    + destruct fin; [by injection E as <- <-|]. destruct (try_recv (Sender d)) as [[[[g b]|] s]|] eqn:Er; try done.
      injection E as E. destruct (ByteChan_Send self b (Receiver d)) as [[o rc]|] eqn:Es; [|done].
      cbn in E. injection E as <- <-. cbn. split; [exact (send_ok _ _ _ _ Ho Es)|]. split; [exact (try_recv_ok _ _ _ Ho' Er)|].
      split; [exact (send_receivers _ _ _ _ Es Hr)|]. split; [by rewrite (try_recv_receivers _ _ _ Er)|].
      rewrite (try_recv_pending _ _ _ Er), (send_pending _ _ _ _ Es Hr Ho), fmap_app. cbn. by rewrite <- app_assoc.
    + case_bool_decide; [done|]. by injection E as <- <-.
Qed.

(** The simulated connection loses nothing and keeps the order. *)
Theorem sim_duplex_fifo self bufs f d snt tkn : rtc (sim self) (sim_start bufs) (f, d, snt, tkn) →
  snt = tkn ++ (snd <$> pending (Receiver d)) ++ (snd <$> pending (Sender d)).
Proof.
  intros Hr. assert (sim_inv (f, d, snt, tkn)) as HI; [|apply HI].
  assert (sim_inv (sim_start bufs)) as H0' by (cbn; repeat split; try apply make_ok; done).
  remember (sim_start bufs) as c0 eqn:E. clear E. remember (f, d, snt, tkn) as c eqn:E. clear E.
  induction Hr; [done|]. eauto using sim_step.
Qed.
End Props.

(** ** Concrete runs *)

Module Demo.
#[local] Existing Instances Toy.crypto Toy.multiaddrs.

Definition text (s : string) : @Multiaddr Toy.multiaddrs := String.list_byte_of_string s.

(** Addresses are their text, but for one alias. *)
#[local] Instance addresses : @Addresses Toy.multiaddrs := {|
  NewMultiaddr := λ s, inl (text s);
  MaString := λ a : @Multiaddr Toy.multiaddrs, String.string_of_list_byte (a : bytes);
  AddrInfoFromP2pAddr := λ a, inl ("peer", [a]);
|}.

#[local] Instance laws : @AddressesLaws Toy.multiaddrs addresses.
Proof. constructor. intros a. apply (f_equal inl (String.list_byte_of_string_of_list_byte a)). Qed.

Definition aliases : @Addresses Toy.multiaddrs := {|
  NewMultiaddr := λ s, inl (text (if String.eqb s "/ipfs/x" then "/p2p/x" else s));
  MaString := λ a : @Multiaddr Toy.multiaddrs, String.string_of_list_byte (a : bytes);
  AddrInfoFromP2pAddr := λ a, inl ("peer", [a]);
|}.

Definition host : @Host Toy.multiaddrs := MkHost "me" [text "/ip4/1.2.3.4"].
Definition init : Sys := fresh host DefaultMTU.
Definition from_peer (b : string) : event := ReadsChunk 0 (inl (text b)) "peer" [text "/ip4/5.6.7.8"] None "listener.go:201".

(** Two chunks from one peer, of which one is taken; a message sent and written. *)
Definition es : list event :=
  [NewStream; from_peer "one"; from_peer "two"; AppAccepts; AppReceives 0; AppSends 7 0 (text "out"); SenderSends 0 true; AppSends 7 0 (text "next")].

Definition final : Sys := default init (run es init).

Lemma final_run : run es init = Some final.
Proof.
  assert (match run es init with Some _ => true | None => false end = true) as E by (vm_compute; reflexivity).
  unfold final. destruct (run es init) as [s|]; [reflexivity|discriminate E].
Qed.

Lemma run_rtc es s s' : run es s = Some s' → rtc steps s s'.
Proof.
  revert s. induction es as [|e es IH]; intros s E; cbn in E; [injection E as ->; apply rtc_refl|].
  destruct (step e s) as [s1|] eqn:Es; [|done]. eapply rtc_l; [by exists e|by apply IH].
Qed.

Definition world_after (m : Out (option nat * @World Toy.crypto Toy.multiaddrs)) : World :=
  match m with Ret (_, w) => w | Panic _ => s_w init end.

(** A network that finds the peers a and b and the node itself, and cannot dial b. *)
Definition net : @Net Toy.multiaddrs :=
  MkNet (λ _, inl ["a"; "b"; "me"]) (λ p, if String.eqb p "b" then Some (Errorf "refused" []) else None)
    (λ _, inl []) (λ _, inl []) (λ _, None).

End Demo.

#[local] Existing Instances Toy.crypto Toy.multiaddrs Demo.addresses Demo.laws.

Lemma chunks_in_order_witness :
  routed_to 0 0 (s_log Demo.final) = Demo.text <$> ["one"; "two"] ∧
  tagged 0 (taken_from 0 (s_taken Demo.final)) = [Demo.text "one"].
Proof.
  pose proof (chunks_in_order Demo.host DefaultMTU Demo.final 0 0 (Demo.run_rtc _ _ _ Demo.final_run)) as E.
  split; [|vm_compute; reflexivity]. rewrite E. vm_compute. reflexivity.
Defined.

Lemma sent_in_order_witness :
  ∃ c, w_conns (s_w Demo.final) !! 0%nat = Some c ∧
       Demo.text <$> ["out"; "next"] = w_out (c_rw c) ++ (snd <$> pending (Sender (c_Transport c))).
Proof.
  assert (match w_conns (s_w Demo.final) !! 0%nat with Some _ => true | None => false end = true) as Hc by (vm_compute; reflexivity).
  destruct (w_conns (s_w Demo.final) !! 0%nat) as [c|] eqn:Ec; [|discriminate Hc].
  exists c. split; [reflexivity|].
  rewrite <- (sent_in_order Demo.host DefaultMTU Demo.es Demo.final 0 c Demo.final_run); [reflexivity| |exact Ec].
  repeat constructor; cbn; done.
Defined.

Lemma chunks_stick_witness :
  ∃ h w, handle_turn 0 (inl (Demo.text "one")) "peer" [Demo.text "/ip4/5.6.7.8"] None "a" (s_w Demo.init) = Ret (h, w) ∧
         routed w "peer" [Demo.text "/ip4/5.6.7.8"] None "b" = Some 0%nat.
Proof.
  assert (match handle_turn 0 (inl (Demo.text "one")) "peer" [Demo.text "/ip4/5.6.7.8"] None "a" (s_w Demo.init) with Ret _ => true | _ => false end = true)
    as Hr by (vm_compute; reflexivity).
  destruct (handle_turn 0 (inl (Demo.text "one")) "peer" [Demo.text "/ip4/5.6.7.8"] None "a" (s_w Demo.init)) as [[h w]|] eqn:E; [|discriminate Hr].
  exists h, w. split; [reflexivity|]. eapply (chunks_stick (H2 := Demo.laws) _ _ _ _ _ _ _ _ _ _ _ _ _ E).
  Unshelve. vm_compute. reflexivity.
Defined.

Lemma alias_cannot_be_deleted_witness :
  DelConn (H1 := Demo.aliases) 0 "c" (Demo.world_after (Dial (H1 := Demo.aliases) "/ipfs/x" None "a" (s_w Demo.init))) = Panic PNil.
Proof.
  assert (match Dial (H1 := Demo.aliases) "/ipfs/x" None "a" (s_w Demo.init) with Ret (Some d, _) => Some d | _ => None end = Some 0%nat)
    as Hd by (vm_compute; reflexivity).
  destruct (Dial (H1 := Demo.aliases) "/ipfs/x" None "a" (s_w Demo.init)) as [[[d|] w]|] eqn:E; try discriminate Hd.
  injection Hd as ->.
  refine (alias_cannot_be_deleted (H1 := Demo.aliases) "/ipfs/x" _ None "a" "c" (s_w Demo.init) 0 w eq_refl _ eq_refl E).
  vm_compute. discriminate.
Defined.

Lemma Tick_connects_witness :
  ∃ c' e, Tick Demo.net "me" [Demo.text "/dns4/seed"] ["z"] = Ret (c', e) ∧ "a" ∈ c' ∧ "b" ∉ c'.
Proof.
  destruct (Tick_connects Demo.net "me" [] (Demo.text "/dns4/seed") ["a"; "b"; "me"] ["z"]) as (c' & e & E & _ & Hc);
    [constructor|reflexivity|by apply NoDup_singleton|].
  exists c', e. split; [exact E|]. rewrite !Hc. split; [right; repeat split; [left|discriminate]|].
  intros [Hz|(_ & _ & Hd)]; [by apply list_elem_of_singleton in Hz|discriminate Hd].
Defined.

Lemma sim_duplex_fifo_witness :
  ∃ d, rtc (sim 9) (sim_start 4) (Forwards, d, Demo.text <$> ["a"; "b"], [Demo.text "a"]) ∧
       (snd <$> pending (Receiver d)) ++ (snd <$> pending (Sender d)) = [Demo.text "b"].
Proof.
  assert (∃ d, rtc (sim 9) (sim_start 4) (Forwards, d, Demo.text <$> ["a"; "b"], [Demo.text "a"])) as [d Hr].
  { eexists. eapply rtc_l; [eapply (sim_send 9 _ _ _ _ 1 (Demo.text "a")); reflexivity|].
    eapply rtc_l; [eapply (sim_forward 9 _ _ _ _ false); reflexivity|].
    eapply rtc_l; [eapply sim_take; reflexivity|].
    eapply rtc_l; [eapply (sim_send 9 _ _ _ _ 1 (Demo.text "b")); reflexivity|]. apply rtc_refl. }
  exists d. split; [exact Hr|]. pose proof (sim_duplex_fifo 9 4 _ _ _ _ Hr) as E. exact (eq_sym (f_equal (drop 1) E)).
Defined.
