(* ===== verification/Splicer.v ===== *)
(** * Containers of serialised values

    Models [pkg/splicer] and its value types [i32], [t64] and [magic].  Slices
    are views of arrays in a store, because [NewFrom] and [Container.Get] hand
    out windows of their input, [Time.Write] copies into the array it holds and
    [i32.Put] writes through to it.  The values themselves live in a heap. *)

From S2P Require Export Prelude.

(** ** encoding/binary, big endian *)

Definition be_put (n : nat) (z : Z) : bytes := rev (le_put n z).
Definition be_get (l : bytes) : Z := le_get (rev l).

(** ** Byte slices over a store of arrays *)

Record slc := MkSlc { sl_arr : nat; sl_off : nat; sl_len : nat; sl_cap : nat }.
(** [None] is the nil slice. *)
Abbreviation gslice := (option slc).

Inductive obj := OI32 (b : gslice) | OTime (b : gslice) | OMagic (b : gslice).

Record Mem := MkMem { m_arrays : list bytes; m_objs : list obj }.

Abbreviation SM := (GoM Mem).

Definition blen (b : gslice) : Z := match b with Some s => Z.of_nat (sl_len s) | None => 0 end.

Definition view (m : Mem) (b : gslice) : bytes :=
  match b with
  | Some s => take (sl_len s) (drop (sl_off s) (nth (sl_arr s) (m_arrays m) []))
  | None => []
  end.

Definition elems (b : gslice) : SM bytes := λ m, Ret (view m b, m).

Definition alloc (l : bytes) : SM gslice := λ m,
  Ret (Some (MkSlc (length (m_arrays m)) 0 (length l) (length l)), MkMem (m_arrays m ++ [l]) (m_objs m)).

(** [b[lo:hi]], within the capacity. *)
Definition sub (b : gslice) (lo hi : Z) : SM gslice :=
  match b with
  | Some s =>
      if bool_decide (0 ≤ lo ≤ hi ∧ hi ≤ Z.of_nat (sl_cap s))
      then mret (Some (MkSlc (sl_arr s) (sl_off s + Z.to_nat lo) (Z.to_nat (hi - lo)) (sl_cap s - Z.to_nat lo)))
      else panicM PSlice
  | None => if bool_decide (lo = 0 ∧ hi = 0) then mret None else panicM PSlice
  end.

(** Write [src], no longer than [b], to the front of [b]. *)
Definition store (b : gslice) (src : bytes) : SM unit := λ m,
  match b with
  | Some s => Ret (tt, MkMem (alter (overlay (sl_off s) src) (sl_arr s) (m_arrays m)) (m_objs m))
  | None => Ret (tt, m)
  end.

Definition new_obj (o : obj) : SM nat := λ m,
  Ret (length (m_objs m), MkMem (m_arrays m) (m_objs m ++ [o])).
Definition set_obj (p : nat) (o : obj) : SM unit := λ m, Ret (tt, MkMem (m_arrays m) (<[p := o]> (m_objs m))).

(** [binary.BigEndian.Uint32(b)] and its kin look at the last byte first. *)
Definition Uint (n : nat) (b : bytes) : SM Z :=
  if bool_decide (n ≤ length b)%nat then mret (be_get (take n b)) else panicM PIndex.
Definition PutUint (n : nat) (b : gslice) (v : Z) : SM unit :=
  if bool_decide (Z.of_nat n ≤ blen b) then store b (be_put n v) else panicM PIndex.

(** The dynamic values the accessors meet.  A pointer to an integer, a time or a
    string is its target, [None] for nil; a time is its wall clock in seconds. *)
Inductive any :=
| ANil
| AInt32 (p : option Z)
| ATime (p : option Z)
| AString (p : option bytes)
| AS (p : option nat)
| AT (p : option nat)
| AM (p : option nat)
| AOther.

Definition target {A} (p : option A) : SM A := match p with Some a => mret a | None => panicM PNil end.

(** [NewFrom] of each package: a window of the input and what follows it. *)
Definition newFrom (Len : Z) (mk : gslice → obj) (b : gslice) : SM (option nat * gslice) :=
  if bool_decide (blen b < Len) then mret (None, None)
  else
    h ← sub b 0 Len;
    s ← new_obj (mk h);
    if bool_decide (blen b > Len) then (rem ← sub b Len (blen b); mret (Some s, rem))
    else mret (Some s, None).

(** ** A signed integer of four bytes *)

Module I32.

Definition Len : Z := 4.

(** The field [b]; a nil receiver is dereferenced. *)
Definition field (p : option nat) : SM (nat * gslice) := λ m,
  match p ≫= λ q, pair q <$> m_objs m !! q with
  | Some (q, OI32 b) => Ret ((q, b), m)
  | _ => Panic PNil
  end.

Definition New : SM (option nat) := b ← alloc (replicate 4 x00); s ← new_obj (OI32 b); mret (Some s).

Definition NewFrom (b : gslice) : SM (option nat * gslice) := newFrom Len OI32 b.

Definition Read (p : option nat) : SM gslice :=
  '(_, b) ← field p;
  if bool_decide (blen b >= Len) then sub b 0 Len else mret None.

Definition Write (p : option nat) (by_ : gslice) : SM gslice :=
  if bool_decide (blen by_ >= Len) then
    '(s, _) ← field p;
    l ← elems by_;
    b ← alloc (take 4 l);
    set_obj s (OI32 b) ;;
    if bool_decide (blen by_ > Len) then sub by_ Len (blen by_) else mret None
  else mret None.

Definition Length (p : option nat) : SM Z := '(_, b) ← field p; mret (blen b).

Definition Get (p : option nat) : SM any :=
  '(_, b) ← field p;
  if bool_decide (blen b >= Len) then
    l ← elems b;
    v ← Uint 4 l;
    mret (AInt32 (Some (wraps 32 v)))
  else mret ANil.

Definition Put (p : option nat) (v : any) : SM any :=
  '(s, b) ← field p;
  (if bool_decide (blen b < Len) then b' ← alloc (replicate 4 x00); set_obj s (OI32 b') else mret tt) ;;
  match v with
  | AInt32 tv =>
      '(_, b) ← field p;
      h ← sub b 0 Len;
      t ← target tv;
      PutUint 4 h (wrapu 32 t) ;;
      mret (AS p)
  | _ => mret (AS p)
  end.

(** The pointer to the integer, nil on any other type. *)
Definition Assert (v : any) : SM (option Z) :=
  match v with
  | AS tv => tt_ ← Get tv; mret (match tt_ with AInt32 t => t | _ => None end)
  | _ => mret None
  end.

End I32.

(** ** A time in seconds, eight bytes *)

Module T64.

Definition Len : Z := 8.

Definition field (p : option nat) : SM (nat * gslice) := λ m,
  match p ≫= λ q, pair q <$> m_objs m !! q with
  | Some (q, OTime b) => Ret ((q, b), m)
  | _ => Panic PNil
  end.

Definition New : SM (option nat) := b ← alloc (replicate 8 x00); s ← new_obj (OTime b); mret (Some s).

Definition NewFrom (b : gslice) : SM (option nat * gslice) := newFrom Len OTime b.

Definition Read (p : option nat) : SM gslice :=
  '(_, b) ← field p;
  if bool_decide (blen b >= Len) then sub b 0 Len else mret None.

Definition Write (p : option nat) (by_ : gslice) : SM gslice :=
  if bool_decide (blen by_ >= Len) then
    '(s, b) ← field p;
    h ← sub by_ 0 Len;
    (if bool_decide (blen b >= Len) then l ← elems h; store b l else set_obj s (OTime h)) ;;
    sub by_ Len (blen by_)
  else mret None.

Definition Length (p : option nat) : SM Z := '(_, b) ← field p; mret (blen b).

Definition Get (p : option nat) : SM any :=
  '(_, b) ← field p;
  if bool_decide (blen b >= Len) then
    l ← elems b;
    t ← Uint 8 (take 8 l);
    mret (ATime (Some (wraps 64 t)))
  else mret ANil.

Definition Put (p : option nat) (v : any) : SM any :=
  match v with
  | ATime tv =>
      '(_, b) ← field p;
      t ← target tv;
      PutUint 8 b (wrapu 64 t) ;;
      mret (AT p)
  | _ => mret (AT p)
  end.

Definition Assert (v : any) : SM (option Z) :=
  match v with
  | AT tv => tt_ ← Get tv; mret (match tt_ with ATime t => t | _ => None end)
  | _ => mret None
  end.

End T64.

(** ** Four characters that name a type *)

Module Magic.

Definition Len : Z := 4.

(** Every method has a value receiver: it works on a copy of the struct, and
    calling it through a nil pointer panics. *)
Definition copy_of (p : option nat) : SM gslice := λ m,
  match p ≫= λ q, m_objs m !! q with
  | Some (OMagic b) => Ret (b, m)
  | _ => Panic PNil
  end.

Definition New : SM (option nat) := b ← alloc (replicate 4 x00); s ← new_obj (OMagic b); mret (Some s).

Definition NewFrom (b : gslice) : SM (option nat * gslice) := newFrom Len OMagic b.

Definition Length (p : option nat) : SM Z := b ← copy_of p; mret (blen b).

Definition Read (p : option nat) : SM gslice :=
  b ← copy_of p;
  if bool_decide (blen b >= Len) then sub b 0 Len else mret None.

(** The assignment to the field of the copy is lost when the method returns. *)
Definition Write (p : option nat) (b : gslice) : SM gslice :=
  _ ← copy_of p;
  if bool_decide (blen b >= Len) then
    _ ← sub b 0 3;
    if bool_decide (blen b > Len) then sub b Len (blen b) else mret None
  else mret None.

Definition Get (p : option nat) : SM any :=
  b ← copy_of p;
  if bool_decide (blen b >= Len) then
    h ← sub b 0 Len;
    l ← elems h;
    mret (AString (Some l))
  else mret ANil.

Definition Put (p : option nat) (v : any) : SM any :=
  _ ← copy_of p;
  match v with
  | AString tv =>
      s ← target tv;
      _ ← alloc s;
      mret ANil
  | _ => mret ANil
  end.

Definition Assert (v : any) : SM (option bytes) :=
  match v with
  | AM tv => tt_ ← Get tv; mret (match tt_ with AString t => t | _ => None end)
  | _ => mret None
  end.

End Magic.

(** ** Containers *)

(** The interface value: its dynamic type and pointer, [SNil] for nil. *)
Inductive Splice := SNil | SI32 (p : option nat) | STime (p : option nat) | SMagic (p : option nat).

Definition Read (s : Splice) : SM gslice :=
  match s with
  | SNil => panicM PNil
  | SI32 p => I32.Read p
  | STime p => T64.Read p
  | SMagic p => Magic.Read p
  end.

Abbreviation Serializers := (list Splice).

(** The fields of all serializers, each with its offset, and the total size. *)
Record Gather := MkGather { g_offset : Z; g_length : Z; g_nodes : list Z; g_data : bytes }.

Fixpoint gather (srs : Serializers) (g : Gather) : SM Gather :=
  match srs with
  | [] => mret g
  | s :: srs =>
      r ← Read s;
      b ← elems r;
      gather srs (MkGather (wrapu 32 (g_offset g + wrapu 32 (zlen b))) (wrapu 16 (g_length g + 1))
                    (g_nodes g ++ [g_offset g]) (g_data g ++ b))
  end.

(** The count and the table of offsets. *)
Definition node_table (length_ start : Z) (nodes : list Z) : bytes :=
  be_put 2 length_ ++ concat ((λ n, be_put 4 (wrapu 32 (n + start))) <$> nodes).

(** A container is a pointer to its data, [None] for the nil pointer. *)
Definition CreateContainer (srs : Serializers) (magic : bytes) : SM (option gslice) :=
  if bool_decide (zlen magic ≠ 4) then mret None
  else
    g ← gather srs (MkGather 0 0 [] []);
    let tlen := wrapu 32 (zlen (g_nodes g) * 4 + 2) in
    let start := wrapu 32 (tlen + 8) in
    let size := wrapu 32 (wrapu 32 (g_offset g + tlen) + 8) in
    d ← alloc (magic ++ be_put 4 size ++ node_table (g_length g) start (g_nodes g) ++ g_data g);
    mret (Some d).

Definition Data (c : option gslice) : SM gslice := match c with Some d => mret d | None => panicM PNil end.

(** The big-endian integer at [lo:hi] of the data. *)
Definition word (d : gslice) (n : nat) (lo hi : Z) : SM Z :=
  w ← sub d lo hi;
  l ← elems w;
  Uint n l.

Definition Count (c : option gslice) : SM Z :=
  d ← Data c;
  size ← word d 4 4 8;
  if bool_decide (blen d >= size) then word d 2 8 10 else mret 0.

Definition GetMagic (c : option gslice) : SM bytes :=
  d ← Data c;
  h ← sub d 0 4;
  elems h.

(** The index arithmetic is on 16 bits. *)
Definition Get (c : option gslice) (idx : Z) : SM gslice :=
  length_ ← Count c;
  d ← Data c;
  if bool_decide (length_ > idx) then
    offset ← word d 4 (wrapu 16 (10 + idx * 4)) (wrapu 16 (10 + idx * 4 + 4));
    if bool_decide (idx < wrapu 16 (length_ - 1)) then
      nextOffset ← word d 4 (wrapu 16 (10 + (idx + 1) * 4)) (wrapu 16 (10 + (idx + 1) * 4 + 4));
      sub d offset nextOffset
    else sub d offset (blen d)
  else mret None.
