(* ===== verification/SplicerProps.v ===== *)
(** * What containers of serialised values keep

    Everything put into a container is read back, as long as the table of
    offsets stays within what 16-bit arithmetic can reach; the values [i32] and
    [t64] read back what was put; [magic] stores nothing. *)

From S2P Require Export Splicer.

(** ** Big-endian integers *)

Lemma length_be_put n z : length (be_put n z) = n.
Proof. unfold be_put. by rewrite length_rev, length_le_put. Qed.
#[export] Hint Rewrite length_be_put : golib.

Lemma be_get_put n z : be_get (be_put n z) = z `mod` 256 ^ Z.of_nat n.
Proof. unfold be_get, be_put. by rewrite rev_involutive, le_get_put. Qed.

Lemma be_get_range l : 0 ≤ be_get l < 256 ^ zlen l.
Proof. unfold be_get, zlen. rewrite <- length_rev. apply le_get_range. Qed.

(** ** Views *)

(** A slice lies inside its array. *)
Definition valid (m : Mem) (b : gslice) : Prop :=
  match b with
  | Some s => (sl_len s ≤ sl_cap s)%nat ∧ (sl_off s + sl_cap s ≤ length (nth (sl_arr s) (m_arrays m) []))%nat
              ∧ (sl_arr s < length (m_arrays m))%nat
  | None => True
  end.

Lemma length_view m b : valid m b → zlen (view m b) = blen b.
Proof.
  destruct b as [s|]; [|done]. intros (H1 & H2 & H3). unfold zlen, blen. cbn [view].
  rewrite length_take, length_drop. lia.
Qed.

Lemma sub_run m b lo hi : valid m b → 0 ≤ lo ≤ hi → hi ≤ blen b →
  ∃ w, sub b lo hi m = Ret (w, m) ∧ valid m w ∧ blen w = hi - lo
       ∧ view m w = take (Z.to_nat (hi - lo)) (drop (Z.to_nat lo) (view m b)).
Proof.
  intros Hv Hlo Hhi. unfold sub. destruct b as [s|]; cycle 1.
  { cbn in Hhi. rewrite bool_decide_true by lia. exists None. repeat split; [cbn; lia|].
    cbn. by rewrite drop_nil, take_nil. }
  destruct Hv as (H1 & H2 & H3). cbn [blen] in Hhi. rewrite bool_decide_true by lia.
  eexists. split; [done|]. cbn [valid sl_len sl_cap sl_off sl_arr blen view].
  split; [repeat split; lia|]. split; [lia|].
  rewrite skipn_firstn_comm, take_take, drop_drop. f_equal. lia.
Qed.

(** A freshly allocated slice shows what was put into it. *)
Lemma alloc_run m l : ∃ d m', alloc l m = Ret (d, m') ∧ valid m' d ∧ blen d = zlen l ∧ view m' d = l.
Proof.
  eexists _, _. split; [reflexivity|]. cbn [valid sl_len sl_cap sl_off sl_arr m_arrays blen view].
  rewrite nth_middle, length_app. cbn [length]. split; [lia|]. split; [done|].
  by rewrite drop_0, firstn_all.
Qed.

Lemma word_run m d n lo hi : valid m d → 0 ≤ lo → hi = lo + Z.of_nat n → hi ≤ blen d →
  word d n lo hi m = Ret (be_get (take n (drop (Z.to_nat lo) (view m d))), m).
Proof.
  intros Hv Hlo -> Hhi. unfold word.
  destruct (sub_run m d lo (lo + Z.of_nat n) Hv ltac:(lia) Hhi) as (w & E & Hw & Hl & Ev).
  rewrite (bind_run _ _ _ _ _ E). rewrite (bind_run (elems w) _ m (view m w) m) by done. unfold Uint.
  pose proof (length_view m w Hw) as Hlv. unfold zlen in Hlv.
  rewrite bool_decide_true by lia. rewrite Ev, take_take.
  by replace (n `min` _)%nat with n by lia.
Qed.

(** A piece of a list at a known place. *)
Lemma piece {A} (a b c : list A) lo n : lo = zlen a → n = length b → take n (drop (Z.to_nat lo) (a ++ b ++ c)) = b.
Proof. intros -> ->. unfold zlen. by rewrite Nat2Z.id, drop_app_length, take_app_length. Qed.

(** ** The layout of a container *)

(** The offsets of consecutive fields, the first at [o]. *)
Fixpoint offsets (o : Z) (fields : list bytes) : list Z :=
  match fields with
  | [] => []
  | f :: fields => o :: offsets (o + zlen f) fields
  end.

Lemma length_offsets o fields : length (offsets o fields) = length fields.
Proof. revert o; induction fields; intros; cbn; auto. Qed.

Lemma offsets_lookup fields i f o : fields !! i = Some f →
  offsets o fields !! i = Some (o + zlen (concat (take i fields))).
Proof.
  revert i o; induction fields as [|g fields IH]; intros [|i] o Hf; cbn in *; [done|done| |].
  - f_equal. unfold zlen. cbn. lia.
  - rewrite (IH i _ Hf). f_equal. unfold zlen. rewrite length_app. lia.
Qed.

Lemma concat_take_le (fields : list bytes) i : zlen (concat (take i fields)) ≤ zlen (concat fields).
Proof.
  rewrite <- (take_drop i fields) at 2. rewrite concat_app, zlen_app.
  pose proof (zlen_nonneg (concat (drop i fields))). lia.
Qed.

(** What a serializer hands to a container. *)
Definition shows (m : Mem) (s : Splice) (f : bytes) : Prop := ∃ r, Read s m = Ret (r, m) ∧ view m r = f.

Lemma gather_fields m srs fields off len nodes data :
  Forall2 (shows m) srs fields → 0 ≤ off → off + zlen (concat fields) < 2 ^ 32 →
  0 ≤ len → len + zlen srs < 2 ^ 16 →
  gather srs (MkGather off len nodes data) m
  = Ret (MkGather (off + zlen (concat fields)) (len + zlen srs) (nodes ++ offsets off fields) (data ++ concat fields), m).
Proof.
  intros HF. revert off len nodes data.
  induction HF as [|s f srs fields (r & Er & <-) HF IH]; intros off len nodes data H0 H1 H2 H3.
  { cbn. unfold zlen. cbn. by rewrite !Z.add_0_r, !app_nil_r. }
  set (f := view m r) in *.
  cbn [concat offsets gather] in *. rewrite zlen_app in H1.
  pose proof (zlen_nonneg f). pose proof (zlen_nonneg (concat fields)). pose proof (zlen_nonneg srs).
  assert (zlen (s :: srs) = 1 + zlen srs) as Hs by (unfold zlen; cbn [length]; lia). rewrite Hs in *.
  rewrite (bind_run _ _ _ _ _ Er). unfold elems, mbind, GoM_bind. cbn [g_offset g_length g_nodes g_data]. fold f.
  rewrite !(wrapu_small 32) by (rewrite ?(wrapu_small 32); lia). rewrite wrapu_small by lia.
  rewrite IH by lia. rewrite zlen_app, <- !app_assoc. do 3 f_equal; lia.
Qed.

Lemma zlen_be_put n z : zlen (be_put n z) = Z.of_nat n.
Proof. unfold zlen. by rewrite length_be_put. Qed.

Lemma zlen_offsets o fields : zlen (offsets o fields) = zlen fields.
Proof. unfold zlen. by rewrite length_offsets. Qed.

(** The bytes of a container. *)
Definition layout (magic : bytes) (fields : list bytes) : bytes :=
  let n := zlen fields in
  magic ++ be_put 4 (10 + 4 * n + zlen (concat fields)) ++ be_put 2 n
  ++ concat ((λ o, be_put 4 (o + (10 + 4 * n))) <$> offsets 0 fields) ++ concat fields.

Lemma zlen_table (l : list Z) g : zlen (concat ((λ o, be_put 4 (g o)) <$> l)) = 4 * zlen l.
Proof.
  induction l as [|o l IH]; [done|]. rewrite fmap_cons. cbn [concat]. rewrite zlen_app, IH.
  unfold zlen. rewrite length_be_put. cbn [length]. lia.
Qed.

Lemma table_wraps (fields : list bytes) o start : 0 ≤ o → 0 ≤ start → o + zlen (concat fields) + start < 2 ^ 32 →
  (λ n, be_put 4 (wrapu 32 (n + start))) <$> offsets o fields = (λ n, be_put 4 (n + start)) <$> offsets o fields.
Proof.
  revert o; induction fields as [|f fields IH]; intros o H0 H1 H2; [done|].
  cbn [offsets concat] in *. rewrite zlen_app in H2. rewrite !fmap_cons. pose proof (zlen_nonneg f). pose proof (zlen_nonneg (concat fields)).
  rewrite wrapu_small by lia. f_equal. apply IH; lia.
Qed.

Lemma table_entry (l : list Z) g i x : l !! i = Some x →
  ∃ a c, concat ((λ o, be_put 4 (g o)) <$> l) = a ++ be_put 4 (g x) ++ c ∧ zlen a = 4 * Z.of_nat i.
Proof.
  intros Hx. rewrite <- (take_drop_middle l i x Hx). rewrite fmap_app, fmap_cons, concat_app. cbn [concat].
  eexists _, _. split; [done|]. rewrite zlen_table. unfold zlen.
  rewrite length_take. apply lookup_lt_Some in Hx. lia.
Qed.

Lemma concat_take_S (fields : list bytes) i f : fields !! i = Some f →
  zlen (concat (take (S i) fields)) = zlen (concat (take i fields)) + zlen f.
Proof.
  intros Hf. rewrite (take_S_r _ _ _ Hf), concat_app, zlen_app. cbn [concat]. by rewrite app_nil_r.
Qed.

Section Container.
Context (magic : bytes) (fields : list bytes) (Hmagic : zlen magic = 4).
Context (Hsize : 10 + 4 * zlen fields + zlen (concat fields) < 2 ^ 32) (Hcount : zlen fields < 2 ^ 16).

Let n := zlen fields.
Let total := 10 + 4 * n + zlen (concat fields).

Lemma CreateContainer_run m srs : Forall2 (shows m) srs fields →
  ∃ d m', CreateContainer srs magic m = Ret (Some d, m') ∧ valid m' d ∧ view m' d = layout magic fields.
Proof using Hmagic Hsize Hcount.
  intros HF. unfold CreateContainer. rewrite bool_decide_false by lia.
  assert (zlen srs = n) as Hn by (unfold n, zlen; by rewrite (Forall2_length _ _ _ HF)).
  pose proof (zlen_nonneg fields). pose proof (zlen_nonneg (concat fields)). fold n in Hsize, Hcount.
  rewrite (bind_run _ _ _ _ _ (gather_fields m srs fields 0 0 [] [] HF ltac:(lia) ltac:(lia) ltac:(lia) ltac:(lia))).
  cbn [g_offset g_length g_nodes g_data app]. rewrite !Z.add_0_l.
  rewrite zlen_offsets. fold n.
  rewrite !(wrapu_small 32 (n * 4 + 2)) by lia.
  rewrite !(wrapu_small 32) by (rewrite ?(wrapu_small 32); lia).
  match goal with |- context [alloc ?l] => destruct (alloc_run m l) as (d & m' & E & Hv & _ & Ev) end.
  rewrite (bind_run _ _ _ _ _ E). exists d, m'. split; [done|]. split; [done|]. rewrite Ev.
  unfold node_table, layout. fold n. rewrite table_wraps by lia. rewrite Hn, <- !app_assoc.
  replace (n * 4 + 2 + 8) with (10 + 4 * n) by lia.
  by replace (zlen (concat fields) + (n * 4 + 2) + 8) with (10 + 4 * n + zlen (concat fields)) by lia.
Qed.

(** A store in which a slice shows the container. *)
Context (m : Mem) (d : gslice) (Hd : valid m d) (Ed : view m d = layout magic fields).

Lemma blen_container : blen d = total.
Proof using Hd Ed Hmagic.
  rewrite <- (length_view m d Hd), Ed. unfold layout.
  rewrite !zlen_app, zlen_table, Hmagic, !zlen_be_put, zlen_offsets. unfold total, n. lia.
Qed.

Lemma Count_run : Count (Some d) m = Ret (n, m).
Proof using Hd Ed Hmagic Hsize Hcount.
  pose proof (zlen_nonneg fields) as Hn. pose proof (zlen_nonneg (concat fields)) as Hc. fold n in Hn, Hsize, Hcount.
  pose proof blen_container as Hb. fold total in Hsize.
  unfold Count, Data. rewrite (bind_run (mret d) _ m d m) by done.
  rewrite (bind_run _ _ _ _ _ (word_run m d 4 4 8 Hd ltac:(lia) ltac:(lia) ltac:(lia))).
  rewrite Ed. unfold layout. rewrite (piece magic (be_put 4 _) _ 4 4) by (rewrite ?length_be_put; done || lia).
  fold n total. rewrite be_get_put. rewrite Z.mod_small by (cbn; lia). rewrite Hb, bool_decide_true by lia.
  rewrite (word_run m d 2 8 10 Hd) by lia. rewrite Ed. unfold layout. fold n total. rewrite (app_assoc magic).
  rewrite (piece (magic ++ be_put 4 total) (be_put 2 n)); cycle 1.
  { rewrite zlen_app, zlen_be_put. lia. } { by rewrite length_be_put. }
  rewrite be_get_put, Z.mod_small by (cbn; lia). done.
Qed.

Lemma GetMagic_run : GetMagic (Some d) m = Ret (magic, m).
Proof using Hd Ed Hmagic Hsize Hcount.
  pose proof (zlen_nonneg fields). pose proof (zlen_nonneg (concat fields)). pose proof blen_container as Hb.
  unfold GetMagic, Data. rewrite (bind_run (mret d) _ m d m) by done.
  destruct (sub_run m d 0 4 Hd ltac:(lia) ltac:(unfold total, n in Hb; lia)) as (w & E & _ & _ & Ev).
  rewrite (bind_run _ _ _ _ _ E). unfold elems. rewrite Ev, Ed. unfold layout.
  unfold zlen in Hmagic. by rewrite drop_0, take_app_length' by lia.
Qed.

(** The table holds where each field starts. *)
Lemma entry_run i f lo hi : fields !! i = Some f → lo = 10 + 4 * Z.of_nat i → hi = lo + 4 →
  word d 4 lo hi m = Ret (10 + 4 * n + zlen (concat (take i fields)), m).
Proof using Hd Ed Hmagic Hsize Hcount.
  intros Hf Hlo ->. pose proof (zlen_nonneg (concat (take i fields))).
  pose proof (concat_take_le fields i). pose proof blen_container as Hb.
  assert (Z.of_nat i < n) by (apply lookup_lt_Some in Hf; unfold n, zlen; lia).
  rewrite (word_run m d 4 lo _ Hd) by (unfold total in Hb; lia). rewrite Ed. unfold layout. fold n total.
  destruct (table_entry (offsets 0 fields) (λ o, o + (10 + 4 * n)) i _ (offsets_lookup _ _ _ 0 Hf)) as (a & c & -> & Ha).
  rewrite <- !app_assoc. rewrite (app_assoc magic), (app_assoc (magic ++ _)), (app_assoc ((magic ++ _) ++ _)).
  rewrite (piece _ (be_put 4 _)); cycle 1.
  { rewrite !zlen_app, Ha, !zlen_be_put. lia. } { by rewrite length_be_put. }
  rewrite be_get_put, Z.mod_small; [do 2 f_equal; lia|]. unfold n in *. cbn. lia.
Qed.

Lemma field_view i f w lo hi : fields !! i = Some f →
  lo = 10 + 4 * n + zlen (concat (take i fields)) → hi = lo + zlen f →
  view m w = take (Z.to_nat (hi - lo)) (drop (Z.to_nat lo) (view m d)) → view m w = f.
Proof using Ed Hmagic.
  intros Hf Hlo -> ->. rewrite Ed.
  set (table := concat ((λ o, be_put 4 (o + (10 + 4 * n))) <$> offsets 0 fields)).
  assert (layout magic fields = (magic ++ be_put 4 total ++ be_put 2 n ++ table ++ concat (take i fields))
                                ++ f ++ concat (drop (S i) fields)) as ->.
  { rewrite <- !app_assoc. unfold layout. fold n total table. do 4 f_equal.
    by rewrite <- (take_drop_middle fields i f Hf) at 1; rewrite concat_app. }
  apply piece; [|unfold zlen; lia].
  unfold table. rewrite !zlen_app, zlen_table, Hmagic, !zlen_be_put, zlen_offsets. unfold n in *. lia.
Qed.

Lemma Get_run i f : n ≤ 16381 → fields !! i = Some f →
  ∃ w, Get (Some d) (Z.of_nat i) m = Ret (w, m) ∧ view m w = f ∧ valid m w.
Proof using Hd Ed Hmagic Hsize Hcount.
  intros Hn Hf. pose proof (zlen_nonneg (concat (take i fields))) as H0. pose proof (concat_take_le fields (S i)) as H1.
  pose proof (concat_take_S fields i f Hf) as HS. pose proof blen_container as Hb. pose proof (zlen_nonneg f) as Hf0.
  assert (Z.of_nat i < n) as Hi by (apply lookup_lt_Some in Hf; unfold n, zlen; lia).
  unfold Get. rewrite (bind_run _ _ _ _ _ Count_run). unfold Data. rewrite (bind_run (mret d) _ m d m) by done.
  rewrite bool_decide_true by lia.
  rewrite !(wrapu_small 16 (10 + Z.of_nat i * 4)), !(wrapu_small 16 (10 + Z.of_nat i * 4 + 4)) by lia.
  rewrite (bind_run _ _ _ _ _ (entry_run i f (10 + Z.of_nat i * 4) _ Hf ltac:(lia) eq_refl)), (wrapu_small 16 (n - 1)) by lia.
  case_bool_decide as Hlast.
  - destruct (lookup_lt_is_Some_2 fields (S i)) as [g Hg]; [unfold n, zlen in *; lia|].
    rewrite !(wrapu_small 16 (10 + (Z.of_nat i + 1) * 4)), !(wrapu_small 16 (10 + (Z.of_nat i + 1) * 4 + 4)) by lia.
    rewrite (bind_run _ _ _ _ _ (entry_run (S i) g (10 + (Z.of_nat i + 1) * 4) _ Hg ltac:(lia) eq_refl)).
    edestruct (sub_run m d) as (w & E & Hv & _ & Ev); [done| | |rewrite E].
    { split; [|rewrite HS; lia]. lia. } { rewrite Hb. unfold total. lia. }
    exists w. split; [done|]. split; [|done]. eapply field_view; [done|done| |exact Ev]. rewrite HS. lia.
  - assert (take (S i) fields = fields) as Efull by (apply take_ge; unfold n, zlen in *; lia).
    rewrite Efull in HS.
    edestruct (sub_run m d) as (w & E & Hv & _ & Ev); [done| | |rewrite E].
    { split; [lia|]. rewrite Hb. unfold total. lia. } { done. }
    exists w. split; [done|]. split; [|done]. eapply field_view; [done|done| |exact Ev]. rewrite Hb. unfold total. lia.
Qed.

Lemma Get_outside i : n ≤ i → Get (Some d) i m = Ret (None, m).
Proof using Hd Ed Hmagic Hsize Hcount.
  intros Hi. unfold Get. rewrite (bind_run _ _ _ _ _ Count_run). unfold Data.
  rewrite (bind_run (mret d) _ m d m) by done. by rewrite bool_decide_false by lia.
Qed.

(** The index of entry 16381 of the table overflows 16 bits. *)
Lemma Get_overflow : 16381 < n → Get (Some d) 16380 m = Panic PSlice ∧ Get (Some d) 16381 m = Panic PSlice.
Proof using Hd Ed Hmagic Hsize Hcount.
  intros Hn. pose proof (zlen_nonneg (concat fields)). pose proof blen_container as Hb.
  assert (word d 4 65534 2 m = Panic PSlice) as Hw.
  { unfold word, sub. destruct d as [s|]; [|done]. rewrite bool_decide_false by lia. done. }
  unfold Get. split; rewrite (bind_run _ _ _ _ _ Count_run); unfold Data;
    rewrite (bind_run (mret d) _ m d m) by done; rewrite bool_decide_true by lia.
  - destruct (lookup_lt_is_Some_2 fields (Z.to_nat 16380)) as [f Hf]; [unfold n, zlen in *; lia|].
    rewrite (bind_run _ _ _ _ _ (entry_run _ f (10 + 16380 * 4) (10 + 16380 * 4 + 4) Hf ltac:(rewrite Z2Nat.id; lia) ltac:(lia))).
    rewrite (wrapu_small 16 (n - 1)) by lia. rewrite bool_decide_true by lia. by apply bind_panic.
  - by apply bind_panic.
Qed.
End Container.

(** C27: What was put into a container is read back, field by field, and nothing lies
    behind the last one; so is the magic.  The bounds are those of the
    16-bit index and 32-bit size arithmetic. *)
Theorem container_reads_back m srs magic fields :
  Forall2 (shows m) srs fields → zlen magic = 4 → zlen fields ≤ 16381 →
  10 + 4 * zlen fields + zlen (concat fields) < 2 ^ 32 →
  ∃ c m', CreateContainer srs magic m = Ret (Some c, m') ∧
          Count (Some c) m' = Ret (zlen fields, m') ∧ GetMagic (Some c) m' = Ret (magic, m') ∧
          (∀ i f, fields !! i = Some f → ∃ w, Get (Some c) (Z.of_nat i) m' = Ret (w, m') ∧ view m' w = f) ∧
          (∀ i, zlen fields ≤ i → Get (Some c) i m' = Ret (None, m')).
Proof.
  intros HF Hm Hn Hs.
  destruct (CreateContainer_run magic fields Hm Hs ltac:(lia) m srs HF) as (d & m' & E & Hv & Ev).
  exists d, m'. split; [done|]. split; [apply (Count_run magic fields Hm Hs ltac:(lia) m' d Hv Ev)|].
  split; [apply (GetMagic_run magic fields Hm Hs ltac:(lia) m' d Hv Ev)|]. split.
  - intros i f Hf. destruct (Get_run magic fields Hm Hs ltac:(lia) m' d Hv Ev i f Hn Hf) as (w & Ew & Hw & _). by exists w.
  - intros i Hi. apply (Get_outside magic fields Hm Hs ltac:(lia) m' d Hv Ev i Hi).
Qed.

(** A container of more than 16381 fields is made without complaint and counts
    them all, but reading field 16380 or 16381 brings the program down. *)
Theorem container_overflows m srs magic fields :
  Forall2 (shows m) srs fields → zlen magic = 4 → 16381 < zlen fields < 2 ^ 16 →
  10 + 4 * zlen fields + zlen (concat fields) < 2 ^ 32 →
  ∃ c m', CreateContainer srs magic m = Ret (Some c, m') ∧ Count (Some c) m' = Ret (zlen fields, m') ∧
          Get (Some c) 16380 m' = Panic PSlice ∧ Get (Some c) 16381 m' = Panic PSlice.
Proof.
  intros HF Hm [Hn Hn'] Hs.
  destruct (CreateContainer_run magic fields Hm Hs ltac:(lia) m srs HF) as (d & m' & E & Hv & Ev).
  exists d, m'. split; [done|]. split; [apply (Count_run magic fields Hm Hs ltac:(lia) m' d Hv Ev)|].
  apply (Get_overflow magic fields Hm Hs ltac:(lia) m' d Hv Ev Hn).
Qed.

(** ** The values *)

Lemma length_view_nat m b : valid m b → length (view m b) = Z.to_nat (blen b).
Proof. intros Hv. pose proof (length_view m b Hv) as E. unfold zlen in E. lia. Qed.

Lemma store_run m b src : valid m b → zlen src ≤ blen b →
  ∃ m', store b src m = Ret (tt, m') ∧ m_objs m' = m_objs m ∧ valid m' b ∧
        view m' b = src ++ drop (length src) (view m b).
Proof.
  intros Hv Hl. destruct b as [s|]; cycle 1.
  { exists m. cbn in Hl. destruct src; [by repeat split|unfold zlen in Hl; cbn in Hl; lia]. }
  destruct Hv as (H1 & H2 & H3). unfold zlen in Hl. cbn [blen] in Hl.
  destruct (lookup_lt_is_Some_2 _ _ H3) as [arr Ha]. rewrite (nth_lookup_Some _ _ _ _ Ha) in H2.
  assert (alter (overlay (sl_off s) src) (sl_arr s) (m_arrays m) !! sl_arr s = Some (overlay (sl_off s) src arr)) as Hn
    by (by rewrite list_lookup_alter_eq, Ha).
  eexists. split; [reflexivity|]. split; [done|]. split.
  - cbn [valid m_arrays]. rewrite length_alter, (nth_lookup_Some _ _ _ _ Hn), length_overlay by lia. auto.
  - cbn [view m_arrays]. rewrite (nth_lookup_Some _ _ _ _ Hn), (nth_lookup_Some _ _ _ _ Ha).
    unfold overlay. rewrite drop_app, length_take, (drop_ge (take _ _)) by (rewrite length_take; lia).
    replace (sl_off s - sl_off s `min` length arr)%nat with O by lia. cbn [app]. rewrite drop_0.
    rewrite firstn_app, take_ge by lia. f_equal. by rewrite skipn_firstn_comm, drop_drop.
Qed.

(** The object a pointer holds, the tag of its type and the window it shows. *)
Definition holds (m : Mem) (q : nat) (mk : gslice → obj) (f : bytes) : Prop :=
  ∃ b, m_objs m !! q = Some (mk b) ∧ valid m b ∧ view m b = f.

Lemma zlen_lt_len {A} (l : list A) k : Z.of_nat k ≤ zlen l → (k ≤ length l)%nat.
Proof. unfold zlen. lia. Qed.

Lemma I32_Get_run m q f : holds m q OI32 f → 4 ≤ zlen f →
  I32.Get (Some q) m = Ret (AInt32 (Some (wraps 32 (be_get (take 4 f)))), m).
Proof.
  intros (b & Hb & Hv & <-) Hf. rewrite (length_view m b Hv) in Hf.
  unfold I32.Get. rewrite (bind_run _ _ m (q, b) m) by (unfold I32.field; cbn; by rewrite Hb).
  unfold I32.Len. rewrite bool_decide_true by lia. rewrite (bind_run (elems b) _ m _ m eq_refl).
  unfold Uint. rewrite bool_decide_true by (rewrite length_view_nat; lia || done). done.
Qed.

Lemma T64_Get_run m q f : holds m q OTime f → 8 ≤ zlen f →
  T64.Get (Some q) m = Ret (ATime (Some (wraps 64 (be_get (take 8 f)))), m).
Proof.
  intros (b & Hb & Hv & <-) Hf. rewrite (length_view m b Hv) in Hf.
  unfold T64.Get. rewrite (bind_run _ _ m (q, b) m) by (unfold T64.field; cbn; by rewrite Hb).
  unfold T64.Len. rewrite bool_decide_true by lia. rewrite (bind_run (elems b) _ m _ m eq_refl).
  unfold Uint. rewrite length_take, bool_decide_true by (rewrite length_view_nat; lia || done).
  by rewrite take_take.
Qed.

(** A pointer to an integer is put in, whatever the slice held before, and the
    same integer comes out. *)
Theorem I32_Put_Get m q b z : m_objs m !! q = Some (OI32 b) → valid m b → - 2 ^ 31 ≤ z < 2 ^ 31 →
  ∃ m', I32.Put (Some q) (AInt32 (Some z)) m = Ret (AS (Some q), m') ∧
        I32.Get (Some q) m' = Ret (AInt32 (Some z), m').
Proof.
  intros Hb Hv Hz.
  assert (∃ m1 b1, (if bool_decide (blen b < I32.Len) then b' ← alloc (replicate 4 x00); set_obj q (OI32 b') else mret tt) m
            = Ret (tt, m1) ∧ m_objs m1 !! q = Some (OI32 b1) ∧ valid m1 b1 ∧ 4 ≤ blen b1) as (m1 & b1 & E1 & Hb1 & Hv1 & Hl1).
  { case_bool_decide as Hl; unfold I32.Len in Hl; [|exists m, b; repeat split; done || lia].
    destruct (alloc_run m (replicate 4 x00)) as (d & m1 & E & Hd & Hdl & _).
    rewrite (bind_run _ _ _ _ _ E). injection E as <- <-. eexists _, _. split; [reflexivity|]. cbn [m_objs].
    rewrite list_lookup_insert_eq by by eapply lookup_lt_Some. repeat split; try apply Hd. by rewrite Hdl. }
  destruct (sub_run m1 b1 0 4 Hv1 ltac:(lia) Hl1) as (h & Eh & Hvh & Hlh & Evh).
  assert (∃ m2, PutUint 4 h (wrapu 32 z) m1 = Ret (tt, m2) ∧ m_objs m2 = m_objs m1 ∧ valid m2 b1 ∧ take 4 (view m2 b1) = be_put 4 (wrapu 32 z))
    as (m2 & E2 & Ho2 & Hv2 & Ev2).
  { unfold PutUint. rewrite bool_decide_true by lia. destruct b1 as [s|]; [|cbn in Hl1; lia].
    unfold sub in Eh. rewrite bool_decide_true in Eh by (destruct Hv1; cbn in Hl1; lia). injection Eh as <-.
    destruct (store_run m1 (Some s) (be_put 4 (wrapu 32 z)) Hv1) as (m2 & E2 & Ho & Hv2 & Ev2); [rewrite zlen_be_put; lia|].
    exists m2. split; [|split; [done|split; [done|]]].
    - unfold store in *. cbn [sl_arr sl_off] in *. by rewrite Nat.add_0_r.
    - rewrite Ev2. apply take_app_length'. by rewrite length_be_put. }
  exists m2. split.
  - unfold I32.Put. rewrite (bind_run _ _ m (q, b) m) by (unfold I32.field; cbn; by rewrite Hb).
    rewrite (bind_run _ _ _ _ _ E1). rewrite (bind_run _ _ m1 (q, b1) m1) by (unfold I32.field; cbn; by rewrite Hb1).
    unfold I32.Len. rewrite (bind_run _ _ _ _ _ Eh). cbn [target].
    rewrite (bind_run (mret z) _ m1 z m1) by done. by rewrite (bind_run _ _ _ _ _ E2).
  - rewrite (I32_Get_run m2 q (view m2 b1)); [|exists b1; rewrite Ho2; done|rewrite (length_view _ _ Hv2); done].
    rewrite Ev2, be_get_put, Z.mod_small by apply wrapu_range, Z.le_0_1 || (apply (wrapu_range 32); lia).
    rewrite wraps_wrapu, wraps_small by lia. done.
Qed.

(** The same for a time; a time whose slice was never allocated brings the
    program down. *)
Theorem T64_Put_Get m q b z : m_objs m !! q = Some (OTime b) → valid m b → - 2 ^ 63 ≤ z < 2 ^ 63 →
  if bool_decide (8 ≤ blen b) then
    ∃ m', T64.Put (Some q) (ATime (Some z)) m = Ret (AT (Some q), m') ∧
          T64.Get (Some q) m' = Ret (ATime (Some z), m')
  else T64.Put (Some q) (ATime (Some z)) m = Panic PIndex.
Proof.
  intros Hb Hv Hz. unfold T64.Put at 1 2.
  assert (T64.field (Some q) m = Ret ((q, b), m)) as Ef by (unfold T64.field; cbn; by rewrite Hb).
  case_bool_decide as Hl; rewrite (bind_run _ _ _ _ _ Ef); cbn [target]; rewrite (bind_run (mret z) _ m z m) by done;
    unfold PutUint; [rewrite bool_decide_true by lia|by rewrite bool_decide_false by lia].
  destruct (store_run m b (be_put 8 (wrapu 64 z)) Hv) as (m2 & E2 & Ho2 & Hv2 & Ev2); [rewrite zlen_be_put; lia|].
  exists m2. split; [by rewrite (bind_run _ _ _ _ _ E2)|].
  rewrite (T64_Get_run m2 q (view m2 b)); [|exists b; rewrite Ho2; done|rewrite (length_view _ _ Hv2); done].
  rewrite Ev2, take_app_length' by (by rewrite length_be_put).
  rewrite be_get_put, Z.mod_small by (apply (wrapu_range 64); lia).
  rewrite wraps_wrapu, wraps_small by lia. done.
Qed.

(** Nothing is ever stored in a magic: its methods work on copies. *)
Theorem Magic_stores_nothing m q b s v : m_objs m !! q = Some (OMagic b) → valid m b →
  (∀ r m', Magic.Write (Some q) s m = Ret (r, m') → m' = m) ∧
  (∀ r m', Magic.Put (Some q) v m = Ret (r, m') → r = ANil ∧ m_objs m' = m_objs m ∧ view m' b = view m b).
Proof.
  intros Hb Hv.
  assert (Magic.copy_of (Some q) m = Ret (b, m)) as Ec by (unfold Magic.copy_of; cbn; by rewrite Hb).
  assert (∀ x lo hi w m', sub x lo hi m = Ret (w, m') → m' = m) as Hsub.
  { intros x lo hi w m'. unfold sub. destruct x; case_bool_decide; intros E; by inversion E. }
  split; intros r m'.
  - unfold Magic.Write. rewrite (bind_run _ _ _ _ _ Ec). case_bool_decide; [|by intros [= _ <-]].
    intros E. apply bind_inv in E as (w & m1 & E1 & E). apply Hsub in E1 as ->.
    case_bool_decide; [by eapply Hsub|by injection E as _ <-].
  - unfold Magic.Put. rewrite (bind_run _ _ _ _ _ Ec). intros E. destruct v; try (by injection E as <- <-).
    apply bind_inv in E as (t & m1 & E1 & E). destruct p; [injection E1 as _ <-|done].
    injection E as <- <-. split; [done|]. split; [done|]. destruct b as [x|]; [|done].
    destruct Hv as (_ & _ & H3). cbn [view m_arrays]. by rewrite app_nth1.
Qed.

(** An integer goes through a container: what [Get] reads from the object made
    of the field is what it read from the object put in. *)
Theorem integer_through_container m srs magic fields i q z :
  Forall2 (shows m) srs fields → zlen magic = 4 → zlen fields ≤ 16381 →
  10 + 4 * zlen fields + zlen (concat fields) < 2 ^ 32 →
  srs !! i = Some (SI32 (Some q)) → (∃ f, holds m q OI32 f) → I32.Get (Some q) m = Ret (AInt32 (Some z), m) →
  ∃ c m1 w s m2, CreateContainer srs magic m = Ret (Some c, m1) ∧ Get (Some c) (Z.of_nat i) m1 = Ret (w, m1) ∧
    I32.NewFrom w m1 = Ret ((Some s, None), m2) ∧ I32.Get (Some s) m2 = Ret (AInt32 (Some z), m2).
Proof.
  intros HF Hm Hn Hs Hi (f0 & Hh) Hg.
  destruct (Forall2_lookup_l _ _ _ _ _ HF Hi) as (f & Hf & r & Er & Evr).
  destruct Hh as (b & Hb & Hv & Ef0).
  destruct (CreateContainer_run magic fields Hm Hs ltac:(lia) m srs HF) as (d & m1 & E & Hd & Ed).
  destruct (Get_run magic fields Hm Hs ltac:(lia) m1 d Hd Ed i f Hn Hf) as (w & Ew & Hw & Hvw).
  assert (I32.field (Some q) m = Ret ((q, b), m)) as Efi by (unfold I32.field; cbn; by rewrite Hb).
  assert (4 ≤ blen b) as Hl.
  { unfold I32.Get in Hg. rewrite (bind_run _ _ _ _ _ Efi) in Hg. unfold I32.Len in Hg. case_bool_decide; [lia|done]. }
  assert (f = take 4 f0) as ->.
  { unfold Read, I32.Read in Er. rewrite (bind_run _ _ _ _ _ Efi) in Er. unfold I32.Len in Er.
    rewrite bool_decide_true in Er by lia. destruct (sub_run m b 0 4 Hv ltac:(lia) Hl) as (w' & E' & _ & _ & Ev').
    rewrite E' in Er. injection Er as ->. rewrite <- Evr, Ev', Ef0. done. }
  assert (zlen f0 = blen b) as Hf0 by (by rewrite <- Ef0, length_view).
  assert (blen w = 4) as Hbw.
  { rewrite <- (length_view m1 w Hvw), Hw. unfold zlen in *. rewrite length_take. lia. }
  destruct (sub_run m1 w 0 4 Hvw ltac:(lia) ltac:(lia)) as (h & Eh & Hvh & _ & Evh).
  set (m2 := MkMem (m_arrays m1) (m_objs m1 ++ [OI32 h])).
  exists d, m1, w, (length (m_objs m1)), m2. split; [done|]. split; [done|]. split.
  - unfold I32.NewFrom, newFrom, I32.Len. rewrite bool_decide_false by lia. rewrite (bind_run _ _ _ _ _ Eh).
    rewrite (bind_run _ _ _ _ _ (eq_refl : new_obj (OI32 h) m1 = Ret (_, m2))). by rewrite bool_decide_false by lia.
  - rewrite (I32_Get_run m2 _ (take 4 f0)).
    + rewrite (I32_Get_run m q f0) in Hg by (try (by exists b); lia). rewrite take_take.
      injection Hg as Hg. by rewrite <- Hg.
    + exists h. split; [by apply list_lookup_middle|]. split; [exact Hvh|].
      change (view m2 h) with (view m1 h). rewrite Evh, Hw. by rewrite drop_0, take_take.
    + unfold zlen in *. rewrite length_take. lia.
Qed.

(** ** Concrete inputs *)

Module Demo.

(** An integer, a time and a magic over three arrays. *)
Definition mem : Mem :=
  MkMem [be_put 4 (wrapu 32 (-7)); be_put 8 1700000000; String.list_byte_of_string "indr"]
        [OI32 (Some (MkSlc 0 0 4 4)); OTime (Some (MkSlc 1 0 8 8)); OMagic (Some (MkSlc 2 0 4 4))].

Definition srs : Serializers := [SI32 (Some 0%nat); STime (Some 1%nat); SMagic (Some 2%nat)].
Definition fields : list bytes := [be_put 4 (wrapu 32 (-7)); be_put 8 1700000000; String.list_byte_of_string "indr"].

Lemma srs_show : Forall2 (shows mem) srs fields.
Proof. repeat constructor; eexists; split; vm_compute; reflexivity. Qed.

End Demo.

Lemma container_reads_back_witness :
  ∃ c m', CreateContainer Demo.srs (String.list_byte_of_string "test") Demo.mem = Ret (Some c, m') ∧
          Count (Some c) m' = Ret (3, m').
Proof.
  destruct (container_reads_back Demo.mem Demo.srs (String.list_byte_of_string "test") Demo.fields
              Demo.srs_show eq_refl) as (c & m' & E & Ec & _); [vm_compute; done|vm_compute; done|].
  exists c, m'. by split.
Defined.

Lemma many_show k : Forall2 (shows Demo.mem) (replicate k (SMagic (Some 2%nat))) (replicate k (String.list_byte_of_string "indr")).
Proof. induction k; constructor; [|done]. eexists; split; vm_compute; reflexivity. Qed.

Lemma zlen_concat_replicate {A} k (l : list A) : zlen (concat (replicate k l)) = Z.of_nat k * zlen l.
Proof. induction k; [done|]. cbn [replicate concat]. rewrite zlen_app, IHk. lia. Qed.

Lemma container_overflows_witness :
  ∃ c m', CreateContainer (replicate (Z.to_nat 20000) (SMagic (Some 2%nat))) (String.list_byte_of_string "test") Demo.mem
          = Ret (Some c, m') ∧ Get (Some c) 16380 m' = Panic PSlice.
Proof.
  assert (zlen (replicate (Z.to_nat 20000) (String.list_byte_of_string "indr")) = 20000) as Hn
    by (unfold zlen; rewrite length_replicate; lia).
  destruct (container_overflows Demo.mem _ (String.list_byte_of_string "test") _ (many_show (Z.to_nat 20000)) eq_refl)
    as (c & m' & E & _ & Eg & _); [rewrite Hn; lia|rewrite Hn, zlen_concat_replicate; unfold zlen; cbn [length]; cbn -[Z.to_nat]; lia|].
  exists c, m'. split; [exact E|exact Eg].
Defined.

Lemma I32_Put_Get_witness : ∃ m', I32.Put (Some 0%nat) (AInt32 (Some (-2147483648))) Demo.mem = Ret (AS (Some 0%nat), m').
Proof.
  destruct (I32_Put_Get Demo.mem 0 (Some (MkSlc 0 0 4 4)) (-2147483648) eq_refl) as (m' & E & _);
    [vm_compute; repeat split; lia|lia|by exists m'].
Defined.

Lemma integer_through_container_witness :
  ∃ c m1, CreateContainer Demo.srs (String.list_byte_of_string "test") Demo.mem = Ret (Some c, m1).
Proof.
  destruct (integer_through_container Demo.mem Demo.srs (String.list_byte_of_string "test") Demo.fields 0 0 (-7)
              Demo.srs_show eq_refl) as (c & m1 & _ & _ & _ & E & _);
    [vm_compute; done|vm_compute; done|done| |vm_compute; reflexivity|by exists c, m1].
  eexists _, _. split; [vm_compute; reflexivity|]. split; [vm_compute; repeat split; lia|reflexivity].
Defined.
