(* ===== verification/Opts.v ===== *)
(** * Configuration options

    Models [pkg/proc/opts] ([meta], [config], [toggle], [text], [integer],
    [float], [duration], [list], [normalize]), [pkg/util/norm] and the parts of
    [strings], [strconv], [net] and [filepath] they use.  Text is ASCII.  The
    printing and parsing of floats and durations is the class [Formats]. *)

From S2P Require Export Prelude.
From Stdlib Require Export Ascii.

(** ** The standard library's strings *)

Module Strs.
Definition map_chars (f : ascii → ascii) (s : string) : string :=
  String.string_of_list_ascii (f <$> String.list_ascii_of_string s).

Definition lower_char (c : ascii) : ascii :=
  let n := Z.of_N (N_of_ascii c) in
  if bool_decide (65 ≤ n ≤ 90) then ascii_of_N (Z.to_N (n + 32)) else c.
Definition upper_char (c : ascii) : ascii :=
  let n := Z.of_N (N_of_ascii c) in
  if bool_decide (97 ≤ n ≤ 122) then ascii_of_N (Z.to_N (n - 32)) else c.

Definition ToLower : string → string := map_chars lower_char.
Definition ToUpper : string → string := map_chars upper_char.

Definition is_space (c : ascii) : bool :=
  let n := Z.of_N (N_of_ascii c) in bool_decide (9 ≤ n ≤ 13 ∨ n = 32).

Fixpoint drop_spaces (l : list ascii) : list ascii :=
  match l with c :: r => if is_space c then drop_spaces r else l | [] => [] end.

Definition TrimSpace (s : string) : string :=
  String.string_of_list_ascii (rev (drop_spaces (rev (drop_spaces (String.list_ascii_of_string s))))).

Fixpoint Contains (c : ascii) (s : string) : bool :=
  match s with EmptyString => false | String d s => bool_decide (c = d) || Contains c s end.

(** Positions of the first and the last [c]. *)
Definition IndexByte (c : ascii) (l : list ascii) : option nat := fst <$> list_find (eq c) l.
Definition LastIndex (c : ascii) (l : list ascii) : option nat :=
  (λ i, length l - 1 - i)%nat <$> IndexByte c (rev l).

(** [strings.Split] and [strings.Join] with a separator of one character. *)
Fixpoint Split (c : ascii) (s : string) : list string :=
  match s with
  | EmptyString => [""%string]
  | String d s =>
      if bool_decide (c = d) then ""%string :: Split c s
      else match Split c s with
           | w :: r => String d w :: r
           | [] => [String d ""]
           end
  end.

Fixpoint Join (sep : string) (l : list string) : string :=
  match l with
  | [] => ""
  | [w] => w
  | w :: r => w +:+ sep +:+ Join sep r
  end.

Definition HasPrefix (s prefix : string) : bool := String.prefix prefix s.

(** [strconv.ParseInt(s, 10, 64)] and [FormatInt]. *)
Definition digit_value (c : ascii) : option Z :=
  let n := Z.of_N (N_of_ascii c) in if bool_decide (48 ≤ n ≤ 57) then Some (n - 48) else None.
Definition digit_char (d : Z) : ascii := ascii_of_N (Z.to_N (d + 48)).

Fixpoint digits_value (acc : Z) (s : string) : option Z :=
  match s with
  | EmptyString => Some acc
  | String c s => d ← digit_value c; digits_value (acc * 10 + d) s
  end.

Definition ParseInt (s : string) : option Z :=
  let '(neg, r) := match s with
    | String "-" r => (true, r) | String "+" r => (false, r) | _ => (false, s) end in
  if bool_decide (r = ""%string) then None else
  n ← digits_value 0 r;
  let v := if neg : bool then - n else n in
  if bool_decide (- 2 ^ 63 ≤ v < 2 ^ 63) then Some v else None.

Fixpoint decimal (fuel : nat) (n : Z) (acc : string) : string :=
  match fuel with
  | O => acc
  | S fuel =>
      let acc := String (digit_char (n `mod` 10)) acc in
      if bool_decide (n < 10) then acc else decimal fuel (n / 10) acc
  end.

(** Nineteen digits hold every 64-bit integer. *)
Definition FormatInt (z : Z) : string :=
  if bool_decide (z < 0) then String "-" (decimal 20 (- z) "") else decimal 20 z "".

Definition FormatBool (b : bool) : string := if b then "true" else "false".
End Strs.
Import Strs.

(** [norm.Norm], [norm.Eq] *)
Definition Norm (s : string) : string := ToLower s.
Definition Eq (a b : string) : bool := bool_decide (Norm a = Norm b).

(** ** Host and port (package net) *)

Module Net.
Definition missingPort : error := Errorf "missing port in address" [].
Definition tooManyColons : error := Errorf "too many colons in address" [].
Definition colon : ascii := ":".
Definition lbr : ascii := "[".
Definition rbr : ascii := "]".

Definition SplitHostPort (hostport : string) : (string * string) + error :=
  let l := String.list_ascii_of_string hostport in
  let str := String.string_of_list_ascii in
  match LastIndex colon l with
  | None => inr missingPort
  | Some i =>
      let rest (host : list ascii) (j k : nat) :=
        if bool_decide (lbr ∈ drop j l) then inr (Errorf "unexpected '[' in address" [])
        else if bool_decide (rbr ∈ drop k l) then inr (Errorf "unexpected ']' in address" [])
        else inl (str host, str (drop (S i) l)) in
      if bool_decide (head l = Some lbr) then
        match IndexByte rbr l with
        | None => inr (Errorf "missing ']' in address" [])
        | Some e =>
            if bool_decide (S e = length l) then inr missingPort
            else if bool_decide (S e = i) then rest (drop 1 (take e l)) 1%nat (S e)
            else inr (if bool_decide (l !! S e = Some colon) then tooManyColons else missingPort)
        end
      else
        let host := take i l in
        if bool_decide (colon ∈ host) then inr tooManyColons else rest host 0%nat 0%nat
  end.

Definition JoinHostPort (host port : string) : string :=
  if Contains colon host then "[" +:+ host +:+ "]:" +:+ port else host +:+ ":" +:+ port.
End Net.

(** ** normalize *)

Definition ClampPortRange (port defaultPort : string) (min max : Z) : string :=
  match ParseInt port with
  | None => defaultPort
  | Some p => if bool_decide (p < min) then FormatInt min
              else if bool_decide (max < p) then FormatInt max else port
  end.

Definition Address (addr defaultPort : string) (userOnly : bool) : string * option error :=
  match Net.SplitHostPort addr with
  | inr e => (Net.JoinHostPort "" defaultPort, Some e)
  | inl (a, p) =>
      if bool_decide (p = ""%string) then (Net.JoinHostPort a defaultPort, None)
      else
        let p := if userOnly then ClampPortRange p defaultPort 1024 65535
                 else ClampPortRange p defaultPort 1 65535 in
        (Net.JoinHostPort a p, None)
  end.

Fixpoint remove_duplicates (seen : list string) (addrs : list string) : list string :=
  match addrs with
  | [] => []
  | v :: r => if decide (v ∈ seen) then remove_duplicates seen r
              else v :: remove_duplicates (v :: seen) r
  end.
Definition RemoveDuplicateAddresses (addrs : list string) : list string := remove_duplicates [] addrs.

(** [Addresses] also writes the normalised addresses over its argument; the
    error is that of the last address. *)
Fixpoint address_loop (addrs : list string) (defaultPort : string) (userOnly : bool) (e : option error)
    : list string * option error :=
  match addrs with
  | [] => ([], e)
  | a :: r =>
      let '(a, e) := Address a defaultPort userOnly in
      let '(r, e) := address_loop r defaultPort userOnly e in (a :: r, e)
  end.
Definition Addresses (addrs : list string) (defaultPort : string) (userOnly : bool)
    : list string * list string * option error :=
  let '(addrs, e) := address_loop addrs defaultPort userOnly None in
  (RemoveDuplicateAddresses addrs, addrs, e).

(** *** Paths (package filepath, on a system with "/") *)

Definition slash : ascii := "/".

Fixpoint clean_parts (rooted : bool) (stack : list string) (parts : list string) : list string :=
  match parts with
  | [] => rev stack
  | w :: r =>
      if bool_decide (w = "" ∨ w = ".")%string then clean_parts rooted stack r
      else if bool_decide (w = "..")%string then
        match stack with
        | t :: stack' => if bool_decide (t = "..")%string then clean_parts rooted (w :: stack) r
                         else clean_parts rooted stack' r
        | [] => clean_parts rooted (if rooted then [] else [w]) r
        end
      else clean_parts rooted (w :: stack) r
  end.

Definition Clean (p : string) : string :=
  let rooted := HasPrefix p "/" in
  let body := Join "/" (clean_parts rooted [] (Split slash p)) in
  if rooted then "/" +:+ body else if bool_decide (body = ""%string) then "." else body.

Definition FilepathJoin (elems : list string) : string :=
  let ne := filter (λ w, w ≠ ""%string) elems in
  if bool_decide (ne = []) then "" else Clean (Join "/" ne).

(** What the environment answers: the home directory, the working directory and
    the data directory of an application ([appdata.Dir]). *)
Record Environ := MkEnviron { homeDir : string; workDir : string; appdataDir : string → string }.

Definition Abs (env : Environ) (p : string) : string :=
  if HasPrefix p "/" then Clean p else FilepathJoin [workDir env; p].

(** [strings.Replace(input, "~", homeDir, 1)] of a text that begins with "~". *)
Definition replace_home (home input : string) : string := home +:+ String.substring 1 (String.length input - 1) input.

(** Everything but a "~" path is made from [cleaned], which is still empty. *)
Definition ResolvePath (env : Environ) (input appName : string) (abs : bool) : string * option error :=
  let cleaned := ""%string in
  if HasPrefix input "~" then (Clean (replace_home (homeDir env) input), None)
  else if abs then (Abs env cleaned, None)
  else if negb (HasPrefix "/" cleaned) || HasPrefix "./" cleaned
  then (FilepathJoin [appdataDir env appName; cleaned], None)
  else (cleaned, None).

(** ** Paths of names (package path)

    A [Path] is a slice of strings: an array, shared by every slice made from it,
    and a length.  The capacity is the length of the array; [None] is nil. *)

Abbreviation arrays := (list (list string)).
Definition pslice : Type := option (nat * nat).

Module Paths.
(** The elements of a slice. *)
Definition elems (m : arrays) (p : pslice) : list string :=
  match p with Some (a, n) => take n (m !!! a) | None => [] end.

Definition alloc (l : list string) (m : arrays) : pslice * arrays := (Some (length m, length l), m ++ [l]).

(** [append(p, x)]: in place while there is capacity; else in a new array of twice
    the capacity. *)
Definition append (p : pslice) (x : string) (m : arrays) : pslice * arrays :=
  match p with
  | None => alloc [x] m
  | Some (a, n) =>
      if bool_decide (n < length (m !!! a))%nat then (Some (a, S n), alter (<[n := x]>) a m)
      else let cap := Nat.max (S n) (2 * length (m !!! a)) in
           (Some (length m, S n), m ++ [take n (m !!! a) ++ x :: replicate (cap - S n) ""%string])
  end.

Definition Child (p : pslice) (child : string) : arrays → pslice * arrays := append p child.

(** The test for the length is the wrong way round: an index is compared only
    where it is out of range. *)
Fixpoint common_loop (i : nat) (p p2 : list string) : Out (list string) :=
  match p with
  | [] => Ret []
  | x :: r =>
      if bool_decide (length p2 < i)%nat then
        y ← goindex p2 (Z.of_nat i);
        o ← common_loop (S i) r p2; Ret (if bool_decide (x = y) then x :: o else o)
      else common_loop (S i) r p2
  end.
Definition Common (p p2 : list string) : Out (list string) := common_loop 0 p p2.

Fixpoint Equal (p p2 : list string) : bool :=
  match p, p2 with
  | [], [] => true
  | x :: p, y :: p2 => bool_decide (Norm x = Norm y) && Equal p p2
  | _, _ => false
  end.

Definition From (s : string) : list string := Split " " s.
Definition GetIndent (d : nat) : string := String.concat "" (replicate d (String "009" "")).
Definition Parent (p : list string) : list string := take (length p - 1) p.
Definition String_ (p : list string) : string := Join " " p.
Definition TrimPrefix (p : list string) : list string :=
  if bool_decide (1 < length p)%nat then drop 1 p else take 0 p.
End Paths.

(** ** Options *)

(** [strconv.ParseFloat], [strconv.FormatFloat(v, 'f', -1, 64)],
    [time.ParseDuration] and the printing of a [time.Duration]. *)
Class Formats := {
  float : Type;
  float_zero : float;
  float_lt : float → float → bool;
  ParseFloat : string → option float;
  FormatFloat : float → string;
  ParseDuration : string → option Z;
  FormatDuration : Z → string;
}.

Inductive Type_ := Bool | Duration | Float | Integer | List | Text.
#[export] Instance Type_eq_dec : EqDecision Type_. Proof. solve_decision. Defined.

Record Data := MkData {
  Aliases : list string; Tags : list string; Label : string; Description : string;
  Documentation : string; Default : string; Options : list string }.

(** [meta.New]: accessor functions that never write. *)
Record Metadata := MkMetadata { md_data : Data; Typ : Type_ }.

Section Options.
Context {fmts : Formats}.

(** The value an option's cell holds. *)
Inductive value :=
| VBool (b : bool) | VDuration (d : Z) | VFloat (f : float) | VInteger (n : Z)
| VList (l : list string) | VText (s : string).

(** [config.Concrete]: the reader of the wrong type answers zero. *)
Record Concrete := MkConcrete {
  c_Bool : bool; c_Duration : Z; c_Float : float; c_Integer : Z; c_List : list string; c_Text : string }.

Definition NewConcrete : Concrete := MkConcrete false 0 float_zero 0 [] "".

Definition Value (v : value) : Concrete :=
  match v with
  | VBool b => MkConcrete b 0 float_zero 0 [] ""
  | VDuration d => MkConcrete false d float_zero 0 [] ""
  | VFloat f => MkConcrete false 0 f 0 [] ""
  | VInteger n => MkConcrete false 0 float_zero n [] ""
  | VList l => MkConcrete false 0 float_zero 0 l ""
  | VText s => MkConcrete false 0 float_zero 0 [] s
  end.

(** The cells of an option: the value and the expanded value.  A hook reads and
    writes them and may fail. *)
Record cell := MkCell { c_v : value; c_x : value }.
Definition Hook : Type := cell → cell * option error.

Record Opt := MkOpt { o_p : pslice; o_m : Metadata; o_c : cell; o_h : list Hook }.

Definition Opt_Type (o : Opt) : Type_ := Typ (o_m o).
Definition Opt_Value (o : Opt) : Concrete := Value (c_v (o_c o)).
Definition with_cell (c : cell) (o : Opt) : Opt := MkOpt (o_p o) (o_m o) c (o_h o).
Definition SetPath (p : pslice) (o : Opt) : Opt := MkOpt p (o_m o) (o_c o) (o_h o).
Definition store_v (v : value) (o : Opt) : Opt := with_cell (MkCell v (c_x (o_c o))) o.

(** [RunHooks]: in order, up to the first that fails. *)
Fixpoint run_hooks (hs : list Hook) (c : cell) : cell * option error :=
  match hs with
  | [] => (c, None)
  | h :: hs => match h c with
               | (c, None) => run_hooks hs c
               | (c, Some e) => (c, Some e)
               end
  end.
Definition hooks_of (o : Opt) : Opt * option error :=
  let '(c, e) := run_hooks (o_h o) (o_c o) in (with_cell c o, e).

Definition New_opt (t : Type_) (m : Data) (v x : value) (h : list Hook) : Opt :=
  MkOpt None (MkMetadata m t) (MkCell v x) h.

(** [Clamp] on numbers. *)
Definition clamp {A} (lt : A → A → bool) (min max v : A) : A :=
  if lt v min then min else if lt max v then max else v.
End Options.

(** *** One module per type: the methods of the interface [config.Option] *)

Module Toggle.
Section Toggle.
Context {fmts : Formats}.

(** The constructor fills in a default text; it does not read it. *)
Definition New (m : Data) (h : list Hook) : Opt :=
  let m := if bool_decide (Default m = ""%string)
           then MkData (Aliases m) (Tags m) (Label m) (Description m) (Documentation m) "false" (Options m) else m in
  New_opt Bool m (VBool false) (VText "") h.

Definition RunHooks (o : Opt) : Opt * option error := hooks_of o.
Definition FromValue (v : bool) (o : Opt) : Opt := store_v (VBool v) o.
Definition FromString (s : string) (o : Opt) : Opt * option error :=
  let s := TrimSpace s in
  if bool_decide (s ∈ ["f"; "false"; "off"; "-"]%string) then RunHooks (store_v (VBool false) o)
  else if bool_decide (s ∈ ["t"; "true"; "on"; "+"]%string) then RunHooks (store_v (VBool true) o)
  else (o, Some (Errorf "string '%s' does not parse to boolean" [])).
Definition String_ (o : Opt) : string := FormatBool (c_Bool (Opt_Value o)).
Definition Expanded (o : Opt) : string := String_ o.
Definition SetExpanded (s : string) (o : Opt) : Opt := (FromString s o).1.
End Toggle.
End Toggle.

Module TextOpt.
Section TextOpt.
Context {fmts : Formats}.

Definition RunHooks (o : Opt) : Opt * option error := hooks_of o.
Definition FromValue (v : string) (o : Opt) : Opt := store_v (VText v) o.
Definition FromString (s : string) (o : Opt) : Opt * option error :=
  let s := TrimSpace s in RunHooks (store_v (VText s) o).
Definition New (m : Data) (h : list Hook) : Opt :=
  (FromString (Default m) (New_opt Text m (VText "") (VText "") h)).1.
Definition String_ (o : Opt) : string := c_Text (Opt_Value o).
Definition Expanded (o : Opt) : string := c_Text (Value (c_x (o_c o))).
Definition SetExpanded (s : string) (o : Opt) : Opt := with_cell (MkCell (c_v (o_c o)) (VText s)) o.

Definition NormalizeNetworkAddress (defaultPort : string) (userOnly : bool) : Hook := λ c,
  let '(a, e) := Address (c_Text (Value (c_v c))) defaultPort userOnly in
  (match e with None => MkCell (c_v c) (VText a) | Some _ => c end, e).
Definition NormalizeFilesystemPath (env : Environ) (abs : bool) (appName : string) : Hook := λ c,
  let '(cleaned, e) := ResolvePath env (c_Text (Value (c_v c))) appName abs in
  (match e with None => MkCell (c_v c) (VText cleaned) | Some _ => c end, e).
End TextOpt.
End TextOpt.

Module IntegerOpt.
Section IntegerOpt.
Context {fmts : Formats}.

Definition RunHooks (o : Opt) : Opt * option error := hooks_of o.
Definition FromValue (v : Z) (o : Opt) : Opt := store_v (VInteger v) o.
Definition FromString (s : string) (o : Opt) : Opt * option error :=
  let s := TrimSpace s in
  match ParseInt s with
  | None => (o, Some (Errorf "strconv.ParseInt" []))
  | Some p => RunHooks (store_v (VInteger p) o)
  end.
Definition New (m : Data) (h : list Hook) : Opt :=
  (FromString (Default m) (New_opt Integer m (VInteger 0) (VText "") h)).1.
Definition String_ (o : Opt) : string := FormatInt (c_Integer (Opt_Value o)).
Definition Expanded (o : Opt) : string := String_ o.
Definition SetExpanded (s : string) (o : Opt) : Opt := (FromString s o).1.
Definition Clamp (min max : Z) (o : Opt) : Opt :=
  store_v (VInteger (clamp Z.ltb min max (c_Integer (Opt_Value o)))) o.
End IntegerOpt.
End IntegerOpt.

Module FloatOpt.
Section FloatOpt.
Context {fmts : Formats}.

Definition RunHooks (o : Opt) : Opt * option error := hooks_of o.
Definition FromValue (v : float) (o : Opt) : Opt := store_v (VFloat v) o.
Definition FromString (s : string) (o : Opt) : Opt * option error :=
  let s := TrimSpace s in
  match ParseFloat s with
  | None => (o, Some (Errorf "strconv.ParseFloat" []))
  | Some p => RunHooks (store_v (VFloat p) o)
  end.
Definition New (m : Data) (h : list Hook) : Opt :=
  (FromString (Default m) (New_opt Float m (VFloat float_zero) (VText "") h)).1.
Definition String_ (o : Opt) : string := FormatFloat (c_Float (Opt_Value o)).
Definition Expanded (o : Opt) : string := String_ o.
Definition SetExpanded (s : string) (o : Opt) : Opt := (FromString s o).1.
Definition Clamp (min max : float) (o : Opt) : Opt :=
  store_v (VFloat (clamp float_lt min max (c_Float (Opt_Value o)))) o.
End FloatOpt.
End FloatOpt.

Module DurationOpt.
Section DurationOpt.
Context {fmts : Formats}.

(** The hooks of a duration have no error to report: all of them run. *)
Definition RunHooks (o : Opt) : Opt * option error :=
  (with_cell (foldl (λ c h, (h c).1) (o_c o) (o_h o)) o, None).
Definition FromValue (v : Z) (o : Opt) : Opt := store_v (VDuration v) o.
Definition FromString (s : string) (o : Opt) : Opt * option error :=
  let s := TrimSpace s in
  match ParseDuration s with
  | None => (o, Some (Errorf "time: invalid duration" []))
  | Some d => RunHooks (store_v (VDuration d) o)
  end.
Definition New (m : Data) (h : list Hook) : Opt :=
  (FromString (Default m) (New_opt Duration m (VDuration 0) (VText "") h)).1.
Definition String_ (o : Opt) : string := FormatDuration (c_Duration (Opt_Value o)).
Definition Expanded (o : Opt) : string := String_ o.
Definition SetExpanded (s : string) (o : Opt) : Opt := (FromString s o).1.
Definition Clamp (min max : Z) (o : Opt) : Opt :=
  store_v (VDuration (clamp Z.ltb min max (c_Duration (Opt_Value o)))) o.
End DurationOpt.
End DurationOpt.

Module ListOpt.
Section ListOpt.
Context {fmts : Formats}.

Definition RunHooks (o : Opt) : Opt * option error := hooks_of o.
Definition FromValue (v : list string) (o : Opt) : Opt := store_v (VList v) o.
Definition FromString (s : string) (o : Opt) : Opt * option error :=
  let s := TrimSpace s in
  let split := Split "," s in
  let split := if bool_decide (split = [""%string]) then [] else split in
  RunHooks (store_v (VList split) o).
Definition New (m : Data) (h : list Hook) : Opt :=
  (FromString (Default m) (New_opt List m (VList []) (VList []) h)).1.
Definition String_ (o : Opt) : string := Join "," (c_List (Opt_Value o)).
Definition Expanded (o : Opt) : string := String_ o.
Definition SetExpanded (s : string) (o : Opt) : Opt := (FromString s o).1.

(** The list is normalised in place, so the value changes with the expansion. *)
Definition NormalizeNetworkAddress (defaultPort : string) (userOnly : bool) : Hook := λ c,
  let '(a, addrs, e) := Addresses (c_List (Value (c_v c))) defaultPort userOnly in
  (MkCell (VList addrs) (match e with None => VList a | Some _ => c_x c end), e).

Fixpoint resolve_loop (env : Environ) (abs : bool) (appName : string) (l : list string) (e : option error)
    : list string * option error :=
  match l with
  | [] => ([], e)
  | w :: r =>
      let '(cleaned, e) := ResolvePath env w appName abs in
      let w := match e with None => cleaned | Some _ => w end in
      let '(r, e) := resolve_loop env abs appName r e in (w :: r, e)
  end.
Definition NormalizeFilesystemPath (env : Environ) (abs : bool) (appName : string) : Hook := λ c,
  let '(l, e) := resolve_loop env abs appName (c_List (Value (c_v c))) None in
  (MkCell (VList l) (VList l), e).
End ListOpt.
End ListOpt.

(** *** The interface *)

Section Interface.
Context {fmts : Formats}.

Definition FromString (s : string) (o : Opt) : Opt * option error :=
  match Opt_Type o with
  | Bool => Toggle.FromString s o | Duration => DurationOpt.FromString s o
  | Float => FloatOpt.FromString s o | Integer => IntegerOpt.FromString s o
  | List => ListOpt.FromString s o | Text => TextOpt.FromString s o
  end.
Definition Opt_String (o : Opt) : string :=
  match Opt_Type o with
  | Bool => Toggle.String_ o | Duration => DurationOpt.String_ o | Float => FloatOpt.String_ o
  | Integer => IntegerOpt.String_ o | List => ListOpt.String_ o | Text => TextOpt.String_ o
  end.
Definition Expanded (o : Opt) : string :=
  match Opt_Type o with
  | Bool => Toggle.Expanded o | Duration => DurationOpt.Expanded o | Float => FloatOpt.Expanded o
  | Integer => IntegerOpt.Expanded o | List => ListOpt.Expanded o | Text => TextOpt.Expanded o
  end.
Definition SetExpanded (s : string) (o : Opt) : Opt :=
  match Opt_Type o with
  | Bool => Toggle.SetExpanded s o | Duration => DurationOpt.SetExpanded s o | Float => FloatOpt.SetExpanded s o
  | Integer => IntegerOpt.SetExpanded s o | List => ListOpt.SetExpanded s o | Text => TextOpt.SetExpanded s o
  end.
Definition RunHooks (o : Opt) : Opt * option error :=
  match Opt_Type o with
  | Bool => Toggle.RunHooks o | Duration => DurationOpt.RunHooks o | Float => FloatOpt.RunHooks o
  | Integer => IntegerOpt.RunHooks o | List => ListOpt.RunHooks o | Text => TextOpt.RunHooks o
  end.
End Interface.
