(* ===== verification/OptsProps.v ===== *)
(** * Options: what is printed is read back

    [FormatInt] against [ParseInt], [Join] against [Split], and the options of
    every type over them; what [normalize] makes of addresses and paths. *)

From S2P Require Export Opts.

(** A whole string as a substring of itself. *)
Lemma substring_all s : String.substring 0 (String.length s) s = s.
Proof. induction s as [|c s IH]; [done|]. cbn. by rewrite IH. Qed.

Import Strs.

(** ** Integers *)

Lemma digit_value_char d : 0 ≤ d < 10 → digit_value (digit_char d) = Some d.
Proof.
  intros Hd. assert (Forall (λ n, digit_value (digit_char (Z.of_nat n)) = Some (Z.of_nat n)) (seq 0 10)) as F
    by (repeat constructor).
  rewrite Forall_forall in F. specialize (F (Z.to_nat d)). rewrite Z2Nat.id in F by lia. apply F, elem_of_seq. lia.
Qed.

Lemma digits_value_decimal fuel n acc : 0 ≤ n < 10 ^ Z.of_nat fuel → (0 < fuel)%nat →
  digits_value 0 (decimal fuel n acc) = digits_value n acc.
Proof.
  revert n acc; induction fuel as [|fuel IH]; intros n acc Hn Hf; [lia|]. cbn [decimal].
  assert (digits_value 0 (String (digit_char (n `mod` 10)) acc) = digits_value (n `mod` 10) acc) as E0.
  { cbn [digits_value]. rewrite digit_value_char by (apply Z.mod_pos_bound; lia). done. }
  case_bool_decide as Hs; [by rewrite E0, Z.mod_small by lia|].
  rewrite Nat2Z.inj_succ, Z.pow_succ_r in Hn by lia.
  assert (0 < fuel)%nat by (destruct fuel; simpl in Hn; lia).
  rewrite IH by (done || (Z.to_euclidean_division_equations; lia)). cbn [digits_value].
  rewrite digit_value_char by (apply Z.mod_pos_bound; lia). cbn [mbind option_bind].
  f_equal. Z.to_euclidean_division_equations. lia.
Qed.

Definition signs : list ascii := ["-"; "+"]%char.

(** The text of a number has digits only, and at least one. *)
Lemma decimal_head fuel n acc : (0 < fuel)%nat → 0 ≤ n →
  ∃ d r, 0 ≤ d < 10 ∧ decimal fuel n acc = String (digit_char d) r.
Proof.
  revert n acc; induction fuel as [|fuel IH]; intros n acc Hf Hn; [lia|]. cbn [decimal].
  pose proof (Z.mod_pos_bound n 10 ltac:(lia)).
  case_bool_decide; [by eauto|]. destruct fuel; [by eauto|].
  apply IH; [lia|]. by apply Z.div_pos.
Qed.

Lemma digit_char_not d c : 0 ≤ d < 10 → digit_value c = None → digit_char d ≠ c.
Proof. intros Hd Hc <-. by rewrite digit_value_char in Hc. Qed.

Lemma ParseInt_FormatInt z : - 2 ^ 63 ≤ z < 2 ^ 63 → ParseInt (FormatInt z) = Some z.
Proof.
  intros Hz. assert (∀ n, 0 ≤ n ≤ 2 ^ 63 → digits_value 0 (decimal 20 n "") = Some n) as D.
  { intros n Hn. rewrite digits_value_decimal by lia. done. }
  unfold FormatInt. case_bool_decide as Hneg.
  - unfold ParseInt. destruct (decimal_head 20 (- z) "" ltac:(lia) ltac:(lia)) as (d & r & Hd & E).
    rewrite bool_decide_false by (rewrite E; done). rewrite D by lia. cbn [mbind option_bind].
    rewrite bool_decide_true by lia. by rewrite Z.opp_involutive.
  - destruct (decimal_head 20 z "" ltac:(lia) ltac:(lia)) as (d & r & Hd & E). unfold ParseInt.
    pose proof (digit_char_not d "-" Hd eq_refl) as N1. pose proof (digit_char_not d "+" Hd eq_refl) as N2.
    specialize (D z ltac:(lia)). rewrite E in *. set (c := digit_char d) in *. clearbody c.
    assert ((match String c r with String "-" r => (true, r) | String "+" r => (false, r) | _ => (false, String c r) end)
      = (false, String c r)) as ->.
    { destruct c as [[] [] [] [] [] [] [] []]; done. }
    rewrite bool_decide_false by done. rewrite D. cbn [mbind option_bind]. by rewrite bool_decide_true by lia.
Qed.

(** ** Text *)

Definition spaceless (s : string) : Prop := Forall (λ c, is_space c = false) (String.list_ascii_of_string s).

Lemma drop_spaces_none l : Forall (λ c, is_space c = false) l → drop_spaces l = l.
Proof. destruct 1 as [|c l Hc]; [done|]. cbn. by rewrite Hc. Qed.

Lemma TrimSpace_spaceless s : spaceless s → TrimSpace s = s.
Proof.
  intros Hs. unfold TrimSpace. rewrite (drop_spaces_none _ Hs).
  rewrite drop_spaces_none by (by apply Forall_rev). by rewrite rev_involutive, String.string_of_list_ascii_of_string.
Qed.

Lemma digit_char_spaceless d : 0 ≤ d < 10 → is_space (digit_char d) = false.
Proof.
  intros Hd. assert (Forall (λ n, is_space (digit_char (Z.of_nat n)) = false) (seq 0 10)) as F by (repeat constructor).
  rewrite Forall_forall in F. specialize (F (Z.to_nat d)). rewrite Z2Nat.id in F by lia. apply F, elem_of_seq. lia.
Qed.

Lemma decimal_spaceless fuel n acc : 0 ≤ n → spaceless acc → spaceless (decimal fuel n acc).
Proof.
  revert n acc; induction fuel as [|fuel IH]; intros n acc Hn Ha; [done|]. cbn [decimal].
  assert (spaceless (String (digit_char (n `mod` 10)) acc)).
  { constructor; [|done]. apply digit_char_spaceless, Z.mod_pos_bound. lia. }
  case_bool_decide; [done|]. apply IH; [by apply Z.div_pos|done].
Qed.

Lemma FormatInt_spaceless z : spaceless (FormatInt z).
Proof.
  unfold FormatInt. case_bool_decide.
  - constructor; [done|]. apply decimal_spaceless; [lia|constructor].
  - apply decimal_spaceless; [lia|constructor].
Qed.

Lemma Split_word c w : Contains c w = false → Split c w = [w].
Proof.
  induction w as [|d w IH]; [done|]. cbn [Contains Split String.append]. intros [H1 H2]%orb_false_iff. rewrite H1, IH by done. done.
Qed.

Lemma Split_app c w s : Contains c w = false → Split c (w +:+ String c s) = w :: Split c s.
Proof.
  induction w as [|d w IH]; cbn [Contains].
  - intros _. change (Split c (String c s) = ""%string :: Split c s). cbn [Split]. by rewrite bool_decide_true.
  - intros [H1 H2]%orb_false_iff. change (Split c (String d (w +:+ String c s)) = String d w :: Split c s).
    cbn [Split]. rewrite H1, IH by done. done.
Qed.

(** What is joined with a separator none of the words holds is split again. *)
Lemma Split_Join c l : l ≠ [] → Forall (λ w, Contains c w = false) l → Split c (Join (String c "") l) = l.
Proof.
  intros Hne F. induction F as [|w l Hw F IH]; [done|]. destruct l as [|w' l]; [by apply Split_word|].
  change (Join (String c "") (w :: w' :: l)) with (w +:+ String c (Join (String c "") (w' :: l))).
  rewrite Split_app by done. by rewrite IH.
Qed.

Lemma Split_cons c s : ∃ w r, Split c s = w :: r.
Proof. destruct s as [|d s]; cbn [Split]; [by eauto|]. repeat case_match; eauto. Qed.

Lemma Join_Split c s : Join (String c "") (Split c s) = s.
Proof.
  induction s as [|d s IH]; [done|]. cbn [Split]. destruct (Split_cons c s) as (w & r & E).
  rewrite E in *. case_bool_decide as Hd.
  - subst d. change (Join (String c "") (""%string :: w :: r)) with (String c (Join (String c "") (w :: r))). by rewrite IH.
  - destruct r as [|w' r]; cbn in IH |- *; by rewrite <- IH.
Qed.

(** No word of a split holds the separator. *)
Lemma Split_words c s : Forall (λ w, Contains c w = false) (Split c s).
Proof.
  induction s as [|d s IH]; [by repeat constructor|]. cbn [Split]. destruct (Split_cons c s) as (w & r & E). rewrite E in *.
  case_bool_decide as Hd; [by constructor|]. apply Forall_cons in IH as [Hw Hr]. constructor; [|done].
  cbn [Contains]. by rewrite bool_decide_eq_false_2, Hw.
Qed.

(** ** Options *)

Section Options.
Context {fmts : Formats}.

(** The cell of an option holds a value of its type, an integer of 64 bits. *)
Definition typed (t : Type_) (v : value) : Prop :=
  match t, v with
  | Integer, VInteger n => - 2 ^ 63 ≤ n < 2 ^ 63
  | Bool, VBool _ | Duration, VDuration _ | Float, VFloat _ | List, VList _ | Text, VText _ => True
  | _, _ => False
  end.
Definition well_typed (o : Opt) : Prop := typed (Opt_Type o) (c_v (o_c o)).

(** Values whose text has one reading: trimmed text, words without commas that are
    trimmed at both ends of the list, floats and durations that [strconv] and [time]
    read back from their own text; every truth value and integer. *)
Definition readable (v : value) : Prop :=
  match v with
  | VBool _ | VInteger _ => True
  | VFloat f => ParseFloat (TrimSpace (FormatFloat f)) = Some f
  | VDuration d => ParseDuration (TrimSpace (FormatDuration d)) = Some d
  | VText s => TrimSpace s = s
  | VList l => Forall (λ w, Contains "," w = false) l ∧ l ≠ [""%string] ∧ TrimSpace (Join "," l) = Join "," l
  end.

Lemma Join_empty l : Join "," l = ""%string → l = [] ∨ l = [""%string].
Proof. destruct l as [|w [|w' l]]; [by auto|cbn; intros ->; by auto|]. cbn. by destruct w. Qed.

(** The words a list option reads. *)
Definition words (s : string) : list string :=
  let split := Split "," (TrimSpace s) in if bool_decide (split = [""%string]) then [] else split.

Lemma words_Join l : words (Join "," l) = l ↔ readable (VList l).
Proof.
  unfold words. cbn [readable]. split.
  - intros E. assert (TrimSpace (Join "," l) = Join "," l) as Ht.
    { rewrite <- E at 2. change ("," : string)%string with (String "," "") at 2. case_bool_decide as Hs; [|by rewrite Join_Split].
      rewrite <- (Join_Split "," (TrimSpace _)), Hs. done. }
    rewrite Ht in E. case_bool_decide as Hs; [by subst l|]. split; [|split; [congruence|done]].
    rewrite <- E. apply Split_words.
  - intros (F & Hl & Ht). rewrite Ht. destruct (decide (l = [])) as [->|Hne]; [done|].
    change ("," : string)%string with (String "," ""). rewrite Split_Join by done. by rewrite bool_decide_false.
Qed.

Lemma store_same (o : Opt) : store_v (c_v (o_c o)) o = o.
Proof. by destruct o as [? ? [] ?]. Qed.

Lemma store_unchanged (o : Opt) v : o_h o = [] → RunHooks (store_v v o) = (o, None) → v = c_v (o_c o).
Proof.
  destruct o as [p [d t] [v0 x] h]. cbn. intros -> E. unfold RunHooks, Toggle.RunHooks, DurationOpt.RunHooks,
    FloatOpt.RunHooks, IntegerOpt.RunHooks, ListOpt.RunHooks, TextOpt.RunHooks, hooks_of in E. destruct t; cbn in E; by injection E.
Qed.

(** C31: An option set to its own text keeps its value, and then runs its hooks, if the
    value is [readable]: any truth value or integer, a text without space around it, a
    list of words without commas whose text has no space around it and which is not one
    empty word, a float or a duration that [strconv] or [time] reads back from its own
    text.  This is exact: an option without hooks that is unchanged by its own text
    has such a value. *)
Theorem option_reads_back (o : Opt) : well_typed o →
  (readable (c_v (o_c o)) → FromString (Opt_String o) o = RunHooks o) ∧
  (o_h o = [] → FromString (Opt_String o) o = (o, None) → readable (c_v (o_c o))).
Proof.
  intros Ht. assert (∀ v, o_h o = [] → RunHooks (store_v v o) = (o, None) → v = c_v (o_c o)) as Hu by (intros v; apply store_unchanged).
  assert (∀ v, v = c_v (o_c o) → RunHooks (store_v v o) = RunHooks o) as Hs by (intros v ->; by rewrite store_same).
  destruct o as [p [d t] [v x] h]. unfold well_typed in Ht. cbn [o_m o_c Opt_Type Typ c_v] in *.
  unfold FromString, Opt_String. cbn [Opt_Type o_m Typ].
  destruct t, v; try done; cbn [readable].
  - split; [|done]. intros _. by destruct b.
  - unfold DurationOpt.FromString. change (DurationOpt.String_ _) with (FormatDuration d0).
    destruct (ParseDuration _) as [d'|]; [|done]. split; [intros [= ->]; by apply Hs|]. intros Hh E.
    by apply (Hu (VDuration d')) in E as [= ->].
  - unfold FloatOpt.FromString. change (FloatOpt.String_ _) with (FormatFloat f).
    destruct (ParseFloat _) as [f'|]; [|done]. split; [intros [= ->]; by apply Hs|]. intros Hh E.
    by apply (Hu (VFloat f')) in E as [= ->].
  - unfold IntegerOpt.FromString. change (IntegerOpt.String_ _) with (FormatInt n).
    rewrite (TrimSpace_spaceless _ (FormatInt_spaceless n)), ParseInt_FormatInt by done. split; [|done]. intros _. by apply Hs.
  - change (ListOpt.FromString (ListOpt.String_ ?o) ?o) with (RunHooks (store_v (VList (words (Join "," l))) o)).
    split; [intros Hr; apply Hs; f_equal; by apply words_Join|]. intros Hh E. apply words_Join.
    by apply Hu in E as [= E'].
  - change (TextOpt.FromString (TextOpt.String_ ?o) ?o) with (RunHooks (store_v (VText (TrimSpace s)) o)).
    split; [intros Hr; apply Hs; by rewrite Hr|]. intros Hh E. by apply Hu in E as [= E'].
Qed.

(** Reading a text never changes the type of an option, its metadata or its
    hooks; when it fails without running them the option is as it was. *)
Lemma FromString_frame s o : let o' := (FromString s o).1 in
  o_p o' = o_p o ∧ o_m o' = o_m o ∧ o_h o' = o_h o.
Proof.
  unfold FromString, Toggle.FromString, TextOpt.FromString, IntegerOpt.FromString, FloatOpt.FromString,
    DurationOpt.FromString, ListOpt.FromString, Toggle.RunHooks, TextOpt.RunHooks, IntegerOpt.RunHooks,
    FloatOpt.RunHooks, ListOpt.RunHooks, hooks_of.
  destruct (Opt_Type o); repeat case_match; simplify_eq/=; by destruct_and?.
Qed.
End Options.

(** Formats for the witnesses: a float is a truth value, a duration its number. *)
#[export] Instance toy_formats : Formats := {|
  float := bool; float_zero := false; float_lt := λ a b, negb a && b;
  ParseFloat := λ s, if String.eqb s "true" then Some true else if String.eqb s "false" then Some false else None;
  FormatFloat := FormatBool; ParseDuration := ParseInt; FormatDuration := FormatInt |}.

(** A list that reads back, with the hook that normalises addresses; a text that does not. *)
Lemma option_reads_back_witness :
  let o := ListOpt.New (MkData [] [] "" "" "" "a:1,b:2" []) [ListOpt.NormalizeNetworkAddress "80" false] in
  FromString (Opt_String o) o = RunHooks o ∧
  let o' := TextOpt.FromValue " x " (TextOpt.New (MkData [] [] "" "" "" "" []) []) in
  FromString (Opt_String o') o' ≠ (o', None).
Proof.
  intros o. split.
  - apply (option_reads_back o); [exact I|]. split; [repeat constructor|]. split; [discriminate|reflexivity].
  - intros o' E. assert (readable (c_v (o_c o'))) as Hr by (apply (option_reads_back o'); [exact I|reflexivity|exact E]).
    vm_compute in Hr. discriminate.
Defined.

(** ** What normalize does *)

Lemma RemoveDuplicates_spec seen l :
  NoDup (remove_duplicates seen l) ∧ ∀ x, x ∈ remove_duplicates seen l ↔ x ∈ l ∧ x ∉ seen.
Proof.
  revert seen; induction l as [|v l IH]; intros seen; cbn.
  - split; [constructor|set_solver].
  - destruct (IH seen) as [N1 E1], (IH (v :: seen)) as [N2 E2]. case_decide; [set_solver|].
    split; [constructor; [rewrite E2; set_solver|done]|]. intros x. rewrite elem_of_cons, E2.
    destruct (decide (x = v)); set_solver.
Qed.

(** Paths that do not begin with "~" are all resolved to the same directory: what
    was given is not looked at. *)
Lemma ResolvePath_ignores env p q appName abs : HasPrefix p "~" = false → HasPrefix q "~" = false →
  ResolvePath env p appName abs = ResolvePath env q appName abs.
Proof. unfold ResolvePath. by intros -> ->. Qed.

(** An address without a port loses its host when the default port is added. *)
Lemma Address_loses_host host port userOnly : Contains ":" host = false →
  Address host port userOnly = (":" +:+ port, Some Net.missingPort).
Proof.
  intros Hc. unfold Address, Net.SplitHostPort, LastIndex, IndexByte.
  assert (list_find (eq Net.colon) (rev (String.list_ascii_of_string host)) = None) as ->; [|done].
  apply list_find_None, Forall_rev. induction host as [|d h IH]; [constructor|].
  cbn in Hc. apply orb_false_iff in Hc as [H1 H2]. constructor; [by apply bool_decide_eq_false in H1|by apply IH].
Qed.

(** A toggle whose default is true starts false. *)
Lemma toggle_starts_false {fmts : Formats} m h : c_v (o_c (Toggle.New m h)) = VBool false.
Proof. done. Qed.

(** [Common] never answers a common prefix: nothing or a panic. *)
Lemma Common_useless p p2 : Paths.Common p p2 = Ret [] ∨ Paths.Common p p2 = Panic PIndex.
Proof.
  unfold Paths.Common. generalize 0%nat as i. induction p as [|x p IH]; intros i; [by left|]. cbn.
  case_bool_decide; [|apply IH]. right. unfold goindex. rewrite bool_decide_true by lia.
  rewrite Nat2Z.id, lookup_ge_None_2 by lia. done.
Qed.
