(* ===== verification/Logging.v ===== *)
(** * The logger

    Models [pkg/proc/log]: one mutex guards the level, the writer and the log
    file; printers format their text while they hold it.  The clock, the location
    of the caller and the colours of the terminal are arguments; what is printed
    is a list of lines per sink. *)

From S2P Require Export Opts.
Import Strs.

(** The levels in ascending order. *)
Definition LogLevel : Type := Z.
Definition Off : LogLevel := 0.
Definition Fatal : LogLevel := 1.
Definition Error : LogLevel := 2.
Definition Check_ : LogLevel := 3.
Definition Warn : LogLevel := 4.
Definition Info_ : LogLevel := 5.
Definition Debug_ : LogLevel := 6.
Definition Trace : LogLevel := 7.

Definition LvlStr : list (LogLevel * string) :=
  [(Off, "off"); (Fatal, "fatal"); (Error, "error"); (Warn, "warn"); (Info_, "info"); (Check_, "check");
   (Debug_, "debug"); (Trace, "trace")]%string.
Definition lvlStrs : list (string * LogLevel) :=
  [("off", Off); ("fatal", Fatal); ("error", Error); ("check", Check_); ("warn", Warn); ("info", Info_);
   ("debug", Debug_); ("trace", Trace)]%string.

Definition GetLevelName (ll : LogLevel) : string :=
  TrimSpace (default "" (snd <$> head (filter (λ p, p.1 = ll) LvlStr))).
Definition GetLevelByString (lvl : string) (def : LogLevel) : LogLevel :=
  default def (snd <$> head (filter (λ p, p.1 = lvl) lvlStrs)).
Definition LevelMap_String : string := Join " " (GetLevelName <$> [0; 1; 2; 3; 4; 5; 6; 7]).

(** ** The state *)

Record Log := MkLog {
  writerMx : bool;
  logLevel : LogLevel;
  log_path : string;
  log_file : option string;      (* the name of the open file *)
  both : bool;                   (* the writer is the terminal and the file *)
  allSubsystems : list string;
  AppName : string;
  Longest : Z;
  timeStampFormat : string;
  tty : list string;
  files : list (string * string) (* lines written to files, with the file *) }.

Definition with_mx (b : bool) (s : Log) : Log := MkLog b (logLevel s) (log_path s) (log_file s) (both s)
  (allSubsystems s) (AppName s) (Longest s) (timeStampFormat s) (tty s) (files s).
Definition with_level (l : LogLevel) (s : Log) : Log := MkLog (writerMx s) l (log_path s) (log_file s) (both s)
  (allSubsystems s) (AppName s) (Longest s) (timeStampFormat s) (tty s) (files s).
Definition with_path (p : string) (s : Log) : Log := MkLog (writerMx s) (logLevel s) p (log_file s) (both s)
  (allSubsystems s) (AppName s) (Longest s) (timeStampFormat s) (tty s) (files s).
Definition with_file (f : option string) (b : bool) (s : Log) : Log := MkLog (writerMx s) (logLevel s) (log_path s) f b
  (allSubsystems s) (AppName s) (Longest s) (timeStampFormat s) (tty s) (files s).
Definition with_subsystems (l : list string) (s : Log) : Log := MkLog (writerMx s) (logLevel s) (log_path s)
  (log_file s) (both s) l (AppName s) (Longest s) (timeStampFormat s) (tty s) (files s).
Definition with_format (f : string) (s : Log) : Log := MkLog (writerMx s) (logLevel s) (log_path s) (log_file s) (both s)
  (allSubsystems s) (AppName s) (Longest s) f (tty s) (files s).
Definition with_lines (t : list string) (f : list (string * string)) (s : Log) : Log := MkLog (writerMx s) (logLevel s)
  (log_path s) (log_file s) (both s) (allSubsystems s) (AppName s) (Longest s) (timeStampFormat s) t f.

Definition updL (f : Log → Log) : GoM Log unit := λ s, Ret (tt, f s).

(** [writerMx.Lock(); defer writerMx.Unlock()].  A Go mutex is not reentrant. *)
Definition locking {A} (m : GoM Log A) : GoM Log A :=
  s ← get;
  if writerMx s then panicM PBlock
  else updL (with_mx true) ;; a ← m; updL (with_mx false) ;; mret a.

(** ** Operations *)

#[local] Definition str_le (a b : string) : Prop := String.leb a b = true.
#[local] Instance str_le_dec a b : Decision (str_le a b) := decide (String.leb a b = true).

(** [Add] files the directory of its caller; its result is never assigned. *)
Definition Add (dir : string) : GoM Log string :=
  locking (s ← get; updL (with_subsystems (merge_sort str_le (allSubsystems s ++ [dir]))) ;; mret ""%string).

Definition GetAllSubsystems : GoM Log (list string) := locking (s ← get; mret (allSubsystems s)).
Definition GetLogLevel : GoM Log LogLevel := locking (s ← get; mret (logLevel s)).
Definition SetLogLevel (l : LogLevel) : GoM Log unit := locking (updL (with_level l)).
Definition SetTimeStampFormat (f : string) : GoM Log unit := updL (with_format f).

(** [OpenFile] answers with an error or opens the file at [path] to append. *)
Definition StartLogToFile (OpenFile : string → option error) : GoM Log (option error) :=
  locking (
    s ← get;
    match OpenFile (log_path s) with
    | Some e => updL (with_file None (both s)) ;; mret (Some e)
    | None => updL (with_file (Some (log_path s)) true) ;; mret None
    end).

Definition StopLogToFile : GoM Log (option error) := locking (updL (with_file None false) ;; mret None).

Definition SetLogFilePath (OpenFile : string → option error) (p : string) : GoM Log (option error) :=
  locking (
    s ← get;
    match log_file s with
    | Some _ =>
        e ← StopLogToFile;
        match e with
        | Some e => mret (Some e)
        | None => updL (with_path p) ;; StartLogToFile OpenFile
        end
    | None => updL (with_path p) ;; mret None
    end).

(** ** Printing *)

(** [joinStrings], of texts that are already formatted. *)
Definition joinStrings (sep : string) (a : list string) : string := Join sep a.

Definition newline : string := String "010" "".
Definition TrimSuffix_newline (s : string) : string :=
  let n := (String.length s - 1)%nat in
  if bool_decide (String.substring n 1 s = newline) then String.substring 0 n s else s.

(** What surrounds a text: the time, the location of the caller, the colours. *)
Record Surround := MkSurround { timeText : string; callerLoc : string; Colorizer : LogLevel → string → string }.

(** A line goes to the terminal, and to the file if one is open. *)
Definition Fprintln (line : string) (s : Log) : Log :=
  with_lines (tty s ++ [line])
    (match both s, log_file s with true, Some f => files s ++ [(f, line)] | _, _ => files s end) s.

Definition log_line (env : Surround) (level : LogLevel) (subsystem text : string) (s : Log) : string :=
  let loc :=
    if bool_decide (Info_ < logLevel s) then
      let l := subsystem +:+ callerLoc env in
      let count := Longest s - Z.of_nat (String.length l) + 1 in
      let count := if bool_decide (count < 0) then 0 else count in
      l +:+ String.concat "" (replicate (Z.to_nat (count + 1)) " "%string)
    else ""%string in
  TrimSuffix_newline
    (loc +:+ timeText env +:+ " " +:+ (ToUpper (AppName s) +:+ " ") +:+ Colorizer env level (GetLevelName level)
     +:+ " " +:+ text).

(** The printer's text is made by [printFunc], which runs under the lock. *)
Definition logPrint (env : Surround) (level : LogLevel) (subsystem : string) (printFunc : GoM Log string) : GoM Log unit :=
  locking (
    s ← get;
    if bool_decide (logLevel s < level) then mret tt
    else
      text ← printFunc;
      s ← get;
      updL (Fprintln (log_line env level subsystem text s))).

Definition Ln (env : Surround) (level : LogLevel) (subsystem : string) (a : list string) : GoM Log unit :=
  logPrint env level subsystem (mret (joinStrings " " a)).
Definition F (env : Surround) (level : LogLevel) (subsystem : string) (text : string) : GoM Log unit :=
  logPrint env level subsystem (mret text).
Definition C (env : Surround) (level : LogLevel) (subsystem : string) (closure : GoM Log string) : GoM Log unit :=
  logPrint env level subsystem closure.
Definition Chk (env : Surround) (level : LogLevel) (subsystem : string) (e : option string) : GoM Log bool :=
  match e with
  | Some e => logPrint env level subsystem (mret (joinStrings " " [e])) ;; mret true
  | None => mret false
  end.

(** ** What they do *)

Lemma locking_run {A} (m : GoM Log A) s : writerMx s = false →
  locking m s = (a ← m; updL (with_mx false) ;; mret a) (with_mx true s).
Proof. intros H. unfold locking, mbind, GoM_bind. cbn. by rewrite H. Qed.

Lemma locking_blocks {A} (m : GoM Log A) s : writerMx s = true → locking m s = Panic PBlock.
Proof. intros H. unfold locking, mbind, GoM_bind. cbn. by rewrite H. Qed.

Lemma unlock_mx s : writerMx s = false → with_mx false (with_mx true s) = s.
Proof. by destruct s; cbn; intros ->. Qed.

(** Changing the path of the log file while a log file is open never returns: the
    function stops the logging through a method that locks the mutex it holds. *)
Theorem SetLogFilePath_blocks OpenFile p s f : writerMx s = false → log_file s = Some f →
  SetLogFilePath OpenFile p s = Panic PBlock.
Proof.
  intros H E. unfold SetLogFilePath. rewrite locking_run by done. unfold mbind, GoM_bind. cbn. rewrite E. done.
Qed.

(** A printer whose level is enabled and whose text is made by a closure that logs
    never returns either. *)
Lemma logging_closure_blocks env env' level level' ss ss' a s : writerMx s = false → level ≤ logLevel s →
  C env level ss (Ln env' level' ss' a ;; mret ""%string) s = Panic PBlock.
Proof.
  intros H Hl. unfold C, logPrint. rewrite locking_run by done. unfold mbind, GoM_bind. cbn.
  by rewrite bool_decide_false by lia.
Qed.

(** A printer writes one line exactly when its level is enabled, to the terminal
    and to the file that is open, and leaves everything else as it was, the mutex
    free. *)
Theorem Ln_prints env level ss a s : writerMx s = false →
  Ln env level ss a s = Ret (tt,
    if bool_decide (logLevel s < level) then s
    else Fprintln (log_line env level ss (joinStrings " " a) s) s).
Proof.
  intros H. unfold Ln, logPrint. rewrite locking_run by done. unfold mbind, GoM_bind. cbn.
  destruct s. cbn in *. subst. by case_bool_decide.
Qed.

(** An error is reported as one, whatever the level. *)
Lemma Chk_reports env level ss e s : writerMx s = false →
  ∃ s', Chk env level ss e s = Ret (bool_decide (is_Some e), s').
Proof.
  intros H. destruct e as [e|]; [|by eexists]. unfold Chk.
  rewrite (bind_run _ _ _ _ _ (Ln_prints env level ss [e] s H)). by eexists.
Qed.

(** Subsystem names are collected but never given to the loggers. *)
Lemma Add_answers_nothing dir s : writerMx s = false → ∃ s', Add dir s = Ret (""%string, s').
Proof. intros H. unfold Add. rewrite locking_run by done. by eexists. Qed.

Lemma level_names_known l : 0 ≤ l ≤ 7 → GetLevelByString (GetLevelName l) Off = l.
Proof.
  intros Hl. assert (l = 0 ∨ l = 1 ∨ l = 2 ∨ l = 3 ∨ l = 4 ∨ l = 5 ∨ l = 6 ∨ l = 7) as H by lia.
  by destruct_or! H; subst l.
Qed.

Definition demo_log : Log := MkLog false Info_ "a.log" None false [] "ind" 10 "" [] [].

Lemma SetLogFilePath_blocks_witness :
  ∃ s, StartLogToFile (λ _, None) demo_log = Ret (None, s) ∧ SetLogFilePath (λ _, None) "b.log" s = Panic PBlock.
Proof. eexists. split; [reflexivity|]. by apply (SetLogFilePath_blocks _ _ _ "a.log"). Defined.

Lemma Ln_prints_witness :
  let env := MkSurround "12:00:00" "x.go:1" (λ _ s, s) in
  writerMx demo_log = false ∧
  ∃ s, Ln env Error "" ["hello"%string; "world"%string] demo_log = Ret (tt, s) ∧
    tty s = ["12:00:00 IND error hello world"%string] ∧ files s = [].
Proof.
  intros env. split; [reflexivity|]. eexists. split; [apply (Ln_prints env Error "" _ demo_log eq_refl)|].
  vm_compute. split; reflexivity.
Defined.
