(* ===== verification/Cmds.v ===== *)
(** * Commands, their options, and the configuration file

    Models [pkg/proc/cmds] ([commands.go], [args.go], [env.go], [marshal.go]) and
    [pkg/proc/app].  A command is a node of a tree; the options, which several
    calls read and write through the maps of the tree, live in a heap, and the
    slices that hold paths in a store of arrays.  Every [range] over a map takes
    its order from [range], which is told the loop it is asked for; [sort.Sort]
    with an order that may not be one is [sorted]. *)

From S2P Require Export Opts.
Import Strs.

Section Tree.
Context {fmts : Formats}.

(** ** The state *)

Record World := MkWorld {
  w_arrays : arrays;
  w_opts : gmap nat Opt;
  w_files : gmap string string }.

Definition with_opts (m : gmap nat Opt) (w : World) : World := MkWorld (w_arrays w) m (w_files w).
Definition with_arrays (a : arrays) (w : World) : World := MkWorld a (w_opts w) (w_files w).
Definition with_files (f : gmap string string) (w : World) : World := MkWorld (w_arrays w) (w_opts w) f.

Definition Opts_ : Type := list (string * nat).
Definition Op : Type := nat.
Definition NoOp : Op := 0%nat.

(** [Parent] is what the code reads through the pointer: the names of the
    ancestors, the nearest first. *)
Inductive Command := MkCommand {
  cmd_Path : pslice;
  Name : string;
  cmd_Description : string;
  cmd_Documentation : string;
  Entrypoint : option Op;
  cmd_Parent : list string;
  Commands : list Command;
  Configs : Opts_;
  cmd_Default : list string }.

Definition AddCommand (c cm : Command) : Command :=
  MkCommand (cmd_Path c) (Name c) (cmd_Description c) (cmd_Documentation c) (Entrypoint c)
    (cmd_Parent c) (Commands c ++ [cm]) (Configs c) (cmd_Default c).

(** The orders of maps, and the sorting of environment entries. *)
Record Orders := MkOrders {
  range : ∀ A, list nat → list A → list A;
  sorted : ∀ A, list A → list A }.
Context (ord : Orders).

(** A lookup in a map: its keys are distinct. *)
Definition map_get (k : string) (m : Opts_) : option nat := snd <$> head (filter (λ p, p.1 = k) m).
Definition map_set (k : string) (v : nat) (m : Opts_) : Opts_ := (k, v) :: filter (λ p, p.1 ≠ k) m.

Definition updW (f : World → World) : GoM World unit := λ s, Ret (tt, f s).

(** Through the pointer of an option. *)
Definition deref (l : nat) : GoM World Opt :=
  s ← get; match w_opts s !! l with Some o => mret o | None => panicM PNil end.
Definition write (l : nat) (o : Opt) : GoM World unit := updW (λ s, with_opts (<[l := o]> (w_opts s)) s).
Definition opt_FromString (l : nat) (v : string) : GoM World (option error) :=
  o ← deref l; let '(o, e) := FromString v o in write l o ;; mret e.
Definition opt_RunHooks (l : nat) : GoM World (option error) :=
  o ← deref l; let '(o, e) := RunHooks o in write l o ;; mret e.
Definition child_path (p : pslice) (x : string) : GoM World pslice :=
  s ← get; let '(q, m) := Paths.Child p x (w_arrays s) in updW (with_arrays m) ;; mret q.

(** ** Walking the tree

    [ForEach] with the closure's own state in [S]: the depth and the distance are
    what the Go function returns besides its arguments. *)
Fixpoint ForEach {S} (c : Command) (cl : Command → Z → GoM S bool) (hereDepth hereDist : Z) (cm : Command)
    : GoM S (Z * Z) :=
  go ← (if bool_decide (hereDepth = 0) then cl cm hereDepth else mret true);
  if go : bool then
    (fix loop (cs : list Command) (depth dist : Z) : GoM S (Z * Z) :=
       match cs with
       | [] => mret (depth - 1, dist)
       | x :: cs =>
           go ← cl x depth;
           if go : bool then
             r ← ForEach x cl depth (dist + 1) cm;
             loop cs r.1 r.2
           else mret (depth, dist)
       end) (Commands c) (hereDepth + 1) hereDist
  else mret (0, 0).

(** *** Init *)

Definition set_paths (p : pslice) (l : Opts_) : GoM World unit :=
  foldr (λ kv r, (o ← deref kv.2; write kv.2 (SetPath p o)) ;; r) (mret tt) l.

(** The closure [Init] walks with: the hooks of a command's options, up to the
    first that fails; [err] is the variable it shares with [Init]. *)
Fixpoint hooks_loop (l : Opts_) : GoM (World * option error) bool :=
  match l with
  | [] => mret true
  | (_, o) :: l => λ s,
      r ← opt_RunHooks o s.1;
      let s := (r.2, r.1) in
      match r.1 with Some _ => Ret (false, s) | None => hooks_loop l s end
  end.

Definition run_all_hooks (c : Command) (err : option error) : GoM World (option error) := λ s,
  r ← ForEach c (λ cm d s, hooks_loop (range ord _ [3%nat; Z.to_nat d] (Configs cm)) s) 0 0 c (s, err);
  Ret (r.2.2, r.2.1).

Fixpoint Init (parents : list string) (c : Command) (p : pslice) : GoM World (Command * option error) :=
  let entry := match Entrypoint c with None => Some NoOp | o => o end in
  p ← (match p with
       | None => s ← get; let '(q, m) := Paths.alloc [Name c] (w_arrays s) in updW (with_arrays m) ;; mret q
       | _ => mret p
       end);
  set_paths p (range ord _ [1]%nat (Configs c)) ;;
  r ← (fix loop (cs : list Command) (err : option error) : GoM World (list Command * option error) :=
         match cs with
         | [] => mret ([], err)
         | x :: cs =>
             _ ← child_path p (Name x);
             q ← child_path p (Name x);
             r ← Init (Name c :: parents) x q;
             r' ← loop cs r.2;
             mret (r.1 :: r'.1, r'.2)
         end) (Commands c) None;
  let c := MkCommand p (Name c) (cmd_Description c) (cmd_Documentation c) entry parents r.1 (Configs c) (cmd_Default c) in
  e ← run_all_hooks c r.2;
  mret (c, e).

(** *** Finding an option by its path *)

Fixpoint GetOpt (c : Command) (path : list string) : option nat :=
  match path with
  | p0 :: rest =>
      match rest with
      | [] => None
      | [p1] =>
          if bool_decide (Norm (Name c) = Norm p0)
          then snd <$> head (filter (λ kv, Norm kv.1 = Norm p1) (range ord _ [2]%nat (Configs c)))
          else None
      | p1 :: _ =>
          match head (filter (λ cc, Norm (Name cc) = Norm p1) (Commands c)) with
          | Some cc => GetOpt cc rest
          | None => None
          end
      end
  | [] => None
  end.

Definition GetValue (c : Command) (key : string) : GoM World Concrete :=
  match map_get key (Configs c) with
  | Some l => o ← deref l; mret (Opt_Value o)
  | None => panicM PNil
  end.
Definition GetListValue (c : Command) (key : string) : GoM World (list string) :=
  v ← GetValue c key; mret (c_List v).
Definition GetTextValue (c : Command) (key : string) : GoM World string :=
  v ← GetValue c key; mret (c_Text v).

(** ** The command line *)

(** The names of one option: its key and its aliases. *)
Fixpoint value_names (o : nat) (name val : string) (ns : list string) : GoM World (option error) :=
  match ns with
  | [] => mret None
  | n :: ns =>
      if bool_decide (Norm n = Norm name) then
        e ← opt_FromString o val;
        match e with Some e => mret (Some e) | None => value_names o name val ns end
      else value_names o name val ns
  end.

Fixpoint value_configs (name val : string) (l : Opts_) : GoM World (option error) :=
  match l with
  | [] => mret None
  | (cfgName, o) :: l =>
      op ← deref o;
      e ← value_names o name val (cfgName :: Aliases (md_data (o_m op)));
      match e with Some e => mret (Some e) | None => value_configs name val l end
  end.

(** An option that is not found is passed over in silence. *)
Definition valueInArg (site : list nat) (cmd : Command) (arg : string) : GoM World (option error) :=
  let split := Split "=" arg in
  let split := if bool_decide (2 < length split)%nat
               then take 1 split ++ [Join "=" (drop 1 split)] else split in
  name ← lift (goindex split 0);
  val ← lift (goindex split 1);
  value_configs name val (range ord _ site (Configs cmd)).

(** What [lookAhead] makes of an option whose name matched; [None] is the
    [continue] of an option that has no value. *)
Definition look_match (o : nat) (iArgs : list string) (cursor inc : Z)
    : GoM World (option (Z * option error)) :=
  op ← deref o;
  let next := bool_decide (cursor < zlen iArgs - 1) in
  let flip : GoM World (option error → option (Z * option error)) :=
    (opt_FromString o (Default (md_data (o_m op))) ;;
     op ← deref o;
     opt_FromString o (FormatBool (negb (c_Bool (Opt_Value op)))) ;;
     mret (λ e, Some (inc, e))) in
  let truth (e : option error) : GoM World (option (Z * option error)) :=
    if next then
      v ← lift (goindex iArgs (cursor + 1));
      e ← opt_FromString o v;
      match e with None => mret (Some (inc + 1, None)) | Some _ => k ← flip; mret (k e) end
    else k ← flip; mret (k e) in
  if decide (Opt_Type op = Bool) then truth None
  else if negb next then mret None
  else
    v ← lift (goindex iArgs (cursor + 1));
    e ← opt_FromString o v;
    match e with Some _ => mret (Some (inc + 1, e)) | None => truth None end.

Fixpoint look_names (o : nat) (arg : string) (iArgs : list string) (found : bool) (cursor inc : Z)
    (ns : list string) : GoM World (bool * Z * Z * option error) :=
  match ns with
  | [] => mret (found, cursor, inc, None)
  | n :: ns =>
      if bool_decide (Norm n = Norm arg) then
        r ← look_match o iArgs cursor inc;
        match r with
        | Some (inc, e) => mret (true, cursor, inc, e)
        | None => look_names o arg iArgs found cursor inc ns
        end
      else look_names o arg iArgs found cursor inc ns
  end.

Definition lookAhead (cfgName : string) (o : nat) (arg : string) (iArgs : list string)
    (found : bool) (cursor inc : Z) : GoM World (bool * Z * Z * option error) :=
  op ← deref o;
  look_names o arg iArgs found cursor inc (cfgName :: Aliases (md_data (o_m op))).

(** Every option of the command is tried; the error is that of the last. *)
Fixpoint look_configs (arg : string) (iArgs : list string) (l : Opts_)
    (found : bool) (cursor inc : Z) (e : option error) : GoM World (bool * Z * Z * option error) :=
  match l with
  | [] => mret (found, cursor, inc, e)
  | (cfgName, o) :: l =>
      r ← lookAhead cfgName o arg iArgs found cursor inc;
      let '(found, cursor, inc, e) := r in look_configs arg iArgs l found cursor inc e
  end.

Definition trim_dashes (arg : string) : string :=
  let arg := String.substring 1 (String.length arg - 1) arg in
  if HasPrefix arg "-" then String.substring 1 (String.length arg - 1) arg else arg.

(** The options of one segment.  The result says whether the caller returns at
    once.  The cursor grows with every round, so its length bounds the rounds. *)
Fixpoint parse_options (i : nat) (cmd : Command) (iArgs : list string) (fuel : nat) (cursor : Z)
    (e : option error) : GoM World (bool * option error) :=
  if bool_decide (cursor < zlen iArgs) then
    match fuel with
    | O => panicM PFuel
    | S fuel =>
        let site := [4; i; Z.to_nat cursor]%nat in
        arg ← lift (goindex iArgs cursor);
        if bool_decide (arg = ""%string) then parse_options i cmd iArgs fuel (cursor + 1) e
        else if negb (HasPrefix arg "-") then
          mret (true, Some (Errorf "argument %s missing '-', context %s, most likely misspelled subcommand" []))
        else
          let arg := trim_dashes arg in
          if Contains "=" arg then
            e ← valueInArg site cmd arg;
            match e with
            | Some e => mret (true, Some e)
            | None => parse_options i cmd iArgs fuel (cursor + 1) None
            end
          else
            r ← look_configs arg iArgs (range ord _ site (Configs cmd)) false cursor 1 e;
            let '(found, cursor, inc, e) := r in
            if found : bool then parse_options i cmd iArgs fuel (cursor + inc) e
            else mret (true, Some (Errorf "option not found: '%s' context %v" []))
    end
  else mret (false, e).

(** The first pass: the commands named in the arguments, in order, and the
    segments they cut the arguments into. *)
Fixpoint first_pass (cur : Command) (seg : list string) (args : list string)
    : list Command * list (list string) :=
  match args with
  | [] => ([], [seg])
  | a :: args =>
      match head (filter (λ cc, Norm a = Norm (Name cc)) (Commands cur)) with
      | Some cc => let '(cs, segs) := first_pass cc [a] args in (cc :: cs, seg :: segs)
      | None => first_pass cur (seg ++ [a]) args
      end
  end.

(** The second pass; [help] takes what is left as it is. *)
Fixpoint second_pass (i : nat) (cmds : list Command) (segs : list (list string)) (runArgs : list string)
    (e : option error) : GoM World (bool * list string * option error) :=
  match cmds, segs with
  | cmd :: cmds, seg :: segs =>
      match seg with
      | [] => second_pass (S i) cmds segs runArgs e
      | _ :: iArgs =>
          if bool_decide (Norm (Name cmd) = "help"%string) then mret (false, iArgs, e)
          else
            r ← parse_options i cmd iArgs (length iArgs) 0 e;
            if r.1 : bool then mret (true, iArgs, r.2)
            else second_pass (S i) cmds segs iArgs r.2
      end
  | _, _ => mret (false, runArgs, e)
  end.

(** The default command: the last of each name along the way; [lastFound] is the
    position of the last name that was found, zero if none was. *)
Fixpoint find_default (i : nat) (def : list string) (run : Command) (lastFound : nat) : Command * nat :=
  match def with
  | [] => (run, lastFound)
  | d :: def =>
      match last (filter (λ sc, Name sc = d) (Commands run)) with
      | Some sc => find_default (S i) def sc i
      | None => find_default (S i) def run lastFound
      end
  end.

Definition ParseCLIArgs (c : Command) (a : list string) : GoM World (option Command * list string * option error) :=
  let args := filter (λ s, s ≠ ""%string) a in
  let '(cs, segments) := first_pass c [] args in
  let run := last cs in
  r ← second_pass 0 (c :: cs) segments [] None;
  let '(stop, runArgs, e) := r in
  if stop : bool then mret (run, runArgs, e)
  else if bool_decide (0 < length (cmd_Default c) ∧ length segments < 2)%nat then
    let '(run, lastFound) := find_default 0 (cmd_Default c) c 0 in
    mret (Some run, runArgs,
          if bool_decide (lastFound = length (cmd_Default c) - 1)%nat then e
          else Some (Errorf "default command %v not found at %s" []))
  else mret (run, runArgs, e).
End Tree.
