(* ===== verification/Config.v ===== *)
(** * Environment variables, the configuration file, and the start of an application

    Models [env.go], [marshal.go] and [GetConfigBase] of [pkg/proc/cmds], and
    [pkg/proc/app].  The TOML parser is a parameter; a file system is a map from
    names to contents, with directories left out. *)

From S2P Require Export Cmds.
Import Strs.

(** What [toml.Unmarshal] stores in an [interface{}].  The order of a table is
    that in which the one loop over it will see its keys. *)
Inductive toml `{Formats} :=
| TTable (l : list (string * toml)) | TBool (b : bool) | TInteger (z : Z) | TFloat (f : float)
| TString (s : string) | TArray (l : list toml) | TOther.

(** [toml.Unmarshal]; [None] is a nil result, left by a text that does not parse. *)
Class Toml `{Formats} := Unmarshal : string → option toml.

(** What the logging package answers. *)
Record Logger := MkLogger {
  SetLogFilePath : string → option error; StartLogToFile : option error; StopLogToFile : option error }.

Section Config.
Context {fmts : Formats} {tml : Toml} (ord : Orders).

(** ** Environment variables *)

Record Env := MkEnv { env_Name : pslice; env_Opt : nat }.

Definition join_paths (m : arrays) (n : nat) (p : pslice) : string := Join "_" (take n (Paths.elems m p)).

(** [Less] compares only what the last round of its loop leaves. *)
Definition Less (m : arrays) (a b : Env) : bool :=
  let li := length (Paths.elems m (env_Name a)) in
  let lj := length (Paths.elems m (env_Name b)) in
  if bool_decide (li < lj)%nat then true
  else String.ltb (join_paths m lj (env_Name a)) (join_paths m lj (env_Name b)).

Fixpoint env_configs (path : pslice) (l : Opts_) : GoM World (list Env) :=
  match l with
  | [] => mret []
  | (i, o) :: l =>
      n ← child_path path i;
      r ← env_configs path l;
      mret (MkEnv n o :: r)
  end.

Fixpoint GetEnvs (c : Command) (path : pslice) : GoM World (list Env) :=
  path ← (match path with
          | None => s ← get; let '(q, m) := Paths.alloc [Name c] (w_arrays s) in updW (with_arrays m) ;; mret q
          | _ => mret path
          end);
  envs ← env_configs path (range ord _ [5]%nat (Configs c));
  subs ← (fix loop (cs : list Command) : GoM World (list Env) :=
            match cs with
            | [] => mret []
            | x :: cs =>
                q ← child_path path (Name x);
                e ← GetEnvs x q;
                r ← loop cs;
                mret (e ++ r)
            end) (Commands c);
  mret (sorted ord _ (envs ++ subs)).

(** [Envs.ForEach]: the name is read when its turn comes. *)
Fixpoint Envs_ForEach (e : list Env) (fn : string → nat → GoM World (option error)) : GoM World (option error) :=
  match e with
  | [] => mret None
  | x :: e =>
      s ← get;
      err ← fn (Join "_" (ToUpper <$> Paths.elems (w_arrays s) (env_Name x))) (env_Opt x);
      match err with Some err => mret (Some err) | None => Envs_ForEach e fn end
  end.

Definition LoadFromEnvironment (LookupEnv : string → option string) (e : list Env) : GoM World (option error) :=
  Envs_ForEach e (λ env o, match LookupEnv env with Some v => opt_FromString o v | None => mret None end).

(** ** The configuration file *)

Record Entry := MkEntry { ent_path : pslice; ent_name : string; ent_value : toml }.

Fixpoint append_all (p : pslice) (l : list string) : GoM World pslice :=
  match l with [] => mret p | x :: l => q ← child_path p x; append_all q l end.

Fixpoint walk (p : pslice) (v : toml) (o : list Entry) : GoM World (list Entry) :=
  s ← get;
  parent ← append_all None (Paths.elems (w_arrays s) p);
  match v with
  | TTable vv =>
      (fix loop (vv : list (string * toml)) (o : list Entry) : GoM World (list Entry) :=
         match vv with
         | [] => mret o
         | (i, x) :: vv =>
             q ← child_path parent i;
             match x with
             | TTable _ => o ← walk q x o; loop vv o
             | _ => loop vv (o ++ [MkEntry q i x])
             end
         end) vv o
  | _ => mret o
  end.

Fixpoint all_strings (l : list toml) : Out (list string) :=
  match l with
  | [] => Ret []
  | TString s :: l => r ← all_strings l; Ret (s :: r)
  | _ => Panic (PMsg "interface conversion")
  end.

(** The value of an entry that has the type of the option; a duration is never
    one of the types the parser delivers. *)
Definition entry_value (t : Type_) (v : toml) : Out (option value) :=
  match t, v with
  | Bool, TBool b => Ret (Some (VBool b))
  | Float, TFloat f => Ret (Some (VFloat f))
  | Integer, TInteger z => Ret (Some (VInteger z))
  | List, TArray l => r ← all_strings l; Ret (Some (VList r))
  | Text, TString s => Ret (Some (VText s))
  | _, _ => Ret None
  end.

Definition FromValue (v : value) (o : Opt) : Opt :=
  match v with
  | VBool b => Toggle.FromValue b o | VFloat f => FloatOpt.FromValue f o
  | VInteger z => IntegerOpt.FromValue z o | VList l => ListOpt.FromValue l o
  | VText s => TextOpt.FromValue s o | VDuration d => DurationOpt.FromValue d o
  end.

Fixpoint set_entries (c : Command) (oo : list Entry) : GoM World unit :=
  match oo with
  | [] => mret tt
  | x :: oo =>
      s ← get;
      (match GetOpt ord c (Paths.elems (w_arrays s) (ent_path x)) with
       | Some l =>
           op ← deref l;
           v ← lift (entry_value (Opt_Type op) (ent_value x));
           match v with Some v => write l (FromValue v op) | None => mret tt end
       | None => mret tt
       end) ;;
      set_entries c oo
  end.

(** The error of the parser is dropped. *)
Definition UnmarshalText (c : Command) (t : string) : GoM World (option error) :=
  oo ← (match Unmarshal t with Some out => walk None out [] | None => mret [] end);
  set_entries c (sorted ord _ oo) ;;
  mret None.

(** *** Writing *)

Definition quote : string := String "034" "".
Definition newline : string := String "010" "".
Definition list_sep : string := quote +:+ ", " +:+ quote.

Definition ReplaceCommas (s : string) : string := Join list_sep (Split "," s).

(** The path in a header keeps only the last ancestor with a name. *)
Definition cmdPath (parents : list string) : string :=
  foldl (λ acc n, if bool_decide (n = ""%string) then acc else n +:+ ".") "" parents.

Definition marshal_opt (i : string) (op : Opt) : string :=
  let md := md_data (o_m op) in
  let st := Opt_String op in
  let df := Default md in
  let '(lq, rq, st, df) :=
    match Opt_Type op with
    | Duration | Text => (quote, quote, st, df)
    | List =>
        let st := ReplaceCommas st in
        let df := ReplaceCommas df in
        if bool_decide (st = ""%string) then ("[ "%string, "]"%string, st, df)
        else ("[ " +:+ quote, quote +:+ " ]", st, df)
    | _ => (""%string, ""%string, st, df)
    end in
  "# " +:+ i +:+ " - " +:+ Description md +:+ " - default: " +:+ lq +:+ df +:+ rq +:+ newline +:+
  i +:+ " = " +:+ lq +:+ st +:+ rq +:+ newline.

Definition marshal_header (cmd : Command) : string :=
  let name := cmdPath (cmd_Parent cmd) +:+ Name cmd in
  "# " +:+ name +:+ ": " +:+ cmd_Description cmd +:+ newline +:+ "[" +:+ name +:+ "]" +:+ newline +:+ newline.

(** The text so far is the second part of the state. *)
Definition emit (t : string) : GoM (World * string) unit := λ s, Ret (tt, (s.1, s.2 +:+ t)).

Fixpoint marshal_opts (l : Opts_) : GoM (World * string) unit :=
  match l with
  | [] => mret tt
  | (i, o) :: l =>
      op ← (λ s, r ← deref o s.1; Ret (r.1, s));
      emit (marshal_opt i op) ;;
      marshal_opts l
  end.

(** [sort.Strings] on the names of the options. *)
Definition name_le (a b : string * nat) : Prop := String.leb a.1 b.1 = true.
#[local] Instance name_le_dec a b : Decision (name_le a b) := decide (String.leb a.1 b.1 = true).
Definition sorted_names (l : Opts_) : Opts_ := merge_sort name_le l.

Definition marshal_cmd (cmd : Command) (_ : Z) : GoM (World * string) bool :=
  if bool_decide (length (Configs cmd) < 1)%nat then mret true
  else
    emit (if bool_decide (Name cmd = ""%string) then "" else marshal_header cmd) ;;
    marshal_opts (sorted_names (Configs cmd)) ;;
    emit newline ;;
    mret true.

Definition MarshalText (c : Command) : GoM World string := λ s,
  r ← ForEach c marshal_cmd 0 0 c (s, ""%string);
  Ret (r.2.2, r.2.1).

(** *** Files *)

(** The file is opened without truncation: what the new text does not cover stays. *)
Definition write_file (f content : string) : GoM World unit :=
  updW (λ s, with_files (<[f := match w_files s !! f with
                                | Some old => content +:+ String.substring (String.length content)
                                                (String.length old - String.length content) old
                                | None => content
                                end]> (w_files s)) s).

Definition expanded_of (o : option nat) : GoM World string :=
  match o with Some l => op ← deref l; mret (Expanded op) | None => panicM PNil end.

Definition SaveConfig (c : Command) : GoM World (option error) :=
  expanded_of (GetOpt ord c [Name c; "DataDir"%string]) ;;
  f ← expanded_of (GetOpt ord c (Paths.From (Name c +:+ " configfile")));
  cf ← MarshalText c;
  write_file f cf ;;
  mret None.

Definition LoadConfig (c : Command) : GoM World (option error) :=
  f ← expanded_of (GetOpt ord c [Name c; "ConfigFile"%string]);
  s ← get;
  match w_files s !! f with
  | None => SaveConfig c
  | Some all => UnmarshalText c all
  end.

(** ** An application *)

Definition configFilename : string := "config.toml".
Definition level_names : list string := ["off"; "fatal"; "error"; "check"; "warn"; "info"; "debug"; "trace"]%string.

(** A level that is not one becomes "info"; storing it runs the hook once more,
    which then passes. *)
Definition level_hook : Hook := λ c,
  let v := TrimSpace (c_Text (Value (c_v c))) in
  if decide (Norm v ∈ level_names) then (c, None)
  else (MkCell (VText "info") (c_x c), Some (Errorf "log level value %s not valid from %v" [])).

Definition logfile_hook (lg : Logger) : Hook := λ c, (c, SetLogFilePath lg (c_Text (Value (c_x c)))).
Definition logtofile_hook (lg : Logger) : Hook := λ c,
  (c, if c_Bool (Value (c_v c)) then StartLogToFile lg else StopLogToFile lg).

Definition default_dirs (goos appName : string) : string * string :=
  if bool_decide (goos ∈ ["linux"; "aix"; "freebsd"; "netbsd"; "openbsd"; "dragonfly"]%string) then
    let d := "~/." +:+ appName in (d, d +:+ "/" +:+ configFilename)
  else if bool_decide (goos = "windows"%string) then
    let d := "%LOCALAPPDATA%\" +:+ appName in (d, "%LOCALAPPDATA%\" +:+ d +:+ "\" +:+ configFilename)
  else if bool_decide (goos = "darwin"%string) then
    let d := FilepathJoin ["~"; "Library"; "Application Support"; ToUpper appName]%string in
    (d, FilepathJoin [d; configFilename])
  else (""%string, ""%string).

Definition LvlStr : string := Join " " level_names.
Definition doc_ConfigFile : string := TrimSpace "
The configuration file path defines the place where the configuration will be
loaded from at application startup, and where it will be written if changed.
".
Definition doc_LogLevel : string := TrimSpace ("
Log levels are values in ascending order with the following names:	

	" +:+ LvlStr +:+ "

The level set in this configuration item defines the limit in ascending order
of what log level printers will output. Default is 'info' which means debug and 
trace log statements will not print. 
").

Definition base_options (goos : string) (env : Environ) (lg : Logger) (appName : string) (abs : bool)
    : list (string * Opt) :=
  let '(dir, file) := default_dirs goos appName in
  let md al label desc doc def := MkData al [] label desc doc def [] in
  [("ConfigFile", TextOpt.New (md ["CF"] "Configuration File" "location of configuration file" doc_ConfigFile file)
      [TextOpt.NormalizeFilesystemPath env abs appName]);
   ("DataDir", TextOpt.New (md ["DD"] "Data Directory" "root folder where application data is stored" "" dir)
      [TextOpt.NormalizeFilesystemPath env abs appName]);
   ("LogLevel", TextOpt.New (md ["LL"] "Log Level" ("Level of logging to print: [ " +:+ LvlStr +:+ " ]") doc_LogLevel "info")
      [level_hook]);
   ("LogFilePath", TextOpt.New (md ["LFP"] "Log ToHeaderPub File" "Write logs to the specified file"
      "Sets the path of the file to write logs to." (FilepathJoin [dir; "log.txt"]))
      [logfile_hook lg; TextOpt.NormalizeFilesystemPath env abs appName]);
   ("LogToFile", Toggle.New (md ["LTF"] "Log ToHeaderPub File" "Enable writing of logs"
      "Enables the writing of logs to the file path defined in LogFilePath." "false")
      [logtofile_hook lg])]%string.

(** [new(text.Opt)] and its like: a pointer nothing else holds. *)
Definition alloc_opt (o : Opt) : GoM World nat :=
  s ← get; let l := fresh (dom (w_opts s)) in write l o ;; mret l.

Fixpoint add_options (l : list (string * Opt)) (m : Opts_) : GoM World Opts_ :=
  match l with
  | [] => mret m
  | (k, o) :: l => p ← alloc_opt o; add_options l (map_set k p m)
  end.

Definition GetConfigBase (goos : string) (env : Environ) (lg : Logger) (m : Opts_) (appName : string) (abs : bool)
    : GoM World Opts_ := add_options (base_options goos env lg appName abs) m.

Definition HelpEntrypoint : Op := 1%nat.
Definition help_text : string :=
  "Uses partial matching, if result is ambiguous, prints general top level
help and the list of partial match terms.

If single term exactly matches a command, the command help will be printed.

Otherwise, a list showing all items, their paths, and description are shown.

Use their full path and the full documentation for the item will be shown.

Note that in all cases, options are only recognised after their
related subcommand.".
Definition Help : Command :=
  MkCommand None "help"
    "Print help information, optionally multiple keywords can be given and will be searched to generate output"
    help_text (Some HelpEntrypoint) [] [] [] [].

Record App := MkApp { app_Command : Command; launch : option Command; runArgs : list string; app_Envs : list Env }.

Definition with_configs (m : Opts_) (c : Command) : Command :=
  MkCommand (cmd_Path c) (Name c) (cmd_Description c) (cmd_Documentation c) (Entrypoint c)
    (cmd_Parent c) (Commands c) m (cmd_Default c).

(** [app.New]: options from the command line, the file, the environment, and the
    command line again. *)
Definition New (goos : string) (env : Environ) (lg : Logger) (LookupEnv : string → option string)
    (c : Command) (args : list string) : GoM World (App * option error) :=
  m ← GetConfigBase goos env lg (Configs c) (Name c) false;
  let c := AddCommand (with_configs m c) Help in
  r ← Init ord (cmd_Parent c) c None;
  let '(c, e) := r in
  match e with
  | Some e => mret (MkApp c None [] [], Some e)
  | None =>
      r ← ParseCLIArgs ord c args;
      let '(run, _, e) := r in
      match e with
      | Some e => mret (MkApp c run [] [], Some e)
      | None =>
          e ← LoadConfig c;
          match e with
          | Some e => mret (MkApp c run [] [], Some e)
          | None =>
              envs ← GetEnvs c None;
              e ← LoadFromEnvironment LookupEnv envs;
              match e with
              | Some e => mret (MkApp c run [] envs, Some e)
              | None =>
                  r ← ParseCLIArgs ord c args;
                  let '(run, rargs, e) := r in
                  mret (MkApp c run rargs envs, e)
              end
          end
      end
  end.

(** [Launch] calls the entry point of the chosen command with its arguments. *)
Definition Launch (entry : Op → Command → list string → option error) (a : App) : Out (option error) :=
  match launch a with
  | Some c => match Entrypoint c with Some op => Ret (entry op c (runArgs a)) | None => Panic PNil end
  | None => Panic PNil
  end.
End Config.
