(* ===== verification/CmdsProps.v ===== *)
(** * The command line, the environment and the configuration file

    Every part of a start keeps the pointers and the metadata of the options, so
    what the last parse of the command line assigns is what an application starts
    with. *)

From S2P Require Export OptsProps Config.
Import Strs.

(** ** What calls do to the heap *)

Section Frames.
Context {fmts : Formats}.

(** A preorder on states that contains every change of a call. *)
Definition frames {St A} (R : St → St → Prop) (m : GoM St A) : Prop := ∀ s, after m s (λ _ s', R s s').

Section Combinators.
Context {St : Type} (R : St → St → Prop) `{!PreOrder R}.

Lemma frames_mret {A} (a : A) : frames R (mret a).
Proof. intros s. apply after_mret. reflexivity. Qed.

Lemma frames_get : frames R get.
Proof. intros s. apply after_get. reflexivity. Qed.

Lemma frames_panic {A} p : frames R (panicM (A := A) p).
Proof. intros s. apply after_panic. Qed.

Lemma frames_lift {A} (o : Out A) : frames R (lift o).
Proof. intros s. apply after_lift. reflexivity. Qed.

Lemma frames_bind {A B} (m : GoM St A) (f : A → GoM St B) :
  frames R m → (∀ a, frames R (f a)) → frames R (a ← m; f a).
Proof.
  intros Hm Hf s. apply after_bind. eapply after_weaken; [apply Hm|]. intros a s1 H1 b s2 E.
  transitivity s1; [done|]. by eapply Hf.
Qed.

End Combinators.

Lemma frames_deref (R : World → World → Prop) `{!PreOrder R} l : frames R (deref l).
Proof.
  unfold deref. apply frames_bind; [exact _|apply frames_get; exact _|]. intros s.
  destruct (w_opts s !! l); [by apply frames_mret|apply frames_panic].
Qed.

(** The options stay where they are and keep their names, types and hooks. *)
Definition same_option (op op' : Opt) : Prop := o_m op' = o_m op ∧ o_h op' = o_h op.

#[export] Instance same_option_preorder : PreOrder same_option.
Proof. split; [done|]. intros o1 o2 o3 [M1 H1] [M2 H2]. split; congruence. Qed.

Definition kept (s s' : World) : Prop :=
  ∀ l op, w_opts s !! l = Some op → ∃ op', w_opts s' !! l = Some op' ∧ same_option op op'.

#[export] Instance kept_preorder : PreOrder kept.
Proof.
  split; [intros s l op E; by exists op|]. intros s1 s2 s3 H12 H23 l op E.
  destruct (H12 l op E) as (op2 & E2 & M2). destruct (H23 l op2 E2) as (op3 & E3 & M3).
  exists op3. split; [done|by transitivity op2].
Qed.

Lemma kept_same s s' : w_opts s' = w_opts s → kept s s'.
Proof. intros E l op. rewrite E. intros ?. by exists op. Qed.

Lemma kept_insert l op op' s : w_opts s !! l = Some op → same_option op op' →
  kept s (with_opts (<[l := op']> (w_opts s)) s).
Proof.
  intros E M k o Ek. destruct (decide (k = l)) as [->|Hk]; cbn.
  - rewrite lookup_insert_eq. simplify_eq. eauto.
  - rewrite lookup_insert_ne by done. by exists o.
Qed.

Lemma updW_kept f : (∀ s, w_opts (f s) = w_opts s) → frames kept (updW f).
Proof. intros Hf s u s' [= _ <-]. by apply kept_same. Qed.

(** Operations through a pointer, in one piece. *)
Definition through {A} (f : Opt → Opt * A) (l : nat) (s : World) : Out (A * World) :=
  match w_opts s !! l with
  | Some o => Ret ((f o).2, with_opts (<[l := (f o).1]> (w_opts s)) s)
  | None => Panic PNil
  end.

Lemma opt_FromString_run l v s : opt_FromString l v s = through (FromString v) l s.
Proof.
  unfold opt_FromString, deref, through, write. cbn. unfold mbind, GoM_bind. cbn.
  destruct (w_opts s !! l) as [o|]; [|done]. cbn. by destruct (FromString v o).
Qed.

Lemma opt_RunHooks_run l s : opt_RunHooks l s = through RunHooks l s.
Proof.
  unfold opt_RunHooks, deref, through, write. cbn. unfold mbind, GoM_bind. cbn.
  destruct (w_opts s !! l) as [o|]; [|done]. cbn. by destruct (RunHooks o).
Qed.

Lemma opt_deref_run l s : deref l s = match w_opts s !! l with Some o => Ret (o, s) | None => Panic PNil end.
Proof. unfold deref. cbn. unfold mbind, GoM_bind. cbn. by destruct (w_opts s !! l). Qed.

Lemma through_kept {A} (f : Opt → Opt * A) l : (∀ o, same_option o (f o).1) → frames kept (through f l).
Proof.
  intros Hf s a s' E. unfold through in E. destruct (w_opts s !! l) as [o|] eqn:El; [|done].
  injection E as <- <-. eapply kept_insert; [done|apply Hf].
Qed.

Lemma opt_FromString_kept l v : frames kept (opt_FromString l v).
Proof.
  intros s a s' E. rewrite opt_FromString_run in E. eapply through_kept; [|done]. intros o. by destruct (FromString_frame v o) as (_ & M & H).
Qed.

Lemma RunHooks_same o : same_option o (RunHooks o).1.
Proof.
  unfold RunHooks, Toggle.RunHooks, TextOpt.RunHooks, IntegerOpt.RunHooks, FloatOpt.RunHooks, ListOpt.RunHooks,
    DurationOpt.RunHooks, hooks_of. destruct (Opt_Type o); repeat case_match; by simplify_eq/=.
Qed.

Lemma opt_RunHooks_kept l : frames kept (opt_RunHooks l).
Proof.
  intros s a s' E. rewrite opt_RunHooks_run in E. eapply through_kept; [|done]. apply RunHooks_same.
Qed.
End Frames.

(** Calls are walked through; what they call is left to the hints. *)
Create HintDb frames.
#[export] Hint Resolve frames_mret frames_get frames_panic frames_lift frames_deref
  opt_FromString_kept opt_RunHooks_kept : frames.
#[export] Hint Extern 1 (PreOrder _) => exact _ : frames.
#[export] Hint Resolve updW_kept : frames.
Ltac framing := repeat first
  [ match goal with |- ∀ _, _ => intros ? end
  | solve [eauto with frames nocore typeclass_instances]
  | match goal with |- frames _ (_ ≫= _) => apply frames_bind; [exact _| |] end
  | case_match ].

(** Commands nest. *)
Lemma Command_nested_ind (P : Command → Prop) :
  (∀ c, Forall P (Commands c) → P c) → ∀ c, P c.
Proof.
  intros H. fix IH 1. intros c. apply H. destruct c as [? ? ? ? ? ? cs ? ?]. cbn.
  induction cs as [|x cs IHcs]; constructor; [apply IH|done].
Qed.

(** ** The parse keeps names and types *)

Section Parse.
Context {fmts : Formats} (ord : Orders).

Lemma value_names_kept o name val ns : frames kept (value_names o name val ns).
Proof. induction ns; cbn [value_names]; framing. Qed.
#[local] Hint Resolve value_names_kept : frames.

Lemma value_configs_kept name val l : frames kept (value_configs name val l).
Proof. induction l as [|[k o] l IH]; cbn [value_configs]; framing. Qed.
#[local] Hint Resolve value_configs_kept : frames.

Lemma valueInArg_kept site cmd arg : frames kept (valueInArg ord site cmd arg).
Proof. unfold valueInArg. framing. Qed.
#[local] Hint Resolve valueInArg_kept : frames.

Lemma look_match_kept o iArgs cursor inc : frames kept (look_match o iArgs cursor inc).
Proof. unfold look_match. framing. Qed.
#[local] Hint Resolve look_match_kept : frames.

Lemma look_names_kept o arg iArgs found cursor inc ns : frames kept (look_names o arg iArgs found cursor inc ns).
Proof. induction ns; cbn [look_names]; framing. Qed.
#[local] Hint Resolve look_names_kept : frames.

Lemma look_configs_kept arg iArgs l found cursor inc e : frames kept (look_configs arg iArgs l found cursor inc e).
Proof.
  revert found cursor inc e. induction l as [|[k o] l IH]; intros; cbn [look_configs]; unfold lookAhead; framing.
Qed.
#[local] Hint Resolve look_configs_kept : frames.

Lemma parse_options_kept i cmd iArgs fuel cursor e : frames kept (parse_options ord i cmd iArgs fuel cursor e).
Proof. revert cursor e. induction fuel; intros; cbn [parse_options]; framing. Qed.
#[local] Hint Resolve parse_options_kept : frames.

Lemma second_pass_kept i cmds segs rargs e : frames kept (second_pass ord i cmds segs rargs e).
Proof. revert i segs rargs e. induction cmds; intros; cbn [second_pass]; framing. Qed.
#[local] Hint Resolve second_pass_kept : frames.

Lemma ParseCLIArgs_kept c a : frames kept (ParseCLIArgs ord c a).
Proof. unfold ParseCLIArgs. framing. Qed.
End Parse.

(** ** So does everything else a start does *)

Section Start.
Context {fmts : Formats} {tml : Toml} (ord : Orders).

(** A relation on worlds, with whatever a closure keeps beside the world. *)
Definition beside {X} (R : World → World → Prop) (s s' : World * X) : Prop := R s.1 s'.1.

#[export] Instance beside_preorder {X} R `{!PreOrder R} : PreOrder (@beside X R).
Proof. split; [intros [s x]; unfold beside; cbn; reflexivity|]. intros [??] [??] [??]. unfold beside. cbn. apply transitivity. Qed.

Lemma child_path_kept p x : frames kept (child_path p x).
Proof. unfold child_path. framing. by apply updW_kept. Qed.

Lemma new_path_kept l : frames kept (s ← get; let '(q, m) := Paths.alloc l (w_arrays s) in updW (with_arrays m) ;; mret q).
Proof. framing. by apply updW_kept. Qed.
#[local] Hint Resolve child_path_kept new_path_kept : frames.

Lemma ForEach_frames {St} (R : St → St → Prop) `{!PreOrder R} c cl hereDepth hereDist cm :
  (∀ x d, frames R (cl x d)) → frames R (ForEach c cl hereDepth hereDist cm).
Proof.
  intros Hcl. revert hereDepth hereDist. induction c as [c IH] using Command_nested_ind. intros hd hs.
  destruct c as [? ? ? ? ? ? cs ? ?]. cbn [ForEach Commands] in *.
  apply frames_bind; [exact _|framing; apply Hcl|]. intros []; [|framing].
  generalize (hd + 1), hs. induction IH as [|x cs Hx IH IHcs]; intros depth dist; [framing|].
  apply frames_bind; [exact _|apply Hcl|]. intros []; [|framing].
  apply frames_bind; [exact _|apply Hx|]. intros r. apply IHcs.
Qed.

Lemma hooks_loop_kept l : frames (beside kept) (hooks_loop l).
Proof.
  induction l as [|[k o] l IH]; cbn [hooks_loop]; [framing|]. intros s a s' E.
  unfold mbind, Out_bind in E. destruct (opt_RunHooks o s.1) as [[e w]|] eqn:Er; [|done]. cbn in E.
  apply opt_RunHooks_kept in Er. destruct e; [by injection E as <- <-|].
  apply IH in E. unfold beside in *. cbn in *. by transitivity w.
Qed.

Lemma run_all_hooks_kept c err : frames kept (run_all_hooks ord c err).
Proof.
  intros s a s' E. unfold run_all_hooks, mbind, Out_bind in E.
  destruct (ForEach _ _ _ _ _ _) as [[r1 r2]|] eqn:Ef; [|done]. injection E as <- <-.
  eapply (ForEach_frames (beside kept)) in Ef; [exact Ef|]. intros x d s1. apply hooks_loop_kept.
Qed.
#[local] Hint Resolve run_all_hooks_kept : frames.

Lemma SetPath_kept l p : frames kept (o ← deref l; write l (SetPath p o)).
Proof.
  intros s a s' E. apply bind_inv in E as (o & s1 & E & [= _ <-]). rewrite opt_deref_run in E.
  destruct (w_opts s !! l) eqn:El; [|done]. injection E as -> <-. by eapply kept_insert.
Qed.
#[local] Hint Resolve SetPath_kept : frames.

Lemma set_paths_kept p l : frames kept (set_paths p l).
Proof.
  unfold set_paths. induction l as [|[k o] l IH]; cbn [foldr]; [framing|].
  apply frames_bind; [exact _|apply SetPath_kept|]. intros []. exact IH.
Qed.
#[local] Hint Resolve set_paths_kept : frames.

Lemma Init_kept parents c p : frames kept (Init ord parents c p).
Proof.
  revert parents p. induction c as [c IH] using Command_nested_ind. intros parents p.
  destruct c as [? ? ? ? ? ? cs ? ?]. cbn [Init Commands] in *.
  apply frames_bind; [exact _|framing|]. intros q.
  apply frames_bind; [exact _|framing|]. intros [].
  apply frames_bind; [exact _| |intros r; framing].
  generalize (None : option error). induction IH as [|x cs Hx IH IHcs]; intros err; [framing|].
  do 2 (apply frames_bind; [exact _|framing|]; intros ?).
  apply frames_bind; [exact _|apply Hx|]. intros r.
  apply frames_bind; [exact _|apply IHcs|]. intros r'. framing.
Qed.

Lemma env_configs_kept path l : frames kept (env_configs path l).
Proof. induction l as [|[k o] l IH]; cbn [env_configs]; framing. Qed.
#[local] Hint Resolve env_configs_kept : frames.

Lemma GetEnvs_kept c p : frames kept (GetEnvs ord c p).
Proof.
  revert p. induction c as [c IH] using Command_nested_ind. intros p.
  destruct c as [? ? ? ? ? ? cs ? ?]. cbn [GetEnvs Commands] in *.
  apply frames_bind; [exact _|framing|]. intros q.
  apply frames_bind; [exact _|framing|]. intros envs.
  apply frames_bind; [exact _| |intros r; framing].
  induction IH as [|x cs Hx IH IHcs]; [framing|].
  apply frames_bind; [exact _|framing|]. intros r.
  apply frames_bind; [exact _|apply Hx|]. intros r'.
  apply frames_bind; [exact _|apply IHcs|]. intros r''. framing.
Qed.

Lemma LoadFromEnvironment_kept LookupEnv e : frames kept (LoadFromEnvironment LookupEnv e).
Proof. unfold LoadFromEnvironment. induction e as [|x e IH]; cbn [Envs_ForEach]; framing. Qed.

(** *** The configuration file *)

(** What a file can do to an option: change its value, nothing else, and not even
    that for a duration. *)
Definition loaded (s s' : World) : Prop :=
  ∀ l op, w_opts s !! l = Some op → ∃ op', w_opts s' !! l = Some op' ∧
    o_m op' = o_m op ∧ o_h op' = o_h op ∧ c_x (o_c op') = c_x (o_c op) ∧
    (Opt_Type op = Duration → op' = op).

#[export] Instance loaded_preorder : PreOrder loaded.
Proof.
  split; [intros s l op E; by exists op|]. intros s1 s2 s3 H12 H23 l op E.
  destruct (H12 l op E) as (op2 & E2 & M2 & K2 & X2 & D2). destruct (H23 l op2 E2) as (op3 & E3 & M3 & K3 & X3 & D3).
  exists op3. split_and!; try congruence. intros Hd. rewrite D3; [by apply D2|]. by rewrite D2.
Qed.

Lemma loaded_kept s s' : loaded s s' → kept s s'.
Proof. intros H l op E. destruct (H l op E) as (op' & E' & M & K & _). by exists op'. Qed.

Lemma loaded_same s s' : w_opts s' = w_opts s → loaded s s'.
Proof. intros E l op. rewrite E. intros ?. by exists op. Qed.

Lemma child_path_loaded p x : frames loaded (child_path p x).
Proof. unfold child_path. framing. intros s1 u s2 [= _ <-]. by apply loaded_same. Qed.
#[local] Hint Resolve child_path_loaded : frames.

Lemma append_all_loaded p l : frames loaded (append_all p l).
Proof. revert p. induction l; intros; cbn [append_all]; framing. Qed.
#[local] Hint Resolve append_all_loaded : frames.

Lemma toml_nested_ind (P : toml → Prop) :
  (∀ l, Forall (P ∘ snd) l → P (TTable l)) → (∀ v, (∀ l, v ≠ TTable l) → P v) → ∀ v, P v.
Proof.
  intros Ht Hv. fix IH 1. intros v. destruct v; try (apply Hv; discriminate).
  apply Ht. induction l as [|[k x] l IHl]; constructor; [apply IH|done].
Qed.

Lemma walk_loaded p v o : frames loaded (walk p v o).
Proof.
  revert p o. induction v as [l IH|v Hv] using toml_nested_ind; intros p o.
  - cbn [walk]. apply frames_bind; [exact _|framing|]. intros s. apply frames_bind; [exact _|framing|]. intros parent.
    clear s p. revert o. induction IH as [|[k x] l Hx IH IHl]; intros o; [framing|].
    apply frames_bind; [exact _|framing|]. intros q. destruct x; try apply IHl.
    apply frames_bind; [exact _|apply Hx|]. intros o'. apply IHl.
  - destruct v; try (by destruct (Hv l)); cbn [walk]; framing.
Qed.

Lemma entry_value_duration v : entry_value Duration v = Ret None.
Proof. by destruct v. Qed.

Lemma set_entries_loaded c oo : frames loaded (set_entries ord c oo).
Proof.
  induction oo as [|x oo IH]; cbn [set_entries]; [framing|].
  apply frames_bind; [exact _|framing|]. intros s.
  apply frames_bind; [exact _| |intros; apply IH].
  destruct (GetOpt _ _ _) as [l|]; [|framing]. intros s1 a s2 E.
  apply bind_inv in E as (op & s3 & E & E2). rewrite opt_deref_run in E.
  destruct (w_opts s1 !! l) as [op'|] eqn:El; [|done]. injection E as -> <-.
  apply bind_inv in E2 as (v & s4 & E3 & E4). unfold lift, mbind, Out_bind in E3.
  destruct (entry_value _ _) as [v'|] eqn:Ev; [|done]. injection E3 as -> <-.
  destruct v as [v|]; [|by injection E4 as _ <-; apply loaded_same]. injection E4 as _ <-.
  intros k o Ek. cbn. destruct (decide (k = l)) as [->|Hk]; [|rewrite lookup_insert_ne by done; by exists o].
  rewrite lookup_insert_eq. simplify_eq. eexists. split; [done|]. split_and!; try by destruct v.
  intros Hd. by rewrite Hd, entry_value_duration in Ev.
Qed.
#[local] Hint Resolve walk_loaded set_entries_loaded : frames.

Lemma UnmarshalText_loaded c t : frames loaded (UnmarshalText ord c t).
Proof. unfold UnmarshalText. framing. Qed.

(** Marshalling reads. *)
Definition still {X} (s s' : World * X) : Prop := s'.1 = s.1.
#[export] Instance still_preorder {X} : PreOrder (@still X).
Proof. split; [done|]. intros ???. unfold still. congruence. Qed.

Lemma marshal_opts_still l : frames still (marshal_opts l).
Proof.
  induction l as [|[i o] l IH]; cbn [marshal_opts]; [framing|].
  apply frames_bind; [exact _| |intros op; apply frames_bind; [exact _|intros s a s' [= _ <-]; done|intros _; exact IH]].
  intros s a s' E. unfold mbind, Out_bind in E. destruct (deref o s.1); [|done]. by injection E as _ <-.
Qed.
#[local] Hint Resolve marshal_opts_still : frames.

Lemma emit_still t : frames still (emit t).
Proof. by intros s a s' [= _ <-]. Qed.
#[local] Hint Resolve emit_still : frames.

Lemma MarshalText_still c s t s' : MarshalText c s = Ret (t, s') → s' = s.
Proof.
  unfold MarshalText, mbind, Out_bind. destruct (ForEach _ _ _ _ _ _) as [[r1 r2]|] eqn:E; [|done].
  intros [= _ <-]. eapply (ForEach_frames still) in E; [exact E|]. intros x d. unfold marshal_cmd. framing.
Qed.

Lemma SaveConfig_loaded c : frames loaded (SaveConfig ord c).
Proof.
  unfold SaveConfig, expanded_of. framing.
  - intros s t s' ->%MarshalText_still. reflexivity.
  - intros s u s' [= _ <-]. by apply loaded_same.
Qed.
#[local] Hint Resolve SaveConfig_loaded UnmarshalText_loaded : frames.

Lemma LoadConfig_loaded c : frames loaded (LoadConfig ord c).
Proof. unfold LoadConfig, expanded_of. framing. Qed.

Lemma LoadConfig_kept c : frames kept (LoadConfig ord c).
Proof. intros s e s' E. eapply loaded_kept, LoadConfig_loaded, E. Qed.
End Start.
