(* ===== verification/CliProps.v ===== *)
(** * What a command line assigns

    When the names of a command's options are distinct, arguments of the forms
    [--name=value] and [--name value], behind the program's name or that of a
    subcommand, assign the options in turn, in whatever order the maps are walked;
    at the start of an application they are assigned last. *)

From S2P Require Export CmdsProps.
Import Strs.

Section Assign.
Context {fmts : Formats}.

(** ** Names *)

(** The normalised names an option answers to. *)
Definition names_of (w : World) (p : string * nat) : list string :=
  match w_opts w !! p.2 with
  | Some op => Norm <$> (p.1 :: Aliases (md_data (o_m op)))
  | None => []
  end.

Definition live (w : World) (l : Opts_) : Prop := Forall (λ p, is_Some (w_opts w !! p.2)) l.
Definition unambiguous (w : World) (l : Opts_) : Prop := live w l ∧ NoDup (l ≫= names_of w).

Lemma names_of_kept w w' p : kept w w' → is_Some (w_opts w !! p.2) → names_of w' p = names_of w p.
Proof.
  intros Hk [op E]. unfold names_of. destruct (Hk _ _ E) as (op' & -> & M & _). by rewrite E, M.
Qed.

Lemma live_kept w w' l : kept w w' → live w l → live w' l.
Proof. intros Hk L. eapply Forall_impl; [exact L|]. intros p [op E]. destruct (Hk _ _ E) as (op' & E' & _). by exists op'. Qed.

Lemma bind_names_kept w w' l : kept w w' → live w l → l ≫= names_of w' = l ≫= names_of w.
Proof.
  intros Hk. induction 1 as [|p l Hp Hl IH]; [done|].
  cbn [mbind list_bind]. f_equal; [by apply names_of_kept|apply IH].
Qed.

Lemma unambiguous_kept w w' l : kept w w' → unambiguous w l → unambiguous w' l.
Proof. intros Hk [L N]. split; [by eapply live_kept|]. by rewrite (bind_names_kept w). Qed.

Lemma unambiguous_perm w l l' : l ≡ₚ l' → unambiguous w l → unambiguous w l'.
Proof. intros P [L N]. split; unfold live; by rewrite <- P. Qed.

(** ** One assignment *)

Lemma value_names_miss o name val ns s : Norm name ∉ Norm <$> ns → value_names o name val ns s = Ret (None, s).
Proof.
  induction ns as [|n ns IH]; [done|]. cbn [fmap list_fmap value_names]. intros H.
  rewrite bool_decide_false by set_solver. apply IH. set_solver.
Qed.

Lemma value_names_hit o name val ns s : NoDup (Norm <$> ns) → Norm name ∈ Norm <$> ns →
  value_names o name val ns s = opt_FromString o val s.
Proof.
  induction ns as [|n ns IH]; [intros _; by intros ?%not_elem_of_nil|].
  cbn [fmap list_fmap value_names]. intros [H1 H2]%NoDup_cons Hin. case_bool_decide as Hn.
  - unfold mbind, GoM_bind. destruct (opt_FromString o val s) as [[[e|] s']|]; [done| |done].
    apply value_names_miss. by rewrite <- Hn.
  - apply elem_of_cons in Hin as [?|?]; [congruence|]. by apply IH.
Qed.

Lemma value_configs_miss name val l s : live s l → (∀ p, p ∈ l → Norm name ∉ names_of s p) →
  value_configs name val l s = Ret (None, s).
Proof.
  induction 1 as [|[k o] l [op E] L IH]; intros H; [done|]. cbn [value_configs].
  rewrite (bind_run _ _ s op s) by (rewrite opt_deref_run; cbn in E; by rewrite E).
  pose proof (H (k, o) ltac:(left)) as Hn. unfold names_of in Hn. rewrite E in Hn.
  rewrite (bind_run _ _ s None s) by (by apply value_names_miss).
  apply IH. intros p Hp. apply H. by right.
Qed.

Lemma value_configs_hit name val l k o s : unambiguous s l → (k, o) ∈ l → Norm name ∈ names_of s (k, o) →
  value_configs name val l s = opt_FromString o val s.
Proof.
  intros [L N]. induction L as [|[k1 o1] l [op E] L IH]; [by intros ?%not_elem_of_nil|].
  intros Hin Hname. cbn [mbind list_bind] in N. apply NoDup_app in N as (N1 & N2 & N3). cbn [value_configs].
  rewrite (bind_run _ _ s op s) by (rewrite opt_deref_run; cbn in E; by rewrite E).
  assert (names_of s (k1, o1) = Norm <$> (k1 :: Aliases (md_data (o_m op)))) as En by (unfold names_of; by rewrite E).
  rewrite En in N1, N2. assert (∀ p, p ∈ l → Norm name ∈ names_of s p → Norm name ∈ l ≫= names_of s) as Hl
    by (intros p Hp Hn; apply list_elem_of_bind; eauto).
  apply elem_of_cons in Hin as [[= -> ->]|Hin].
  - rewrite En in Hname. unfold mbind, GoM_bind. rewrite value_names_hit by done.
    destruct (opt_FromString o1 val s) as [[[e|] s']|] eqn:Ef; [done| |done].
    apply opt_FromString_kept in Ef. apply value_configs_miss; [by eapply live_kept|].
    intros p Hp. rewrite (names_of_kept s) by (done || by eapply Forall_forall in L).
    intros Hn. by eapply N2, Hl.
  - rewrite (bind_run _ _ s None s); [by apply IH|]. apply value_names_miss. intros Hn. by eapply N2, Hl.
Qed.

Lemma look_names_miss o arg iArgs found cursor inc ns s : Norm arg ∉ Norm <$> ns →
  look_names o arg iArgs found cursor inc ns s = Ret ((found, cursor, inc, None), s).
Proof.
  induction ns as [|n ns IH]; [done|]. cbn [fmap list_fmap look_names]. intros H.
  rewrite bool_decide_false by set_solver. apply IH. set_solver.
Qed.

End Assign.

(** ** A line of assignments *)

Section Line.
Context {fmts : Formats} {tml : Toml} (ord : Orders).
Hypothesis range_perm : ∀ A site (l : list A), range ord A site l ≡ₚ l.

(** A stretch of the line: its texts, the value they give, the option they give it
    to. *)
Record item := MkItem { it_texts : list string; it_value : string; it_opt : nat }.

(** A text that names an option, past its dashes. *)
Definition option_text (t a : string) : Prop := HasPrefix t "-" = true ∧ trim_dashes t = a.
Definition answers (w : World) (l : Opts_) (n : string) (o : nat) : Prop :=
  Contains "=" n = false ∧ ∃ k, (k, o) ∈ l ∧ Norm n ∈ names_of w (k, o).
(** A value that the option accepts, whatever it holds. *)
Definition takes (w : World) (o : nat) (v : string) : Prop :=
  ∀ op op', w_opts w !! o = Some op → same_option op op' → (FromString v op').2 = None.

(** The two ways of giving a value: behind an equals sign, and as the next argument. *)
Inductive gives (w : World) (l : Opts_) : item → Prop :=
| gives_joined t n v o : option_text t (n +:+ String "=" v) → answers w l n o → gives w l (MkItem [t] v o)
| gives_apart t n v o : option_text t n → answers w l n o → takes w o v → gives w l (MkItem [t; v] v o).

Lemma answers_kept w w' l n o : kept w w' → live w l → answers w l n o → answers w' l n o.
Proof.
  intros Hk L (Hc & k & Hin & Hn). split; [done|]. exists k. split; [done|].
  rewrite (names_of_kept w); [done..|]. by eapply Forall_forall in L.
Qed.

Lemma answers_live w l n o : live w l → answers w l n o → is_Some (w_opts w !! o).
Proof. intros L (_ & k & Hin & _). exact (proj1 (Forall_forall _ _) L _ Hin). Qed.

Lemma takes_kept w w' o v : kept w w' → is_Some (w_opts w !! o) → takes w o v → takes w' o v.
Proof.
  intros Hk [op E] T op1 op2 E1 S. destruct (Hk _ _ E) as (op1' & E1' & S'). simplify_eq.
  eapply T; [done|]. by transitivity op1.
Qed.

Lemma gives_kept w w' l x : kept w w' → live w l → gives w l x → gives w' l x.
Proof.
  intros Hk L [t n v o Ht Ha|t n v o Ht Ha T].
  - eapply gives_joined; [done|by eapply answers_kept].
  - eapply gives_apart; [done|by eapply answers_kept|]. eapply takes_kept; [done| |done]. by eapply answers_live.
Qed.

Lemma gives_live w l x : live w l → gives w l x → is_Some (w_opts w !! it_opt x).
Proof. intros L []; by eapply answers_live. Qed.

(** *** What a stretch does *)

(** The option has read the value, and the others are as they were. *)
Definition stored (x : item) (s s' : World) : Prop :=
  (∀ l, l ≠ it_opt x → w_opts s' !! l = w_opts s !! l) ∧
  ∃ op op', FromString (it_value x) op = (op', None) ∧ w_opts s' !! it_opt x = Some op'.

Fixpoint sets (items : list item) (s s' : World) : Prop :=
  match items with
  | [] => s' = s
  | x :: items => ∃ s1, stored x s s1 ∧ sets items s1 s'
  end.

Lemma sets_app items1 items2 s s1 s2 : sets items1 s s1 → sets items2 s1 s2 → sets (items1 ++ items2) s s2.
Proof.
  revert s. induction items1 as [|x items1 IH]; intros s; cbn; [by intros ->|].
  intros (s3 & H1 & H2) H3. exists s3. split; [done|]. by apply IH.
Qed.

(** The last value an option is given is the one it holds. *)
Lemma sets_last items s s' r1 x r2 : sets items s s' → items = r1 ++ x :: r2 → it_opt x ∉ it_opt <$> r2 →
  ∃ op op', FromString (it_value x) op = (op', None) ∧ w_opts s' !! it_opt x = Some op'.
Proof.
  intros H -> Hr. revert s H. induction r1 as [|y r1 IH]; intros s (s1 & H1 & H2); [|by eapply IH].
  destruct H1 as (_ & op & op' & E & Ho). exists op, op'. split; [done|].
  revert s1 Ho H2. induction r2 as [|y r2 IH]; intros s1 Ho; cbn; [by intros ->|].
  intros (s2 & [Hf _] & H2). cbn in Hr. apply (IH ltac:(set_solver) s2); [|done]. rewrite Hf; [done|set_solver].
Qed.

Lemma FromString_stored x s op e s' : w_opts s !! it_opt x = Some op →
  opt_FromString (it_opt x) (it_value x) s = Ret (e, s') → e = None → stored x s s'.
Proof.
  intros E Ef ->. rewrite opt_FromString_run in Ef. unfold through in Ef. rewrite E in Ef. injection Ef as Ef <-. split.
  - intros l Hl. cbn. by rewrite lookup_insert_ne.
  - exists op, (FromString (it_value x) op).1. split; [by rewrite <- Ef; destruct (FromString _ _)|]. cbn. apply lookup_insert_eq.
Qed.

Lemma stored_twice x s s1 s2 : stored x s s1 → stored x s1 s2 → stored x s s2.
Proof. intros [F1 _] [F2 H2]. split; [|done]. intros l Hl. by rewrite F2, F1. Qed.

Lemma takes_run x s : takes s (it_opt x) (it_value x) → is_Some (w_opts s !! it_opt x) →
  ∃ s', opt_FromString (it_opt x) (it_value x) s = Ret (None, s') ∧ stored x s s'.
Proof.
  intros T [op E]. assert (opt_FromString (it_opt x) (it_value x) s = through (FromString (it_value x)) (it_opt x) s) as Er
    by apply opt_FromString_run.
  unfold through in Er. rewrite E in Er. rewrite (T op op E ltac:(reflexivity)) in Er.
  eexists. split; [exact Er|]. by eapply FromString_stored.
Qed.

(** ** Stretches in the parse *)

Lemma substring_tail c s : String.substring 1 (String.length (String c s) - 1) (String c s) = s.
Proof. cbn. rewrite Nat.sub_0_r. apply substring_all. Qed.

Lemma has_equals n v : Contains "=" (n +:+ String "=" v) = true.
Proof.
  induction n as [|c s IH]; [done|].
  change (bool_decide ("="%char = c) || Contains "=" (s +:+ String "=" v) = true). rewrite IH. apply orb_true_r.
Qed.

Lemma valueInArg_given site cmd n v o s : unambiguous s (Configs cmd) → answers s (Configs cmd) n o →
  valueInArg ord site cmd (n +:+ String "=" v) s = opt_FromString o v s.
Proof.
  intros U (Hc & k & Hin & Hn). unfold valueInArg. rewrite Split_app by done.
  set (split := if bool_decide _ then _ else _).
  assert (split = [n; v]) as ->.
  { unfold split. pose proof (Join_Split "=" v) as J.
    destruct (Split_cons "=" v) as (w & [|w' r] & E); rewrite E in *.
    - cbn in J |- *. by rewrite <- J.
    - rewrite bool_decide_true by (cbn; lia). cbn [take drop app]. change "="%string with (String "=" ""). by rewrite J. }
  cbn. apply value_configs_hit with k; [| |done].
  - eapply unambiguous_perm; [symmetry; apply range_perm|done].
  - by rewrite range_perm.
Qed.

Lemma goindex_nat {A} (l : list A) (i : nat) x s : l !! i = Some x → lift (goindex l (Z.of_nat i)) s = Ret (x, s : World).
Proof. intros E. apply lift_run. unfold goindex. by rewrite bool_decide_true, Nat2Z.id, E by lia. Qed.

(** The option is asked for its value, twice unless it is a truth value. *)
Lemma look_match_takes x iArgs (cursor : nat) inc s : iArgs !! S cursor = Some (it_value x) →
  is_Some (w_opts s !! it_opt x) → takes s (it_opt x) (it_value x) →
  ∃ s', look_match (it_opt x) iArgs (Z.of_nat cursor) inc s = Ret (Some (inc + 1, None), s') ∧ stored x s s'.
Proof.
  intros Hv Ho T. pose proof (lookup_lt_Some _ _ _ Hv) as Hlt. destruct (takes_run x s T Ho) as (s1 & E1 & H1).
  assert (kept s s1) as K by (by eapply opt_FromString_kept).
  destruct (takes_run x s1) as (s2 & E2 & H2); [by eapply takes_kept|destruct Ho as [? E]; by destruct (K _ _ E) as (? & ? & _)|].
  destruct Ho as [op E]. unfold look_match. rewrite (bind_run _ _ s op s) by (rewrite opt_deref_run; by rewrite E).
  rewrite bool_decide_true by (unfold zlen; lia). replace (Z.of_nat cursor + 1) with (Z.of_nat (S cursor)) by lia.
  destruct (decide (Opt_Type op = Bool)); cbn [negb].
  - exists s1. split; [|done]. rewrite (bind_run _ _ _ _ _ (goindex_nat _ _ _ s Hv)). by rewrite (bind_run _ _ _ _ _ E1).
  - exists s2. split; [|by eapply stored_twice]. rewrite (bind_run _ _ _ _ _ (goindex_nat _ _ _ s Hv)).
    rewrite (bind_run _ _ _ _ _ E1). rewrite (bind_run _ _ _ _ _ (goindex_nat _ _ _ s1 Hv)). by rewrite (bind_run _ _ _ _ _ E2).
Qed.

Lemma look_names_hit o arg iArgs found cursor inc ns s inc' e s' : Norm arg ∈ Norm <$> ns →
  look_match o iArgs cursor inc s = Ret (Some (inc', e), s') →
  look_names o arg iArgs found cursor inc ns s = Ret ((true, cursor, inc', e), s').
Proof.
  intros Hin E. induction ns as [|n ns IH]; [by apply not_elem_of_nil in Hin|]. cbn [look_names]. case_bool_decide as Hn.
  - by rewrite (bind_run _ _ _ _ _ E).
  - apply IH. cbn in Hin. apply elem_of_cons in Hin as [?|?]; [congruence|done].
Qed.

Lemma look_configs_miss arg iArgs l found cursor inc s : live s l → (∀ p, p ∈ l → Norm arg ∉ names_of s p) →
  look_configs arg iArgs l found cursor inc None s = Ret ((found, cursor, inc, None), s).
Proof.
  induction 1 as [|[k o] l [op E] L IH]; intros H; [done|]. cbn [look_configs]. cbn in E.
  pose proof (H (k, o) ltac:(left)) as Hn. unfold names_of in Hn. cbn [snd fst] in Hn. rewrite E in Hn.
  rewrite (bind_run _ _ s (found, cursor, inc, None) s).
  - apply IH. intros p Hp. apply H. by right.
  - unfold lookAhead. rewrite (bind_run _ _ s op s) by (rewrite opt_deref_run; by rewrite E). by apply look_names_miss.
Qed.

Lemma look_configs_hit x arg iArgs l k (cursor : nat) s : unambiguous s l → (k, it_opt x) ∈ l → Norm arg ∈ names_of s (k, it_opt x) →
  iArgs !! S cursor = Some (it_value x) → takes s (it_opt x) (it_value x) →
  ∃ s', look_configs arg iArgs l false (Z.of_nat cursor) 1 None s = Ret ((true, Z.of_nat cursor, 2, None), s') ∧ stored x s s'.
Proof.
  intros [L N] Hin Hname Hv T. induction L as [|[k1 o1] l [op E] L IH]; [by apply not_elem_of_nil in Hin|].
  cbn [mbind list_bind] in N. apply NoDup_app in N as (N1 & N2 & N3). cbn [look_configs]. cbn in E.
  assert (∀ p, p ∈ l → Norm arg ∈ names_of s p → Norm arg ∈ l ≫= names_of s) as Hl
    by (intros p Hp Hn; apply list_elem_of_bind; eauto).
  assert (names_of s (k1, o1) = Norm <$> (k1 :: Aliases (md_data (o_m op)))) as En by (unfold names_of; cbn [snd]; by rewrite E).
  apply elem_of_cons in Hin as [Hk|Hin].
  - injection Hk as -> Ho. destruct (look_match_takes x iArgs cursor 1 s) as (s' & Em & H); [done|rewrite Ho; by exists op|done|].
    exists s'. split; [|done]. rewrite Ho in *. rewrite (bind_run _ _ s (true, Z.of_nat cursor, 2, None) s').
    + assert (kept s s') as K by (by eapply look_match_kept).
      apply look_configs_miss; [by eapply live_kept|].
      intros p Hp. rewrite (names_of_kept s) by (done || by eapply Forall_forall in L).
      intros Hn. by eapply N2, Hl.
    + unfold lookAhead. rewrite (bind_run _ _ s op s) by (rewrite opt_deref_run; by rewrite E).
      apply look_names_hit; [by rewrite <- En|done].
  - destruct IH as (s' & Er & H); [done..|]. exists s'. split; [|done].
    rewrite (bind_run _ _ s (false, Z.of_nat cursor, 1, None) s); [done|].
    unfold lookAhead. rewrite (bind_run _ _ s op s) by (rewrite opt_deref_run; by rewrite E).
    apply look_names_miss. rewrite <- En. intros Hn. by eapply N2, Hl.
Qed.

(** The first text of what is left, and what is left behind it. *)
Lemma drop_cons {A} (l r : list A) i x : drop i l = x :: r → l !! i = Some x ∧ drop (S i) l = r.
Proof.
  intros E. split; [by rewrite <- (Nat.add_0_r i), <- lookup_drop, E|].
  by rewrite <- Nat.add_1_r, <- drop_drop, E.
Qed.

(** The texts of one segment: a return from inside the loop returns an error. *)
Lemma parse_options_gives i cmd iArgs (items : list item) fuel (cursor : nat) s r s' :
  drop cursor iArgs = items ≫= it_texts → unambiguous s (Configs cmd) → Forall (gives s (Configs cmd)) items →
  parse_options ord i cmd iArgs fuel (Z.of_nat cursor) None s = Ret (r, s') →
  (∃ e, r = (true, Some e)) ∨ r = (false, None) ∧ sets items s s'.
Proof.
  revert fuel cursor s. induction items as [|x items IH]; intros fuel cursor s Hd U F Hr.
  - assert (length iArgs ≤ cursor)%nat by (apply (f_equal length) in Hd; rewrite length_drop in Hd; cbn in Hd; lia).
    right. destruct fuel; cbn [parse_options] in Hr; rewrite bool_decide_false in Hr by (unfold zlen; lia); by injection Hr as <- <-.
  - apply Forall_cons in F as [Fx F]. pose proof (gives_live _ _ _ (proj1 U) Fx) as Hlive.
    assert (∀ s1, kept s s1 → unambiguous s1 (Configs cmd) ∧ Forall (gives s1 (Configs cmd)) items) as Hnext.
    { intros s1 K. split; [by eapply unambiguous_kept|]. eapply Forall_impl; [exact F|]. intros y.
      apply gives_kept; [done|by destruct U]. }
    inversion Fx as [t n v o [Hp Ht] Ha|t n v o [Hp Ht] Ha T]; subst x; cbn [it_texts mbind list_bind app] in *.
    + apply drop_cons in Hd as [Hx Hd]. pose proof (lookup_lt_Some _ _ _ Hx) as Hlt.
      destruct fuel as [|fuel]; cbn [parse_options] in Hr; rewrite bool_decide_true in Hr by (unfold zlen; lia); [done|].
      rewrite (bind_run _ _ _ _ _ (goindex_nat _ _ _ s Hx)) in Hr.
      rewrite bool_decide_false in Hr by (by intros ->). rewrite Hp, Ht, has_equals in Hr. cbn [negb] in Hr.
      apply bind_inv in Hr as (e & s1 & Ev & Hr). rewrite (valueInArg_given _ _ _ _ o) in Ev by done.
      destruct e as [e|]; [left; exists e; by injection Hr as <- _|].
      replace (Z.of_nat cursor + 1) with (Z.of_nat (S cursor)) in Hr by lia.
      destruct (Hnext s1) as [U1 F1]; [by eapply opt_FromString_kept|].
      destruct Hlive as [op Eo]. apply (FromString_stored (MkItem [t] v o) s op) in Ev; [|done..].
      apply IH in Hr as [?|[? Hs]]; [by left| |done..]. right. split; [done|]. by exists s1.
    + apply drop_cons in Hd as [Hx Hd]. apply drop_cons in Hd as [Hv Hd]. pose proof (lookup_lt_Some _ _ _ Hx) as Hlt.
      destruct fuel as [|fuel]; cbn [parse_options] in Hr; rewrite bool_decide_true in Hr by (unfold zlen; lia); [done|].
      rewrite (bind_run _ _ _ _ _ (goindex_nat _ _ _ s Hx)) in Hr. destruct Ha as (Hc & k & Hin & Hn).
      rewrite bool_decide_false in Hr by (by intros ->). rewrite Hp, Ht, Hc in Hr. cbn [negb] in Hr.
      destruct (look_configs_hit (MkItem [t; v] v o) n iArgs (range ord _ [4; i; Z.to_nat (Z.of_nat cursor)]%nat (Configs cmd)) k cursor s)
        as (s1 & E1 & H1); [|by rewrite range_perm|done..|].
      { eapply unambiguous_perm; [symmetry; apply range_perm|done]. }
      rewrite (bind_run _ _ _ _ _ E1) in Hr. replace (Z.of_nat cursor + 2) with (Z.of_nat (S (S cursor))) in Hr by lia.
      destruct (Hnext s1) as [U1 F1]; [by eapply look_configs_kept|].
      apply IH in Hr as [?|[? Hs]]; [by left| |done..]. right. split; [done|]. by exists s1.
Qed.

(** ** The segments of a line *)

(** The commands on the line, the segments the first pass cuts it into, and the
    stretches they consist of, behind the name of the program or the subcommand. *)
Inductive reads (w : World) : list Command → list (list string) → list item → Prop :=
| reads_nil : reads w [] [] []
| reads_cons cmd cmds t items segs rest :
    Norm (Name cmd) ≠ "help"%string → unambiguous w (Configs cmd) → Forall (gives w (Configs cmd)) items →
    reads w cmds segs rest → reads w (cmd :: cmds) ((t :: items ≫= it_texts) :: segs) (items ++ rest).

Lemma reads_kept w w' cmds segs items : kept w w' → reads w cmds segs items → reads w' cmds segs items.
Proof.
  intros Hk. induction 1 as [|cmd cmds t its segs rest Hh U F _ IH]; constructor; try done; [by eapply unambiguous_kept|].
  eapply Forall_impl; [exact F|]. intros x. apply gives_kept; [done|by destruct U].
Qed.

Lemma reads_live w cmds segs items : reads w cmds segs items → Forall (λ x, is_Some (w_opts w !! it_opt x)) items.
Proof.
  induction 1 as [|cmd cmds t its segs rest _ [L _] F _ IH]; [done|]. apply Forall_app. split; [|done].
  eapply Forall_impl; [exact F|]. intros x. by apply gives_live.
Qed.

Lemma second_pass_reads i cmds segs items runArgs s stop ra e s' : reads s cmds segs items →
  second_pass ord i cmds segs runArgs None s = Ret ((stop, ra, e), s') →
  (stop = true ∧ is_Some e) ∨
  stop = false ∧ e = None ∧ sets items s s' ∧ ra = match last segs with Some (_ :: r) => r | _ => runArgs end.
Proof.
  revert i segs items runArgs s. induction cmds as [|cmd cmds IH]; intros i segs items runArgs s Hr E.
  - inversion Hr; subst. right. by injection E as <- <- <- <-.
  - inversion Hr as [|? ? t its segs' rest Hh U F R]; subst. cbn [second_pass] in E.
    rewrite bool_decide_false in E by done. apply bind_inv in E as (r & s1 & E1 & E).
    assert (kept s s1) as K by (by eapply parse_options_kept).
    change 0 with (Z.of_nat 0) in E1. apply (parse_options_gives _ _ _ its) in E1 as [[e' ->]|[-> Hs]]; [| |done..].
    + left. by injection E as <- <- <- <-.
    + cbn in E. apply IH with (items := rest) in E; [|by eapply reads_kept].
      destruct E as [?|(-> & -> & Hs' & ->)]; [by left|]. right. split_and!; try done; [by eapply sets_app|].
      rewrite last_cons. destruct (last segs') as [[|t' r]|] eqn:El; try done. exfalso.
      clear -R El. induction R as [|? ? ? ? ? ? ? ? ? ? IHR]; [done|]. rewrite last_cons in El.
      destruct (last segs) eqn:?; [by injection El as ->; apply IHR|done].
Qed.

Lemma ParseCLIArgs_reads c args cs segs items s run ra s' :
  first_pass c [] (filter (λ t, t ≠ ""%string) args) = (cs, segs) → reads s (c :: cs) segs items →
  ParseCLIArgs ord c args s = Ret ((run, ra, None), s') →
  sets items s s' ∧ ∃ t, last segs = Some (t :: ra).
Proof.
  intros Hf Hr E. unfold ParseCLIArgs in E. rewrite Hf in E. apply bind_inv in E as ([[stop ra1] e] & s1 & E1 & E).
  eapply second_pass_reads in E1; [|done].
  destruct E1 as [[-> [e' ->]]|(-> & -> & Hs & Hra)]; [done|]. assert (s' = s1 ∧ ra = ra1) as [-> ->].
  { case_bool_decide; [|by injection E as _ <- <-]. destruct (find_default _ _ _ _). by injection E as _ <- _ <-. }
  split; [done|]. rewrite Hra. clear -Hr. remember (c :: cs) as cmds eqn:Ec. revert c cs Ec.
  induction Hr as [|cmd cmds t its segs rest _ _ _ Hr IH]; intros c cs Ec; [done|]. rewrite last_cons.
  inversion Hr; subst; [by exists t|]. edestruct IH as [t' Et]; [done|]. exists t'. by rewrite !Et.
Qed.

(** ** The start of an application *)

(** [Init] changes paths, parents and entry points, not names and options. *)
Inductive same_tree : Command → Command → Prop :=
| same_cmd c c' : Name c' = Name c → Configs c' = Configs c → Forall2 same_tree (Commands c) (Commands c') → same_tree c c'.

Lemma Init_same_tree parents c p s c' e s' : Init ord parents c p s = Ret ((c', e), s') → same_tree c c'.
Proof.
  revert parents p s c' e s'. induction c as [c IH] using Command_nested_ind. intros parents p s c' e s'.
  destruct c as [? n ? ? ? ? cs ? ?]. cbn [Init Commands Name] in *.
  intros (q & s1 & _ & E)%bind_inv. apply bind_inv in E as ([] & s2 & _ & E).
  apply bind_inv in E as ([cs' err] & s3 & El & E). apply bind_inv in E as (e' & s4 & _ & [= <- <- <-]).
  constructor; [done..|]. cbn. clear -IH El. revert err s2 El. generalize (None : option error). revert cs' s3.
  induction IH as [|x cs Hx IH IHcs]; intros cs' s3 err0 err s2 El; [by injection El as <- <- <-|].
  apply bind_inv in El as (? & ? & _ & El). apply bind_inv in El as (q' & s5 & _ & El).
  apply bind_inv in El as ([x' ex] & s6 & Ex & El). apply bind_inv in El as ([r er] & s7 & Er & [= <- <- <-]).
  constructor; [by eapply Hx|by eapply IHcs].
Qed.

Lemma head_same_tree a cs cs' : Forall2 same_tree cs cs' →
  match head (filter (λ cc, Norm a = Norm (Name cc)) cs), head (filter (λ cc, Norm a = Norm (Name cc)) cs') with
  | Some x, Some x' => same_tree x x'
  | None, None => True
  | _, _ => False
  end.
Proof.
  induction 1 as [|x x' cs cs' Hx _ IH]; [done|]. rewrite !filter_cons. inversion Hx as [? ? N]; subst. rewrite N.
  by case_decide.
Qed.

Lemma first_pass_same_tree c c' seg args cs segs : same_tree c c' → first_pass c seg args = (cs, segs) →
  ∃ cs', first_pass c' seg args = (cs', segs) ∧ Forall2 same_tree cs cs'.
Proof.
  revert c c' seg cs segs. induction args as [|a args IH]; intros c c' seg cs segs Hc E; cbn [first_pass] in *.
  - injection E as <- <-. by exists [].
  - inversion Hc as [? ? _ _ Hcs]; subst. apply (head_same_tree a) in Hcs.
    destruct (head (filter _ (Commands c))) as [x|]; destruct (head (filter _ (Commands c'))) as [x'|]; try done; [|by eapply IH].
    destruct (first_pass x [a] args) as [l ls] eqn:El. destruct (IH _ x' _ _ _ Hcs El) as (l' & -> & Hl).
    injection E as <- <-. exists (x' :: l'). split; [done|by constructor].
Qed.

Lemma reads_same_tree w cmds cmds' segs items : Forall2 same_tree cmds cmds' → reads w cmds segs items → reads w cmds' segs items.
Proof.
  intros Hc Hr. revert cmds' Hc. induction Hr as [|cmd cmds t its segs rest Hh U F _ IH]; intros cmds' Hc;
    inversion Hc as [|? cmd' ? cmds1 Hx Hcs]; subst; [constructor|].
  inversion Hx as [? ? N C]; subst. constructor; [by rewrite N|by rewrite C..|by apply IH].
Qed.

(** C28: The command line wins.  The first pass cuts the arguments at the names of
    subcommands.  Where every segment gives options of its command values, as
    [--name=value] or [-name=value], or as [--name value] with a value that the
    option accepts whatever it holds, and where the names of a command's options
    and their aliases are distinct, an application that starts without an error
    has each of these options as its last value on the line sets it, whatever the
    configuration file and the environment hold, and runs with the texts of the
    last segment.  Not covered: flags without a value, the segment of [help], and a
    value in an argument of its own that the option refuses, whose error can get
    lost ([bad_value_lost]). *)
Theorem cli_takes_precedence goos env lg LookupEnv (c : Command) args (items : list item) cs segs m w w0 a w' :
  GetConfigBase goos env lg (Configs c) (Name c) false w = Ret (m, w0) →
  let tree := AddCommand (with_configs m c) Help in
  first_pass tree [] (filter (λ t, t ≠ ""%string) args) = (cs, segs) →
  reads w0 (tree :: cs) segs items →
  New ord goos env lg LookupEnv c args w = Ret ((a, None), w') →
  (∃ t, last segs = Some (t :: runArgs a)) ∧
  ∀ r1 x r2, items = r1 ++ x :: r2 → it_opt x ∉ it_opt <$> r2 →
    ∃ op0 op op', w_opts w0 !! it_opt x = Some op0 ∧ same_option op0 op ∧
      FromString (it_value x) op = (op', None) ∧ w_opts w' !! it_opt x = Some op'.
Proof.
  intros E0 tree Hf Hr E. unfold New in E. rewrite (bind_run _ _ w m w0 E0) in E. fold tree in E.
  apply bind_inv in E as ([c' e] & w1 & Ei & E). destruct e as [e|]; [by injection E|].
  pose proof (Init_kept ord _ _ _ _ _ _ Ei) as K1. apply Init_same_tree in Ei as Hc.
  apply bind_inv in E as ([[run ra] [e|]] & w2 & Ep & E); [by injection E|]. apply ParseCLIArgs_kept in Ep.
  apply bind_inv in E as ([e|] & w3 & El & E); [by injection E|]. apply LoadConfig_kept in El.
  apply bind_inv in E as (envs & w4 & Eg & E). apply GetEnvs_kept in Eg.
  apply bind_inv in E as ([e|] & w5 & Ev & E); [by injection E|]. apply LoadFromEnvironment_kept in Ev.
  assert (kept w0 w5) as K by (transitivity w1; [done|]; transitivity w2; [done|]; transitivity w3; [done|]; by transitivity w4).
  apply bind_inv in E as ([[run2 ra2] e2] & w6 & Ep2 & [= <- -> <-]). cbn [runArgs].
  pose proof (ParseCLIArgs_kept ord _ _ _ _ _ Ep2) as K6. destruct (first_pass_same_tree _ _ _ _ _ _ Hc Hf) as (cs' & Hf' & Hcs).
  eapply ParseCLIArgs_reads in Ep2 as [Hs Hra]; [|exact Hf'|eapply reads_kept; [exact K|eapply reads_same_tree; [|exact Hr]; by constructor]].
  split; [done|]. intros r1 x r2 Hi Hx. destruct (sets_last _ _ _ _ _ _ Hs Hi Hx) as (op & op' & Ef & Eo).
  apply reads_live in Hr as L. rewrite Hi in L. apply Forall_app in L as [_ [[op0 E1] _]%Forall_cons].
  exists op0, op, op'. split_and!; try done. destruct (transitivity K K6 _ _ E1) as (op1 & E2 & M & H). simplify_eq.
  pose proof (FromString_frame (it_value x) op) as Hfr. rewrite Ef in Hfr. destruct Hfr as (_ & M' & H'). cbn in *. split; congruence.
Qed.
End Line.

(** An integer option without hooks takes every integer. *)
Definition plain_integer {fmts : Formats} (w : World) (o : nat) : bool :=
  match w_opts w !! o with
  | Some op => bool_decide (Opt_Type op = Integer) && match o_h op with [] => true | _ => false end
  | None => false
  end.

Lemma takes_integer {fmts : Formats} w o v : plain_integer w o = true → is_Some (ParseInt (TrimSpace v)) → takes w o v.
Proof.
  unfold plain_integer. intros Hp [z Hz] op op' E [M H]. rewrite E in Hp. apply andb_prop in Hp as [Ht%bool_decide_eq_true Hh].
  destruct (o_h op) eqn:Hh'; [|done]. unfold FromString, Opt_Type in *. rewrite M, Ht.
  unfold IntegerOpt.FromString. rewrite Hz. unfold IntegerOpt.RunHooks, hooks_of. cbn. by rewrite H.
Qed.

(** ** One start

    An application with a number that the file, the environment and the command
    line set to different values, the line twice, and a subcommand with another. *)

Module Demo.
Definition orders : Orders := MkOrders (λ _ _ l, l) (λ _ l, l).
#[export] Instance toml_parser : Toml := λ _, Some (TTable [("app", TTable [("Count", TInteger 5)])])%string.

Definition count : Opt := IntegerOpt.New (MkData ["N"] [] "" "" "" "1" []) [].
Definition depth : Opt := IntegerOpt.New (MkData ["D"] [] "" "" "" "1" []) [].
Definition run : Command := MkCommand None "run" "" "" None [] [] [("Depth"%string, 1%nat)] [].
Definition cmd : Command := MkCommand None "app" "" "" None [] [run] [("Count"%string, 0%nat)] [].
Definition environ : Environ := MkEnviron "/home/u" "/" (λ a, "/home/u/." +:+ a).
Definition logger : Logger := MkLogger (λ _, None) None None.
Definition world : World :=
  MkWorld [] {[0%nat := count; 1%nat := depth]} {["/home/u/.app/config.toml"%string := ""%string]}.
Definition lookup_env (k : string) : option string := if String.eqb k "APP_COUNT" then Some "3"%string else None.
Definition line : list string := ["prog"; "--n=9"; "--count"; "7"; "run"; "-d=2"; "--depth"; "4"]%string.
Definition root_items : list item := [MkItem ["--n=9"] "9" 0; MkItem ["--count"; "7"] "7" 0]%string.
Definition run_items : list item := [MkItem ["-d=2"] "2" 1; MkItem ["--depth"; "4"] "4" 1]%string.
Definition base := GetConfigBase "linux" environ logger (Configs cmd) (Name cmd) false world.
Definition start := New orders "linux" environ logger lookup_env cmd line world.

Definition integer_at (l : nat) (w : World) : Z :=
  match w_opts w !! l with Some o => c_Integer (Opt_Value o) | None => 0 end.
Definition started : bool :=
  match start with Ret ((_, None), w) => bool_decide (integer_at 0 w = 7 ∧ integer_at 1 w = 4) | _ => false end.

(** Before the last parse: the file and the environment have had their say. *)
Definition line_free : bool :=
  match New orders "linux" environ logger lookup_env cmd ["prog"%string] world with
  | Ret ((_, None), w) => bool_decide (integer_at 0 w = 3) | _ => false end.

Definition clear_names (w : World) (l : Opts_) : bool :=
  bool_decide (Forall (λ p, is_Some (w_opts w !! p.2)) l ∧ NoDup (l ≫= names_of w)).
Definition names_ok (w : World) (m : Opts_) : bool :=
  bool_decide (("Count"%string, 0%nat) ∈ m ∧ Norm "n" ∈ names_of w ("Count"%string, 0%nat) ∧
    Norm "count" ∈ names_of w ("Count"%string, 0%nat) ∧ Norm "d" ∈ names_of w ("Depth"%string, 1%nat) ∧
    Norm "depth" ∈ names_of w ("Depth"%string, 1%nat)).
Definition base_ok : bool :=
  match base with
  | Ret (m, w) => clear_names w m && clear_names w (Configs run) && names_ok w m && plain_integer w 0 && plain_integer w 1
  | _ => false
  end.

(** A number that is none, in an argument of its own: with the maps walked the other
    way round the start reports no error and the number is the environment's. *)
Definition backwards : Orders := MkOrders (λ _ _ l, reverse l) (λ _ l, l).
Example bad_number_passes :
  (match New backwards "linux" environ logger lookup_env cmd ["prog"; "--n"; "abc"]%string world with
   | Ret ((_, None), w) => Some (integer_at 0 w) | _ => None end) = Some 3.
Proof. vm_compute. reflexivity. Qed.

Lemma unambiguous_clear w l : clear_names w l = true → unambiguous w l.
Proof. intros [L N]%bool_decide_eq_true. done. Qed.
End Demo.

Lemma cli_takes_precedence_witness :
  Demo.started = true ∧ Demo.line_free = true ∧
  ∃ a w', Demo.start = Ret ((a, None), w') ∧ runArgs a = ["-d=2"; "--depth"; "4"]%string ∧
    ∃ op op', FromString "7" op = (op', None) ∧ w_opts w' !! 0%nat = Some op'.
Proof.
  split; [vm_compute; reflexivity|]. split; [vm_compute; reflexivity|].
  assert (Demo.base_ok = true) as Hb by (vm_compute; reflexivity).
  assert (Demo.started = true) as Hs by (vm_compute; reflexivity).
  unfold Demo.started in Hs. destruct Demo.start as [[[a [e|]] w']|p] eqn:E; [discriminate Hs| |discriminate Hs].
  exists a, w'. split; [reflexivity|]. unfold Demo.base_ok in Hb.
  destruct Demo.base as [[m w0]|p] eqn:E0; [|discriminate Hb]. repeat (apply andb_prop in Hb as [Hb ?]).
  match goal with Hn : Demo.names_ok _ _ = true |- _ => apply bool_decide_eq_true in Hn as (I & N1 & N2 & N3 & N4) end.
  destruct (@cli_takes_precedence toy_formats Demo.toml_parser Demo.orders (λ A k l, reflexivity l) "linux" Demo.environ Demo.logger Demo.lookup_env
    Demo.cmd Demo.line (Demo.root_items ++ Demo.run_items ++ []) [Demo.run] [["prog"; "--n=9"; "--count"; "7"]; ["run"; "-d=2"; "--depth"; "4"]]%string
    m Demo.world w0 a w' E0) as [[t Ht] Hl].
  - vm_compute. reflexivity.
  - apply (reads_cons w0 (AddCommand (with_configs m Demo.cmd) Help) [Demo.run] "prog" Demo.root_items);
      [discriminate|by apply Demo.unambiguous_clear| |].
    + repeat constructor.
      * apply (gives_joined _ _ _ "n"); [split; reflexivity|]. split; [reflexivity|]. exists "Count"%string. split; [exact I|exact N1].
      * apply gives_apart with "count"%string; [split; reflexivity|split; [reflexivity|exists "Count"%string; split; [exact I|exact N2]]|].
        apply takes_integer; [assumption|exists 7; reflexivity].
    + apply (reads_cons w0 Demo.run [] "run" Demo.run_items); [discriminate|by apply Demo.unambiguous_clear| |constructor].
      repeat constructor.
      * apply (gives_joined _ _ _ "d"); [split; reflexivity|]. split; [reflexivity|]. exists "Depth"%string. split; [by left|exact N3].
      * apply gives_apart with "depth"%string; [split; reflexivity|split; [reflexivity|exists "Depth"%string; split; [by left|exact N4]]|].
        apply takes_integer; [assumption|exists 4; reflexivity].
  - exact E.
  - split; [by injection Ht|]. destruct (Hl [MkItem ["--n=9"] "9" 0]%string (MkItem ["--count"; "7"] "7" 0)%string Demo.run_items eq_refl)
      as (op0 & op & op' & _ & _ & Ef & Eo); [|exists op, op'; split; [exact Ef|exact Eo]].
    apply (bool_decide_eq_true (¬ (0%nat ∈ [1%nat; 1%nat]))). reflexivity.
Defined.
