(* ===== verification/ConfigProps.v ===== *)
(** * What the file, the environment and the walks do

    The configuration file only stores values; the names of environment variables
    share an array below the second level; [ForEach] and [GetOpt] against the
    tree; when a bad value on the command line goes unnoticed. *)

From S2P Require Export CliProps.
Import Strs.

Section ConfigProps.
Context {fmts : Formats} {tml : Toml} (ord : Orders).

(** ** The configuration file *)

(** C40: A configuration file only stores values: whatever the text and whatever the
    parser makes of it, no error is reported, the options keep type, metadata,
    hooks and expanded form - no hook runs - and a duration is never set. *)
Theorem config_file_stores_only c t s e s' : UnmarshalText ord c t s = Ret (e, s') →
  e = None ∧ ∀ l op, w_opts s !! l = Some op → ∃ op', w_opts s' !! l = Some op' ∧
    o_m op' = o_m op ∧ o_h op' = o_h op ∧ c_x (o_c op') = c_x (o_c op) ∧ (Opt_Type op = Duration → op' = op).
Proof.
  intros E. split; [|by eapply UnmarshalText_loaded].
  unfold UnmarshalText in E. apply bind_inv in E as (oo & s1 & _ & E). by apply bind_inv in E as (u & s2 & _ & [= <- _]).
Qed.

(** ** Slices and environment variables *)

Definition slice_ok (m : arrays) (p : pslice) : Prop :=
  match p with Some (a, n) => (a < length m)%nat ∧ (n ≤ length (m !!! a))%nat | None => False end.
Definition spare (m : arrays) (p : pslice) : bool :=
  match p with Some (a, n) => bool_decide (n < length (m !!! a))%nat | None => false end.

Lemma child_path_run p x s :
  child_path p x s = Ret ((Paths.append p x (w_arrays s)).1, with_arrays (Paths.append p x (w_arrays s)).2 s).
Proof. unfold child_path, Paths.Child. cbn. unfold mbind, GoM_bind. cbn. by destruct (Paths.append _ _ _). Qed.

Lemma overwrite_twice (n a : nat) (k k' : string) (m : arrays) :
  alter (<[n := k']>) a (alter (<[n := k]>) a m) = alter (<[n := k']>) a m.
Proof.
  rewrite list_alter_alter_eq. apply list_alter_ext; [|done]. intros x _. apply list_insert_insert_eq.
Qed.

(** With spare capacity every name is written to the same place of one array. *)
Lemma env_configs_shared a n l s : (a < length (w_arrays s))%nat → (n < length (w_arrays s !!! a))%nat →
  env_configs (Some (a, n)) l s =
    Ret ((λ p, MkEnv (Some (a, S n)) p.2) <$> l,
         match last l with
         | Some p => with_arrays (alter (<[n := p.1]>) a (w_arrays s)) s
         | None => s
         end).
Proof.
  revert s. induction l as [|[k o] l IH]; intros s Ha Hn; [by destruct s|]. cbn [env_configs].
  rewrite (bind_run _ _ _ _ _ (child_path_run _ _ _)). cbn [Paths.append]. rewrite bool_decide_true by done. cbn [fst snd].
  set (s1 := with_arrays _ s).
  assert (w_arrays s1 !!! a = <[n := k]> (w_arrays s !!! a)) as E1 by (by apply list_lookup_total_alter_eq).
  rewrite (bind_run _ _ _ _ _ (IH s1 ltac:(cbn; by rewrite length_alter) ltac:(by rewrite E1, length_insert))).
  cbn [fmap list_fmap]. rewrite last_cons. destruct (last l) as [[k' o']|]; [|done].
  assert (with_arrays (alter (<[n := k']>) a (w_arrays s1)) s1 = with_arrays (alter (<[n := k']>) a (w_arrays s)) s)
    as E; [|cbn [fst]; by rewrite E].
  unfold s1, with_arrays. cbn. f_equal. apply overwrite_twice.
Qed.

(** Without, every name gets an array of its own. *)
Lemma env_configs_apart a n l s : (a < length (w_arrays s))%nat → length (w_arrays s !!! a) = n →
  env_configs (Some (a, n)) l s =
    Ret (imap (λ i p, MkEnv (Some (length (w_arrays s) + i, S n)%nat) p.2) l,
         with_arrays (w_arrays s ++
           ((λ p, take n (w_arrays s !!! a) ++ p.1 :: replicate (Nat.max (S n) (2 * n) - S n) ""%string) <$> l)) s).
Proof.
  revert s. induction l as [|[k o] l IH]; intros s Ha Hn; [cbn; rewrite app_nil_r; by destruct s|]. cbn [env_configs].
  rewrite (bind_run _ _ _ _ _ (child_path_run _ _ _)). cbn [Paths.append]. rewrite bool_decide_false by lia. cbn [fst snd].
  set (s1 := with_arrays _ s).
  assert (w_arrays s1 !!! a = w_arrays s !!! a) as E1 by (by apply lookup_total_app_l).
  assert (length (w_arrays s1) = S (length (w_arrays s))) as L1 by (cbn; rewrite length_app; cbn; lia).
  rewrite (bind_run _ _ _ _ _ (IH s1 ltac:(lia) ltac:(by rewrite E1))).
  rewrite E1, L1. cbn [imap fmap list_fmap fst snd]. rewrite Nat.add_0_r. unfold mret, GoM_ret. f_equal. f_equal.
  - f_equal. apply imap_ext. intros i x _. cbn. do 3 f_equal. lia.
  - unfold s1, with_arrays. cbn. f_equal. rewrite Hn. by rewrite <- app_assoc.
Qed.

(** The names of a command's environment variables.  Without spare capacity behind
    the command's path each is the path and the option's name; with it - below the
    second level - all of them are the name of the option the loop came to last. *)
Theorem env_names path (l : list (string * nat)) s envs s' : slice_ok (w_arrays s) path → env_configs path l s = Ret (envs, s') →
  length envs = length l ∧
  ∀ i k o, l !! i = Some (k, o) → ∃ x, envs !! i = Some x ∧ env_Opt x = o ∧
    Paths.elems (w_arrays s') (env_Name x) = Paths.elems (w_arrays s) path ++
      [if spare (w_arrays s) path then default k (fst <$> last l) else k].
Proof.
  destruct path as [[a n]|]; [|done]. cbn. intros [Ha Hn] E. case_bool_decide as Hs.
  - rewrite env_configs_shared in E by done. injection E as <- <-. split; [by rewrite length_fmap|].
    intros i k o Hi. rewrite list_lookup_fmap, Hi. eexists. split; [done|]. split; [done|].
    destruct (last l) as [[k' o']|] eqn:El; [|apply last_None in El as ->; done]. cbn.
    rewrite list_lookup_total_alter_eq, insert_take_drop by done.
    rewrite take_app. rewrite take_ge by (rewrite length_take; lia).
    rewrite length_take. replace (S n - n `min` length (w_arrays s !!! a))%nat with 1%nat by lia. done.
  - assert (length (w_arrays s !!! a) = n) as Hl by lia.
    rewrite env_configs_apart in E by done. injection E as <- <-. split; [by rewrite length_imap|].
    intros i k o Hi. rewrite list_lookup_imap, Hi. eexists. split; [done|]. split; [done|]. cbn.
    rewrite lookup_total_app_r by lia. rewrite Nat.add_comm, Nat.add_sub.
    assert ((λ p, take n (w_arrays s !!! a) ++ p.1 :: replicate (Nat.max (S n) (2 * n) - S n) ""%string) <$> l !! i
      = Some (take n (w_arrays s !!! a) ++ k :: replicate (Nat.max (S n) (2 * n) - S n) ""%string)) as Hf by (by rewrite Hi).
    rewrite <- list_lookup_fmap in Hf. rewrite (list_lookup_total_correct _ _ _ Hf).
    rewrite take_app. rewrite take_ge by (rewrite length_take; lia).
    rewrite length_take. replace (S n - n `min` length (w_arrays s !!! a))%nat with 1%nat by lia. done.
Qed.

(** ** Walks *)

(** The commands of a tree with their depths, each before its subcommands. *)
Fixpoint preorder (c : Command) (depth : Z) : list (Command * Z) :=
  (fix subs (cs : list Command) : list (Command * Z) :=
     match cs with [] => [] | x :: cs => (x, depth) :: preorder x (depth + 1) ++ subs cs end) (Commands c).

Definition visit (x : Command) (d : Z) : GoM (list (Command * Z)) bool := λ s, Ret (true, s ++ [(x, d)]).

(** The loop of [ForEach] over subcommands. *)
Lemma ForEach_loop (cs : list Command) (cm : Command) (depth dist : Z) s : 0 < depth →
  Forall (λ c, ∀ hd hs s, 0 < hd → ∃ dist, ForEach c visit hd hs cm s = Ret ((hd, dist), s ++ preorder c (hd + 1))) cs →
  ∃ dist', (fix loop (cs : list Command) (depth dist : Z) : GoM (list (Command * Z)) (Z * Z) :=
       match cs with
       | [] => mret (depth - 1, dist)
       | x :: cs =>
           go ← visit x depth;
           if go : bool then
             r ← ForEach x visit depth (dist + 1) cm;
             loop cs r.1 r.2
           else mret (depth, dist)
       end) cs depth dist s =
    Ret ((depth - 1, dist'), s ++ (fix subs (cs : list Command) : list (Command * Z) :=
       match cs with [] => [] | x :: cs => (x, depth) :: preorder x (depth + 1) ++ subs cs end) cs).
Proof.
  intros Hd F. revert dist s. induction F as [|x cs Hx F IH]; intros dist s.
  - exists dist. by rewrite app_nil_r.
  - rewrite (bind_run _ _ s true (s ++ [(x, depth)])) by done.
    destruct (Hx depth (dist + 1) (s ++ [(x, depth)]) Hd) as [d1 E1]. rewrite (bind_run _ _ _ _ _ E1). cbn [fst snd].
    destruct (IH d1 ((s ++ [(x, depth)]) ++ preorder x (depth + 1))) as [d2 E2]. exists d2. rewrite E2.
    by rewrite <- !app_assoc.
Qed.

Lemma ForEach_below cm c hd hs s : 0 < hd →
  ∃ dist, ForEach c visit hd hs cm s = Ret ((hd, dist), s ++ preorder c (hd + 1)).
Proof.
  revert hd hs s. induction c as [c IH] using Command_nested_ind. intros hd hs s Hd.
  destruct (ForEach_loop (Commands c) cm (hd + 1) hs s ltac:(lia)) as [dist E].
  { eapply Forall_impl; [exact IH|]. auto. }
  exists dist. rewrite Z.add_simpl_r in E. destruct c as [? ? ? ? ? ? cs ? ?].
  cbn [ForEach preorder Commands] in *. rewrite bool_decide_false by lia. by rewrite (bind_run (mret true) _ s true s).
Qed.

(** A walk whose closure never stops it visits the root and then every command
    below it once, parents first, with its depth, and comes back to depth zero. *)
Theorem ForEach_visits c : ∃ dist, ForEach c visit 0 0 c [] = Ret ((0, dist), (c, 0) :: preorder c 1).
Proof.
  destruct (ForEach_loop (Commands c) c 1 0 [(c, 0)] ltac:(lia)) as [dist E].
  { apply Forall_true. intros x hd hs s. apply ForEach_below. }
  exists dist. change (1 - 1) with 0 in E. destruct c as [? ? ? ? ? ? cs ? ?].
  cbn [ForEach preorder Commands] in *. rewrite bool_decide_true by done.
  unfold mbind at 1, GoM_bind at 1. exact E.
Qed.

(** A closure that stops the walk stops it at its own level only: the walk goes on
    with the next command of the level above, one level too deep. *)
Definition leaf (n : string) (cs : list Command) : Command := MkCommand None n "" "" None [] cs [] [].
Lemma ForEach_goes_on :
  let stop x d : GoM (list (string * Z)) bool := λ s, Ret (negb (bool_decide (Name x = "b"%string)), s ++ [(Name x, d)]) in
  let tree := leaf "root" [leaf "a" [leaf "b" []]; leaf "c" []] in
  ForEach tree stop 0 0 tree [] =
    Ret ((1, 2), [("root"%string, 0); ("a"%string, 1); ("b"%string, 2); ("c"%string, 2)]).
Proof. vm_compute. reflexivity. Qed.

(** ** Options by path *)

(** The option [o] is at the path [p] of names below [c]. *)
Inductive opt_at : Command → list string → nat → Prop :=
| at_here c k o : (k, o) ∈ Configs c → opt_at c [Name c; k] o
| at_below c cc n p o : cc ∈ Commands c → opt_at cc (Name cc :: p) o → opt_at c (n :: Name cc :: p) o.

Inductive distinct : Command → Prop :=
| distinct_cmd c : NoDup (Norm ∘ fst <$> Configs c) → NoDup (Norm ∘ Name <$> Commands c) →
    (∀ x, x ∈ Commands c → distinct x) → distinct c.

Lemma filter_unique {A B} `{EqDecision B} (f : A → B) (l : list A) x :
  NoDup (f <$> l) → x ∈ l → filter (λ y, f y = f x) l = [x].
Proof.
  induction l as [|y l IH]; [by intros _ ?%not_elem_of_nil|]. cbn [fmap list_fmap]. intros [H1 H2]%NoDup_cons Hx.
  apply elem_of_cons in Hx as [->|Hx].
  - rewrite filter_cons_True by done. f_equal. destruct (filter _ l) as [|z r] eqn:E; [done|]. exfalso. apply H1.
    assert (z ∈ filter (λ z, f z = f y) l) as [<- Hz]%list_elem_of_filter by (rewrite E; left).
    by apply list_elem_of_fmap_2.
  - rewrite filter_cons_False; [by apply IH|]. intros Hy. apply H1. rewrite Hy. by apply list_elem_of_fmap_2.
Qed.

(** Where the names of siblings differ, [GetOpt] finds every option by its path. *)
Theorem GetOpt_finds c p o : (∀ A site (l : list A), range ord A site l ≡ₚ l) →
  distinct c → opt_at c p o → GetOpt ord c p = Some o.
Proof.
  intros Hr Hd Hp. revert Hd. induction Hp as [c k o Hk|c cc n p o Hcc Hp IH]; intros Hd; inversion Hd as [? N1 N2 N3]; subst.
  - cbn [GetOpt]. rewrite bool_decide_true by done.
    assert (filter (λ kv, Norm kv.1 = Norm (k, o).1) (range ord _ [2]%nat (Configs c)) = [(k, o)]) as E.
    { apply (filter_unique (Norm ∘ fst)); [by rewrite Hr|by rewrite Hr]. }
    cbn [fst] in E. by rewrite E.
  - assert (filter (λ x, Norm (Name x) = Norm (Name cc)) (Commands c) = [cc]) as E
      by (by apply (filter_unique (Norm ∘ Name))).
    inversion Hp; subst; cbn [GetOpt]; rewrite E; by apply IH, N3.
Qed.

(** ** The command line again *)

Lemma look_configs_app arg iArgs l l' found cursor inc e s :
  look_configs arg iArgs (l ++ l') found cursor inc e s =
    (r ← look_configs arg iArgs l found cursor inc e;
     look_configs arg iArgs l' r.1.1.1 r.1.1.2 r.1.2 r.2) s.
Proof.
  revert found cursor inc e s. induction l as [|[k o] l IH]; intros; [done|]. cbn [app look_configs].
  unfold mbind, GoM_bind.
  destruct (lookAhead k o arg iArgs found cursor inc s) as [[[[[f c] i] e1] s1]|]; [|done].
  rewrite IH. unfold mbind, GoM_bind. done.
Qed.

(** A value that an option refuses goes unnoticed unless the loop over the options
    comes to that option last. *)
Lemma bad_value_lost arg iArgs l k o op found cursor inc e s r s' :
  look_configs arg iArgs (l ++ [(k, o)]) found cursor inc e s = Ret (r, s') →
  w_opts s !! o = Some op → Norm arg ∉ Norm <$> (k :: Aliases (md_data (o_m op))) → r.2 = None.
Proof.
  intros E Eo Hn. rewrite look_configs_app in E. apply bind_inv in E as ([[[f c] i] e1] & s1 & E1 & E2).
  apply look_configs_kept in E1. destruct (E1 _ _ Eo) as (op' & Eo' & M & _).
  cbn [look_configs fst snd] in E2. apply bind_inv in E2 as (r2 & s2 & E2 & E3). unfold lookAhead in E2.
  rewrite (bind_run _ _ s1 op' s1) in E2 by (by rewrite opt_deref_run, Eo').
  rewrite look_names_miss in E2 by (by rewrite M). injection E2 as <- <-. by injection E3 as <- _.
Qed.

(** The header of a command names the root and itself, whatever is between. *)
Lemma cmdPath_root (l : list string) root : root ≠ ""%string → cmdPath (l ++ [root]) = root +:+ ".".
Proof.
  intros Hr. unfold cmdPath. rewrite foldl_app. cbn [foldl]. by rewrite bool_decide_false.
Qed.

End ConfigProps.

(** ** Concrete trees *)

Module Tree3.
Definition opt : Opt := IntegerOpt.New (MkData [] [] "" "" "" "1" []) [].
Definition wait : Opt := DurationOpt.New (MkData [] [] "" "" "" "9" []) [].
Definition cmd (n : string) (cs : list Command) (m : Opts_) : Command := MkCommand None n "" "" None [] cs m [].

(** A third-level command with two options. *)
Definition cmd_b : Command := cmd "b" [] [("x", 0); ("y", 1)]%string%nat.
Definition cmd_a : Command := cmd "a" [cmd_b] [("z", 2)]%string%nat.
Definition tree : Command := cmd "r" [cmd_a] [].
Definition world : World := MkWorld [] {[0%nat := opt; 1%nat := opt; 2%nat := opt]} ∅.

(** The environment has one variable for both of its options. *)
Example shared_variable :
  (match GetEnvs Demo.orders tree None world with
   | Ret (e, w) => Some ((λ x, (env_Opt x, Join "_" (ToUpper <$> Paths.elems (w_arrays w) (env_Name x)))) <$> e)
   | Panic _ => None end)
  = Some [(2, "R_A_Z"); (0, "R_A_B_Y"); (1, "R_A_B_Y")]%nat%string.
Proof. vm_compute. reflexivity. Qed.

Definition two : Command := cmd "app" [] [("Count", 0); ("Wait", 1)]%string%nat.
Definition world2 : World := MkWorld [] {[0%nat := opt; 1%nat := wait]} ∅.
#[local] Instance file : Toml := λ _, Some (TTable [("app", TTable [("Count", TInteger 5); ("Wait", TInteger 6)])])%string.
Definition loaded_file := UnmarshalText Demo.orders two "" world2.
Definition values : option (Z * Z) :=
  match loaded_file with
  | Ret (_, w) => match w_opts w !! 0%nat, w_opts w !! 1%nat with
                  | Some a, Some b => Some (c_Integer (Opt_Value a), c_Duration (Opt_Value b)) | _, _ => None end
  | _ => None end.
End Tree3.

Lemma config_file_stores_only_witness :
  Tree3.values = Some (5, 9) ∧ ∃ s', Tree3.loaded_file = Ret (None, s') ∧ w_opts s' !! 1%nat = Some Tree3.wait.
Proof.
  split; [vm_compute; reflexivity|]. assert (Tree3.values = Some (5, 9)) as Hv by (vm_compute; reflexivity).
  unfold Tree3.values in Hv. destruct Tree3.loaded_file as [[e s']|p] eqn:E; [|discriminate Hv]. exists s'.
  destruct (@config_file_stores_only toy_formats Tree3.file Demo.orders Tree3.two "" Tree3.world2 e s' E) as [-> H].
  split; [reflexivity|]. destruct (H 1%nat Tree3.wait eq_refl) as (op & Eo & _ & _ & _ & Hd).
  rewrite Eo. by rewrite (Hd eq_refl).
Defined.

Lemma env_names_witness :
  let s := MkWorld [["r"; "a"; "b"; ""]]%string ∅ ∅ in
  ∃ envs s', env_configs (Some (0, 3)%nat) [("x"%string, 0%nat); ("y"%string, 1%nat)] s = Ret (envs, s') ∧
    ∃ x, envs !! 0%nat = Some x ∧ env_Opt x = 0%nat ∧
      Paths.elems (w_arrays s') (env_Name x) = ["r"; "a"; "b"; "y"]%string.
Proof.
  intros s. eexists _, _. split; [reflexivity|].
  apply (env_names (Some (0, 3)%nat) [("x"%string, 0%nat); ("y"%string, 1%nat)] s _ _
           ltac:(split; cbn; lia) eq_refl) with (i := 0%nat) (k := "x"%string) (o := 0%nat). reflexivity.
Defined.

Lemma GetOpt_finds_witness :
  opt_at Tree3.tree ["r"; "a"; "b"; "y"]%string 1 ∧ GetOpt Demo.orders Tree3.tree ["r"; "a"; "b"; "y"]%string = Some 1%nat.
Proof.
  assert (opt_at Tree3.tree ["r"; "a"; "b"; "y"]%string 1) as H.
  { apply (at_below _ Tree3.cmd_a); [left|]. apply (at_below _ Tree3.cmd_b); [left|]. apply (at_here Tree3.cmd_b). right. left. }
  split; [exact H|]. apply GetOpt_finds; [intros; reflexivity| |exact H].
  assert (∀ c, NoDup (Norm ∘ fst <$> Configs c) ∧ NoDup (Norm ∘ Name <$> Commands c) → Forall distinct (Commands c) → distinct c) as D.
  { intros c [H1 H2] H3. constructor; [exact H1|exact H2|]. by apply Forall_forall. }
  do 2 (apply D; [apply (bool_decide_unpack _); vm_compute; exact I|]; constructor; [|constructor]).
  apply D; [apply (bool_decide_unpack _); vm_compute; exact I|constructor].
Defined.
