(* ===== verification/Networks.v ===== *)
(** * Networks and where an application keeps its data

    Models [pkg/cfg] (the parameters of the three networks and their seeds),
    [pkg/node] and [pkg/util/appdata].  Parsing an address is the parameter
    [NewMultiaddr]; the environment is an argument. *)

From S2P Require Import Opts.
From S2P Require Export Transport.

(** ** [pkg/cfg] *)

Record SeedAddress := MkSeedAddress { ID : string; DNSAddress : string }.

Definition NewSeedAddress (dns id : string) : SeedAddress := MkSeedAddress id dns.

Record NetParams := MkParams { Name : string; Net : Z; DefaultPort : string; DNSSeedAddresses : list SeedAddress }.

Definition node_MainNet : Z := 3652501241.
Definition node_TestNet : Z := 3669344250.
Definition node_SimNet : Z := 303307798.

Definition MainNet : string := "mainnet".
Definition TestNet : string := "testnet".
Definition SimNet : string := "simnet".

Definition params : gmap string NetParams :=
  list_to_map [
    (MainNet, MkParams "mainnet" node_MainNet "8337" [
       NewSeedAddress "seed0.indra.org" "12D3KooWCfTmWavthiVV7Vkm9eouCdiLdGnhd2PShQ2hiu2VVU6Q";
       NewSeedAddress "seed1.indra.org" "12D3KooWASwYWP2gMh581EQG25nauvWfwAU3g6v8TugEoEzL5Ags";
       NewSeedAddress "seed2.indra.org" "12D3KooWFW7k2YcxjZrqWXJhmoCTNiNtgjLkEUeqgvZRAF3xHZjs";
       NewSeedAddress "seed3.indra.org" "12D3KooWPxx3WMiCv3SwBNfrM6peGBWDypJqqxfdGgZKpr7BF9Vo"]);
    (TestNet, MkParams "testnet" node_TestNet "58337" []);
    (SimNet, MkParams "simnet" node_SimNet "62134" [
       NewSeedAddress "seed0" "16Uiu2HAmHL9cwDdGdGEQk7K5xTBH3rUKoRWS3tWgjej9WmjMG6L9";
       NewSeedAddress "seed1" "16Uiu2HAm3ZVpmNPnk67eCKsR3HCMSLhbw3THcBDpyKwCE5GNgHVN";
       NewSeedAddress "seed2" "16Uiu2HAmTP7o9yyuFz8f5sRGr7KTamuMo6UguuTqPMaJavdGX7Ju"])].

Definition InvalidNetwork : panic := PMsg "invalid network, exiting...".

(** What [init] stores in [current]. *)
Definition current0 : string := TestNet.

Definition SelectNetworkParams (network : string) : Out NetParams :=
  match params !! network with Some nw => Ret nw | None => Panic InvalidNetwork end.

Definition CurrentNetworkParams (current : string) : Out NetParams := SelectNetworkParams current.
Definition GetCurrentNetworkParams (current : string) : Out NetParams := SelectNetworkParams current.

(** What is left in [current], and the outcome: there is no return before the
    panic. *)
Definition SetNetworkParams (network current : string) : string * Out unit :=
  let current := match params !! network with Some _ => network | None => current end in
  (current, Panic InvalidNetwork).

Definition GetCurrentDefaultPort (current : string) : Out Z :=
  p ← SelectNetworkParams current;
  mret (wrapu 16 (default 0 (Strs.ParseInt (DefaultPort p)))).

Definition seed_text (p : NetParams) (addr : SeedAddress) : string :=
  "/dns4/" +:+ DNSAddress addr +:+ "/tcp/" +:+ DefaultPort p +:+ "/p2p/" +:+ ID addr.

Definition GetSeedsMultiAddrStrings (p : NetParams) : list string := seed_text p <$> DNSSeedAddresses p.

Section Seeds.
Context `{Addresses}.

(** The addresses before the first that does not parse, and its error. *)
Fixpoint parse_seeds (l : list string) : list Multiaddr * option error :=
  match l with
  | [] => ([], None)
  | s :: l =>
      match NewMultiaddr s with
      | inr e => ([], Some e)
      | inl adr => let '(addresses, err) := parse_seeds l in (adr :: addresses, err)
      end
  end.

Definition ParseSeedMultiAddresses (p : NetParams) : list Multiaddr * option error :=
  parse_seeds (seed_text p <$> DNSSeedAddresses p).
End Seeds.

(** ** [pkg/util/appdata] *)

(** The user's home directory, [None] when the look-up fails, and the environment. *)
Record OS := MkOS { user_home : option string; Getenv : string → string }.

(** [unicode.ToUpper] and [unicode.ToLower] on the runes a byte converts to. *)
Definition rune_upper (r : Z) : Z :=
  if bool_decide (97 ≤ r ≤ 122 ∨ (224 ≤ r ≤ 254 ∧ r ≠ 247)) then r - 32
  else if bool_decide (r = 181) then 924
  else if bool_decide (r = 255) then 376
  else r.
Definition rune_lower (r : Z) : Z :=
  if bool_decide (65 ≤ r ≤ 90 ∨ (192 ≤ r ≤ 222 ∧ r ≠ 215)) then r + 32 else r.

Definition byte_char (z : Z) : ascii := ascii_of_N (Z.to_N z).

(** [string(r)], in UTF-8, for a rune below 2048. *)
Definition rune_string (r : Z) : string :=
  if bool_decide (r < 128) then String (byte_char r) ""
  else String (byte_char (192 + r / 64)) (String (byte_char (128 + r mod 64)) "").

Definition first_rune (f : Z → Z) (s : string) : string :=
  match s with
  | "" => ""
  | String c rest => rune_string (f (Z.of_N (N_of_ascii c))) +:+ rest
  end.

Definition TrimPrefix (s prefix : string) : string :=
  if Strs.HasPrefix s prefix then String.substring (String.length prefix) (String.length s - String.length prefix) s else s.

(** The first byte of the name is taken without looking whether there is one. *)
Definition GetDataDir (os : OS) (goos appName : string) (roaming : bool) : Out string :=
  if bool_decide (appName = "" ∨ appName = ".") then Ret "."
  else
    let appName := TrimPrefix appName "." in
    match appName with
    | "" => Panic PIndex
    | _ =>
        let appNameUpper := first_rune rune_upper appName in
        let appNameLower := first_rune rune_lower appName in
        let homeDir :=
          match user_home os with
          | Some d => if bool_decide (d = "") then Getenv os "HOME" else d
          | None => Getenv os "HOME"
          end in
        Ret (if bool_decide (goos = "windows") then
               let appData := Getenv os "LOCALAPPDATA" in
               let appData := if roaming || bool_decide (appData = "") then Getenv os "APPDATA" else appData in
               if bool_decide (appData ≠ "") then FilepathJoin [appData; appNameUpper] else "."
             else if bool_decide (goos = "darwin") then
               if bool_decide (homeDir ≠ "") then FilepathJoin [homeDir; "Library"; "Application Support"; appNameUpper] else "."
             else if bool_decide (goos = "plan9") then
               if bool_decide (homeDir ≠ "") then FilepathJoin [homeDir; appNameLower] else "."
             else
               if bool_decide (homeDir ≠ "") then FilepathJoin [homeDir; String "." appNameLower] else ".")
    end.

Definition Dir (os : OS) (GOOS appName : string) (roaming : bool) : Out string := GetDataDir os GOOS appName roaming.

(** ** What they do *)

(** Setting the network never returns, whatever it is told. *)
Theorem SetNetworkParams_panics network current : (SetNetworkParams network current).2 = Panic InvalidNetwork.
Proof. done. Qed.

Lemma TrimPrefix_dot s : TrimPrefix s "." = "" → s = "" ∨ s = ".".
Proof.
  unfold TrimPrefix. destruct s as [|a s]; [by left|]. unfold Strs.HasPrefix. cbn [String.prefix].
  destruct (ascii_dec "." a) as [<-|Hn]; [|discriminate]. destruct s as [|b s]; [by right|]. simpl. discriminate.
Qed.

(** The directory is found for every name: trimming leaves a byte to convert. *)
Theorem GetDataDir_total os goos appName roaming : ∃ d, GetDataDir os goos appName roaming = Ret d.
Proof.
  unfold GetDataDir. case_bool_decide as Ha; [by eexists|].
  destruct (TrimPrefix appName ".") as [|c s] eqn:E; [|by eexists]. by apply TrimPrefix_dot in E.
Qed.

(** The parsed seeds are those of the text, up to the first that does not parse. *)
Theorem seeds_parsed `{Addresses} p ms e : ParseSeedMultiAddresses p = (ms, e) →
  ∃ rest, (NewMultiaddr <$> GetSeedsMultiAddrStrings p) = (inl <$> ms) ++ rest ∧
          match e with None => rest = [] | Some err => head rest = Some (inr err) end.
Proof.
  unfold ParseSeedMultiAddresses, GetSeedsMultiAddrStrings. generalize (seed_text p <$> DNSSeedAddresses p). intros l.
  revert ms e. induction l as [|s l IH]; intros ms e E; cbn in E.
  - injection E as <- <-. by exists [].
  - destruct (NewMultiaddr s) as [adr|err] eqn:Es.
    + destruct (parse_seeds l) as [ms' e'] eqn:El. injection E as <- <-. destruct (IH ms' e' eq_refl) as (rest & Er & He).
      exists rest. cbn. by rewrite Es, Er.
    + injection E as <- <-. exists (NewMultiaddr <$> s :: l). cbn. by rewrite Es.
Qed.

Example default_ports : GetCurrentDefaultPort <$> [MainNet; TestNet; SimNet] = [Ret 8337; Ret 58337; Ret 62134].
Proof. vm_compute. reflexivity. Qed.

Example data_dir : GetDataDir (MkOS (Some "/home/u") (λ _, "")) "linux" ".Indra" false = Ret "/home/u/.indra".
Proof. vm_compute. reflexivity. Qed.
