(* ===== verification/Rpc.v ===== *)
(** * The RPC server: keys, endpoints, options, tunnel and store

    Models [pkg/rpc] but for its goroutines, which are in [Seed]: keys and their
    text, endpoints, dial and server options, the two stores of the tunnel's key
    and the configuration of the tunnel.  Base 58, the curve and the database are
    parameters.

    A key reads back from its text; a shorter text leaves the end of the key that
    was there.  An endpoint's address and port are read from a dialled target.
    The tunnel's key survives in the store and the whitelist only grows. *)

From S2P Require Import OptsProps.
From S2P Require Export Networks.

Class Base58 := { b58Encode : bytes → string; b58Decode : string → bytes }.

Class Base58Laws `{Base58} : Prop := { b58_Decode_Encode b : b58Decode (b58Encode b) = b }.

(** ** Keys *)

Definition PrivateKeySize : nat := 32.
Definition PublicKeySize : nat := 32.

Abbreviation PrivateKey := (arr PrivateKeySize).
Abbreviation PublicKey := (arr PublicKeySize).

(** [copy(k[:], src)]: what [src] does not cover stays. *)
Definition copy_key {n} (k : arr n) (src : bytes) : arr n :=
  arr_of n (take n src ++ drop (length src) (arr_list k)).

(** The bits of a scalar that are fixed: [sk[0] &= 248], [sk[31] = (sk[31] & 127) | 64]. *)
Definition clamp_key {n} (sk : arr n) : arr n :=
  arr_of n (alter (λ b, z2b (Z.land (b2z b) 248)) 0%nat
             (alter (λ b, z2b (Z.lor (Z.land (b2z b) 127) 64)) 31%nat (arr_list sk))).

(** [read] is what the random generator wrote before it failed, if it did. *)
Definition NewPrivateKey (read : bytes) (err : option error) : PrivateKey * option error :=
  (clamp_key (copy_key (arr_zero PrivateKeySize) read), err).

Definition Equals (key tar : PrivateKey) : bool := bool_decide (key = tar).
Definition IsZero (sk : PrivateKey) : bool := Equals sk (arr_zero PrivateKeySize).

Definition hex_digit (v : Z) : ascii := byte_char (if bool_decide (v < 10) then 48 + v else 87 + v).
Definition HexString {n} (k : arr n) : string :=
  foldr (λ b s, String (hex_digit (b2z b / 16)) (String (hex_digit (b2z b mod 16)) s)) "" (arr_list k).

Definition Bytes {n} (sk : arr n) : bytes := arr_list sk.
Definition DecodeBytes {n} (key : bytes) (sk : arr n) : arr n := copy_key sk key.

Section Keys.
Context `{Base58}.

Definition Encode {n} (sk : arr n) : string := b58Encode (arr_list sk).
Definition Decode {n} (key : string) (sk : arr n) : arr n := copy_key sk (b58Decode key).

Definition DecodePrivateKey (key : string) : PrivateKey := Decode key (arr_zero PrivateKeySize).
Definition DecodePublicKey (key : string) : PublicKey := Decode key (arr_zero PublicKeySize).
End Keys.

(** ** Endpoints *)

Abbreviation Endpoint := string (only parsing).

(** [strings.Cut] *)
Fixpoint Cut (s sep : string) : string * string * bool :=
  if Strs.HasPrefix s sep then ("", String.substring (String.length sep) (String.length s - String.length sep) s, true)
  else match s with
       | "" => ("", "", false)
       | String c rest => let '(before, after, found) := Cut rest sep in
                          if found then (String c before, after, true) else (s, "", false)
       end.

Definition Endpoint_Address (e : Endpoint) : string :=
  let '(before, _, found) := Cut e ":" in if negb found then "" else before.
Definition Port (e : Endpoint) : string :=
  let '(_, after, found) := Cut e ":" in if negb found then "" else after.
Definition EndpointString (endpoint : string) : Endpoint :=
  let '(_, after, found) := Cut endpoint "//" in if negb found then endpoint else after.

(** ** Dialling *)

Record dialOptions := MkDialOptions {
  endpoint : Endpoint; rpcEndpoint : Endpoint; key : PrivateKey; peerPubKey : PublicKey;
  peerRPCIP : string; keepAliveInterval : Z; mtu : Z }.

(** The two implementations of the interface [DialOption]. *)
Inductive DialOption :=
| funcDialOption (f : dialOptions → dialOptions)
| joinDialOption (opts : list DialOption).

Fixpoint apply (opt : DialOption) (do : dialOptions) : dialOptions :=
  match opt with
  | funcDialOption f => f do
  | joinDialOption opts => foldl (λ do o, apply o do) do opts
  end.

Definition WithKeepAliveInterval (seconds : Z) : DialOption := funcDialOption (λ o,
  MkDialOptions (endpoint o) (rpcEndpoint o) (key o) (peerPubKey o) (peerRPCIP o) seconds (mtu o)).
Definition WithPeer `{Base58} (pubKey : string) : DialOption := funcDialOption (λ o,
  MkDialOptions (endpoint o) (rpcEndpoint o) (key o) (DecodePublicKey pubKey) (peerRPCIP o) (keepAliveInterval o) (mtu o)).
Definition WithPrivateKey `{Base58} (k : string) : DialOption := funcDialOption (λ o,
  MkDialOptions (endpoint o) (rpcEndpoint o) (DecodePrivateKey k) (peerPubKey o) (peerRPCIP o) (keepAliveInterval o) (mtu o)).

Definition rpcEndpointDefault : string := "192.168.37.1:80".

Definition newline : string := String "010" "".

(** The text handed to the tunnel device. *)
Definition deviceConf (opts : dialOptions) : string :=
  "public_key=" +:+ HexString (peerPubKey opts) +:+ newline +:+
  "endpoint=" +:+ endpoint opts +:+ newline +:+
  "allowed_ip=" +:+ Endpoint_Address (rpcEndpoint opts) +:+ "/32" +:+ newline +:+
  "persistent_keepalive_interval=" +:+ Strs.FormatInt (keepAliveInterval opts) +:+ newline.

(** Where a dial goes: to the socket, or through a tunnel configured with a text
    to the endpoint inside it. *)
Inductive dialled := ViaSocket (target : string) | ViaTunnel (private : PrivateKey) (conf : string) (address : Endpoint).

Definition UnsupportedProtocol : error := Errorf "Unsupported protocol. Only unix:// or noise://" [].

(** [tunErr] and [ipcErr] are what the device answers. *)
Definition DialContext (tunErr ipcErr : option error) (target : string) (opts : list DialOption) : dialled + error :=
  if Strs.HasPrefix target "unix://" then inl (ViaSocket target)
  else if negb (Strs.HasPrefix target "noise://") then inr UnsupportedProtocol
  else
    let dialOpts := foldl (λ do o, apply o do)
      (MkDialOptions (EndpointString target) (EndpointString rpcEndpointDefault) (arr_zero _) (arr_zero _) "192.168.37.2" 0 1420) opts in
    match tunErr with
    | Some e => inr e
    | None =>
        match ipcErr with
        | Some e => inr e
        | None => inl (ViaTunnel (key dialOpts) (deviceConf dialOpts) (rpcEndpoint dialOpts))
        end
    end.

(** ** Where the tunnel's key is kept *)

Definition ErrKeyNotExists : error := Errorf "key not found" [].

Definition tunKeyKey : string := "rpc-tun-key".

(** The database: its entries, and the error of a transaction that fails for a
    reason of its own. *)
Record BadgerDB := MkBadger { entries : gmap string bytes; failing : option error }.

Definition ErrKeyNotFound : error := Errorf "Key not found" [].

Definition txn_Get (k : string) (db : BadgerDB) : bytes + error :=
  match failing db with
  | Some e => inr e
  | None => match entries db !! k with Some v => inl v | None => inr ErrKeyNotFound end
  end.

Inductive Store := StoreMem (k : option PrivateKey) | BadgerStore (db : BadgerDB).

Definition Store_Reset (s : Store) : Store :=
  match s with
  | StoreMem _ => StoreMem None
  | BadgerStore db => BadgerStore (match failing db with Some _ => db | None => MkBadger (delete tunKeyKey (entries db)) None end)
  end.

(** Setting reports no error. *)
Definition SetKey (k : PrivateKey) (s : Store) : Store :=
  match s with
  | StoreMem _ => StoreMem (Some k)
  | BadgerStore db => BadgerStore (match failing db with Some _ => db | None => MkBadger (<[tunKeyKey := Bytes k]> (entries db)) None end)
  end.

(** After an error other than a missing key the item is nil. *)
Definition GetKey (s : Store) : Out (PrivateKey + error) :=
  match s with
  | StoreMem None => Ret (inr ErrKeyNotExists)
  | StoreMem (Some k) => Ret (if IsZero k then inr ErrKeyNotExists else inl k)
  | BadgerStore db =>
      match txn_Get tunKeyKey db with
      | inl v => Ret (inl (DecodeBytes v (arr_zero PrivateKeySize)))
      | inr e => if bool_decide (e = ErrKeyNotFound) then Ret (inr ErrKeyNotExists) else Panic PNil
      end
  end.

(** ** Server options and the tunnel *)

Record ServerOptions := MkServerOptions {
  store : Store; unixPath : string; tunEnable : bool; tunPort : Z; tunPeers : list string }.

Definition NullPort : Z := 0.
Definition unixPathDefault : string := "/tmp/indra.sock".
Definition ServerOptions0 : ServerOptions := MkServerOptions (StoreMem None) unixPathDefault false NullPort [].

Definition GetTunPort (s : ServerOptions) : Z := tunPort s.

Abbreviation ServerOption := (ServerOptions → ServerOptions).

Definition WithDisableTunnel : ServerOption := λ o, MkServerOptions (store o) (unixPath o) false (tunPort o) (tunPeers o).
Definition WithStore (s : Store) : ServerOption := λ o, MkServerOptions s (unixPath o) (tunEnable o) (tunPort o) (tunPeers o).
Definition WithUnixPath (path : string) : ServerOption := λ o, MkServerOptions (store o) path (tunEnable o) (tunPort o) (tunPeers o).
Definition WithTunOptions (port : Z) (peers : list string) : ServerOption := λ o,
  MkServerOptions (store o) (unixPath o) true port peers.

Definition apply_all (opts : list ServerOption) : ServerOptions := foldl (λ o f, f o) ServerOptions0 opts.

(** [rnd] is what [rand.Intn(65534-offset)] answers. *)
Definition genRandomPort (offset rnd : Z) : Z := wrapu 16 (rnd + offset).

(** The tunnel's key and the peers let in, package variables. *)
Record Tunnel := MkTunnel { tunKey : option PrivateKey; tunWhitelist : list PublicKey }.

Section TunnelConfig.
Context `{Base58}.

Definition configureTunnelPort (rnd : Z) (o : ServerOptions) : ServerOptions :=
  if bool_decide (tunPort o ≠ NullPort) then o
  else MkServerOptions (store o) (unixPath o) (tunEnable o) (genRandomPort 10000 rnd) (tunPeers o).

(** [fresh] is the key [NewPrivateKey] makes when there is none. *)
Definition configureTunnelKey (fresh : PrivateKey) (o : ServerOptions) (t : Tunnel) : Out (ServerOptions * Tunnel) :=
  r ← GetKey (store o);
  match r with
  | inl k => Ret (o, MkTunnel (Some k) (tunWhitelist t))
  | inr e =>
      if negb (bool_decide (e = ErrKeyNotExists)) then Ret (o, MkTunnel None (tunWhitelist t))
      else Ret (MkServerOptions (SetKey fresh (store o)) (unixPath o) (tunEnable o) (tunPort o) (tunPeers o),
                MkTunnel (Some fresh) (tunWhitelist t))
  end.

Definition configurePeerWhitelist (o : ServerOptions) (t : Tunnel) : Tunnel :=
  MkTunnel (tunKey t) (tunWhitelist t ++ (DecodePublicKey <$> tunPeers o)).

Definition configureTunnel (rnd : Z) (fresh : PrivateKey) (o : ServerOptions) (t : Tunnel) : Out (ServerOptions * Tunnel) :=
  if negb (tunEnable o) then Ret (o, t)
  else
    '(o, t) ← configureTunnelKey fresh (configureTunnelPort rnd o) t;
    Ret (o, configurePeerWhitelist o t).

(** [configureDevice]: the settings given to the device, after its key. *)
Definition configureDevice (o : ServerOptions) (t : Tunnel) : Out (PrivateKey * list string) :=
  match tunKey t with
  | None => Panic PNil
  | Some k =>
      Ret (k, ("listen_port=" +:+ Strs.FormatInt (tunPort o)) ::
              ((λ peer, "public_key=" +:+ HexString peer +:+ newline +:+ "allowed_ip=192.168.37.2/32" +:+ newline) <$> tunWhitelist t))
  end.
End TunnelConfig.

(** ** Keys *)

Lemma copy_key_all {n} (k : arr n) (l : bytes) : length l = n → arr_list (copy_key k l) = l.
Proof.
  intros Hl. unfold copy_key. rewrite take_ge by lia. rewrite drop_ge by (rewrite (arr_len k); lia).
  rewrite app_nil_r. by apply arr_list_of.
Qed.

(** What is written over a key replaces its front and leaves the rest. *)
Theorem copy_key_front {n} (k : arr n) (l : bytes) : (length l ≤ n)%nat →
  arr_list (copy_key k l) = l ++ drop (length l) (arr_list k).
Proof.
  intros Hl. unfold copy_key. rewrite take_ge by lia. apply arr_list_of.
  rewrite length_app, length_drop, (arr_len k). lia.
Qed.

(** A key is read back from its text, whatever the receiver held. *)
Theorem key_reads_back `{Base58Laws} {n} (k k' : arr n) : Decode (Encode k) k' = k.
Proof.
  unfold Decode, Encode. rewrite b58_Decode_Encode. apply arr_eq. by rewrite copy_key_all by apply arr_len.
Qed.

(** A text of fewer bytes leaves the end of the key that was there before. *)
Theorem short_key_keeps_rest `{Base58Laws} {n} (k : arr n) (b : bytes) : (length b ≤ n)%nat →
  arr_list (Decode (b58Encode b) k) = b ++ drop (length b) (arr_list k).
Proof. intros Hb. unfold Decode. rewrite b58_Decode_Encode. by apply copy_key_front. Qed.

(** A new key has the form of a scalar of the curve: a multiple of eight with the bit
    below the highest set and the highest clear. *)
Theorem NewPrivateKey_clamped read err : ∃ first last,
  arr_list (NewPrivateKey read err).1 !! 0%nat = Some first ∧ b2z first mod 8 = 0 ∧
  arr_list (NewPrivateKey read err).1 !! 31%nat = Some last ∧ 64 ≤ b2z last < 128.
Proof.
  unfold NewPrivateKey, clamp_key, PrivateKeySize. cbn [fst]. set (l := arr_list (copy_key (arr_zero 32) read)).
  assert (length l = 32%nat) as Hl by apply arr_len.
  rewrite !arr_list_of by (by rewrite !length_alter).
  destruct (lookup_lt_is_Some_2 l 0) as [a Ha]; [lia|]. destruct (lookup_lt_is_Some_2 l 31) as [b Hb]; [lia|].
  exists (z2b (Z.land (b2z a) 248)), (z2b (Z.lor (Z.land (b2z b) 127) 64)).
  rewrite list_lookup_alter_eq, list_lookup_alter_ne, Ha by done. split; [done|].
  pose proof (b2z_range a) as Ra. pose proof (b2z_range b) as Rb.
  rewrite list_lookup_alter_ne, list_lookup_alter_eq, Hb by done. cbn [fmap option_fmap option_map].
  assert (∀ x, 0 ≤ x < 256 → Z.land x 248 mod 8 = 0 ∧ 0 ≤ Z.land x 248 < 256 ∧ 64 ≤ Z.lor (Z.land x 127) 64 < 128) as Hx.
  { intros x Hx. assert (forallb (λ x, bool_decide (Z.land x 248 mod 8 = 0 ∧ 0 ≤ Z.land x 248 < 256 ∧ 64 ≤ Z.lor (Z.land x 127) 64 < 128)) (seqZ 0 256) = true)
      as Hall by (vm_compute; reflexivity).
    rewrite forallb_forall in Hall. specialize (Hall x). apply bool_decide_eq_true in Hall; [done|]. apply list_elem_of_In, elem_of_seqZ. lia. }
  destruct (Hx (b2z a) Ra) as (Hm & Hr & _). destruct (Hx (b2z b) Rb) as (_ & _ & Hk).
  rewrite !b2z_z2b, (Z.mod_small (Z.land _ 248)), (Z.mod_small (Z.lor _ 64)) by lia. split; [exact Hm|]. split; [reflexivity|exact Hk].
Qed.

(** ** Endpoints *)

Lemma Cut_skip c s sep : Strs.HasPrefix (String c s) sep = false →
  Cut (String c s) sep = (let '(before, after, found) := Cut s sep in if found : bool then (String c before, after, true) else (String c s, "", false)).
Proof. intros E. cbn [Cut]. by rewrite E. Qed.

Lemma HasPrefix_char (x c : ascii) s : Strs.HasPrefix (String c s) (String x "") = bool_decide (x = c).
Proof. unfold Strs.HasPrefix. cbn [String.prefix]. destruct (ascii_dec x c); [|by rewrite bool_decide_false]. rewrite bool_decide_true by done. by destruct s. Qed.

(** Cutting at a character that stands only behind the front. *)
Lemma Cut_char (x : ascii) h p : Strs.Contains x h = false → Cut (h +:+ String x p) (String x "") = (h, p, true).
Proof.
  induction h as [|c h IH]; intros Hh.
  - change ("" +:+ String x p) with (String x p). cbn [Cut]. rewrite HasPrefix_char, bool_decide_true by done. cbn. by rewrite Nat.sub_0_r, substring_all.
  - change (String c h +:+ String x p) with (String c (h +:+ String x p)).
    cbn in Hh. apply orb_false_iff in Hh as [Hc Hh]. rewrite Cut_skip.
    + by rewrite (IH Hh).
    + rewrite HasPrefix_char. apply bool_decide_eq_false in Hc. by apply bool_decide_eq_false.
Qed.

(** The target of a dial gives back its address and its port. *)
Theorem endpoint_of_target h p : Strs.Contains ":" h = false →
  let e := EndpointString ("noise://" +:+ h +:+ ":" +:+ p) in Endpoint_Address e = h ∧ Port e = p.
Proof.
  intros Hh. assert (EndpointString ("noise://" +:+ h +:+ ":" +:+ p) = h +:+ ":" +:+ p) as ->.
  { unfold EndpointString. generalize (h +:+ ":" +:+ p). intros r.
    destruct r as [|c r]; [reflexivity|]. change (Cut ("noise://" +:+ String c r) "//") with ("noise:", String.substring 0 (String.length (String c r) - 0) (String c r), true).
    by rewrite Nat.sub_0_r, substring_all. }
  cbn. unfold Endpoint_Address, Port. change (":" +:+ p) with (String ":" p). by rewrite Cut_char.
Qed.

(** ** The tunnel *)

Definition answers (s : Store) : Prop := match s with BadgerStore db => failing db = None | StoreMem _ => True end.

Lemma GetKey_SetKey k s : answers s → IsZero k = false → GetKey (SetKey k s) = Ret (inl k).
Proof.
  destruct s as [m|db]; cbn; intros Hs Hz; [by rewrite Hz|]. rewrite Hs. unfold txn_Get. cbn. rewrite lookup_insert_eq.
  repeat f_equal. apply arr_eq. unfold DecodeBytes, Bytes. by rewrite copy_key_all by apply arr_len.
Qed.

Lemma configureTunnel_found `{Base58} rnd fresh o t k : tunEnable o = true → GetKey (store o) = Ret (inl k) →
  ∃ o', configureTunnel rnd fresh o t = Ret (o', MkTunnel (Some k) (tunWhitelist t ++ (DecodePublicKey <$> tunPeers o))).
Proof.
  intros He Hg. destruct o as [st path en port peers]; cbn in *. subst en. unfold configureTunnel, configureTunnelKey, configureTunnelPort. cbn.
  case_bool_decide; cbn; rewrite Hg; cbn; by eexists.
Qed.

Lemma configureTunnel_fresh `{Base58} rnd fresh o t : tunEnable o = true → GetKey (store o) = Ret (inr ErrKeyNotExists) →
  ∃ port, configureTunnel rnd fresh o t
    = Ret (MkServerOptions (SetKey fresh (store o)) (unixPath o) true port (tunPeers o),
           MkTunnel (Some fresh) (tunWhitelist t ++ (DecodePublicKey <$> tunPeers o))).
Proof.
  intros He Hg. destruct o as [st path en port peers]; cbn in *. subst en. unfold configureTunnel, configureTunnelKey, configureTunnelPort. cbn.
  case_bool_decide; cbn; rewrite Hg; cbn; by eexists.
Qed.

(** A key made for the tunnel is in the store and found by the next start, unless it is
    all zeros; but every start lets the same peers in once more. *)
Theorem tunnel_key_kept `{Base58} rnd fresh rnd' fresh' o t : tunEnable o = true → answers (store o) →
  GetKey (store o) = Ret (inr ErrKeyNotExists) → IsZero fresh = false →
  ∃ o' t' o'' t'', configureTunnel rnd fresh o t = Ret (o', t') ∧ configureTunnel rnd' fresh' o' t' = Ret (o'', t'') ∧
    tunKey t' = Some fresh ∧ tunKey t'' = Some fresh ∧
    tunWhitelist t'' = tunWhitelist t ++ (DecodePublicKey <$> tunPeers o) ++ (DecodePublicKey <$> tunPeers o).
Proof.
  intros He Ha Hg Hz. destruct (configureTunnel_fresh rnd fresh o t He Hg) as [port E].
  destruct (configureTunnel_found rnd' fresh' (MkServerOptions (SetKey fresh (store o)) (unixPath o) true port (tunPeers o))
    (MkTunnel (Some fresh) (tunWhitelist t ++ (DecodePublicKey <$> tunPeers o))) fresh eq_refl (GetKey_SetKey _ _ Ha Hz)) as [o'' E'].
  eexists _, _, _, _. split; [exact E|]. split; [exact E'|]. cbn. by rewrite <- app_assoc.
Qed.

(** A store that fails for a reason of its own brings the program down. *)
Theorem failing_store_panics db e : failing db = Some e → e ≠ ErrKeyNotFound → GetKey (BadgerStore db) = Panic PNil.
Proof. intros Hf He. cbn. unfold txn_Get. rewrite Hf. by rewrite bool_decide_false. Qed.

(** ** Witnesses *)

Module RpcDemo.
#[export] Instance base58 : Base58 := {|
  b58Encode := String.string_of_list_byte;
  b58Decode := String.list_byte_of_string;
|}.

#[export] Instance base58_laws : Base58Laws.
Proof. constructor. exact String.list_byte_of_string_of_list_byte. Qed.

Definition a_key : PrivateKey := arr_of 32 [x01; x02].
Definition options : ServerOptions := WithTunOptions 80 ["peer"] ServerOptions0.
End RpcDemo.

#[local] Existing Instances RpcDemo.base58 RpcDemo.base58_laws.

Lemma short_key_keeps_rest_witness : arr_list (Decode (b58Encode [x09]) RpcDemo.a_key) = [x09; x02] ++ replicate 30 x00.
Proof. rewrite (short_key_keeps_rest RpcDemo.a_key [x09]); [vm_compute; reflexivity|]. unfold PrivateKeySize. cbn. lia. Defined.

Lemma key_reads_back_witness : Decode (Encode RpcDemo.a_key) (arr_zero 32) = RpcDemo.a_key.
Proof. apply key_reads_back. Defined.

Lemma copy_key_front_witness : arr_list (copy_key RpcDemo.a_key [x09]) = [x09; x02] ++ replicate 30 x00.
Proof. rewrite (copy_key_front RpcDemo.a_key [x09]); [vm_compute; reflexivity|]. unfold PrivateKeySize. cbn. lia. Defined.

Lemma endpoint_of_target_witness : Endpoint_Address (EndpointString "noise://seed0:80") = "seed0" ∧ Port (EndpointString "noise://seed0:80") = "80".
Proof. apply (endpoint_of_target "seed0" "80"). reflexivity. Defined.

Lemma tunnel_key_kept_witness : ∃ o t, configureTunnel 0 RpcDemo.a_key RpcDemo.options (MkTunnel None []) = Ret (o, t) ∧ tunKey t = Some RpcDemo.a_key.
Proof.
  destruct (tunnel_key_kept 0 RpcDemo.a_key 0 RpcDemo.a_key RpcDemo.options (MkTunnel None []) eq_refl I eq_refl ltac:(by vm_compute))
    as (o & t & _ & _ & E & _ & Ek & _). by exists o, t.
Defined.

Lemma failing_store_panics_witness : GetKey (BadgerStore (MkBadger ∅ (Some (Errorf "closed" [])))) = Panic PNil.
Proof. by apply (failing_store_panics _ (Errorf "closed" [])). Defined.
