(* ===== verification/Storage.v ===== *)
(** * The encrypted store and its key

    Models [pkg/storage]: the key, the configuration from flags and files, and the
    opening of the database.  The goroutines of [Run] and of the unlock service
    are in [Seed].  The file system and what [badger.Open] answers are
    arguments. *)

From S2P Require Import Opts.
From S2P Require Export Rpc Chan.

(** ** The key *)

Abbreviation Key := (arr 32).

Definition Key_Encode `{Base58} (k : Key) : string := b58Encode (arr_list k).
Definition Key_Decode `{Base58} (key : string) (k : Key) : Key := copy_key k (b58Decode (Strs.TrimSpace key)).
Definition Key_Bytes (k : Key) : bytes := arr_list k.

Definition KeyGen (read : bytes) (err : option error) : Key * option error :=
  (clamp_key (copy_key (arr_zero 32) read), err).

(** ** Flags and files *)

Definition storeKeyFlag : string := "store-key".
Definition storeKeyFileFlag : string := "store-keyfile".
Definition storeFilePathFlag : string := "store-path".
Definition fileName : string := "indra.db".

(** The settings by flag; a missing one is empty. *)
Record Viper := MkViper {
  strs : gmap string string; slices : gmap string (list string); bools : gmap string bool; ints : gmap string Z }.

Definition GetString (k : string) (v : Viper) : string := default "" (strs v !! k).
Definition GetStringSlice (k : string) (v : Viper) : list string := default [] (slices v !! k).
Definition GetBool (k : string) (v : Viper) : bool := default false (bools v !! k).
Definition GetUint16 (k : string) (v : Viper) : Z := default 0 (ints v !! k).
Definition SetString (k s : string) (v : Viper) : Viper := MkViper (<[k := s]> (strs v)) (slices v) (bools v) (ints v).
Definition SetInt (k : string) (i : Z) (v : Viper) : Viper := MkViper (strs v) (slices v) (bools v) (<[k := i]> (ints v)).

Record FS := MkFS { Stat : string → option error; ReadFile : string → string + error; MkdirAll : string → option error }.

(** [filepath.Dir] *)
Definition filepath_Dir (p : string) : string :=
  Clean (match Strs.LastIndex slash (String.list_ascii_of_string p) with
         | Some i => String.substring 0 (S i) p
         | None => ""
         end).

(** ** The package's variables *)

(** An open database: where it lies and the key it was opened with. *)
Record DB := MkDB { db_path : string; db_key : Key }.

Record Stg := MkStg {
  newKeyGenerated : bool;
  isNewDB : bool;
  noKeyProvided : bool;
  stg_key : Key;
  db : option DB;
  running : bool;
  startupErrors : chan error;
  isLockedChan : chan bool;
  isUnlockedChan : chan bool;
  isReadyChan : chan bool;
  opened : list DB;                      (* every database opened so far *)
}.

Definition Stg0 : Stg :=
  MkStg false false false (arr_zero 32) None false (make 128) (make 1) (make 1) (make 1) [].

Definition with_newKey (b : bool) (s : Stg) : Stg :=
  MkStg b (isNewDB s) (noKeyProvided s) (stg_key s) (db s) (running s) (startupErrors s) (isLockedChan s) (isUnlockedChan s) (isReadyChan s) (opened s).
Definition with_isNewDB (b : bool) (s : Stg) : Stg :=
  MkStg (newKeyGenerated s) b (noKeyProvided s) (stg_key s) (db s) (running s) (startupErrors s) (isLockedChan s) (isUnlockedChan s) (isReadyChan s) (opened s).
Definition with_noKey (b : bool) (s : Stg) : Stg :=
  MkStg (newKeyGenerated s) (isNewDB s) b (stg_key s) (db s) (running s) (startupErrors s) (isLockedChan s) (isUnlockedChan s) (isReadyChan s) (opened s).
Definition with_key (k : Key) (s : Stg) : Stg :=
  MkStg (newKeyGenerated s) (isNewDB s) (noKeyProvided s) k (db s) (running s) (startupErrors s) (isLockedChan s) (isUnlockedChan s) (isReadyChan s) (opened s).
Definition with_db (d : option DB) (s : Stg) : Stg :=
  MkStg (newKeyGenerated s) (isNewDB s) (noKeyProvided s) (stg_key s) d (running s) (startupErrors s) (isLockedChan s) (isUnlockedChan s) (isReadyChan s)
    (match d with Some x => opened s ++ [x] | None => opened s end).
Definition with_running (b : bool) (s : Stg) : Stg :=
  MkStg (newKeyGenerated s) (isNewDB s) (noKeyProvided s) (stg_key s) (db s) b (startupErrors s) (isLockedChan s) (isUnlockedChan s) (isReadyChan s) (opened s).
Definition with_errors (c : chan error) (s : Stg) : Stg :=
  MkStg (newKeyGenerated s) (isNewDB s) (noKeyProvided s) (stg_key s) (db s) (running s) c (isLockedChan s) (isUnlockedChan s) (isReadyChan s) (opened s).
Definition with_locked (c : chan bool) (s : Stg) : Stg :=
  MkStg (newKeyGenerated s) (isNewDB s) (noKeyProvided s) (stg_key s) (db s) (running s) (startupErrors s) c (isUnlockedChan s) (isReadyChan s) (opened s).
Definition with_unlocked (c : chan bool) (s : Stg) : Stg :=
  MkStg (newKeyGenerated s) (isNewDB s) (noKeyProvided s) (stg_key s) (db s) (running s) (startupErrors s) (isLockedChan s) c (isReadyChan s) (opened s).
Definition with_ready (c : chan bool) (s : Stg) : Stg :=
  MkStg (newKeyGenerated s) (isNewDB s) (noKeyProvided s) (stg_key s) (db s) (running s) (startupErrors s) (isLockedChan s) (isUnlockedChan s) c (opened s).

(** ** Configuration *)

Abbreviation CM := (GoM (Stg * Viper)).

Definition updS (f : Stg → Stg) : CM unit := λ '(s, v), Ret (tt, (f s, v)).
Definition viper {A} (f : Viper → A) : CM A := λ '(s, v), Ret (f v, (s, v)).
Definition set_viper (f : Viper → Viper) : CM unit := λ '(s, v), Ret (tt, (s, f v)).

(** [startupErrors <- err] *)
Definition startup_error (e : error) : CM unit := λ '(s, v),
  match send e (startupErrors s) with
  | Ret (Goes, c) => Ret (tt, (with_errors c s, v))
  | Ret (Parks, _) => Panic PBlock
  | Panic p => Panic p
  end.

(** The directory that is made is that of the flag's name. *)
Definition configureDirPath (fs : FS) : CM unit :=
  p ← viper (GetString storeFilePathFlag);
  d ← viper (GetString "data-dir");
  (if bool_decide (p = "") then set_viper (SetString storeFilePathFlag (FilepathJoin [d; fileName])) else mret tt) ;;
  match MkdirAll fs (filepath_Dir storeFilePathFlag) with
  | Some e => startup_error e
  | None => mret tt
  end.

Definition configureFile (fs : FS) : CM unit :=
  p ← viper (GetString storeFilePathFlag);
  match Stat fs p with
  | Some _ => updS (with_isNewDB true)
  | None => mret tt
  end.

(** [gen] is what [KeyGen] answers. *)
Definition configureKey `{Base58} (fs : FS) (gen : Key * option error) : CM unit :=
  k ← viper (GetString storeKeyFlag);
  if bool_decide (k ≠ "") then updS (λ s, with_key (Key_Decode k (stg_key s)) s)
  else
    file ← viper (GetString storeKeyFileFlag);
    if bool_decide (file ≠ "") then
      match Stat fs file with
      | Some e => startup_error e
      | None =>
          match ReadFile fs file with
          | inr e => startup_error e
          | inl keyBytes => updS (λ s, with_key (Key_Decode keyBytes (stg_key s)) s)
          end
      end
    else
      '(s, _) ← get;
      if negb (isNewDB s) then updS (with_noKey true)
      else
        updS (with_key gen.1) ;;
        match gen.2 with
        | Some e => startup_error e
        | None => updS (with_newKey true) ;; set_viper (SetString storeKeyFlag (Key_Encode gen.1))
        end.

Definition configure `{Base58} (fs : FS) (gen : Key * option error) : CM unit :=
  configureDirPath fs ;; configureFile fs ;; configureKey fs gen.

(** [r] is the error [badger.Open] answers; a failure forgets the database that
    was open. *)
Definition attempt_unlock (r : option error) (v : Viper) (s : Stg) : (bool * option error) * Stg :=
  match r with
  | Some e => ((false, Some e), with_db None s)
  | None => ((true, None), with_db (Some (MkDB (GetString storeFilePathFlag v) (stg_key s))) s)
  end.

(** [Txn], [View] and [Update] dereference the database. *)
Definition Txn {A} (s : Stg) (tx : DB → A) : Out A := match db s with Some d => Ret (tx d) | None => Panic PNil end.
