(* ===== verification/P2p.v ===== *)
(** * The peer-to-peer service of a seed

    Models [pkg/p2p]: its key in the store, the listeners and seeds from flags and
    network parameters, and [Run] up to the announcement that it is ready.  The
    key type of libp2p is a parameter, and so is what its constructors answer. *)

From S2P Require Import Opts.
From S2P Require Export Storage.

Class P2pKeys := {
  P2pKey : Type;
  (** [PrivKey.Raw] *)
  Raw_key : P2pKey → bytes + error;
  (** [crypto.UnmarshalSecp256k1PrivateKey] *)
  Unmarshal_key : bytes → P2pKey + error;
}.

Definition storeKeyKey : string := "p2p-key".
Definition listenFlag : string := "p2p-listen".
Definition connectFlag : string := "p2p-connect".

(** [multiaddr.StringCast] panics where [NewMultiaddr] fails. *)
Definition CastFailed : panic := PMsg "multiaddr failed to parse".
Definition InvalidMultiaddr : panic := PMsg "Not a valid multiaddress.".
Definition NoDatabase : panic := PMsg "could not open database".

Section P2p.
Context `{Crypto, Addresses, Base58, P2pKeys}.

Record P2p := MkP2p {
  privKey : option P2pKey;
  p2pHost : option Host;
  seedAddresses : list Multiaddr;
  listenAddresses : list Multiaddr;
  netParams : option NetParams;
  p_startupErrors : chan error;
  p_isReadyChan : chan bool;
}.

Definition P2p0 : P2p := MkP2p None None [] [] None (make 32) (make 1).

Definition with_privKey (k : option P2pKey) (p : P2p) : P2p :=
  MkP2p k (p2pHost p) (seedAddresses p) (listenAddresses p) (netParams p) (p_startupErrors p) (p_isReadyChan p).
Definition with_p2pHost (h : option Host) (p : P2p) : P2p :=
  MkP2p (privKey p) h (seedAddresses p) (listenAddresses p) (netParams p) (p_startupErrors p) (p_isReadyChan p).
Definition with_seeds (l : list Multiaddr) (p : P2p) : P2p :=
  MkP2p (privKey p) (p2pHost p) l (listenAddresses p) (netParams p) (p_startupErrors p) (p_isReadyChan p).
Definition with_listeners (l : list Multiaddr) (p : P2p) : P2p :=
  MkP2p (privKey p) (p2pHost p) (seedAddresses p) l (netParams p) (p_startupErrors p) (p_isReadyChan p).
Definition with_params (n : option NetParams) (p : P2p) : P2p :=
  MkP2p (privKey p) (p2pHost p) (seedAddresses p) (listenAddresses p) n (p_startupErrors p) (p_isReadyChan p).
Definition with_p_ready (c : chan bool) (p : P2p) : P2p :=
  MkP2p (privKey p) (p2pHost p) (seedAddresses p) (listenAddresses p) (netParams p) (p_startupErrors p) c.
Definition with_p_errors (c : chan error) (p : P2p) : P2p :=
  MkP2p (privKey p) (p2pHost p) (seedAddresses p) (listenAddresses p) (netParams p) c (p_isReadyChan p).

Definition NewMultiAddr (addr : string) : Out Multiaddr :=
  match NewMultiaddr addr with inl m => Ret m | inr _ => Panic InvalidMultiaddr end.

Definition Base58Encode (priv : P2pKey) : string * option error :=
  match Raw_key priv with
  | inl raw => (b58Encode raw, None)
  | inr e => (b58Encode [], Some e)
  end.
(** The error of reading the key is thrown away. *)
Definition Base58Decode (key : string) : option P2pKey * option error :=
  match Unmarshal_key (b58Decode key) with inl k => (Some k, None) | inr _ => (None, None) end.

Definition StringCast (s : string) : Out Multiaddr :=
  match NewMultiaddr s with inl m => Ret m | inr _ => Panic CastFailed end.

Fixpoint casts (l : list string) : Out (list Multiaddr) :=
  match l with
  | [] => mret []
  | s :: l => m ← StringCast s; ms ← casts l; mret (m :: ms)
  end.

(** [item.ValueCopy(keyBytes)]: into the 32 bytes when they are enough. *)
Definition ValueCopy (val keyBytes : bytes) : bytes :=
  if bool_decide (length val ≤ length keyBytes)%nat then overlay 0 val keyBytes else keyBytes.

(** [gen] is what [GenerateKeyPair] answers. *)
Definition configureKey (gen : P2pKey + error) (s : Stg) (content : BadgerDB) (p : P2p) : Out (BadgerDB * P2p) :=
  r ← Txn s (λ _, txn_Get storeKeyKey content);
  let keyBytes := replicate 32 x00 in
  let unmarshal (b : bytes) :=
    match Unmarshal_key b with inl k => with_privKey (Some k) p | inr _ => with_privKey None p end in
  match r with
  | inl val => Ret (content, unmarshal (ValueCopy val keyBytes))
  | inr e =>
      if bool_decide (e = ErrKeyNotFound) then
        match gen with
        | inr _ => Ret (content, with_privKey None p)
        | inl k =>
            let p := with_privKey (Some k) p in
            match Raw_key k with
            | inr _ => Ret (content, p)
            | inl keyBytes => Ret (MkBadger (<[storeKeyKey := keyBytes]> (entries content)) (failing content), p)
            end
        end
      else Ret (content, unmarshal keyBytes)
  end.

Definition configureListeners (v : Viper) (p : P2p) : Out P2p :=
  if bool_decide (GetStringSlice listenFlag v = []) then Ret p
  else ms ← casts (GetStringSlice listenFlag v); Ret (with_listeners (listenAddresses p ++ ms) p).

Definition configureSeeds (v : Viper) (p : P2p) : Out P2p :=
  if bool_decide (GetStringSlice connectFlag v ≠ []) then
    ms ← casts (GetStringSlice connectFlag v); Ret (with_seeds (seedAddresses p ++ ms) p)
  else
    n ← SelectNetworkParams (GetString "network" v);
    let '(seeds, err) := ParseSeedMultiAddresses n in
    let p := with_seeds seeds (with_params (Some n) p) in
    match err with
    | Some _ => Ret p
    | None => ms ← casts (GetStringSlice "seed" v); Ret (with_seeds (seedAddresses p ++ ms) p)
    end.

Definition p2p_configure (gen : P2pKey + error) (v : Viper) (s : Stg) (content : BadgerDB) (p : P2p) : Out (BadgerDB * P2p) :=
  '(content, p) ← configureKey gen s content p;
  p ← configureListeners v p;
  p ← configureSeeds v p;
  Ret (content, p).

(** What libp2p and the datastore answer. *)
Record Starts := MkStarts {
  GenerateKeyPair : P2pKey + error;
  NewDatastore : string → bytes → unit + error;
  NewHost : Host + error;
  NewDHT_ : list Multiaddr → option error;
  secret : bytes;                        (* 32 random bytes *)
}.

(** [Run] up to the announcement: whether it gets there.  The error of the listener is
    not looked at, but its host is used. *)
Definition p2p_Run (a : Starts) (v : Viper) (s : Stg) (content : BadgerDB) (p : P2p) : Out (bool * (BadgerDB * P2p)) :=
  '(content, p) ← p2p_configure (GenerateKeyPair a) v s content p;
  n ← SelectNetworkParams (GetString "network" v);
  let p := with_params (Some n) p in
  match privKey p with
  | None => Panic PNil
  | Some k =>
      match Raw_key k with
      | inr _ => Ret (false, (content, p))
      | inl _ =>
          '(store, _) ← Transport.BadgerStore (GetString "data-dir" v) (Some (secret a)) (NewDatastore a);
          match store with
          | None => Panic NoDatabase
          | Some _ =>
              let '(setup, _) := NewListener (GetSeedsMultiAddrStrings n) (MaString <$> listenAddresses p) (NewHost a) (NewDHT_ a) in
              match hosted setup with
              | None => Panic PNil
              | Some h => Ret (true, (content, with_p2pHost (Some h) p))
              end
          end
      end
  end.
End P2p.
