(* ===== verification/Seed.v ===== *)
(** * Starting a seed

    Models [pkg/seed] with the goroutines of [storage.Run], [p2p.Run], the unlock
    service and [rpc.RunWith], which signal each other through the channels of
    their packages.  A thread is the place in the code where its goroutine can be
    interrupted; an [event] says which thread goes on and what the outside
    answers, which case of a select it takes, what a client asks, or that the
    context ends.  A thread whose channel has no room stays where it is. *)

From S2P Require Import Opts.
From S2P Require Export P2p.

Inductive service := UnlockService | ChatService.

(** The variables of [pkg/rpc]. *)
Record RpcVars := MkRpc {
  r_o : option ServerOptions;
  isUnixSockEnabled : bool;
  r_tunnel : Tunnel;
  r_dev : bool;                          (* whether the device was made *)
  server : option service;
  serving : bool;                        (* whether calls come in *)
  isRunning : bool;
  inUse : bool;
  r_startupErrors : chan error;
  r_isConfigured : chan bool;
  r_isReady : chan bool;
}.

Definition Rpc0 : RpcVars := MkRpc None false (MkTunnel None []) false None false false false (make 128) (make 1) (make 1).

Definition with_options (o : option ServerOptions) (t : Tunnel) (unix : bool) (r : RpcVars) : RpcVars :=
  MkRpc o unix t (r_dev r) (server r) (serving r) (isRunning r) (inUse r) (r_startupErrors r) (r_isConfigured r) (r_isReady r).
Definition with_dev (b : bool) (r : RpcVars) : RpcVars :=
  MkRpc (r_o r) (isUnixSockEnabled r) (r_tunnel r) b (server r) (serving r) (isRunning r) (inUse r) (r_startupErrors r) (r_isConfigured r) (r_isReady r).
Definition with_server (s : option service) (r : RpcVars) : RpcVars :=
  MkRpc (r_o r) (isUnixSockEnabled r) (r_tunnel r) (r_dev r) s (serving r) (isRunning r) (inUse r) (r_startupErrors r) (r_isConfigured r) (r_isReady r).
Definition with_serving (b : bool) (r : RpcVars) : RpcVars :=
  MkRpc (r_o r) (isUnixSockEnabled r) (r_tunnel r) (r_dev r) (server r) b (isRunning r) (inUse r) (r_startupErrors r) (r_isConfigured r) (r_isReady r).
Definition with_isRunning (b : bool) (r : RpcVars) : RpcVars :=
  MkRpc (r_o r) (isUnixSockEnabled r) (r_tunnel r) (r_dev r) (server r) (serving r) b (inUse r) (r_startupErrors r) (r_isConfigured r) (r_isReady r).
Definition with_inUse (b : bool) (r : RpcVars) : RpcVars :=
  MkRpc (r_o r) (isUnixSockEnabled r) (r_tunnel r) (r_dev r) (server r) (serving r) (isRunning r) b (r_startupErrors r) (r_isConfigured r) (r_isReady r).
Definition with_r_errors (c : chan error) (r : RpcVars) : RpcVars :=
  MkRpc (r_o r) (isUnixSockEnabled r) (r_tunnel r) (r_dev r) (server r) (serving r) (isRunning r) (inUse r) c (r_isConfigured r) (r_isReady r).
Definition with_r_configured (c : chan bool) (r : RpcVars) : RpcVars :=
  MkRpc (r_o r) (isUnixSockEnabled r) (r_tunnel r) (r_dev r) (server r) (serving r) (isRunning r) (inUse r) (r_startupErrors r) c (r_isReady r).
Definition with_r_ready (c : chan bool) (r : RpcVars) : RpcVars :=
  MkRpc (r_o r) (isUnixSockEnabled r) (r_tunnel r) (r_dev r) (server r) (serving r) (isRunning r) (inUse r) (r_startupErrors r) (r_isConfigured r) c.

Definition UnixPathFlag : string := "rpc-unix-listen".
Definition TunEnableFlag : string := "rpc-tun-enable".
Definition TunPortFlag : string := "rpc-tun-port".
Definition TunPeersFlag : string := "rpc-tun-peer".

(** ** Threads *)

Inductive thread :=
(** [seed.Run]: before the lock, in its three selects, about to say it is ready,
    waiting for the end of the context, reporting an error, shutting down *)
| SeedRun
| AwaitStorage
| AwaitP2p
| AwaitRpc
| SeedReady
| SeedRunning
| SeedFails (e : error)
| SeedStopsP2p
| SeedStopsRpc
| SeedStopped
(** [storage.Run]: before the lock, configuring, unlocking, sending, in its select,
    stopping the unlock service, collecting, about to say it is ready *)
| StorageRun
| StorageConfigures
| StorageUnlocks
| StorageSendsError (e : error)
| StorageSendsUnlocked
| StorageSelects
| StorageStopsRpc
| StorageCollects
| StorageReady
| StorageFails (e : error)
(** [Service.Unlock] *)
| Unlock (req : string)
| UnlockSends
(** [p2p.Run] *)
| P2pRun
| P2pReady
(** [rpc.RunWith] and [start] *)
| RunWith (s : service) (opts : list ServerOption)
| RpcConfigured (s : service)
| RpcServes (s : service)
| RpcStart
| StartTunnel
| TunnelFails (e : error)
| StartUnixSocket
| RpcRuns
| RpcReady
| RpcFails (e : error)
| Returned.

(** The channels a select receives from. *)
Inductive source :=
| StorageError | StorageIsLocked | StorageIsUnlocked | StorageIsReady
| P2pError | P2pIsReady
| RpcError | RpcIsConfigured | RpcIsReady
| CtxDone.

Section Seed.
Context `{Crypto, Addresses, Base58, P2pKeys}.

Record G := MkG {
  g_stg : Stg;
  g_viper : Viper;
  g_content : BadgerDB;
  g_p2p : P2p;
  g_rpc : RpcVars;
  seed_inUse : bool;
  seed_startupErrors : chan error;
  seed_isReadyChan : chan bool;
  seed_isShutdownChan : chan bool;
  ctx_done : bool;
}.

Definition G0 (v : Viper) (content : BadgerDB) : G :=
  MkG Stg0 v content P2p0 Rpc0 false (make 32) (make 1) (make 1) false.

Definition with_stg (s : Stg) (g : G) : G :=
  MkG s (g_viper g) (g_content g) (g_p2p g) (g_rpc g) (seed_inUse g) (seed_startupErrors g) (seed_isReadyChan g) (seed_isShutdownChan g) (ctx_done g).
Definition with_viper (v : Viper) (g : G) : G :=
  MkG (g_stg g) v (g_content g) (g_p2p g) (g_rpc g) (seed_inUse g) (seed_startupErrors g) (seed_isReadyChan g) (seed_isShutdownChan g) (ctx_done g).
Definition with_content (c : BadgerDB) (g : G) : G :=
  MkG (g_stg g) (g_viper g) c (g_p2p g) (g_rpc g) (seed_inUse g) (seed_startupErrors g) (seed_isReadyChan g) (seed_isShutdownChan g) (ctx_done g).
Definition with_p2p (p : P2p) (g : G) : G :=
  MkG (g_stg g) (g_viper g) (g_content g) p (g_rpc g) (seed_inUse g) (seed_startupErrors g) (seed_isReadyChan g) (seed_isShutdownChan g) (ctx_done g).
Definition with_rpc (r : RpcVars) (g : G) : G :=
  MkG (g_stg g) (g_viper g) (g_content g) (g_p2p g) r (seed_inUse g) (seed_startupErrors g) (seed_isReadyChan g) (seed_isShutdownChan g) (ctx_done g).
Definition with_seed_inUse (b : bool) (g : G) : G :=
  MkG (g_stg g) (g_viper g) (g_content g) (g_p2p g) (g_rpc g) b (seed_startupErrors g) (seed_isReadyChan g) (seed_isShutdownChan g) (ctx_done g).
Definition with_seed_errors (c : chan error) (g : G) : G :=
  MkG (g_stg g) (g_viper g) (g_content g) (g_p2p g) (g_rpc g) (seed_inUse g) c (seed_isReadyChan g) (seed_isShutdownChan g) (ctx_done g).
Definition with_seed_ready (c : chan bool) (g : G) : G :=
  MkG (g_stg g) (g_viper g) (g_content g) (g_p2p g) (g_rpc g) (seed_inUse g) (seed_startupErrors g) c (seed_isShutdownChan g) (ctx_done g).
Definition with_seed_shutdown (c : chan bool) (g : G) : G :=
  MkG (g_stg g) (g_viper g) (g_content g) (g_p2p g) (g_rpc g) (seed_inUse g) (seed_startupErrors g) (seed_isReadyChan g) c (ctx_done g).
Definition with_ctx_done (b : bool) (g : G) : G :=
  MkG (g_stg g) (g_viper g) (g_content g) (g_p2p g) (g_rpc g) (seed_inUse g) (seed_startupErrors g) (seed_isReadyChan g) (seed_isShutdownChan g) b.

(** What the outside answers to one step. *)
Record Ans := MkAns {
  a_fs : FS;
  a_gen : Key * option error;            (* [KeyGen] *)
  a_open : option error;                 (* [badger.Open] *)
  a_p2p : Starts;
  a_rnd : Z;                             (* [rand.Intn] *)
  a_fresh : PrivateKey;                  (* [NewPrivateKey] *)
  a_tun : option error;                  (* making the tunnel *)
  a_up : option error;                   (* bringing it up and listening in it *)
  a_unix : option error;                 (* listening on the socket *)
}.

Inductive effect :=
| Next (g : G) (t : thread) (started : list thread)
| Crash (p : panic).

(** [c <- x] in front of [t]; [None] while there is no room. *)
Definition sends {A} (x : A) (c : chan A) (k : chan A → G) (t : thread) : option effect :=
  match send x c with
  | Ret (Goes, c') => Some (Next (k c') t [])
  | Ret (Parks, _) => None
  | Panic p => Some (Crash p)
  end.

Definition put_rpc_error (e : error) (g : G) (t : thread) : option effect :=
  sends e (r_startupErrors (g_rpc g)) (λ c, with_rpc (with_r_errors c (g_rpc g)) g) t.
Definition put_storage_error (e : error) (g : G) (t : thread) : option effect :=
  sends e (startupErrors (g_stg g)) (λ c, with_stg (with_errors c (g_stg g)) g) t.
Definition put_unlocked (g : G) (t : thread) : option effect :=
  sends true (isUnlockedChan (g_stg g)) (λ c, with_stg (with_unlocked c (g_stg g)) g) t.

(** [rpc.Shutdown]: stopping waits for the calls that are answered. *)
Definition rpc_Shutdown (answering : bool) (r : RpcVars) : option RpcVars :=
  if negb (isRunning r) then Some r
  else if answering then None
  else Some (with_inUse false (with_isRunning false (with_serving false r))).

(** [RunWith] up to the announcement of its configuration. *)
Definition RunWith_configures (a : Ans) (s : service) (opts : list ServerOption) (g : G) : effect :=
  let r := g_rpc g in
  if inUse r then Next g Returned []
  else
    let o := apply_all opts in
    let unix := isUnixSockEnabled r || bool_decide (unixPath o ≠ "") in
    match configureTunnel (a_rnd a) (a_fresh a) o (r_tunnel r) with
    | Ret (o, t) => Next (with_rpc (with_options (Some o) t unix (with_inUse true r)) g) (RpcConfigured s) []
    | Panic p => Crash p
    end.

(** [startTunnel]: a failure is reported here and by the caller. *)
Definition startTunnel (a : Ans) (g : G) : effect :=
  let r := g_rpc g in
  match r_o r with
  | None => Crash PNil
  | Some o =>
      if negb (tunEnable o) then Next g StartUnixSocket []
      else if negb (r_dev r) then Crash PNil
      else
        match configureDevice o (r_tunnel r) with
        | Panic p => Crash p
        | Ret _ =>
            match a_up a with
            | Some e => Next g (TunnelFails e) []
            | None => Next (with_rpc (with_serving true r) g) StartUnixSocket []
            end
        end
  end.

(** The options [seed.Run] passes to the RPC server. *)
Definition rpc_options (g : G) : list ServerOption :=
  let v := g_viper g in
  [WithUnixPath (GetString UnixPathFlag v); WithStore (BadgerStore (g_content g))] ++
  (if GetBool TunEnableFlag v then [WithTunOptions (GetUint16 TunPortFlag v) (GetStringSlice TunPeersFlag v)] else []).

Definition unlock_options (g : G) : list ServerOption := [WithUnixPath (GetString UnixPathFlag (g_viper g))].

(** One turn of [run] of the storage. *)
Definition storage_run (a : Ans) (g : G) : option effect :=
  if noKeyProvided (g_stg g) then
    sends true (isLockedChan (g_stg g)) (λ c, with_stg (with_locked c (g_stg g)) g) StorageSelects
  else
    let '((isUnlocked, err), s) := attempt_unlock (a_open a) (g_viper g) (g_stg g) in
    Some (Next (with_stg s g) (match err with Some e => StorageSendsError e | None => StorageSendsUnlocked end) []).

(** [seed.Run] and [Shutdown]. *)
Definition seed_move (answering : bool) (g : G) (t : thread) : option effect :=
  match t with
  | SeedRun => Some (if seed_inUse g then Next g Returned [] else Next (with_seed_inUse true g) AwaitStorage [StorageRun])
  | SeedReady => sends true (seed_isReadyChan g) (λ c, with_seed_ready c g) SeedRunning
  | SeedFails e => sends e (seed_startupErrors g) (λ c, with_seed_errors c g) Returned
  | SeedStopsP2p => Some (Next g SeedStopsRpc [])
  | SeedStopsRpc => r ← rpc_Shutdown answering (g_rpc g); Some (Next (with_rpc r g) SeedStopped [])
  | SeedStopped => sends true (seed_isShutdownChan g) (λ c, with_seed_shutdown c g) Returned
  | _ => None
  end.

(** [storage.Run]. *)
Definition storage_move (a : Ans) (answering : bool) (g : G) (t : thread) : option effect :=
  match t with
  | StorageRun => Some (if running (g_stg g) then Next g Returned [] else Next (with_stg (with_running true (g_stg g)) g) StorageConfigures [])
  | StorageConfigures =>
      Some (match configure (a_fs a) (a_gen a) (g_stg g, g_viper g) with
            | Ret (_, (s, v)) => Next (with_viper v (with_stg s g)) StorageUnlocks []
            | Panic p => Crash p
            end)
  | StorageUnlocks => storage_run a g
  | StorageSendsError e => put_storage_error e g StorageSendsUnlocked
  | StorageSendsUnlocked => put_unlocked g StorageSelects
  | StorageStopsRpc => r ← rpc_Shutdown answering (g_rpc g); Some (Next (with_rpc r g) StorageCollects [])
  | StorageCollects => Some (match db (g_stg g) with Some _ => Next g StorageReady [] | None => Crash PNil end)
  | StorageReady => sends true (isReadyChan (g_stg g)) (λ c, with_stg (with_ready c (g_stg g)) g) Returned
  | StorageFails e => put_storage_error e g Returned
  | _ => None
  end.

(** [Service.Unlock]. *)
Definition unlock_move (a : Ans) (g : G) (t : thread) : option effect :=
  match t with
  | Unlock req =>
      let '((isUnlocked, err), s) := attempt_unlock (a_open a) (g_viper g) (with_key (Key_Decode req (stg_key (g_stg g))) (g_stg g)) in
      Some (Next (with_stg s g) (if isUnlocked then UnlockSends else Returned) [])
  | UnlockSends => put_unlocked g Returned
  | _ => None
  end.

(** [p2p.Run]. *)
Definition p2p_move (a : Ans) (g : G) (t : thread) : option effect :=
  match t with
  | P2pRun =>
      Some (match p2p_Run (a_p2p a) (g_viper g) (g_stg g) (g_content g) (g_p2p g) with
            | Ret (ok, (c, p)) => Next (with_content c (with_p2p p g)) (if ok : bool then P2pReady else Returned) []
            | Panic p => Crash p
            end)
  | P2pReady => sends true (p_isReadyChan (g_p2p g)) (λ c, with_p2p (with_p_ready c (g_p2p g)) g) Returned
  | _ => None
  end.

(** [RunWith] and [start]. *)
Definition rpc_move (a : Ans) (g : G) (t : thread) : option effect :=
  match t with
  | RunWith s opts => Some (RunWith_configures a s opts g)
  | RpcConfigured s => sends true (r_isConfigured (g_rpc g)) (λ c, with_rpc (with_r_configured c (g_rpc g)) g) (RpcServes s)
  | RpcServes s => Some (Next (with_rpc (with_server (Some s) (g_rpc g)) g) Returned [RpcStart])
  | RpcStart =>
      match a_tun a with
      | Some e => put_rpc_error e g StartTunnel
      | None => Some (Next (with_rpc (with_dev true (g_rpc g)) g) StartTunnel [])
      end
  | StartTunnel => Some (startTunnel a g)
  | TunnelFails e => put_rpc_error e g (RpcFails e)
  | StartUnixSocket =>
      let r := g_rpc g in
      if negb (isUnixSockEnabled r) then Some (Next g RpcRuns [])
      else match a_unix a with
           | Some e => Some (Next g (RpcFails e) [])
           | None => Some (Next (with_rpc (with_serving true r) g) RpcRuns [])
           end
  | RpcRuns => Some (Next (with_rpc (with_isRunning true (g_rpc g)) g) RpcReady [])
  | RpcReady => sends true (r_isReady (g_rpc g)) (λ c, with_rpc (with_r_ready c (g_rpc g)) g) Returned
  | RpcFails e => put_rpc_error e g Returned
  | _ => None
  end.

(** A thread goes on by itself; in a select it cannot. *)
Definition move (a : Ans) (answering : bool) (g : G) (t : thread) : option effect :=
  match t with
  | AwaitStorage | AwaitP2p | AwaitRpc | SeedRunning | StorageSelects | Returned => None
  | SeedRun | SeedReady | SeedFails _ | SeedStopsP2p | SeedStopsRpc | SeedStopped => seed_move answering g t
  | StorageRun | StorageConfigures | StorageUnlocks | StorageSendsError _ | StorageSendsUnlocked | StorageStopsRpc | StorageCollects | StorageReady | StorageFails _ => storage_move a answering g t
  | Unlock _ | UnlockSends => unlock_move a g t
  | P2pRun | P2pReady => p2p_move a g t
  | _ => rpc_move a g t
  end.

(** A receive that need not wait. *)
Definition receives {A} (c : chan A) (k : A → chan A → effect) : option effect :=
  match try_recv c with
  | Some (Some x, c') => Some (k x c')
  | _ => None
  end.

Definition take_rpc_error (g : G) (k : error → thread) : option effect :=
  receives (r_startupErrors (g_rpc g)) (λ e c, Next (with_rpc (with_r_errors c (g_rpc g)) g) (k e) []).

Definition take_ctx (g : G) : option effect := if ctx_done g then Some (Next g SeedStopsP2p []) else None.

(** The selects of [seed.Run]. *)
Definition seed_takes (s : source) (g : G) (t : thread) : option effect :=
  let st := g_stg g in
  let r := g_rpc g in
  match t, s with
  | AwaitStorage, StorageError => receives (startupErrors st) (λ e c, Next (with_stg (with_errors c st) g) (SeedFails e) [])
  | AwaitStorage, StorageIsReady => receives (isReadyChan st) (λ _ c, Next (with_stg (with_ready c st) g) AwaitP2p [P2pRun])
  | AwaitP2p, P2pError =>
      receives (p_startupErrors (g_p2p g)) (λ e c, Next (with_p2p (with_p_errors c (g_p2p g)) g) (SeedFails e) [])
  | AwaitP2p, P2pIsReady =>
      receives (p_isReadyChan (g_p2p g))
        (λ _ c, Next (with_p2p (with_p_ready c (g_p2p g)) g) AwaitRpc [RunWith ChatService (rpc_options g)])
  | AwaitRpc, RpcIsConfigured =>
      receives (r_isConfigured r)
        (λ _ c, match r_o r with
                | Some o => Next (with_viper (SetInt TunPortFlag (GetTunPort o) (g_viper g)) (with_rpc (with_r_configured c r) g)) AwaitRpc []
                | None => Crash PNil
                end)
  | AwaitRpc, RpcError => take_rpc_error g SeedFails
  | AwaitRpc, RpcIsReady => receives (r_isReady r) (λ _ c, Next (with_rpc (with_r_ready c r) g) SeedReady [])
  | AwaitStorage, CtxDone | AwaitP2p, CtxDone | AwaitRpc, CtxDone | SeedRunning, CtxDone => take_ctx g
  | _, _ => None
  end.

(** The select of [storage.Run]. *)
Definition storage_takes (s : source) (g : G) : option effect :=
  let st := g_stg g in
  let r := g_rpc g in
  match s with
  | RpcError => take_rpc_error g StorageFails
  | StorageIsUnlocked => receives (isUnlockedChan st) (λ _ c, Next (with_stg (with_unlocked c st) g) StorageStopsRpc [])
  | StorageIsLocked =>
      receives (isLockedChan st) (λ _ c, Next (with_stg (with_locked c st) g) StorageSelects [RunWith UnlockService (unlock_options g)])
  | RpcIsReady => receives (r_isReady r) (λ _ c, Next (with_rpc (with_r_ready c r) g) StorageSelects [])
  | _ => None
  end.

(** The thread [t] is in a select and takes the case of [s]. *)
Definition takes (s : source) (g : G) (t : thread) : option effect :=
  match t with
  | StorageSelects => storage_takes s g
  | _ => seed_takes s g t
  end.

(** ** Events *)

Inductive event :=
| Moves (i : nat) (a : Ans)
| Takes (i : nat) (s : source)
| Calls (req : string)                   (* a client calls [Unlock] *)
| Cancels.

Inductive Config :=
| Running (g : G) (ts : list thread)
| Crashed (p : panic).

Definition is_answering (t : thread) : bool := match t with Unlock _ | UnlockSends => true | _ => false end.

Definition after_effect (i : nat) (ts : list thread) (r : effect) : Config :=
  match r with
  | Next g t started => Running g (<[i := t]> ts ++ started)
  | Crash p => Crashed p
  end.

Definition step (e : event) (c : Config) : option Config :=
  match c with
  | Crashed _ => None
  | Running g ts =>
      match e with
      | Moves i a => t ← ts !! i; after_effect i ts <$> move a (existsb is_answering ts) g t
      | Takes i s => t ← ts !! i; after_effect i ts <$> takes s g t
      | Calls req =>
          if serving (g_rpc g) then
            match server (g_rpc g) with
            | Some UnlockService => Some (Running g (ts ++ [Unlock req]))
            | _ => None
            end
          else None
      | Cancels => Some (Running (with_ctx_done true g) ts)
      end
  end.

Definition steps (c c' : Config) : Prop := ∃ e, step e c = Some c'.

Fixpoint run (es : list event) (c : Config) : option Config :=
  match es with
  | [] => Some c
  | e :: es => step e c ≫= run es
  end.

(** Somebody calls [seed.Run]. *)
Definition start (v : Viper) (content : BadgerDB) : Config := Running (G0 v content) [SeedRun].
End Seed.
