(* ===== verification/SeedProps.v ===== *)
(** * What starting a seed promises

    Whatever the order of turns, a seed is announced ready only after a database
    was opened, the peer-to-peer host came up and an RPC server was made.  With a
    key and a network that answer, it gets there.  What goes wrong is shown by
    runs: a database that does not open brings the program down, an unreadable
    key file has the database opened with the zero key, and an unlock that comes
    too early leaves the seed with the unlock service. *)

From S2P Require Import Opts.
From S2P Require Import TransportProps.
From S2P Require Export Seed.

Section Safety.
Context `{Crypto, Addresses, Base58, P2pKeys}.

Definition has_opened (g : G) : Prop := opened (g_stg g) ≠ [].
Definition has_host (g : G) : Prop := p2pHost (g_p2p g) ≠ None.
Definition has_server (g : G) : Prop := server (g_rpc g) ≠ None.

(** What has happened stays so. *)
Definition later (g g' : G) : Prop :=
  (has_opened g → has_opened g') ∧ (has_host g → has_host g') ∧ (has_server g → has_server g').

(** What a thread at its place knows. *)
Definition knows (g : G) (t : thread) : Prop :=
  match t with
  | AwaitP2p | StorageReady => has_opened g
  | AwaitRpc => has_opened g ∧ has_host g
  | SeedReady | SeedRunning => has_opened g ∧ has_host g ∧ has_server g
  | P2pReady => has_host g
  | RpcStart | StartTunnel | TunnelFails _ | StartUnixSocket | RpcRuns | RpcReady => has_server g
  | _ => True
  end.

(** What a value in a channel says. *)
Record told (g : G) : Prop := {
  told_db : db (g_stg g) ≠ None → has_opened g;
  told_storage : pending (isReadyChan (g_stg g)) ≠ [] → has_opened g;
  told_p2p : pending (p_isReadyChan (g_p2p g)) ≠ [] → has_host g;
  told_rpc : pending (r_isReady (g_rpc g)) ≠ [] → has_server g;
  told_seed : pending (seed_isReadyChan g) ≠ [] → has_opened g ∧ has_host g ∧ has_server g;
}.

Definition fine (g : G) (r : effect) : Prop :=
  match r with
  | Next g' t new => later g g' ∧ told g' ∧ knows g' t ∧ Forall (knows g') new
  | Crash _ => True
  end.

Lemma knows_later g g' t : later g g' → knows g t → knows g' t.
Proof. intros (H1' & H2' & H3'). destruct t; cbn; tauto. Qed.

(** ** The calls a step is made of *)

(** A call of the storage's configuration opens nothing and announces nothing. *)
Definition quiet (m : CM unit) : Prop := ∀ s v s' v',
  m (s, v) = Ret (tt, (s', v')) → opened s' = opened s ∧ db s' = db s ∧ isReadyChan s' = isReadyChan s.

Lemma quiet_bind {A} (m : CM A) k : (∀ s v a s' v', m (s, v) = Ret (a, (s', v')) → (s', v') = (s, v)) →
  (∀ a, quiet (k a)) → quiet (m ≫= k).
Proof. intros Hm Hk s v s' v' (a & [s1 v1] & E1 & E)%bind_inv. apply Hm in E1 as [= -> ->]. by eapply Hk. Qed.

Lemma quiet_seq (m k : CM unit) : quiet m → quiet k → quiet (m ;; k).
Proof.
  intros Hm Hk s v s' v' ([] & [s1 v1] & E1 & E)%bind_inv. apply Hm in E1 as (E1 & E2 & E3).
  apply Hk in E as (F1 & F2 & F3). by rewrite F1, F2, F3.
Qed.

Lemma quiet_updS f : (∀ s, opened (f s) = opened s ∧ db (f s) = db s ∧ isReadyChan (f s) = isReadyChan s) → quiet (updS f).
Proof. intros Hf s v s' v' [= <- <-]. apply Hf. Qed.

Lemma quiet_set f : quiet (set_viper f).
Proof. by intros s v s' v' [= <- <-]. Qed.

Lemma quiet_ret : quiet (mret tt).
Proof. by intros s v s' v' [= <- <-]. Qed.

Lemma quiet_error e : quiet (startup_error e).
Proof. intros s v s' v'. unfold startup_error. destruct (send e (startupErrors s)) as [[[] c]|]; [|done|done]. by intros [= <- <-]. Qed.

Lemma viper_same {A} (f : Viper → A) s v a s' v' : viper f (s, v) = Ret (a, (s', v')) → (s', v') = (s, v).
Proof. by intros [= _ <- <-]. Qed.

#[local] Hint Resolve quiet_seq quiet_set quiet_ret quiet_error : core.

Lemma quiet_configure fs gen : quiet (configure fs gen).
Proof.
  unfold configure, configureDirPath, configureFile, Storage.configureKey.
  apply quiet_seq; [|apply quiet_seq].
  - do 2 (apply quiet_bind; [intros; by eapply viper_same|intros ?]). apply quiet_seq; [by case_bool_decide|]. destruct (MkdirAll _ _); auto.
  - apply quiet_bind; [intros; by eapply viper_same|intros ?]. destruct (Stat _ _); [by apply quiet_updS|auto].
  - apply quiet_bind; [intros; by eapply viper_same|intros k]. case_bool_decide; [by apply quiet_updS|].
    apply quiet_bind; [intros; by eapply viper_same|intros file]. case_bool_decide.
    + destruct (Stat _ _); [auto|]. destruct (ReadFile _ _); [by apply quiet_updS|auto].
    + apply quiet_bind; [by intros s v a s' v' [= <- <- <-]|intros [s v]]. destruct (negb _); [by apply quiet_updS|].
      apply quiet_seq; [by apply quiet_updS|]. destruct gen.2; [auto|]. apply quiet_seq; [by apply quiet_updS|auto].
Qed.

(** What the configuration of the peer-to-peer service leaves alone. *)
Lemma p2p_configure_keeps gen v s content p content' p' : p2p_configure gen v s content p = Ret (content', p') →
  p2pHost p' = p2pHost p ∧ p_isReadyChan p' = p_isReadyChan p.
Proof.
  intros E. unfold p2p_configure in E.
  destruct (configureKey gen s content p) as [[c1 p1]|] eqn:E1; [|done]. cbn in E.
  destruct (configureListeners v p1) as [p2|] eqn:E2; [|done]. cbn in E.
  destruct (configureSeeds v p2) as [p3|] eqn:E3; [|done]. injection E as <- <-.
  assert (p2pHost p1 = p2pHost p ∧ p_isReadyChan p1 = p_isReadyChan p) as [<- <-].
  { unfold configureKey in E1. destruct (Txn s _) as [[val|e]|]; [| |done]; cbn in E1.
    - injection E1 as <- <-. by destruct (Unmarshal_key _).
    - case_bool_decide.
      + destruct gen as [k|]; [destruct (Raw_key k)|]; by injection E1 as <- <-.
      + injection E1 as <- <-. by destruct (Unmarshal_key _). }
  assert (p2pHost p2 = p2pHost p1 ∧ p_isReadyChan p2 = p_isReadyChan p1) as [<- <-].
  { unfold configureListeners in E2. case_bool_decide; [by injection E2 as <-|]. destruct (casts _); [|done]. by injection E2 as <-. }
  unfold configureSeeds in E3. case_bool_decide.
  - destruct (casts _); [|done]. by injection E3 as <-.
  - destruct (SelectNetworkParams _) as [n|]; [|done]. cbn in E3. destruct (ParseSeedMultiAddresses n) as [seeds [e|]]; [by injection E3 as <-|].
    destruct (casts _); [|done]. by injection E3 as <-.
Qed.

Lemma p2p_Run_host a v s content p ok content' p' : p2p_Run a v s content p = Ret (ok, (content', p')) →
  (p2pHost p ≠ None ∨ ok = true → p2pHost p' ≠ None) ∧ p_isReadyChan p' = p_isReadyChan p.
Proof.
  intros E. unfold p2p_Run in E. destruct (p2p_configure _ v s content p) as [[c1 p1]|] eqn:E1; [|done]. cbn in E.
  apply p2p_configure_keeps in E1 as [<- <-]. destruct (SelectNetworkParams _) as [n|]; [|done]. cbn in E.
  destruct (privKey p1) as [k|]; [|done]. destruct (Raw_key k).
  - destruct (NewDatastore a _ _); [|done]. cbn in E.
    destruct (NewListener _ _ _ _) as [setup e]. destruct (hosted setup); [|done]. by injection E as <- <- <-.
  - injection E as <- <- <-. cbn. split; [|done]. by intros [?|?].
Qed.

(** ** Sending and receiving *)

Lemma sends_fine {A} (x : A) c k t g r : sends x c k t = Some r →
  (∀ c', later g (k c') ∧ told (k c') ∧ knows (k c') t) → fine g r.
Proof.
  unfold sends. destruct (send x c) as [[[] c']|]; [|done|]; intros [= <-] Hk; [|done].
  destruct (Hk c') as (? & ? & ?). split; [done|]. split; [done|]. split; [done|constructor].
Qed.

Lemma receives_fine {A} (c : chan A) (k : A → chan A → effect) g r : receives c k = Some r →
  (∀ x c', pending c = x :: pending c' → fine g (k x c')) → fine g r.
Proof.
  unfold receives. destruct (try_recv c) as [[[x|] c']|] eqn:E; [|done|done]. intros [= <-] Hk. apply Hk. by apply try_recv_pending.
Qed.

#[local] Hint Unfold later has_opened has_host has_server : seed.

Ltac fine_tac :=
  repeat match goal with
  | |- fine _ _ => unfold fine
  | |- _ ∧ _ => split
  | |- later _ _ => unfold later
  | |- told _ => constructor
  | |- Forall _ [] => constructor
  | |- Forall _ [_] => apply Forall_singleton
  end;
  cbn in *; unfold later, has_opened, has_host, has_server in *; cbn in *;
  repeat match goal with E : ?x = _ |- context [?x] => rewrite E end; try tauto; try congruence; try (intros; repeat split; first [done|tauto|congruence]).

Lemma attempt_unlock_opened r v s res s' : attempt_unlock r v s = (res, s') →
  (opened s ≠ [] → opened s' ≠ []) ∧ (db s' ≠ None → opened s' ≠ []) ∧ isReadyChan s' = isReadyChan s.
Proof.
  unfold attempt_unlock. destruct r; intros [= <- <-]; cbn; [done|]. split; [|split; [|done]]; intros _; by destruct (opened s).
Qed.

Lemma rpc_Shutdown_keeps answering r r' : rpc_Shutdown answering r = Some r' → server r' = server r ∧ r_isReady r' = r_isReady r.
Proof. unfold rpc_Shutdown. destruct (negb _); [by intros [= <-]|]. destruct answering; [done|]. by intros [= <-]. Qed.

Lemma move_fine a answering g t r : told g → knows g t → move a answering g t = Some r → fine g r.
Proof.
  intros [T1 T2 T3 T4 T5] Hk E. destruct t; cbn in E, Hk; try discriminate E.
  all: try (eapply sends_fine; [exact E|intros c'; fine_tac]; fail).
  - injection E as <-. destruct (seed_inUse g); fine_tac.
  - injection E as <-. fine_tac.
  - destruct (rpc_Shutdown _ _) as [r'|] eqn:Es; [|done]. apply rpc_Shutdown_keeps in Es as [Ev Er]. injection E as <-. fine_tac.
  - injection E as <-. destruct (running _); fine_tac.
  - injection E as <-. destruct (configure _ _ _) as [[[] [s' v']]|] eqn:Ec; [|done].
    apply quiet_configure in Ec as (Eo & Ed & Ei). fine_tac.
  - unfold storage_run in E. destruct (noKeyProvided _); [eapply sends_fine; [exact E|intros c'; fine_tac]|].
    destruct (attempt_unlock _ _ _) as [[b e] s'] eqn:Eu. apply attempt_unlock_opened in Eu as (Eo & Ed & Ei).
    injection E as <-. destruct e; fine_tac.
  - destruct (rpc_Shutdown _ _) as [r'|] eqn:Es; [|done]. apply rpc_Shutdown_keeps in Es as [Ev Er]. injection E as <-. fine_tac.
  - injection E as <-. destruct (db (g_stg g)) eqn:Ed; [|done]. fine_tac. all: apply T1; congruence.
  - destruct (attempt_unlock _ _ _) as [[b e] s'] eqn:Eu. apply attempt_unlock_opened in Eu as (Eo & Ed & Ei).
    injection E as <-. destruct b; fine_tac.
  - injection E as <-. destruct (p2p_Run _ _ _ _ _) as [[ok [c p]]|] eqn:Ep; [|done].
    apply p2p_Run_host in Ep as [Eh Ei]. destruct ok; fine_tac.
  - injection E as <-. unfold RunWith_configures. destruct (inUse _); [fine_tac|].
    destruct (configureTunnel _ _ _ _) as [[o t]|]; fine_tac.
  - injection E as <-. fine_tac.
  - destruct (a_tun a); [eapply sends_fine; [exact E|intros c'; fine_tac]|]. injection E as <-. fine_tac.
  - injection E as <-. unfold startTunnel. destruct (r_o _) as [o|]; [|done]. destruct (negb _); [fine_tac|].
    destruct (negb _); [done|]. destruct (configureDevice _ _); [|done]. destruct (a_up a); fine_tac.
  - destruct (negb _); [injection E as <-; fine_tac|]. destruct (a_unix a); injection E as <-; fine_tac.
  - injection E as <-. fine_tac.
Qed.

Lemma cons_not_nil {A} (l l' : list A) x : l = x :: l' → l ≠ [].
Proof. by intros ->. Qed.

Lemma takes_fine s g t r : told g → knows g t → takes s g t = Some r → fine g r.
Proof.
  intros [T1 T2 T3 T4 T5] Hk E. destruct t, s; cbn in E, Hk; try discriminate E.
  all: try (unfold take_ctx in E; destruct (ctx_done g); [|discriminate E]; injection E as <-; fine_tac; fail).
  all: (eapply receives_fine; [exact E|intros x c' Hp]; pose proof (cons_not_nil _ _ _ Hp)).
  all: try (fine_tac; fail).
  destruct (r_o (g_rpc g)); fine_tac.
Qed.

(** ** Reachable states *)

Definition Sound (c : Config) : Prop :=
  match c with Running g ts => told g ∧ Forall (knows g) ts | Crashed _ => True end.

Lemma after_effect_Sound i ts t g r : ts !! i = Some t → Forall (knows g) ts → fine g r → Sound (after_effect i ts r).
Proof.
  intros Ei Hf Hr. destruct r as [g' t' new|]; [|done]. destruct Hr as (Hl & Ht & Hk & Hn). split; [done|].
  apply Forall_app. split; [|done]. apply Forall_insert; [|done].
  eapply Forall_impl; [exact Hf|]. intros ? ?. by eapply knows_later.
Qed.

Lemma step_Sound e c c' : Sound c → step e c = Some c' → Sound c'.
Proof.
  destruct c as [g ts|]; [|done]. intros [Ht Hf] E. destruct e as [i a|i s|req|]; cbn in E.
  - destruct (ts !! i) as [t|] eqn:Ei; [|done]. cbn in E. destruct (move _ _ g t) as [r|] eqn:Em; [|done]. injection E as <-.
    eapply after_effect_Sound; [exact Ei|done|]. eapply move_fine; [done|by eapply Forall_lookup_1|exact Em].
  - destruct (ts !! i) as [t|] eqn:Ei; [|done]. cbn in E. destruct (takes _ g t) as [r|] eqn:Em; [|done]. injection E as <-.
    eapply after_effect_Sound; [exact Ei|done|]. eapply takes_fine; [done|by eapply Forall_lookup_1|exact Em].
  - destruct (serving _); [|done]. destruct (server _) as [[]|]; [|done|done]. injection E as <-.
    split; [done|]. apply Forall_app. split; [done|by constructor].
  - injection E as <-. split; [destruct Ht; by split|]. eapply Forall_impl; [exact Hf|]. intros t Hk. by destruct t.
Qed.

Lemma reached_Sound v content c : rtc steps (start v content) c → Sound c.
Proof.
  intros Hr. remember (start v content) as c0 eqn:E. assert (Sound c0) as HS.
  { subst. split; [by split|]. by apply Forall_singleton. }
  clear E. induction Hr as [|c1 c2 c3 [e He] _ IH]; [done|]. by eauto using step_Sound.
Qed.

(** C20: Whatever the order of turns and whatever the outside answers: when the seed says it
    is ready, or runs on, a database was opened, the peer-to-peer host is there and an
    RPC server was made. *)
Theorem seed_ready_after_all v content g ts : rtc steps (start v content) (Running g ts) →
  pending (seed_isReadyChan g) ≠ [] ∨ SeedRunning ∈ ts →
  opened (g_stg g) ≠ [] ∧ p2pHost (g_p2p g) ≠ None ∧ server (g_rpc g) ≠ None.
Proof.
  intros Hr%reached_Sound [Hp|Hi]; destruct Hr as [Ht Hf].
  - by apply (told_seed g Ht).
  - apply (Forall_forall (knows g) ts) with (x := SeedRunning) in Hf; [|done]. apply Hf.
Qed.
End Safety.

(** ** Runs *)

Section Runs.
Context `{Crypto, Addresses, Base58, P2pKeys}.

Lemma GetString_Set k k' x v : k ≠ k' → GetString k (SetString k' x v) = GetString k v.
Proof. intros Hk. unfold GetString, SetString. cbn. by rewrite lookup_insert_ne. Qed.

(** Everything but the path of the store. *)
Definition same_flags (v v' : Viper) : Prop :=
  (∀ k, k ≠ storeFilePathFlag → GetString k v' = GetString k v) ∧
  slices v' = slices v ∧ bools v' = bools v ∧ ints v' = ints v.

Lemma configure_paths fs s v : MkdirAll fs (filepath_Dir storeFilePathFlag) = None →
  ∃ v' b, (configureDirPath fs ;; configureFile fs) (s, v) = Ret (tt, (with_isNewDB b s, v')) ∧ same_flags v v' ∧
          (b = isNewDB s ∨ b = true) ∧ (Stat fs (GetString storeFilePathFlag v') ≠ None → b = true).
Proof.
  intros Hm. set (v' := if bool_decide (GetString storeFilePathFlag v = "")
    then SetString storeFilePathFlag (FilepathJoin [GetString "data-dir" v; fileName]) v else v).
  assert (configureDirPath fs (s, v) = Ret (tt, (s, v'))) as E1.
  { unfold configureDirPath, v'. rewrite (bind_run (viper _) _ (s, v) _ (s, v)) by done.
    rewrite (bind_run (viper _) _ (s, v) _ (s, v)) by done. rewrite Hm. by case_bool_decide. }
  rewrite (bind_run _ _ _ _ _ E1). exists v'. unfold configureFile. rewrite (bind_run (viper _) _ (s, v') _ (s, v')) by done.
  assert (same_flags v v') as Hs.
  { unfold v'. case_bool_decide; [|done]. split; [|done]. intros k Hk. by apply GetString_Set. }
  destruct (Stat fs _) as [e|].
  - exists true. split; [done|]. split; [done|]. by split; [right|].
  - exists (isNewDB s). split; [by destruct s|]. split; [done|]. split; [by left|done].
Qed.

Lemma configure_given_key fs gen s v : GetString storeKeyFlag v ≠ "" → MkdirAll fs (filepath_Dir storeFilePathFlag) = None →
  ∃ v' b, configure fs gen (s, v) = Ret (tt, (with_key (Key_Decode (GetString storeKeyFlag v) (stg_key s)) (with_isNewDB b s), v')) ∧
          same_flags v v'.
Proof.
  intros Hk Hm. destruct (configure_paths fs s v Hm) as (v' & b & E & Hs & _ & _). exists v', b. split; [|done].
  unfold configure. rewrite bind_assoc, (bind_run _ _ _ _ _ E). unfold Storage.configureKey.
  rewrite (bind_run (viper _) _ (with_isNewDB b s, v') _ (with_isNewDB b s, v')) by done.
  rewrite (proj1 Hs) by done. by rewrite bool_decide_true.
Qed.

(** The turns of a storage that has its key. *)
Definition storage_turns (a : Ans) : list event :=
  [Moves 0 a; Moves 1 a; Moves 1 a; Moves 1 a; Moves 1 a; Takes 1 StorageIsUnlocked; Moves 1 a; Moves 1 a].

(** A database that does not open brings the program down: the failure is reported, but
    the database is used all the same. *)
Theorem failed_open_crashes v content a e : GetString storeKeyFlag v ≠ "" →
  MkdirAll (a_fs a) (filepath_Dir storeFilePathFlag) = None → a_open a = Some e →
  run ([Moves 0 a; Moves 1 a; Moves 1 a; Moves 1 a; Moves 1 a; Moves 1 a; Takes 1 StorageIsUnlocked; Moves 1 a; Moves 1 a])
    (start v content) = Some (Crashed PNil).
Proof.
  intros Hk Hm Ho. destruct (configure_given_key (a_fs a) (a_gen a) (with_running true Stg0) v Hk Hm) as (v' & b & E & _).
  unfold start. cbn -[configure Key_Decode]. cbn -[configure Key_Decode] in E. rewrite E. cbn -[Key_Decode]. rewrite Ho. reflexivity.
Qed.
(** A new database whose key file cannot be read is made with the zero key: the error
    is reported, but the key nobody set is used all the same. *)
Theorem unreadable_keyfile_zero_key v content a e : GetString storeKeyFlag v = "" → GetString storeKeyFileFlag v ≠ "" →
  Stat (a_fs a) (GetString storeKeyFileFlag v) = Some e → MkdirAll (a_fs a) (filepath_Dir storeFilePathFlag) = None → a_open a = None →
  ∃ g ts path, run [Moves 0 a; Moves 1 a; Moves 1 a; Moves 1 a; Moves 1 a] (start v content) = Some (Running g ts) ∧
    db (g_stg g) = Some (MkDB path (arr_zero 32)) ∧ pending (startupErrors (g_stg g)) = [e] ∧ pending (isUnlockedChan (g_stg g)) = [true].
Proof.
  intros Hk Hf Hs Hm Ho. destruct (configure_paths (a_fs a) (with_running true Stg0) v Hm) as (v' & b & E & [Hg _] & _ & _).
  assert (configure (a_fs a) (a_gen a) (with_running true Stg0, v)
    = Ret (tt, (with_errors (MkChan 128 [e] [] 0 false) (with_isNewDB b (with_running true Stg0)), v'))) as Ec.
  { unfold configure. rewrite bind_assoc, (bind_run _ _ _ _ _ E). unfold Storage.configureKey.
    set (s := with_isNewDB b (with_running true Stg0)).
    rewrite (bind_run (viper _) _ (s, v') _ (s, v')), Hg by done. rewrite bool_decide_false by auto.
    rewrite (bind_run (viper _) _ (s, v') _ (s, v')), Hg by done. by rewrite bool_decide_true, Hs by done. }
  unfold start. cbn -[configure Key_Decode] in *. rewrite Ec. cbn -[arr_zero]. rewrite Ho. cbn -[arr_zero].
  eexists _, _, _. split; [reflexivity|]. done.
Qed.

(** ** A start without trouble *)

(** A peer-to-peer service that will come up. *)
Record usable (v : Viper) (content : BadgerDB) (a : Starts) : Prop := {
  u_content : failing content = None;
  u_key : match entries content !! storeKeyKey with
          | Some val => ∃ k raw, Unmarshal_key (ValueCopy val (replicate 32 x00)) = inl k ∧ Raw_key k = inl raw
          | None => ∃ k raw, GenerateKeyPair a = inl k ∧ Raw_key k = inl raw
          end;
  u_network : is_Some (params !! GetString "network" v);
  u_addresses : ∀ s, s ∈ GetStringSlice listenFlag v ++ GetStringSlice connectFlag v ++ GetStringSlice "seed" v →
                  ∃ m, NewMultiaddr s = inl m;
  u_store : ∃ u, NewDatastore a (GetString "data-dir" v) (secret a) = inl u;
  u_host : ∃ h, NewHost a = inl h;
}.

Lemma casts_run l : (∀ s, s ∈ l → ∃ m, NewMultiaddr s = inl m) → ∃ ms, casts l = Ret ms.
Proof.
  induction l as [|s l IH]; intros Hl; [by eexists|]. destruct (Hl s) as [m Em]; [by left|].
  destruct IH as [ms Ems]; [intros; apply Hl; by right|]. exists (m :: ms). cbn. unfold StringCast. by rewrite Em, Ems.
Qed.

Lemma parse_all_own `{!AddressesLaws} ms : ∃ l, parse_all (MaString <$> ms) = inl l.
Proof.
  induction ms as [|m ms [l IH]]; [by eexists|]. exists (m :: l). cbn. by rewrite multiaddr_text, IH.
Qed.

Lemma p2p_configure_run v s content a : usable v content a → db s ≠ None →
  ∃ content' p k raw, p2p_configure (GenerateKeyPair a) v s content P2p0 = Ret (content', p) ∧
    privKey p = Some k ∧ Raw_key k = inl raw.
Proof.
  intros [Hc Hk [n Hn] Ha _ _] Hd.
  assert (∃ content' p k raw, configureKey (GenerateKeyPair a) s content P2p0 = Ret (content', p) ∧ privKey p = Some k ∧ Raw_key k = inl raw)
    as (c1 & p1 & k & raw & E1 & Ep & Er).
  { unfold configureKey, Txn. destruct (db s) as [d|]; [|done]. unfold txn_Get. rewrite Hc.
    destruct (entries content !! storeKeyKey) as [val|]; destruct Hk as (k & raw & E & Er); cbn -[replicate].
    - rewrite E. by eexists _, _, k, raw.
    - rewrite E, Er. by eexists _, _, k, raw. }
  destruct (casts_run (GetStringSlice listenFlag v)) as [l1 L1]; [set_solver|].
  destruct (casts_run (GetStringSlice connectFlag v)) as [l2 L2]; [set_solver|].
  destruct (casts_run (GetStringSlice "seed" v)) as [l3 L3]; [set_solver|].
  assert (∃ p2, configureListeners v p1 = Ret p2 ∧ privKey p2 = Some k) as (p2 & E2 & Ep2).
  { unfold configureListeners. case_bool_decide; [by eexists|]. rewrite L1. by eexists. }
  assert (∃ p3, configureSeeds v p2 = Ret p3 ∧ privKey p3 = Some k) as (p3 & E3 & Ep3).
  { unfold configureSeeds, SelectNetworkParams. case_bool_decide; [rewrite L2; by eexists|]. rewrite Hn. cbn.
    destruct (ParseSeedMultiAddresses n) as [seeds [e|]]; [by eexists|]. rewrite L3. by eexists. }
  exists c1, p3, k, raw. unfold p2p_configure. rewrite E1. cbn. rewrite E2. cbn. by rewrite E3.
Qed.

Lemma p2p_Run_ready `{!AddressesLaws} v s content a : usable v content a → db s ≠ None →
  ∃ content' p, p2p_Run a v s content P2p0 = Ret (true, (content', p)) ∧ p_isReadyChan p = make 1 ∧ p2pHost p ≠ None.
Proof.
  intros Hu Hd. destruct (p2p_configure_run v s content a Hu Hd) as (c & p & k & raw & E & Ep & Er).
  destruct Hu as [_ _ [n Hn] _ [u Hs] [h Hh]].
  destruct (parse_all_own (listenAddresses p)) as [ms Em].
  assert (∃ p', p2p_Run a v s content P2p0 = Ret (true, (c, p'))) as [p' E'].
  { assert (SelectNetworkParams (GetString "network" v) = Ret n) as En by (unfold SelectNetworkParams; by rewrite Hn).
    unfold p2p_Run. rewrite E. cbn -[SelectNetworkParams]. rewrite En. cbn. rewrite Ep, Er. cbn. rewrite Hs. cbn.
    unfold NewListener. rewrite Em, Hh. destruct (NewDHT_ a _); by eexists. }
  exists c, p'. split; [done|]. apply p2p_Run_host in E' as [Hp Hi]. split; [done|]. apply Hp. by right.
Qed.
Lemma run_step e es c c' : step e c = Some c' → run (e :: es) c = run es c'.
Proof. intros E. cbn [run]. by rewrite E. Qed.

(** One turn of a run, after a rewriting of what it calls. *)
Ltac flat :=
  cbn -[configure Key_Decode p2p_Run attempt_unlock];
  unfold with_newKey, with_isNewDB, with_noKey, with_key, with_db, with_running, with_errors, with_locked, with_unlocked, with_ready, with_privKey, with_p2pHost, with_seeds, with_listeners, with_params, with_p_ready, with_p_errors, with_options, with_dev, with_server, with_serving, with_isRunning, with_inUse, with_r_errors, with_r_configured, with_r_ready, with_stg, with_viper, with_content, with_p2p, with_rpc, with_seed_inUse, with_seed_errors, with_seed_ready, with_seed_shutdown, with_ctx_done;
  cbn -[configure Key_Decode p2p_Run attempt_unlock].
Ltac flat_in E :=
  unfold with_newKey, with_isNewDB, with_noKey, with_key, with_db, with_running, with_errors, with_locked, with_unlocked, with_ready, with_privKey, with_p2pHost, with_seeds, with_listeners, with_params, with_p_ready, with_p_errors, with_options, with_dev, with_server, with_serving, with_isRunning, with_inUse, with_r_errors, with_r_configured, with_r_ready, with_stg, with_viper, with_content, with_p2p, with_rpc, with_seed_inUse, with_seed_errors, with_seed_ready, with_seed_shutdown, with_ctx_done in E;
  cbn -[configure Key_Decode p2p_Run attempt_unlock] in E.
Ltac turn_by tac := erewrite run_step; [|flat; tac; flat; reflexivity].
Ltac turn := turn_by idtac.

(** The turns of a start in which everything answers. *)
Definition all_turns (a : Ans) : list event :=
  [Moves 0 a; Moves 1 a; Moves 1 a; Moves 1 a; Moves 1 a; Takes 1 StorageIsUnlocked; Moves 1 a; Moves 1 a; Moves 1 a;
   Takes 0 StorageIsReady; Moves 2 a; Moves 2 a; Takes 0 P2pIsReady;
   Moves 3 a; Moves 3 a; Moves 3 a; Takes 0 RpcIsConfigured;
   Moves 4 a; Moves 4 a; Moves 4 a; Moves 4 a; Moves 4 a; Takes 0 RpcIsReady; Moves 0 a].

(** C30: With its key given, a database that opens, a usable peer-to-peer service and a
    socket to listen on, the seed gets ready, in these turns: the one database is
    opened with the key it was given and the chat service is served. *)
Theorem seed_starts `{!AddressesLaws} v content a : usable v content (a_p2p a) →
  GetString storeKeyFlag v ≠ "" → MkdirAll (a_fs a) (filepath_Dir storeFilePathFlag) = None →
  a_open a = None → a_tun a = None → a_unix a = None → GetBool TunEnableFlag v = false →
  ∃ g ts path, run (all_turns a) (start v content) = Some (Running g ts) ∧
    pending (seed_isReadyChan g) = [true] ∧ SeedRunning ∈ ts ∧ server (g_rpc g) = Some ChatService ∧
    opened (g_stg g) = [MkDB path (Key_Decode (GetString storeKeyFlag v) (arr_zero 32))].
Proof.
  intros Hu Hk Hm Ho Ht Hx Hb.
  destruct (configure_given_key (a_fs a) (a_gen a) (with_running true Stg0) v Hk Hm) as (v' & b & Ec & Hg & Hsl & Hbl & _).
  assert (usable v' content (a_p2p a)) as Hu'.
  { destruct Hu as [? ? Hn Ha Hs ?]. split; try done; [by rewrite Hg| |by rewrite Hg]. unfold GetStringSlice in *. by rewrite Hsl. }
  assert (GetBool TunEnableFlag v' = false) as Hb' by (unfold GetBool in *; by rewrite Hbl).
  unfold start, all_turns, storage_run. flat_in Ec.
  do 2 turn. turn_by ltac:(rewrite Ec). turn_by ltac:(unfold storage_run; cbn -[Key_Decode]; rewrite Ho). do 6 turn.
  turn.
  match goal with |- context [p2p_Run _ _ ?s _ _] =>
    destruct (p2p_Run_ready v' s content (a_p2p a) Hu' ltac:(done)) as (content' & p & Ep & Ei & _) end.
  rewrite Ep. turn_by ltac:(rewrite Ei). turn. turn_by ltac:(unfold rpc_options; cbn -[Key_Decode]; rewrite Hb').
  do 3 turn. turn_by ltac:(rewrite Ht). turn.
  destruct (bool_decide (GetString UnixPathFlag v' ≠ "")); turn_by ltac:(rewrite ?Hx); do 4 turn;
    eexists _, _, _; (split; [reflexivity|]); cbn -[Key_Decode]; split_and!; try reflexivity; set_solver.
Qed.
End Runs.

(** ** Concrete runs *)

Module SeedDemo.
#[local] Existing Instances Toy.crypto Toy.multiaddrs TransportProps.Demo.addresses TransportProps.Demo.laws.

(** A text is its bytes. *)
#[export] Instance base58 : Base58 := {|
  b58Encode := String.string_of_list_byte;
  b58Decode := String.list_byte_of_string;
|}.

#[export] Instance base58_laws : Base58Laws.
Proof. constructor. exact String.list_byte_of_string_of_list_byte. Qed.

(** A key is its bytes. *)
#[export] Instance p2p_keys : P2pKeys := {| P2pKey := bytes; Raw_key := inl; Unmarshal_key := inl |}.

Definition failed : error := Errorf "failed" [].

(** Files that exist, all with the same content. *)
Definition fs : FS := MkFS (λ _, None) (λ _, inl "key") (λ _, None).
Definition no_files : FS := MkFS (λ _, Some failed) (λ _, inr failed) (λ _, None).

Definition host : @Host Toy.multiaddrs := TransportProps.Demo.host.
Definition starts : @Starts Toy.multiaddrs p2p_keys := MkStarts (inl [x01]) (λ _ _, inl tt) (inl host) (λ _, None) (replicate 32 x02).

Definition ans (f : FS) (opens unix : option error) : @Ans Toy.multiaddrs p2p_keys :=
  MkAns f (arr_zero 32, None) opens starts 0 (arr_zero 32) None None unix.

Definition good := ans fs None None.

Definition settings (l : list (string * string)) : Viper :=
  MkViper (list_to_map (("network", "testnet") :: l)) ∅ ∅ ∅.
Definition with_given_key : Viper := settings [(storeKeyFlag, "secret")].
Definition without_key : Viper := settings [(UnixPathFlag, "/tmp/s")].
Definition with_file : Viper := settings [(storeKeyFileFlag, "/key")].

Definition empty : BadgerDB := MkBadger ∅ None.

Definition the_seed (v : Viper) (content : BadgerDB) : @Config Toy.multiaddrs p2p_keys := start v content.

(** The seed's own threads, what was opened with which key, and the service. *)
Definition result (c : option Config) : option (list thread * list Key * option service) :=
  match c with
  | Some (Running g ts) => Some (ts, db_key <$> opened (g_stg g), server (g_rpc g))
  | _ => None
  end.

Definition crashed (c : option Config) : option panic := match c with Some (Crashed p) => Some p | _ => None end.

(** What the store does when no key is given: it is locked, and the unlock service
    started. *)
Definition locked_turns : list event :=
  [Moves 0 good; Moves 1 good; Moves 1 good; Moves 1 good; Takes 1 StorageIsLocked;
   Moves 2 good; Moves 2 good; Moves 2 good; Moves 3 good; Moves 3 good; Moves 3 good].

Definition key_of (s : string) : Key := Key_Decode s (arr_zero 32).

(** A client unlocks it; the service stops and the seed goes on. *)
Example unlocked_by_client :
  result (run (locked_turns ++ [Moves 3 good; Moves 3 good; Calls "pass"; Moves 4 good; Moves 4 good; Takes 1 StorageIsUnlocked; Moves 1 good;
    Moves 1 good; Moves 1 good; Takes 0 StorageIsReady]) (the_seed without_key empty))
  = Some ([AwaitP2p; Returned; Returned; Returned; Returned; P2pRun], [key_of "pass"], Some UnlockService).
Proof. vm_compute. reflexivity. Qed.

(** A second call that fails to open the database again leaves none. *)
Example second_unlock_crashes :
  crashed (run (locked_turns ++ [Moves 3 good; Moves 3 good; Calls "pass"; Moves 4 good; Moves 4 good; Calls "pass"; Moves 5 (ans fs (Some failed) None);
    Takes 1 StorageIsUnlocked; Moves 1 good; Moves 1 good]) (the_seed without_key empty)) = Some PNil.
Proof. vm_compute. reflexivity. Qed.

(** An unlock between the socket and [isRunning]: the unlock service is not stopped, the
    chat service finds the server in use, and the seed runs with the former. *)
Definition early_turns : list event :=
  locked_turns ++ [Calls "pass"; Moves 4 good; Moves 4 good; Takes 1 StorageIsUnlocked; Moves 1 good; Moves 1 good; Moves 1 good; Takes 0 StorageIsReady;
    Moves 5 good; Moves 5 good; Takes 0 P2pIsReady; Moves 6 good; Takes 0 RpcIsConfigured; Moves 3 good; Moves 3 good; Takes 0 RpcIsReady; Moves 0 good].

Example early_unlock_keeps_unlock_service :
  result (run early_turns (the_seed without_key empty))
  = Some ([SeedRunning; Returned; Returned; Returned; Returned; Returned; Returned], [key_of "pass"], Some UnlockService).
Proof. vm_compute. reflexivity. Qed.

Lemma run_reaches es (c c' : @Config Toy.multiaddrs p2p_keys) : run es c = Some c' → rtc steps c c'.
Proof.
  revert c. induction es as [|e es IH]; intros c E; [injection E as ->; apply rtc_refl|].
  cbn in E. destruct (step e c) as [c1|] eqn:E1; [|done]. eapply rtc_l; [by exists e|by apply IH].
Qed.
End SeedDemo.

#[local] Existing Instances Toy.crypto Toy.multiaddrs TransportProps.Demo.addresses TransportProps.Demo.laws SeedDemo.base58 SeedDemo.p2p_keys.

Lemma usable_demo : usable SeedDemo.with_given_key SeedDemo.empty (a_p2p SeedDemo.good).
Proof.
  split; [done|by exists [x01], [x01]|by vm_compute; eexists| |by exists tt|by exists SeedDemo.host].
  intros s Hs. by apply elem_of_nil in Hs.
Qed.

Lemma seed_starts_witness : ∃ g ts path, run (all_turns SeedDemo.good) (SeedDemo.the_seed SeedDemo.with_given_key SeedDemo.empty) = Some (Running g ts) ∧
  pending (seed_isReadyChan g) = [true] ∧ opened (g_stg g) = [MkDB path (SeedDemo.key_of "secret")].
Proof.
  destruct (seed_starts SeedDemo.with_given_key SeedDemo.empty SeedDemo.good usable_demo ltac:(by vm_compute) eq_refl eq_refl eq_refl eq_refl eq_refl)
    as (g & ts & path & E & Ep & _ & _ & Eo). exists g, ts, path. split; [exact E|]. split; [exact Ep|exact Eo].
Defined.

Lemma failed_open_crashes_witness :
  let a := SeedDemo.ans SeedDemo.fs (Some SeedDemo.failed) None in
  run [Moves 0 a; Moves 1 a; Moves 1 a; Moves 1 a; Moves 1 a; Moves 1 a; Takes 1 StorageIsUnlocked; Moves 1 a; Moves 1 a]
    (SeedDemo.the_seed SeedDemo.with_given_key SeedDemo.empty) = Some (Crashed PNil).
Proof. intros a. apply (failed_open_crashes SeedDemo.with_given_key SeedDemo.empty a SeedDemo.failed); [by vm_compute|reflexivity|reflexivity]. Defined.

Lemma unreadable_keyfile_zero_key_witness :
  let a := SeedDemo.ans SeedDemo.no_files None None in
  ∃ g ts path, run [Moves 0 a; Moves 1 a; Moves 1 a; Moves 1 a; Moves 1 a] (SeedDemo.the_seed SeedDemo.with_file SeedDemo.empty) = Some (Running g ts) ∧
    db (g_stg g) = Some (MkDB path (arr_zero 32)).
Proof.
  intros a. destruct (unreadable_keyfile_zero_key SeedDemo.with_file SeedDemo.empty a SeedDemo.failed eq_refl ltac:(by vm_compute) eq_refl eq_refl eq_refl)
    as (g & ts & path & E & Ed & _). exists g, ts, path. split; [exact E|exact Ed].
Defined.

Lemma seed_ready_after_all_witness : ∃ g ts, run SeedDemo.early_turns (SeedDemo.the_seed SeedDemo.without_key SeedDemo.empty) = Some (Running g ts) ∧
  opened (g_stg g) ≠ [] ∧ p2pHost (g_p2p g) ≠ None ∧ server (g_rpc g) ≠ None.
Proof.
  destruct (run SeedDemo.early_turns (SeedDemo.the_seed SeedDemo.without_key SeedDemo.empty)) as [[g ts|p]|] eqn:E.
  - exists g, ts. split; [reflexivity|]. apply (seed_ready_after_all SeedDemo.without_key SeedDemo.empty g ts (SeedDemo.run_reaches _ _ _ E)).
    right. pose proof SeedDemo.early_unlock_keeps_unlock_service as Ee. rewrite E in Ee. injection Ee as -> _ _. left.
  - pose proof SeedDemo.early_unlock_keeps_unlock_service as Ee. rewrite E in Ee. discriminate Ee.
  - pose proof SeedDemo.early_unlock_keeps_unlock_service as Ee. rewrite E in Ee. discriminate Ee.
Defined.
