(* ===== verification/EventLoop.v ===== *)
(** * The engine's event loop

    Models [Start], [Handler], [Shutdown] and the pausing of
    [pkg/engine/engine.go] with the channels it selects on, [PayChan.Send] with
    its confirmation channels, and the goroutines [RunAdHandler] and [SetupGossip]
    of [peerstore.go].  The loop is at a place where it can be interrupted; an
    event says which case it takes or what others do.  What the loop does with a
    message or a payment is [HandleMessage] and [HandlePayment] of [Engine]. *)

From S2P Require Transport.
From S2P Require Export Engine Chan.

(** A payment in its channel: with the number of its [ConfirmChan]. *)
Record Pay := MkPay { p_payment : Payment; p_confirm : nat }.

(** Where the loop is: in the select of [Handler], sending the confirmation [k], in
    the select of the pause, or returned from [Start]. *)
Inductive place := Awaits | Confirms (k : nat) | Paused | Ended.

Section Loop.
Context {cr : Crypto} {ma : Multiaddrs} {pe : Peers} {tp : Transports} {env : Env}.
Context {User IntroHook : Type}.
Abbreviation Engine := (Engine (User := User) (IntroHook := IntroHook)).
Context (run_cb : CB (User := User) (IntroHook := IntroHook) → ID → Onion → bytes → GoM Engine (option error)).
(** How deep messages nest before the model gives up. *)
Context (fuel : nat).

(** What the loop takes from its channels, and what others call meanwhile. *)
Inductive input := IMessage (b : bytes) | IPayment (p : Pay) | ICall (m : GoM Engine unit).

Record Loop := MkLoop {
  lp_engine : Engine;
  lp_in : chan bytes;                    (* the transport of the local node *)
  lp_pay : chan Pay;
  lp_conns : chan nat;                   (* new connections *)
  lp_pause : chan unit;
  lp_confirms : list (chan bool);
  ShuttingDown : bool;
  cancelled : bool;                      (* whether the context has ended *)
  lp_taken : list (bool * input);        (* everything taken, and whether it was handled *)
  lp_sent : list bytes;                  (* everything that arrived *)
}.

Definition with_engine (e : Engine) (s : Loop) : Loop :=
  MkLoop e (lp_in s) (lp_pay s) (lp_conns s) (lp_pause s) (lp_confirms s) (ShuttingDown s) (cancelled s) (lp_taken s) (lp_sent s).
Definition with_in (c : chan bytes) (s : Loop) : Loop :=
  MkLoop (lp_engine s) c (lp_pay s) (lp_conns s) (lp_pause s) (lp_confirms s) (ShuttingDown s) (cancelled s) (lp_taken s) (lp_sent s).
Definition with_pay (c : chan Pay) (s : Loop) : Loop :=
  MkLoop (lp_engine s) (lp_in s) c (lp_conns s) (lp_pause s) (lp_confirms s) (ShuttingDown s) (cancelled s) (lp_taken s) (lp_sent s).
Definition with_conns (c : chan nat) (s : Loop) : Loop :=
  MkLoop (lp_engine s) (lp_in s) (lp_pay s) c (lp_pause s) (lp_confirms s) (ShuttingDown s) (cancelled s) (lp_taken s) (lp_sent s).
Definition with_pause (c : chan unit) (s : Loop) : Loop :=
  MkLoop (lp_engine s) (lp_in s) (lp_pay s) (lp_conns s) c (lp_confirms s) (ShuttingDown s) (cancelled s) (lp_taken s) (lp_sent s).
Definition with_confirms (l : list (chan bool)) (s : Loop) : Loop :=
  MkLoop (lp_engine s) (lp_in s) (lp_pay s) (lp_conns s) (lp_pause s) l (ShuttingDown s) (cancelled s) (lp_taken s) (lp_sent s).
Definition with_down (b c : bool) (s : Loop) : Loop :=
  MkLoop (lp_engine s) (lp_in s) (lp_pay s) (lp_conns s) (lp_pause s) (lp_confirms s) b c (lp_taken s) (lp_sent s).
Definition takes_in (handled : bool) (i : input) (s : Loop) : Loop :=
  MkLoop (lp_engine s) (lp_in s) (lp_pay s) (lp_conns s) (lp_pause s) (lp_confirms s) (ShuttingDown s) (cancelled s)
    (lp_taken s ++ [(handled, i)]) (lp_sent s).
Definition with_sent (l : list bytes) (s : Loop) : Loop :=
  MkLoop (lp_engine s) (lp_in s) (lp_pay s) (lp_conns s) (lp_pause s) (lp_confirms s) (ShuttingDown s) (cancelled s) (lp_taken s) l.

(** [ReceiveToLocalNode]: the manager is locked for it, and there is a transport. *)
Definition ReceiveToLocalNode : GoM Engine unit :=
  mgr (locked (l ← GetLocalNode; n ← node_at l; match n_Transport n with Some _ => mret tt | None => panicM PNil end)).

(** [LogEntry]: the fingerprint of the local node. *)
Definition LogEntry : GoM Engine unit :=
  mgr (l ← GetLocalNode; n ← node_at l; mret tt).

(** What is evaluated before the loop waits: the line [Handler] begins with, and the
    channels of the select. *)
Definition enter (at_ : place) : GoM Engine unit :=
  match at_ with
  | Awaits => LogEntry ;; ReceiveToLocalNode
  | Paused => ReceiveToLocalNode
  | Confirms _ | Ended => mret tt
  end.

(** [Shutdown]: once. *)
Definition Shutdown (s : Loop) : Loop := if ShuttingDown s then s else with_down true true s.

(** What an input does to the engine. *)
Definition handle_input (i : input) : GoM Engine unit :=
  match i with
  | IMessage b => HandleMessage run_cb fuel (Load b 0) ONil
  | IPayment p => HandlePayment (p_payment p)
  | ICall m => m
  end.

(** What the inputs do one after the other. *)
Fixpoint handle_inputs (l : list input) : GoM Engine unit :=
  match l with
  | [] => mret tt
  | i :: l => handle_input i ;; handle_inputs l
  end.

(** ** Events *)

Inductive event :=
(** the loop takes a case of its select, or sent its confirmation *)
| TakesDone | TakesConn | TakesMessage | TakesPayment | TakesPause | Confirmed
(** a message arrives, somebody pays, waits for a confirmation, or dials *)
| Arrives (b : bytes) | Pays (p : Payment) | AwaitsConfirm (k : nat) | Dials (d : nat)
(** somebody signals [Pause], calls [Shutdown], or ends the context *)
| Pauses | Shuts | Cancels
(** another goroutine does something with the engine *)
| Calls (m : GoM Engine unit).

Inductive Config :=
| Running (s : Loop) (at_ : place)
| Crashed (p : panic).

(** The loop goes on at [at_] with what a call left. *)
Definition engine_does {A} (m : GoM Engine A) (s : Loop) (k : Loop → Config) : Config :=
  match m (lp_engine s) with
  | Ret (_, e) => k (with_engine e s)
  | Panic p => Crashed p
  end.

(** [p.ConfirmChan <- true] *)
Definition confirm (k : nat) (s : Loop) : Config :=
  match lp_confirms s !! k with
  | None => Crashed PNil
  | Some c =>
      match send true c with
      | Ret (r, c') => Running (with_confirms (<[k := c']> (lp_confirms s)) s) (match r with Goes => Awaits | Parks => Confirms k end)
      | Panic p => Crashed p
      end
  end.

(** One event: [None] when it cannot happen now.  The expressions of a select are
    evaluated when the loop enters it, which is before any of its cases. *)
Definition step (e : event) (c : Config) : option Config :=
  match c with
  | Crashed _ => None
  | Running s at_ =>
      match e, at_ with
      | TakesDone, Awaits => if cancelled s then Some (engine_does (enter at_) s (λ s, Running (Shutdown s) Ended)) else None
      | TakesDone, Paused => if cancelled s then Some (engine_does (enter at_) s (λ s, Running s Ended)) else None
      | TakesConn, Awaits =>
          match try_recv (lp_conns s) with
          | Some (Some _, c) => Some (engine_does (enter at_) (with_conns c s) (λ s, Running s Awaits))
          | _ => None
          end
      | TakesMessage, Awaits =>
          match try_recv (lp_in s) with
          | Some (Some b, c) =>
              Some (engine_does (enter at_ ;; handle_input (IMessage b)) (takes_in true (IMessage b) (with_in c s)) (λ s, Running s Awaits))
          | _ => None
          end
      | TakesMessage, Paused =>
          match try_recv (lp_in s) with
          | Some (Some b, c) => Some (engine_does (enter at_) (takes_in false (IMessage b) (with_in c s)) (λ s, Running s Paused))
          | _ => None
          end
      | TakesPayment, Awaits =>
          match try_recv (lp_pay s) with
          | Some (Some p, c) =>
              Some (engine_does (enter at_ ;; handle_input (IPayment p)) (takes_in true (IPayment p) (with_pay c s)) (confirm (p_confirm p)))
          | _ => None
          end
      | TakesPayment, Paused =>
          match try_recv (lp_pay s) with
          | Some (Some p, c) => Some (engine_does (enter at_) (takes_in false (IPayment p) (with_pay c s)) (λ s, Running s Paused))
          | _ => None
          end
      | TakesPause, Awaits =>
          match try_recv (lp_pause s) with
          | Some (_, c) => Some (engine_does (enter at_ ;; local_name) (with_pause c s) (λ s, Running s Paused))
          | None => None
          end
      | TakesPause, Paused =>
          match try_recv (lp_pause s) with
          | Some (_, c) => Some (engine_does (enter at_ ;; local_name) (with_pause c s) (λ s, Running s Awaits))
          | None => None
          end
      | Confirmed, Confirms k =>
          match lp_confirms s !! k with
          | Some c => if bool_decide (ch_senders c = []) then Some (Running s Awaits) else None
          | None => None
          end
      | Arrives b, _ =>
          match send b (lp_in s) with
          | Ret (_, c) => Some (Running (with_sent (lp_sent s ++ [b]) (with_in c s)) at_)
          | Panic p => Some (Crashed p)
          end
      | Pays p, _ =>
          match send (MkPay p (length (lp_confirms s))) (lp_pay s) with
          | Ret (_, c) => Some (Running (with_confirms (lp_confirms s ++ [make 0]) (with_pay c s)) at_)
          | Panic p => Some (Crashed p)
          end
      | AwaitsConfirm k, _ =>
          match lp_confirms s !! k with
          | Some c =>
              if bool_decide (k ∈ p_confirm <$> ch_senders (lp_pay s)) then None   (* still sending the payment *)
              else let '(_, _, c') := recv c in Some (Running (with_confirms (<[k := c']> (lp_confirms s)) s) at_)
          | None => None
          end
      | Dials d, _ =>
          match send d (lp_conns s) with
          | Ret (_, c) => Some (Running (with_conns c s) at_)
          | Panic p => Some (Crashed p)
          end
      | Pauses, _ =>
          match send tt (lp_pause s) with
          | Ret (_, c) => Some (Running (with_pause c s) at_)
          | Panic p => Some (Crashed p)
          end
      | Calls m, _ => Some (engine_does m (takes_in true (ICall m) s) (λ s, Running s at_))
      | Shuts, _ => Some (Running (Shutdown s) at_)
      | Cancels, _ => Some (Running (with_down (ShuttingDown s) true s) at_)
      | _, _ => None
      end
  end.

Definition steps (c c' : Config) : Prop := ∃ e, step e c = Some c'.

Fixpoint run (es : list event) (c : Config) : option Config :=
  match es with
  | [] => Some c
  | e :: es => step e c ≫= run es
  end.

(** [Start] on a new engine: [bufs] is the room of its transport's channel.  The
    goroutines it starts for the gossip are those below. *)
Definition Start (bufs : nat) (e : Engine) : Config :=
  Running (MkLoop e (make bufs) (make (Z.to_nat Node.PaymentChanBuffers)) (make Transport.ConnBufs) (make 0) [] false false [] []) Awaits.

(** ** The goroutines of [peerstore.go] *)

(** One turn of the loop [RunAdHandler] starts: whether it ends.  [next] is what the
    subscription answers, [err] what the handler does with a message. *)
Definition RunAdHandler_turn {M} (next : M + error) (err : M → option error) (done : bool) : bool :=
  match next with
  | inr _ => false
  | inl m => match err m with Some _ => false | None => done end
  end.

(** The turns until the loop ends, [None] when it has not ended after those given. *)
Fixpoint RunAdHandler {M} (turns : list (M + error)) (err : M → option error) (done : bool) : option nat :=
  match turns with
  | [] => None
  | next :: turns => if RunAdHandler_turn next err done then Some 1%nat else S <$> RunAdHandler turns err done
  end.

(** [SetupGossip]: what was set up, and whether the context was cancelled. *)
Definition SetupGossip {P T S} (NewGossipSub : P + error) (Join : P → T + error) (Subscribe : T → S + error)
    : (option P * option T * option S * option error) * bool :=
  match NewGossipSub with
  | inr e => ((None, None, None, Some e), true)
  | inl ps =>
      match Join ps with
      | inr e => ((Some ps, None, None, Some e), true)
      | inl t =>
          match Subscribe t with
          | inr e => ((Some ps, Some t, None, Some e), true)
          | inl s => ((Some ps, Some t, Some s, None), false)
          end
      end
  end.
End Loop.
