(* ===== verification/EventLoopProps.v ===== *)
(** * What the engine's event loop promises

    The engine is what its inputs make of it in the order they were taken, and
    every message and payment is taken once and in order.  A payment taken in a
    pause is never confirmed, whoever waits for it; a payment taken by the loop
    holds it until its payer waits for the confirmation. *)

From S2P Require Export EventLoop Billing.

Section Props.
Context {cr : Crypto} {ma : Multiaddrs} {pe : Peers} {tp : Transports} {env : Env}.
Context {User IntroHook : Type}.
Abbreviation Engine := (Engine (User := User) (IntroHook := IntroHook)).
Abbreviation Loop := (Loop (User := User) (IntroHook := IntroHook)).
Abbreviation Config := (Config (User := User) (IntroHook := IntroHook)).
Abbreviation input := (input (User := User) (IntroHook := IntroHook)).
Context (run_cb : CB (User := User) (IntroHook := IntroHook) → ID → Onion → bytes → GoM Engine (option error)).
Context (fuel : nat).
Abbreviation step := (step run_cb fuel).
Abbreviation steps := (steps run_cb fuel).
Abbreviation handle_inputs := (handle_inputs run_cb fuel).

(** ** What was taken *)

Definition handled (l : list (bool * input)) : list input := snd <$> filter (λ x, x.1 = true) l.
Definition messages (l : list (bool * input)) : list bytes :=
  omap (λ x, match x.2 with IMessage b => Some b | _ => None end) l.
Definition payments (l : list (bool * input)) : list Pay :=
  omap (λ x, match x.2 with IPayment p => Some p | _ => None end) l.
Definition discarded (l : list (bool * input)) : list Pay := payments (filter (λ x, x.1 = false) l).
#[local] Arguments handled : simpl never.
#[local] Arguments messages : simpl never.
#[local] Arguments payments : simpl never.
#[local] Arguments discarded : simpl never.

(** The payments nobody confirms yet or ever: on their way, or discarded. *)
Definition waiting (s : Loop) : list nat := p_confirm <$> (discarded (lp_taken s) ++ pending (lp_pay s)).

Lemma handled_app l l' : handled (l ++ l') = handled l ++ handled l'.
Proof. unfold handled. by rewrite filter_app, fmap_app. Qed.
Lemma messages_app l l' : messages (l ++ l') = messages l ++ messages l'.
Proof. apply omap_app. Qed.
Lemma payments_app l l' : payments (l ++ l') = payments l ++ payments l'.
Proof. apply omap_app. Qed.
Lemma discarded_app l l' : discarded (l ++ l') = discarded l ++ discarded l'.
Proof. unfold discarded. by rewrite filter_app, payments_app. Qed.

Lemma discarded_payments l : discarded l ⊆ payments l.
Proof.
  intros p. unfold discarded, payments. rewrite !list_elem_of_omap. intros (x & Hx & E).
  apply list_elem_of_filter in Hx as [_ Hx]. by exists x.
Qed.

Lemma discarded_taken l p : p ∈ discarded l → (false, IPayment p) ∈ l.
Proof.
  unfold discarded, payments. rewrite list_elem_of_omap. intros ([h i] & Hx & E). cbn in E.
  apply list_elem_of_filter in Hx as [Hh Hx]. cbn in Hh. subst h. destruct i; [done| |done]. by injection E as ->.
Qed.

Lemma handle_inputs_app l i (e : Engine) e1 e2 :
  handle_inputs l e = Ret (tt, e1) → handle_input run_cb fuel i e1 = Ret (tt, e2) →
  handle_inputs (l ++ [i]) e = Ret (tt, e2).
Proof.
  revert e. induction l as [|j l IH]; intros e E1 E2; cbn in *.
  - injection E1 as <-. by rewrite (bind_run _ _ _ _ _ E2).
  - apply bind_inv in E1 as ([] & s' & Ej & E1). rewrite (bind_run _ _ _ _ _ Ej). by apply IH.
Qed.

(** What the loop evaluates before it waits changes nothing. *)
Lemma locked_id {A} (m : GoM Manager A) s a s' :
  (∀ x y b, m x = Ret (b, y) → y = x) → locked m s = Ret (a, s') → s' = s.
Proof.
  intros Hm. unfold locked, Lock, Unlock. unfold mbind, GoM_bind, mret, GoM_ret.
  destruct (sm_locked s) eqn:El; [done|]. destruct (m (with_locked true s)) as [[b y]|] eqn:Em; [|done].
  apply Hm in Em as ->. cbn. intros [= _ <-]. destruct s; cbn in *. by subst.
Qed.

Lemma mgr_id {A} (m : GoM Manager A) (e : Engine) a e' :
  (∀ x y b, m x = Ret (b, y) → y = x) → mgr m e = Ret (a, e') → e' = e.
Proof.
  intros Hm. unfold mgr, mbind, Out_bind. destruct (m (e_Mgr e)) as [[b y]|] eqn:Em; [|done].
  apply Hm in Em as ->. intros [= _ <-]. by destruct e.
Qed.

Lemma local_node_id s a s' : GetLocalNode s = Ret (a, s') → s' = s.
Proof.
  unfold GetLocalNode, mbind, GoM_bind, get, lift, Out_bind. by destruct (goindex (nodes s) 0); intros [= _ <-].
Qed.
Lemma node_at_id l s a s' : node_at l s = Ret (a, s') → s' = s.
Proof. unfold node_at. by destruct (nodeAt s !! l); intros [= _ <-]. Qed.

Lemma ReceiveToLocalNode_id (e : Engine) a e' : ReceiveToLocalNode e = Ret (a, e') → e' = e.
Proof.
  apply mgr_id. intros x y b. apply locked_id. clear. intros x y b H.
  apply bind_inv in H as (l & x1 & H1 & H). apply local_node_id in H1 as ->.
  apply bind_inv in H as (n & x2 & H2 & H). apply node_at_id in H2 as ->.
  by destruct (n_Transport n); [injection H as _ <-|].
Qed.

Lemma LogEntry_id (e : Engine) a e' : LogEntry e = Ret (a, e') → e' = e.
Proof.
  apply mgr_id. intros x y b H.
  apply bind_inv in H as (l & x1 & H1 & H). apply local_node_id in H1 as ->.
  apply bind_inv in H as (n & x2 & H2 & H). apply node_at_id in H2 as ->. by injection H as _ <-.
Qed.

Lemma enter_id at_ (e : Engine) a e' : enter at_ e = Ret (a, e') → e' = e.
Proof.
  destruct at_; cbn; try (by intros [= _ <-]).
  - intros H. apply bind_inv in H as (? & ? & H1 & H). apply LogEntry_id in H1 as ->. by eapply ReceiveToLocalNode_id.
  - apply ReceiveToLocalNode_id.
Qed.

Lemma local_name_id (e : Engine) a e' : local_name e = Ret (a, e') → e' = e.
Proof.
  intros H. apply bind_inv in H as (x & e1 & H & [= _ ->]). revert H. apply mgr_id. clear. intros m m' b H.
  unfold GetLocalNodeAddressString, GetLocalNodeAddress, GetLocalNodeAddresses in H.
  apply bind_inv in H as (? & ? & H & [= _ ->]). apply bind_inv in H as (? & ? & H & H').
  apply bind_inv in H as (l & ? & H1 & H). apply local_node_id in H1 as ->.
  apply bind_inv in H as (n & ? & H2 & H). apply node_at_id in H2 as ->. injection H as _ <-.
  unfold lift, mbind, Out_bind in H'. by destruct (goindex _ 0); [injection H' as _ ->|].
Qed.

(** ** The invariant *)

(** A queue only the loop receives from, which never parks in it for the model. *)
Definition queue {A} (c : chan A) : Prop := chan_ok c ∧ ch_receivers c = 0%nat ∧ ch_closed c = false.

(** The engine and the queues. *)
Record Accounts (e0 : Engine) (s : Loop) : Prop := {
  acc_engine : handle_inputs (handled (lp_taken s)) e0 = Ret (tt, lp_engine s);
  acc_sent : messages (lp_taken s) ++ pending (lp_in s) = lp_sent s;
  acc_numbers : p_confirm <$> (payments (lp_taken s) ++ pending (lp_pay s)) = seq 0 (length (lp_confirms s));
  acc_in : queue (lp_in s);
  acc_pay : queue (lp_pay s);
}.

(** The confirmation channels: at most one send is parked, that of the loop, and on no
    channel of a payment that waits. *)
Definition Confirming (at_ : place) (cs : list (chan bool)) (w : list nat) : Prop :=
  (∀ k c, cs !! k = Some c →
     (∃ r, c = MkChan 0 [] [] r false) ∨ (c = MkChan 0 [] [true] 0 false ∧ at_ = Confirms k ∧ k ∉ w)) ∧
  (∀ k, at_ = Confirms k → (k < length cs)%nat).

Definition Inv (e0 : Engine) (c : Config) : Prop :=
  match c with
  | Running s at_ => Accounts e0 s ∧ Confirming at_ (lp_confirms s) (waiting s)
  | Crashed _ => True
  end.

Lemma queue_send {A} (a : A) c : queue c → ∃ r c', send a c = Ret (r, c') ∧ queue c' ∧ pending c' = pending c ++ [a].
Proof.
  intros (Hok & Hr & Hc). destruct (send a c) as [[r c']|p] eqn:E.
  - exists r, c'. split; [done|]. split; [|by eapply send_pending].
    split; [by eapply send_ok|]. revert E. unfold send. rewrite Hc, Hr. by case_bool_decide; intros [= _ <-].
  - revert E. unfold send. rewrite Hc, Hr. by case_bool_decide.
Qed.

Lemma queue_recv {A} (a : A) c c' : queue c → try_recv c = Some (Some a, c') → queue c' ∧ pending c = a :: pending c'.
Proof.
  intros (Hok & Hr & Hc) E. split; [|by apply try_recv_pending]. split; [by eapply try_recv_ok|].
  revert E. unfold try_recv. rewrite Hr, Hc. by destruct (ch_buf c), (ch_senders c); intros [= _ <-].
Qed.

Lemma Confirming_less at_ cs w w' : w' ⊆ w → Confirming at_ cs w → Confirming at_ cs w'.
Proof.
  intros Hw [H1 H2]. split; [|done]. intros k c Hk. destruct (H1 k c Hk) as [?|(? & ? & ?)]; [by left|].
  right. repeat split; [done|done|]. intros Hin. by apply Hw in Hin.
Qed.

(** Where no send is parked the loop may go elsewhere. *)
Lemma Confirming_idle at_ at' cs w w' : (∀ k, at_ ≠ Confirms k) → (∀ k, at' ≠ Confirms k) →
  Confirming at_ cs w → Confirming at' cs w'.
Proof.
  intros Ha Ha' [H1 H2]. split; [|by intros k E; destruct (Ha' k)].
  intros k c Hk. destruct (H1 k c Hk) as [?|(? & E & ?)]; [by left|]. by destruct (Ha k).
Qed.

Lemma Awaits_idle k : Awaits ≠ Confirms k.
Proof. done. Qed.
Lemma Paused_idle k : Paused ≠ Confirms k.
Proof. done. Qed.

Lemma Confirming_pays at_ cs w : Confirming at_ cs w → Confirming at_ (cs ++ [make 0]) (w ++ [length cs]).
Proof.
  intros [H1 H2]. split.
  - intros k c Hk. apply lookup_app_Some in Hk as [Hk|[Hk E]].
    + destruct (H1 k c Hk) as [?|(? & ? & Hn)]; [by left|]. right. repeat split; [done|done|].
      apply lookup_lt_Some in Hk. rewrite elem_of_app, list_elem_of_singleton. intros [?|?]; [done|lia].
    + left. exists 0%nat. apply list_lookup_singleton_Some in E as [_ <-]. done.
  - intros k E. rewrite length_app. specialize (H2 k E). lia.
Qed.

Lemma Confirming_awaits at_ cs w k c : cs !! k = Some c → Confirming at_ cs w →
  Confirming at_ (<[k := (recv c).2]> cs) w.
Proof.
  intros Hk [H1 H2]. pose proof (lookup_lt_Some _ _ _ Hk) as Hl. split; [|intros j E; rewrite length_insert; by apply H2].
  intros j c' Hj. destruct (decide (k = j)) as [->|Hne]; [|rewrite list_lookup_insert_ne in Hj by done; by apply H1].
  rewrite list_lookup_insert_eq in Hj by done. injection Hj as <-.
  destruct (H1 j c Hk) as [[r ->]|(-> & _)]; cbn; left; by eexists.
Qed.

(** The confirmation itself: it never panics. *)
Lemma confirm_run (s : Loop) k w : (k < length (lp_confirms s))%nat → k ∉ w →
  Confirming Awaits (lp_confirms s) (k :: w) →
  ∃ at_ c, confirm k s = Running (with_confirms (<[k := c]> (lp_confirms s)) s) at_ ∧
    Confirming at_ (<[k := c]> (lp_confirms s)) w.
Proof.
  intros Hk Hw [H1 _]. unfold confirm. destruct (lookup_lt_is_Some_2 _ _ Hk) as [c E]. rewrite E.
  assert (Hother : ∀ j c0 at_, j ≠ k → lp_confirms s !! j = Some c0 →
    (∃ r, c0 = MkChan 0 [] [] r false) ∨ (c0 = MkChan 0 [] [true] 0 false ∧ at_ = Confirms j ∧ j ∉ w)).
  { intros j c0 at_ _ Hj. destruct (H1 j c0 Hj) as [?|(_ & ? & _)]; [by left|done]. }
  destruct (H1 k c E) as [[r ->]|(_ & ? & _)]; [|done]. destruct r as [|r]; cbn.
  - exists (Confirms k). eexists. split; [done|]. split.
    + intros j c' Hj. destruct (decide (k = j)) as [->|Hne]; [|rewrite list_lookup_insert_ne in Hj by done; by apply Hother].
      rewrite list_lookup_insert_eq in Hj by done. injection Hj as <-. by right.
    + intros j [= <-]. by rewrite length_insert.
  - exists Awaits. eexists. split; [done|]. split; [|done].
    intros j c' Hj. destruct (decide (k = j)) as [->|Hne]; [|rewrite list_lookup_insert_ne in Hj by done; by apply Hother].
    rewrite list_lookup_insert_eq in Hj by done. injection Hj as <-. left. by eexists.
Qed.

Lemma engine_does_ind {A} (P : Config → Prop) (m : GoM Engine A) s k :
  (∀ a e, m (lp_engine s) = Ret (a, e) → P (k (with_engine e s))) → (∀ p, P (Crashed p)) → P (engine_does m s k).
Proof. intros H1 H2. unfold engine_does. destruct (m (lp_engine s)) as [[a e]|p]; [by eapply H1|done]. Qed.

(** Equal but for new connections, the pausing and the context. *)
Definition same (s s' : Loop) : Prop :=
  lp_engine s' = lp_engine s ∧ lp_in s' = lp_in s ∧ lp_pay s' = lp_pay s ∧ lp_confirms s' = lp_confirms s ∧
  lp_taken s' = lp_taken s ∧ lp_sent s' = lp_sent s.

Lemma same_Inv e0 s s' at_ : same s s' → Inv e0 (Running s at_) → Inv e0 (Running s' at_).
Proof.
  intros (Ee & Ei & Ep & Ec & Et & Es) [[] HC]. split; [|cbn; unfold waiting; by rewrite Ec, Et, Ep].
  constructor; cbn; by rewrite ?Ee, ?Ei, ?Ep, ?Ec, ?Et, ?Es.
Qed.

Lemma Shutdown_same (s : Loop) : same s (Shutdown s).
Proof. unfold Shutdown. by destruct (ShuttingDown s). Qed.

(** The loop looks again and goes elsewhere. *)
Lemma stays_Inv e0 s s' {A} (m : GoM Engine A) at_ at' : Inv e0 (Running s at_) →
  (∀ k, at_ ≠ Confirms k) → (∀ k, at' ≠ Confirms k) → same s s' → (∀ e a e', m e = Ret (a, e') → e' = e) →
  ∀ k, (∀ s1, ∃ s2, k s1 = Running s2 at' ∧ same s1 s2) → Inv e0 (engine_does m s' k).
Proof.
  intros HI Ha Ha' Hs Hm k Hk. apply engine_does_ind; [|done]. intros a e H. apply Hm in H as ->.
  destruct (Hk (with_engine (lp_engine s') s')) as (s2 & -> & Hs2). apply (same_Inv e0 _ s2 at' Hs2).
  apply (same_Inv e0 s); [by destruct s'|]. destruct HI as [HA HC]. split; [done|].
  exact (Confirming_idle _ _ _ _ _ Ha Ha' HC).
Qed.

(** A message is taken, handled or not. *)
Lemma message_Inv e0 s b c at_ (m : GoM Engine unit) h : Inv e0 (Running s at_) → (∀ k, at_ ≠ Confirms k) →
  try_recv (lp_in s) = Some (Some b, c) →
  (∀ e', m (lp_engine s) = Ret (tt, e') → if h : bool then handle_input run_cb fuel (IMessage b) (lp_engine s) = Ret (tt, e') else e' = lp_engine s) →
  Inv e0 (engine_does m (takes_in h (IMessage b) (with_in c s)) (λ s, Running s at_)).
Proof.
  intros [HA HC] Ha Er Hm. apply engine_does_ind; [|done]. intros [] e H. apply Hm in H. destruct HA.
  destruct (queue_recv b _ _ acc_in0 Er) as [Hq Hp]. split; [|exact (Confirming_idle _ _ _ _ _ Ha Ha HC)].
  constructor; cbn; try done.
  - rewrite handled_app. destruct h.
    + change (handled [(true, IMessage b)]) with [IMessage b : input]. by eapply handle_inputs_app.
    + change (handled [(false, IMessage b)]) with (@nil input). by rewrite app_nil_r, H.
  - change (messages (lp_taken s ++ [(h, IMessage b)]) ++ pending c = lp_sent s).
    rewrite messages_app, <- app_assoc. change (messages [(h, IMessage b)] ++ pending c) with (b :: pending c). by rewrite <- Hp.
  - rewrite payments_app. change (payments [(h, IMessage b)]) with (@nil Pay). by rewrite app_nil_r.
Qed.

(** A payment is taken: it was the oldest that waits, and its number is its own. *)
Lemma payment_taken e0 s p c at_ : Inv e0 (Running s at_) → try_recv (lp_pay s) = Some (Some p, c) →
  queue c ∧ waiting s = (p_confirm <$> discarded (lp_taken s)) ++ p_confirm p :: (p_confirm <$> pending c) ∧
  (p_confirm p < length (lp_confirms s))%nat ∧
  p_confirm p ∉ (p_confirm <$> discarded (lp_taken s)) ++ (p_confirm <$> pending c).
Proof.
  intros [HA _] Er. destruct HA. destruct (queue_recv p _ _ acc_pay0 Er) as [Hq Hp]. rewrite Hp, !fmap_app, fmap_cons in acc_numbers0.
  split; [done|]. split; [unfold waiting; by rewrite Hp, fmap_app|].
  assert (Hin : p_confirm p ∈ seq 0 (length (lp_confirms s))) by (rewrite <- acc_numbers0; set_solver).
  apply elem_of_seq in Hin. split; [lia|].
  pose proof (NoDup_seq 0 (length (lp_confirms s))) as Hnd. rewrite <- acc_numbers0 in Hnd.
  apply NoDup_app in Hnd as (_ & Hd & Hn). apply NoDup_cons in Hn as [Hn _].
  rewrite elem_of_app. intros [Hi|Hi]; [|done]. apply (Hd (p_confirm p)); [|set_solver].
  apply list_elem_of_fmap in Hi as (x & -> & Hx). apply list_elem_of_fmap_2. by apply discarded_payments.
Qed.

(** Handled or not, the accounts are kept; the confirmation comes after. *)
Lemma payment_Accounts e0 s p c e (h : bool) : Accounts e0 s → try_recv (lp_pay s) = Some (Some p, c) →
  (if h then handle_input run_cb fuel (IPayment p) (lp_engine s) = Ret (tt, e) else e = lp_engine s) →
  Accounts e0 (with_engine e (takes_in h (IPayment p) (with_pay c s))).
Proof.
  intros [] Er Hm. destruct (queue_recv p _ _ acc_pay0 Er) as [Hq Hp]. constructor; cbn; try done.
  - rewrite handled_app. destruct h.
    + change (handled [(true, IPayment p)]) with [IPayment p : input]. by eapply handle_inputs_app.
    + change (handled [(false, IPayment p)]) with (@nil input). by rewrite app_nil_r, Hm.
  - rewrite messages_app. change (messages [(h, IPayment p)]) with (@nil bytes). by rewrite app_nil_r.
  - rewrite payments_app. change (payments [(h, IPayment p)]) with [p]. by rewrite <- app_assoc, <- acc_numbers0, Hp.
Qed.

(** A payment handled: then the loop confirms it. *)
Lemma handled_Inv e0 s p c : Inv e0 (Running s Awaits) → try_recv (lp_pay s) = Some (Some p, c) →
  Inv e0 (engine_does (enter Awaits ;; handle_input run_cb fuel (IPayment p)) (takes_in true (IPayment p) (with_pay c s)) (confirm (p_confirm p))).
Proof.
  intros HI Er. destruct (payment_taken e0 s p c Awaits HI Er) as (_ & Ew & Hl & Hn). destruct HI as [HA HC].
  apply engine_does_ind; [|done]. intros [] e H. apply bind_inv in H as ([] & e1 & H1 & H2). apply enter_id in H1 as ->.
  assert (HA' := payment_Accounts e0 s p c e true HA Er H2).
  assert (Hw : waiting (with_engine e (takes_in true (IPayment p) (with_pay c s)))
               = (p_confirm <$> discarded (lp_taken s)) ++ (p_confirm <$> pending c)).
  { unfold waiting. cbn. rewrite discarded_app. change (discarded [(true, IPayment p)]) with (@nil Pay).
    by rewrite app_nil_r, fmap_app. }
  set (s1 := with_engine e _) in *.
  destruct (confirm_run s1 (p_confirm p) (waiting s1)) as (at1 & c1 & E1 & HC1); [done|by rewrite Hw|exact (Confirming_idle _ _ _ _ _ Awaits_idle Awaits_idle HC)|].
  rewrite E1. split; [|exact HC1]. destruct HA'. constructor; try done. cbn. by rewrite length_insert.
Qed.

(** A payment discarded. *)
Lemma discarded_Inv e0 s p c : Inv e0 (Running s Paused) → try_recv (lp_pay s) = Some (Some p, c) →
  Inv e0 (engine_does (enter Paused) (takes_in false (IPayment p) (with_pay c s)) (λ s, Running s Paused)).
Proof.
  intros [HA HC] Er. apply engine_does_ind; [|done]. intros [] e H. apply enter_id in H as ->.
  split; [exact (payment_Accounts e0 s p c (lp_engine s) false HA Er eq_refl)|]. exact (Confirming_idle _ _ _ _ _ Paused_idle Paused_idle HC).
Qed.

(** What others do to the channels. *)
Lemma arrives_Inv e0 s at_ b r c : Inv e0 (Running s at_) → send b (lp_in s) = Ret (r, c) →
  Inv e0 (Running (with_sent (lp_sent s ++ [b]) (with_in c s)) at_).
Proof.
  intros [[] HC] E. split; [|done]. destruct (queue_send b (lp_in s) acc_in0) as (r' & c' & E' & Hq & Hp).
  rewrite E in E'. injection E' as <- <-. constructor; cbn; try done. by rewrite Hp, app_assoc, acc_sent0.
Qed.

Lemma pays_Inv e0 s at_ p r c : Inv e0 (Running s at_) → send (MkPay p (length (lp_confirms s))) (lp_pay s) = Ret (r, c) →
  Inv e0 (Running (with_confirms (lp_confirms s ++ [make 0]) (with_pay c s)) at_).
Proof.
  intros [[] HC] E. destruct (queue_send (MkPay p (length (lp_confirms s))) (lp_pay s) acc_pay0) as (r' & c' & E' & Hq & Hp).
  rewrite E in E'. injection E' as <- <-. split.
  - constructor; cbn; try done.
    rewrite Hp, app_assoc, fmap_app, acc_numbers0, length_app, seq_app. done.
  - unfold waiting. cbn. rewrite Hp, app_assoc, fmap_app. cbn. by apply Confirming_pays.
Qed.

Lemma awaits_Inv e0 s at_ k c : Inv e0 (Running s at_) → lp_confirms s !! k = Some c →
  Inv e0 (Running (with_confirms (<[k := (recv c).2]> (lp_confirms s)) s) at_).
Proof.
  intros [[] HC] E. split; [constructor; cbn; try done; by rewrite length_insert|]. by apply Confirming_awaits.
Qed.

Lemma called_Inv e0 s at_ m : Inv e0 (Running s at_) →
  Inv e0 (engine_does m (takes_in true (ICall m) s) (λ s, Running s at_)).
Proof.
  intros [[] HC]. apply engine_does_ind; [|done]. intros [] e H. split.
  - constructor; cbn; try done.
    + rewrite handled_app. change (handled [(true, ICall m)]) with [ICall m : input]. by eapply handle_inputs_app.
    + rewrite messages_app. change (messages [(true, ICall m)]) with (@nil bytes). by rewrite app_nil_r.
    + rewrite payments_app. change (payments [(true, ICall m)]) with (@nil Pay). by rewrite app_nil_r.
  - unfold waiting. cbn. rewrite discarded_app. change (discarded [(true, ICall m)]) with (@nil Pay). by rewrite app_nil_r.
Qed.

Lemma done_Inv e0 s at_ : (∀ k, at_ ≠ Confirms k) → ∀ f, (∀ s, same s (f s)) → Inv e0 (Running s at_) →
  Inv e0 (engine_does (enter at_) s (λ s, Running (f s) Ended)).
Proof.
  intros Ha f Hf HI. apply (stays_Inv e0 s s (enter at_) at_ Ended HI Ha); [done|done|apply enter_id|].
  intros s1. by exists (f s1).
Qed.

(** A select that takes from no queue. *)
Lemma turns_Inv e0 s s' {A} (m : GoM Engine A) at_ at' : (∀ k, at_ ≠ Confirms k) → (∀ k, at' ≠ Confirms k) → same s s' →
  (∀ e a e', m e = Ret (a, e') → e' = e) → Inv e0 (Running s at_) → Inv e0 (engine_does m s' (λ s, Running s at')).
Proof.
  intros Ha Ha' Hs Hm HI. apply (stays_Inv e0 s s' m at_ at' HI Ha Ha' Hs Hm). intros s1. by exists s1.
Qed.

Lemma pause_id at_ (e : Engine) a e' : (enter at_ ;; local_name) e = Ret (a, e') → e' = e.
Proof. intros H. apply bind_inv in H as (? & ? & H1 & H). apply enter_id in H1 as ->. by apply local_name_id in H. Qed.

Lemma loop_step_Inv e0 c e c' : Inv e0 c → step e c = Some c' → Inv e0 c'.
Proof.
  destruct c as [s at_|p]; [|done]. intros HI. destruct e; cbn -[enter handle_input].
  - destruct at_; [destruct (cancelled s)| |destruct (cancelled s)|]; intros [= <-].
    + by apply (done_Inv e0 s Awaits Awaits_idle Shutdown Shutdown_same).
    + by apply (done_Inv e0 s Paused Paused_idle (λ s, s)).
  - destruct at_; [|done..]. destruct (try_recv (lp_conns s)) as [[[d|] c]|]; intros [= <-].
    by apply (turns_Inv e0 s _ _ Awaits Awaits); [done|done|done|apply (enter_id Awaits)|].
  - destruct at_; try done; destruct (try_recv (lp_in s)) as [[[b|] c]|] eqn:Er; intros [= <-].
    + apply (message_Inv e0 s b c Awaits _ true HI Awaits_idle Er). intros e' H.
      apply bind_inv in H as ([] & ? & H1 & H). by apply (enter_id Awaits) in H1 as ->.
    + apply (message_Inv e0 s b c Paused _ false HI Paused_idle Er). intros e'. apply (enter_id Paused).
  - destruct at_; try done; destruct (try_recv (lp_pay s)) as [[[p|] c]|] eqn:Er; intros [= <-].
    + by apply handled_Inv.
    + by apply discarded_Inv.
  - destruct at_; try done; destruct (try_recv (lp_pause s)) as [[u c]|]; intros [= <-].
    + by apply (turns_Inv e0 s _ _ Awaits Paused); [done|done|done|apply (pause_id Awaits)|].
    + by apply (turns_Inv e0 s _ _ Paused Awaits); [done|done|done|apply (pause_id Paused)|].
  - destruct at_ as [|k| |]; try done. destruct (lp_confirms s !! k) as [c|] eqn:Ek; [|done].
    case_bool_decide as Hb; intros [= <-]. destruct HI as [HA [H1 H2]]. split; [done|]. split; [|done].
    intros j c' Hj. destruct (H1 j c' Hj) as [?|(-> & [= <-] & _)]; [by left|]. rewrite Ek in Hj. by injection Hj as ->.
  - destruct (send b (lp_in s)) as [[r c]|p] eqn:E; intros [= <-]; [|done]. by eapply arrives_Inv.
  - destruct (send _ (lp_pay s)) as [[r c]|q] eqn:E; intros [= <-]; [|done]. by eapply pays_Inv.
  - destruct (lp_confirms s !! k) as [c|] eqn:Ek; [|done]. case_bool_decide; [done|].
    destruct (recv c) as [[a o] c1] eqn:Erc. intros [= <-]. change c1 with (a, o, c1).2. rewrite <- Erc. by apply awaits_Inv.
  - destruct (send d (lp_conns s)) as [[r c]|p] eqn:E; intros [= <-]; [|done]. by apply (same_Inv e0 s).
  - destruct (send tt (lp_pause s)) as [[r c]|p] eqn:E; intros [= <-]; [|done]. by apply (same_Inv e0 s).
  - intros [= <-]. by apply (same_Inv e0 s), HI; apply Shutdown_same.
  - intros [= <-]. by apply (same_Inv e0 s).
  - intros [= <-]. by apply called_Inv.
Qed.

Lemma Start_Inv bufs e : Inv e (Start bufs e).
Proof.
  split; [|by split].
  constructor; cbn; try done; split; [apply make_ok|done|apply make_ok|done].
Qed.

Lemma steps_Inv e0 c c' : rtc steps c c' → Inv e0 c → Inv e0 c'.
Proof. induction 1 as [|c1 c2 c3 [ev Hs] _ IH]; [done|]. intros HI. apply IH. by eapply loop_step_Inv. Qed.

Lemma loop_reachable_Inv bufs e c : rtc steps (Start bufs e) c → Inv e c.
Proof. intros H. by eapply steps_Inv, Start_Inv. Qed.

(** ** Properties *)

(** C17: The engine is what the inputs the loop handled make of the first engine, one after
    the other in the order taken; every message and every payment is taken once and
    in the order it came. *)
Theorem loop_handles_in_order bufs e0 s at_ : rtc steps (Start bufs e0) (Running s at_) →
  handle_inputs (handled (lp_taken s)) e0 = Ret (tt, lp_engine s) ∧
  messages (lp_taken s) ++ pending (lp_in s) = lp_sent s ∧
  p_confirm <$> (payments (lp_taken s) ++ pending (lp_pay s)) = seq 0 (length (lp_confirms s)).
Proof. intros H. apply loop_reachable_Inv in H as [[] _]. done. Qed.

(** The payment [k] is discarded and [r] or more wait for it. *)
Definition dead (k r : nat) (s : Loop) : Prop :=
  k ∈ p_confirm <$> discarded (lp_taken s) ∧
  ∃ r', lp_confirms s !! k = Some (MkChan 0 [] [] r' false) ∧ (r ≤ r')%nat.

Definition stays_dead (k r : nat) (c : Config) : Prop :=
  match c with Running s _ => dead k r s | Crashed _ => True end.

Lemma dead_taken k r s s' l : dead k r s → lp_confirms s' = lp_confirms s → lp_taken s' = lp_taken s ++ l → dead k r s'.
Proof.
  intros [H1 H2] Ec Et. split; [|by rewrite Ec]. rewrite Et, discarded_app, fmap_app, elem_of_app. by left.
Qed.

Lemma dead_same k r s s' : dead k r s → same s s' → dead k r s'.
Proof. intros H (_ & _ & _ & Ec & Et & _). apply (dead_taken k r s s' []); [done|done|]. by rewrite app_nil_r. Qed.

Lemma dead_insert k r s j c : dead k r s → j ≠ k → dead k r (with_confirms (<[j := c]> (lp_confirms s)) s).
Proof. intros [H1 (r' & H2 & Hr)] Hne. split; [done|]. exists r'. cbn. by rewrite list_lookup_insert_ne. Qed.

Lemma dead_awaits k r s j c : dead k r s → lp_confirms s !! j = Some c →
  dead k r (with_confirms (<[j := (recv c).2]> (lp_confirms s)) s).
Proof.
  intros Hd Hj. destruct (decide (j = k)) as [->|Hne]; [|by apply dead_insert].
  destruct Hd as [H1 (r' & H2 & Hr)]. split; [done|]. rewrite H2 in Hj. injection Hj as <-. exists (S r'). cbn.
  split; [|lia]. apply list_lookup_insert_eq. by eapply lookup_lt_Some.
Qed.

(** The loop confirms another payment. *)
Lemma dead_confirm k r s j : dead k r s → j ≠ k → stays_dead k r (confirm j s).
Proof.
  intros Hd Hne. unfold confirm. destruct (lp_confirms s !! j) as [c|]; [|done].
  destruct (send true c) as [[o c']|]; [|done]. by apply dead_insert.
Qed.

Lemma does_dead {A} k r (m : GoM Engine A) s l s' at_ : dead k r s → lp_confirms s' = lp_confirms s → lp_taken s' = lp_taken s ++ l →
  ∀ f, (∀ s, same s (f s)) → stays_dead k r (engine_does m s' (λ s, Running (f s) at_)).
Proof.
  intros Hd Ec Et f Hf. apply engine_does_ind; [|done]. intros a e _. apply (dead_same k r (with_engine e s')), Hf.
  by apply (dead_taken k r s _ l).
Qed.

Lemma goes_dead {A} k r (m : GoM Engine A) s l s' at_ : dead k r s → lp_confirms s' = lp_confirms s → lp_taken s' = lp_taken s ++ l →
  stays_dead k r (engine_does m s' (λ s, Running s at_)).
Proof. intros Hd Ec Et. by apply (does_dead k r m s l s' at_ Hd Ec Et (λ s, s)). Qed.

Lemma step_dead e0 s at_ k r ev c' : Inv e0 (Running s at_) → dead k r s →
  step ev (Running s at_) = Some c' → stays_dead k r c'.
Proof.
  intros HI Hd. assert (E0 : lp_taken s = lp_taken s ++ []) by by rewrite app_nil_r. destruct ev; cbn -[enter handle_input].
  - destruct at_; [destruct (cancelled s)| |destruct (cancelled s)|]; intros [= <-].
    + by apply (does_dead k r _ s [] s Ended Hd eq_refl E0 Shutdown Shutdown_same).
    + by apply (goes_dead k r _ s []).
  - destruct at_; [|done..]. destruct (try_recv (lp_conns s)) as [[[d|] c]|]; intros [= <-]. by apply (goes_dead k r _ s []).
  - destruct at_; try done; destruct (try_recv (lp_in s)) as [[[b|] c]|] eqn:Er; intros [= <-]; by eapply goes_dead.
  - destruct at_; try done; destruct (try_recv (lp_pay s)) as [[[p|] c]|] eqn:Er; intros [= <-]; [|by eapply goes_dead].
    apply engine_does_ind; [|done]. intros [] e _. apply dead_confirm; [by eapply dead_taken|].
    destruct (payment_taken e0 s p c Awaits HI Er) as (_ & _ & _ & Hn). intros <-. apply Hn, elem_of_app. left. apply Hd.
  - destruct at_; try done; destruct (try_recv (lp_pause s)) as [[u c]|]; intros [= <-]; by apply (goes_dead k r _ s []).
  - destruct at_ as [|j| |]; try done. destruct (lp_confirms s !! j) as [c|] eqn:Ek; [|done].
    by case_bool_decide as Hb; intros [= <-].
  - destruct (send b (lp_in s)) as [[o c]|p] eqn:E; intros [= <-]; [|done]. by apply (dead_taken k r s _ []).
  - destruct (send _ (lp_pay s)) as [[o c]|q] eqn:E; intros [= <-]; [|done].
    destruct Hd as [H1 (r' & H2 & Hr)]. split; [done|]. exists r'. cbn. by rewrite lookup_app_l by by eapply lookup_lt_Some.
  - destruct (lp_confirms s !! _) as [c|] eqn:Ek; [|done]. case_bool_decide; [done|].
    destruct (recv c) as [[a o] c1] eqn:Erc. intros [= <-]. change c1 with (a, o, c1).2. rewrite <- Erc. by apply dead_awaits.
  - destruct (send d (lp_conns s)) as [[o c]|p] eqn:E; intros [= <-]; [|done]. by apply (dead_same k r s).
  - destruct (send tt (lp_pause s)) as [[o c]|p] eqn:E; intros [= <-]; [|done]. by apply (dead_same k r s).
  - intros [= <-]. apply (dead_same k r s _ Hd), Shutdown_same.
  - intros [= <-]. by apply (dead_same k r s).
  - intros [= <-]. by eapply goes_dead.
Qed.

Lemma discarded_waits e0 s at_ p : Inv e0 (Running s at_) → (false, IPayment p) ∈ lp_taken s →
  ∃ r, lp_confirms s !! p_confirm p = Some (MkChan 0 [] [] r false) ∧ p_confirm p ∈ p_confirm <$> discarded (lp_taken s).
Proof.
  intros [HA [H1 _]] Hp. assert (Hd : p ∈ discarded (lp_taken s)).
  { unfold discarded, payments. apply list_elem_of_omap. exists (false, IPayment p). split; [|done].
    by apply list_elem_of_filter. }
  assert (Hn : p_confirm p ∈ seq 0 (length (lp_confirms s))).
  { destruct HA as [_ _ <- _ _]. apply list_elem_of_fmap_2, elem_of_app. left. by apply discarded_payments. }
  apply elem_of_seq in Hn. destruct (lookup_lt_is_Some_2 (lp_confirms s) (p_confirm p)) as [c Hc]; [lia|].
  assert (Hk : p_confirm p ∈ p_confirm <$> discarded (lp_taken s)) by by apply list_elem_of_fmap_2.
  destruct (H1 _ c Hc) as [[r ->]|(_ & _ & Hw)]; [by exists r|]. destruct Hw. unfold waiting. rewrite fmap_app, elem_of_app. by left.
Qed.

(** C21: A payment taken in a pause is never confirmed: nobody who waits for it ever goes on,
    and nothing is ever sent to the channel it came with. *)
Theorem discarded_payment_never_confirmed bufs e0 s at_ s' at' p : rtc steps (Start bufs e0) (Running s at_) →
  (false, IPayment p) ∈ lp_taken s → rtc steps (Running s at_) (Running s' at') →
  ∃ r r', lp_confirms s !! p_confirm p = Some (MkChan 0 [] [] r false) ∧
    lp_confirms s' !! p_confirm p = Some (MkChan 0 [] [] r' false) ∧ (r ≤ r')%nat.
Proof.
  intros H1 Hp H2. apply loop_reachable_Inv in H1 as HI. destruct (discarded_waits e0 s at_ p HI Hp) as (r & Hr & Hk).
  assert (Hd : dead (p_confirm p) r s) by (split; [done|by exists r]).
  assert (Hgo : ∀ c c', rtc steps c c' → Inv e0 c → stays_dead (p_confirm p) r c → stays_dead (p_confirm p) r c').
  { clear. induction 1 as [|[s1 at1|q] c2 c3 [ev Hs] _ IH]; [done| |done]. intros HI Hd.
    apply IH; [by eapply loop_step_Inv|by eapply step_dead]. }
  destruct (Hgo _ _ H2 HI Hd) as [_ (r' & Hr' & Hle)]. by exists r, r'.
Qed.

(** ** Confirming, and the end *)

Definition parked : chan bool := MkChan 0 [] [true] 0 false.

(** While the confirmation [k] is parked, only its payer can move the loop. *)
Lemma parked_holds s k ev c' : lp_confirms s !! k = Some parked → ev ≠ AwaitsConfirm k →
  step ev (Running s (Confirms k)) = Some c' →
  match c' with
  | Running s' at' => at' = Confirms k ∧ lp_confirms s' !! k = Some parked
  | Crashed _ => True
  end.
Proof.
  intros Hk Hne. destruct ev as [| | | | | |b|p|j|d| | | |m]; cbn -[enter handle_input]; try done.
  - rewrite Hk. by case_bool_decide.
  - destruct (send b (lp_in s)) as [[o c]|q]; by intros [= <-].
  - destruct (send _ (lp_pay s)) as [[o c]|q]; intros [= <-]; [|done]. split; [done|]. cbn. by apply lookup_app_l_Some.
  - destruct (lp_confirms s !! j) as [c|]; [|done]. case_bool_decide; [done|].
    destruct (recv c) as [[a o] c1]. intros [= <-]. split; [done|]. cbn. rewrite list_lookup_insert_ne; [done|]. by intros ->.
  - destruct (send d (lp_conns s)) as [[o c]|q]; by intros [= <-].
  - destruct (send tt (lp_pause s)) as [[o c]|q]; by intros [= <-].
  - intros [= <-]. split; [done|]. unfold Shutdown. by destruct (ShuttingDown s).
  - by intros [= <-].
  - intros [= <-]. by apply engine_does_ind.
Qed.

Lemma loop_run_app es es' c : run run_cb fuel (es ++ es') c = run run_cb fuel es c ≫= run run_cb fuel es'.
Proof. revert c. induction es as [|e es IH]; intros c; [done|]. cbn -[step]. destruct (step e c) as [c1|]; [apply IH|done].
Qed.

Lemma payer_goes bufs e0 s k : rtc steps (Start bufs e0) (Running s (Confirms k)) →
  ∃ es s', run run_cb fuel es (Running s (Confirms k)) = Some (Running s' Awaits) ∧
    lp_engine s' = lp_engine s ∧ cancelled s' = cancelled s.
Proof.
  intros H. apply loop_reachable_Inv in H as [HA [H1 H2]].
  destruct (lookup_lt_is_Some_2 _ _ (H2 k eq_refl)) as [c Hc]. destruct (H1 k c Hc) as [[r ->]|(-> & _ & Hw)].
  - exists [Confirmed], s. cbn. by rewrite Hc.
  - exists [AwaitsConfirm k; Confirmed]. eexists. cbn. rewrite Hc. rewrite bool_decide_false; cbn.
    2: { intros Hin. apply Hw. unfold waiting, pending. rewrite !fmap_app, !elem_of_app. by right; right. }
    rewrite list_lookup_insert_eq by by eapply lookup_lt_Some. done.
Qed.

(** The loop that confirms a payment goes on as soon as its payer waits for it, and,
    when nobody did before, not sooner. *)
Theorem payer_lets_loop_go bufs e0 s k : rtc steps (Start bufs e0) (Running s (Confirms k)) →
  (∃ es s', run run_cb fuel es (Running s (Confirms k)) = Some (Running s' Awaits) ∧ lp_engine s' = lp_engine s) ∧
  (lp_confirms s !! k = Some parked → ∀ ev s' at', ev ≠ AwaitsConfirm k →
     step ev (Running s (Confirms k)) = Some (Running s' at') → at' = Confirms k ∧ lp_confirms s' !! k = Some parked).
Proof.
  intros H. split; [by destruct (payer_goes bufs e0 s k H) as (es & s' & ? & ? & _); exists es, s'|].
  intros Hk ev s' at' Hne Hs. by apply (parked_holds s k ev _ Hk Hne Hs).
Qed.

Lemma enter_Paused (e : Engine) : enter Awaits e = Ret (tt, e) → enter Paused e = Ret (tt, e).
Proof. cbn. intros H. apply bind_inv in H as ([] & e1 & H1 & H). by apply LogEntry_id in H1 as ->. Qed.

Lemma select_ends s at_ : enter Awaits (lp_engine s) = Ret (tt, lp_engine s) → cancelled s = true →
  (at_ = Awaits ∨ at_ = Paused) → ∃ s', step TakesDone (Running s at_) = Some (Running s' Ended).
Proof.
  intros He Hc [ ->| ->]; cbn -[enter]; rewrite Hc; unfold engine_does.
  - rewrite He. by eexists.
  - rewrite (enter_Paused _ He). by eexists.
Qed.

(** When the context has ended the loop can end, wherever it is; once it has, it takes
    nothing more. *)
Theorem cancelled_loop_can_end bufs e0 s at_ : rtc steps (Start bufs e0) (Running s at_) →
  cancelled s = true → enter Awaits (lp_engine s) = Ret (tt, lp_engine s) →
  ∃ es s', run run_cb fuel es (Running s at_) = Some (Running s' Ended).
Proof.
  intros H Hc He. assert (Hsel : ∀ s at_, enter Awaits (lp_engine s) = Ret (tt, lp_engine s) → cancelled s = true →
    (at_ = Awaits ∨ at_ = Paused) → ∃ es s', run run_cb fuel es (Running s at_) = Some (Running s' Ended)).
  { clear. intros s at_ He Hc Ha. destruct (select_ends s at_ He Hc Ha) as [s' Hs]. exists [TakesDone], s'. cbn -[step]. by rewrite Hs. }
  destruct at_ as [|k| |]; [by apply Hsel; [..|left]| |by apply Hsel; [..|right]|by exists [], s].
  destruct (payer_goes bufs e0 s k H) as (es & s' & Hr & Ee & Ec).
  destruct (Hsel s' Awaits) as (es' & s2 & Hr'); [by rewrite Ee|by rewrite Ec|by left|].
  exists (es ++ es'), s2. by rewrite loop_run_app, Hr.
Qed.

(** ** The goroutines of [peerstore.go] *)

(** When the context has ended the subscription only answers errors: the loop of the ad
    handler never looks at the context again and turns for ever. *)
Theorem RunAdHandler_spins {M} (turns : list (M + error)) err done :
  Forall (λ t, ∃ e, t = inr e) turns → RunAdHandler turns err done = None.
Proof. induction 1 as [|t turns [e ->] _ IH]; [done|]. cbn. by rewrite IH. Qed.

(** A message handled after the end of the context is what ends it. *)
Theorem RunAdHandler_ends {M} (turns : list (M + error)) err m l :
  turns = l ++ [inl m] → Forall (λ t, ∃ e, t = inr e) l → err m = None →
  RunAdHandler turns err true = Some (length turns).
Proof.
  intros -> Hl Hm. induction Hl as [|t l [e ->] _ IH]; cbn; [by rewrite Hm|]. by rewrite IH.
Qed.
End Props.

(** ** An engine to run *)

Module LoopWitness.
#[local] Existing Instances Toy.crypto Toy.multiaddrs ToyNet.transports ToyNet.peers ToyEngine.env.

(** Its local node has a transport. *)
Definition node : Node :=
  NewNode (arr_of 8 [x01]) [[x04]] (MkIdentity (Keys_Pub (ToySess.key x01)) (Keys_Bytes (ToySess.key x01))
    (Some (Keys_Prv (ToySess.key x01)))) (Some ([] : list bytes)) 10.
Definition engine : Engine (User := unit) (IntroHook := unit) :=
  ToyEngine.around (with_nodeAt (<[1%positive := node]> (nodeAt ToySess.heap)) ToySess.heap).
Definition message : bytes := [x01; x02; x03; x04; x05].
Definition paid : Payment := MkPayment (arr_of 8 [x09]) (arr_of 32 [x0a]) 700.

Abbreviation run := (EventLoop.run BillWitness.run 5).
Definition start := Start (User := unit) (IntroHook := unit) 8 engine.
Definition at_place (c : option (Config (User := unit) (IntroHook := unit))) : option (place * list nat * list nat) :=
  match c with
  | Some (Running s a) =>
      Some (a, ch_receivers <$> lp_confirms s, length <$> [messages (lp_taken s); pending (lp_in s); lp_sent s])
  | _ => None
  end.

(** A message and a payment are handled; the payment is added to those that wait for
    their sessions, and the loop goes on when the payer looks. *)
Definition handles : list (event (User := unit) (IntroHook := unit)) := [Arrives message; Pays paid; TakesPayment; TakesMessage].

Example message_waits_for_payer : at_place (run handles start) = None ∧
  at_place (run [Arrives message; Pays paid; TakesPayment; AwaitsConfirm 0; Confirmed; TakesMessage] start)
    = Some (Awaits, [0%nat], [1; 0; 1]%nat).
Proof. split; vm_compute; reflexivity. Qed.

(** In a pause both are lost, and the payer waits for ever. *)
Definition loses : list (event (User := unit) (IntroHook := unit)) :=
  [Arrives message; Pays paid; AwaitsConfirm 0; Pauses; TakesPause; TakesMessage; TakesPayment].

Example pause_loses : at_place (run loses start) = Some (Paused, [1%nat], [1; 0; 1]%nat).
Proof. vm_compute. reflexivity. Qed.

Lemma at_place_run c a ws ns : at_place c = Some (a, ws, ns) →
  ∃ s, c = Some (Running s a) ∧ ch_receivers <$> lp_confirms s = ws ∧
    length <$> [messages (lp_taken s); pending (lp_in s); lp_sent s] = ns.
Proof. destruct c as [[s a'|]|]; intros [= <- <- <-]. by exists s. Qed.

Lemma run_steps es c c' : run es c = Some c' → rtc (steps BillWitness.run 5) c c'.
Proof.
  revert c. induction es as [|e es IH]; intros c E; [by injection E as ->|]. cbn -[step] in E.
  destruct (step BillWitness.run 5 e c) as [c1|] eqn:Es; [|done]. eapply rtc_l; [by exists e|by apply IH].
Qed.
End LoopWitness.

#[local] Existing Instances Toy.crypto Toy.multiaddrs ToyNet.transports ToyNet.peers ToyEngine.env.

Lemma loop_handles_in_order_witness : ∃ s,
  rtc (steps BillWitness.run 5) LoopWitness.start (Running s Paused) ∧
  handle_inputs BillWitness.run 5 (handled (lp_taken s)) LoopWitness.engine = Ret (tt, lp_engine s) ∧
  messages (lp_taken s) ++ pending (lp_in s) = lp_sent s.
Proof.
  destruct (LoopWitness.at_place_run _ _ _ _ LoopWitness.pause_loses) as (s & E & _).
  apply LoopWitness.run_steps in E. exists s. split; [exact E|].
  destruct (loop_handles_in_order BillWitness.run 5 8 LoopWitness.engine s Paused E) as (H1 & H2 & _). by split.
Defined.

Lemma discarded_payment_never_confirmed_witness :
  let s := match LoopWitness.run LoopWitness.loses LoopWitness.start with Some (Running s _) => Some s | _ => None end in
  ∃ s0 r r', s = Some s0 ∧ lp_confirms s0 !! 0%nat = Some (MkChan 0 [] [] r false) ∧ (r ≤ r')%nat.
Proof.
  intros s. destruct (LoopWitness.at_place_run _ _ _ _ LoopWitness.pause_loses) as (s0 & E & _).
  assert (Hd : match LoopWitness.run LoopWitness.loses LoopWitness.start with
               | Some (Running s1 _) => p_confirm <$> discarded (lp_taken s1) | _ => [] end = [0%nat])
    by (vm_compute; reflexivity).
  rewrite E in Hd. assert (Hp : 0%nat ∈ p_confirm <$> discarded (lp_taken s0)) by (rewrite Hd; by left).
  apply list_elem_of_fmap in Hp as (p & Hk & Hp). apply discarded_taken in Hp.
  exists s0. destruct (discarded_payment_never_confirmed BillWitness.run 5 8 LoopWitness.engine s0 Paused s0 Paused
    p (LoopWitness.run_steps _ _ _ E) Hp (rtc_refl _ _)) as (r & r' & H1 & _ & H3).
  rewrite <- Hk in H1. exists r, r'. split; [unfold s; by rewrite E|]. by split.
Defined.

Lemma payer_lets_loop_go_witness : ∃ s,
  rtc (steps BillWitness.run 5) LoopWitness.start (Running s (Confirms 0)) ∧
  ∃ es s', run BillWitness.run 5 es (Running s (Confirms 0)) = Some (Running s' Awaits).
Proof.
  assert (Ew : LoopWitness.at_place (LoopWitness.run [Arrives LoopWitness.message; Pays LoopWitness.paid; TakesPayment] LoopWitness.start)
    = Some (Confirms 0, [0%nat], [0; 1; 1]%nat)) by (vm_compute; reflexivity).
  destruct (LoopWitness.at_place_run _ _ _ _ Ew) as (s & E & _). apply LoopWitness.run_steps in E. exists s. split; [exact E|].
  destruct (payer_lets_loop_go BillWitness.run 5 8 LoopWitness.engine s 0 E) as [(es & s' & Hr & _) _]. by exists es, s'.
Defined.
